(* ===== verification/_CoqProject ===== *)
-Q . S2P
Prelude.v
Endian.v
KeyEncoding.v
Hierarchical.v
BtreeCompression.v
RecordCodec.v
SlottedPage.v
LockTable.v
DbHeader.v
Lz4.v
FileIo.v
BufferPool.v
PoolClient.v
BtreeNode.v
NodeView.v
BtreeSearch.v
BtreeModify.v
BtreeInsert.v
BtreeDelete.v
Cursor.v
VersionChain.v
Overflow.v
WalLog.v
Transaction.v
MvccStore.v
StorageOps.v
KeyStore.v
StorageProps.v
VersionIter.v
WalRecovery.v
Engine.v
Sessions.v
StorageCursor.v
Api.v
