(* ===== verification/Prelude.v ===== *)
(** * A verification library for the Garry storage engine

    Garry (C, [src/src]) is an embedded transactional key-value store: a file of
    fixed-size pages, a write-ahead log, a B-tree that maps keys to the version
    chains of their values, and transactions that read the versions they may see.

    ** The parts and their files

    Pages and files:
    - [FileIo.v]: files, [platform_src/posix/file_io.c]
    - [BufferPool.v]: the buffer pool, [buffer_pool.c]; [PoolClient.v]: what a client
      of the pool may rely on ([ready], [keeps]): accesses left, pins, no failing write
    - [SlottedPage.v]: slotted pages, [slotted_page.c], [storage_core.c]
    - [DbHeader.v]: settings and the header, [engine_settings.c], [db_header.c]

    Codecs:
    - [Endian.v]: 32-bit fields, [util_endian.h]; [KeyEncoding.v]: [key_encoding.c];
      [Hierarchical.v]: [hierarchical.c], [keysplit.c]; [RecordCodec.v]:
      [record_codec.c]; [BtreeCompression.v]: [btree_compression.c]; [Lz4.v]: [lz4.c]

    The B-tree:
    - [BtreeNode.v], [NodeView.v]: nodes in memory and on pages, [btree_node.c]
    - [BtreeSearch.v]: [btree_search.c], and the tree of pages ([tree_at], [btree])
    - [BtreeModify.v], [BtreeInsert.v]: insertion, [btree_modify.c];
      [BtreeDelete.v]: deletion, the same file
    - [Cursor.v]: the cursor over the leaves, [btree_cursor.c]

    Versions and transactions:
    - [VersionChain.v], [Overflow.v]: chain pages and overflow pages, [version_chain.c];
      [VersionIter.v]: the iterator at its end
    - [WalLog.v]: records, the log, the scan for commits: [wal_record.c], [wal_log.c],
      [wal_recovery.c]; [WalRecovery.v]: the replay, [wal_recovery.c]
    - [LockTable.v]: [lock_table.c]
    - [Transaction.v], [MvccStore.v]: the transaction table, visibility, garbage
      collection and checkpoints: [transaction.c], [storage_txn.c], [gc.c],
      [wal_checkpoint.c]

    The storage layer:
    - [StorageOps.v]: get, set, delete, [storage_ops.c]; [KeyStore.v]: the store as a
      map from keys to version chains ([stored], [store]); [StorageProps.v]: what the
      operations guarantee
    - [Engine.v]: creating, opening and closing, [transaction.c], [storage_engine.c]
    - [Sessions.v]: a small database of versions, [database], and the refinement of it by
      any sequence of calls of the storage layer
    - [StorageCursor.v]: cursors and navigation, [storage_cursor.c],
      [storage_navigation.c]
    - [Api.v]: the public interface, [garry_api.c], [garry_config.c], [garry_types.c]

    ** How the C code is modelled

    A C function is a Coq function of the same name.  What it reads and writes
    through pointers is passed and returned; a result [None] of the outer
    [option] is an execution that C leaves undefined (a read or write outside
    its object, a signed overflow where the code is exposed to one), so every
    theorem that a function returns [Some] is also a memory-safety theorem.
    Errors the code reports are values: booleans, [-1], or an inner [option] for
    a pointer that may be [NULL] or a call that returns 0; what such a call leaves in
    the caller's buffers is not kept.  Bytes are integers 0..255 in [list Z], machine
    integers are [Z] with the wrap-around written out ([u8], [u32], [i32]).  A
    pointer to a page of the buffer pool is the index of its slot; the engine is the
    record [garry_engine_handle] that every operation takes and returns.  Local
    buffers that C leaves uninitialised start with zeros.

    Loops are [forZ] (counted), [scan] (counted with early exit), [while] with a
    bound, or a [Fixpoint].  Where the bound is not the length of the input it is fuel
    given by the caller, [oc_fuel] for the storage layer, and the theorems say how
    much is enough: more than the height of the tree for a descent, at least the pages
    of the tree for a walk along the leaves, more than the keys for a walk over the
    entries, the file length over 792 for a pass over the log.  A loop that exceeds
    its bound is [None], so the theorems also show that the loops end.

    What the environment decides is an argument: the results of [malloc] and [realloc]
    (booleans, or records of them: [outcomes], [read_mem], [recovery_outcomes],
    [open_mem]), the contents of the memory [malloc] gives the transaction table
    ([om_active], [om_states]), the files that open(2) gives ([os]), and for writes
    the outcomes carried by the descriptor of [FileIo.v], which may be short or fail.
    A read of a file is short only at the end of the file, and never fails.
    The conditions of an operation are records ([can_store], [can_delete],
    [can_scan], ...): accesses of the pool left before its counters wrap, room for
    pins, room for page ids, memory and fuel.

    Locks of the platform serialise the operations they guard, so an operation
    is one step.

    ** What is shown

    - [FileIo.v], [BufferPool.v]: the pool refines a map from page ids to contents, and
      closing it leaves the file equal to the map; and that reuse of a freed page
      breaks the map.
    - [SlottedPage.v], [BtreeNode.v]: records and nodes are read back as written, when
      their keys and values have at most 255 bytes and their records fit the page.
    - [BtreeSearch.v], [BtreeInsert.v]: on trees of any height the search finds what
      the map of the tree holds, and insertion refines insertion into that map and
      keeps the links of the leaves; what happens when memory runs out and when keys
      have 256 bytes.
    - [BtreeDelete.v]: deletion refines deletion from that map as long as no node on
      the path underflows; a deletion that underflows a node can make other keys
      unreachable ([delete_hides_key]).
    - [Cursor.v], [StorageCursor.v]: cursors end and enumerate exactly the keys with
      the prefix, in order; next, previous, existence and skipping agree with the map of
      visible values; the last key can be missed.
    - [VersionChain.v], [VersionIter.v], [Overflow.v], [MvccStore.v]: snapshot reads,
      pruning, overflow pages, the history of a key, the invariant of the transaction
      table with the ids it hands out, none of them twice; and where pruning and
      repeated reads go wrong.
    - [WalLog.v], [WalRecovery.v], [Engine.v]: records read back, torn tails, recovery
      as the replay of the committed records on the store, durability of committed sets
      across closing and opening; and what recovery loses, repeats or revives.
    - [StorageProps.v]: sets are read by their transaction, isolated from the others,
      visible after the commit and hidden after a rollback; deletions; status codes.
    - [Sessions.v]: from a new database, any interleaving of begins, gets, sets, deletes,
      commits and rollbacks gives the answers of the database of versions, whose rules
      fit on a page; a get returns only what its own transaction set or what was
      committed.  The bounds ([limits]) are an argument: each call needs
      [call_cost] accesses of the pool and [call_ids] page ids, and the tree grows by one
      level at most.
    - [LockTable.v]: an exclusive lock excludes the other transactions over any sequence
      of exclusive requests and releases, the requests that the storage layer makes.
    - [DbHeader.v], [KeyEncoding.v], [Hierarchical.v], [RecordCodec.v], [Lz4.v]: round
      trips, orders, detection of corruption, safety on arbitrary input.
    - [Api.v]: strings are read back, the walk with a visitor; short buffers are
      overrun and the count is forgotten on opening.

    ** Not modelled

    open(2) and unlink(2) themselves and the Windows files, which are system calls;
    mutexes and threads ([platform_src/*/threading.c]), since every operation they
    guard is one step; the language bindings ([wrappers]) and the tests, which are
    clients of the public interface.  A deletion from the B-tree that merges nodes is modelled
    but has no refinement theorem, since it does not keep the map; the storage layer
    never calls it.  A visitor or client that changes the store
    while a cursor is open is outside the theorems about cursors.

    This file holds what the components share: integers and bytes, buffers,
    loops, their lemmas, tactics and hint databases. *)

From stdpp Require Export base tactics option list numbers relations.
From Stdlib Require Export ZArith Lia.

#[global] Open Scope Z_scope.
#[export] Set Default Goal Selector "!".

(** * Machine integers *)

(** [garry_u8], [garry_u16], [garry_u32] and the wrap-around of a value
    converted to the signed 32-bit [garry_i32]. *)
Definition u8 (x : Z) : Z := x mod 256.
Definition u32 (x : Z) : Z := x mod 2 ^ 32.
Definition i32 (x : Z) : Z := (x + 2 ^ 31) mod 2 ^ 32 - 2 ^ 31.

(** The range of a [garry_i32] and of a byte. *)
Definition is_i32 (x : Z) : Prop := - 2 ^ 31 <= x < 2 ^ 31.
Definition is_byte (x : Z) : Prop := 0 <= x < 256.
#[global] Instance is_byte_dec x : Decision (is_byte x) := and_dec _ _.
#[global] Instance is_i32_dec x : Decision (is_i32 x) := and_dec _ _.

(** [if (b < 0) b += 256;], the idiom every reader of a raw byte uses. *)
Definition norm_byte (x : Z) : Z := if decide (x < 0) then x + 256 else x.

(** * Buffers

    A C object of [n] elements is a list of length [n]; an access outside it
    is undefined behaviour, the [None] of the option monad.  A theorem that an
    operation returns [Some] thus includes that it stays inside its buffers. *)
Definition zlen {A} (l : list A) : Z := Z.of_nat (length l).

Section Buffers.
Context {A : Type}.
Implicit Types b s : list A.

Definition rd (b : list A) (i : Z) : option A :=
  if decide (0 <= i) then b !! Z.to_nat i else None.

Definition wr (b : list A) (i : Z) (v : A) : option (list A) :=
  if decide (0 <= i) then _ ← b !! Z.to_nat i; Some (<[Z.to_nat i := v]> b) else None.

(** [memcpy] out of and into a buffer. *)
Definition slice (b : list A) (off n : Z) : option (list A) :=
  if decide (0 <= off /\ 0 <= n /\ off + n <= zlen b)
  then Some (take (Z.to_nat n) (drop (Z.to_nat off) b)) else None.

Definition blit (b : list A) (off : Z) (s : list A) : option (list A) :=
  if decide (0 <= off /\ off + zlen s <= zlen b)
  then Some (take (Z.to_nat off) b ++ s ++ drop (Z.to_nat off + length s) b)
  else None.
End Buffers.

Definition memcpy {A} (dst : list A) (doff : Z) (src : list A) (soff n : Z)
  : option (list A) :=
  s ← slice src soff n; blit dst doff s.

(** [memset(b + off, v, n)]. *)
Definition memset {A} (b : list A) (off : Z) (v : A) (n : Z) : option (list A) :=
  blit b off (replicate (Z.to_nat n) v).

Definition zeros (n : Z) : list Z := replicate (Z.to_nat n) 0.

(** * Loops *)

(** [for (i = lo; i < hi; i++) s = body(i, s);] *)
Fixpoint for_n {S} (n : nat) (i : Z) (body : Z -> S -> option S) (s : S) : option S :=
  match n with
  | O => Some s
  | Datatypes.S n' => s' ← body i s; for_n n' (i + 1) body s'
  end.

Definition forZ {S} (lo hi : Z) (body : Z -> S -> option S) (s : S) : option S :=
  for_n (Z.to_nat (hi - lo)) lo body s.

(** [while (cond(s)) s = body(s);] with a bound on the number of iterations;
    a loop that exceeds its bound is [None], so a [Some] result is also a
    proof that the loop ends. *)
Fixpoint while {S} (fuel : nat) (cond : S -> bool) (body : S -> option S) (s : S)
  : option S :=
  if cond s then
    match fuel with
    | O => None
    | Datatypes.S f => s' ← body s; while f cond body s'
    end
  else Some s.

(** [for (i = lo; i < hi; i++) { if (...) return r; }]: a scan that may return
    early; [None] inside when the loop runs to its end. *)
Fixpoint scan_n {R} (n : nat) (i : Z) (body : Z -> option (option R)) : option (option R) :=
  match n with
  | O => Some None
  | Datatypes.S n' =>
      r ← body i;
      match r with Some x => Some (Some x) | None => scan_n n' (i + 1) body end
  end.

Definition scan {R} (lo hi : Z) (body : Z -> option (option R)) : option (option R) :=
  scan_n (Z.to_nat (hi - lo)) lo body.

(** Signed arithmetic that leaves the range of [garry_i32] is undefined. *)
Definition ck (x : Z) : option Z := if decide (is_i32 x) then Some x else None.

(** Pointer arithmetic inside an object: the rest of the object from there. *)
Definition ptr_add {A} (b : list A) (k : Z) : option (list A) :=
  if decide (0 <= k <= zlen b) then Some (drop (Z.to_nat k) b) else None.

(** The byte-by-byte copy loop [for (j = 0; j < n; j++) dst[doff+j] = src[soff+j];]. *)
Definition copy_loop {A} (dst : list A) (doff : Z) (src : list A) (soff n : Z)
  : option (list A) :=
  forZ 0 n (fun j d => x ← rd src (soff + j); wr d (doff + j) x) dst.

(** * Tactics and hint databases *)

(** [dec] decides every guard of the goal that arithmetic settles. *)
Ltac dec_side := first [done | unfold zlen in *; simpl in *; repeat split; lia].
Ltac dec :=
  repeat match goal with
  | |- context [@decide ?P ?D] =>
      first [ destruct (@decide P D) as [_|?Hd]; [|exfalso; apply Hd; solve [dec_side]]
            | destruct (@decide P D) as [?Hd|_]; [exfalso; solve [dec_side]|] ]
  end.

(** [buf] rewrites reads and writes at a known position of a buffer whose
    shape is an append; [bytes] resolves byte-range side conditions. *)
Create Rewrite HintDb buf.
Create HintDb bytes.
Create Rewrite HintDb buf_rd.

(** Invert the binds of a successful computation. *)
Ltac inv_bind :=
  repeat match goal with
  | H : (_ ≫= _) = Some _ |- _ => apply bind_Some in H; destruct H as (? & ? & H)
  | H : fmap _ _ = Some _ |- _ => apply fmap_Some in H; destruct H as (? & ? & H)
  | H : Some _ = Some _ |- _ => injection H as H; subst
  | H : None = Some _ |- _ => discriminate H
  end.

(** Rewriting under the continuation of a bind. *)
#[export] Instance option_mbind_ext {A B} :
  Proper (pointwise_relation A eq ==> eq ==> eq) (@mbind option _ A B).
Proof. intros f g Hfg [x|] ? <-; simpl; [apply Hfg|done]. Qed.

(** [bsimpl] runs the binds and maps whose argument is a value, and only those. *)
Ltac bsimpl :=
  repeat first
    [ match goal with |- context G [@fmap option _ ?A ?B ?f (Some ?x)] =>
        let g := context G [Some (f x)] in change g end
    | match goal with |- context G [@mbind option _ ?A ?B ?k (Some ?x)] =>
        let g := context G [k x] in change g end
    | progress cbv beta iota ].

(** * Lengths *)

Section Lengths.
Context {A : Type}.
Implicit Types b l : list A.

Lemma zlen_nonneg l : 0 <= zlen l.
Proof. unfold zlen; lia. Qed.

Lemma zlen_nil : zlen (@nil A) = 0.
Proof. done. Qed.

Lemma zlen_cons (x : A) l : zlen (x :: l) = 1 + zlen l.
Proof. unfold zlen; simpl; lia. Qed.

Lemma zlen_app l1 l2 : zlen (l1 ++ l2) = zlen l1 + zlen l2.
Proof. unfold zlen; rewrite length_app; lia. Qed.

Lemma zlen_replicate n (x : A) : zlen (replicate n x) = Z.of_nat n.
Proof. unfold zlen; by rewrite length_replicate. Qed.

Lemma zlen_take_drop b (i n : nat) :
  (i + n <= length b)%nat -> zlen (take n (drop i b)) = Z.of_nat n.
Proof. intros; unfold zlen; rewrite length_take, length_drop; lia. Qed.

Lemma zlen_insert b (i : nat) (x : A) : zlen (<[i:=x]> b) = zlen b.
Proof. unfold zlen; by rewrite length_insert. Qed.
End Lengths.

#[export] Hint Rewrite @zlen_nil @zlen_cons @zlen_app @zlen_replicate @zlen_insert : buf.

(** [solve_len]: arithmetic goals about buffer lengths. *)
Ltac zlen_pos l :=
  lazymatch goal with
  | _ : 0 <= zlen l |- _ => fail
  | _ => pose proof (zlen_nonneg l)
  end.
Ltac solve_len :=
  autorewrite with buf in *;
  repeat match goal with
  | |- context [zlen ?l] => zlen_pos l
  | _ : context [zlen ?l] |- _ => zlen_pos l
  end; lia.

Lemma zlen_zeros n : 0 <= n -> zlen (zeros n) = n.
Proof. intros; unfold zeros; rewrite zlen_replicate; lia. Qed.

(** * Reading and writing buffers *)

Section BufferLemmas.
Context {A : Type}.
Implicit Types b s p q : list A.

Lemma rd_lookup b (i : nat) : rd b (Z.of_nat i) = b !! i.
Proof. unfold rd. rewrite decide_True by lia. by rewrite Nat2Z.id. Qed.

Lemma rd_Some_range b i x : rd b i = Some x -> 0 <= i < zlen b.
Proof.
  unfold rd, zlen. case_decide; [|done]. intros Hx%lookup_lt_Some. lia.
Qed.

Lemma rd_is_Some b i : 0 <= i < zlen b -> is_Some (rd b i).
Proof.
  unfold rd, zlen. intros. rewrite decide_True by lia. apply lookup_lt_is_Some. lia.
Qed.

Lemma rd_None b i : i < 0 \/ zlen b <= i -> rd b i = None.
Proof.
  intros. destruct (rd b i) eqn:E; [|done]. apply rd_Some_range in E. lia.
Qed.

Lemma rd_app_l p q i : i < zlen p -> rd (p ++ q) i = rd p i.
Proof.
  unfold rd, zlen. intros. case_decide; [|done]. apply lookup_app_l. lia.
Qed.

Lemma rd_app_r p q i : zlen p <= i -> rd (p ++ q) i = rd q (i - zlen p).
Proof.
  unfold rd, zlen. intros. repeat case_decide; try lia.
  rewrite lookup_app_r by lia. f_equal. lia.
Qed.

Lemma rd_app_at p q i k : i = zlen p + k -> 0 <= k -> rd (p ++ q) i = rd q k.
Proof. intros -> ?. rewrite rd_app_r by solve_len. f_equal. lia. Qed.

Lemma rd_app_0 p q : rd (p ++ q) (zlen p) = rd q 0.
Proof. apply rd_app_at; lia. Qed.

Lemma rd_app_plus p q k : 0 <= k -> rd (p ++ q) (zlen p + k) = rd q k.
Proof. by apply rd_app_at. Qed.

Lemma rd_cons_0 (x : A) b : rd (x :: b) 0 = Some x.
Proof. done. Qed.

Lemma rd_cons_S (x : A) b i : 0 < i -> rd (x :: b) i = rd b (i - 1).
Proof.
  intros. unfold rd. repeat case_decide; try lia.
  by replace (Z.to_nat i) with (S (Z.to_nat (i - 1))) by lia.
Qed.

(** A write inside the buffer. *)
Lemma wr_eq b i v : wr b i v = if decide (0 <= i < zlen b) then Some (<[Z.to_nat i := v]> b) else None.
Proof.
  unfold wr, zlen. destruct (decide (0 <= i)) as [Hi|Hi]; [|by rewrite decide_False by lia].
  destruct (b !! Z.to_nat i) as [x|] eqn:E; cbn [mbind option_bind].
  - apply lookup_lt_Some in E. by rewrite decide_True by lia.
  - apply lookup_ge_None_1 in E. by rewrite decide_False by lia.
Qed.

Lemma wr_Some b i v : 0 <= i < zlen b -> wr b i v = Some (<[Z.to_nat i := v]> b).
Proof. intros. rewrite wr_eq. by rewrite decide_True. Qed.

Lemma wr_zlen b i v b' : wr b i v = Some b' -> zlen b' = zlen b.
Proof. rewrite wr_eq. case_decide; [|done]. intros [= <-]. solve_len. Qed.

Lemma rd_wr b i v b' : wr b i v = Some b' -> rd b' i = Some v.
Proof.
  rewrite wr_eq. unfold rd, zlen. case_decide; [|done]. intros [= <-].
  rewrite decide_True by lia. apply list_lookup_insert_eq. lia.
Qed.

Lemma rd_wr_ne b i j v b' : wr b i v = Some b' -> i <> j -> rd b' j = rd b j.
Proof.
  rewrite wr_eq. unfold rd. case_decide; [|done]. intros [= <-] ?. case_decide; [|done].
  apply list_lookup_insert_ne. lia.
Qed.

Lemma list_eq_rd b1 b2 :
  zlen b1 = zlen b2 -> (forall i, 0 <= i < zlen b1 -> rd b1 i = rd b2 i) -> b1 = b2.
Proof.
  intros Hl Hr. apply list_eq. intros i. unfold zlen in *.
  destruct (decide (i < length b1)%nat).
  - specialize (Hr (Z.of_nat i) ltac:(lia)). by rewrite !rd_lookup in Hr.
  - rewrite !lookup_ge_None_2 by lia. done.
Qed.

Lemma slice_Some b off n :
  0 <= off -> 0 <= n -> off + n <= zlen b ->
  slice b off n = Some (take (Z.to_nat n) (drop (Z.to_nat off) b)).
Proof. intros. unfold slice. rewrite decide_True; auto. Qed.

Lemma slice_is_Some b off n s :
  slice b off n = Some s -> 0 <= off /\ 0 <= n /\ off + n <= zlen b /\ zlen s = n.
Proof.
  unfold slice. case_decide; [|done]. intros [= <-].
  rewrite zlen_take_drop; unfold zlen in *; lia.
Qed.

Lemma slice_app p s q off n : off = zlen p -> n = zlen s -> slice (p ++ s ++ q) off n = Some s.
Proof.
  intros -> ->. rewrite slice_Some by solve_len. unfold zlen. rewrite !Nat2Z.id.
  by rewrite drop_app_length, take_app_length.
Qed.

Lemma slice_all s n : n = zlen s -> slice s 0 n = Some s.
Proof. intros ->. rewrite <- (app_nil_r s) at 1. by apply (slice_app []). Qed.

Lemma slice_inv b off n s :
  slice b off n = Some s -> exists p q, b = p ++ s ++ q /\ zlen p = off /\ zlen s = n.
Proof.
  intros H. pose proof H as Hr. apply slice_is_Some in Hr as (?&?&?&?).
  unfold slice in H. rewrite decide_True in H by auto. injection H as <-.
  exists (take (Z.to_nat off) b), (drop (Z.to_nat n) (drop (Z.to_nat off) b)).
  rewrite !take_drop. split; [done|]. unfold zlen in *. rewrite !length_take in *. lia.
Qed.

Lemma rd_slice b off n s i :
  slice b off n = Some s -> 0 <= i < n -> rd s i = rd b (off + i).
Proof.
  intros (p & q & -> & <- & <-)%slice_inv ?.
  rewrite rd_app_r by lia. rewrite rd_app_l by solve_len. f_equal. lia.
Qed.

Lemma slice_prefix b off n m s :
  slice b off n = Some s -> 0 <= m <= n ->
  slice b off m = Some (take (Z.to_nat m) s).
Proof.
  intros H Hm. pose proof (slice_is_Some _ _ _ _ H) as (?&?&?&?).
  rewrite slice_Some in H by lia. injection H as <-. rewrite slice_Some by lia.
  by rewrite take_take, Nat.min_l by lia.
Qed.

(** A write of [s] at [off] replaces exactly that range. *)
Lemma blit_app p g q off s :
  off = zlen p -> zlen s = zlen g -> blit (p ++ g ++ q) off s = Some (p ++ s ++ q).
Proof.
  intros -> Hs. unfold blit. rewrite decide_True by solve_len. do 2 f_equal.
  - unfold zlen. by rewrite Nat2Z.id, take_app_length.
  - f_equal. unfold zlen in *. rewrite Nat2Z.id.
    rewrite <- drop_drop, drop_app_length.
    replace (length s) with (length g) by lia. apply drop_app_length.
Qed.

Lemma blit_inv b off s b' :
  blit b off s = Some b' ->
  exists p g q, b = p ++ g ++ q /\ zlen p = off /\ zlen g = zlen s /\ b' = p ++ s ++ q.
Proof.
  intros H. assert (Hr : 0 <= off /\ off + zlen s <= zlen b).
  { unfold blit in H. by case_decide. }
  destruct (slice_inv b off (zlen s) (take (Z.to_nat (zlen s)) (drop (Z.to_nat off) b)))
    as (p & q & Hb & Hp & Hg).
  { apply slice_Some; solve_len. }
  exists p, (take (Z.to_nat (zlen s)) (drop (Z.to_nat off) b)), q.
  rewrite Hb, blit_app in H by lia. by injection H as <-.
Qed.

Lemma blit_split b off s :
  0 <= off -> off + zlen s <= zlen b ->
  exists p g q, b = p ++ g ++ q /\ zlen p = off /\ zlen g = zlen s /\
                blit b off s = Some (p ++ s ++ q).
Proof.
  intros H1 H2. destruct (blit b off s) as [b'|] eqn:E.
  - destruct (blit_inv _ _ _ _ E) as (p & g & q & ? & ? & ? & ->). by exists p, g, q.
  - unfold blit in E. rewrite decide_True in E; [done|lia].
Qed.

Lemma blit_zlen b off s b' : blit b off s = Some b' -> zlen b' = zlen b.
Proof. intros (p & g & q & -> & ? & ? & ->)%blit_inv. solve_len. Qed.

Lemma blit_None b off s : off < 0 \/ zlen b < off + zlen s -> blit b off s = None.
Proof. intros. unfold blit. rewrite decide_False by lia. done. Qed.

Lemma slice_blit b off s b' : blit b off s = Some b' -> slice b' off (zlen s) = Some s.
Proof. intros (p & g & q & -> & ? & ? & ->)%blit_inv. apply slice_app; lia. Qed.

Lemma rd_blit b off s b' i :
  blit b off s = Some b' ->
  rd b' i = if decide (off <= i < off + zlen s) then rd s (i - off) else rd b i.
Proof.
  intros (p & g & q & -> & <- & Hg & ->)%blit_inv. case_decide.
  - rewrite rd_app_r by lia. rewrite rd_app_l by lia. done.
  - destruct (decide (i < zlen p)).
    + by rewrite !rd_app_l.
    + rewrite !(rd_app_r p) by lia. rewrite !rd_app_r by lia. f_equal. lia.
Qed.

(** What a write leaves alone. *)
Lemma slice_ext b1 b2 off n :
  zlen b1 = zlen b2 -> (forall i, off <= i < off + n -> rd b1 i = rd b2 i) ->
  slice b1 off n = slice b2 off n.
Proof.
  intros Hl Hr. destruct (slice b1 off n) as [s1|] eqn:E1.
  - pose proof (slice_is_Some _ _ _ _ E1) as (?&?&?&?).
    destruct (slice b2 off n) as [s2|] eqn:E2; [|rewrite slice_Some in E2 by lia; done].
    pose proof (slice_is_Some _ _ _ _ E2) as (_&_&_&?).
    f_equal. apply list_eq_rd; [lia|]. intros i Hi.
    rewrite (rd_slice _ _ _ _ _ E1), (rd_slice _ _ _ _ _ E2) by lia. apply Hr. lia.
  - unfold slice in *. rewrite <- Hl. by case_decide.
Qed.

Lemma slice_eq_rd b1 o1 b2 o2 n :
  0 <= n -> 0 <= o1 -> o1 + n <= zlen b1 -> 0 <= o2 -> o2 + n <= zlen b2 ->
  (forall i, 0 <= i < n -> rd b1 (o1 + i) = rd b2 (o2 + i)) ->
  slice b1 o1 n = slice b2 o2 n.
Proof.
  intros ????? Hr.
  pose proof (slice_Some b1 o1 n) as S1. pose proof (slice_Some b2 o2 n) as S2.
  rewrite S1, S2 by lia. f_equal. specialize (S1 ltac:(lia) ltac:(lia) ltac:(lia)).
  specialize (S2 ltac:(lia) ltac:(lia) ltac:(lia)).
  pose proof (slice_is_Some _ _ _ _ S1) as (_&_&_&?).
  pose proof (slice_is_Some _ _ _ _ S2) as (_&_&_&?).
  apply list_eq_rd; [lia|]. intros i Hi.
  rewrite (rd_slice _ _ _ _ _ S1), (rd_slice _ _ _ _ _ S2) by lia. apply Hr. lia.
Qed.

Lemma rd_blit_ne b o s b' i :
  blit b o s = Some b' -> i < o \/ o + zlen s <= i -> rd b' i = rd b i.
Proof. intros Hb ?. rewrite (rd_blit _ _ _ _ _ Hb). by dec. Qed.

Lemma slice_blit_ne b o s b' off n :
  blit b o s = Some b' -> off + n <= o \/ o + zlen s <= off ->
  slice b' off n = slice b off n.
Proof.
  intros Hb ?. apply slice_ext; [by eapply blit_zlen|].
  intros. eapply rd_blit_ne; [exact Hb|lia].
Qed.

(** Slices of a prefix. *)
Lemma slice_take b n off len :
  0 <= off -> 0 <= len -> off + len <= n -> n <= zlen b ->
  slice (take (Z.to_nat n) b) off len = slice b off len.
Proof.
  intros. assert (zlen (take (Z.to_nat n) b) = n) by (unfold zlen in *; rewrite length_take; lia).
  apply slice_eq_rd; try lia. intros i Hi. unfold rd. repeat case_decide; try lia.
  apply lookup_take_lt. lia.
Qed.

Lemma blit_ok b o s :
  0 <= o -> o + zlen s <= zlen b -> exists b', blit b o s = Some b' /\ zlen b' = zlen b.
Proof.
  intros H1 H2. destruct (blit_split b o s H1 H2) as (p & g & q & -> & ? & ? & ->).
  eexists; split; [done|]. rewrite !zlen_app. lia.
Qed.

Lemma blit_nil b off : 0 <= off <= zlen b -> blit b off [] = Some b.
Proof.
  intros. unfold blit. rewrite decide_True by solve_len. simpl.
  by rewrite Nat.add_0_r, take_drop.
Qed.

Lemma blit_whole b s : zlen b = zlen s -> blit b 0 s = Some s.
Proof.
  intros H. rewrite <- (app_nil_r b), <- (app_nil_r s). rewrite <- (app_nil_l (b ++ [])).
  rewrite (app_nil_r s) at 1. by apply (blit_app [] b []).
Qed.

(** Writing element by element, and two adjacent writes, are one block write. *)
Lemma wr_blit b i v : wr b i v = blit b i [v].
Proof.
  rewrite wr_eq. unfold blit, zlen. simpl length. repeat case_decide; try lia; [|done].
  f_equal. rewrite (insert_take_drop b) by (unfold zlen in *; lia). simpl.
  by replace (Z.to_nat i + 1)%nat with (S (Z.to_nat i)) by lia.
Qed.

Lemma blit_blit b off s1 off2 s2 :
  off2 = off + zlen s1 ->
  (b' ← blit b off s1; blit b' off2 s2) = blit b off (s1 ++ s2).
Proof.
  intros ->. destruct (decide (0 <= off /\ off + zlen (s1 ++ s2) <= zlen b)) as [Hr|Hr].
  - destruct (blit_split b off (s1 ++ s2)) as (p & g & q & -> & Hp & Hg & ->); [lia..|].
    rewrite zlen_app in Hg.
    rewrite <- (take_drop (length s1) g), <- !app_assoc.
    rewrite (blit_app p _ _ off s1); cycle 1.
    + lia.
    + unfold zlen in *. rewrite length_take. lia.
    + simpl. rewrite (app_assoc p s1), (blit_app (p ++ s1)).
      * by rewrite <- app_assoc.
      * solve_len.
      * unfold zlen in *. rewrite length_drop. lia.
  - rewrite (blit_None b off (s1 ++ s2)) by lia.
    destruct (blit b off s1) as [b'|] eqn:E; [|done]. simpl.
    apply blit_None. pose proof (blit_zlen _ _ _ _ E). 
    unfold blit in E. case_decide; [|done]. autorewrite with buf in *. lia.
Qed.

Lemma blit_before b off s1 off2 s2 :
  off = off2 + zlen s2 ->
  (b' ← blit b off s1; blit b' off2 s2) = blit b off2 (s2 ++ s1).
Proof.
  intros ->. destruct (decide (0 <= off2 /\ off2 + zlen (s2 ++ s1) <= zlen b)) as [Hr|Hr].
  - destruct (blit_split b off2 (s2 ++ s1)) as (p & g & q & -> & Hp & Hg & ->); [lia..|].
    rewrite zlen_app in Hg.
    rewrite <- (take_drop (length s2) g), <- !app_assoc.
    rewrite (app_assoc p), (blit_app (p ++ take _ g) (drop (length s2) g)); cycle 1.
    + unfold zlen in *. rewrite length_app, length_take. lia.
    + unfold zlen in *. rewrite length_drop. lia.
    + simpl. rewrite <- app_assoc. apply blit_app; [lia|]. unfold zlen in *. rewrite length_take. lia.
  - rewrite (blit_None b off2 (s2 ++ s1)) by lia.
    destruct (blit b _ s1) as [b'|] eqn:E; [|done]. simpl.
    apply blit_None. pose proof (blit_zlen _ _ _ _ E).
    unfold blit in E. case_decide; [|done]. autorewrite with buf in *. lia.
Qed.

(** The same for writes that are known to succeed. *)
Lemma blit_after b b1 b2 off s1 off2 s2 :
  blit b off s1 = Some b1 -> blit b1 off2 s2 = Some b2 -> off2 = off + zlen s1 ->
  blit b off (s1 ++ s2) = Some b2.
Proof. intros H1 H2 ?. rewrite <- (blit_blit b off s1 off2 s2) by done. by rewrite H1. Qed.

Lemma blit_front b b1 b2 off s1 off2 s2 :
  blit b off s1 = Some b1 -> blit b1 off2 s2 = Some b2 -> off = off2 + zlen s2 ->
  blit b off2 (s2 ++ s1) = Some b2.
Proof. intros H1 H2 ?. rewrite <- (blit_before b off s1 off2 s2) by done. by rewrite H1. Qed.

(** As above with the writes sequenced by a continuation. *)
Lemma blit_blit_k {B} b off s1 off2 s2 (k : list A -> option B) :
  off2 = off + zlen s1 ->
  (b' ← blit b off s1; b'' ← blit b' off2 s2; k b'') = b' ← blit b off (s1 ++ s2); k b'.
Proof. intros. rewrite <- (blit_blit b off s1 off2 s2) by done. by destruct (blit b off s1). Qed.
End BufferLemmas.

(** [blits] merges a chain of adjacent writes into one block write. *)
Ltac blits_len := unfold zlen; rewrite ?length_app; simpl length; lia.
Ltac blits :=
  try setoid_rewrite wr_blit;
  repeat first [rewrite blit_blit_k by blits_len | rewrite blit_blit by blits_len];
  simpl app.

(** [rd_const] evaluates reads at constant positions of explicit buffers. *)
Ltac rd_const :=
  repeat match goal with
  | |- context [rd ?l ?i] =>
      let r := eval hnf in (rd l i) in
      lazymatch r with Some _ => change (rd l i) with r end
  end.

(** * Loop rules *)

Section Loops.
Context {S : Type}.
Implicit Types s : S.

Lemma forZ_empty lo hi body s : hi <= lo -> forZ lo hi body s = Some s.
Proof. intros. unfold forZ. by replace (Z.to_nat (hi - lo)) with O by lia. Qed.

Lemma forZ_step lo hi body s :
  lo < hi -> forZ lo hi body s = s' ← body lo s; forZ (lo + 1) hi body s'.
Proof.
  intros. unfold forZ.
  replace (Z.to_nat (hi - lo)) with (Datatypes.S (Z.to_nat (hi - (lo + 1)))) by lia. done.
Qed.

(** Total correctness: an invariant that every iteration re-establishes. *)
Lemma forZ_inv (P : Z -> S -> Prop) lo hi body s :
  lo <= hi -> P lo s ->
  (forall i s, lo <= i < hi -> P i s -> exists s', body i s = Some s' /\ P (i + 1) s') ->
  exists s', forZ lo hi body s = Some s' /\ P hi s'.
Proof.
  intros Hle HP Hstep. unfold forZ.
  remember (Z.to_nat (hi - lo)) as n eqn:Hn.
  revert lo s Hle HP Hstep Hn. induction n as [|n IH]; intros lo s Hle HP Hstep Hn; simpl.
  - exists s. split; [done|]. by replace hi with lo by lia.
  - destruct (Hstep lo s) as (s' & -> & HP'); [lia|done|]. simpl.
    apply IH; [lia|done| |lia]. intros. apply Hstep; [lia|done].
Qed.

(** Partial correctness, for a loop already known to end. *)
Lemma forZ_inv_Some (P : Z -> S -> Prop) lo hi body s s' :
  forZ lo hi body s = Some s' -> lo <= hi -> P lo s ->
  (forall i s s', lo <= i < hi -> P i s -> body i s = Some s' -> P (i + 1) s') ->
  P hi s'.
Proof.
  unfold forZ. intros Hrun Hle HP Hstep.
  remember (Z.to_nat (hi - lo)) as n eqn:Hn.
  revert lo s Hrun Hle HP Hstep Hn.
  induction n as [|n IH]; intros lo s Hrun Hle HP Hstep Hn; simpl in Hrun.
  - injection Hrun as <-. by replace hi with lo by lia.
  - apply bind_Some in Hrun as (s1 & Hb & Hrun).
    apply (IH (lo + 1) s1); [done|lia| | |lia].
    + apply (Hstep lo s); [lia|done|done].
    + intros. apply (Hstep i s0); [lia|done|done].
Qed.

Lemma forZ_ext lo hi (f g : Z -> S -> option S) s :
  (forall i s, lo <= i < hi -> f i s = g i s) -> forZ lo hi f s = forZ lo hi g s.
Proof.
  unfold forZ. intros Hfg.
  remember (Z.to_nat (hi - lo)) as n eqn:Hn. revert lo s Hfg Hn.
  induction n as [|n IH]; intros lo s Hfg Hn; simpl; [done|].
  rewrite Hfg by lia. destruct (g lo s) as [s'|]; simpl; [|done].
  apply IH; [|lia]. intros. apply Hfg. lia.
Qed.

(** A scan returns at the first index where the body does. *)
Lemma scan_None {R} lo hi (body : Z -> option (option R)) :
  (forall i, lo <= i < hi -> body i = Some None) -> scan lo hi body = Some None.
Proof.
  unfold scan. intros H. remember (Z.to_nat (hi - lo)) as n eqn:Hn.
  revert lo H Hn. induction n as [|n IH]; intros lo H Hn; simpl; [done|].
  rewrite H by lia. simpl. apply IH; [|lia]. intros. apply H. lia.
Qed.

Lemma scan_Some {R} lo hi k (r : R) (body : Z -> option (option R)) :
  lo <= k < hi -> (forall i, lo <= i < k -> body i = Some None) ->
  body k = Some (Some r) -> scan lo hi body = Some (Some r).
Proof.
  unfold scan. intros Hk Hbefore Hr. remember (Z.to_nat (hi - lo)) as n eqn:Hn.
  revert lo Hk Hbefore Hn. induction n as [|n IH]; intros lo Hk Hbefore Hn; [lia|]. simpl.
  destruct (decide (lo = k)) as [->|]; [by rewrite Hr|].
  rewrite Hbefore by lia. simpl. apply IH; [lia| |lia]. intros. apply Hbefore. lia.
Qed.

Lemma scan_step {R} lo hi (body : Z -> option (option R)) :
  lo < hi ->
  scan lo hi body =
    r ← body lo; match r with Some x => Some (Some x) | None => scan (lo + 1) hi body end.
Proof.
  intros. unfold scan.
  by replace (Z.to_nat (hi - lo)) with (Datatypes.S (Z.to_nat (hi - (lo + 1)))) by lia.
Qed.

(** A scan whose body is defined everywhere ends, at the first hit if any. *)
Lemma scan_total {R} lo hi (body : Z -> option (option R)) :
  (forall i, lo <= i < hi -> is_Some (body i)) ->
  exists r, scan lo hi body = Some r /\
    match r with
    | None => forall i, lo <= i < hi -> body i = Some None
    | Some x => exists k, lo <= k < hi /\ body k = Some (Some x) /\
        forall i, lo <= i < k -> body i = Some None
    end.
Proof.
  unfold scan. intros H. remember (Z.to_nat (hi - lo)) as n eqn:Hn.
  revert lo H Hn. induction n as [|n IH]; intros lo H Hn; simpl.
  - exists None. split; [done|]. intros. lia.
  - destruct (H lo ltac:(lia)) as [[x|] Hb]; rewrite Hb; simpl.
    + exists (Some x). split; [done|]. exists lo. split; [lia|]. split; [done|]. intros. lia.
    + destruct (IH (lo + 1)) as (r & Hr & Hs); [intros; apply H; lia|lia|].
      exists r. split; [done|]. destruct r as [x|].
      * destruct Hs as (k & Hk & Hx & Hbef). exists k. split; [lia|]. split; [done|].
        intros i Hi. destruct (decide (i = lo)) as [->|]; [done|]. apply Hbef. lia.
      * intros i Hi. destruct (decide (i = lo)) as [->|]; [done|]. apply Hs. lia.
Qed.

Lemma scan_ext {R} lo hi (f g : Z -> option (option R)) :
  (forall i, lo <= i < hi -> f i = g i) -> scan lo hi f = scan lo hi g.
Proof.
  unfold scan. intros Hfg. remember (Z.to_nat (hi - lo)) as n eqn:Hn.
  revert lo Hfg Hn. induction n as [|n IH]; intros lo Hfg Hn; simpl; [done|].
  rewrite Hfg by lia. destruct (g lo) as [[r|]|]; simpl; [done| |done].
  apply IH; [|lia]. intros. apply Hfg. lia.
Qed.

(** Two ranges compared element by element. *)
Lemma scan_eq_app {A R} `{EqDecision A} (v : R) (pa a ra pb b rb : list A) k n :
  zlen pa = k -> zlen pb = k -> zlen a = zlen b -> n = k + zlen a ->
  scan k n (fun i =>
    x ← rd (pa ++ a ++ ra) i;
    y ← rd (pb ++ b ++ rb) i;
    Some (if decide (x <> y) then Some v else None)) =
  Some (if decide (a = b) then None else Some v).
Proof.
  revert pa pb b k. induction a as [|x a IH]; intros pa pb [|y b] k Hp Hp' Hl ->;
    autorewrite with buf in *; try (exfalso; solve_len).
  - by rewrite scan_None by lia.
  - pose proof (zlen_nonneg a). rewrite scan_step by lia.
    rewrite (rd_app_at pa _ k 0), (rd_app_at pb _ k 0) by lia. simpl app.
    rewrite !rd_cons_0. cbn [mbind option_bind].
    destruct (decide (x <> y)) as [Hne|Heq%dec_stable].
    + destruct (decide (x :: a = y :: b)); [congruence|done].
    + subst y. specialize (IH (pa ++ [x]) (pb ++ [x]) b (k + 1)). rewrite <- !app_assoc in IH.
      simpl app in IH. rewrite IH by solve_len. by repeat case_decide; try congruence.
Qed.

Lemma scan_eq {A R} `{EqDecision A} (v : R) (s t : list A) n ks kt :
  slice s 0 n = Some ks -> slice t 0 n = Some kt ->
  scan 0 n (fun i =>
    x ← rd s i; y ← rd t i; Some (if decide (x <> y) then Some v else None)) =
  Some (if decide (ks = kt) then None else Some v).
Proof.
  intros (pa & ra & -> & Hpa & <-)%slice_inv (pb & rb & -> & Hpb & Hl)%slice_inv.
  destruct pa; [|solve_len]. destruct pb; [|solve_len].
  apply (scan_eq_app v [] ks ra [] kt rb); done.
Qed.

(** A scan for an element with a property. *)
Lemma scan_exists {A} (P : A -> Prop) `{forall a, Decision (P a)} (l act : list A) n :
  slice l 0 n = Some act ->
  scan 0 n (fun k => a ← rd l k; Some (if decide (P a) then Some () else None)) =
  Some (if decide (Exists P act) then Some () else None).
Proof.
  intros Hs. pose proof (slice_is_Some _ _ _ _ Hs) as (_ & _ & Hn & Hl).
  assert (Hrd : forall k, 0 <= k < n -> rd l k = rd act k)
    by (intros; by rewrite (rd_slice _ _ _ _ _ Hs)).
  rewrite (scan_ext _ _ _ (fun k => a ← rd act k; Some (if decide (P a) then Some () else None)))
    by (intros; by rewrite Hrd).
  destruct (scan_total 0 n (fun k => a ← rd act k; Some (if decide (P a) then Some () else None)))
    as (r & -> & Hr).
  { intros i Hi. destruct (rd_is_Some act i) as [a ->]; [lia|]. by eexists. }
  f_equal. destruct r as [[]|].
  - destruct Hr as (k & Hk & Hb & _). destruct (rd act k) as [a|] eqn:Ha; [|done].
    cbn [mbind option_bind] in Hb. destruct (decide (P a)) as [HP|]; [|done].
    rewrite decide_True; [done|]. apply Exists_exists. exists a. split; [|done].
    unfold rd in Ha. case_decide; [|done]. by eapply list_elem_of_lookup_2.
  - rewrite decide_False; [done|]. intros (a & (i & Hi)%list_elem_of_lookup & HP)%Exists_exists.
    pose proof (lookup_lt_Some _ _ _ Hi). specialize (Hr (Z.of_nat i)).
    rewrite rd_lookup, Hi in Hr. cbn [mbind option_bind] in Hr. rewrite decide_True in Hr by done.
    discriminate Hr. unfold zlen in *. lia.
Qed.

(** The copy loop with the write position kept in the state. *)
Lemma emit_loop {A} (out part : list A) off n :
  0 <= n ->
  forZ 0 n (fun j st =>
    let '(out, offset) := st in
    b ← rd part j; out ← wr out offset b; Some (out, offset + 1)) (out, off) =
  (fun o => (o, off + n)) <$> copy_loop out off part 0 n.
Proof.
  intros Hn. unfold copy_loop, forZ. rewrite Z.sub_0_r.
  assert (Hz : n = Z.of_nat (Z.to_nat n)) by lia. revert Hz.
  generalize (Z.to_nat n) as m. intros m ->. clear Hn.
  enough (H : forall i, for_n m i (fun j st => let '(out, offset) := st in
      b ← rd part j; out ← wr out offset b; Some (out, offset + 1)) (out, off + i) =
    (fun o => (o, off + i + Z.of_nat m)) <$>
      for_n m i (fun j d => x ← rd part (0 + j); wr d (off + j) x) out).
  { specialize (H 0). by rewrite Z.add_0_r in H. }
  revert out. induction m as [|m IH]; intros out i; simpl.
  - do 2 f_equal. lia.
  - rewrite Z.add_0_l. destruct (rd part i) as [b|]; simpl; [|done]. destruct (wr out _ b) as [o|]; simpl; [|done].
    replace (off + i + 1) with (off + (i + 1)) by lia. rewrite IH.
    destruct (for_n _ _ _ _); simpl; [|done]. do 2 f_equal. lia.
Qed.

(** A loop whose variant decreases ends, within any bound above the variant. *)
Lemma while_inv (P : S -> Prop) (m : S -> Z) fuel cond body s :
  P s -> m s <= Z.of_nat fuel ->
  (forall s, P s -> cond s = true ->
     0 < m s /\ exists s', body s = Some s' /\ P s' /\ m s' < m s) ->
  exists s', while fuel cond body s = Some s' /\ P s' /\ cond s' = false.
Proof.
  intros HP Hm Hstep. revert s HP Hm.
  induction fuel as [|f IH]; intros s HP Hm; simpl.
  - destruct (cond s) eqn:Hc; [|by exists s].
    destruct (Hstep s HP Hc). lia.
  - destruct (cond s) eqn:Hc; [|by exists s].
    destruct (Hstep s HP Hc) as (? & s' & -> & HP' & ?). simpl. apply IH; [done|lia].
Qed.
End Loops.

(** The copy loop is [memcpy] for distinct objects. *)
Lemma copy_loop_slice {A} (dst src : list A) doff soff n s :
  slice src soff n = Some s -> 0 <= doff -> doff + n <= zlen dst ->
  copy_loop dst doff src soff n = blit dst doff s.
Proof.
  intros Hs Hd1 Hd2. pose proof (slice_is_Some _ _ _ _ Hs) as (?&?&?&Hl).
  destruct (blit_split dst doff s) as (p & g & q & -> & <- & Hg & Hb); [lia..|].
  unfold copy_loop. rewrite Hb.
  destruct (forZ_inv (fun i d => exists s1 s2 g2, s = s1 ++ s2 /\ zlen s1 = i
              /\ d = p ++ s1 ++ g2 ++ q /\ zlen g2 = zlen s2)
             0 n (fun j d => x ← rd src (soff + j); wr d (zlen p + j) x) (p ++ g ++ q))
    as (d & Hd & s1 & s2 & g2 & -> & Hn & -> & Hg2).
  - lia.
  - exists [], s, g. done.
  - intros i d Hi (s1 & s2 & g2 & -> & <- & -> & Hg2).
    destruct s2 as [|x s2]; [solve_len|]. destruct g2 as [|y g2]; [solve_len|].
    pose proof (rd_slice _ _ _ _ (zlen s1) Hs ltac:(lia)) as Hr.
    rewrite rd_app_r, Z.sub_diag, rd_cons_0 in Hr by lia. rewrite <- Hr. simpl.
    rewrite wr_blit, (app_assoc p s1).
    change (y :: g2 ++ q) with ([y] ++ g2 ++ q).
    rewrite (blit_app (p ++ s1) [y] (g2 ++ q)); [|solve_len|done].
    eexists; split; [done|]. exists (s1 ++ [x]), s2, g2.
    rewrite <- !app_assoc. repeat split; try solve_len.
  - rewrite Hd. f_equal. destruct s2; [|solve_len]. destruct g2; [|solve_len].
    by rewrite app_nil_r.
Qed.

(** A copy that leaves the destination is an error. *)
Lemma copy_loop_None {A} (dst src : list A) doff soff n :
  0 < n -> zlen dst < doff + n -> copy_loop dst doff src soff n = None.
Proof.
  intros Hn Hd. destruct (copy_loop dst doff src soff n) as [d|] eqn:E; [|done]. exfalso.
  assert (H : zlen d = zlen dst /\ (0 < n -> doff + (n - 1) < zlen dst)); [|lia].
  refine (forZ_inv_Some (fun i d => zlen d = zlen dst /\ (0 < i -> doff + (i - 1) < zlen dst))
    0 n _ dst d E _ _ _); [lia|split; [done|lia]|].
  intros i s s' Hi [Hz _] Hb. apply bind_Some in Hb as (x & _ & Hw).
  pose proof (rd_wr _ _ _ _ Hw) as Hr. apply rd_Some_range in Hr.
  rewrite (wr_zlen _ _ _ _ Hw) in Hr |- *. split; [done|lia].
Qed.

(** A loop that stores one value is [memset]. *)
Lemma clear_loop {A} (x : A) (buf : list A) n :
  0 <= n <= zlen buf ->
  forZ 0 n (fun i buf => wr buf i x) buf = blit buf 0 (replicate (Z.to_nat n) x).
Proof.
  intros Hn. assert (Hz : zlen (replicate (Z.to_nat n) x) = n) by solve_len.
  rewrite <- (copy_loop_slice buf (replicate (Z.to_nat n) x) 0 0 n); [|by apply slice_all|lia..].
  unfold copy_loop. apply forZ_ext. intros i s Hi. rewrite !Z.add_0_l.
  unfold rd. dec. rewrite lookup_replicate_2 by lia. done.
Qed.

Lemma filter_all {A} (P : A -> Prop) `{forall x, Decision (P x)} (l : list A) :
  (forall x, x ∈ l -> P x) -> filter P l = l.
Proof.
  induction l as [|x l IH]; [done|]. intros H'. rewrite filter_cons_True by (apply H'; by left).
  f_equal. apply IH. intros y Hy. apply H'. by right.
Qed.

(** * Shifting elements of an array

    [shifted k j l l']: the elements [k+1 .. j] of [l] have moved one place down,
    the state of [for (j = k; ...; j++) l[j] = l[j + 1];]. *)
Definition shifted {A} (k j : Z) (l l' : list A) : Prop :=
  zlen l' = zlen l /\ forall i, rd l' i = if decide (k <= i < j) then rd l (i + 1) else rd l i.

Section Shift.
Context {A : Type}.
Implicit Types l s : list A.

Lemma shifted_start k l : shifted k k l l.
Proof. split; [done|]. intros i. by rewrite decide_False by lia. Qed.

Lemma shifted_step k j l l' :
  shifted k j l l' -> 0 <= k <= j -> j + 1 < zlen l ->
  exists x l'', rd l' (j + 1) = Some x /\ wr l' j x = Some l'' /\ shifted k (j + 1) l l''.
Proof.
  intros [Hz Hr] Hk Hj. destruct (rd_is_Some l (j + 1)) as [x Hx]; [lia|].
  exists x. rewrite Hr, decide_False, Hx by lia.
  assert (Hw : wr l' j x = Some (<[Z.to_nat j:=x]> l')) by (apply wr_Some; lia).
  rewrite Hw. eexists. split; [done|]. split; [done|]. split; [by rewrite zlen_insert|].
  intros i. destruct (decide (i = j)) as [->|Hne].
  - rewrite (rd_wr _ _ _ _ Hw). by rewrite decide_True by lia.
  - rewrite (rd_wr_ne _ _ _ _ _ Hw) by done. rewrite Hr.
    destruct (decide (k <= i < j)); [by rewrite decide_True by lia|by rewrite decide_False by lia].
Qed.

Lemma shifted_Forall (P : A -> Prop) k j l l' : shifted k j l l' -> Forall P l -> Forall P l'.
Proof.
  intros [Hz Hr] HF. rewrite Forall_lookup in HF |- *. intros i x Hi. rewrite <- rd_lookup, Hr in Hi.
  unfold rd in Hi. repeat case_decide; try done; by eapply HF.
Qed.

Lemma shifted_delete k n l l' s :
  shifted k (n - 1) l l' -> slice l 0 n = Some s -> 0 <= k < n ->
  slice l' 0 (n - 1) = Some (delete (Z.to_nat k) s).
Proof.
  intros [Hz Hr] Hs Hk. pose proof (slice_is_Some _ _ _ _ Hs) as (_ & _ & Hn & Hzs).
  rewrite slice_Some by lia. f_equal. rewrite drop_0. apply list_eq. intros i.
  destruct (decide (i < Z.to_nat (n - 1))%nat) as [Hi|Hi].
  - rewrite lookup_take_lt by done. rewrite <- (rd_lookup l'), Hr.
    pose proof (rd_slice _ _ _ _ (Z.of_nat i) Hs) as H0. pose proof (rd_slice _ _ _ _ (Z.of_nat i + 1) Hs) as H1.
    rewrite Z.add_0_l in H0, H1. destruct (decide (i < Z.to_nat k)%nat).
    + rewrite decide_False, <- H0, rd_lookup by lia. by rewrite list_lookup_delete_lt.
    + rewrite decide_True, <- H1 by lia. rewrite list_lookup_delete_ge by lia.
      replace (Z.of_nat i + 1) with (Z.of_nat (S i)) by lia. by rewrite rd_lookup.
  - rewrite lookup_take_ge by lia. symmetry. apply lookup_ge_None_2.
    rewrite length_delete; [unfold zlen in *; lia|]. apply lookup_lt_is_Some. unfold zlen in *. lia.
Qed.
End Shift.

(** * Machine integers: ranges and identities *)

Lemma u8_range x : is_byte (u8 x).
Proof. unfold is_byte, u8. apply Z.mod_pos_bound. lia. Qed.

Lemma u8_id x : is_byte x -> u8 x = x.
Proof. intros. by apply Z.mod_small. Qed.

Lemma i32_range x : is_i32 (i32 x).
Proof. unfold is_i32, i32. pose proof (Z.mod_pos_bound (x + 2 ^ 31) (2 ^ 32)). lia. Qed.

Lemma i32_id x : is_i32 x -> i32 x = x.
Proof. unfold is_i32, i32. intros. rewrite Z.mod_small; lia. Qed.

Lemma i32_mod x : i32 (x mod 2 ^ 32) = i32 x.
Proof. unfold i32. by rewrite Z.add_mod_idemp_l. Qed.

Lemma norm_byte_id x : is_byte x -> norm_byte x = x.
Proof. unfold norm_byte, is_byte. intros. case_decide; lia. Qed.

(** [x % 256] of C truncates; its conversion to a byte is still [u8 x]. *)
Lemma u8_rem x : u8 (Z.rem x 256) = u8 x.
Proof.
  unfold u8. rewrite (Z.quot_rem' x 256) at 2.
  by rewrite Z.add_comm, Z.mul_comm, Z_mod_plus_full.
Qed.

Lemma is_byte_rd b i x : Forall is_byte b -> rd b i = Some x -> is_byte x.
Proof.
  unfold rd. intros HF. case_decide; [|done]. intros ?. by eapply Forall_lookup_1.
Qed.

Lemma Forall_is_byte_zeros n : Forall is_byte (zeros n).
Proof. apply Forall_replicate. done. Qed.

#[export] Hint Resolve u8_range i32_range Forall_is_byte_zeros : bytes.
#[export] Hint Rewrite @rd_app_l @rd_app_r using solve_len : buf_rd.
