(* ===== verification/Endian.v ===== *)
(** Little-endian 32-bit fields: [src/src/util_endian.h], the [int32] accessors
    of [src/src/db_header.c] and the chain-id codec of [src/src/transaction.c].
    Every on-disk structure of the engine is made of these fields. *)

From S2P Require Import Prelude.

(** [garry_read_le32]: the left shift of a byte into the sign bit is the one
    of the compilers the project builds with, which wraps. *)
Definition garry_read_le32 (buf : list Z) (offset : Z) : option Z :=
  b0 ← rd buf offset;
  let b0 := norm_byte b0 in
  b1 ← rd buf (offset + 1);
  let b1 := norm_byte b1 in
  b2 ← rd buf (offset + 2);
  let b2 := norm_byte b2 in
  b3 ← rd buf (offset + 3);
  let b3 := norm_byte b3 in
  Some (Z.lor (Z.lor (Z.lor b0 (i32 (Z.shiftl b1 8))) (i32 (Z.shiftl b2 16)))
              (i32 (Z.shiftl b3 24))).

Definition garry_write_le32 (buf : list Z) (offset val : Z) : option (list Z) :=
  buf ← wr buf offset (u8 (Z.land val 255));
  buf ← wr buf (offset + 1) (u8 (Z.land (Z.shiftr val 8) 255));
  buf ← wr buf (offset + 2) (u8 (Z.land (Z.shiftr val 16) 255));
  wr buf (offset + 3) (u8 (Z.land (Z.shiftr val 24) 255)).

(** The accessors [garry_write_int32] and [garry_read_int32] forward to them. *)
Definition garry_write_int32 (buf : list Z) (offset val : Z) : option (list Z) :=
  garry_write_le32 buf offset val.

Definition garry_read_int32 (buf : list Z) (offset : Z) : option Z :=
  garry_read_le32 buf offset.

(** [garry_chain_id_encode] writes at the start of [out] and returns 4. *)
Definition garry_chain_id_encode (chain_id : Z) (out : list Z) : option (list Z * Z) :=
  out ← wr out 0 (u8 (Z.land chain_id 255));
  out ← wr out 1 (u8 (Z.land (Z.shiftr chain_id 8) 255));
  out ← wr out 2 (u8 (Z.land (Z.shiftr chain_id 16) 255));
  out ← wr out 3 (u8 (Z.land (Z.shiftr chain_id 24) 255));
  Some (out, 4).

Definition garry_chain_id_decode (encoded : list Z) : option Z :=
  b0 ← rd encoded 0;
  b1 ← rd encoded 1;
  b2 ← rd encoded 2;
  b3 ← rd encoded 3;
  Some (Z.lor (Z.lor (Z.lor b0 (i32 (Z.shiftl b1 8))) (i32 (Z.shiftl b2 16)))
              (i32 (Z.shiftl b3 24))).

(** * The four bytes of a field and the value of four bytes *)

Definition le32 (v : Z) : list Z :=
  [v mod 256; (v / 256) mod 256; (v / 65536) mod 256; (v / 16777216) mod 256].

Definition le32_val (b0 b1 b2 b3 : Z) : Z :=
  i32 (b0 + 256 * b1 + 65536 * b2 + 16777216 * b3).

Lemma zlen_le32 v : zlen (le32 v) = 4.
Proof. done. Qed.
#[export] Hint Rewrite zlen_le32 : buf.

Lemma le32_bytes v : Forall is_byte (le32 v).
Proof. repeat constructor; unfold is_byte; apply Z.mod_pos_bound; lia. Qed.
#[export] Hint Resolve le32_bytes : bytes.

(** [|] of disjoint bit ranges is addition. *)
Lemma lor_shiftl_add a b k :
  0 <= k -> 0 <= a < 2 ^ k -> Z.lor a (Z.shiftl b k) = a + Z.shiftl b k.
Proof.
  intros Hk Ha. rewrite <- Z.add_lor_land.
  enough (Z.land a (Z.shiftl b k) = 0) as -> by lia.
  apply Z.bits_inj'. intros n Hn. rewrite Z.land_spec, Z.bits_0, Z.shiftl_spec by done.
  destruct (decide (n < k)).
  - rewrite (Z.testbit_neg_r b) by lia. apply andb_false_r.
  - rewrite <- (Z.mod_small a (2 ^ k)) by done. by rewrite Z.mod_pow2_bits_high by lia.
Qed.

Lemma i32_shiftl_small b k :
  is_byte b -> 0 <= k <= 16 -> i32 (Z.shiftl b k) = Z.shiftl b k.
Proof.
  unfold is_byte. intros. apply i32_id. unfold is_i32. rewrite Z.shiftl_mul_pow2 by lia.
  pose proof (Z.pow_le_mono_r 2 k 16). pose proof (Z.pow_pos_nonneg 2 k). nia.
Qed.

Lemma i32_shiftl_24 b :
  is_byte b -> i32 (Z.shiftl b 24) = Z.shiftl (if decide (b < 128) then b else b - 256) 24.
Proof.
  unfold is_byte. intros. rewrite !Z.shiftl_mul_pow2 by lia. case_decide.
  - apply i32_id. unfold is_i32. lia.
  - unfold i32. replace (b * 2 ^ 24 + 2 ^ 31) with ((b * 2 ^ 24 - 2 ^ 31) + 1 * 2 ^ 32) by lia.
    rewrite Z_mod_plus_full, Z.mod_small by lia. lia.
Qed.

Lemma lor_bytes b0 b1 b2 b3 :
  is_byte b0 -> is_byte b1 -> is_byte b2 -> is_byte b3 ->
  Z.lor (Z.lor (Z.lor b0 (i32 (Z.shiftl b1 8))) (i32 (Z.shiftl b2 16)))
        (i32 (Z.shiftl b3 24)) = le32_val b0 b1 b2 b3.
Proof.
  intros H0 H1 H2 H3. rewrite (i32_shiftl_small b1), (i32_shiftl_small b2) by (done || lia).
  rewrite i32_shiftl_24 by done. unfold is_byte in *.
  rewrite (lor_shiftl_add b0) by lia.
  rewrite (lor_shiftl_add (b0 + _)) by (rewrite ?Z.shiftl_mul_pow2; lia).
  rewrite lor_shiftl_add by (rewrite ?Z.shiftl_mul_pow2; lia).
  rewrite !Z.shiftl_mul_pow2 by lia. unfold le32_val. case_decide.
  - rewrite i32_id; unfold is_i32; lia.
  - unfold i32.
    replace (b0 + 256 * b1 + 65536 * b2 + 16777216 * b3 + 2 ^ 31)
      with (b0 + 256 * b1 + 65536 * b2 + 16777216 * b3 - 2 ^ 31 + 1 * 2 ^ 32) by lia.
    rewrite Z_mod_plus_full, Z.mod_small; lia.
Qed.

Lemma le32_val_le32 v :
  le32_val (v mod 256) ((v / 256) mod 256) ((v / 65536) mod 256) ((v / 16777216) mod 256)
  = i32 v.
Proof.
  unfold le32_val. rewrite <- (i32_mod v). f_equal.
  rewrite !(Z.mod_eq _ 256) by lia. rewrite Z.mod_eq by lia.
  change 65536 with (256 * 256). change 16777216 with (256 * 256 * 256).
  change (2 ^ 32) with (256 * 256 * 256 * 256).
  rewrite <- !Z.div_div by lia. lia.
Qed.

(** * Reading and writing a field *)

Lemma write_le32_blit buf off v : garry_write_le32 buf off v = blit buf off (le32 v).
Proof.
  unfold garry_write_le32. blits.
  unfold le32. change 255 with (Z.ones 8). rewrite !Z.land_ones by lia.
  unfold u8. change (2 ^ 8) with 256. rewrite !Z.mod_mod by lia.
  rewrite !Z.shiftr_div_pow2 by lia. done.
Qed.

(** The value of a field whose four bytes are known. *)
Lemma read_le32_bytes buf off b0 b1 b2 b3 :
  slice buf off 4 = Some [b0; b1; b2; b3] -> Forall is_byte [b0; b1; b2; b3] ->
  garry_read_le32 buf off = Some (le32_val b0 b1 b2 b3).
Proof.
  intros (p & q & -> & <- & _)%slice_inv HF. decompose_Forall_hyps.
  unfold garry_read_le32.
  rewrite (rd_app_at p _ (zlen p) 0) by lia. simpl.
  rewrite (rd_app_at p _ (zlen p + 1) 1) by lia. simpl.
  rewrite (rd_app_at p _ (zlen p + 2) 2) by lia. simpl.
  rewrite (rd_app_at p _ (zlen p + 3) 3) by lia. simpl.
  rewrite !norm_byte_id by done. by rewrite lor_bytes.
Qed.

Lemma read_le32_slice buf off v :
  slice buf off 4 = Some (le32 v) -> garry_read_le32 buf off = Some (i32 v).
Proof.
  intros H. rewrite <- le32_val_le32. eapply read_le32_bytes; [exact H|apply le32_bytes].
Qed.

Lemma read_le32_app p v q off :
  off = zlen p -> garry_read_le32 (p ++ le32 v ++ q) off = Some (i32 v).
Proof. intros ->. apply read_le32_slice. by apply slice_app. Qed.

Lemma read_write_le32 buf off v buf' :
  garry_write_le32 buf off v = Some buf' -> garry_read_le32 buf' off = Some (i32 v).
Proof. rewrite write_le32_blit. intros ?%slice_blit. by apply read_le32_slice. Qed.

(** A field depends on its own four bytes only. *)
Lemma read_le32_ext b1 b2 off :
  (forall i, off <= i < off + 4 -> rd b1 i = rd b2 i) ->
  garry_read_le32 b1 off = garry_read_le32 b2 off.
Proof. intros H. unfold garry_read_le32. by rewrite !H by lia. Qed.

Lemma read_le32_blit_ne buf o s buf' off :
  blit buf o s = Some buf' -> off + 4 <= o \/ o + zlen s <= off ->
  garry_read_le32 buf' off = garry_read_le32 buf off.
Proof.
  intros Hb ?. apply read_le32_ext. intros i ?. rewrite (rd_blit _ _ _ _ _ Hb). by dec.
Qed.

Lemma read_le32_blit buf o v buf' :
  blit buf o (le32 v) = Some buf' -> garry_read_le32 buf' o = Some (i32 v).
Proof. intros Hb. apply read_le32_slice. by apply slice_blit in Hb. Qed.

(** A little-endian field of a block that was written as a whole. *)
Lemma read_le32_in buf o s buf' k v p q :
  blit buf o s = Some buf' -> s = p ++ le32 v ++ q -> k = o + zlen p ->
  garry_read_le32 buf' k = Some (i32 v).
Proof.
  intros (a & g & b & _ & <- & _ & ->)%blit_inv -> ->.
  rewrite <- !app_assoc, (app_assoc a). apply read_le32_app. by rewrite zlen_app.
Qed.

Lemma read_le32_Some buf off :
  Forall is_byte buf -> 0 <= off -> off + 4 <= zlen buf ->
  exists v, garry_read_le32 buf off = Some v /\ is_i32 v.
Proof.
  intros HF H1 H2.
  pose proof (slice_Some buf off 4 H1 ltac:(lia) H2) as Hs.
  pose proof (slice_is_Some _ _ _ _ Hs) as (_ & _ & _ & Hl).
  set (s := take _ _) in *. clearbody s.
  do 4 (destruct s as [|? s]; [done|]). destruct s; [|solve_len].
  eexists. split.
  - eapply read_le32_bytes; [exact Hs|].
    apply slice_inv in Hs as (p & q & -> & _ & _). rewrite !Forall_app in HF. tauto.
  - apply i32_range.
Qed.

(** * The chain-id codec is the same field at offset 0 *)

Lemma chain_id_encode_blit cid out :
  garry_chain_id_encode cid out = (fun out' => (out', 4)) <$> blit out 0 (le32 cid).
Proof.
  rewrite <- write_le32_blit. unfold garry_chain_id_encode, garry_write_le32. simpl.
  repeat (destruct (wr _ _ _); simpl; [|done]). done.
Qed.

(** A sequence of fields, as the header writers produce it. *)
Definition fields (fs : list Z) : list Z := concat (map le32 fs).

Lemma zlen_fields fs : zlen (fields fs) = 4 * zlen fs.
Proof.
  unfold fields. induction fs as [|f fs IH]; [done|].
  cbn [map concat]. rewrite zlen_app, IH, zlen_cons, zlen_le32. lia.
Qed.
#[export] Hint Rewrite zlen_fields : buf.

Lemma fields_app fs gs : fields (fs ++ gs) = fields fs ++ fields gs.
Proof. unfold fields. by rewrite map_app, concat_app. Qed.

Lemma fields_bytes fs : Forall is_byte (fields fs).
Proof.
  unfold fields. induction fs as [|f fs IH]; [constructor|].
  cbn [map concat]. apply Forall_app. split; [apply le32_bytes|done].
Qed.

Lemma read_fields fs q i off v :
  rd fs i = Some v -> off = 4 * i -> garry_read_le32 (fields fs ++ q) off = Some (i32 v).
Proof.
  intros Hv ->. pose proof (rd_Some_range _ _ _ Hv).
  assert (Hs : fs = take (Z.to_nat i) fs ++ [v] ++ drop (S (Z.to_nat i)) fs).
  { unfold rd in Hv. case_decide; [|done]. symmetry. by apply take_drop_middle. }
  rewrite Hs, !fields_app, <- !app_assoc. change (fields [v]) with (le32 v).
  apply read_le32_app. rewrite zlen_fields.
  unfold zlen in *. rewrite length_take. lia.
Qed.

Lemma read_fields_id fs q i off v :
  Forall is_i32 fs -> rd fs i = Some v -> off = 4 * i ->
  garry_read_le32 (fields fs ++ q) off = Some v.
Proof.
  intros HF Hv Ho. rewrite (read_fields fs q i off v) by done. f_equal. apply i32_id.
  unfold rd in Hv. case_decide; [|done]. by eapply Forall_lookup_1.
Qed.

(** * Chains of writes *)

(** [run_blit] takes the next write of the goal, which must be in range. *)
Ltac blit_range :=
  repeat match goal with |- context [zlen (le32 ?v)] => change (zlen (le32 v)) with 4 end;
  try lia.
Ltac run_blit :=
  match goal with |- context [blit ?b ?o ?s] =>
    let b' := fresh "b" in let Hb := fresh "Hblit" in let Hl := fresh "Hlen" in
    destruct (blit_ok b o s) as (b' & Hb & Hl);
    [blit_range..|rewrite Hb; bsimpl]
  end.

(** [skip_blits] rewrites a read of the last buffer of a chain of writes back
    to the write that determines it. *)
Ltac skip_blits :=
  repeat match goal with
  | Hb : blit ?b ?o (le32 ?v) = Some ?b' |- context [garry_read_le32 ?b' ?o] =>
      rewrite (read_le32_blit _ _ _ _ Hb)
  | Hb : blit ?b _ _ = Some ?b' |- context [garry_read_le32 ?b' _] =>
      rewrite (read_le32_blit_ne _ _ _ _ _ Hb) by blit_range
  | Hb : blit ?b _ _ = Some ?b' |- context [slice ?b' _ _] =>
      rewrite (slice_blit_ne _ _ _ _ _ _ Hb) by blit_range
  end.
