(* ===== verification/KeyEncoding.v ===== *)
(** Key encoding, [src/src/key_encoding.c]: the length-prefixed tuple format,
    the byte order of keys, prefix tests and integer subscripts. *)

From S2P Require Import Prelude.

Definition GARRY_MAX_KEY_SIZE : Z := 256.
Definition GARRY_MAX_SUBSCRIPTS : Z := 16.
Definition GARRY_LEN_PREFIX_INLINE_MAX : Z := 128.
Definition GARRY_LEN_PREFIX_LONG_MARKER : Z := 255.

(** [garry_key_tuple]: [parts[i]] points into an object, modelled by the bytes
    from there to the end of the object; the entries beyond [count] are never
    initialised and are not represented. *)
Record garry_key_tuple := KeyTuple {
  kt_parts : list (list Z);
  kt_counts : list Z;
  kt_count : Z
}.

(** * Operations *)

(** A C string is its bytes followed by NUL. *)
Definition cstr (s : list Z) : list Z := s ++ [0].
Definition strlen (s : list Z) : Z := zlen s.

Definition garry_length_prefix_size (plen : Z) : Z :=
  if decide (plen < GARRY_LEN_PREFIX_INLINE_MAX) then 1 else 3.

Definition garry_tuple_length (t : garry_key_tuple) : option Z :=
  forZ 0 (kt_count t) (fun i total =>
    c ← rd (kt_counts t) i;
    Some (total + (garry_length_prefix_size c + c))) 0.

Definition garry_make_key_2 (p1 p2 : list Z) : garry_key_tuple :=
  KeyTuple [cstr p1; cstr p2] [strlen p1; strlen p2] 2.

Definition garry_make_key_3 (p1 p2 p3 : list Z) : garry_key_tuple :=
  KeyTuple [cstr p1; cstr p2; cstr p3] [strlen p1; strlen p2; strlen p3] 3.

Definition garry_make_key_4 (p1 p2 p3 p4 : list Z) : garry_key_tuple :=
  KeyTuple [cstr p1; cstr p2; cstr p3; cstr p4]
           [strlen p1; strlen p2; strlen p3; strlen p4] 4.

Definition garry_encode_length_prefix (result : list Z) (offset plen : Z)
  : option (list Z * Z) :=
  if decide (plen < GARRY_LEN_PREFIX_INLINE_MAX) then
    result ← wr result offset (u8 plen);
    Some (result, offset + 1)
  else
    result ← wr result offset (u8 GARRY_LEN_PREFIX_LONG_MARKER);
    result ← wr result (offset + 1) (u8 (Z.rem (Z.quot plen 256) 256));
    result ← wr result (offset + 2) (u8 (Z.rem plen 256));
    Some (result, offset + 3).

Definition garry_decode_length_prefix (key : list Z) (offset : Z) : option Z :=
  v0 ← rd key offset;
  if decide (v0 <> GARRY_LEN_PREFIX_LONG_MARKER) then Some v0
  else
    v1 ← rd key (offset + 1);
    v2 ← rd key (offset + 2);
    Some (v1 * 256 + v2).

Definition garry_encode_key_tuple (t : garry_key_tuple) (out : list Z) : option (list Z) :=
  out ← memset out 0 0 GARRY_MAX_KEY_SIZE;
  r ← forZ 0 (kt_count t) (fun i st =>
        let '(out, offset) := st in
        plen ← rd (kt_counts t) i;
        '(out, offset) ← garry_encode_length_prefix out offset plen;
        forZ 0 plen (fun j st =>
          let '(out, offset) := st in
          part ← rd (kt_parts t) i;
          b ← rd part j;
          out ← wr out offset b;
          Some (out, offset + 1)) (out, offset)) (out, 0);
  Some (fst r).

Definition garry_decode_key_tuple (encoded : list Z) (elen : Z) : option garry_key_tuple :=
  r ← while (Z.to_nat GARRY_MAX_SUBSCRIPTS)
        (fun '(result, offset, idx) =>
           bool_decide (offset < elen) && bool_decide (idx < GARRY_MAX_SUBSCRIPTS))
        (fun '(result, offset, idx) =>
           plen ← garry_decode_length_prefix encoded offset;
           b ← rd encoded offset;
           let hdr_size := if decide (b = GARRY_LEN_PREFIX_LONG_MARKER) then 3 else 1 in
           p ← ptr_add encoded (offset + hdr_size);
           Some (KeyTuple (kt_parts result ++ [p]) (kt_counts result ++ [plen])
                          (kt_count result + 1),
                 offset + hdr_size + plen, idx + 1))
        (KeyTuple [] [] 0, 0, 0);
  Some (fst (fst r)).

Definition garry_has_prefix (key : list Z) (klen : Z) (prefix : list Z) (plen : Z)
  : option bool :=
  if decide (klen < plen) then Some false
  else
    r ← scan 0 plen (fun i =>
          a ← rd key i;
          b ← rd prefix i;
          Some (if decide (a <> b) then Some false else None));
    Some (default true r).

Definition garry_empty_byte_array (out : list Z) : option (list Z) :=
  memset out 0 0 GARRY_MAX_KEY_SIZE.

Definition garry_encode_integer_subscript (n : Z) (out : list Z) : option (list Z) :=
  out ← memset out 0 0 GARRY_MAX_KEY_SIZE;
  out ← wr out 0 2;
  r ← forZ 1 9 (fun i st =>
        let '(out, val) := st in
        out ← wr out i (u8 (Z.land val 255));
        Some (out, Z.shiftr val 8)) (out, u32 n);
  Some (fst r).

(** The accumulation is in [garry_i32]: it is undefined when it overflows. *)
Definition garry_decode_integer_subscript (encoded : list Z) (offset : Z) : option Z :=
  forZ 0 8 (fun k result =>
    b ← rd encoded (offset + (8 - k));
    r ← ck (result * 256);
    ck (r + b)) 0.

Definition garry_byte_compare (a : list Z) (alen : Z) (b : list Z) (blen : Z) : option Z :=
  let limit := if decide (alen < blen) then alen else blen in
  r ← scan 0 limit (fun i =>
        x ← rd a i;
        y ← rd b i;
        Some (if decide (u8 x < u8 y) then Some (-1)
              else if decide (u8 x > u8 y) then Some 1 else None));
  Some (match r with
        | Some v => v
        | None => if decide (alen < blen) then -1
                  else if decide (alen > blen) then 1 else 0
        end).

(** * The order of keys

    [lex] is the lexicographic order on byte strings, a proper prefix first;
    [garry_byte_compare] computes it. *)
Fixpoint lex (a b : list Z) : comparison :=
  match a, b with
  | [], [] => Eq
  | [], _ :: _ => Lt
  | _ :: _, [] => Gt
  | x :: a', y :: b' => match x ?= y with Eq => lex a' b' | c => c end
  end.

Definition cmpZ (c : comparison) : Z :=
  match c with Lt => -1 | Eq => 0 | Gt => 1 end.

Definition key_lt (a b : list Z) : Prop := lex a b = Lt.
Definition key_le (a b : list Z) : Prop := lex a b <> Gt.
#[export] Instance key_lt_dec : RelDecision key_lt.
Proof. intros a b. unfold key_lt. apply _. Defined.
#[export] Instance key_le_dec : RelDecision key_le.
Proof. intros a b. unfold key_le. apply _. Defined.

Lemma lex_refl a : lex a a = Eq.
Proof. induction a as [|x a IH]; simpl; [done|]. by rewrite Z.compare_refl. Qed.

Lemma lex_eq a b : lex a b = Eq <-> a = b.
Proof.
  split; [|intros ->; apply lex_refl]. revert b.
  induction a as [|x a IH]; intros [|y b]; simpl; try done.
  destruct (x ?= y) eqn:E; try done. intros ?%IH. by apply Z.compare_eq in E as ->; subst.
Qed.

Lemma lex_antisym a b : lex b a = CompOpp (lex a b).
Proof.
  revert b. induction a as [|x a IH]; intros [|y b]; simpl; try done.
  rewrite (Z.compare_antisym x y). destruct (x ?= y); simpl; auto.
Qed.

Lemma lex_trans a b c : lex a b = Lt -> lex b c = Lt -> lex a c = Lt.
Proof.
  revert b c. induction a as [|x a IH]; intros [|y b] [|z c]; simpl; try done.
  destruct (Z.compare_spec x y), (Z.compare_spec y z); intros; subst; try done.
  - rewrite Z.compare_refl. eauto.
  - by rewrite (proj2 (Z.compare_lt_iff _ _)).
  - by rewrite (proj2 (Z.compare_lt_iff _ _)).
  - rewrite (proj2 (Z.compare_lt_iff _ _)); [done|lia].
Qed.

#[export] Instance key_lt_strict : StrictOrder key_lt.
Proof.
  split.
  - intros a. unfold complement, key_lt. by rewrite lex_refl.
  - intros a b c. apply lex_trans.
Qed.

Lemma key_lt_trichotomy a b : key_lt a b \/ a = b \/ key_lt b a.
Proof.
  unfold key_lt. rewrite (lex_antisym a b). destruct (lex a b) eqn:E; simpl; auto.
  right; left. by apply lex_eq.
Qed.

Lemma key_le_lt_eq a b : key_le a b <-> key_lt a b \/ a = b.
Proof.
  unfold key_le, key_lt. rewrite <- lex_eq. destruct (lex a b); intuition congruence.
Qed.

Lemma key_le_not_lt a b : key_le a b <-> ~ key_lt b a.
Proof.
  unfold key_le, key_lt. rewrite (lex_antisym a b). destruct (lex a b); naive_solver.
Qed.

#[export] Instance key_le_total : TotalOrder key_le.
Proof.
  split; [split; [split|]|].
  - intros a. rewrite key_le_lt_eq. auto.
  - intros a b c. rewrite !key_le_lt_eq. intros [?| ->] [?| ->]; auto.
    left. by etrans.
  - intros a b Hab Hba. rewrite !key_le_lt_eq in *.
    destruct Hab as [Hab|]; [|done]. destruct Hba as [Hba|]; [|done].
    exfalso. by apply (irreflexivity key_lt a); etrans.
  - intros a b. unfold strict. rewrite !key_le_not_lt.
    pose proof (asymmetry (R:=key_lt) (x:=a) (y:=b)).
    destruct (key_lt_trichotomy a b) as [|[|]]; naive_solver.
Qed.

(** A common prefix does not influence the order. *)
Lemma lex_app p a b : lex (p ++ a) (p ++ b) = lex a b.
Proof. induction p as [|x p IH]; simpl; [done|]. by rewrite Z.compare_refl. Qed.

Lemma scan_lex pa a ra pb b rb k alen blen :
  zlen pa = k -> zlen pb = k -> alen = k + zlen a -> blen = k + zlen b ->
  Forall is_byte a -> Forall is_byte b ->
  (r ← scan k (if decide (alen < blen) then alen else blen) (fun i =>
        x ← rd (pa ++ a ++ ra) i;
        y ← rd (pb ++ b ++ rb) i;
        Some (if decide (u8 x < u8 y) then Some (-1)
              else if decide (u8 x > u8 y) then Some 1 else None));
  Some (match r with
        | Some v => v
        | None => if decide (alen < blen) then -1
                  else if decide (alen > blen) then 1 else 0
        end)) = Some (cmpZ (lex a b)).
Proof.
  revert pa pb b k. induction a as [|x a IH]; intros pa pb [|y b] k Hp Hp' Hl Hl' Ha Hb;
    autorewrite with buf in *.
  - dec. by rewrite scan_None by lia.
  - pose proof (zlen_nonneg b). dec. by rewrite scan_None by lia.
  - pose proof (zlen_nonneg a). dec. by rewrite scan_None by lia.
  - pose proof (zlen_nonneg a). pose proof (zlen_nonneg b). decompose_Forall_hyps.
    rewrite scan_step by (case_decide; lia).
    rewrite !(rd_app_at _ _ _ 0) by lia. simpl. rewrite !u8_id by done.
    rewrite Z.compare_antisym. destruct (Z.compare_spec y x); simpl; dec; try done. subst y.
    specialize (IH (pa ++ [x]) (pb ++ [x]) b (zlen pa + 1)).
    rewrite <- !app_assoc in IH. apply IH; solve_len || done.
Qed.

Lemma byte_compare_lex a alen b blen ka kb :
  slice a 0 alen = Some ka -> slice b 0 blen = Some kb ->
  Forall is_byte ka -> Forall is_byte kb ->
  garry_byte_compare a alen b blen = Some (cmpZ (lex ka kb)).
Proof.
  intros (pa & ra & -> & Hpa & <-)%slice_inv (pb & rb & -> & Hpb & <-)%slice_inv HA HB.
  destruct pa; [|solve_len]. destruct pb; [|solve_len].
  apply (scan_lex [] ka ra [] kb rb 0); done.
Qed.

(** * Prefix tests *)

Lemma has_prefix_spec key klen prefix plen kk kp :
  slice key 0 klen = Some kk -> slice prefix 0 plen = Some kp ->
  garry_has_prefix key klen prefix plen = Some (bool_decide (kp `prefix_of` kk)).
Proof.
  intros Hk Hp. pose proof (slice_is_Some _ _ _ _ Hk) as (_&?&_&Hlk).
  pose proof (slice_is_Some _ _ _ _ Hp) as (_&?&_&Hlp).
  unfold garry_has_prefix. case_decide as Hlt.
  { rewrite bool_decide_eq_false_2; [done|]. intros [r ->]. solve_len. }
  apply slice_inv in Hk as (pk & rk & -> & Hpk & _). destruct pk; [|solve_len].
  assert (slice ([] ++ kk ++ rk) 0 plen = Some (take (length kp) kk)) as Ht.
  { rewrite <- (take_drop (length kp) kk), <- app_assoc at 1. apply (slice_app []); [done|].
    unfold zlen in *. rewrite length_take. lia. }
  rewrite (scan_eq false _ _ _ _ _ Ht Hp). simpl. do 2 f_equal. case_decide as He; simpl.
  - rewrite bool_decide_eq_true_2; [done|]. exists (drop (length kp) kk).
    by rewrite <- He at 1; rewrite take_drop.
  - rewrite bool_decide_eq_false_2; [done|]. intros [r ->]. by rewrite take_app_length in He.
Qed.

(** * The tuple format *)

Definition enc_prefix (plen : Z) : list Z :=
  if decide (plen < 128) then [plen] else [255; plen / 256; plen mod 256].
Definition enc_part (s : list Z) : list Z := enc_prefix (zlen s) ++ s.
Definition enc_tuple (ss : list (list Z)) : list Z := concat (map enc_part ss).

(** [t] holds the strings [ss]: the counts are their lengths and every part
    pointer starts with the string. *)
Definition tuple_rep (t : garry_key_tuple) (ss : list (list Z)) : Prop :=
  kt_count t = zlen ss /\ kt_counts t = map zlen ss /\
  Forall2 (fun p s => s `prefix_of` p) (kt_parts t) ss.

Lemma length_prefix_size_enc plen : garry_length_prefix_size plen = zlen (enc_prefix plen).
Proof.
  unfold garry_length_prefix_size, enc_prefix, GARRY_LEN_PREFIX_INLINE_MAX. by case_decide.
Qed.

Lemma encode_length_prefix_blit result offset plen :
  0 <= plen < 65536 ->
  garry_encode_length_prefix result offset plen =
    (fun o => (o, offset + zlen (enc_prefix plen))) <$> blit result offset (enc_prefix plen).
Proof.
  intros. unfold garry_encode_length_prefix, enc_prefix, GARRY_LEN_PREFIX_INLINE_MAX.
  case_decide.
  - rewrite wr_blit, u8_id by (unfold is_byte; lia). by destruct (blit _ _ _).
  - blits. rewrite !u8_rem. unfold u8, GARRY_LEN_PREFIX_LONG_MARKER.
    rewrite Z.quot_div_nonneg by lia. rewrite (Z.mod_small (plen / 256)).
    + change (255 mod 256) with 255. by destruct (blit _ _ _).
    + split; [apply Z.div_pos; lia|apply Z.div_lt_upper_bound; lia].
Qed.

Lemma decode_length_prefix_enc p plen q :
  0 <= plen < 65536 ->
  garry_decode_length_prefix (p ++ enc_prefix plen ++ q) (zlen p) = Some plen /\
  exists b, rd (p ++ enc_prefix plen ++ q) (zlen p) = Some b /\
    (if decide (b = GARRY_LEN_PREFIX_LONG_MARKER) then 3 else 1) = zlen (enc_prefix plen).
Proof.
  intros. unfold garry_decode_length_prefix, enc_prefix, GARRY_LEN_PREFIX_LONG_MARKER.
  rewrite rd_app_0, !rd_app_plus by lia. case_decide; simpl; rewrite rd_cons_0; simpl.
  - dec. split; [done|]. eexists; split; [done|]. by dec.
  - split; [|eexists; split; [done|]; by dec]. cbn. f_equal.
    pose proof (Z.div_mod plen 256). lia.
Qed.

Lemma copy_part (out part : list Z) off s :
  s `prefix_of` part -> 0 <= off -> off + zlen s <= zlen out ->
  copy_loop out off part 0 (zlen s) = blit out off s.
Proof.
  intros [r ->] ??. apply copy_loop_slice; [|done..]. by apply (slice_app [] s r).
Qed.

Lemma enc_tuple_app ss1 ss2 : enc_tuple (ss1 ++ ss2) = enc_tuple ss1 ++ enc_tuple ss2.
Proof. unfold enc_tuple. by rewrite map_app, concat_app. Qed.

Lemma enc_tuple_one s : enc_tuple [s] = enc_part s.
Proof. unfold enc_tuple. simpl. by rewrite app_nil_r. Qed.

Lemma zlen_enc_prefix plen : 1 <= zlen (enc_prefix plen) <= 3.
Proof. unfold enc_prefix. case_decide; autorewrite with buf; lia. Qed.

(** One component appended at the write position. *)
Lemma encode_part_step w (rest : list Z) part s :
  s `prefix_of` part -> zlen s < 65536 -> zlen (enc_part s) <= zlen rest ->
  exists rest',
    ('(out, offset) ← garry_encode_length_prefix (w ++ rest) (zlen w) (zlen s);
     forZ 0 (zlen s) (fun j st =>
       let '(out, offset) := st in
       b ← rd part j; out ← wr out offset b; Some (out, offset + 1)) (out, offset))
    = Some ((w ++ enc_part s) ++ rest', zlen (w ++ enc_part s)) /\
    zlen rest = zlen (enc_part s) + zlen rest'.
Proof.
  intros Hp Hs Hr. unfold enc_part in *. rewrite zlen_app in Hr.
  pose proof (zlen_nonneg s). pose proof (zlen_enc_prefix (zlen s)).
  rewrite encode_length_prefix_blit by lia.
  destruct (blit_split (w ++ rest) (zlen w) (enc_prefix (zlen s) ++ s))
    as (p & g & q & E & Hw & Hg & Hb); [solve_len..|].
  apply app_inj_1 in E as [<- ->]; [|unfold zlen in *; lia].
  rewrite <- (blit_blit _ _ _ (zlen w + zlen (enc_prefix (zlen s)))) in Hb by done.
  exists q. destruct (blit _ _ _) as [o|] eqn:Eo; [|done]. simpl in Hb |- *.
  apply blit_zlen in Eo. rewrite emit_loop by lia. rewrite copy_part; [|done|solve_len..].
  rewrite Hb. simpl. rewrite <- !app_assoc. split; [do 2 f_equal; solve_len|solve_len].
Qed.

Lemma rd_map_zlen (ss : list (list Z)) i s :
  rd ss i = Some s -> rd (map zlen ss) i = Some (zlen s).
Proof. unfold rd. case_decide; [|done]. intros Hi. by rewrite list_lookup_fmap, Hi. Qed.

Lemma take_rd_S {A} (l : list A) i x :
  rd l i = Some x -> take (Z.to_nat (i + 1)) l = take (Z.to_nat i) l ++ [x].
Proof.
  unfold rd. case_decide; [|done]. intros Hx.
  replace (Z.to_nat (i + 1)) with (S (Z.to_nat i)) by lia. by apply take_S_r.
Qed.

Lemma take_zlen {A} (l : list A) : take (Z.to_nat (zlen l)) l = l.
Proof. unfold zlen. rewrite Nat2Z.id. apply take_ge. lia. Qed.

Lemma enc_tuple_take_le ss i : zlen (enc_tuple (take i ss)) <= zlen (enc_tuple ss).
Proof. rewrite <- (take_drop i ss) at 2. rewrite enc_tuple_app. solve_len. Qed.

Lemma zlen_part_le ss s : s ∈ ss -> zlen (enc_part s) <= zlen (enc_tuple ss).
Proof.
  intros (l1 & l2 & ->)%list_elem_of_split.
  rewrite enc_tuple_app. change (s :: l2) with ([s] ++ l2).
  rewrite enc_tuple_app, enc_tuple_one. solve_len.
Qed.

Lemma rd_elem_of {A} (l : list A) i x : rd l i = Some x -> x ∈ l.
Proof. unfold rd. case_decide; [|done]. apply list_elem_of_lookup_2. Qed.

Lemma Forall2_rd {A B} (R : A -> B -> Prop) l1 l2 i y :
  Forall2 R l1 l2 -> rd l2 i = Some y -> exists x, rd l1 i = Some x /\ R x y.
Proof.
  intros HF. unfold rd. case_decide; [|done]. intros Hy.
  destruct (Forall2_lookup_r _ _ _ _ _ HF Hy) as (x & ? & ?). eauto.
Qed.

Lemma encode_key_tuple_spec t ss out :
  tuple_rep t ss -> zlen out = GARRY_MAX_KEY_SIZE ->
  zlen (enc_tuple ss) <= GARRY_MAX_KEY_SIZE ->
  exists rest, garry_encode_key_tuple t out = Some (enc_tuple ss ++ rest) /\
               zlen (enc_tuple ss ++ rest) = GARRY_MAX_KEY_SIZE.
Proof.
  intros (Hc & Hcs & Hp) Ho Hfit. unfold garry_encode_key_tuple, memset.
  destruct (blit_split out 0 (replicate (Z.to_nat GARRY_MAX_KEY_SIZE) 0))
    as (p & g & q & -> & ? & Hg & ->); [unfold GARRY_MAX_KEY_SIZE in *; solve_len..|].
  set (o := p ++ _ ++ q). assert (Hol : zlen o = GARRY_MAX_KEY_SIZE) by (subst o; solve_len).
  clearbody o. simpl. rewrite Hc, Hcs.
  edestruct (forZ_inv (fun i '(out, offset) => exists rest,
      out = enc_tuple (take (Z.to_nat i) ss) ++ rest /\
      offset = zlen (enc_tuple (take (Z.to_nat i) ss)) /\ zlen out = GARRY_MAX_KEY_SIZE))
    as ([out' off'] & Hrun & rest & -> & _ & Hl); cycle 3.
  - rewrite Hrun. simpl. rewrite take_zlen in *. by exists rest.
  - apply zlen_nonneg.
  - exists o. rewrite take_0. done.
  - intros i [out off] Hi (rest & -> & -> & Hl).
    destruct (rd_is_Some ss i Hi) as [s Hs].
    destruct (Forall2_rd _ _ _ _ _ Hp Hs) as (part & Hpart & Hpre).
    rewrite (rd_map_zlen _ _ _ Hs). cbn [mbind option_bind].
    pose proof (zlen_part_le _ _ (rd_elem_of _ _ _ Hs)) as Hle.
    pose proof (enc_tuple_take_le ss (Z.to_nat (i + 1))) as Hle2.
    rewrite (take_rd_S _ _ _ Hs), enc_tuple_app, enc_tuple_one, zlen_app in Hle2.
    assert (zlen s <= zlen (enc_part s)) by (unfold enc_part; solve_len).
    destruct (encode_part_step (enc_tuple (take (Z.to_nat i) ss)) rest part s)
      as (rest' & Hstep & Hr'); [done|unfold GARRY_MAX_KEY_SIZE in *; lia|solve_len|].
    rewrite Hpart. cbn [mbind option_bind] in Hstep |- *. rewrite Hstep. eexists. split; [done|]. exists rest'.
    rewrite (take_rd_S _ _ _ Hs), enc_tuple_app, enc_tuple_one.
    split; [done|]. split; [done|]. rewrite !zlen_app in *. lia.
Qed.

Lemma decode_key_tuple_spec ss rest :
  zlen ss <= GARRY_MAX_SUBSCRIPTS -> zlen (enc_tuple ss) < 65536 ->
  exists t, garry_decode_key_tuple (enc_tuple ss ++ rest) (zlen (enc_tuple ss)) = Some t /\
            tuple_rep t ss.
Proof.
  intros Hn Hfit. unfold garry_decode_key_tuple.
  edestruct (while_inv (fun '(r, off, idx) => 0 <= idx <= zlen ss /\
      tuple_rep r (take (Z.to_nat idx) ss) /\
      off = zlen (enc_tuple (take (Z.to_nat idx) ss)))
      (fun '(_, _, idx) => zlen ss - idx)) as ([[t off] idx] & Hrun & Hinv & Hc); cycle 3.
  - rewrite Hrun. exists t. split; [done|]. destruct Hinv as (Hi & Hr & ->).
    destruct (decide (idx = zlen ss)) as [->|Hne]; [by rewrite take_zlen in Hr|].
    exfalso. apply andb_false_iff in Hc as [Hc|Hc]; apply bool_decide_eq_false_1 in Hc; [|lia].
    destruct (rd_is_Some ss idx) as [s Hs]; [lia|].
    apply Hc. pose proof (enc_tuple_take_le ss (Z.to_nat (idx + 1))) as Hle.
    rewrite (take_rd_S _ _ _ Hs), enc_tuple_app, enc_tuple_one, zlen_app in Hle.
    unfold enc_part in Hle. pose proof (zlen_enc_prefix (zlen s)). solve_len.
  - split; [split; [lia|apply zlen_nonneg]|]. split; [|done]. repeat split. constructor.
  - unfold GARRY_MAX_SUBSCRIPTS in *. lia.
  - intros [[r off] idx] (Hi & (Hrc & Hrcs & Hrp) & ->) Hc.
    apply andb_true_iff in Hc as [Hc1%bool_decide_eq_true_1 Hc2%bool_decide_eq_true_1].
    assert (idx < zlen ss).
    { destruct (decide (idx = zlen ss)) as [->|]; [|lia]. rewrite take_zlen in Hc1. lia. }
    destruct (rd_is_Some ss idx) as [s Hs]; [lia|].
    pose proof (zlen_part_le _ _ (rd_elem_of _ _ _ Hs)) as Hle. unfold enc_part in Hle.
    assert (Hsplit : enc_tuple ss ++ rest = enc_tuple (take (Z.to_nat idx) ss) ++
              enc_prefix (zlen s) ++ s ++ enc_tuple (drop (Z.to_nat (idx + 1)) ss) ++ rest).
    { rewrite <- (take_drop (Z.to_nat (idx + 1)) ss) at 1.
      rewrite (take_rd_S _ _ _ Hs), !enc_tuple_app, enc_tuple_one. unfold enc_part.
      by rewrite <- !app_assoc. }
    rewrite Hsplit. split; [lia|].
    destruct (decode_length_prefix_enc (enc_tuple (take (Z.to_nat idx) ss)) (zlen s)
      (s ++ enc_tuple (drop (Z.to_nat (idx + 1)) ss) ++ rest)) as (-> & b & Hb & Hh);
      [solve_len|].
    cbn [mbind option_bind]. rewrite Hb. cbn [mbind option_bind]. rewrite Hh.
    unfold ptr_add. rewrite decide_True by solve_len. cbn [mbind option_bind].
    eexists. split; [done|]. cbv beta iota. rewrite (take_rd_S _ _ _ Hs). split; [|lia].
    split; [lia|]. split; [split; [|split]|]; simpl.
    + rewrite Hrc. solve_len.
    + by rewrite Hrcs, map_app.
    + apply Forall2_app; [done|]. constructor; [|done].
      exists (enc_tuple (drop (Z.to_nat (idx + 1)) ss) ++ rest).
      rewrite app_assoc. replace (Z.to_nat _)
        with (length (enc_tuple (take (Z.to_nat idx) ss) ++ enc_prefix (zlen s))).
      * by rewrite drop_app_length.
      * rewrite length_app. unfold zlen. lia.
    + rewrite enc_tuple_app, enc_tuple_one. unfold enc_part. solve_len.
Qed.

Lemma tuple_length_spec t ss : tuple_rep t ss -> garry_tuple_length t = Some (zlen (enc_tuple ss)).
Proof.
  intros (Hc & Hcs & _). unfold garry_tuple_length. rewrite Hc, Hcs.
  edestruct (forZ_inv (fun i total => total = zlen (enc_tuple (take (Z.to_nat i) ss))))
    as (r & -> & ->); cycle 3.
  - by rewrite take_zlen.
  - apply zlen_nonneg.
  - done.
  - intros i total Hi ->. destruct (rd_is_Some ss i Hi) as [s Hs].
    rewrite (rd_map_zlen _ _ _ Hs). eexists. split; [done|].
    rewrite (take_rd_S _ _ _ Hs), enc_tuple_app, enc_tuple_one, length_prefix_size_enc.
    unfold enc_part. solve_len.
Qed.

(** * Integer subscripts *)

(** The marker byte 2 and eight little-endian bytes, the upper four zero. *)
Definition enc_subscript (n : Z) : list Z :=
  [2; n mod 256; n / 256 mod 256; n / 65536 mod 256; n / 16777216 mod 256; 0; 0; 0; 0].

Lemma u8_land_shiftr n k : 0 <= k -> u8 (Z.land (Z.shiftr n k) 255) = n / 2 ^ k mod 256.
Proof.
  intros. change 255 with (Z.ones 8). rewrite Z.land_ones, Z.shiftr_div_pow2 by lia.
  unfold u8. change (2 ^ 8) with 256. by rewrite Z.mod_mod.
Qed.

Lemma encode_integer_subscript_spec n out :
  zlen out = GARRY_MAX_KEY_SIZE -> is_i32 n ->
  exists rest, garry_encode_integer_subscript n out = Some (enc_subscript (u32 n) ++ rest).
Proof.
  intros Ho Hn. unfold garry_encode_integer_subscript, memset, GARRY_MAX_KEY_SIZE in *.
  destruct (blit_split out 0 (replicate (Z.to_nat 256) 0)) as (p & g & q & -> & ? & Hg & ->);
    [solve_len..|].
  set (o := p ++ _ ++ q). assert (Hol : zlen o = 256) by (subst o; solve_len).
  clearbody o. unfold forZ. change (Z.to_nat (9 - 1)) with 8%nat.
  unfold zlen in Hol. do 9 (destruct o as [|? o]; [done|]).
  cbn [mbind option_bind].
  repeat (rewrite wr_Some by (unfold zlen; simpl length in *; rewrite ?length_insert; simpl; lia);
          cbn [mbind option_bind for_n]).
  cbn [mbind option_bind fst]. rewrite !Z.shiftr_shiftr by lia. simpl Z.add.
  replace (u8 (Z.land (u32 n) 255)) with (u8 (Z.land (Z.shiftr (u32 n) 0) 255)) by done.
  rewrite !u8_land_shiftr by lia.
  assert (Hu : 0 <= u32 n < 2 ^ 32) by (apply Z.mod_pos_bound; lia).
  change (8 + 8) with 16. change (8 + 16) with 24. change (8 + 24) with 32.
  change (8 + 32) with 40. change (8 + 40) with 48. change (8 + 48) with 56.
  rewrite (Z.div_small (u32 n) (2 ^ 32)), (Z.div_small (u32 n) (2 ^ 40)),
    (Z.div_small (u32 n) (2 ^ 48)), (Z.div_small (u32 n) (2 ^ 56)) by lia.
  change (2 ^ 0) with 1. rewrite Z.div_1_r. change (0 mod 256) with 0.
  simpl. by exists o.
Qed.

(** Decoding accumulates from the high byte; on five or more significant bytes
    of a negative number the accumulation overflows. *)
Lemma decode_integer_subscript_spec u rest :
  0 <= u < 2 ^ 32 ->
  garry_decode_integer_subscript (enc_subscript u ++ rest) 0 =
    if decide (u < 2 ^ 31) then Some u else None.
Proof.
  intros Hu. unfold garry_decode_integer_subscript, forZ, enc_subscript.
  change (Z.to_nat (8 - 0)) with 8%nat. cbn [for_n mbind option_bind app].
  rd_const.
  pose proof (Z.div_mod u 256 ltac:(lia)).
  pose proof (Z.div_mod (u / 256) 256 ltac:(lia)).
  pose proof (Z.div_mod (u / 65536) 256 ltac:(lia)).
  change 65536 with (256 * 256) in *. change 16777216 with (256 * 256 * 256) in *.
  rewrite <- !Z.div_div in * by lia.
  set (a := u / 256) in *. set (b := a / 256) in *. set (c := b / 256) in *.
  pose proof (Z.mod_pos_bound u 256 ltac:(lia)). pose proof (Z.mod_pos_bound a 256 ltac:(lia)).
  pose proof (Z.mod_pos_bound b 256 ltac:(lia)).
  rewrite (Z.mod_small c 256) by lia.
  set (d0 := u mod 256) in *. set (d1 := a mod 256) in *. set (d2 := b mod 256) in *.
  clearbody a b c d0 d1 d2. unfold ck, is_i32.
  repeat (cbn [mbind option_bind]; rewrite ?Z.mul_0_l, ?Z.add_0_r, ?Z.add_0_l; dec).
  repeat (case_decide; cbn [mbind option_bind]); try lia; try (f_equal; lia).
Qed.

(** * Properties *)

(** [garry_byte_compare] reads only the two keys and decides the
    lexicographic order on them: 0 exactly on equal keys, -1 and 1 exchanged by
    swapping the arguments, and transitive, so it is a total order. *)
Theorem byte_compare_total_order (a b c : list Z) (alen blen clen : Z) (ka kb kc : list Z)
  (Ha : slice a 0 alen = Some ka) (Hb : slice b 0 blen = Some kb) (Hc : slice c 0 clen = Some kc)
  (HA : Forall is_byte ka) (HB : Forall is_byte kb) (HC : Forall is_byte kc) :
  garry_byte_compare a alen b blen = Some (cmpZ (lex ka kb)) /\
  (garry_byte_compare a alen b blen = Some 0 <-> ka = kb) /\
  (garry_byte_compare a alen b blen = Some (-1) <-> garry_byte_compare b blen a alen = Some 1) /\
  (garry_byte_compare a alen b blen = Some (-1) -> garry_byte_compare b blen c clen = Some (-1) ->
   garry_byte_compare a alen c clen = Some (-1)).
Proof.
  rewrite (byte_compare_lex a alen b blen ka kb), (byte_compare_lex b blen a alen kb ka),
    (byte_compare_lex b blen c clen kb kc), (byte_compare_lex a alen c clen ka kc) by done.
  pose proof (lex_trans ka kb kc) as Ht.
  rewrite (lex_antisym ka kb), <- (lex_eq ka kb).
  destruct (lex ka kb), (lex kb kc), (lex ka kc); simpl; intuition congruence.
Qed.

Lemma byte_compare_total_order_witness :
  garry_byte_compare [97; 98; 0] 2 [97; 99] 2 = Some (-1).
Proof.
  exact (proj1 (byte_compare_total_order [97; 98; 0] [97; 99] [98] 2 2 1 [97; 98] [97; 99] [98]
    eq_refl eq_refl eq_refl ltac:(by repeat constructor) ltac:(by repeat constructor)
    ltac:(by repeat constructor))).
Defined.

(** A tuple of at most 16 parts that fits the 256-byte key buffer encodes
    without leaving the buffer, [garry_tuple_length] is the length written, and
    decoding that many bytes gives back the same parts; the result does not
    depend on what the buffer held. *)
Theorem key_tuple_roundtrip t ss out
  (Ht : tuple_rep t ss) (Ho : zlen out = GARRY_MAX_KEY_SIZE)
  (Hn : zlen ss <= GARRY_MAX_SUBSCRIPTS) (Hfit : zlen (enc_tuple ss) <= GARRY_MAX_KEY_SIZE) :
  exists out' len t',
    garry_encode_key_tuple t out = Some out' /\ garry_tuple_length t = Some len /\
    zlen out' = GARRY_MAX_KEY_SIZE /\
    garry_decode_key_tuple out' len = Some t' /\ tuple_rep t' ss.
Proof.
  destruct (encode_key_tuple_spec t ss out Ht Ho Hfit) as (rest & -> & Hl).
  rewrite (tuple_length_spec t ss Ht).
  destruct (decode_key_tuple_spec ss rest Hn) as (t' & Hd & Hr).
  { unfold GARRY_MAX_KEY_SIZE in *. lia. }
  eauto 10.
Qed.

Lemma make_key_3_rep p1 p2 p3 : tuple_rep (garry_make_key_3 p1 p2 p3) [p1; p2; p3].
Proof. repeat constructor; by exists [0]. Qed.

Lemma key_tuple_roundtrip_witness :
  exists out' len t',
    garry_encode_key_tuple (garry_make_key_3 [117] [109; 116] []) (zeros 256) = Some out' /\
    garry_tuple_length (garry_make_key_3 [117] [109; 116] []) = Some len /\
    zlen out' = GARRY_MAX_KEY_SIZE /\
    garry_decode_key_tuple out' len = Some t' /\ tuple_rep t' [[117]; [109; 116]; []].
Proof.
  apply (key_tuple_roundtrip (garry_make_key_3 [117] [109; 116] []) [[117]; [109; 116]; []] (zeros 256)).
  - apply make_key_3_rep.
  - reflexivity.
  - vm_compute; discriminate.
  - vm_compute; discriminate.
Defined.

(** An integer subscript is written as the marker 2 and eight little-endian
    bytes; decoding returns every non-negative 32-bit integer, while for a
    negative one the signed accumulation of the decoder overflows. *)
Theorem integer_subscript_decode n out
  (Hn : is_i32 n) (Ho : zlen out = GARRY_MAX_KEY_SIZE) :
  exists out', garry_encode_integer_subscript n out = Some out' /\
    garry_decode_integer_subscript out' 0 = if decide (0 <= n) then Some n else None.
Proof.
  destruct (encode_integer_subscript_spec n out Ho Hn) as (rest & ->).
  eexists; split; [done|]. unfold is_i32, u32 in *.
  rewrite decode_integer_subscript_spec by (apply Z.mod_pos_bound; lia).
  destruct (decide (0 <= n)).
  - rewrite Z.mod_small by lia. by dec.
  - replace (n mod 2 ^ 32) with (n + 2 ^ 32).
    + by dec.
    + rewrite <- (Z.mod_small (n + 2 ^ 32) (2 ^ 32)) by lia.
      by rewrite <- (Z_mod_plus_full n 1 (2 ^ 32)), Z.mul_1_l.
Qed.

Lemma integer_subscript_decode_witness :
  exists out', garry_encode_integer_subscript (-5) (zeros 256) = Some out' /\
    garry_decode_integer_subscript out' 0 = None.
Proof. apply (integer_subscript_decode (-5) (zeros 256)); [split; lia|reflexivity]. Defined.

(** [garry_has_prefix] is exactly the prefix relation on the two keys. *)
Theorem has_prefix_correct key klen prefix plen kk kp
  (Hk : slice key 0 klen = Some kk) (Hp : slice prefix 0 plen = Some kp) :
  (garry_has_prefix key klen prefix plen = Some true <-> kp `prefix_of` kk) /\
  (garry_has_prefix key klen prefix plen = Some false <-> ~ kp `prefix_of` kk).
Proof.
  rewrite (has_prefix_spec _ _ _ _ _ _ Hk Hp). case_bool_decide; split; split; congruence.
Qed.

Lemma has_prefix_correct_witness :
  garry_has_prefix [1; 65; 1; 66] 4 [1; 65] 2 = Some true <-> [1; 65] `prefix_of` [1; 65; 1; 66].
Proof.
  exact (proj1 (has_prefix_correct [1; 65; 1; 66] 4 [1; 65] 2 [1; 65; 1; 66] [1; 65] eq_refl eq_refl)).
Defined.
