(* ===== verification/Hierarchical.v ===== *)
(** Hierarchical keys, [src/src/hierarchical.c] and [src/src/keysplit.c]: a key is a
    sequence of length-prefixed subscripts.  [hierarchical.c] walks over the prefixes
    of one or three bytes of [key_encoding.c]; [keysplit.c] converts between paths and
    keys whose prefixes have always one byte. *)

From S2P Require Import Prelude KeyEncoding.

Definition GARRY_MAX_SEGMENT_LEN : Z := 255.

(** * [hierarchical.c] *)

(** The loop of the walks: the offset behind [n] subscripts, or [None] inside when the
    key ends before. *)
Fixpoint skip_subscripts (n : nat) (key : list Z) (klen offset : Z) : option (option Z) :=
  match n with
  | O => Some (Some offset)
  | S n =>
      if decide (offset >= klen) then Some None else
      plen ← garry_decode_length_prefix key offset;
      let offset := offset + garry_length_prefix_size plen + plen in
      if decide (offset > klen) then Some None else skip_subscripts n key klen offset
  end.

Definition garry_subscript_count (key : list Z) (klen : Z) : option Z :=
  r ← while (Z.to_nat klen) (fun st : Z * Z => bool_decide (st.1 < klen))
        (fun '(offset, count) =>
           plen ← garry_decode_length_prefix key offset;
           Some (offset + garry_length_prefix_size plen + plen, count + 1)) (0, 0);
  Some (snd r).

Definition garry_get_subscript_offset (key : list Z) (klen idx : Z) : option Z :=
  r ← skip_subscripts (Z.to_nat idx) key klen 0;
  Some (default (-1) r).

(** [strlen] of the memory at a C string: the bytes before the first NUL; without a NUL
    it reads on past the memory. *)
Fixpoint c_strlen (b : list Z) : option Z :=
  match b with
  | [] => None
  | x :: b => if decide (x = 0) then Some 0 else n ← c_strlen b; Some (n + 1)
  end.

(** [expected] is the memory the pointer points to. *)
Definition garry_subscript_equal (key : list Z) (klen idx : Z) (expected : list Z) : option bool :=
  r ← skip_subscripts (Z.to_nat idx) key klen 0;
  match r with
  | None => Some false
  | Some offset =>
      if decide (offset >= klen) then Some false else
      plen ← garry_decode_length_prefix key offset;
      let hdr_size := garry_length_prefix_size plen in
      if decide (offset + hdr_size + plen > klen) then Some false else
      let offset := offset + hdr_size in
      exp_len ← c_strlen expected;
      if decide (plen <> exp_len) then Some false else
      r ← scan 0 plen (fun j =>
            x ← rd key (offset + j); y ← rd expected j;
            Some (if decide (x <> y) then Some false else None));
      Some (default true r)
  end.

Definition garry_key_prefix (key : list Z) (klen nsubs : Z) (out : list Z) (out_size : Z) : option (list Z * Z) :=
  plen ← garry_get_subscript_offset key klen nsubs;
  if decide (plen > out_size) then Some (out, -1) else
  out ← memset out 0 0 out_size;
  out ← copy_loop out 0 key 0 plen;
  Some (out, plen).

Definition garry_extract_subscript (key : list Z) (klen idx : Z) (sub : list Z) : option (list Z * Z) :=
  offset ← garry_get_subscript_offset key klen idx;
  plen ← garry_decode_length_prefix key offset;
  let src_off := offset + garry_length_prefix_size plen in
  sub ← copy_loop sub 0 key src_off plen;
  Some (sub, plen).

Definition garry_concat_prefix (parent : list Z) (parent_len : Z) (sub : list Z) (sub_len : Z) (out : list Z) (out_size : Z)
  : option (list Z * Z) :=
  let total := parent_len + garry_length_prefix_size sub_len + sub_len in
  if decide (total > out_size) then Some (out, -1) else
  out ← memset out 0 0 out_size;
  out ← copy_loop out 0 parent 0 parent_len;
  '(out, offset) ← garry_encode_length_prefix out parent_len sub_len;
  out ← copy_loop out offset sub 0 sub_len;
  Some (out, total).

(** * [keysplit.c] *)

(** A pointer into the string is its offset.  The inner loop: one segment. *)
Fixpoint segment_loop (n : nat) (str : list Z) (delimiter p seg_len : Z) : option (Z * Z) :=
  c ← rd str p;
  if decide (c <> 0 /\ c <> delimiter) then
    match n with
    | O => Some (p, seg_len)
    | S n => segment_loop n str delimiter (p + 1) (seg_len + 1)
    end
  else Some (p, seg_len).

Fixpoint split_loop (n : nat) (str : list Z) (delimiter p : Z) (out : list Z) (pos : Z) : option (list Z * Z) :=
  c ← rd str p;
  if decide (c <> 0) then
    match n with
    | O => Some (out, pos)
    | S n =>
        '(p, seg_len) ← segment_loop (Z.to_nat GARRY_MAX_SEGMENT_LEN) str delimiter p 0;
        if decide (pos + 1 + seg_len > GARRY_MAX_KEY_SIZE) then Some (out, pos) else
        out ← wr out pos (u8 seg_len);
        let pos := pos + 1 in
        out ← memcpy out pos str (p - seg_len) seg_len;
        let pos := pos + seg_len in
        c ← rd str p;
        split_loop n str delimiter (if decide (c = delimiter) then p + 1 else p) out pos
    end
  else Some (out, pos).

Definition garry_key_split (str : option (list Z)) (delimiter : Z) (out : list Z) : option (list Z * Z) :=
  match str with
  | None => Some (out, 0)
  | Some str => split_loop (Z.to_nat GARRY_MAX_SUBSCRIPTS) str delimiter 0 out 0
  end.

(** The loop of the rejoining: the buffer, the position in it and the segments so far. *)
Fixpoint unsplit_loop (n : nat) (key : list Z) (klen delimiter : Z) (out : list Z) (out_size pos out_pos count : Z)
  : option (list Z * Z * Z) :=
  if decide (pos < klen) then
    match n with
    | O => None
    | S n =>
        seg_len ← rd key pos;
        let pos := pos + 1 in
        if decide (pos + seg_len > klen) then Some (out, out_pos, count) else
        if decide (out_pos > 0 /\ out_pos >= out_size) then Some (out, out_pos, count) else
        '(out, out_pos) ← (if decide (out_pos > 0) then out ← wr out out_pos delimiter; Some (out, out_pos + 1)
                           else Some (out, out_pos));
        if decide (out_pos + seg_len > out_size) then Some (out, out_pos, count) else
        out ← memcpy out out_pos key pos seg_len;
        unsplit_loop n key klen delimiter out out_size (pos + seg_len) (out_pos + seg_len) (count + 1)
    end
  else Some (out, out_pos, count).

Definition garry_key_unsplit (key : option (list Z)) (klen delimiter : Z) (out : option (list Z)) (out_size : Z)
  : option (option (list Z) * Z) :=
  match key, out with
  | Some key, Some out =>
      if decide (klen <= 0 \/ out_size <= 0) then Some (Some out, 0) else
      '(out, out_pos, count) ← unsplit_loop (Z.to_nat klen) key klen delimiter out out_size 0 0 0;
      out ← (if decide (out_pos < out_size) then wr out out_pos 0 else Some out);
      Some (Some out, count)
  | _, _ => Some (out, 0)
  end.

(** The loop that measures a string up to the longest segment. *)
Fixpoint string_loop (n : nat) (str : list Z) (len : Z) : option Z :=
  c ← rd str len;
  if decide (c <> 0) then match n with O => Some len | S n => string_loop n str (len + 1) end else Some len.

Definition garry_make_key (str : option (list Z)) (out : list Z) : option (list Z * Z) :=
  match str with
  | None => Some (out, 0)
  | Some str =>
      len ← string_loop (Z.to_nat GARRY_MAX_SEGMENT_LEN) str 0;
      if decide (1 + len > GARRY_MAX_KEY_SIZE) then Some (out, 0) else
      out ← wr out 0 (u8 len);
      out ← memcpy out 1 str 0 len;
      Some (out, 1 + len)
  end.

(** The parts from number [i] on, [n] of them at most. *)
Fixpoint parts_loop (n : nat) (parts : list (option (list Z))) (i : Z) (out : list Z) (pos : Z) : option (list Z * Z) :=
  match n with
  | O => Some (out, pos)
  | S n =>
      part ← rd parts i;
      match part with
      | None => Some (out, 0)
      | Some part =>
          seg_len ← string_loop (Z.to_nat GARRY_MAX_SEGMENT_LEN) part 0;
          if decide (pos + 1 + seg_len > GARRY_MAX_KEY_SIZE) then Some (out, pos) else
          out ← wr out pos (u8 seg_len);
          out ← memcpy out (pos + 1) part 0 seg_len;
          parts_loop n parts (i + 1) out (pos + 1 + seg_len)
      end
  end.

Definition garry_make_key_parts (parts : option (list (option (list Z)))) (count : Z) (out : list Z) : option (list Z * Z) :=
  match parts with
  | None => Some (out, 0)
  | Some parts =>
      if decide (count <= 0) then Some (out, 0) else
      parts_loop (Z.to_nat (if decide (count < GARRY_MAX_SUBSCRIPTS) then count else GARRY_MAX_SUBSCRIPTS)) parts 0 out 0
  end.

(** * Walking over subscripts *)

(** The buffer starts with the encoding of the subscripts, [klen] bytes. *)
Definition hkey (key : list Z) (klen : Z) (ss : list (list Z)) : Prop :=
  exists rest, key = enc_tuple ss ++ rest /\ klen = zlen (enc_tuple ss) /\ klen < 65536.

Definition offset_of (ss : list (list Z)) (i : Z) : Z := zlen (enc_tuple (take (Z.to_nat i) ss)).

Lemma offset_all ss : offset_of ss (zlen ss) = zlen (enc_tuple ss).
Proof. unfold offset_of. by rewrite take_zlen. Qed.

Lemma hkey_split key klen ss i s :
  hkey key klen ss -> rd ss i = Some s ->
  exists q, key = enc_tuple (take (Z.to_nat i) ss) ++ enc_prefix (zlen s) ++ s ++ q /\ zlen s < 65536 /\
    offset_of ss (i + 1) = offset_of ss i + zlen (enc_prefix (zlen s)) + zlen s /\ offset_of ss (i + 1) <= klen.
Proof.
  intros (rest & -> & -> & Hk) Hs. exists (enc_tuple (drop (Z.to_nat (i + 1)) ss) ++ rest). split; [|split; [|split]].
  - rewrite <- (take_drop (Z.to_nat (i + 1)) ss) at 1. rewrite (take_rd_S _ _ _ Hs), !enc_tuple_app, enc_tuple_one.
    unfold enc_part. by rewrite <- !app_assoc.
  - pose proof (zlen_part_le _ _ (rd_elem_of _ _ _ Hs)) as Hle. unfold enc_part in Hle. rewrite zlen_app in Hle.
    pose proof (zlen_enc_prefix (zlen s)). lia.
  - unfold offset_of. rewrite (take_rd_S _ _ _ Hs), enc_tuple_app, enc_tuple_one. unfold enc_part. rewrite !zlen_app. lia.
  - apply enc_tuple_take_le.
Qed.

(** One step of a walk. *)
Lemma hkey_step key klen ss i s :
  hkey key klen ss -> rd ss i = Some s ->
  garry_decode_length_prefix key (offset_of ss i) = Some (zlen s) /\
  offset_of ss i + garry_length_prefix_size (zlen s) + zlen s = offset_of ss (i + 1) /\
  offset_of ss i < offset_of ss (i + 1) <= klen /\
  slice key (offset_of ss i + garry_length_prefix_size (zlen s)) (zlen s) = Some s.
Proof.
  intros Hk Hs. destruct (hkey_split _ _ _ _ _ Hk Hs) as (q & -> & Hl & E & Hle). pose proof (zlen_nonneg s).
  rewrite length_prefix_size_enc. pose proof (zlen_enc_prefix (zlen s)). unfold offset_of in *.
  destruct (decode_length_prefix_enc (enc_tuple (take (Z.to_nat i) ss)) (zlen s) (s ++ q)) as [-> _]; [lia|].
  split; [done|]. split; [lia|]. split; [lia|].
  rewrite app_assoc. apply slice_app; [by rewrite zlen_app|done].
Qed.

Lemma hkey_end key klen ss : hkey key klen ss -> klen = offset_of ss (zlen ss).
Proof. intros (rest & -> & -> & _). by rewrite offset_all. Qed.

Lemma skip_spec n : forall key klen ss i, hkey key klen ss -> 0 <= i <= zlen ss ->
  skip_subscripts n key klen (offset_of ss i) =
    Some (if decide (i + Z.of_nat n <= zlen ss) then Some (offset_of ss (i + Z.of_nat n)) else None).
Proof.
  induction n as [|n IH]; intros key klen ss i Hk Hi; cbn [skip_subscripts].
  - rewrite decide_True by lia. by rewrite Z.add_0_r.
  - destruct (decide (i = zlen ss)) as [->|Hne].
    + rewrite <- (hkey_end _ _ _ Hk). rewrite decide_True by lia. by rewrite decide_False by lia.
    + destruct (rd_is_Some ss i) as [s Hs]; [lia|]. destruct (hkey_step _ _ _ _ _ Hk Hs) as (E1 & E2 & E3 & _).
      rewrite decide_False by lia. rewrite E1. cbn [mbind option_bind]. rewrite E2. rewrite decide_False by lia.
      rewrite IH by (done || lia). by replace (i + Z.of_nat (S n)) with (i + 1 + Z.of_nat n) by lia.
Qed.

Lemma skip_start key klen ss i :
  hkey key klen ss -> 0 <= i ->
  skip_subscripts (Z.to_nat i) key klen 0 = Some (if decide (i <= zlen ss) then Some (offset_of ss i) else None).
Proof.
  intros Hk Hi. pose proof (zlen_nonneg ss). pose proof (skip_spec (Z.to_nat i) key klen ss 0 Hk) as E.
  rewrite Z2Nat.id, Z.add_0_l in E by lia. apply E. lia.
Qed.

Lemma subscript_offset_spec key klen ss i :
  hkey key klen ss -> 0 <= i ->
  garry_get_subscript_offset key klen i = Some (if decide (i <= zlen ss) then offset_of ss i else -1).
Proof.
  intros Hk Hi. unfold garry_get_subscript_offset. rewrite (skip_start _ _ _ _ Hk Hi). cbn [mbind option_bind].
  by destruct (decide _).
Qed.

Lemma subscript_count_spec key klen ss : hkey key klen ss -> garry_subscript_count key klen = Some (zlen ss).
Proof.
  intros Hk. unfold garry_subscript_count. pose proof (zlen_nonneg ss). pose proof (hkey_end _ _ _ Hk) as He.
  destruct (while_inv (fun st : Z * Z => 0 <= st.2 <= zlen ss /\ st.1 = offset_of ss st.2) (fun st => klen - st.1)
    (Z.to_nat klen) (fun st : Z * Z => bool_decide (st.1 < klen))
    (fun '(offset, count) => plen ← garry_decode_length_prefix key offset;
       Some (offset + garry_length_prefix_size plen + plen, count + 1)) (0, 0)) as ([off cnt] & -> & [Hc Ho] & Hx).
  - cbn. split; [lia|done].
  - cbn. pose proof (zlen_nonneg (enc_tuple ss)). rewrite offset_all in He. lia.
  - intros [off cnt] [Hc Ho] Hlt. cbn in Hc, Ho, Hlt. apply bool_decide_eq_true in Hlt. subst off.
    assert (Hne : cnt <> zlen ss) by (intros ->; lia). destruct (rd_is_Some ss cnt) as [s Hs]; [lia|].
    destruct (hkey_step _ _ _ _ _ Hk Hs) as (E1 & E2 & E3 & _). split; [cbn; lia|]. rewrite E1. cbn [mbind option_bind].
    eexists. split; [reflexivity|]. cbn. split; [split; [lia|exact E2]|lia].
  - cbn in *. apply bool_decide_eq_false in Hx. destruct (decide (cnt = zlen ss)) as [->|Hne]; [done|]. exfalso.
    destruct (rd_is_Some ss cnt) as [s Hs]; [lia|]. destruct (hkey_step _ _ _ _ _ Hk Hs) as (_ & _ & E3 & _). lia.
Qed.

Lemma scan_slice_eq (key s t : list Z) off :
  slice key off (zlen s) = Some s -> zlen s = zlen t ->
  (r ← scan 0 (zlen s) (fun j => x ← rd key (off + j); y ← rd (cstr t) j; Some (if decide (x <> y) then Some false else None));
   Some (default true r)) = Some (bool_decide (s = t)).
Proof.
  intros Hs Hl.
  rewrite (scan_ext _ _ _ (fun j => x ← rd s j; y ← rd (cstr t) j; Some (if decide (x <> y) then Some false else None)))
    by (intros j Hj; by rewrite (rd_slice _ _ _ _ j Hs) by lia).
  rewrite (scan_eq false s (cstr t) (zlen s) s t); [|by apply slice_all|unfold cstr; by apply (slice_app [] t [0])].
  cbn [mbind option_bind]. destruct (decide (s = t)) as [->|Hne]; cbn; [by rewrite bool_decide_eq_true_2|by rewrite bool_decide_eq_false_2].
Qed.

Lemma c_strlen_cstr t : Forall (fun x => x <> 0) t -> c_strlen (cstr t) = Some (zlen t).
Proof.
  induction 1 as [|x t Hx _ IH]; [done|]. unfold cstr in *. cbn [app c_strlen]. rewrite decide_False by done.
  rewrite IH. cbn [mbind option_bind]. by rewrite zlen_cons, Z.add_comm.
Qed.

Lemma subscript_equal_spec key klen ss i t :
  hkey key klen ss -> 0 <= i -> Forall (fun x => x <> 0) t ->
  garry_subscript_equal key klen i (cstr t) = Some (bool_decide (rd ss i = Some t)).
Proof.
  intros Hk Hi Ht. unfold garry_subscript_equal. pose proof (zlen_nonneg ss).
  rewrite (skip_start _ _ _ _ Hk Hi). cbn [mbind option_bind].
  pose proof (hkey_end _ _ _ Hk) as He. destruct (decide (i < zlen ss)) as [Hlt|Hge].
  - rewrite decide_True by lia. destruct (rd_is_Some ss i) as [s Hs]; [lia|]. rewrite Hs.
    destruct (hkey_step _ _ _ _ _ Hk Hs) as (E1 & E2 & E3 & E4). rewrite decide_False by lia. rewrite E1. cbn [mbind option_bind].
    rewrite E2. rewrite decide_False by lia. rewrite (c_strlen_cstr t Ht). cbn [mbind option_bind].
    destruct (decide (zlen s = zlen t)) as [Hl|Hl].
    + rewrite decide_False by lia. rewrite (scan_slice_eq _ _ _ _ E4 Hl). f_equal. apply bool_decide_ext. split; [by intros ->|by intros [= ->]].
    + rewrite decide_True by done. rewrite bool_decide_eq_false_2; [done|]. intros [= ->]. done.
  - rewrite (rd_None ss i) by lia. rewrite bool_decide_eq_false_2 by done. destruct (decide (i <= zlen ss)); [|done].
    replace i with (zlen ss) by lia. by rewrite decide_True by lia.
Qed.

(** [memset] of the first [n] bytes followed by a copy into them. *)
Lemma cleared_copy (out src s : list Z) n :
  slice src 0 (zlen s) = Some s -> zlen s <= n <= zlen out ->
  exists out', memset out 0 0 n = Some (zeros n ++ drop (Z.to_nat n) out) /\
    copy_loop (zeros n ++ drop (Z.to_nat n) out) 0 src 0 (zlen s) = Some out' /\
    out' = s ++ drop (length s) (zeros n ++ drop (Z.to_nat n) out) /\ zlen out' = zlen out.
Proof.
  intros Hs Hn. pose proof (zlen_nonneg s). unfold memset.
  assert (Hz : zlen (zeros n ++ drop (Z.to_nat n) out) = zlen out).
  { unfold zeros, zlen in *. rewrite length_app, length_replicate, length_drop. lia. }
  exists (s ++ drop (length s) (zeros n ++ drop (Z.to_nat n) out)). split; [|split; [|split]].
  - unfold blit. rewrite decide_True by (unfold zlen in *; rewrite length_replicate; lia). cbn [take Z.to_nat app Nat.add].
    rewrite length_replicate. unfold zeros. by change (Z.to_nat 0) with 0%nat.
  - rewrite (copy_loop_slice _ _ _ _ _ s Hs) by lia. unfold blit. rewrite decide_True by lia. reflexivity.
  - done.
  - rewrite zlen_app. unfold zlen in *. rewrite length_drop. lia.
Qed.

Lemma key_prefix_spec key klen ss n out out_size :
  hkey key klen ss -> 0 <= n <= zlen ss -> offset_of ss n <= out_size <= zlen out ->
  exists out', garry_key_prefix key klen n out out_size = Some (out', offset_of ss n) /\
    hkey out' (offset_of ss n) (take (Z.to_nat n) ss).
Proof.
  intros Hk Hn Ho. unfold garry_key_prefix. rewrite (subscript_offset_spec _ _ _ _ Hk) by lia. rewrite decide_True by lia.
  cbn [mbind option_bind]. rewrite decide_False by lia. pose proof Hk as (rest & -> & -> & Hkl). unfold offset_of in *.
  assert (Hsl : slice (enc_tuple ss ++ rest) 0 (zlen (enc_tuple (take (Z.to_nat n) ss))) = Some (enc_tuple (take (Z.to_nat n) ss))).
  { rewrite <- (take_drop (Z.to_nat n) ss) at 1. rewrite enc_tuple_app, <- app_assoc. by apply (slice_app [] _ _). }
  destruct (cleared_copy out _ _ out_size Hsl Ho) as (out' & -> & E & -> & _). cbn [mbind option_bind]. rewrite E. cbn [mbind option_bind].
  eexists. split; [reflexivity|]. eexists. split; [reflexivity|]. split; [done|].
  pose proof (enc_tuple_take_le ss (Z.to_nat n)). lia.
Qed.

Lemma extract_spec key klen ss i s sub :
  hkey key klen ss -> rd ss i = Some s -> zlen s <= zlen sub ->
  exists sub', garry_extract_subscript key klen i sub = Some (sub', zlen s) /\ slice sub' 0 (zlen s) = Some s.
Proof.
  intros Hk Hs Hz. unfold garry_extract_subscript. pose proof (rd_Some_range _ _ _ Hs).
  rewrite (subscript_offset_spec _ _ _ _ Hk) by lia. rewrite decide_True by lia. cbn [mbind option_bind].
  destruct (hkey_step _ _ _ _ _ Hk Hs) as (-> & _ & _ & E4). cbn [mbind option_bind].
  rewrite (copy_loop_slice _ _ _ _ _ s E4) by lia. destruct (blit_ok sub 0 s) as (sub' & E & _); [lia|lia|]. rewrite E.
  cbn [mbind option_bind]. eexists. split; [reflexivity|exact (slice_blit _ _ _ _ E)].
Qed.

Lemma concat_prefix_spec parent plen ss sub slen s out out_size :
  hkey parent plen ss -> slice sub 0 slen = Some s -> zlen (enc_tuple (ss ++ [s])) <= out_size <= zlen out ->
  zlen (enc_tuple (ss ++ [s])) < 65536 ->
  exists out', garry_concat_prefix parent plen sub slen out out_size = Some (out', zlen (enc_tuple (ss ++ [s]))) /\
    hkey out' (zlen (enc_tuple (ss ++ [s]))) (ss ++ [s]).
Proof.
  intros (rest & -> & -> & _) Hs Ho Hlt. pose proof (slice_is_Some _ _ _ _ Hs) as (_ & _ & _ & Hsl). pose proof (zlen_nonneg s). subst slen.
  unfold garry_concat_prefix. rewrite length_prefix_size_enc.
  assert (Ez : zlen (enc_tuple (ss ++ [s])) = zlen (enc_tuple ss) + zlen (enc_prefix (zlen s)) + (zlen s)).
  { rewrite enc_tuple_app, enc_tuple_one. unfold enc_part. rewrite !zlen_app. lia. }
  rewrite <- Ez. rewrite decide_False by lia. pose proof (zlen_nonneg (enc_tuple ss)). pose proof (zlen_enc_prefix (zlen s)).
  destruct (cleared_copy out (enc_tuple ss ++ rest) (enc_tuple ss) out_size) as (out1 & -> & E & Hout1 & Hz1);
    [by apply (slice_app [] _ _)|lia|]. cbn [mbind option_bind]. rewrite E. cbn [mbind option_bind].
  rewrite encode_length_prefix_blit by lia.
  destruct (blit_ok out1 (zlen (enc_tuple ss)) (enc_prefix (zlen s))) as (out2 & E2 & Hz2); [lia|lia|]. rewrite E2. cbn [fmap option_fmap option_map mbind option_bind].
  rewrite (copy_loop_slice _ _ _ _ _ s) by (done || lia).
  destruct (blit_ok out2 (zlen (enc_tuple ss) + zlen (enc_prefix (zlen s))) s) as (out3 & E3 & _); [lia|lia|]. rewrite E3. cbn [mbind option_bind].
  eexists. split; [reflexivity|]. rewrite Hout1 in E2.
  apply blit_inv in E2 as (p & g & q & Epq & Hp & Hg & ->).
  apply app_inj_1 in Epq as [<- Eq]; [|unfold zlen in *; lia].
  rewrite app_assoc in E3. apply blit_inv in E3 as (p' & g' & q' & Epq' & Hp' & Hg' & ->).
  apply app_inj_1 in Epq' as [<- _]; [|unfold zlen in *; rewrite length_app; lia].
  exists q'. split; [|split; [done|exact Hlt]]. rewrite enc_tuple_app, enc_tuple_one. unfold enc_part. by rewrite <- !app_assoc.
Qed.

(** * Paths *)

(** The segments joined by the delimiter, and their one-byte prefixes. *)
Definition path_of (d : Z) (ss : list (list Z)) : list Z :=
  match ss with [] => [] | s :: ss => s ++ concat (map (cons d) ss) end.
Definition enc_path (ss : list (list Z)) : list Z := concat (map (fun s => zlen s :: s) ss).

(** A segment of a path: neither the delimiter nor NUL is in it. *)
Definition segment (d : Z) (s : list Z) : Prop :=
  zlen s <= GARRY_MAX_SEGMENT_LEN /\ Forall (fun c => c <> 0 /\ c <> d) s.

Lemma segment_loop_spec d s : forall n pre x post l,
  Forall (fun c => c <> 0 /\ c <> d) s -> (length s <= n)%nat -> x = 0 \/ x = d ->
  segment_loop n (pre ++ s ++ x :: post) d (zlen pre) l = Some (zlen pre + zlen s, l + zlen s).
Proof.
  induction s as [|c s IH]; intros n pre x post l HF Hn Hx.
  - cbn [app]. destruct n; cbn [segment_loop]; rewrite rd_app_0, rd_cons_0; cbn [mbind option_bind];
      rewrite decide_False by tauto; by rewrite zlen_nil, !Z.add_0_r.
  - apply Forall_cons in HF as [Hc HF]. destruct n as [|n]; [cbn in Hn; lia|]. cbn [segment_loop app].
    rewrite rd_app_0, rd_cons_0. cbn [mbind option_bind]. rewrite decide_True by done.
    change (pre ++ c :: s ++ x :: post) with (pre ++ [c] ++ (s ++ x :: post)). rewrite app_assoc.
    replace (zlen pre + 1) with (zlen (pre ++ [c])) by (rewrite zlen_app; done).
    rewrite IH by (done || (cbn in Hn; lia)). rewrite zlen_app, !zlen_cons, zlen_nil. do 2 f_equal; lia.
Qed.

Lemma path_cons d s s' ss : path_of d (s :: s' :: ss) = s ++ d :: path_of d (s' :: ss).
Proof. reflexivity. Qed.

(** The first byte of a path that does not end with a delimiter is not NUL. *)
Lemma path_head d s ss pre post :
  d <> 0 -> segment d s -> ss <> [] \/ s <> [] ->
  exists c, rd (pre ++ path_of d (s :: ss) ++ post) (zlen pre) = Some c /\ c <> 0.
Proof.
  intros Hd [_ Hs] Hne. rewrite rd_app_0. destruct s as [|c s].
  - destruct ss as [|s' ss]; [by destruct Hne|]. exists d. split; [reflexivity|done].
  - apply Forall_cons in Hs as [[Hc _] _]. exists c. split; [reflexivity|done].
Qed.

(** Writing one segment with its prefix at the write position. *)
Lemma write_segment (w rest s str : list Z) p :
  zlen s <= 255 -> slice str p (zlen s) = Some s -> zlen s + 1 <= zlen rest ->
  exists rest', (out ← wr (w ++ rest) (zlen w) (u8 (zlen s)); memcpy out (zlen w + 1) str p (zlen s)) =
    Some ((w ++ zlen s :: s) ++ rest') /\ zlen rest = zlen s + 1 + zlen rest'.
Proof.
  intros Hl Hs Hr. pose proof (zlen_nonneg s). destruct rest as [|x rest]; [change (zlen (@nil Z)) with 0 in Hr; lia|].
  rewrite zlen_cons in Hr. rewrite u8_id by (unfold is_byte; lia). rewrite wr_blit.
  change (w ++ x :: rest) with (w ++ [x] ++ rest). rewrite blit_app by done. cbn [mbind option_bind]. unfold memcpy. rewrite Hs.
  cbn [mbind option_bind]. rewrite app_assoc. replace (zlen w + 1) with (zlen (w ++ [zlen s])) by (rewrite zlen_app; done).
  rewrite <- (take_drop (length s) rest). rewrite blit_app by (done || unfold zlen in *; rewrite length_take; lia).
  exists (drop (length s) rest). split; [by rewrite <- !app_assoc|]. rewrite zlen_cons, zlen_app. unfold zlen in *. rewrite length_take, length_drop. lia.
Qed.

Lemma split_loop_spec d ss : forall n pre w rest post,
  d <> 0 -> Forall (segment d) ss -> ~ (last ss = Some []) -> (length ss <= n)%nat ->
  zlen w + zlen (enc_path ss) <= GARRY_MAX_KEY_SIZE -> zlen (enc_path ss) <= zlen rest ->
  exists rest', split_loop n (pre ++ path_of d ss ++ 0 :: post) d (zlen pre) (w ++ rest) (zlen w) =
    Some ((w ++ enc_path ss) ++ rest', zlen w + zlen (enc_path ss)).
Proof.
  induction ss as [|s ss IH]; intros n pre w rest post Hd HF Hlast Hn Hfit Hrest.
  - exists rest. destruct n; cbn [split_loop path_of app]; rewrite rd_app_0, rd_cons_0; cbn [mbind option_bind];
      rewrite decide_False by tauto; change (zlen (enc_path [])) with 0; by rewrite app_nil_r, Z.add_0_r.
  - apply Forall_cons in HF as [Hs HF]. destruct n as [|n]; [cbn in Hn; lia|]. cbn [length] in Hn.
    assert (Hne : ss <> [] \/ s <> []) by (destruct ss; [right; intros ->; by apply Hlast|by left]).
    destruct (path_head d s ss pre (0 :: post) Hd Hs Hne) as (c & Hc & Hc0). destruct Hs as [Hsl Hs]. unfold GARRY_MAX_SEGMENT_LEN in Hsl.
    assert (Ee : zlen (enc_path (s :: ss)) = zlen s + 1 + zlen (enc_path ss)).
    { unfold enc_path. cbn [map concat]. rewrite zlen_app, zlen_cons. lia. }
    assert (Hx : exists x tl, path_of d (s :: ss) ++ 0 :: post = s ++ x :: tl /\ (x = 0 \/ x = d) /\
      (if decide (x = d) then x :: tl = [x] ++ path_of d ss ++ 0 :: post else x :: tl = path_of d ss ++ 0 :: post)).
    { destruct ss as [|s' ss].
      - exists 0, post. cbn [path_of map concat]. rewrite app_nil_r. split; [done|]. split; [by left|]. by rewrite decide_False by done.
      - exists d, (path_of d (s' :: ss) ++ 0 :: post). rewrite path_cons, <- app_assoc. split; [done|]. split; [by right|]. by rewrite decide_True by done. }
    destruct Hx as (x & tl & Ex & Hx & Htl). cbn [split_loop]. rewrite Hc. cbn [mbind option_bind]. rewrite decide_True by done. rewrite Ex.
    rewrite segment_loop_spec by (done || (unfold zlen, GARRY_MAX_SEGMENT_LEN in *; lia)). cbn [mbind option_bind]. rewrite Z.add_0_l.
    pose proof (zlen_nonneg (enc_path ss)). rewrite decide_False by lia.
    replace (zlen pre + zlen s - zlen s) with (zlen pre) by lia.
    destruct (write_segment w rest s (pre ++ s ++ x :: tl) (zlen pre)) as (rest1 & Ew & Hr1); [lia|by apply slice_app|lia|].
    destruct (wr (w ++ rest) (zlen w) (u8 (zlen s))) as [out1|]; [|done]. cbn [mbind option_bind] in Ew |- *. rewrite Ew. cbn [mbind option_bind].
    rewrite app_assoc. rewrite (rd_app_at (pre ++ s) _ _ 0) by (rewrite ?zlen_app; lia). rewrite rd_cons_0. cbn [mbind option_bind].
    destruct (IH n (if decide (x = d) then (pre ++ s) ++ [x] else pre ++ s) (w ++ zlen s :: s) rest1 post Hd HF) as (rest2 & E).
    { intros Hl. apply Hlast. by destruct ss. }
    { lia. }
    { rewrite zlen_app, zlen_cons. lia. }
    { lia. }
    exists rest2. replace (zlen w + 1 + zlen s) with (zlen (w ++ zlen s :: s)) by (rewrite zlen_app, zlen_cons; lia).
    replace (w ++ enc_path (s :: ss)) with ((w ++ zlen s :: s) ++ enc_path ss) by (unfold enc_path; cbn [map concat]; by rewrite <- app_assoc).
    rewrite Ee. replace (zlen w + (zlen s + 1 + zlen (enc_path ss))) with (zlen (w ++ zlen s :: s) + zlen (enc_path ss)) by (rewrite zlen_app, zlen_cons; lia).
    rewrite <- E. destruct (decide (x = d)) as [Hxd|Hxd]; rewrite Htl.
    + rewrite (app_assoc (pre ++ s)). f_equal. rewrite !zlen_app. done.
    + f_equal. by rewrite zlen_app.
Qed.

(** The rest of a path, after its first segment. *)
Lemma unsplit_loop_spec d ss : forall n key klen out_size pre post w rest count,
  key = pre ++ enc_path ss ++ post -> klen = zlen pre + zlen (enc_path ss) -> (length ss <= n)%nat ->
  0 < zlen w -> zlen w + zlen (concat (map (cons d) ss)) <= out_size -> out_size <= zlen (w ++ rest) ->
  exists rest', unsplit_loop n key klen d (w ++ rest) out_size (zlen pre) (zlen w) count =
    Some ((w ++ concat (map (cons d) ss)) ++ rest', zlen w + zlen (concat (map (cons d) ss)), count + zlen ss) /\
    zlen ((w ++ concat (map (cons d) ss)) ++ rest') = zlen (w ++ rest).
Proof.
  induction ss as [|s ss IH]; intros n key klen out_size pre post w rest count -> Hkl Hn Hw Hfit Hout.
  - exists rest. change (zlen (enc_path [])) with 0 in Hkl. destruct n; cbn [unsplit_loop map concat]; rewrite decide_False by lia;
      rewrite zlen_nil, app_nil_r, !Z.add_0_r; done.
  - destruct n as [|n]; [cbn in Hn; lia|]. cbn [length] in Hn. cbn [unsplit_loop map concat] in *.
    assert (Ee : zlen (enc_path (s :: ss)) = zlen s + 1 + zlen (enc_path ss)).
    { unfold enc_path. cbn [map concat]. rewrite zlen_app, zlen_cons. lia. }
    pose proof (zlen_nonneg s). pose proof (zlen_nonneg (enc_path ss)). pose proof (zlen_nonneg (concat (map (cons d) ss))).
    rewrite zlen_app, zlen_cons in Hfit. rewrite zlen_app in Hout.
    assert (Ek : pre ++ enc_path (s :: ss) ++ post = pre ++ [zlen s] ++ s ++ enc_path ss ++ post).
    { unfold enc_path. cbn [map concat]. by rewrite <- !app_assoc. }
    rewrite Ek. rewrite decide_True by lia. rewrite rd_app_0. change (rd ([zlen s] ++ s ++ enc_path ss ++ post) 0) with (Some (zlen s)).
    cbn [mbind option_bind]. rewrite decide_False by lia. rewrite decide_False by lia. rewrite decide_True by lia.
    destruct rest as [|x rest]; [change (zlen (@nil Z)) with 0 in Hout; lia|]. rewrite zlen_cons in Hout.
    rewrite wr_blit. change (w ++ x :: rest) with (w ++ [x] ++ rest). rewrite blit_app by done. cbn [mbind option_bind].
    rewrite decide_False by lia. unfold memcpy.
    assert (Hs : slice (pre ++ [zlen s] ++ s ++ enc_path ss ++ post) (zlen pre + 1) (zlen s) = Some s).
    { rewrite app_assoc. apply slice_app; [by rewrite zlen_app|done]. }
    rewrite Hs. cbn [mbind option_bind]. rewrite (app_assoc w [d]). replace (zlen w + 1) with (zlen (w ++ [d])) by (rewrite zlen_app; done).
    rewrite <- (take_drop (length s) rest). rewrite blit_app by (done || unfold zlen in *; rewrite length_take; lia). cbn [mbind option_bind].
    assert (Htk : zlen (take (length s) rest) = zlen s) by (unfold zlen in *; rewrite length_take; lia).
    rewrite (app_assoc (w ++ [d])).
    destruct (IH n (pre ++ [zlen s] ++ s ++ enc_path ss ++ post) klen out_size ((pre ++ [zlen s]) ++ s) post ((w ++ [d]) ++ s)
      (drop (length s) rest) (count + 1)) as (rest' & E & Hz).
    { by rewrite <- !app_assoc. }
    { rewrite !zlen_app. change (zlen [zlen s]) with 1. lia. }
    { lia. }
    { rewrite !zlen_app. change (zlen [d]) with 1. lia. }
    { rewrite !zlen_app. change (zlen [d]) with 1. lia. }
    { rewrite !zlen_app. change (zlen [d]) with 1. unfold zlen in *. rewrite length_drop. lia. }
    exists rest'. replace (zlen pre + 1 + zlen s) with (zlen ((pre ++ [zlen s]) ++ s)) by (rewrite !zlen_app; done).
    replace (zlen (w ++ [d]) + zlen s) with (zlen ((w ++ [d]) ++ s)) by (rewrite !zlen_app; done). rewrite E. split.
    + rewrite <- !app_assoc. cbn [app]. do 2 f_equal; [f_equal|].
      * rewrite !zlen_app, !zlen_cons, !zlen_app. lia.
      * rewrite zlen_cons. lia.
    + repeat (rewrite zlen_app || rewrite zlen_cons || rewrite zlen_nil). repeat (rewrite zlen_app in Hz || rewrite zlen_cons in Hz || rewrite zlen_nil in Hz). lia.
Qed.

Lemma key_split_spec d ss out post :
  d <> 0 -> Forall (segment d) ss -> ~ (last ss = Some []) -> zlen ss <= GARRY_MAX_SUBSCRIPTS ->
  zlen (enc_path ss) <= GARRY_MAX_KEY_SIZE -> zlen out = GARRY_MAX_KEY_SIZE ->
  exists rest, garry_key_split (Some (cstr (path_of d ss) ++ post)) d out = Some (enc_path ss ++ rest, zlen (enc_path ss)).
Proof.
  intros Hd HF Hl Hn Hfit Ho. unfold garry_key_split, cstr. rewrite <- app_assoc.
  destruct (split_loop_spec d ss (Z.to_nat GARRY_MAX_SUBSCRIPTS) [] [] out post Hd HF Hl) as (rest & E).
  - unfold zlen, GARRY_MAX_SUBSCRIPTS in *. lia.
  - exact Hfit.
  - rewrite Ho. exact Hfit.
  - exists rest. exact E.
Qed.

Lemma path_length d s ss : zlen (path_of d (s :: ss)) = zlen s + zlen (concat (map (cons d) ss)).
Proof. cbn [path_of]. by rewrite zlen_app. Qed.

Lemma key_unsplit_spec d s ss rest out out_size :
  s <> [] -> zlen (path_of d (s :: ss)) < out_size <= zlen out ->
  exists text, garry_key_unsplit (Some (enc_path (s :: ss) ++ rest)) (zlen (enc_path (s :: ss))) d (Some out) out_size =
      Some (Some text, zlen (s :: ss)) /\ slice text 0 (zlen (path_of d (s :: ss)) + 1) = Some (cstr (path_of d (s :: ss))).
Proof.
  intros Hs Hsz. unfold garry_key_unsplit. rewrite path_length in Hsz.
  assert (Hs0 : 0 < zlen s) by (destruct s; [done|rewrite zlen_cons; pose proof (zlen_nonneg s); lia]).
  assert (Ee : enc_path (s :: ss) = [zlen s] ++ s ++ enc_path ss) by done.
  pose proof (zlen_nonneg (enc_path ss)). pose proof (zlen_nonneg (concat (map (cons d) ss))). pose proof (zlen_nonneg ss).
  assert (Hel : zlen (enc_path (s :: ss)) = 1 + zlen s + zlen (enc_path ss)) by (rewrite Ee, !zlen_app; change (zlen [zlen s]) with 1; lia).
  rewrite decide_False by lia. rewrite Hel. destruct (Z.to_nat (1 + zlen s + zlen (enc_path ss))) as [|n] eqn:En; [lia|].
  cbn [unsplit_loop]. rewrite decide_True by lia. rewrite Ee.
  change (rd (([zlen s] ++ s ++ enc_path ss) ++ rest) 0) with (Some (zlen s)). cbn [mbind option_bind]. rewrite Z.add_0_l.
  rewrite decide_False by lia. rewrite decide_False by lia. rewrite (decide_False (P := 0 > 0)) by lia. cbn [mbind option_bind]. rewrite Z.add_0_l.
  rewrite decide_False by lia. unfold memcpy. rewrite <- !app_assoc.
  rewrite (slice_app [zlen s] s (enc_path ss ++ rest) 1 (zlen s)) by done. cbn [mbind option_bind].
  rewrite <- (take_drop (length s) out). change (take (length s) out ++ drop (length s) out) with ([] ++ take (length s) out ++ drop (length s) out).
  rewrite blit_app by (done || (unfold zlen in *; rewrite length_take; lia)). cbn [mbind option_bind app].
  destruct (unsplit_loop_spec d ss n (zlen s :: s ++ enc_path ss ++ rest) (1 + zlen s + zlen (enc_path ss)) out_size ([zlen s] ++ s) rest s
    (drop (length s) out) 1) as (rest' & E & Hz).
  { cbn [app]. reflexivity. }
  { rewrite zlen_app. change (zlen [zlen s]) with 1. lia. }
  { assert (zlen ss <= zlen (enc_path ss)); [|unfold zlen in *; lia]. clear. induction ss as [|s ss IH]; [done|].
    unfold enc_path in *. cbn [map concat]. rewrite zlen_app, !zlen_cons. pose proof (zlen_nonneg s). lia. }
  { lia. }
  { lia. }
  { rewrite zlen_app. unfold zlen in *. rewrite length_drop. lia. }
  change (zlen ([zlen s] ++ s)) with (zlen (zlen s :: s)) in E. rewrite zlen_cons in E. rewrite E. cbn [mbind option_bind]. rewrite path_length. rewrite decide_True by lia.
  rewrite zlen_cons. cbn [path_of]. set (w := s ++ concat (map (cons d) ss)) in *.
  assert (Hw : zlen w = zlen s + zlen (concat (map (cons d) ss))) by (unfold w; by rewrite zlen_app). rewrite <- Hw in *.
  assert (Hzr : 1 <= zlen rest') by (rewrite !zlen_app in Hz; unfold zlen in *; rewrite length_drop in Hz; lia).
  destruct rest' as [|x rest']; [change (zlen (@nil Z)) with 0 in Hzr; lia|].
  rewrite wr_blit. change (w ++ x :: rest') with (w ++ [x] ++ rest'). rewrite blit_app by done. cbn [mbind option_bind].
  eexists. split; [reflexivity|]. unfold cstr. rewrite app_assoc. apply (slice_app [] (w ++ [0]) rest'); [done|]. by rewrite zlen_app.
Qed.

(** Keys of short segments are the keys of the tuple encoding. *)
Lemma enc_path_tuple ss : Forall (fun s => zlen s < 128) ss -> enc_path ss = enc_tuple ss.
Proof.
  intros HF. unfold enc_path, enc_tuple. f_equal. apply map_ext_Forall. eapply Forall_impl; [exact HF|].
  intros s Hs. unfold enc_part, enc_prefix. by rewrite decide_True by exact Hs.
Qed.

(** * Properties *)

(** C37: subscripts appended to a key are found again: concatenating a subscript to a
    key of subscripts succeeds when the result fits, and then the count is one more,
    every position has its subscript and compares equal to the C string of it and to
    no other C string, and the prefix of the old length is the old key. *)
Theorem subscripts_roundtrip parent plen ss sub slen s out out_size
  (Hk : hkey parent plen ss) (Hs : slice sub 0 slen = Some s)
  (Hfit : zlen (enc_tuple (ss ++ [s])) <= out_size <= zlen out) (Hlt : zlen (enc_tuple (ss ++ [s])) < 65536) :
  exists key klen, garry_concat_prefix parent plen sub slen out out_size = Some (key, klen) /\
    garry_subscript_count key klen = Some (zlen ss + 1) /\
    (forall i t, 0 <= i -> Forall (fun x => x <> 0) t ->
       garry_subscript_equal key klen i (cstr t) = Some (bool_decide (rd (ss ++ [s]) i = Some t))) /\
    (forall i t buf, rd (ss ++ [s]) i = Some t -> zlen t <= zlen buf ->
       exists buf', garry_extract_subscript key klen i buf = Some (buf', zlen t) /\ slice buf' 0 (zlen t) = Some t) /\
    (forall buf, plen <= zlen buf -> exists buf', garry_key_prefix key klen (zlen ss) buf (zlen buf) = Some (buf', plen) /\
       slice buf' 0 plen = slice parent 0 plen).
Proof.
  destruct (concat_prefix_spec parent plen ss sub slen s out out_size Hk Hs Hfit Hlt) as (key & E & Hkey).
  exists key, (zlen (enc_tuple (ss ++ [s]))). split; [exact E|]. split; [|split; [|split]].
  - rewrite (subscript_count_spec _ _ _ Hkey). by rewrite zlen_app.
  - intros i t Hi Ht. exact (subscript_equal_spec _ _ _ i t Hkey Hi Ht).
  - intros i t buf Ht Hb. exact (extract_spec _ _ _ _ _ _ Hkey Ht Hb).
  - intros buf Hb. pose proof (zlen_nonneg ss). pose proof Hk as (rest & -> & -> & _).
    assert (Eo : offset_of (ss ++ [s]) (zlen ss) = zlen (enc_tuple ss)).
    { unfold offset_of. f_equal. f_equal. unfold zlen. rewrite Nat2Z.id. apply take_app_length. }
    destruct (key_prefix_spec _ _ _ (zlen ss) buf (zlen buf) Hkey) as (buf' & Eb & Hp); [rewrite zlen_app; change (zlen [s]) with 1; lia|rewrite Eo; lia|].
    rewrite Eo in Eb, Hp. exists buf'. split; [exact Eb|]. destruct Hp as (rest' & -> & _ & _).
    replace (take (Z.to_nat (zlen ss)) (ss ++ [s])) with ss by (unfold zlen; by rewrite Nat2Z.id, take_app_length).
    rewrite (slice_app [] (enc_tuple ss) rest'), (slice_app [] (enc_tuple ss) rest) by done. reflexivity.
Qed.

(** C38: a path is split into a key and the key rejoined into the same path: for up to
    16 segments without delimiter and NUL, of at most 255 bytes each and 256 in all
    together with the one byte of length in front of each, the first and the last not
    empty, the key holds the segments and rejoining writes the path with its NUL and
    returns the number of segments; the key is the tuple encoding of the segments
    when they all have less than 128 bytes. *)
Theorem path_roundtrip d s ss out buf size
  (Hd : d <> 0) (HF : Forall (segment d) (s :: ss)) (Hfirst : s <> []) (Hlast : last (s :: ss) <> Some [])
  (Hn : zlen (s :: ss) <= GARRY_MAX_SUBSCRIPTS) (Hfit : zlen (enc_path (s :: ss)) <= GARRY_MAX_KEY_SIZE)
  (Ho : zlen out = GARRY_MAX_KEY_SIZE) (Hsz : zlen (path_of d (s :: ss)) < size <= zlen buf) :
  exists key klen text, garry_key_split (Some (cstr (path_of d (s :: ss)))) d out = Some (key, klen) /\
    garry_key_unsplit (Some key) klen d (Some buf) size = Some (Some text, zlen (s :: ss)) /\
    slice text 0 (zlen (path_of d (s :: ss)) + 1) = Some (cstr (path_of d (s :: ss))) /\
    (Forall (fun s => zlen s < 128) (s :: ss) -> hkey key klen (s :: ss)).
Proof.
  destruct (key_split_spec d (s :: ss) out [] Hd HF Hlast Hn Hfit Ho) as (rest & E). rewrite app_nil_r in E.
  destruct (key_unsplit_spec d s ss rest buf size Hfirst Hsz) as (text & Eu & Hsl).
  do 3 eexists. split; [exact E|]. split; [exact Eu|]. split; [exact Hsl|]. intros Hshort. exists rest.
  rewrite <- enc_path_tuple by exact Hshort. unfold GARRY_MAX_KEY_SIZE in Hfit. split; [done|]. split; [done|lia].
Qed.

(** * Where paths and keys disagree *)

(** The example of the header, [users/matthew/articles], has a key of 23 bytes: one
    byte of length and the bytes of each of the three parts. *)
Theorem documented_example_length :
  fmap snd (garry_key_split (Some (cstr (path_of 47 [[117; 115; 101; 114; 115]; [109; 97; 116; 116; 104; 101; 119];
    [97; 114; 116; 105; 99; 108; 101; 115]]))) 47 (zeros 256)) = Some 23.
Proof. vm_compute. reflexivity. Qed.

(** A segment of 200 bytes is split into a key with a one-byte prefix, which the walk
    over subscripts takes for three bytes: the subscript [[98]] behind it is lost. *)
Theorem long_segment_misread :
  ('(key, klen) ← garry_key_split (Some (cstr (path_of 47 [replicate 200 97; [98]]))) 47 (zeros 256);
   n ← garry_subscript_count key klen; e ← garry_subscript_equal key klen 1 (cstr [98]);
   Some (klen, n, e)) = Some (203, 1, false).
Proof. vm_compute. reflexivity. Qed.

(** With NUL as delimiter, as the documentation of [garry_make_key] suggests, the split
    goes on behind the end of the string. *)
Theorem nul_delimiter_overruns : garry_key_split (Some (cstr [97; 98])) 0 (zeros 256) = None.
Proof. vm_compute. reflexivity. Qed.

(** Paths with the same first 16 segments get the same key, without an error. *)
Theorem long_paths_collide :
  garry_key_split (Some (cstr (path_of 47 (replicate 16 [97] ++ [[98]])))) 47 (zeros 256) =
  garry_key_split (Some (cstr (path_of 47 (replicate 16 [97] ++ [[99]])))) 47 (zeros 256).
Proof. vm_compute. reflexivity. Qed.

(** Extracting a subscript the key does not have reads at offset -1. *)
Theorem extract_out_of_range : garry_extract_subscript [1; 97] 2 2 (zeros 16) = None.
Proof. vm_compute. reflexivity. Qed.

(** * Witnesses *)

Lemma subscripts_roundtrip_witness : exists key klen,
  garry_concat_prefix [1; 97; 2; 98; 99] 5 [100; 101] 2 (zeros 16) 16 = Some (key, klen) /\
  garry_subscript_count key klen = Some 3.
Proof.
  destruct (subscripts_roundtrip [1; 97; 2; 98; 99] 5 [[97]; [98; 99]] [100; 101] 2 [100; 101] (zeros 16) 16) as (key & klen & E & Hc & _).
  - exists []. split; [reflexivity|]. split; [reflexivity|lia].
  - reflexivity.
  - vm_compute. split; discriminate.
  - vm_compute. reflexivity.
  - exists key, klen. split; [exact E|exact Hc].
Defined.

Lemma path_roundtrip_witness : exists key klen text,
  garry_key_split (Some (cstr [97; 47; 47; 98; 99])) 47 (zeros 256) = Some (key, klen) /\
  garry_key_unsplit (Some key) klen 47 (Some (zeros 10)) 10 = Some (Some text, 3).
Proof.
  destruct (path_roundtrip 47 [97] [[]; [98; 99]] (zeros 256) (zeros 10) 10) as (key & klen & text & E1 & E2 & _).
  - lia.
  - apply Forall_forall. intros x Hx.
    repeat (apply elem_of_cons in Hx as [->|Hx]; [split; [vm_compute; discriminate|repeat (apply Forall_cons; split; [split; discriminate|]); apply Forall_nil; exact I]|]).
    by apply not_elem_of_nil in Hx.
  - discriminate.
  - discriminate.
  - vm_compute. discriminate.
  - vm_compute. discriminate.
  - reflexivity.
  - vm_compute. split; [reflexivity|discriminate].
  - exists key, klen, text. split; [exact E1|exact E2].
Defined.
