(* ===== verification/BtreeCompression.v ===== *)
(** Key comparison and prefix compression for the B-tree,
    [src/src/btree_compression.c]. *)

From S2P Require Import Prelude KeyEncoding.

(** The loop runs while the bytes agree, up to the shorter key. *)
Definition garry_common_prefix_length (a : list Z) (alen : Z) (b : list Z) (blen : Z) : option Z :=
  let limit := if decide (alen < blen) then alen else blen in
  r ← scan 0 limit (fun i =>
        x ← rd a i; y ← rd b i; Some (if decide (x <> y) then Some i else None));
  Some (default (Z.max 0 limit) r).

(** [result] is a [garry_byte_array]; the length of the separator is not returned. *)
Definition garry_minimum_separator (result left : list Z) (llen : Z) (right : list Z) (rlen : Z)
  : option (list Z) :=
  plen ← garry_common_prefix_length left llen right rlen;
  let sep_len := plen + 1 in
  let sep_len := if decide (sep_len > rlen) then rlen else sep_len in
  result ← memset result 0 0 GARRY_MAX_KEY_SIZE;
  result ← copy_loop result 0 right 0 sep_len;
  c ← garry_byte_compare result sep_len left llen;
  if decide (c <= 0) then
    let sep_len := llen in
    let sep_len := if decide (sep_len > GARRY_MAX_KEY_SIZE) then GARRY_MAX_KEY_SIZE else sep_len in
    copy_loop result 0 left 0 sep_len
  else Some result.

Definition garry_compress_key (result full_key : list Z) (klen prefix_len : Z) : option (list Z) :=
  let suffix_len := klen - prefix_len in
  result ← memset result 0 0 GARRY_MAX_KEY_SIZE;
  result ← wr result 0 (u8 prefix_len);
  result ← wr result 1 (u8 suffix_len);
  copy_loop result 2 full_key prefix_len suffix_len.

Definition garry_decompress_key (result compressed prev_key : list Z) : option (list Z) :=
  prefix_len ← rd compressed 0;
  suffix_len ← rd compressed 1;
  result ← memset result 0 0 GARRY_MAX_KEY_SIZE;
  result ← copy_loop result 0 prev_key 0 prefix_len;
  copy_loop result prefix_len compressed 2 suffix_len.

Definition garry_byte_equal (a : list Z) (alen : Z) (b : list Z) (blen : Z) : option bool :=
  if decide (alen <> blen) then Some false else
  r ← scan 0 alen (fun i =>
        x ← rd a i; y ← rd b i; Some (if decide (x <> y) then Some false else None));
  Some (default true r).

(** * Equality and common prefixes *)

Lemma byte_equal_spec a alen b blen ka kb :
  slice a 0 alen = Some ka -> slice b 0 blen = Some kb ->
  garry_byte_equal a alen b blen = Some (bool_decide (ka = kb)).
Proof.
  intros Ha Hb. pose proof (slice_is_Some _ _ _ _ Ha) as (_ & _ & _ & Hla).
  pose proof (slice_is_Some _ _ _ _ Hb) as (_ & _ & _ & Hlb). unfold garry_byte_equal.
  destruct (decide (alen <> blen)) as [Hne|Heq%dec_stable].
  - rewrite bool_decide_eq_false_2; [done|]. intros ->. congruence.
  - rewrite <- Heq in Hb. rewrite (scan_eq false _ _ _ _ _ Ha Hb). cbn [mbind option_bind].
    destruct (decide (ka = kb)); [by rewrite bool_decide_eq_true_2|by rewrite bool_decide_eq_false_2].
Qed.

(** The length of the longest common prefix. *)
Fixpoint lcp (a b : list Z) : nat :=
  match a, b with
  | x :: a, y :: b => if decide (x = y) then S (lcp a b) else O
  | _, _ => O
  end.

Lemma lcp_le a b : (lcp a b <= length a)%nat /\ (lcp a b <= length b)%nat.
Proof.
  revert b. induction a as [|x a IH]; intros [|y b]; cbn; try lia. case_decide; [|lia].
  specialize (IH b). lia.
Qed.

Lemma lcp_take a b : take (lcp a b) a = take (lcp a b) b.
Proof.
  revert b. induction a as [|x a IH]; intros [|y b]; cbn; try done. case_decide as Hd; [|done].
  subst y. cbn. by rewrite IH.
Qed.

Lemma scan_lcp pa a ra pb b rb k limit :
  zlen pa = k -> zlen pb = k -> limit = k + Z.min (zlen a) (zlen b) ->
  scan k limit (fun i =>
    x ← rd (pa ++ a ++ ra) i; y ← rd (pb ++ b ++ rb) i; Some (if decide (x <> y) then Some i else None)) =
  Some (if decide (k + Z.of_nat (lcp a b) = limit) then None else Some (k + Z.of_nat (lcp a b))).
Proof.
  revert pa pb b k. induction a as [|x a IH]; intros pa pb [|y b] k Hp Hp' Hl;
    autorewrite with buf in *; cbn [lcp].
  - rewrite scan_None by lia. by rewrite decide_True by lia.
  - pose proof (zlen_nonneg b). rewrite scan_None by lia. by rewrite decide_True by lia.
  - pose proof (zlen_nonneg a). rewrite scan_None by lia. by rewrite decide_True by lia.
  - pose proof (zlen_nonneg a). pose proof (zlen_nonneg b). rewrite scan_step by lia.
    rewrite (rd_app_at pa _ k 0), (rd_app_at pb _ k 0) by lia. cbn [app].
    rewrite !rd_cons_0. cbn [mbind option_bind].
    destruct (decide (x = y)) as [->|Hne].
    + rewrite (decide_False (P := y <> y)) by tauto.
      specialize (IH (pa ++ [y]) (pb ++ [y]) b (k + 1)). rewrite <- !app_assoc in IH. cbn [app] in IH.
      rewrite IH by solve_len. replace (k + 1 + Z.of_nat (lcp a b)) with (k + Z.of_nat (S (lcp a b))) by lia.
      done.
    + rewrite (decide_True (P := x <> y)) by done. rewrite decide_False by lia. by rewrite Z.add_0_r.
Qed.

Lemma common_prefix_spec a alen b blen ka kb :
  slice a 0 alen = Some ka -> slice b 0 blen = Some kb ->
  garry_common_prefix_length a alen b blen = Some (Z.of_nat (lcp ka kb)).
Proof.
  intros Ha Hb. pose proof (lcp_le ka kb) as Hle.
  apply slice_inv in Ha as (pa & ra & -> & Hpa & <-). apply slice_inv in Hb as (pb & rb & -> & Hpb & <-).
  destruct pa; [|solve_len]. destruct pb; [|solve_len].
  unfold garry_common_prefix_length.
  assert (Hm : (if decide (zlen ka < zlen kb) then zlen ka else zlen kb) = 0 + Z.min (zlen ka) (zlen kb))
    by (case_decide; lia).
  rewrite Hm, (scan_lcp [] ka ra [] kb rb 0) by done. cbn [mbind option_bind].
  destruct (decide (0 + Z.of_nat (lcp ka kb) = 0 + Z.min (zlen ka) (zlen kb))); cbn; f_equal; lia.
Qed.

(** * The separator *)

Lemma lcp_split a b : exists p ra rb, a = p ++ ra /\ b = p ++ rb /\ length p = lcp a b /\
  match ra, rb with x :: _, y :: _ => x <> y | _, _ => True end.
Proof.
  revert b. induction a as [|x a IH]; intros [|y b].
  - by exists [], [], [].
  - by exists [], [], (y :: b).
  - by exists [], (x :: a), [].
  - cbn [lcp]. destruct (decide (x = y)) as [->|Hne].
    + destruct (IH b) as (p & ra & rb & -> & -> & Hl & Hm). exists (y :: p), ra, rb. cbn [length app]. auto.
    + by exists [], (x :: a), (y :: b).
Qed.

(** Between ordered keys the prefix of [right] one byte longer than the common
    prefix separates, and no shorter prefix does. *)
Lemma separator_between l r :
  key_lt l r ->
  (lcp l r < length r)%nat /\ key_lt l (take (S (lcp l r)) r) /\ key_le (take (S (lcp l r)) r) r /\
  forall n, (n <= lcp l r)%nat -> ~ key_lt l (take n r).
Proof.
  intros Hlt. destruct (lcp_split l r) as (p & ra & rb & -> & -> & Hp & Hm). rewrite <- Hp.
  unfold key_lt, key_le in *. rewrite lex_app in Hlt.
  destruct rb as [|y rb]; [by destruct ra|]. rewrite length_app. cbn [length].
  assert (Htk : take (S (length p)) (p ++ y :: rb) = p ++ [y]).
  { replace (S (length p)) with (length p + 1)%nat by lia. rewrite take_app_add. done. }
  rewrite Htk, !lex_app. split; [lia|]. split; [|split].
  - destruct ra as [|x ra]; [done|]. cbn in *. destruct (x ?= y) eqn:E; [|done|done].
    apply Z.compare_eq in E. done.
  - cbn. rewrite Z.compare_refl. by destruct rb.
  - intros n Hn Hc. rewrite take_app_le in Hc by lia.
    assert (Hl : lex (take n p ++ (drop n p ++ ra)) (take n p ++ []) = Lt)
      by (by rewrite app_nil_r, app_assoc, take_drop).
    rewrite lex_app in Hl. by destruct (drop n p ++ ra).
Qed.

(** For keys in order the separator is the prefix of [right] that is one byte
    longer than their common prefix (the rest of the buffer is zero); it is above
    [left], at most [right], and no shorter prefix of [right] is. *)
Theorem minimum_separator_correct result left llen right rlen kl kr :
  slice left 0 llen = Some kl -> slice right 0 rlen = Some kr ->
  Forall is_byte kl -> Forall is_byte kr -> rlen <= GARRY_MAX_KEY_SIZE ->
  zlen result = GARRY_MAX_KEY_SIZE -> key_lt kl kr ->
  exists n, garry_minimum_separator result left llen right rlen =
      Some (take n kr ++ zeros (GARRY_MAX_KEY_SIZE - Z.of_nat n)) /\
    key_lt kl (take n kr) /\ key_le (take n kr) kr /\ forall m, (m < n)%nat -> ~ key_lt kl (take m kr).
Proof.
  intros Hl Hr Hbl Hbr Hrl Hz Hlt. pose proof (slice_is_Some _ _ _ _ Hr) as (_ & _ & _ & Hlr).
  destruct (separator_between kl kr Hlt) as (Hn & Hlo & Hhi & Hmin). exists (S (lcp kl kr)).
  split; [|split; [done|split; [done|intros m Hm; apply Hmin; lia]]].
  unfold garry_minimum_separator. rewrite (common_prefix_spec _ _ _ _ _ _ Hl Hr). cbn [mbind option_bind].
  remember (S (lcp kl kr)) as n eqn:En. unfold zlen in Hlr.
  replace (Z.of_nat (lcp kl kr) + 1) with (Z.of_nat n) by lia. rewrite !(decide_False (P := Z.of_nat n > rlen)) by lia.
  assert (Hpre : slice right 0 (Z.of_nat n) = Some (take n kr)).
  { rewrite (slice_prefix _ _ _ (Z.of_nat n) _ Hr) by lia. by rewrite Nat2Z.id. }
  assert (Hzt : zlen (take n kr) = Z.of_nat n) by (unfold zlen; rewrite length_take; lia).
  unfold memset. rewrite blit_whole by (rewrite Hz, zlen_replicate; reflexivity). cbn [mbind option_bind].
  rewrite (copy_loop_slice _ _ _ _ _ _ Hpre) by (rewrite ?zlen_replicate; unfold GARRY_MAX_KEY_SIZE in *; lia).
  change (replicate (Z.to_nat GARRY_MAX_KEY_SIZE) 0) with (zeros GARRY_MAX_KEY_SIZE).
  replace (zeros GARRY_MAX_KEY_SIZE) with (zeros (Z.of_nat n) ++ zeros (GARRY_MAX_KEY_SIZE - Z.of_nat n))
    by (unfold zeros; rewrite <- replicate_add; f_equal; unfold GARRY_MAX_KEY_SIZE in *; lia).
  pose proof (blit_app [] (zeros (Z.of_nat n)) (zeros (GARRY_MAX_KEY_SIZE - Z.of_nat n)) 0 (take n kr) eq_refl) as Hb.
  cbn [app] in Hb. rewrite Hb by (rewrite zlen_zeros; lia). cbn [mbind option_bind].
  rewrite (byte_compare_lex _ _ _ _ (take n kr) kl) by
    (done || (apply (slice_app []); [done|lia]) || by apply Forall_take).
  cbn [mbind option_bind]. rewrite (lex_antisym kl) , Hlo. done.
Qed.

(** Decompressing a compressed key against a key with the same prefix gives
    the key back, padded with zeros: the format holds prefixes of up to 255 and
    suffixes of up to 254 bytes. *)
Theorem compress_roundtrip r1 r2 full klen prev prefix suffix :
  slice full 0 klen = Some (prefix ++ suffix) -> slice prev 0 (zlen prefix) = Some prefix ->
  zlen r1 = GARRY_MAX_KEY_SIZE -> zlen r2 = GARRY_MAX_KEY_SIZE -> zlen suffix <= 254 ->
  zlen (prefix ++ suffix) <= GARRY_MAX_KEY_SIZE -> zlen prefix <= 255 ->
  exists c, garry_compress_key r1 full klen (zlen prefix) = Some c /\
    garry_decompress_key r2 c prev = Some (prefix ++ suffix ++ zeros (GARRY_MAX_KEY_SIZE - klen)).
Proof.
  intros Hf Hp Hz1 Hz2 Hs Hk Hp1. unfold GARRY_MAX_KEY_SIZE in *.
  pose proof (slice_is_Some _ _ _ _ Hf) as (_ & _ & _ & Hkl). rewrite zlen_app in *.
  pose proof (zlen_nonneg prefix). pose proof (zlen_nonneg suffix).
  assert (Hsuf : slice full (zlen prefix) (klen - zlen prefix) = Some suffix).
  { apply slice_inv in Hf as (q & r & -> & Hq & _). destruct q; [|solve_len]. cbn [app].
    rewrite <- app_assoc. apply (slice_app prefix suffix r); [done|lia]. }
  unfold garry_compress_key, memset. rewrite blit_whole by (rewrite Hz1, zlen_replicate; reflexivity).
  cbn [mbind option_bind]. set (c := [zlen prefix; zlen suffix] ++ suffix).
  assert (Hc : zlen c = 2 + zlen suffix) by (subst c; autorewrite with buf; lia).
  exists (c ++ zeros (256 - zlen c)). split.
  - rewrite u8_id by (unfold is_byte; lia). replace (klen - zlen prefix) with (zlen suffix) in * by lia.
    rewrite u8_id by (unfold is_byte; lia).
    assert (Hw : forall b : list Z, zlen b = 256 ->
      (b' ← wr b 0 (zlen prefix); b'' ← wr b' 1 (zlen suffix); copy_loop b'' 2 full (zlen prefix) (zlen suffix)) =
      blit b 0 c).
    { intros b Hb. rewrite wr_blit. destruct (blit_ok b 0 [zlen prefix]) as (b1 & E1 & L1); [lia|change (zlen [zlen prefix]) with 1; lia|].
      destruct (blit_ok b1 1 [zlen suffix]) as (b2 & E2 & L2); [lia|change (zlen [zlen suffix]) with 1; lia|].
      subst c. rewrite E1. cbn [mbind option_bind]. rewrite wr_blit, E2. cbn [mbind option_bind].
      rewrite (copy_loop_slice _ _ _ _ _ _ Hsuf) by lia.
      change ([zlen prefix; zlen suffix] ++ suffix) with ([zlen prefix] ++ [zlen suffix] ++ suffix).
      rewrite <- (blit_blit _ _ _ 1) by reflexivity. rewrite E1. cbn [mbind option_bind].
      rewrite <- (blit_blit _ _ _ 2) by reflexivity. by rewrite E2. }
    rewrite Hw by reflexivity. change (replicate (Z.to_nat GARRY_MAX_KEY_SIZE) 0) with (zeros 256).
    replace (zeros 256) with (zeros (zlen c) ++ zeros (256 - zlen c))
      by (unfold zeros; rewrite <- replicate_add; f_equal; lia).
    pose proof (blit_app [] (zeros (zlen c)) (zeros (256 - zlen c)) 0 c eq_refl) as Ha.
    cbn [app] in Ha. apply Ha. rewrite zlen_zeros; lia.
  - unfold garry_decompress_key, memset.
    rewrite !(rd_app_l c) by lia. change (rd c 0) with (Some (zlen prefix)). change (rd c 1) with (Some (zlen suffix)).
    cbn [mbind option_bind]. rewrite blit_whole by (rewrite Hz2, zlen_replicate; reflexivity).
    cbn [mbind option_bind]. rewrite (copy_loop_slice _ _ _ _ _ _ Hp) by (rewrite ?zlen_replicate; unfold GARRY_MAX_KEY_SIZE; lia).
    change (replicate (Z.to_nat GARRY_MAX_KEY_SIZE) 0) with (replicate (Z.to_nat 256) 0).
    destruct (blit_ok (replicate (Z.to_nat 256) 0) 0 prefix) as (b1 & E1 & L1); [lia|rewrite zlen_replicate; lia|].
    rewrite E1. cbn [mbind option_bind].
    rewrite (copy_loop_slice _ _ _ _ _ suffix) by
      (rewrite ?L1, ?zlen_replicate; try lia; subst c; rewrite <- app_assoc;
       apply (slice_app [zlen prefix; zlen suffix] suffix); done || lia).
    assert (Hb : (b ← blit (zeros 256) 0 prefix; blit b (0 + zlen prefix) suffix) = blit (zeros 256) 0 (prefix ++ suffix))
      by (by apply blit_blit).
    change (replicate (Z.to_nat 256) 0) with (zeros 256) in E1. rewrite E1 in Hb. cbn [mbind option_bind] in Hb.
    rewrite Z.add_0_l in Hb. rewrite Hb.
    replace (zeros 256) with (zeros klen ++ zeros (256 - klen))
      by (unfold zeros; rewrite <- replicate_add; f_equal; lia).
    pose proof (blit_app [] (zeros klen) (zeros (256 - klen)) 0 (prefix ++ suffix) eq_refl) as Ha.
    cbn [app] in Ha. rewrite Ha by (rewrite zlen_app, zlen_zeros; lia). by rewrite <- app_assoc.
Qed.

Lemma minimum_separator_correct_witness :
  exists n, garry_minimum_separator (zeros 256) [97; 98; 99] 3 [97; 99; 100] 3 =
      Some (take n [97; 99; 100] ++ zeros (256 - Z.of_nat n)) /\ key_lt [97; 98; 99] (take n [97; 99; 100]).
Proof.
  destruct (minimum_separator_correct (zeros 256) [97; 98; 99] 3 [97; 99; 100] 3 [97; 98; 99] [97; 99; 100])
    as (n & E & H & _); [reflexivity|reflexivity|by repeat constructor|by repeat constructor
    |vm_compute; congruence|reflexivity|reflexivity|]. exists n. split; [exact E|exact H].
Defined.

Lemma compress_roundtrip_witness :
  exists c, garry_compress_key (zeros 256) [1; 2; 3; 4] 4 2 = Some c /\
    garry_decompress_key (zeros 256) c [1; 2; 9] = Some ([1; 2; 3; 4] ++ zeros 252).
Proof.
  apply (compress_roundtrip (zeros 256) (zeros 256) [1; 2; 3; 4] 4 [1; 2; 9] [1; 2] [3; 4]);
    reflexivity || (vm_compute; congruence).
Defined.
