(* ===== verification/RecordCodec.v ===== *)
(** CBOR record codec, [src/src/record_codec.c]: the key/value records of the
    B-tree pages and the version-chain descriptors stored as leaf values. *)

From S2P Require Import Prelude.

Definition GARRY_CBOR_UINT_BASE : Z := 0.
Definition GARRY_CBOR_NEGINT_BASE : Z := 32.
Definition GARRY_CBOR_BYTES_BASE : Z := 64.
Definition GARRY_CBOR_TEXT_BASE : Z := 96.
Definition GARRY_CBOR_ARRAY_BASE : Z := 128.
Definition GARRY_CBOR_MAP_BASE : Z := 160.
Definition GARRY_CBOR_SIMPLE_BASE : Z := 224.
Definition GARRY_CBOR_SIMPLE_FALSE : Z := 20.
Definition GARRY_CBOR_SIMPLE_TRUE : Z := 21.
Definition CBOR_INLINE_THRESHOLD : Z := 24.

(** * Array headers and byte strings *)

Definition garry_cbor_encode_array_header_raw (out : list Z) (pos count : Z)
  : option (list Z * Z) :=
  if decide (count < CBOR_INLINE_THRESHOLD) then
    out ← wr out pos (u8 (GARRY_CBOR_ARRAY_BASE + count));
    Some (out, pos + 1)
  else
    out ← wr out pos (u8 (GARRY_CBOR_ARRAY_BASE + CBOR_INLINE_THRESHOLD));
    out ← wr out (pos + 1) (u8 count);
    Some (out, pos + 2).

Definition garry_cbor_encode_byte_string_raw (data : list Z) (dlen : Z) (out : list Z) (pos : Z)
  : option (list Z * Z) :=
  '(out, pos) ←
    (if decide (dlen < 24) then
       out ← wr out pos (u8 (GARRY_CBOR_BYTES_BASE + dlen));
       Some (out, pos + 1)
     else
       out ← wr out pos (u8 (GARRY_CBOR_BYTES_BASE + CBOR_INLINE_THRESHOLD));
       out ← wr out (pos + 1) (u8 dlen);
       Some (out, pos + 2));
  out ← memcpy out pos data 0 dlen;
  Some (out, pos + dlen).

Definition garry_cbor_decode_array_header_raw (buf : list Z) (blen pos : Z) : option Z :=
  fb ← rd buf pos;
  let fb := norm_byte fb in
  if decide (fb < GARRY_CBOR_ARRAY_BASE \/ fb >= GARRY_CBOR_ARRAY_BASE + 32) then Some 0
  else
    let ai := fb - GARRY_CBOR_ARRAY_BASE in
    if decide (ai < 24) then Some ai
    else if decide (ai = CBOR_INLINE_THRESHOLD /\ pos + 1 < blen) then rd buf (pos + 1)
    else Some 0.

Definition garry_cbor_array_header_size_raw (buf : list Z) (pos : Z) : option Z :=
  fb ← rd buf pos;
  let fb := norm_byte fb in
  let ai := fb - GARRY_CBOR_ARRAY_BASE in
  if decide (ai < 24) then Some 1
  else if decide (ai = CBOR_INLINE_THRESHOLD) then Some 2
  else Some 1.

(** Returns the output buffer, the length ([*dlen]) and the new position
    (0 on a malformed header). *)
Definition garry_cbor_decode_byte_string_raw (buf : list Z) (blen pos : Z) (out_data : list Z)
  : option (list Z * Z * Z) :=
  fb ← rd buf pos;
  let fb := norm_byte fb in
  let ai := fb - GARRY_CBOR_BYTES_BASE in
  hdr ←
    (if decide (ai < 24) then Some (Some (ai, pos + 1))
     else if decide (ai = CBOR_INLINE_THRESHOLD /\ pos + 1 < blen) then
       slen ← rd buf (pos + 1); Some (Some (slen, pos + 2))
     else Some None);
  match hdr with
  | None => Some (out_data, 0, 0)
  | Some (slen, pos) =>
      out_data ← copy_loop out_data 0 buf pos slen;
      Some (out_data, slen, pos + slen)
  end.

(** * Key/value records *)

Definition garry_encode_kv (key : list Z) (klen : Z) (value : list Z) (vlen : Z)
    (out_buf : list Z) : option (list Z * Z) :=
  '(out_buf, pos) ← garry_cbor_encode_array_header_raw out_buf 0 2;
  '(out_buf, pos) ← garry_cbor_encode_byte_string_raw key klen out_buf pos;
  if decide (pos <= 0) then Some (out_buf, 0)
  else
    '(out_buf, pos) ← garry_cbor_encode_byte_string_raw value vlen out_buf pos;
    if decide (pos <= 0) then Some (out_buf, 0) else Some (out_buf, pos).

(** The decoded record: the two output buffers, [*klen], [*vlen] and the
    returned boolean. *)
Record kv_result := KvResult {
  kv_key : list Z; kv_klen : Z; kv_value : list Z; kv_vlen : Z; kv_ok : bool
}.

Definition garry_decode_kv (encoded : list Z) (elen : Z) (key value : list Z)
  : option kv_result :=
  if decide (elen <= 0) then Some (KvResult key 0 value 0 false)
  else
    arr_count ← garry_cbor_decode_array_header_raw encoded elen 0;
    if decide (arr_count <> 2) then Some (KvResult key 0 value 0 false)
    else
      sz ← garry_cbor_array_header_size_raw encoded 0;
      let pos := 0 + sz in
      '(key, klen, pos) ← garry_cbor_decode_byte_string_raw encoded elen pos key;
      if decide (pos <= 0) then Some (KvResult key 0 value 0 false)
      else
        '(value, vlen, pos) ← garry_cbor_decode_byte_string_raw encoded elen pos value;
        if decide (pos <= 0) then Some (KvResult key 0 value 0 false)
        else Some (KvResult key klen value vlen true).

Definition garry_encode_key_only (key : list Z) (klen : Z) (out_buf : list Z)
  : option (list Z * Z) :=
  garry_cbor_encode_byte_string_raw key klen out_buf 0.

Definition garry_decode_key_only (encoded : list Z) (elen : Z) (key : list Z)
  : option (list Z * Z) :=
  '(key, klen, _) ← garry_cbor_decode_byte_string_raw encoded elen 0 key;
  Some (key, klen).

(** * Unsigned and negative integers *)

Definition encode_uint (out : list Z) (pos val : Z) : option (list Z * Z) :=
  if decide (val >= 0 /\ val < 24) then
    out ← wr out pos (u8 (GARRY_CBOR_UINT_BASE + val));
    Some (out, pos + 1)
  else if decide (val >= 0 /\ val < 256) then
    out ← wr out pos (u8 (GARRY_CBOR_UINT_BASE + CBOR_INLINE_THRESHOLD));
    out ← wr out (pos + 1) (u8 val);
    Some (out, pos + 2)
  else if decide (val >= 0 /\ val < 65536) then
    out ← wr out pos (u8 (GARRY_CBOR_UINT_BASE + 25));
    out ← wr out (pos + 1) (u8 (Z.rem (Z.quot val 256) 256));
    out ← wr out (pos + 2) (u8 (Z.rem val 256));
    Some (out, pos + 3)
  else
    out ← wr out pos (u8 (GARRY_CBOR_UINT_BASE + 26));
    out ← wr out (pos + 1) (u8 (Z.rem (Z.quot val 16777216) 256));
    out ← wr out (pos + 2) (u8 (Z.rem (Z.quot val 65536) 256));
    out ← wr out (pos + 3) (u8 (Z.rem (Z.quot val 256) 256));
    out ← wr out (pos + 4) (u8 (Z.rem val 256));
    Some (out, pos + 5).

Definition encode_negint (out : list Z) (pos abs_val : Z) : option (list Z * Z) :=
  if decide (abs_val < 24) then
    out ← wr out pos (u8 (GARRY_CBOR_NEGINT_BASE + abs_val));
    Some (out, pos + 1)
  else if decide (abs_val < 256) then
    out ← wr out pos (u8 (GARRY_CBOR_NEGINT_BASE + CBOR_INLINE_THRESHOLD));
    out ← wr out (pos + 1) (u8 abs_val);
    Some (out, pos + 2)
  else if decide (abs_val < 65536) then
    out ← wr out pos (u8 (GARRY_CBOR_NEGINT_BASE + 25));
    out ← wr out (pos + 1) (u8 (Z.rem (Z.quot abs_val 256) 256));
    out ← wr out (pos + 2) (u8 (Z.rem abs_val 256));
    Some (out, pos + 3)
  else
    out ← wr out pos (u8 (GARRY_CBOR_NEGINT_BASE + 26));
    out ← wr out (pos + 1) (u8 (Z.rem (Z.quot abs_val 16777216) 256));
    out ← wr out (pos + 2) (u8 (Z.rem (Z.quot abs_val 65536) 256));
    out ← wr out (pos + 3) (u8 (Z.rem (Z.quot abs_val 256) 256));
    out ← wr out (pos + 4) (u8 (Z.rem abs_val 256));
    Some (out, pos + 5).

(** [decode_uint] and [decode_negint] return [-1] on a malformed integer and
    leave [*val] as it was; a four-byte integer beyond the signed range is an
    overflow of [b0 * 16777216]. *)
Definition decode_uint (encoded : list Z) (elen pos val : Z) : option (Z * Z) :=
  fb ← rd encoded pos;
  let fb := norm_byte fb in
  if decide (fb >= GARRY_CBOR_UINT_BASE /\ fb < GARRY_CBOR_UINT_BASE + CBOR_INLINE_THRESHOLD) then
    Some (fb - GARRY_CBOR_UINT_BASE, pos + 1)
  else if decide (fb = GARRY_CBOR_UINT_BASE + 24 /\ pos + 1 < elen) then
    b0 ← norm_byte <$> rd encoded (pos + 1);
    Some (b0, pos + 2)
  else if decide (fb = GARRY_CBOR_UINT_BASE + 25 /\ pos + 2 < elen) then
    b0 ← norm_byte <$> rd encoded (pos + 1);
    b1 ← norm_byte <$> rd encoded (pos + 2);
    Some (b0 * 256 + b1, pos + 3)
  else if decide (fb = GARRY_CBOR_UINT_BASE + 26 /\ pos + 4 < elen) then
    b0 ← norm_byte <$> rd encoded (pos + 1);
    b1 ← norm_byte <$> rd encoded (pos + 2);
    b2 ← norm_byte <$> rd encoded (pos + 3);
    b3 ← norm_byte <$> rd encoded (pos + 4);
    v ← ck (b0 * 16777216);
    Some (v + b1 * 65536 + b2 * 256 + b3, pos + 5)
  else Some (val, -1).

Definition decode_negint (encoded : list Z) (elen pos val : Z) : option (Z * Z) :=
  fb ← rd encoded pos;
  let fb := norm_byte fb in
  if decide (fb >= GARRY_CBOR_NEGINT_BASE /\ fb < GARRY_CBOR_NEGINT_BASE + CBOR_INLINE_THRESHOLD)
  then Some (-1 - (fb - GARRY_CBOR_NEGINT_BASE), pos + 1)
  else if decide (fb = GARRY_CBOR_NEGINT_BASE + 24 /\ pos + 1 < elen) then
    b0 ← norm_byte <$> rd encoded (pos + 1);
    Some (-1 - b0, pos + 2)
  else if decide (fb = GARRY_CBOR_NEGINT_BASE + 25 /\ pos + 2 < elen) then
    b0 ← norm_byte <$> rd encoded (pos + 1);
    b1 ← norm_byte <$> rd encoded (pos + 2);
    Some (-1 - (b0 * 256 + b1), pos + 3)
  else if decide (fb = GARRY_CBOR_NEGINT_BASE + 26 /\ pos + 4 < elen) then
    b0 ← norm_byte <$> rd encoded (pos + 1);
    b1 ← norm_byte <$> rd encoded (pos + 2);
    b2 ← norm_byte <$> rd encoded (pos + 3);
    b3 ← norm_byte <$> rd encoded (pos + 4);
    v ← ck (b0 * 16777216);
    Some (-1 - (v + b1 * 65536 + b2 * 256 + b3), pos + 5)
  else Some (val, -1).

(** * Version-chain descriptors: the map {"cid": chain_id, "hc": has_children} *)

Definition garry_encode_descriptor (chain_id : Z) (has_children : bool) (out_buf : list Z)
  : option (list Z * Z) :=
  out_buf ← wr out_buf 0 (u8 (GARRY_CBOR_MAP_BASE + 2));
  out_buf ← wr out_buf 1 (u8 (GARRY_CBOR_TEXT_BASE + 3));
  out_buf ← wr out_buf 2 99;
  out_buf ← wr out_buf 3 105;
  out_buf ← wr out_buf 4 100;
  '(out_buf, pos) ←
    (if decide (chain_id >= 0) then encode_uint out_buf 5 chain_id
     else encode_negint out_buf 5 (-1 - chain_id));
  out_buf ← wr out_buf pos (u8 (GARRY_CBOR_TEXT_BASE + 2));
  out_buf ← wr out_buf (pos + 1) 104;
  out_buf ← wr out_buf (pos + 2) 99;
  out_buf ← wr out_buf (pos + 3)
    (if has_children then u8 (GARRY_CBOR_SIMPLE_BASE + GARRY_CBOR_SIMPLE_TRUE)
     else u8 (GARRY_CBOR_SIMPLE_BASE + GARRY_CBOR_SIMPLE_FALSE));
  Some (out_buf, pos + 4).

(** Returns [*chain_id] and [*has_children]; every early return leaves what has
    been decoded so far. *)
Definition garry_decode_descriptor (encoded : list Z) (elen : Z) : option (Z * bool) :=
  if decide (0 >= elen) then Some (0, false) else
  fb ← norm_byte <$> rd encoded 0;
  if decide (fb < GARRY_CBOR_MAP_BASE \/ fb >= GARRY_CBOR_MAP_BASE + 32) then Some (0, false) else
  let pos := 1 in
  if decide (pos >= elen) then Some (0, false) else
  fb ← norm_byte <$> rd encoded pos;
  let text_len := fb - GARRY_CBOR_TEXT_BASE in
  let pos := pos + 1 + text_len in
  if decide (pos >= elen) then Some (0, false) else
  fb ← norm_byte <$> rd encoded pos;
  r ← (if decide (fb >= GARRY_CBOR_UINT_BASE /\ fb < GARRY_CBOR_UINT_BASE + 32) then
         '(chain_id, next_pos) ← decode_uint encoded elen pos 0;
         Some (Some (chain_id, if decide (next_pos > pos) then next_pos else pos))
       else if decide (fb >= GARRY_CBOR_NEGINT_BASE /\ fb < GARRY_CBOR_NEGINT_BASE + 32) then
         '(chain_id, next_pos) ← decode_negint encoded elen pos 0;
         Some (Some (chain_id, if decide (next_pos > pos) then next_pos else pos))
       else Some None);
  match r with
  | None => Some (0, false)
  | Some (chain_id, pos) =>
      if decide (pos >= elen) then Some (chain_id, false) else
      fb ← norm_byte <$> rd encoded pos;
      let text_len := fb - GARRY_CBOR_TEXT_BASE in
      let pos := pos + 1 + text_len in
      if decide (pos >= elen) then Some (chain_id, false) else
      fb ← norm_byte <$> rd encoded pos;
      Some (chain_id,
            bool_decide (fb = GARRY_CBOR_SIMPLE_BASE + GARRY_CBOR_SIMPLE_TRUE))
  end.

(** * The byte strings written *)

(** A CBOR integer of major type [base] and a byte string; the length byte is
    truncated to eight bits as in the code. *)
Definition enc_int (base v : Z) : list Z :=
  if decide (v < 24) then [base + v]
  else if decide (v < 256) then [base + 24; v]
  else if decide (v < 65536) then [base + 25; v / 256; v mod 256]
  else [base + 26; v / 16777216; (v / 65536) mod 256; (v / 256) mod 256; v mod 256].

Definition bytes_hdr (n : Z) : list Z :=
  if decide (n < 24) then [64 + n] else [88; u8 n].
Definition enc_bytes (s : list Z) : list Z := bytes_hdr (zlen s) ++ s.
Definition enc_kv (k v : list Z) : list Z := [130] ++ enc_bytes k ++ enc_bytes v.

Definition enc_descriptor (cid : Z) (hc : bool) : list Z :=
  [162; 99; 99; 105; 100] ++
  (if decide (cid >= 0) then enc_int 0 cid else enc_int 32 (-1 - cid)) ++
  [98; 104; 99; if hc then 245 else 244].

Lemma zlen_enc_int base v : 1 <= zlen (enc_int base v) <= 5.
Proof. unfold enc_int. repeat case_decide; autorewrite with buf; lia. Qed.

Lemma zlen_bytes_hdr n : 1 <= zlen (bytes_hdr n) <= 2.
Proof. unfold bytes_hdr. case_decide; autorewrite with buf; lia. Qed.

(** The quotients and remainders of a non-negative 32-bit value, as bytes. *)
Lemma u8_quot_rem v d :
  0 <= v -> 0 < d -> u8 (Z.rem (Z.quot v d) 256) = (v / d) mod 256.
Proof. intros. rewrite u8_rem, Z.quot_div_nonneg by lia. done. Qed.

Lemma encode_uint_blit out pos v :
  0 <= v < 2 ^ 31 ->
  encode_uint out pos v =
    (fun o => (o, pos + zlen (enc_int 0 v))) <$> blit out pos (enc_int 0 v).
Proof.
  intros. unfold encode_uint, enc_int, GARRY_CBOR_UINT_BASE, CBOR_INLINE_THRESHOLD.
  dec. repeat case_decide; try lia; blits; rewrite ?u8_quot_rem, ?u8_rem by lia;
    rewrite ?(u8_id (0 + _)), ?(u8_id v) by (unfold is_byte; lia).
  - by destruct (blit _ _ _).
  - by destruct (blit _ _ _).
  - rewrite (Z.mod_small (v / 256)) by (split; [apply Z.div_pos|apply Z.div_lt_upper_bound]; lia).
    by destruct (blit _ _ _).
  - rewrite (Z.mod_small (v / 16777216))
      by (split; [apply Z.div_pos|apply Z.div_lt_upper_bound]; lia).
    by destruct (blit _ _ _).
Qed.

Lemma encode_negint_blit out pos v :
  0 <= v < 2 ^ 31 ->
  encode_negint out pos v =
    (fun o => (o, pos + zlen (enc_int 32 v))) <$> blit out pos (enc_int 32 v).
Proof.
  intros. unfold encode_negint, enc_int, GARRY_CBOR_NEGINT_BASE, CBOR_INLINE_THRESHOLD.
  repeat case_decide; try lia; blits; rewrite ?u8_quot_rem, ?u8_rem by lia;
    rewrite ?(u8_id (32 + _)), ?(u8_id v) by (unfold is_byte; lia).
  - by destruct (blit _ _ _).
  - by destruct (blit _ _ _).
  - rewrite (Z.mod_small (v / 256)) by (split; [apply Z.div_pos|apply Z.div_lt_upper_bound]; lia).
    by destruct (blit _ _ _).
  - rewrite (Z.mod_small (v / 16777216))
      by (split; [apply Z.div_pos|apply Z.div_lt_upper_bound]; lia).
    by destruct (blit _ _ _).
Qed.

(** Big-endian reassembly of two and of four bytes. *)
Lemma be16 v : 0 <= v -> v / 256 * 256 + v mod 256 = v.
Proof. intros. pose proof (Z.div_mod v 256). lia. Qed.

Lemma be32 v :
  v / 16777216 * 16777216 + (v / 65536) mod 256 * 65536 + (v / 256) mod 256 * 256 + v mod 256 = v.
Proof.
  change 16777216 with (256 * 256 * 256). change 65536 with (256 * 256).
  rewrite <- !Z.div_div by lia.
  pose proof (Z.div_mod v 256). pose proof (Z.div_mod (v / 256) 256).
  pose proof (Z.div_mod (v / 256 / 256) 256). lia.
Qed.

Lemma div_mod_byte v d : is_byte ((v / d) mod 256).
Proof. apply Z.mod_pos_bound. lia. Qed.

Lemma mod_byte v : is_byte (v mod 256).
Proof. apply Z.mod_pos_bound. lia. Qed.

Lemma div_byte v d : 0 <= v -> 0 < d -> v < d * 256 -> is_byte (v / d).
Proof. intros. split; [apply Z.div_pos|apply Z.div_lt_upper_bound]; lia. Qed.
#[export] Hint Resolve div_mod_byte mod_byte div_byte : bytes.

(** Decoding an integer that starts at [zlen p]. *)
Lemma decode_uint_enc p v q elen val :
  0 <= v < 2 ^ 31 -> zlen p + zlen (enc_int 0 v) <= elen ->
  decode_uint (p ++ enc_int 0 v ++ q) elen (zlen p) val =
    Some (v, zlen p + zlen (enc_int 0 v)).
Proof.
  intros Hv Hl. unfold decode_uint, GARRY_CBOR_UINT_BASE, CBOR_INLINE_THRESHOLD.
  rewrite rd_app_0, !rd_app_plus by lia. unfold enc_int in *.
  pose proof (be16 v). pose proof (be32 v).
  repeat case_decide; simpl; rd_const; cbn [mbind option_bind fmap option_fmap option_map];
    rewrite ?norm_byte_id by (first [unfold is_byte; lia|apply div_byte; lia|apply mod_byte]);
    autorewrite with buf in *; dec; try (do 2 f_equal; lia).
  unfold ck. rewrite decide_True; [cbn; do 2 f_equal; lia|].
  unfold is_i32. pose proof (div_byte v 16777216). pose proof (Z.div_lt_upper_bound v 16777216 128).
  unfold is_byte in *. lia.
Qed.

Lemma decode_negint_enc p v q elen val :
  0 <= v < 2 ^ 31 -> zlen p + zlen (enc_int 32 v) <= elen ->
  decode_negint (p ++ enc_int 32 v ++ q) elen (zlen p) val =
    Some (-1 - v, zlen p + zlen (enc_int 32 v)).
Proof.
  intros Hv Hl. unfold decode_negint, GARRY_CBOR_NEGINT_BASE, CBOR_INLINE_THRESHOLD.
  rewrite rd_app_0, !rd_app_plus by lia. unfold enc_int in *.
  pose proof (be16 v). pose proof (be32 v).
  repeat case_decide; simpl; rd_const; cbn [mbind option_bind fmap option_fmap option_map];
    rewrite ?norm_byte_id by (first [unfold is_byte; lia|apply div_byte; lia|apply mod_byte]);
    autorewrite with buf in *; dec; try (do 2 f_equal; lia).
  unfold ck. rewrite decide_True; [cbn; do 2 f_equal; lia|].
  unfold is_i32. pose proof (div_byte v 16777216). pose proof (Z.div_lt_upper_bound v 16777216 128).
  unfold is_byte in *. lia.
Qed.

(** * Byte strings and records *)

Lemma encode_byte_string_blit data dlen s out pos :
  slice data 0 dlen = Some s ->
  garry_cbor_encode_byte_string_raw data dlen out pos =
    (fun o => (o, pos + zlen (enc_bytes s))) <$> blit out pos (enc_bytes s).
Proof.
  intros Hs. pose proof (slice_is_Some _ _ _ _ Hs) as (_&?&_&Hl).
  unfold garry_cbor_encode_byte_string_raw, memcpy, enc_bytes, bytes_hdr.
  rewrite Hs, Hl. unfold GARRY_CBOR_BYTES_BASE, CBOR_INLINE_THRESHOLD.
  assert (Hd : forall pos', blit out pos' s = (o ← Some s; blit out pos' o)) by done.
  case_decide.
  - rewrite wr_blit, u8_id by (unfold is_byte; lia).
    rewrite <- (blit_blit out pos [64 + dlen] (pos + 1) s) by done.
    destruct (blit out pos _) as [o|]; cbn [mbind option_bind fmap option_fmap option_map]; [|done].
    destruct (blit o _ s); [|done]. cbn. do 2 f_equal. autorewrite with buf. lia.
  - change (u8 (64 + 24)) with 88.
    rewrite <- (blit_blit out pos [88; u8 dlen] (pos + 2) s) by done.
    change (blit out pos [88; u8 dlen]) with (blit out pos ([88] ++ [u8 dlen])).
    rewrite <- (blit_blit out pos [88] (pos + 1) [u8 dlen]) by done. rewrite !wr_blit.
    destruct (blit out pos _) as [o|]; cbn [mbind option_bind fmap option_fmap option_map]; [|done].
    rewrite wr_blit.
    destruct (blit o _ [u8 dlen]) as [o'|]; cbn [mbind option_bind fmap option_fmap option_map]; [|done].
    destruct (blit o' _ s); [|done]. cbn. do 2 f_equal. autorewrite with buf. lia.
Qed.

(** A header for length [n] makes the decoder take [n mod 256] bytes. *)
Lemma decode_byte_string_hdr p n s q blen out :
  0 <= n -> zlen s = u8 n -> zlen p + zlen (bytes_hdr n) + zlen s <= blen ->
  zlen s <= zlen out ->
  exists out', blit out 0 s = Some out' /\
    garry_cbor_decode_byte_string_raw (p ++ bytes_hdr n ++ s ++ q) blen (zlen p) out =
      Some (out', zlen s, zlen p + zlen (bytes_hdr n) + zlen s).
Proof.
  intros Hn Hs Hb Ho. destruct (blit_split out 0 s) as (p' & g & q' & -> & Hp' & Hg & Hblit);
    [lia..|].
  eexists. split; [done|]. unfold garry_cbor_decode_byte_string_raw.
  assert (Hcopy : forall off, off = zlen p + zlen (bytes_hdr n) ->
     copy_loop (p' ++ g ++ q') 0 (p ++ bytes_hdr n ++ s ++ q) off (zlen s)
       = Some (p' ++ s ++ q')).
  { intros off ->. rewrite (copy_loop_slice _ _ _ _ _ s); [done| |lia|solve_len].
    rewrite app_assoc. apply slice_app; [by rewrite zlen_app|done]. }
  rewrite rd_app_0, rd_app_plus by lia. pose proof (zlen_nonneg s).
  unfold bytes_hdr, GARRY_CBOR_BYTES_BASE, CBOR_INLINE_THRESHOLD in *.
  case_decide; simpl app; rd_const; cbn [mbind option_bind]; autorewrite with buf in *.
  - rewrite u8_id in Hs by (unfold is_byte; lia).
    rewrite norm_byte_id by (unfold is_byte; lia). dec. cbn [mbind option_bind].
    replace (64 + n - 64) with (zlen s) by lia.
    rewrite Hcopy by lia. cbn. by do 2 f_equal; lia.
  - rewrite norm_byte_id by (unfold is_byte; lia). dec. cbn [mbind option_bind].
    rewrite <- Hs. rewrite <- Hs in Hcopy. rewrite Hcopy by lia. cbn. by do 2 f_equal; lia.
Qed.

Lemma decode_byte_string_enc p s q blen out :
  zlen s <= 255 -> zlen p + zlen (enc_bytes s) <= blen -> zlen s <= zlen out ->
  exists out', blit out 0 s = Some out' /\
    garry_cbor_decode_byte_string_raw (p ++ enc_bytes s ++ q) blen (zlen p) out =
      Some (out', zlen s, zlen p + zlen (enc_bytes s)).
Proof.
  unfold enc_bytes. intros. rewrite zlen_app in *. rewrite <- app_assoc.
  pose proof (zlen_nonneg s).
  destruct (decode_byte_string_hdr p (zlen s) s q blen out) as (o & ? & Hd);
    [lia|rewrite u8_id by (unfold is_byte; lia); lia|lia|lia|].
  exists o. split; [done|]. rewrite Hd. do 2 f_equal. lia.
Qed.

Lemma zlen_enc_bytes s : zlen s + 1 <= zlen (enc_bytes s) <= zlen s + 2.
Proof. unfold enc_bytes. rewrite zlen_app. pose proof (zlen_bytes_hdr (zlen s)). lia. Qed.

Lemma encode_kv_blit key klen value vlen k v out :
  slice key 0 klen = Some k -> slice value 0 vlen = Some v ->
  garry_encode_kv key klen value vlen out =
    (fun o => (o, zlen (enc_kv k v))) <$> blit out 0 (enc_kv k v).
Proof.
  intros Hk Hv. unfold garry_encode_kv, garry_cbor_encode_array_header_raw.
  rewrite decide_True by done. change (u8 (GARRY_CBOR_ARRAY_BASE + 2)) with 130.
  rewrite wr_blit. unfold enc_kv.
  rewrite <- (blit_blit out 0 [130] 1 (enc_bytes k ++ enc_bytes v)) by done.
  destruct (blit out 0 [130]) as [o|]; cbn [mbind option_bind]; [|done].
  change (0 + 1) with 1. rewrite (encode_byte_string_blit _ _ _ _ _ Hk).
  rewrite <- (blit_blit o 1 (enc_bytes k) (1 + zlen (enc_bytes k)) (enc_bytes v)) by done.
  pose proof (zlen_enc_bytes k). pose proof (zlen_enc_bytes v).
  pose proof (zlen_nonneg k). pose proof (zlen_nonneg v).
  destruct (blit o 1 _) as [o'|]; cbn [mbind option_bind fmap option_fmap option_map]; [|done].
  rewrite decide_False by lia. rewrite (encode_byte_string_blit _ _ _ _ _ Hv).
  destruct (blit o' _ _) as [o''|]; cbn [mbind option_bind fmap option_fmap option_map]; [|done].
  rewrite decide_False by lia. do 2 f_equal. solve_len.
Qed.

Lemma decode_kv_enc k v q elen key value :
  zlen k <= 255 -> zlen v <= 255 -> zlen (enc_kv k v) <= elen ->
  zlen k <= zlen key -> zlen v <= zlen value ->
  exists key' value', blit key 0 k = Some key' /\ blit value 0 v = Some value' /\
    garry_decode_kv (enc_kv k v ++ q) elen key value =
      Some (KvResult key' (zlen k) value' (zlen v) true).
Proof.
  intros Hk Hv Hl Hko Hvo. unfold enc_kv in *. rewrite !zlen_app in Hl.
  change (zlen [130]) with 1 in Hl.
  pose proof (zlen_enc_bytes k). pose proof (zlen_enc_bytes v).
  pose proof (zlen_nonneg k). pose proof (zlen_nonneg v).
  rewrite <- !app_assoc.
  destruct (decode_byte_string_enc [130] k (enc_bytes v ++ q) elen key)
    as (key' & Hkey & Hdk); [done|change (zlen [130]) with 1; lia|done|].
  destruct (decode_byte_string_enc ([130] ++ enc_bytes k) v q elen value)
    as (value' & Hvalue & Hdv); [done|rewrite zlen_app; change (zlen [130]) with 1; lia|done|].
  exists key', value'. split; [done|]. split; [done|].
  unfold garry_decode_kv. rewrite decide_False by lia.
  unfold garry_cbor_decode_array_header_raw, garry_cbor_array_header_size_raw.
  change (rd ([130] ++ _) 0) with (Some 130). cbn [mbind option_bind].
  change (norm_byte 130) with 130. unfold GARRY_CBOR_ARRAY_BASE.
  dec. cbn [mbind option_bind]. dec. cbn [mbind option_bind]. change (0 + 1) with 1.
  change (zlen [130]) with 1 in Hdk. rewrite Hdk. cbn [mbind option_bind].
  rewrite decide_False by lia. rewrite <- app_assoc in Hdv. rewrite zlen_app in Hdv.
  change (zlen [130]) with 1 in Hdv. rewrite Hdv. cbn [mbind option_bind].
  rewrite decide_False by lia. done.
Qed.

(** * Descriptors *)

Definition enc_cid (cid : Z) : list Z :=
  if decide (cid >= 0) then enc_int 0 cid else enc_int 32 (-1 - cid).

Lemma zlen_enc_cid cid : 1 <= zlen (enc_cid cid) <= 5.
Proof. unfold enc_cid. case_decide; apply zlen_enc_int. Qed.

Lemma encode_descriptor_blit cid hc out :
  is_i32 cid ->
  garry_encode_descriptor cid hc out =
    (fun o => (o, zlen (enc_descriptor cid hc))) <$> blit out 0 (enc_descriptor cid hc).
Proof.
  unfold is_i32. intros Hc. unfold garry_encode_descriptor, enc_descriptor.
  change (if decide (cid >= 0) then enc_int 0 cid else enc_int 32 (-1 - cid)) with (enc_cid cid).
  assert (Hint : forall o, (if decide (cid >= 0) then encode_uint o 5 cid
      else encode_negint o 5 (-1 - cid)) =
      (fun o' => (o', 5 + zlen (enc_cid cid))) <$> blit o 5 (enc_cid cid)).
  { intros o. unfold enc_cid. case_decide.
    - by rewrite encode_uint_blit by lia.
    - by rewrite encode_negint_blit by lia. }
  setoid_rewrite Hint. clear Hint. setoid_rewrite wr_blit.
  match goal with |- _ = ?r => set (R := r) end.
  do 4 (rewrite blit_blit_k by blits_len). simpl app. subst R.
  change (u8 (GARRY_CBOR_MAP_BASE + 2)) with 162.
  change (u8 (GARRY_CBOR_TEXT_BASE + 3)) with 99.
  change (u8 (GARRY_CBOR_TEXT_BASE + 2)) with 98.
  replace (if hc then u8 (GARRY_CBOR_SIMPLE_BASE + GARRY_CBOR_SIMPLE_TRUE)
     else u8 (GARRY_CBOR_SIMPLE_BASE + GARRY_CBOR_SIMPLE_FALSE))
    with (if hc then 245 else 244) by by destruct hc.
  rewrite <- (blit_blit out 0 [162; 99; 99; 105; 100] 5) by done.
  destruct (blit out 0 _) as [o|]; bsimpl; [|done].
  rewrite <- (blit_blit o 5 (enc_cid cid) (5 + zlen (enc_cid cid))) by done.
  destruct (blit o 5 _) as [o'|]; bsimpl; [|done].
  setoid_rewrite wr_blit.
  do 3 (rewrite blit_blit_k by blits_len). simpl app.
  destruct (blit o' _ _); bsimpl; [|done].
  do 2 f_equal. autorewrite with buf. lia.
Qed.

Lemma enc_int_first base v q :
  0 <= v -> exists b t, enc_int base v ++ q = b :: t /\ base <= b < base + 27.
Proof. unfold enc_int. intros. repeat case_decide; simpl; eexists _, _; (split; [done|]); lia. Qed.

Lemma decode_descriptor_enc cid hc q elen :
  is_i32 cid -> zlen (enc_descriptor cid hc) <= elen ->
  garry_decode_descriptor (enc_descriptor cid hc ++ q) elen = Some (cid, hc).
Proof.
  unfold is_i32. intros Hc Hl. unfold enc_descriptor in *.
  change (if decide (cid >= 0) then enc_int 0 cid else enc_int 32 (-1 - cid)) with (enc_cid cid) in *.
  set (tl := [98; 104; 99; if hc then 245 else 244]) in *.
  rewrite !zlen_app in Hl. change (zlen [162; 99; 99; 105; 100]) with 5 in Hl.
  change (zlen tl) with 4 in Hl. pose proof (zlen_enc_cid cid).
  rewrite <- !app_assoc. set (b := [162; 99; 99; 105; 100] ++ enc_cid cid ++ tl ++ q).
  assert (Hr0 : rd b 0 = Some 162) by done. assert (Hr1 : rd b 1 = Some 99) by done.
  assert (Hr5 : rd b 5 = rd (enc_cid cid ++ tl ++ q) 0) by (by apply rd_app_at).
  assert (Htl : forall k, 0 <= k -> rd b (5 + zlen (enc_cid cid) + k) = rd (tl ++ q) k).
  { intros k ?. unfold b. rewrite app_assoc. apply rd_app_at; [by autorewrite with buf|done]. }
  assert (Hnum : (if decide (cid >= 0) then decode_uint b elen 5 0 else decode_negint b elen 5 0)
            = Some (cid, 5 + zlen (enc_cid cid))).
  { unfold b, enc_cid in *. case_decide.
    - rewrite (decode_uint_enc [162; 99; 99; 105; 100]); [done|lia|].
      change (zlen [162; 99; 99; 105; 100]) with 5. lia.
    - rewrite (decode_negint_enc [162; 99; 99; 105; 100]); [|lia|].
      + do 2 f_equal. lia.
      + change (zlen [162; 99; 99; 105; 100]) with 5. lia. }
  unfold garry_decode_descriptor, GARRY_CBOR_MAP_BASE, GARRY_CBOR_TEXT_BASE.
  rewrite decide_False by lia. rewrite Hr0. cbn [fmap option_fmap option_map mbind option_bind].
  change (norm_byte 162) with 162. dec. rewrite Hr1. cbn [fmap option_fmap option_map mbind option_bind].
  change (norm_byte 99) with 99. change (1 + 1 + (99 - 96)) with 5. dec.
  rewrite Hr5. unfold GARRY_CBOR_UINT_BASE, GARRY_CBOR_NEGINT_BASE.
  assert (Hsel : exists fb t, enc_cid cid ++ tl ++ q = fb :: t /\
      (if decide (cid >= 0) then 0 <= fb < 27 else 32 <= fb < 59)).
  { unfold enc_cid. destruct (decide (cid >= 0)).
    - destruct (enc_int_first 0 cid (tl ++ q)) as (fb & t & ? & ?); [lia|]. exists fb, t. done.
    - destruct (enc_int_first 32 (-1 - cid) (tl ++ q)) as (fb & t & ? & ?); [lia|]. by exists fb, t. }
  destruct Hsel as (fb & t & -> & Hfb). rewrite rd_cons_0.
  cbn [fmap option_fmap option_map mbind option_bind].
  rewrite norm_byte_id by (unfold is_byte; case_decide; lia).
  assert (Hpos : (if decide (5 + zlen (enc_cid cid) > 5) then 5 + zlen (enc_cid cid) else 5)
                 = 5 + zlen (enc_cid cid)) by (by dec).
  destruct (decide (cid >= 0)); dec; rewrite Hnum; cbn [mbind option_bind]; rewrite Hpos; dec;
    (rewrite <- (Z.add_0_r (5 + _)), Htl by lia; change (rd (tl ++ q) 0) with (Some 98);
     cbn [fmap option_fmap option_map mbind option_bind]; change (norm_byte 98) with 98;
     replace (5 + zlen (enc_cid cid) + 0 + 1 + (98 - 96))
       with (5 + zlen (enc_cid cid) + 3) by lia;
     dec; rewrite Htl by lia; change (rd (tl ++ q) 3) with (Some (if hc then 245 else 244));
     cbn [fmap option_fmap option_map mbind option_bind]; by destruct hc).
Qed.

(** * Properties *)

(** A record whose key and value have at most 255 bytes is encoded into the
    bytes of [enc_kv] and decoding any buffer that starts with them gives back
    the key, the value and both lengths. *)
Theorem kv_roundtrip key klen value vlen k v out kbuf vbuf
  (Hk : slice key 0 klen = Some k) (Hv : slice value 0 vlen = Some v)
  (Hkl : klen <= 255) (Hvl : vlen <= 255)
  (Hout : zlen (enc_kv k v) <= zlen out)
  (Hkb : klen <= zlen kbuf) (Hvb : vlen <= zlen vbuf) :
  exists out' n r,
    garry_encode_kv key klen value vlen out = Some (out', n) /\
    garry_decode_kv out' n kbuf vbuf = Some r /\
    kv_ok r = true /\ kv_klen r = klen /\ kv_vlen r = vlen /\
    slice (kv_key r) 0 klen = Some k /\ slice (kv_value r) 0 vlen = Some v.
Proof.
  pose proof (slice_is_Some _ _ _ _ Hk) as (_&_&_&Hlk).
  pose proof (slice_is_Some _ _ _ _ Hv) as (_&_&_&Hlv).
  rewrite (encode_kv_blit _ _ _ _ _ _ _ Hk Hv).
  destruct (blit_split out 0 (enc_kv k v)) as (p & g & q & _ & Hp & _ & ->); [lia..|].
  destruct p; [|solve_len].
  destruct (decode_kv_enc k v q (zlen (enc_kv k v)) kbuf vbuf)
    as (k' & v' & Hk' & Hv' & Hd); [lia..|].
  simpl app. do 3 eexists. split; [done|]. split; [exact Hd|]. simpl.
  rewrite <- Hlk, <- Hlv. eauto 10 using slice_blit.
Qed.

Lemma kv_roundtrip_witness :
  exists out' n r,
    garry_encode_kv [107; 49] 2 [118] 1 (zeros 16) = Some (out', n) /\
    garry_decode_kv out' n (zeros 8) (zeros 8) = Some r /\
    kv_ok r = true /\ kv_klen r = 2 /\ kv_vlen r = 1 /\
    slice (kv_key r) 0 2 = Some [107; 49] /\ slice (kv_value r) 0 1 = Some [118].
Proof.
  apply (kv_roundtrip [107; 49] 2 [118] 1 [107; 49] [118]); by vm_compute.
Defined.

(** A byte string of any length can be written, but its length is one byte:
    what reads back at the position written is the first [dlen mod 256] bytes.
    A key of 256 bytes, the maximum the engine admits, reads back empty. *)
Theorem byte_string_length_mod_256 data dlen s buf pos out
  (Hs : slice data 0 dlen = Some s) (Hp : 0 <= pos)
  (Hfit : pos + zlen (enc_bytes s) <= zlen buf) (Hout : 255 <= zlen out) :
  exists buf' next out' next',
    garry_cbor_encode_byte_string_raw data dlen buf pos = Some (buf', next) /\
    next = pos + dlen + (if decide (dlen < 24) then 1 else 2) /\
    garry_cbor_decode_byte_string_raw buf' (zlen buf') pos out = Some (out', dlen mod 256, next') /\
    slice out' 0 (dlen mod 256) = slice data 0 (dlen mod 256).
Proof.
  pose proof (slice_is_Some _ _ _ _ Hs) as (_ & Hd & Hle & Hl).
  rewrite (encode_byte_string_blit _ _ _ _ _ Hs).
  destruct (blit_split buf pos (enc_bytes s)) as (p & g & q & -> & <- & Hg & ->); [lia..|].
  fold (u8 dlen). pose proof (u8_range dlen) as Hm. unfold is_byte in Hm.
  pose proof (Z.mod_le dlen 256 ltac:(lia) ltac:(lia)) as Hml. fold (u8 dlen) in Hml.
  pose proof (slice_prefix _ _ _ (u8 dlen) _ Hs ltac:(lia)) as Hs1. rewrite Hs1.
  pose proof (slice_is_Some _ _ _ _ Hs1) as (_&_&_&Hl1).
  assert (Hsplit : exists s2, s = take (Z.to_nat (u8 dlen)) s ++ s2)
    by (eexists; symmetry; apply take_drop).
  destruct Hsplit as [s2 Hsplit]. set (s1 := take _ s) in *. clearbody s1. subst s.
  destruct (decode_byte_string_hdr p dlen s1 (s2 ++ q)
     (zlen (p ++ enc_bytes (s1 ++ s2) ++ q)) out) as (out' & Hb & Hdec);
    [done|done|unfold enc_bytes; rewrite Hl; solve_len|lia|].
  do 4 eexists. split; [done|]. unfold enc_bytes in *. rewrite Hl in *. split; [|split].
  - rewrite zlen_app, Hl. unfold bytes_hdr. case_decide; autorewrite with buf; lia.
  - rewrite <- !app_assoc in *. rewrite Hdec, Hl1. done.
  - rewrite <- Hl1. by apply slice_blit in Hb.
Qed.

Lemma byte_string_length_mod_256_witness :
  exists buf' next out' next',
    garry_cbor_encode_byte_string_raw (replicate 256 7) 256 (zeros 300) 1 = Some (buf', next) /\
    next = 1 + 256 + 2 /\
    garry_cbor_decode_byte_string_raw buf' (zlen buf') 1 (zeros 256) = Some (out', 0, next') /\
    slice out' 0 0 = slice (replicate 256 7) 0 0.
Proof.
  apply (byte_string_length_mod_256 (replicate 256 7) 256 (replicate 256 7) (zeros 300) 1 (zeros 256));
    by vm_compute.
Defined.

(** The descriptor map of every 32-bit chain id, negative ones included,
    and both values of the children flag decodes to what was encoded, and the
    decoder accepts any bytes after it. *)
Theorem descriptor_roundtrip cid hc out
  (Hc : is_i32 cid) (Hout : 14 <= zlen out) :
  exists out' n, garry_encode_descriptor cid hc out = Some (out', n) /\ n <= 14 /\
    zlen out' = zlen out /\
    forall elen, n <= elen -> garry_decode_descriptor out' elen = Some (cid, hc).
Proof.
  rewrite encode_descriptor_blit by done.
  assert (Hn : zlen (enc_descriptor cid hc) <= 14).
  { unfold enc_descriptor. fold (enc_cid cid). pose proof (zlen_enc_cid cid).
    autorewrite with buf. lia. }
  destruct (blit_split out 0 (enc_descriptor cid hc)) as (p & g & q & -> & Hp & ? & ->); [lia..|].
  destruct p; [|solve_len]. do 2 eexists. split; [done|].
  split; [done|]. split; [solve_len|].
  intros. by apply decode_descriptor_enc.
Qed.

Lemma descriptor_roundtrip_witness :
  exists out' n, garry_encode_descriptor (-70000) true (zeros 64) = Some (out', n) /\ n <= 14 /\
    zlen out' = zlen (zeros 64) /\
    forall elen, n <= elen -> garry_decode_descriptor out' elen = Some (-70000, true).
Proof. apply (descriptor_roundtrip (-70000) true (zeros 64)); by vm_compute. Defined.
