(* ===== verification/SlottedPage.v ===== *)
(** Slotted pages, [src/src/slotted_page.c] and [src/src/storage_core.c]:
    variable-length records behind a slot directory that grows up while the
    records grow down from the end of the page. *)

From S2P Require Import Prelude Endian.

(** * Layout *)

Definition GARRY_PAGE_HEADER_SIZE : Z := 32.
Definition GARRY_SLOT_SIZE : Z := 4.
Definition GARRY_MAX_SLOTS : Z := 128.
Definition GARRY_MAX_RECORD_SIZE : Z := 16384.
Definition GARRY_MAX_PAGE_SIZE : Z := 65536.
Definition GARRY_PAGE_HDR_OFF_TYPE : Z := 0.
Definition GARRY_PAGE_HDR_OFF_LEVEL : Z := 4.
Definition GARRY_PAGE_HDR_OFF_COUNT : Z := 8.
Definition GARRY_PAGE_HDR_OFF_FREE_START : Z := 12.
Definition GARRY_PAGE_HDR_OFF_FREE_END : Z := 16.
Definition GARRY_PAGE_HDR_OFF_COMPRESSION : Z := 20.
Definition GARRY_PAGE_HDR_OFF_PARENT : Z := 24.
Definition GARRY_PAGE_HDR_OFF_CHECKSUM : Z := 28.

(** [garry_node_kind]; the ordinals are stored on disk. *)
Inductive garry_node_kind :=
  GARRY_NODE_INTERNAL | GARRY_NODE_LEAF | GARRY_NODE_OVERFLOW | GARRY_NODE_FREE | GARRY_NODE_CHAIN.
#[export] Instance garry_node_kind_eq_dec : EqDecision garry_node_kind.
Proof. solve_decision. Defined.

Definition node_kind_ord (k : garry_node_kind) : Z :=
  match k with
  | GARRY_NODE_INTERNAL => 0 | GARRY_NODE_LEAF => 1 | GARRY_NODE_OVERFLOW => 2
  | GARRY_NODE_FREE => 3 | GARRY_NODE_CHAIN => 4
  end.

Record garry_page_header := PageHeader {
  page_type : garry_node_kind; page_level : Z; num_records : Z; hdr_free_start : Z;
  hdr_free_end : Z; compression : Z; parent_page : Z; checksum : Z
}.

Definition garry_page_header_size : Z := GARRY_PAGE_HEADER_SIZE.

Definition garry_create_header (pt : garry_node_kind) (level : Z) : garry_page_header :=
  PageHeader pt level 0 GARRY_PAGE_HEADER_SIZE GARRY_MAX_PAGE_SIZE 0 0 0.

(** * Operations *)

Record garry_slot_entry := SlotEntry { slot_offset : Z; slot_length : Z }.

Definition garry_read_slot (buf : list Z) (idx : Z) : option garry_slot_entry :=
  let slot_offset := GARRY_PAGE_HEADER_SIZE + idx * GARRY_SLOT_SIZE in
  lo ← norm_byte <$> rd buf slot_offset;
  hi ← norm_byte <$> rd buf (slot_offset + 1);
  let offset := lo + hi * 256 in
  lo ← norm_byte <$> rd buf (slot_offset + 2);
  hi ← norm_byte <$> rd buf (slot_offset + 3);
  Some (SlotEntry offset (lo + hi * 256)).

Definition garry_write_slot (buf : list Z) (idx : Z) (entry : garry_slot_entry)
  : option (list Z) :=
  let so := GARRY_PAGE_HEADER_SIZE + idx * GARRY_SLOT_SIZE in
  buf ← wr buf so (u8 (Z.rem (slot_offset entry) 256));
  buf ← wr buf (so + 1) (u8 (Z.rem (Z.quot (slot_offset entry) 256) 256));
  buf ← wr buf (so + 2) (u8 (Z.rem (slot_length entry) 256));
  wr buf (so + 3) (u8 (Z.rem (Z.quot (slot_length entry) 256) 256)).

Definition garry_page_record_count (buf : list Z) : option Z :=
  garry_read_int32 buf GARRY_PAGE_HDR_OFF_COUNT.

Definition garry_page_init (buf : list Z) (ptype : garry_node_kind) (level page_size : Z)
  : option (list Z) :=
  buf ← forZ 0 page_size (fun i buf => wr buf i 0) buf;
  buf ← garry_write_int32 buf GARRY_PAGE_HDR_OFF_TYPE (node_kind_ord ptype);
  buf ← garry_write_int32 buf GARRY_PAGE_HDR_OFF_LEVEL level;
  buf ← garry_write_int32 buf GARRY_PAGE_HDR_OFF_COUNT 0;
  buf ← garry_write_int32 buf GARRY_PAGE_HDR_OFF_FREE_START GARRY_PAGE_HEADER_SIZE;
  buf ← garry_write_int32 buf GARRY_PAGE_HDR_OFF_FREE_END page_size;
  buf ← garry_write_int32 buf GARRY_PAGE_HDR_OFF_COMPRESSION 0;
  buf ← garry_write_int32 buf GARRY_PAGE_HDR_OFF_PARENT 0;
  garry_write_int32 buf GARRY_PAGE_HDR_OFF_CHECKSUM 0.

Definition garry_copy_bytes_in (buf : list Z) (offset : Z) (src : list Z) (len : Z)
  : option (list Z) :=
  copy_loop buf offset src 0 len.

(** The page and the returned slot index; the signed arithmetic on fields read
    from the page is checked. *)
Definition garry_page_insert (buf data : list Z) (dlen page_size : Z) : option (list Z * Z) :=
  count ← garry_read_int32 buf GARRY_PAGE_HDR_OFF_COUNT;
  free_start ← garry_read_int32 buf GARRY_PAGE_HDR_OFF_FREE_START;
  free_end ← garry_read_int32 buf GARRY_PAGE_HDR_OFF_FREE_END;
  if decide (count >= GARRY_MAX_SLOTS) then Some (buf, -1) else
  fs4 ← ck (free_start + GARRY_SLOT_SIZE);
  if decide (fs4 > free_end) then Some (buf, -1) else
  fe' ← ck (free_end - dlen);
  if decide (fe' < GARRY_PAGE_HEADER_SIZE) then Some (buf, -1) else
  needed ← ck (dlen + GARRY_SLOT_SIZE);
  room ← ck (free_end - free_start);
  if decide (room < needed) then Some (buf, -1) else
  if decide (fe' < fs4) then Some (buf, -1) else
  let free_end := fe' in
  buf ← garry_write_slot buf count (SlotEntry free_end dlen);
  let free_start := fs4 in
  buf ← garry_write_int32 buf GARRY_PAGE_HDR_OFF_COUNT (count + 1);
  buf ← garry_write_int32 buf GARRY_PAGE_HDR_OFF_FREE_START free_start;
  buf ← garry_write_int32 buf GARRY_PAGE_HDR_OFF_FREE_END free_end;
  buf ← garry_copy_bytes_in buf free_end data dlen;
  Some (buf, count).

(** The output buffer and the returned length. *)
Definition garry_page_get (buf : list Z) (slot_idx : Z) (data : list Z) (page_size : Z)
  : option (list Z * Z) :=
  if decide (slot_idx < 0) then Some (data, -1) else
  n ← garry_page_record_count buf;
  if decide (slot_idx >= n) then Some (data, -1) else
  entry ← garry_read_slot buf slot_idx;
  if decide (slot_length entry > page_size - GARRY_PAGE_HEADER_SIZE) then Some (data, -1) else
  data ← copy_loop data 0 buf (slot_offset entry) (slot_length entry);
  Some (data, slot_length entry).

(** * The records of a page *)

(** The bytes the records and their slots take. *)
Definition recs_len (rs : list (list Z)) : Z := zlen (concat rs).

(** [page_rep page_size buf rs]: the page holds the records [rs], slot [i]
    pointing at the [i]-th, with the free space between directory and records. *)
Record page_rep (page_size : Z) (buf : list Z) (rs : list (list Z)) : Prop := {
  rep_size : GARRY_PAGE_HEADER_SIZE + GARRY_SLOT_SIZE * zlen rs + recs_len rs <= page_size
             <= GARRY_MAX_PAGE_SIZE;
  rep_buf : page_size <= zlen buf;
  rep_slots : zlen rs <= GARRY_MAX_SLOTS;
  rep_count : garry_read_le32 buf GARRY_PAGE_HDR_OFF_COUNT = Some (zlen rs);
  rep_start : garry_read_le32 buf GARRY_PAGE_HDR_OFF_FREE_START
              = Some (GARRY_PAGE_HEADER_SIZE + GARRY_SLOT_SIZE * zlen rs);
  rep_end : garry_read_le32 buf GARRY_PAGE_HDR_OFF_FREE_END
            = Some (page_size - recs_len rs);
  rep_recs : forall i r, rd rs i = Some r ->
    exists off, page_size - recs_len rs <= off /\ off + zlen r <= page_size /\
      slice buf off (zlen r) = Some r /\
      garry_read_slot buf i = Some (SlotEntry (off mod 65536) (zlen r))
}.

(** There is room for one more record of [n] bytes. *)
Definition page_fits (page_size : Z) (rs : list (list Z)) (n : Z) : Prop :=
  zlen rs < GARRY_MAX_SLOTS /\
  GARRY_PAGE_HEADER_SIZE + GARRY_SLOT_SIZE * (zlen rs + 1) + recs_len rs + n <= page_size.
#[export] Instance page_fits_dec ps rs n : Decision (page_fits ps rs n) := and_dec _ _.

Lemma recs_len_app rs r : recs_len (rs ++ [r]) = recs_len rs + zlen r.
Proof. unfold recs_len. rewrite concat_app. simpl. rewrite app_nil_r. solve_len. Qed.

(** * Slots *)

Definition slot_bytes (o l : Z) : list Z := [u8 o; u8 (o / 256); u8 l; u8 (l / 256)].

Lemma write_slot_blit buf idx o l :
  0 <= o -> 0 <= l ->
  garry_write_slot buf idx (SlotEntry o l) =
    blit buf (GARRY_PAGE_HEADER_SIZE + idx * GARRY_SLOT_SIZE) (slot_bytes o l).
Proof.
  intros. unfold garry_write_slot. simpl slot_offset. simpl slot_length.
  blits. rewrite !u8_rem, !Z.quot_div_nonneg by lia. done.
Qed.

Lemma read_slot_ext b1 b2 i :
  (forall k, GARRY_PAGE_HEADER_SIZE + i * GARRY_SLOT_SIZE <= k
             < GARRY_PAGE_HEADER_SIZE + i * GARRY_SLOT_SIZE + 4 -> rd b1 k = rd b2 k) ->
  garry_read_slot b1 i = garry_read_slot b2 i.
Proof. intros H. unfold garry_read_slot. by rewrite !H by lia. Qed.

Lemma u16_split x : 0 <= x -> u8 x + u8 (x / 256) * 256 = x mod 65536.
Proof.
  intros. unfold u8. change 65536 with (256 * 256).
  rewrite Z.rem_mul_r by lia. lia.
Qed.

Lemma read_slot_blit buf i o l buf' :
  blit buf (GARRY_PAGE_HEADER_SIZE + i * GARRY_SLOT_SIZE) (slot_bytes o l) = Some buf' ->
  0 <= o -> 0 <= l ->
  garry_read_slot buf' i = Some (SlotEntry (o mod 65536) (l mod 65536)).
Proof.
  intros Hb Ho Hl. unfold garry_read_slot.
  rewrite !(rd_blit _ _ _ _ _ Hb). set (so := GARRY_PAGE_HEADER_SIZE + i * GARRY_SLOT_SIZE).
  change (zlen (slot_bytes o l)) with 4. dec.
  replace (so - so) with 0 by lia. replace (so + 1 - so) with 1 by lia.
  replace (so + 2 - so) with 2 by lia. replace (so + 3 - so) with 3 by lia.
  unfold slot_bytes. rd_const. bsimpl.
  rewrite !norm_byte_id by apply u8_range. by rewrite !u16_split.
Qed.

(** * Initialisation *)

Lemma page_init_rep buf ptype level page_size :
  GARRY_PAGE_HEADER_SIZE <= page_size <= GARRY_MAX_PAGE_SIZE -> page_size <= zlen buf ->
  exists buf', garry_page_init buf ptype level page_size = Some buf' /\
    zlen buf' = zlen buf /\ page_rep page_size buf' [] /\
    garry_read_le32 buf' GARRY_PAGE_HDR_OFF_TYPE = Some (node_kind_ord ptype) /\
    garry_read_le32 buf' GARRY_PAGE_HDR_OFF_LEVEL = Some (i32 level).
Proof.
  unfold GARRY_PAGE_HEADER_SIZE, GARRY_MAX_PAGE_SIZE. intros Hp Hb.
  unfold garry_page_init. rewrite clear_loop by lia.
  destruct (blit_ok buf 0 (replicate (Z.to_nat page_size) 0)) as (b0 & -> & Hl0);
    [lia|solve_len|].
  unfold garry_write_int32, GARRY_PAGE_HDR_OFF_TYPE, GARRY_PAGE_HDR_OFF_LEVEL,
    GARRY_PAGE_HDR_OFF_COUNT, GARRY_PAGE_HDR_OFF_FREE_START, GARRY_PAGE_HDR_OFF_FREE_END,
    GARRY_PAGE_HDR_OFF_COMPRESSION, GARRY_PAGE_HDR_OFF_PARENT, GARRY_PAGE_HDR_OFF_CHECKSUM.
  bsimpl. setoid_rewrite write_le32_blit. do 8 run_blit.
  eexists. split; [done|]. split; [congruence|]. split; [split|split].
  - unfold recs_len, GARRY_PAGE_HEADER_SIZE, GARRY_SLOT_SIZE, GARRY_MAX_PAGE_SIZE, zlen. simpl. lia.
  - lia.
  - done.
  - unfold GARRY_PAGE_HDR_OFF_COUNT. by skip_blits.
  - unfold GARRY_PAGE_HDR_OFF_FREE_START. by skip_blits.
  - unfold GARRY_PAGE_HDR_OFF_FREE_END. skip_blits. rewrite i32_id by (unfold is_i32; lia).
    unfold recs_len, zlen. simpl. f_equal. lia.
  - intros i r Hr. apply rd_Some_range in Hr. unfold zlen in Hr. simpl in Hr. lia.
  - skip_blits. by destruct ptype.
  - by skip_blits.
Qed.

(** * Insertion *)

Lemma page_insert_full page_size buf rs data dlen :
  page_rep page_size buf rs -> 0 <= dlen < 2 ^ 31 - 65536 -> ~ page_fits page_size rs dlen ->
  garry_page_insert buf data dlen page_size = Some (buf, -1).
Proof.
  intros [Hsz _ Hs Hc Hfs Hfe _] Hd Hfit. unfold page_fits in Hfit.
  unfold garry_page_insert, garry_read_int32. rewrite Hc, Hfs, Hfe. bsimpl.
  pose proof (zlen_nonneg rs). pose proof (zlen_nonneg (concat rs)). fold (recs_len rs) in *.
  unfold GARRY_PAGE_HEADER_SIZE, GARRY_SLOT_SIZE, GARRY_MAX_PAGE_SIZE, GARRY_MAX_SLOTS, ck, is_i32 in *.
  repeat (case_decide; bsimpl; try done); exfalso; lia.
Qed.

Lemma page_insert_fits page_size buf rs data dlen r :
  page_rep page_size buf rs -> page_fits page_size rs dlen -> slice data 0 dlen = Some r ->
  exists buf', garry_page_insert buf data dlen page_size = Some (buf', zlen rs) /\
    zlen buf' = zlen buf /\ page_rep page_size buf' (rs ++ [r]) /\
    (forall off, off + 4 <= GARRY_PAGE_HDR_OFF_COUNT \/
       GARRY_PAGE_HDR_OFF_FREE_END + 4 <= off /\ off + 4 <= GARRY_PAGE_HEADER_SIZE ->
       garry_read_le32 buf' off = garry_read_le32 buf off).
Proof.
  intros [Hsz Hb Hs Hc Hfs Hfe Hrecs] [Hn Hfit] Hr.
  pose proof (slice_is_Some _ _ _ _ Hr) as (_&Hd&_&Hl).
  unfold garry_page_insert, garry_read_int32, garry_write_int32, garry_copy_bytes_in.
  rewrite Hc, Hfs, Hfe. bsimpl.
  pose proof (zlen_nonneg rs). pose proof (zlen_nonneg (concat rs)). fold (recs_len rs) in *.
  unfold GARRY_PAGE_HEADER_SIZE, GARRY_SLOT_SIZE, GARRY_MAX_PAGE_SIZE, GARRY_MAX_SLOTS,
    GARRY_PAGE_HDR_OFF_COUNT, GARRY_PAGE_HDR_OFF_FREE_START, GARRY_PAGE_HDR_OFF_FREE_END,
    ck, is_i32 in *.
  dec. bsimpl. dec. bsimpl. dec. bsimpl. dec.
  rewrite write_slot_blit by lia. setoid_rewrite write_le32_blit.
  unfold GARRY_PAGE_HEADER_SIZE, GARRY_SLOT_SIZE in *.
  assert (Hsb : forall o l, zlen (slot_bytes o l) = 4) by done.
  destruct (blit_ok buf (32 + zlen rs * 4) (slot_bytes (page_size - recs_len rs - dlen) dlen))
    as (b0 & Hblit0 & Hlen0); [lia|rewrite Hsb; lia|].
  rewrite Hblit0. bsimpl. do 3 run_blit.
  rewrite (copy_loop_slice _ _ _ _ _ _ Hr) by lia.
  destruct (blit_ok b2 (page_size - recs_len rs - dlen) r) as (b3 & Hblit3 & Hlen3); [lia..|].
  rewrite Hblit3. bsimpl.
  assert (Hslot : forall i, garry_read_slot b3 i = garry_read_slot b0 i \/ 32 + i * 4 < 32 \/ zlen rs < i).
  { intros i. destruct (decide (0 <= i <= zlen rs)); [left|right; lia].
    apply read_slot_ext. unfold GARRY_PAGE_HEADER_SIZE, GARRY_SLOT_SIZE. intros k Hk.
    rewrite (rd_blit_ne _ _ _ _ k Hblit3) by lia.
    rewrite (rd_blit_ne _ _ _ _ k Hblit2) by blit_range.
    rewrite (rd_blit_ne _ _ _ _ k Hblit1) by blit_range.
    by rewrite (rd_blit_ne _ _ _ _ k Hblit) by blit_range. }
  exists b3. split; [done|]. split; [congruence|]. split; [split|].
  - unfold GARRY_PAGE_HEADER_SIZE, GARRY_SLOT_SIZE, GARRY_MAX_PAGE_SIZE.
    rewrite recs_len_app, zlen_app. change (zlen [r]) with 1. lia.
  - lia.
  - unfold GARRY_MAX_SLOTS. rewrite zlen_app. change (zlen [r]) with 1. lia.
  - unfold GARRY_PAGE_HDR_OFF_COUNT. skip_blits.
    rewrite i32_id by (unfold is_i32; lia). by rewrite zlen_app.
  - unfold GARRY_PAGE_HDR_OFF_FREE_START, GARRY_PAGE_HEADER_SIZE, GARRY_SLOT_SIZE. skip_blits.
    rewrite i32_id by (unfold is_i32; lia). rewrite zlen_app. change (zlen [r]) with 1.
    f_equal. lia.
  - unfold GARRY_PAGE_HDR_OFF_FREE_END. skip_blits.
    rewrite i32_id by (unfold is_i32; lia). rewrite recs_len_app. f_equal. lia.
  - intros i s Hi. rewrite recs_len_app. pose proof (rd_Some_range _ _ _ Hi) as Hri.
    rewrite zlen_app in Hri. change (zlen [r]) with 1 in Hri.
    destruct (Hslot i) as [->|]; [|lia].
    destruct (decide (i = zlen rs)) as [->|Hne].
    + rewrite rd_app_0 in Hi. injection Hi as <-.
      exists (page_size - recs_len rs - dlen). split; [lia|]. split; [lia|]. split.
      * by apply slice_blit in Hblit3.
      * rewrite (read_slot_blit _ _ _ _ _ Hblit0) by lia.
        by rewrite (Z.mod_small dlen), Hl by lia.
    + rewrite rd_app_l in Hi by lia. destruct (Hrecs i s Hi) as (off & ? & ? & Hoff & Hsl).
      pose proof (zlen_nonneg s).
      exists off. split; [lia|]. split; [lia|]. split.
      * skip_blits. by rewrite (slice_blit_ne _ _ _ _ _ _ Hblit0) by (rewrite Hsb; lia).
      * rewrite <- Hsl. apply read_slot_ext.
        unfold GARRY_PAGE_HEADER_SIZE, GARRY_SLOT_SIZE. intros k Hk.
        by rewrite (rd_blit_ne _ _ _ _ k Hblit0) by (rewrite Hsb; lia).
  - intros off Hoff. unfold GARRY_PAGE_HEADER_SIZE in Hoff. by skip_blits.
Qed.

(** * Retrieval *)

Lemma page_get_rep page_size buf rs i data :
  page_rep page_size buf rs ->
  match rd rs i with
  | Some r => zlen r <= zlen data ->
      exists data', blit data 0 r = Some data' /\
        garry_page_get buf i data page_size = Some (data', zlen r)
  | None => garry_page_get buf i data page_size = Some (data, -1)
  end.
Proof.
  intros [Hsz Hb _ Hc _ _ Hrecs]. unfold garry_page_get, garry_page_record_count, garry_read_int32.
  rewrite Hc. bsimpl. destruct (rd rs i) as [r|] eqn:Hi.
  - pose proof (rd_Some_range _ _ _ Hi). destruct (Hrecs i r Hi) as (off & Hlo & Hhi & Hs & Hsl).
    intros Hd. destruct (blit_ok data 0 r) as (d & Hbl & _); [lia..|].
    exists d. split; [done|]. dec. rewrite Hsl. bsimpl. simpl slot_length. simpl slot_offset.
    pose proof (zlen_nonneg rs).
    unfold GARRY_PAGE_HEADER_SIZE, GARRY_SLOT_SIZE, GARRY_MAX_PAGE_SIZE in *.
    rewrite decide_False by lia.
    destruct (decide (zlen r = 0)) as [Hz|Hz].
    + rewrite Hz. unfold copy_loop. rewrite forZ_empty by lia. bsimpl.
      destruct r; [|solve_len]. rewrite blit_nil in Hbl by (pose proof (zlen_nonneg data); lia).
      by injection Hbl as ->.
    + pose proof (zlen_nonneg r). rewrite Z.mod_small by lia.
      rewrite (copy_loop_slice _ _ _ _ _ r) by (done || lia). by rewrite Hbl.
  - case_decide; [done|]. rewrite decide_True; [done|].
    destruct (decide (i < zlen rs)); [|lia].
    destruct (rd_is_Some rs i) as [? E]; [lia|congruence].
Qed.

(** The records depend on the page's first [page_size] bytes only. *)
Lemma page_rep_ext page_size b1 b2 rs :
  page_rep page_size b1 rs -> page_size <= zlen b2 ->
  (forall k, 0 <= k < page_size -> rd b2 k = rd b1 k) -> page_rep page_size b2 rs.
Proof.
  intros [Hsz Hbuf Hsl Hc Hfs Hfe Hrecs] Hl Hext.
  pose proof (zlen_nonneg rs). pose proof (zlen_nonneg (concat rs)). fold (recs_len rs) in *.
  unfold GARRY_PAGE_HEADER_SIZE, GARRY_SLOT_SIZE in *.
  assert (Hle : forall off, 0 <= off <= 28 -> garry_read_le32 b2 off = garry_read_le32 b1 off)
    by (intros off Hoff; apply read_le32_ext; intros k Hk; apply Hext; lia).
  split; [done|done|done|by rewrite Hle|by rewrite Hle|by rewrite Hle|].
  intros i r Hi. pose proof (rd_Some_range _ _ _ Hi).
  destruct (Hrecs i r Hi) as (off & ? & ? & Hs & Hslot). pose proof (zlen_nonneg r).
  exists off. split; [done|]. split; [done|]. split.
  - rewrite <- Hs. apply slice_eq_rd; [lia..|]. intros. apply Hext. lia.
  - rewrite <- Hslot. apply read_slot_ext. unfold GARRY_PAGE_HEADER_SIZE, GARRY_SLOT_SIZE.
    intros k Hk. apply Hext. lia.
Qed.

(** A local copy of the page holds the same records. *)
Lemma page_rep_copy page_size buf dst rs :
  page_rep page_size buf rs -> page_size <= zlen dst ->
  exists local, memcpy dst 0 buf 0 page_size = Some local /\ zlen local = zlen dst /\
    page_rep page_size local rs.
Proof.
  intros Hrep Hd. pose proof Hrep as [Hsz Hbuf _ _ _ _ _].
  pose proof (zlen_nonneg rs). pose proof (zlen_nonneg (concat rs)). fold (recs_len rs) in *.
  unfold GARRY_PAGE_HEADER_SIZE, GARRY_SLOT_SIZE in *. unfold memcpy.
  set (s := take (Z.to_nat page_size) buf).
  assert (Hs : slice buf 0 page_size = Some s) by (rewrite slice_Some by lia; done).
  pose proof (slice_is_Some _ _ _ _ Hs) as (_ & _ & _ & Hl). rewrite Hs. cbn [mbind option_bind].
  destruct (blit_ok dst 0 s) as (local & Hb & Hz); [lia..|]. exists local.
  split; [done|]. split; [done|]. apply (page_rep_ext page_size buf); [done|lia|].
  intros k Hk. rewrite (rd_blit _ _ _ _ k Hb). rewrite decide_True by lia.
  by rewrite (rd_slice _ _ _ _ _ Hs) by lia; replace (0 + (k - 0)) with k by lia.
Qed.

(** A page filled with a list of records, stopping at the first that does not fit. *)
Fixpoint page_fill (buf : list Z) (page_size : Z) (rs : list (list Z)) : option (list Z * bool) :=
  match rs with
  | [] => Some (buf, true)
  | r :: rs =>
      '(buf, i) ← garry_page_insert buf r (zlen r) page_size;
      if decide (i < 0) then Some (buf, false) else page_fill buf page_size rs
  end.

Lemma page_fill_rep page_size buf rs0 rs :
  page_rep page_size buf rs0 ->
  GARRY_PAGE_HEADER_SIZE + GARRY_SLOT_SIZE * zlen (rs0 ++ rs) + recs_len (rs0 ++ rs) <= page_size ->
  zlen (rs0 ++ rs) <= GARRY_MAX_SLOTS ->
  exists buf', page_fill buf page_size rs = Some (buf', true) /\ page_rep page_size buf' (rs0 ++ rs).
Proof.
  revert buf rs0. induction rs as [|r rs IH]; intros buf rs0 Hrep Hfit Hn; simpl.
  - rewrite app_nil_r. by exists buf.
  - change (r :: rs) with ([r] ++ rs) in *. rewrite app_assoc in *.
    pose proof (zlen_nonneg rs). pose proof (zlen_nonneg rs0). pose proof (zlen_nonneg (concat rs)).
    assert (Hf : page_fits page_size rs0 (zlen r)).
    { unfold page_fits, recs_len in *. rewrite !concat_app in Hfit. simpl in Hfit.
      autorewrite with buf in *. unfold GARRY_PAGE_HEADER_SIZE, GARRY_SLOT_SIZE in *. lia. }
    destruct (page_insert_fits page_size buf rs0 r (zlen r) r Hrep Hf) as (b & -> & _ & Hr & _).
    { by apply slice_all. }
    cbn [mbind option_bind]. rewrite decide_False by lia. by apply IH.
Qed.

(** * Properties *)

(** Insertion into a page that holds the records [rs] refines appending to
    the list: when slot directory and free space have room it returns the next
    slot and the page then holds [rs] and the new record, every earlier record
    and the other header fields unchanged; otherwise it returns -1 and does not
    touch the page. *)
Theorem page_insert_refines page_size buf rs data dlen r
  (Hrep : page_rep page_size buf rs) (Hr : slice data 0 dlen = Some r)
  (Hd : dlen < 2 ^ 31 - 65536) :
  exists buf' idx, garry_page_insert buf data dlen page_size = Some (buf', idx) /\
    if decide (page_fits page_size rs dlen)
    then idx = zlen rs /\ page_rep page_size buf' (rs ++ [r]) /\
         (forall off, In off [GARRY_PAGE_HDR_OFF_TYPE; GARRY_PAGE_HDR_OFF_LEVEL;
            GARRY_PAGE_HDR_OFF_COMPRESSION; GARRY_PAGE_HDR_OFF_PARENT; GARRY_PAGE_HDR_OFF_CHECKSUM] ->
          garry_read_int32 buf' off = garry_read_int32 buf off)
    else idx = -1 /\ buf' = buf.
Proof.
  pose proof (slice_is_Some _ _ _ _ Hr) as (_&?&_&_). case_decide as Hf.
  - destruct (page_insert_fits _ _ _ _ _ _ Hrep Hf Hr) as (b & -> & _ & Hr' & Hh).
    do 2 eexists. split; [done|]. split; [done|]. split; [done|].
    intros off Hoff. apply Hh. simpl in Hoff.
    unfold GARRY_PAGE_HDR_OFF_TYPE, GARRY_PAGE_HDR_OFF_LEVEL, GARRY_PAGE_HDR_OFF_COMPRESSION,
      GARRY_PAGE_HDR_OFF_PARENT, GARRY_PAGE_HDR_OFF_CHECKSUM, GARRY_PAGE_HDR_OFF_COUNT,
      GARRY_PAGE_HDR_OFF_FREE_END, GARRY_PAGE_HEADER_SIZE in *. lia.
  - rewrite (page_insert_full _ _ _ _ _ Hrep) by (done || lia). by do 2 eexists.
Qed.

(** A 64-byte page holding one record, for the witnesses. *)
Definition sample_page : list Z :=
  default [] (fst <$> (b ← garry_page_init (zeros 64) GARRY_NODE_LEAF 0 64; page_fill b 64 [[7; 8]])).

Lemma sample_page_rep : page_rep 64 sample_page [[7; 8]].
Proof.
  split; [vm_compute; split; congruence|vm_compute; congruence|vm_compute; congruence|reflexivity..|].
  intros i r Hi. pose proof (rd_Some_range _ _ _ Hi). assert (i = 0) as -> by (unfold zlen in *; simpl in *; lia).
  injection Hi as <-. exists 62. by vm_compute.
Qed.

Lemma page_insert_refines_witness :
  exists buf' idx, garry_page_insert sample_page [1; 2; 3] 3 64 = Some (buf', idx) /\
    idx = 1 /\ page_rep 64 buf' [[7; 8]; [1; 2; 3]].
Proof.
  destruct (page_insert_refines 64 sample_page [[7; 8]] [1; 2; 3] 3 [1; 2; 3] sample_page_rep
    eq_refl eq_refl) as (b & i & E & H). exists b, i. split; [exact E|].
  rewrite decide_True in H by (vm_compute; split; congruence).
  destruct H as (Hi & Hp & _). split; [exact Hi|exact Hp].
Defined.

(** Retrieval on a page that holds [rs] returns the length of record [i]
    and copies it to the start of the output, leaving the rest of the output as
    it was; an index below 0 or past the last record returns -1 and copies
    nothing. *)
Theorem page_get_correct page_size buf rs i data
  (Hrep : page_rep page_size buf rs)
  (Hout : forall r, rd rs i = Some r -> zlen r <= zlen data) :
  garry_page_get buf i data page_size =
    match rd rs i with
    | Some r => (fun data' => (data', zlen r)) <$> blit data 0 r
    | None => Some (data, -1)
    end.
Proof.
  pose proof (page_get_rep page_size buf rs i data Hrep) as H.
  destruct (rd rs i) as [r|]; [|done]. by destruct (H (Hout r eq_refl)) as (d & -> & ->).
Qed.

Lemma page_get_correct_witness : garry_page_get sample_page 0 [0; 0; 9] 64 = Some ([7; 8; 9], 2).
Proof.
  refine (page_get_correct 64 sample_page [[7; 8]] 0 [0; 0; 9] sample_page_rep _).
  intros r [= <-]. by vm_compute.
Defined.

(** A freshly initialised page takes any list of at most 128 records whose
    bytes and slots fit, and every record then reads back unchanged from its
    index. *)
Theorem page_fill_read_back page_size buf ptype level rs
  (Hps : GARRY_PAGE_HEADER_SIZE <= page_size <= GARRY_MAX_PAGE_SIZE) (Hb : page_size <= zlen buf)
  (Hn : zlen rs <= GARRY_MAX_SLOTS)
  (Hfit : GARRY_PAGE_HEADER_SIZE + GARRY_SLOT_SIZE * zlen rs + recs_len rs <= page_size) :
  exists buf0 buf', garry_page_init buf ptype level page_size = Some buf0 /\
    page_fill buf0 page_size rs = Some (buf', true) /\
    garry_page_record_count buf' = Some (zlen rs) /\
    forall i r, rd rs i = Some r ->
      garry_page_get buf' i (zeros (zlen r)) page_size = Some (r, zlen r).
Proof.
  destruct (page_init_rep buf ptype level page_size Hps Hb) as (b & -> & _ & Hr & _).
  destruct (page_fill_rep page_size b [] rs Hr Hfit Hn) as (b' & Hb' & Hr').
  exists b, b'. split; [done|]. split; [done|]. split; [apply Hr'|].
  intros i r Hi. pose proof (page_get_rep _ _ _ i (zeros (zlen r)) Hr') as H.
  simpl app in H. rewrite Hi in H.
  destruct H as (d & Hbl & ->). { rewrite zlen_zeros; [lia|apply zlen_nonneg]. }
  apply blit_inv in Hbl as (p & g & q & E & Hp & Hg & ->).
  pose proof (f_equal zlen E) as El. rewrite zlen_zeros in El by apply zlen_nonneg.
  destruct p; [|solve_len]. destruct q; [|solve_len]. simpl. by rewrite app_nil_r.
Qed.

Lemma page_fill_read_back_witness :
  exists buf0 buf', garry_page_init (zeros 64) GARRY_NODE_LEAF 0 64 = Some buf0 /\
    page_fill buf0 64 [[1; 2]; []; [3]] = Some (buf', true) /\
    garry_page_record_count buf' = Some 3 /\
    forall i r, rd [[1; 2]; []; [3]] i = Some r ->
      garry_page_get buf' i (zeros (zlen r)) 64 = Some (r, zlen r).
Proof. apply (page_fill_read_back 64 (zeros 64) GARRY_NODE_LEAF 0 [[1; 2]; []; [3]]); by vm_compute. Defined.
