(* ===== verification/LockTable.v ===== *)
(** The key lock manager, [src/src/lock_table.c]: one list of lock nodes for
    all transactions, searched linearly, new nodes pushed in front. *)

From S2P Require Import Prelude KeyEncoding.

(** * State and operations *)

Inductive garry_lock_mode := GARRY_LOCK_SHARED | GARRY_LOCK_EXCLUSIVE.
#[export] Instance garry_lock_mode_eq_dec : EqDecision garry_lock_mode.
Proof. solve_decision. Defined.

(** [lk_key] is the node's array of [GARRY_MAX_KEY_SIZE] bytes. *)
Record garry_lock_node := LockNode {
  lk_key : list Z; lk_key_len : Z; lk_txn : Z; lk_mode : garry_lock_mode
}.

Record garry_lock_manager := LockManager { lm_head : list garry_lock_node; lm_count : Z }.

Definition garry_create_lock_manager : garry_lock_manager := LockManager [] 0.

(** The loop [while (j < klen && same)] that both searches contain. *)
Definition same_key (p : garry_lock_node) (key : list Z) (klen : Z) : option bool :=
  r ← scan 0 klen (fun j =>
        x ← rd (lk_key p) j; y ← rd key j; Some (if decide (x <> y) then Some false else None));
  Some (default true r).

Fixpoint lock_held_loop (p : list garry_lock_node) (txn : Z) (key : list Z) (klen : Z)
  : option bool :=
  match p with
  | [] => Some false
  | p :: next =>
      if decide (lk_txn p = txn /\ lk_key_len p = klen) then
        same ← same_key p key klen;
        if same : bool then Some true else lock_held_loop next txn key klen
      else lock_held_loop next txn key klen
  end.

Definition garry_lock_held (mgr : garry_lock_manager) (txn : Z) (key : list Z) (klen : Z)
  : option bool :=
  lock_held_loop (lm_head mgr) txn key klen.

Fixpoint has_conflict_loop (p : list garry_lock_node) (txn : Z) (key : list Z) (klen : Z)
    (mode : garry_lock_mode) : option bool :=
  match p with
  | [] => Some false
  | p :: next =>
      if decide (lk_key_len p = klen) then
        same ← same_key p key klen;
        if decide (same = true /\ lk_txn p <> txn /\
                   (lk_mode p = GARRY_LOCK_EXCLUSIVE \/ mode = GARRY_LOCK_EXCLUSIVE))
        then Some true else has_conflict_loop next txn key klen mode
      else has_conflict_loop next txn key klen mode
  end.

Definition garry_has_conflict (mgr : garry_lock_manager) (txn : Z) (key : list Z) (klen : Z)
    (mode : garry_lock_mode) : option bool :=
  has_conflict_loop (lm_head mgr) txn key klen mode.

(** [node] is what [malloc] returns: [None], or a node whose key array holds
    arbitrary bytes.  The result is the manager and [*ok]. *)
Definition garry_lock_acquire (mgr : garry_lock_manager) (txn : Z) (key : list Z) (klen : Z)
    (mode : garry_lock_mode) (node : option (list Z)) : option (garry_lock_manager * bool) :=
  held ← garry_lock_held mgr txn key klen;
  if held : bool then Some (mgr, true)
  else
    conflict ← garry_has_conflict mgr txn key klen mode;
    if conflict : bool then Some (mgr, false)
    else
      match node with
      | None => Some (mgr, false)
      | Some nkey =>
          if decide (klen > GARRY_MAX_KEY_SIZE) then Some (mgr, false)
          else
            nkey ← memcpy nkey 0 key 0 klen;
            Some (LockManager (LockNode nkey klen txn mode :: lm_head mgr) (lm_count mgr + 1), true)
      end.

(** The walk over [pp], the link that points at the current node. *)
Fixpoint lock_release_loop (p : list garry_lock_node) (count txn : Z)
  : list garry_lock_node * Z :=
  match p with
  | [] => ([], count)
  | n :: next =>
      if decide (lk_txn n = txn) then lock_release_loop next (count - 1) txn
      else let '(rest, count) := lock_release_loop next count txn in (n :: rest, count)
  end.

Definition garry_lock_release (mgr : garry_lock_manager) (txn : Z) : garry_lock_manager :=
  let '(head, count) := lock_release_loop (lm_head mgr) (lm_count mgr) txn in
  LockManager head count.

(** * The lock set *)

Definition node_key (n : garry_lock_node) : list Z := take (Z.to_nat (lk_key_len n)) (lk_key n).

Definition node_wf (n : garry_lock_node) : Prop :=
  0 <= lk_key_len n <= GARRY_MAX_KEY_SIZE /\ zlen (lk_key n) = GARRY_MAX_KEY_SIZE.

(** [holds txn k n]: node [n] is a lock of [txn] on the key [k]. *)
Definition holds (txn : Z) (k : list Z) (n : garry_lock_node) : Prop :=
  lk_txn n = txn /\ node_key n = k.
#[export] Instance holds_dec txn k n : Decision (holds txn k n) := and_dec _ _.

(** [clashes txn k mode n]: [n] prevents [txn] from locking [k] in [mode]. *)
Definition clashes (txn : Z) (k : list Z) (mode : garry_lock_mode) (n : garry_lock_node) : Prop :=
  node_key n = k /\ lk_txn n <> txn /\
  (lk_mode n = GARRY_LOCK_EXCLUSIVE \/ mode = GARRY_LOCK_EXCLUSIVE).
#[export] Instance clashes_dec txn k mode n : Decision (clashes txn k mode n).
Proof. unfold clashes. apply _. Defined.

(** Two locks of different transactions on one key are both shared. *)
Definition compatible (n1 n2 : garry_lock_node) : Prop :=
  node_key n1 = node_key n2 -> lk_txn n1 <> lk_txn n2 ->
  lk_mode n1 = GARRY_LOCK_SHARED /\ lk_mode n2 = GARRY_LOCK_SHARED.

Record lm_wf (m : garry_lock_manager) : Prop := {
  wf_count : lm_count m = zlen (lm_head m);
  wf_nodes : Forall node_wf (lm_head m);
  wf_compatible : forall n1 n2, n1 ∈ lm_head m -> n2 ∈ lm_head m -> compatible n1 n2
}.

(** * What the searches compute *)

Lemma Forall_filter {A} (Q P : A -> Prop) `{forall x, Decision (P x)} l :
  Forall Q l -> Forall Q (filter P l).
Proof.
  rewrite !Forall_forall. intros HQ x [_ Hx]%list_elem_of_filter. auto.
Qed.

Lemma slice_node_key n : node_wf n -> slice (lk_key n) 0 (lk_key_len n) = Some (node_key n).
Proof. intros [? ?]. rewrite slice_Some by lia. done. Qed.

Lemma same_key_spec n key klen k :
  node_wf n -> slice key 0 klen = Some k -> lk_key_len n = klen ->
  same_key n key klen = Some (bool_decide (node_key n = k)).
Proof.
  intros Hn Hk <-. unfold same_key.
  rewrite (scan_eq false _ _ _ _ _ (slice_node_key n Hn) Hk). bsimpl.
  rewrite bool_decide_decide. by case_decide.
Qed.

Lemma node_key_len n k klen :
  node_wf n -> zlen k = klen -> node_key n = k -> lk_key_len n = klen.
Proof.
  intros Hn <- <-. pose proof (slice_node_key n Hn) as Hs.
  by apply slice_is_Some in Hs as (_&_&_&?).
Qed.

Lemma lock_held_spec m txn key klen k :
  Forall node_wf (lm_head m) -> slice key 0 klen = Some k ->
  garry_lock_held m txn key klen = Some (bool_decide (Exists (holds txn k) (lm_head m))).
Proof.
  intros Hm Hk. pose proof (slice_is_Some _ _ _ _ Hk) as (_&_&_&Hl).
  unfold garry_lock_held. induction Hm as [|n ns Hn Hns IH]; cbn [lock_held_loop]; [done|].
  assert (Hc : bool_decide (Exists (holds txn k) (n :: ns)) =
               bool_decide (holds txn k n) || bool_decide (Exists (holds txn k) ns)).
  { rewrite <- bool_decide_or. apply bool_decide_ext, Exists_cons. }
  rewrite Hc, IH. unfold holds at 1. case_decide as Hd.
  - rewrite (same_key_spec n key klen k) by tauto. bsimpl.
    clear Hc. unfold holds in *. repeat case_bool_decide; simpl; first [done|tauto].
  - rewrite (bool_decide_false (lk_txn n = txn /\ node_key n = k)); [done|].
    intros [? ?]. apply Hd. eauto using node_key_len.
Qed.

Lemma has_conflict_spec m txn key klen k mode :
  Forall node_wf (lm_head m) -> slice key 0 klen = Some k ->
  garry_has_conflict m txn key klen mode =
    Some (bool_decide (Exists (clashes txn k mode) (lm_head m))).
Proof.
  intros Hm Hk. pose proof (slice_is_Some _ _ _ _ Hk) as (_&_&_&Hl).
  unfold garry_has_conflict. induction Hm as [|n ns Hn Hns IH]; cbn [has_conflict_loop]; [done|].
  assert (Hc : bool_decide (Exists (clashes txn k mode) (n :: ns)) =
               bool_decide (clashes txn k mode n) || bool_decide (Exists (clashes txn k mode) ns)).
  { rewrite <- bool_decide_or. apply bool_decide_ext, Exists_cons. }
  rewrite Hc, IH. case_decide as Hd.
  - rewrite (same_key_spec n key klen k) by tauto. bsimpl.
    unfold clashes at 1. clear Hc. unfold clashes in *. case_decide as Hx; rewrite bool_decide_eq_true in Hx;
      repeat case_bool_decide; simpl; first [done|tauto].
  - rewrite (bool_decide_false (clashes txn k mode n)); [done|].
    intros (? & _). apply Hd. eauto using node_key_len.
Qed.

Lemma lock_release_loop_spec p count txn :
  lock_release_loop p count txn =
    (filter (fun n => lk_txn n <> txn) p, count - zlen (filter (fun n => lk_txn n = txn) p)).
Proof.
  revert count. induction p as [|n p IH]; intros count; simpl.
  - f_equal. unfold zlen. simpl. lia.
  - rewrite !filter_cons. repeat case_decide; try congruence.
    + rewrite IH. f_equal. solve_len.
    + by rewrite IH.
Qed.

Lemma zlen_filter_split {A} (P : A -> Prop) `{forall x, Decision (P x)} l :
  zlen (filter P l) + zlen (filter (fun x => ~ P x) l) = zlen l.
Proof.
  induction l as [|x l IH]; [done|]. rewrite !filter_cons.
  repeat case_decide; try tauto; rewrite !zlen_cons; lia.
Qed.

Lemma acquire_spec m txn key klen mode node k :
  Forall node_wf (lm_head m) -> slice key 0 klen = Some k ->
  (forall g, node = Some g -> zlen g = GARRY_MAX_KEY_SIZE) ->
  exists m' ok, garry_lock_acquire m txn key klen mode node = Some (m', ok) /\
    ((Exists (holds txn k) (lm_head m) /\ m' = m /\ ok = true) \/
     (~ Exists (holds txn k) (lm_head m) /\ m' = m /\ ok = false /\
      (Exists (clashes txn k mode) (lm_head m) \/ node = None \/ klen > GARRY_MAX_KEY_SIZE)) \/
     (~ Exists (holds txn k) (lm_head m) /\ ~ Exists (clashes txn k mode) (lm_head m) /\
      ok = true /\ exists n, m' = LockManager (n :: lm_head m) (lm_count m + 1) /\
        node_wf n /\ node_key n = k /\ lk_txn n = txn /\ lk_mode n = mode)).
Proof.
  intros Hm Hk Hnode. pose proof (slice_is_Some _ _ _ _ Hk) as (_&?&_&Hl).
  unfold garry_lock_acquire.
  rewrite (lock_held_spec _ _ _ _ _ Hm Hk), (has_conflict_spec _ _ _ _ _ _ Hm Hk). bsimpl.
  case_bool_decide as Hh; [eauto 10|]. case_bool_decide as Hc; [eauto 10|].
  destruct node as [g|]; [|eauto 12]. case_decide as Hl'; [eauto 12|].
  unfold memcpy. rewrite Hk. bsimpl. specialize (Hnode g eq_refl).
  destruct (blit_split g 0 k) as (p & x & q & -> & Hp & Hx & ->); [lia..|].
  destruct p; [|solve_len]. bsimpl. do 2 eexists. split; [done|]. do 2 right.
  split; [done|]. split; [done|]. split; [done|]. eexists. split; [done|].
  unfold node_wf, node_key. simpl. split; [split; [lia|solve_len]|]. split; [|done].
  rewrite <- Hl. unfold zlen. by rewrite Nat2Z.id, take_app_length.
Qed.

(** A refused request changes nothing. *)
Lemma acquire_refused m txn key klen mode node m' :
  garry_lock_acquire m txn key klen mode node = Some (m', false) -> m' = m.
Proof.
  unfold garry_lock_acquire. intros E.
  destruct (garry_lock_held m txn key klen) as [[]|]; cbn [mbind option_bind] in E; [discriminate E| |discriminate E].
  destruct (garry_has_conflict m txn key klen mode) as [[]|]; cbn [mbind option_bind] in E; [by injection E as <-| |discriminate E].
  destruct node as [g|]; [|by injection E as <-]. case_decide; [by injection E as <-|].
  destruct (memcpy g 0 key 0 klen); cbn [mbind option_bind] in E; discriminate E.
Qed.

(** * Reachable tables *)

(** One call of the manager, with requests in the modes [M] allows and
    releases of the transactions [R] allows. *)
Inductive lock_step (M : garry_lock_mode -> Prop) (R : Z -> Prop)
  : garry_lock_manager -> garry_lock_manager -> Prop :=
| step_acquire m m' txn key klen k mode node ok :
    M mode -> slice key 0 klen = Some k ->
    (forall g, node = Some g -> zlen g = GARRY_MAX_KEY_SIZE) ->
    garry_lock_acquire m txn key klen mode node = Some (m', ok) -> lock_step M R m m'
| step_release m txn : R txn -> lock_step M R m (garry_lock_release m txn).

Definition lock_reachable (M : garry_lock_mode -> Prop) (m : garry_lock_manager) : Prop :=
  rtc (lock_step M (fun _ => True)) garry_create_lock_manager m.

Lemma create_wf : lm_wf garry_create_lock_manager.
Proof. split; [done|constructor|]. intros n1 n2 Hn. by apply elem_of_nil in Hn. Qed.

Lemma push_wf m n txn k mode :
  lm_wf m -> node_wf n -> node_key n = k -> lk_txn n = txn -> lk_mode n = mode ->
  ~ Exists (clashes txn k mode) (lm_head m) ->
  lm_wf (LockManager (n :: lm_head m) (lm_count m + 1)).
Proof.
  intros [Hc Hn Hcomp] Hwf Hk Ht Hm Hno. rewrite <- Forall_Exists_neg, Forall_forall in Hno.
  split; simpl; [rewrite zlen_cons; lia|by constructor|].
  assert (Hnew : forall n', n' ∈ lm_head m -> node_key n' = k -> lk_txn n' <> txn ->
    lk_mode n' = GARRY_LOCK_SHARED /\ mode = GARRY_LOCK_SHARED).
  { intros n' Hin Hk' Ht'. specialize (Hno n' Hin). unfold clashes in Hno.
    destruct (lk_mode n'), mode; try done; tauto. }
  intros n1 n2 [->|H1]%elem_of_cons [->|H2]%elem_of_cons Hkk Htt; [done| | |].
  - destruct (Hnew n2 H2); [congruence|congruence|]. by rewrite Hm.
  - destruct (Hnew n1 H1); [congruence|congruence|]. by rewrite Hm.
  - by apply Hcomp.
Qed.

Lemma release_spec m txn :
  lm_wf m ->
  lm_wf (garry_lock_release m txn) /\
  lm_head (garry_lock_release m txn) = filter (fun n => lk_txn n <> txn) (lm_head m).
Proof.
  intros [Hc Hn Hcomp]. unfold garry_lock_release. rewrite lock_release_loop_spec.
  split; [split; simpl|done].
  - assert (zlen (filter (fun n => lk_txn n = txn) (lm_head m)) +
      zlen (filter (fun n => lk_txn n <> txn) (lm_head m)) = zlen (lm_head m))
      by exact (zlen_filter_split (fun n => lk_txn n = txn) _). lia.
  - by apply Forall_filter.
  - intros n1 n2 [? ?]%list_elem_of_filter [? ?]%list_elem_of_filter. by apply Hcomp.
Qed.

Lemma lock_step_wf M R m m' : lock_step M R m m' -> lm_wf m -> lm_wf m'.
Proof.
  intros [m0 m0' txn key klen k mode node ok _ Hk Hg Ha|m0 txn _] Hwf.
  - destruct (acquire_spec m0 txn key klen mode node k (wf_nodes _ Hwf) Hk Hg)
      as (m1 & ok1 & E & H). rewrite E in Ha. injection Ha as <- <-.
    destruct H as [(_ & -> & _)|[(_ & -> & _)|(_ & Hno & _ & n & -> & ? & ? & ? & ?)]];
      [done..|]. by eapply push_wf.
  - by apply release_spec.
Qed.

Lemma lock_reachable_wf M m : lock_reachable M m -> lm_wf m.
Proof.
  unfold lock_reachable. intros H. remember garry_create_lock_manager as m0 eqn:E.
  assert (lm_wf m0) as Hwf by (subst; apply create_wf). clear E.
  induction H; eauto using lock_step_wf.
Qed.

(** With exclusive requests only, every lock is exclusive. *)
Definition only_exclusive (mode : garry_lock_mode) : Prop := mode = GARRY_LOCK_EXCLUSIVE.

Definition all_exclusive (m : garry_lock_manager) : Prop :=
  Forall (fun n => lk_mode n = GARRY_LOCK_EXCLUSIVE) (lm_head m).

Lemma lock_step_exclusive R m m' :
  lock_step only_exclusive R m m' -> lm_wf m -> all_exclusive m -> all_exclusive m'.
Proof.
  intros [m0 m0' txn key klen k mode node ok HM Hk Hg Ha|m0 txn _] Hwf Hx.
  - destruct (acquire_spec m0 txn key klen mode node k (wf_nodes _ Hwf) Hk Hg)
      as (m1 & ok1 & E & H). rewrite E in Ha. injection Ha as <- <-.
    destruct H as [(_ & -> & _)|[(_ & -> & _)|(_ & _ & _ & n & -> & _ & _ & _ & Hm)]];
      [done..|]. constructor; [|done]. by rewrite Hm.
  - unfold all_exclusive. rewrite (proj2 (release_spec m0 txn Hwf)). by apply Forall_filter.
Qed.

(** A lock stays until its transaction is released. *)
Lemma lock_step_keeps txn k M m m' :
  lock_step M (fun t => t <> txn) m m' -> lm_wf m ->
  Exists (holds txn k) (lm_head m) -> Exists (holds txn k) (lm_head m').
Proof.
  intros [m0 m0' txn' key klen k' mode node ok HM Hk Hg Ha|m0 txn' Ht] Hwf He.
  - destruct (acquire_spec m0 txn' key klen mode node k' (wf_nodes _ Hwf) Hk Hg)
      as (m1 & ok1 & E & H). rewrite E in Ha. injection Ha as <- <-.
    destruct H as [(_ & -> & _)|[(_ & -> & _)|(_ & _ & _ & n & -> & _)]];
      [done..|]. by right.
  - rewrite (proj2 (release_spec m0 txn' Hwf)). rewrite !Exists_exists in *.
    destruct He as (n & Hin & Hh). exists n. split; [|done].
    apply list_elem_of_filter. split; [|done]. destruct Hh. congruence.
Qed.

(** The three steps of mutual exclusion. *)
Lemma reachable_exclusive m : lock_reachable only_exclusive m -> all_exclusive m.
Proof.
  unfold lock_reachable. intros Hreach. remember garry_create_lock_manager as m0 eqn:E.
  assert (all_exclusive m0 /\ lm_wf m0) as [Hx Hw] by (subst; split; [constructor|apply create_wf]).
  clear E. induction Hreach; eauto using lock_step_exclusive, lock_step_wf.
Qed.

Lemma grant_holds m m' txn key klen k mode node :
  lm_wf m -> slice key 0 klen = Some k ->
  (forall g, node = Some g -> zlen g = GARRY_MAX_KEY_SIZE) ->
  garry_lock_acquire m txn key klen mode node = Some (m', true) ->
  Exists (holds txn k) (lm_head m').
Proof.
  intros Hwf Hk Hg Ha.
  destruct (acquire_spec m txn key klen mode node k (wf_nodes _ Hwf) Hk Hg) as (m1 & ok1 & E & H).
  rewrite E in Ha. injection Ha as -> ->.
  destruct H as [(? & -> & _)|[(_ & _ & ? & _)|(_ & _ & _ & n & -> & _ & ? & ? & _)]]; [done..|].
  by left.
Qed.

Lemma held_refuses m txn txn2 key klen k node :
  lm_wf m -> all_exclusive m -> Exists (holds txn k) (lm_head m) -> txn2 <> txn ->
  slice key 0 klen = Some k -> (forall g, node = Some g -> zlen g = GARRY_MAX_KEY_SIZE) ->
  garry_lock_acquire m txn2 key klen GARRY_LOCK_EXCLUSIVE node = Some (m, false).
Proof.
  intros Hwf Hx Hh Hne Hk Hg. apply Exists_exists in Hh as (n & Hin & Ht & Hkn).
  destruct (acquire_spec m txn2 key klen GARRY_LOCK_EXCLUSIVE node k (wf_nodes _ Hwf) Hk Hg)
    as (m1 & ok1 & E & H).
  rewrite E. destruct H as [(Hh2 & _)|[(_ & -> & -> & _)|(_ & Hc & _)]]; [|done|]; exfalso.
  - apply Exists_exists in Hh2 as (n2 & Hin2 & Ht2 & Hkn2).
    destruct (wf_compatible _ Hwf n n2 Hin Hin2) as [Hm _]; [congruence|congruence|].
    unfold all_exclusive in Hx. rewrite Forall_forall in Hx. by rewrite (Hx n Hin) in Hm.
  - apply Hc, Exists_exists. exists n. split; [done|]. split; [done|]. split; [congruence|by right].
Qed.

(** * Properties *)

(** On every branch, [garry_lock_acquire] answers as the lock set demands:
    a key the transaction holds already is granted without a change; a clash
    with another transaction, a failed allocation or an over-long key is refused
    without a change; anything else is granted and adds exactly one lock. *)
Theorem lock_acquire_correct m txn key klen mode node k
  (Hwf : lm_wf m) (Hk : slice key 0 klen = Some k)
  (Hnode : forall g, node = Some g -> zlen g = GARRY_MAX_KEY_SIZE) :
  exists m' ok, garry_lock_acquire m txn key klen mode node = Some (m', ok) /\ lm_wf m' /\
    if decide (Exists (holds txn k) (lm_head m)) then m' = m /\ ok = true
    else if decide (Exists (clashes txn k mode) (lm_head m) \/ node = None \/ klen > GARRY_MAX_KEY_SIZE)
    then m' = m /\ ok = false
    else ok = true /\ exists n, lm_head m' = n :: lm_head m /\ holds txn k n /\ lk_mode n = mode.
Proof.
  destruct (acquire_spec m txn key klen mode node k (wf_nodes _ Hwf) Hk Hnode)
    as (m' & ok & E & H).
  exists m', ok. split; [done|].
  assert (Hwf' : lm_wf m').
  { apply (lock_step_wf (fun _ => True) (fun _ => True) m); [|done]. by eapply step_acquire. }
  split; [done|]. clear Hwf'.
  destruct H as [(Hh & -> & ->)|[(Hh & -> & -> & Hc)|(Hh & Hc & -> & n & -> & Hn & ? & ? & ?)]].
  - by rewrite decide_True.
  - by rewrite decide_False, decide_True.
  - rewrite decide_False by done. case_decide as Hd.
    + exfalso. unfold garry_lock_acquire in E.
      rewrite (lock_held_spec _ _ _ _ _ (wf_nodes _ Hwf) Hk),
        (has_conflict_spec _ _ _ _ _ _ (wf_nodes _ Hwf) Hk), !bool_decide_false in E by done.
      revert E. bsimpl. destruct Hd as [?|[->|?]]; [done|done|].
      destruct node; [|done]. by rewrite decide_True.
    + split; [done|]. by exists n.
Qed.

Definition sample_locks : garry_lock_manager :=
  LockManager [LockNode ([107; 49] ++ zeros 254) 2 7 GARRY_LOCK_SHARED;
               LockNode ([107; 49] ++ zeros 254) 2 8 GARRY_LOCK_SHARED] 2.

Lemma sample_locks_wf : lm_wf sample_locks.
Proof.
  split; [done|by repeat constructor|].
  intros n1 n2 Hn1 Hn2. simpl in Hn1, Hn2. rewrite !elem_of_cons, elem_of_nil in Hn1, Hn2.
  by destruct Hn1 as [->|[->|[]]], Hn2 as [->|[->|[]]].
Qed.

Lemma lock_acquire_correct_witness :
  garry_lock_acquire sample_locks 9 [107; 49] 2 GARRY_LOCK_EXCLUSIVE None = Some (sample_locks, false).
Proof.
  destruct (lock_acquire_correct sample_locks 9 [107; 49] 2 GARRY_LOCK_EXCLUSIVE None [107; 49]
    sample_locks_wf eq_refl ltac:(done)) as (m' & ok & E & _ & H).
  vm_compute in H.
  destruct H as [-> ->]. exact E.
Defined.

(** With exclusive locks only, a key has one owner. *)
Lemma one_owner m n1 n2 :
  lm_wf m -> all_exclusive m -> n1 ∈ lm_head m -> n2 ∈ lm_head m -> node_key n1 = node_key n2 -> lk_txn n1 = lk_txn n2.
Proof.
  intros Hwf Hx H1 H2 Hk. destruct (decide (lk_txn n1 = lk_txn n2)) as [|Hne]; [done|].
  destruct (wf_compatible _ Hwf n1 n2 H1 H2 Hk Hne) as [Hm _]. unfold all_exclusive in Hx. rewrite Forall_forall in Hx.
  rewrite (Hx n1 H1) in Hm. discriminate Hm.
Qed.

(** Once the only owner of a key is released, the key is free. *)
Lemma released_free m txn txn2 key klen k g mode :
  lm_wf m -> slice key 0 klen = Some k -> klen <= GARRY_MAX_KEY_SIZE -> zlen g = GARRY_MAX_KEY_SIZE ->
  (forall n, n ∈ lm_head m -> node_key n = k -> lk_txn n = txn) ->
  exists m', garry_lock_acquire (garry_lock_release m txn) txn2 key klen mode (Some g) = Some (m', true).
Proof.
  intros Hwf Hk Hl Hg Honly. destruct (release_spec m txn Hwf) as [Hwf' Hhd].
  destruct (acquire_spec (garry_lock_release m txn) txn2 key klen mode (Some g) k
    (wf_nodes _ Hwf') Hk ltac:(congruence)) as (m' & ok & E & H).
  exists m'. rewrite E. do 2 f_equal. rewrite Hhd in H. rewrite !Exists_exists in H.
  destruct H as [(_ & _ & ?)|[(_ & _ & _ & [Hc|[?|?]])|(_ & _ & ? & _)]]; try done; try lia.
  destruct Hc as (n & Hin & Hkn & _). apply list_elem_of_filter in Hin as [Hne Hin].
  by destruct Hne, (Honly n).
Qed.

Lemma grant_lasts m m' m'' txn key klen k node :
  lock_reachable only_exclusive m -> slice key 0 klen = Some k ->
  (forall g, node = Some g -> zlen g = GARRY_MAX_KEY_SIZE) ->
  garry_lock_acquire m txn key klen GARRY_LOCK_EXCLUSIVE node = Some (m', true) ->
  rtc (lock_step only_exclusive (fun t => t <> txn)) m' m'' ->
  lm_wf m'' /\ all_exclusive m'' /\ Exists (holds txn k) (lm_head m'').
Proof.
  intros Hreach Hk Hnode Hgrant Hrun. pose proof (lock_reachable_wf _ _ Hreach) as Hwf.
  assert (Hs : lock_step only_exclusive (fun _ => True) m m')
    by (eapply step_acquire; [reflexivity|exact Hk|exact Hnode|exact Hgrant]).
  assert (Hinv : lm_wf m' /\ all_exclusive m' /\ Exists (holds txn k) (lm_head m')).
  { split; [by eapply lock_step_wf|]. split; [|exact (grant_holds _ _ _ _ _ _ _ _ Hwf Hk Hnode Hgrant)].
    eapply lock_step_exclusive; eauto using reachable_exclusive. }
  clear Hs Hgrant. destruct Hinv as (?&?&?). induction Hrun as [|m1 m2 m3 Hs1 _ IH]; [done|].
  apply IH; [by eapply lock_step_wf|by eapply lock_step_exclusive|by eapply lock_step_keeps].
Qed.

(** C34: with exclusive requests only, which is how the storage layer calls the
    manager, the locks exclude each other: in a table reached by such requests and
    by releases, after a request was granted and whatever other requests and releases
    of other transactions happened since, the key has no other owner, a second
    transaction asking for it is refused, and once the owner is released it is
    granted the key. *)
Theorem exclusive_lock_excludes m m' m'' txn key klen k node txn2 node2 g
  (Hreach : lock_reachable only_exclusive m) (Hk : slice key 0 klen = Some k)
  (Hnode : forall g, node = Some g -> zlen g = GARRY_MAX_KEY_SIZE)
  (Hnode2 : forall g, node2 = Some g -> zlen g = GARRY_MAX_KEY_SIZE)
  (Hg : zlen g = GARRY_MAX_KEY_SIZE) (Hl : klen <= GARRY_MAX_KEY_SIZE)
  (Hgrant : garry_lock_acquire m txn key klen GARRY_LOCK_EXCLUSIVE node = Some (m', true))
  (Hrun : rtc (lock_step only_exclusive (fun t => t <> txn)) m' m'') (Hother : txn2 <> txn) :
  (forall n, n ∈ lm_head m'' -> node_key n = k -> lk_txn n = txn) /\
  garry_lock_acquire m'' txn2 key klen GARRY_LOCK_EXCLUSIVE node2 = Some (m'', false) /\
  exists m3, garry_lock_acquire (garry_lock_release m'' txn) txn2 key klen GARRY_LOCK_EXCLUSIVE (Some g) = Some (m3, true).
Proof.
  destruct (grant_lasts m m' m'' txn key klen k node Hreach Hk Hnode Hgrant Hrun) as (Hwf & Hx & Hh).
  assert (Honly : forall n, n ∈ lm_head m'' -> node_key n = k -> lk_txn n = txn).
  { intros n Hin Hkn. apply Exists_exists in Hh as (o & Ho & <- & Hko). apply (one_owner m''); [done..|congruence]. }
  split; [exact Honly|]. split; [by eapply held_refuses|by apply (released_free m'' txn txn2 key klen k)].
Qed.

Definition sample_lock : garry_lock_manager :=
  LockManager [LockNode ([107; 49] ++ zeros 254) 2 7 GARRY_LOCK_EXCLUSIVE] 1.

Lemma exclusive_lock_excludes_witness :
  garry_lock_acquire sample_lock 8 [107; 49] 2 GARRY_LOCK_EXCLUSIVE (Some (zeros 256)) = Some (sample_lock, false) /\
  exists m3, garry_lock_acquire (garry_lock_release sample_lock 7) 8 [107; 49] 2 GARRY_LOCK_EXCLUSIVE (Some (zeros 256))
    = Some (m3, true).
Proof.
  apply (exclusive_lock_excludes garry_create_lock_manager sample_lock sample_lock 7 [107; 49] 2
    [107; 49] (Some (zeros 256)) 8 (Some (zeros 256)) (zeros 256)).
  - apply rtc_refl.
  - reflexivity.
  - by intros g [= <-].
  - by intros g [= <-].
  - reflexivity.
  - vm_compute. discriminate.
  - reflexivity.
  - apply rtc_refl.
  - discriminate.
Defined.

(** A transaction that shares a key with another one and asks for it
    exclusively is granted at once, although the table records no exclusive
    lock and the other transaction still holds the key: the manager looks for a
    lock of the transaction before it looks at modes. *)
Theorem shared_upgrade_granted :
  exists (m : garry_lock_manager) (key k : list Z), lock_reachable (fun _ => True) m /\ slice key 0 2 = Some k /\
    Exists (holds 8 k) (lm_head m) /\
    ~ Exists (fun n => lk_mode n = GARRY_LOCK_EXCLUSIVE) (lm_head m) /\
    Exists (clashes 7 k GARRY_LOCK_EXCLUSIVE) (lm_head m) /\
    garry_lock_acquire m 7 key 2 GARRY_LOCK_EXCLUSIVE None = Some (m, true).
Proof.
  set (n txn := LockNode ([107; 49] ++ zeros 254) 2 txn GARRY_LOCK_SHARED).
  exists (LockManager [n 7; n 8] 2), [107; 49], [107; 49].
  split; [|split; [done|split; [by right; left|split; [|split; [|done]]]]].
  - eapply rtc_l; [|apply rtc_once].
    + by eapply (step_acquire _ _ _ _ 8 [107; 49] 2 [107; 49] GARRY_LOCK_SHARED (Some (zeros 256)));
        [..|intros g [= <-]|].
    + by eapply (step_acquire _ _ _ _ 7 [107; 49] 2 [107; 49] GARRY_LOCK_SHARED (Some (zeros 256)));
        [..|intros g [= <-]|].
  - intros [|[|[]%Exists_nil]%Exists_cons]%Exists_cons; done.
  - right; left. split; [done|]. split; [done|by right].
Qed.

(** Releasing a transaction removes its locks, no other, keeps the count
    exact, and leaves every key that only this transaction had locked free for
    the next request. *)
Theorem lock_release_correct m txn
  (Hwf : lm_wf m) :
  lm_wf (garry_lock_release m txn) /\
  (forall n, n ∈ lm_head (garry_lock_release m txn) <-> n ∈ lm_head m /\ lk_txn n <> txn) /\
  forall txn2 key klen k g mode, slice key 0 klen = Some k -> klen <= GARRY_MAX_KEY_SIZE ->
    zlen g = GARRY_MAX_KEY_SIZE ->
    (forall n, n ∈ lm_head m -> node_key n = k -> lk_txn n = txn) ->
    exists m', garry_lock_acquire (garry_lock_release m txn) txn2 key klen mode (Some g)
               = Some (m', true).
Proof.
  destruct (release_spec m txn Hwf) as [Hwf' Hhd]. split; [done|].
  split; [intros n; rewrite Hhd, list_elem_of_filter; tauto|].
  intros txn2 key klen k g mode Hk Hl Hg Honly. by apply (released_free m txn txn2 key klen k).
Qed.

Lemma lock_release_correct_witness :
  lm_wf (garry_lock_release sample_locks 7) /\
  lm_head (garry_lock_release sample_locks 7) =
    [LockNode ([107; 49] ++ zeros 254) 2 8 GARRY_LOCK_SHARED].
Proof. split; [exact (proj1 (lock_release_correct sample_locks 7 sample_locks_wf))|reflexivity]. Defined.
