(* ===== verification/DbHeader.v ===== *)
(** Engine settings and the database file header, [src/src/engine_settings.c]
    and [src/src/db_header.c]: fourteen little-endian fields protected by an
    FNV-1a checksum over the first 52 bytes. *)

From S2P Require Import Prelude Endian SlottedPage.

(** * Settings and header *)

Definition GARRY_COMPRESS_NONE : Z := 0.
Definition GARRY_COMPRESS_LZ4 : Z := 1.
Definition GARRY_MIN_PAGE_SIZE : Z := 512.
Definition GARRY_DB_MAGIC : Z := 0x52435350.
Definition GARRY_DB_VERSION : Z := 2.
Definition GARRY_HEADER_SIZE : Z := 56.
Definition GARRY_HEADER_CHECKSUM_LEN : Z := 52.
Definition GARRY_FNV1A_OFFSET_BASIS : Z := 2166136261.
Definition GARRY_FNV1A_PRIME : Z := 16777619.
Definition GARRY_CHECKSUM_MASK : Z := 0x7FFFFFFF.

Record garry_engine_settings := EngineSettings {
  es_page_size : Z; es_compression : Z; es_max_txns : Z; es_max_versions : Z;
  es_max_key_size : Z; es_max_subscripts : Z; es_btree_flags : Z; es_pool_size : Z;
  es_max_record_size : Z
}.

Definition garry_default_engine_settings : garry_engine_settings :=
  EngineSettings 4096 GARRY_COMPRESS_NONE 4 64 256 16 0 256 16384.

Record garry_db_header := DbHeader {
  magic : Z; version : Z; page_size : Z; db_compression : Z; root_page : Z; free_list_head : Z;
  total_pages : Z; max_txns : Z; max_versions : Z; max_key_size : Z; max_subscripts : Z;
  btree_flags : Z; next_txid : Z; db_checksum : Z
}.

Definition set_magic (h : garry_db_header) (m : Z) : garry_db_header :=
  DbHeader m (version h) (page_size h) (db_compression h) (root_page h) (free_list_head h)
    (total_pages h) (max_txns h) (max_versions h) (max_key_size h) (max_subscripts h)
    (btree_flags h) (next_txid h) (db_checksum h).

Definition garry_create_db_header (s : garry_engine_settings) : garry_db_header :=
  if decide (es_page_size s >= GARRY_MIN_PAGE_SIZE /\ es_page_size s <= GARRY_MAX_PAGE_SIZE /\
             Z.rem (es_page_size s) GARRY_MIN_PAGE_SIZE = 0)
  then DbHeader GARRY_DB_MAGIC GARRY_DB_VERSION (es_page_size s) (es_compression s) 1 (-1) 1
         (es_max_txns s) (es_max_versions s) (es_max_key_size s) (es_max_subscripts s) 0 1 0
  else DbHeader 0 0 0 0 0 0 0 0 0 0 0 0 0 0.

Definition garry_make_db_header_from_settings (s : garry_engine_settings) : garry_db_header :=
  garry_create_db_header s.

(** * Serialisation *)

Definition garry_compute_header_checksum (buf : list Z) : option Z :=
  hash ← forZ 0 GARRY_HEADER_CHECKSUM_LEN (fun i hash =>
           b ← rd buf i; Some (u32 (Z.lxor hash b * GARRY_FNV1A_PRIME))) GARRY_FNV1A_OFFSET_BASIS;
  Some (i32 (Z.land hash GARRY_CHECKSUM_MASK)).

Definition garry_write_db_header (buf : list Z) (hdr : garry_db_header) : option (list Z) :=
  buf ← garry_write_int32 buf 0 (magic hdr);
  buf ← garry_write_int32 buf 4 (version hdr);
  buf ← garry_write_int32 buf 8 (page_size hdr);
  buf ← garry_write_int32 buf 12 (db_compression hdr);
  buf ← garry_write_int32 buf 16 (root_page hdr);
  buf ← garry_write_int32 buf 20 (free_list_head hdr);
  buf ← garry_write_int32 buf 24 (total_pages hdr);
  buf ← garry_write_int32 buf 28 (max_txns hdr);
  buf ← garry_write_int32 buf 32 (max_versions hdr);
  buf ← garry_write_int32 buf 36 (max_key_size hdr);
  buf ← garry_write_int32 buf 40 (max_subscripts hdr);
  buf ← garry_write_int32 buf 44 (btree_flags hdr);
  buf ← garry_write_int32 buf 48 (next_txid hdr);
  cs ← garry_compute_header_checksum buf;
  garry_write_int32 buf 52 cs.

Definition garry_read_db_header (buf : list Z) : option garry_db_header :=
  magic ← garry_read_int32 buf 0;
  version ← garry_read_int32 buf 4;
  page_size ← garry_read_int32 buf 8;
  compression ← garry_read_int32 buf 12;
  root_page ← garry_read_int32 buf 16;
  free_list_head ← garry_read_int32 buf 20;
  total_pages ← garry_read_int32 buf 24;
  max_txns ← garry_read_int32 buf 28;
  max_versions ← garry_read_int32 buf 32;
  max_key_size ← garry_read_int32 buf 36;
  max_subscripts ← garry_read_int32 buf 40;
  btree_flags ← garry_read_int32 buf 44;
  next_txid ← garry_read_int32 buf 48;
  stored_cs ← garry_read_int32 buf 52;
  let hdr := DbHeader magic version page_size compression root_page free_list_head total_pages
    max_txns max_versions max_key_size max_subscripts btree_flags next_txid stored_cs in
  computed_cs ← garry_compute_header_checksum buf;
  if decide (stored_cs <> computed_cs) then Some (set_magic hdr 0) else Some hdr.

Definition garry_validate_db_header (hdr : garry_db_header) : bool :=
  if decide (magic hdr <> GARRY_DB_MAGIC) then false
  else if decide (version hdr <> GARRY_DB_VERSION) then false
  else if decide (page_size hdr < GARRY_MIN_PAGE_SIZE) then false
  else if decide (page_size hdr > GARRY_MAX_PAGE_SIZE) then false
  else if decide (max_txns hdr <= 0) then false
  else if decide (max_versions hdr <= 0) then false
  else true.

(** * The checksum as a fold *)

Definition fnv_step (h b : Z) : Z := u32 (Z.lxor h b * GARRY_FNV1A_PRIME).
Definition fnv (h : Z) (l : list Z) : Z := fold_left fnv_step l h.
Definition fnv31 (l : list Z) : Z := fnv GARRY_FNV1A_OFFSET_BASIS l mod 2 ^ 31.

Lemma fnv_loop p l q h n :
  n = zlen p + zlen l ->
  forZ (zlen p) n (fun i h => b ← rd (p ++ l ++ q) i; Some (fnv_step h b)) h = Some (fnv h l).
Proof.
  intros ->. revert p h. induction l as [|b l IH]; intros p h.
  - rewrite forZ_empty; [done|]. autorewrite with buf. lia.
  - rewrite forZ_step by solve_len. rewrite rd_app_0. bsimpl. change (rd ((b :: l) ++ q) 0) with (Some b). bsimpl.
    specialize (IH (p ++ [b]) (fnv_step h b)). rewrite zlen_app, <- app_assoc in IH.
    change (zlen [b]) with 1 in IH. simpl app in *. rewrite zlen_cons, Z.add_assoc. exact IH.
Qed.

Lemma fnv31_i32 l : is_i32 (fnv31 l).
Proof.
  unfold is_i32, fnv31. pose proof (Z.mod_pos_bound (fnv GARRY_FNV1A_OFFSET_BASIS l) (2 ^ 31)). lia.
Qed.

Lemma compute_checksum_fnv l q :
  zlen l = GARRY_HEADER_CHECKSUM_LEN -> garry_compute_header_checksum (l ++ q) = Some (fnv31 l).
Proof.
  intros Hl. unfold garry_compute_header_checksum.
  change (forZ 0 GARRY_HEADER_CHECKSUM_LEN _ _) with
    (forZ (zlen (@nil Z)) GARRY_HEADER_CHECKSUM_LEN
       (fun i h => b ← rd ([] ++ l ++ q) i; Some (fnv_step h b)) GARRY_FNV1A_OFFSET_BASIS).
  rewrite fnv_loop by (rewrite Hl; done). bsimpl. f_equal.
  unfold GARRY_CHECKSUM_MASK. change 0x7FFFFFFF with (Z.ones 31). rewrite Z.land_ones by lia.
  apply i32_id, fnv31_i32.
Qed.

(** One byte step is a bijection of the low 31 bits: [xor] with a byte stays
    inside them and the prime is odd. *)
Lemma lxor_mod31 h b : is_byte b -> Z.lxor h b mod 2 ^ 31 = Z.lxor (h mod 2 ^ 31) b.
Proof.
  unfold is_byte. intros Hb. apply Z.bits_inj'. intros n Hn.
  rewrite Z.lxor_spec. destruct (decide (n < 31)).
  - by rewrite !Z.mod_pow2_bits_low, Z.lxor_spec by lia.
  - rewrite !Z.mod_pow2_bits_high by lia.
    rewrite <- (Z.mod_small b (2 ^ 31)), Z.mod_pow2_bits_high by lia. done.
Qed.

Lemma fnv_prime_inverse x : (x * GARRY_FNV1A_PRIME * 899433627) mod 2 ^ 31 = x mod 2 ^ 31.
Proof.
  rewrite <- Z.mul_assoc, <- Z.mul_mod_idemp_r by lia.
  by replace (GARRY_FNV1A_PRIME * 899433627 mod 2 ^ 31) with 1 by (vm_compute; done); rewrite Z.mul_1_r.
Qed.

Lemma fnv_step_inj h k b c :
  is_byte b -> is_byte c -> fnv_step h b mod 2 ^ 31 = fnv_step k c mod 2 ^ 31 ->
  Z.lxor (h mod 2 ^ 31) b = Z.lxor (k mod 2 ^ 31) c.
Proof.
  intros Hb Hc. rewrite <- !lxor_mod31 by done. unfold fnv_step, u32.
  rewrite !Z.mod_mod_divide by (by exists 2).
  intros H. rewrite <- (fnv_prime_inverse (Z.lxor h b)), <- (fnv_prime_inverse (Z.lxor k c)).
  by rewrite <- (Z.mul_mod_idemp_l (Z.lxor h b * _)), H, Z.mul_mod_idemp_l by lia.
Qed.

Lemma lxor_inj_r x y b : Z.lxor x b = Z.lxor y b -> x = y.
Proof.
  intros H%(f_equal (fun z => Z.lxor z b)).
  by rewrite !Z.lxor_assoc, Z.lxor_nilpotent, !Z.lxor_0_r in H.
Qed.

Lemma lxor_inj_l x b c : Z.lxor x b = Z.lxor x c -> b = c.
Proof. rewrite !(Z.lxor_comm x). apply lxor_inj_r. Qed.

Lemma fnv_tail h k l :
  Forall is_byte l -> fnv h l mod 2 ^ 31 = fnv k l mod 2 ^ 31 -> h mod 2 ^ 31 = k mod 2 ^ 31.
Proof.
  intros Hl. revert h k. induction Hl as [|b l Hb Hl IH]; intros h k; [done|].
  cbn. intros H%IH. by apply fnv_step_inj, lxor_inj_r in H.
Qed.

Lemma fnv31_one_byte p b c t :
  is_byte b -> is_byte c -> Forall is_byte t ->
  fnv31 (p ++ b :: t) = fnv31 (p ++ c :: t) -> b = c.
Proof.
  intros Hb Hc Ht. unfold fnv31, fnv. rewrite !fold_left_app. cbn.
  intros H%fnv_tail; [|done]. by apply fnv_step_inj, lxor_inj_l in H.
Qed.

(** * The bytes of a header *)

Definition hdr_fields (h : garry_db_header) : list Z :=
  [magic h; version h; page_size h; db_compression h; root_page h; free_list_head h;
   total_pages h; max_txns h; max_versions h; max_key_size h; max_subscripts h; btree_flags h;
   next_txid h].

Definition hdr_i32 (h : garry_db_header) : Prop := Forall is_i32 (hdr_fields h).

Definition set_checksum (h : garry_db_header) (c : Z) : garry_db_header :=
  DbHeader (magic h) (version h) (page_size h) (db_compression h) (root_page h) (free_list_head h)
    (total_pages h) (max_txns h) (max_versions h) (max_key_size h) (max_subscripts h)
    (btree_flags h) (next_txid h) c.

(** Splitting the first [n] elements off a buffer. *)
Lemma split_at {A} (b : list A) n : 0 <= n <= zlen b -> exists l q, b = l ++ q /\ zlen l = n.
Proof.
  intros. exists (take (Z.to_nat n) b), (drop (Z.to_nat n) b). rewrite take_drop.
  split; [done|]. unfold zlen in *. rewrite length_take. lia.
Qed.

Lemma fields_13 a b c d e f g h i j k l m :
  le32 a ++ le32 b ++ le32 c ++ le32 d ++ le32 e ++ le32 f ++ le32 g ++ le32 h ++ le32 i ++
  le32 j ++ le32 k ++ le32 l ++ le32 m = fields [a; b; c; d; e; f; g; h; i; j; k; l; m].
Proof. unfold fields. cbn [map concat]. by rewrite app_nil_r. Qed.

Lemma write_fields_13 {B} buf a b c d e f g h i j k l m (K : list Z -> option B) :
  (buf ← garry_write_int32 buf 0 a; buf ← garry_write_int32 buf 4 b;
   buf ← garry_write_int32 buf 8 c; buf ← garry_write_int32 buf 12 d;
   buf ← garry_write_int32 buf 16 e; buf ← garry_write_int32 buf 20 f;
   buf ← garry_write_int32 buf 24 g; buf ← garry_write_int32 buf 28 h;
   buf ← garry_write_int32 buf 32 i; buf ← garry_write_int32 buf 36 j;
   buf ← garry_write_int32 buf 40 k; buf ← garry_write_int32 buf 44 l;
   buf ← garry_write_int32 buf 48 m; K buf) =
  (buf ← blit buf 0 (fields [a; b; c; d; e; f; g; h; i; j; k; l; m]); K buf).
Proof.
  unfold garry_write_int32. setoid_rewrite write_le32_blit.
  repeat rewrite blit_blit_k by blits_len. by rewrite <- !app_assoc, fields_13.
Qed.

Lemma write_checksum_field p l2 q cs :
  zlen p = 52 -> zlen l2 = 4 ->
  garry_write_int32 (p ++ l2 ++ q) 52 cs = Some (p ++ fields [cs] ++ q).
Proof.
  intros Hp Hl. unfold garry_write_int32. rewrite write_le32_blit.
  change (fields [cs]) with (le32 cs). apply blit_app; [lia|]. rewrite zlen_le32. lia.
Qed.

Lemma write_db_header_eq buf h :
  garry_write_db_header buf h =
    (buf ← blit buf 0 (fields (hdr_fields h));
     cs ← garry_compute_header_checksum buf; garry_write_int32 buf 52 cs).
Proof. unfold garry_write_db_header. rewrite write_fields_13. reflexivity. Qed.

Lemma write_block_checksum (p l1 l2 q : list Z) :
  zlen l1 = 52 -> zlen l2 = 4 -> zlen p = 52 ->
  (buf ← blit (l1 ++ l2 ++ q) 0 p;
   cs ← garry_compute_header_checksum buf; garry_write_int32 buf 52 cs) =
  Some (p ++ fields [fnv31 p] ++ q).
Proof.
  intros Hl1 Hl2 Hp.
  assert (Hb : blit (l1 ++ l2 ++ q) 0 p = Some (p ++ l2 ++ q))
    by (apply (blit_app []); [done|lia]).
  rewrite Hb. cbn [mbind option_bind].
  rewrite compute_checksum_fnv by exact Hp. cbn [mbind option_bind].
  apply write_checksum_field; lia.
Qed.

Lemma zlen_hdr_fields h : zlen (fields (hdr_fields h)) = 52.
Proof. by rewrite zlen_fields. Qed.

Lemma write_db_header_bytes buf h :
  GARRY_HEADER_SIZE <= zlen buf ->
  exists q, garry_write_db_header buf h =
    Some (fields (hdr_fields h ++ [fnv31 (fields (hdr_fields h))]) ++ q) /\
    zlen q = zlen buf - GARRY_HEADER_SIZE.
Proof.
  unfold GARRY_HEADER_SIZE. intros Hb. rewrite write_db_header_eq.
  destruct (split_at buf 56) as (l & q & -> & Hl); [lia|].
  destruct (split_at l 52) as (l1 & l2 & -> & Hl1); [lia|]. rewrite zlen_app in Hl.
  exists q. rewrite <- app_assoc, fields_app, <- app_assoc.
  split; [apply write_block_checksum; [done|lia|apply zlen_hdr_fields]|solve_len].
Qed.

(** Reading looks at the thirteen fields and the checksum only. *)
Lemma read_db_header_fields h c q :
  hdr_i32 h -> is_i32 c ->
  garry_read_db_header (fields (hdr_fields h ++ [c]) ++ q) =
    Some (if decide (c = fnv31 (fields (hdr_fields h))) then set_checksum h c
          else set_magic (set_checksum h c) 0).
Proof.
  intros Hh Hc. unfold garry_read_db_header, garry_read_int32.
  assert (HF : Forall is_i32 (hdr_fields h ++ [c])) by (apply Forall_app; auto).
  assert (Hcs : garry_compute_header_checksum (fields (hdr_fields h ++ [c]) ++ q) =
                Some (fnv31 (fields (hdr_fields h)))).
  { rewrite fields_app, <- app_assoc. apply compute_checksum_fnv, zlen_hdr_fields. }
  rewrite Hcs. clear Hcs. generalize (fnv31 (fields (hdr_fields h))) as cs. intros cs.
  set (fs := hdr_fields h ++ [c]) in *.
  assert (Hr : forall i off v, rd fs i = Some v -> off = 4 * i ->
            garry_read_le32 (fields fs ++ q) off = Some v) by (intros; by eapply read_fields_id).
  rewrite (Hr 0 0 (magic h)), (Hr 1 4 (version h)), (Hr 2 8 (page_size h)),
    (Hr 3 12 (db_compression h)), (Hr 4 16 (root_page h)), (Hr 5 20 (free_list_head h)),
    (Hr 6 24 (total_pages h)), (Hr 7 28 (max_txns h)), (Hr 8 32 (max_versions h)),
    (Hr 9 36 (max_key_size h)), (Hr 10 40 (max_subscripts h)), (Hr 11 44 (btree_flags h)),
    (Hr 12 48 (next_txid h)), (Hr 13 52 c) by reflexivity.
  cbn [mbind option_bind]. by repeat case_decide.
Qed.

Lemma le32_val_inj a0 a1 a2 a3 b0 b1 b2 b3 :
  Forall is_byte [a0; a1; a2; a3] -> Forall is_byte [b0; b1; b2; b3] ->
  le32_val a0 a1 a2 a3 = le32_val b0 b1 b2 b3 ->
  [a0; a1; a2; a3] = [b0; b1; b2; b3].
Proof.
  unfold le32_val, i32, is_byte. intros Ha Hb. decompose_Forall_hyps. intros Heq.
  rewrite !(Z.mod_eq _ (2 ^ 32)) in Heq by lia.
  set (x := (_ + 16777216 * a3 + 2 ^ 31) / 2 ^ 32) in *.
  set (y := (_ + 16777216 * b3 + 2 ^ 31) / 2 ^ 32) in *.
  clearbody x y. assert (a0 = b0) by lia. assert (a1 = b1) by lia. assert (a2 = b2) by lia.
  assert (a3 = b3) by lia. by subst.
Qed.

(** A header buffer is a block of 52 checksummed bytes and the four bytes of
    the stored checksum. *)
Lemma read_db_header_split l c0 c1 c2 c3 q :
  zlen l = GARRY_HEADER_CHECKSUM_LEN -> Forall is_byte l -> Forall is_byte [c0; c1; c2; c3] ->
  exists h, garry_read_db_header (l ++ [c0; c1; c2; c3] ++ q) =
    Some (if decide (le32_val c0 c1 c2 c3 = fnv31 l) then h else set_magic h 0).
Proof.
  intros Hl HF Hc. unfold garry_read_db_header, garry_read_int32.
  rewrite compute_checksum_fnv by done. generalize (fnv31 l) as cs. intros cs.
  assert (Hf : forall off, 0 <= off <= 48 ->
    exists v, garry_read_le32 (l ++ [c0; c1; c2; c3] ++ q) off = Some v).
  { intros off Hoff. unfold GARRY_HEADER_CHECKSUM_LEN in Hl.
    destruct (read_le32_Some l off HF) as (v & Hv & _); [lia..|]. exists v. rewrite <- Hv.
    apply read_le32_ext. intros i Hi. by rewrite rd_app_l by lia. }
  repeat match goal with |- context [garry_read_le32 ?b ?o] =>
    assert_fails (constr_eq o 52);
    destruct (Hf o ltac:(lia)) as (? & ->); cbn [mbind option_bind] end.
  rewrite (read_le32_bytes _ 52 c0 c1 c2 c3); [|by apply slice_app|done].
  cbn [mbind option_bind].
  match goal with |- context [Some (set_magic ?h 0)] => exists h end.
  by repeat case_decide.
Qed.

(** Whether a buffer is accepted depends on the stored checksum alone. *)
Lemma accepted_iff l c0 c1 c2 c3 q h :
  zlen l = GARRY_HEADER_CHECKSUM_LEN -> Forall is_byte l -> Forall is_byte [c0; c1; c2; c3] ->
  garry_read_db_header (l ++ [c0; c1; c2; c3] ++ q) = Some h -> magic h <> 0 ->
  le32_val c0 c1 c2 c3 = fnv31 l.
Proof.
  intros Hl HF Hc Hr Hm. destruct (read_db_header_split l c0 c1 c2 c3 q Hl HF Hc) as (h' & E).
  rewrite E in Hr. injection Hr as <-. by case_decide.
Qed.

Lemma rejected l c0 c1 c2 c3 q :
  zlen l = GARRY_HEADER_CHECKSUM_LEN -> Forall is_byte l -> Forall is_byte [c0; c1; c2; c3] ->
  le32_val c0 c1 c2 c3 <> fnv31 l ->
  exists h, garry_read_db_header (l ++ [c0; c1; c2; c3] ++ q) = Some h /\ magic h = 0.
Proof.
  intros Hl HF Hc Hne. destruct (read_db_header_split l c0 c1 c2 c3 q Hl HF Hc) as (h' & E).
  rewrite E, decide_False by done. eauto.
Qed.

(** One changed byte, in the block or in the stored checksum. *)
Lemma changed_block l c0 c1 c2 c3 (n : nat) b :
  Forall is_byte l -> is_byte b -> (n < length l)%nat -> l !! n <> Some b ->
  le32_val c0 c1 c2 c3 = fnv31 l -> le32_val c0 c1 c2 c3 <> fnv31 (<[n:=b]> l).
Proof.
  intros HF Hb Hn Hne -> Heq. destruct (lookup_lt_is_Some_2 l n Hn) as [x Hx].
  rewrite insert_take_drop in Heq by done. rewrite <- (take_drop_middle l n x Hx) in Heq at 1.
  apply fnv31_one_byte in Heq; [congruence| |done|by apply Forall_drop].
  by eapply Forall_lookup_1.
Qed.

Lemma changed_checksum c0 c1 c2 c3 d0 d1 d2 d3 v (n : nat) b :
  Forall is_byte [c0; c1; c2; c3] -> is_byte b -> (n < 4)%nat ->
  [c0; c1; c2; c3] !! n <> Some b -> <[n:=b]> [c0; c1; c2; c3] = [d0; d1; d2; d3] ->
  le32_val c0 c1 c2 c3 = v -> le32_val d0 d1 d2 d3 <> v /\ Forall is_byte [d0; d1; d2; d3].
Proof.
  intros HF Hb Hn Hne Hd <-.
  assert (HF' : Forall is_byte [d0; d1; d2; d3]) by (rewrite <- Hd; by apply Forall_insert).
  split; [|done]. intros Heq%le32_val_inj; [|done..]. rewrite <- Hd in Heq. apply Hne.
  rewrite <- Heq. apply list_lookup_insert_eq. done.
Qed.

(** * Properties *)

Lemma db_header_spec buf h
  (Hb : GARRY_HEADER_SIZE <= zlen buf) (Hh : hdr_i32 h) :
  exists buf' c, garry_write_db_header buf h = Some buf' /\ zlen buf' = zlen buf /\
    garry_compute_header_checksum buf' = Some c /\
    garry_read_db_header buf' = Some (set_checksum h c) /\
    garry_validate_db_header (set_checksum h c) = garry_validate_db_header h.
Proof.
  destruct (write_db_header_bytes buf h Hb) as (q & -> & Hq).
  exists (fields (hdr_fields h ++ [fnv31 (fields (hdr_fields h))]) ++ q), (fnv31 (fields (hdr_fields h))).
  split; [done|]. split.
  { rewrite zlen_app, zlen_fields, zlen_app, Hq. change (zlen (hdr_fields h)) with 13.
    change (zlen [_]) with 1. unfold GARRY_HEADER_SIZE. lia. }
  split; [|split; [|done]].
  - rewrite fields_app, <- app_assoc. apply compute_checksum_fnv, zlen_hdr_fields.
  - rewrite read_db_header_fields by (done || apply fnv31_i32). by rewrite decide_True.
Qed.

(** A header whose fields are 32-bit integers, written into any buffer of at
    least 56 bytes, reads back field by field with the checksum of its 52 bytes
    filled in, is validated exactly when the original is, and the rest of the
    buffer is not touched. *)
Theorem db_header_roundtrip buf h
  (Hb : GARRY_HEADER_SIZE <= zlen buf) (Hh : hdr_i32 h) :
  exists buf' c, garry_write_db_header buf h = Some buf' /\ zlen buf' = zlen buf /\
    garry_compute_header_checksum buf' = Some c /\
    garry_read_db_header buf' = Some (set_checksum h c) /\
    garry_validate_db_header (set_checksum h c) = garry_validate_db_header h.
Proof. exact (db_header_spec buf h Hb Hh). Qed.

Definition sample_header : garry_db_header := garry_create_db_header garry_default_engine_settings.

Lemma db_header_roundtrip_witness :
  exists buf' c, garry_write_db_header (zeros 64) sample_header = Some buf' /\
    zlen buf' = 64 /\ garry_compute_header_checksum buf' = Some c /\
    garry_read_db_header buf' = Some (set_checksum sample_header c) /\
    garry_validate_db_header (set_checksum sample_header c) = true.
Proof.
  apply (db_header_roundtrip (zeros 64) sample_header).
  - vm_compute. congruence.
  - repeat (constructor; [vm_compute; split; congruence|]). constructor.
Defined.

(** Corruption of any single byte of an accepted header, in its fields or in
    the checksum itself, is detected: the header then reads with magic 0, which
    validation refuses. *)
Theorem header_corruption_detected buf buf' h i b
  (Hb : Forall is_byte buf) (Hlen : GARRY_HEADER_SIZE <= zlen buf)
  (Hr : garry_read_db_header buf = Some h) (Hv : garry_validate_db_header h = true)
  (Hi : 0 <= i < GARRY_HEADER_SIZE) (Hbyte : is_byte b) (Hne : rd buf i <> Some b)
  (Hw : wr buf i b = Some buf') :
  exists h', garry_read_db_header buf' = Some h' /\ magic h' = 0 /\
             garry_validate_db_header h' = false.
Proof.
  unfold GARRY_HEADER_SIZE in *.
  enough (H : exists h', garry_read_db_header buf' = Some h' /\ magic h' = 0).
  { destruct H as (h' & E & Hm). exists h'. split; [done|]. split; [done|].
    unfold garry_validate_db_header. rewrite Hm. done. }
  assert (Hm : magic h <> 0).
  { unfold garry_validate_db_header, GARRY_DB_MAGIC in Hv. case_decide; [done|]. lia. }
  destruct (split_at buf 56) as (l & q & -> & Hl); [lia|].
  destruct (split_at l 52) as (l1 & l2 & -> & Hl1); [lia|]. rewrite zlen_app in Hl.
  do 4 (destruct l2 as [|? l2]; [solve_len|]). destruct l2; [|solve_len].
  rewrite <- app_assoc in *. apply Forall_app in Hb as [HB1 HB2].
  apply Forall_app in HB2 as [HB2 HB3]. 
  pose proof (accepted_iff _ _ _ _ _ _ _ Hl1 HB1 HB2 Hr Hm) as Hcs.
  rewrite wr_Some in Hw by solve_len. injection Hw as <-.
  unfold rd in Hne. rewrite decide_True in Hne by lia.
  unfold GARRY_HEADER_CHECKSUM_LEN, zlen in Hl1. destruct (decide (i < 52)).
  - rewrite lookup_app_l in Hne by lia. rewrite insert_app_l by lia.
    apply rejected; [unfold zlen; by rewrite length_insert| |done|].
    + by apply Forall_insert.
    + apply changed_block; [done..|lia|done|done].
  - rewrite lookup_app_r, lookup_app_l in Hne by (simpl; lia).
    rewrite insert_app_r_alt by (simpl; lia).
    change (z :: z0 :: z1 :: z2 :: q) with ([z; z0; z1; z2] ++ q).
    rewrite insert_app_l by (simpl; lia).
    assert (Hk : (Z.to_nat i - length l1 < 4)%nat) by lia.
    set (k := (Z.to_nat i - length l1)%nat) in *. clearbody k.
    destruct (<[k:=b]> [z; z0; z1; z2]) as [|d0 [|d1 [|d2 [|d3 [|]]]]] eqn:Hd;
      try (apply (f_equal length) in Hd; rewrite length_insert in Hd; discriminate).
    destruct (changed_checksum _ _ _ _ _ _ _ _ _ _ _ HB2 Hbyte Hk Hne Hd Hcs).
    by apply rejected.
Qed.

Definition sample_header_page : list Z :=
  default [] (garry_write_db_header (zeros 64) sample_header).

Lemma header_corruption_detected_witness :
  exists buf' h', wr sample_header_page 17 4 = Some buf' /\
    garry_read_db_header buf' = Some h' /\ magic h' = 0 /\ garry_validate_db_header h' = false.
Proof.
  exists (default [] (wr sample_header_page 17 4)).
  destruct (header_corruption_detected sample_header_page (default [] (wr sample_header_page 17 4))
    (default sample_header (garry_read_db_header sample_header_page)) 17 4)
    as (h' & Hr & Hm & Hv).
  - change (Forall is_byte sample_header_page).
    apply (bool_decide_unpack _). vm_compute. exact I.
  - vm_compute. congruence.
  - vm_compute. reflexivity.
  - vm_compute. reflexivity.
  - unfold GARRY_HEADER_SIZE. lia.
  - split; lia.
  - vm_compute. congruence.
  - vm_compute. reflexivity.
  - exists h'. split; [vm_compute; reflexivity|]. split; [exact Hr|]. split; [exact Hm|exact Hv].
Defined.

(** The header made from engine settings is accepted by validation exactly
    when the page size is a multiple of 512 between 512 and 65536 and both
    limits are positive; other settings give a header that is refused. *)
Theorem create_header_valid_iff s :
  garry_validate_db_header (garry_create_db_header s) = true <->
  (512 <= es_page_size s <= 65536 /\ (512 | es_page_size s) /\
   0 < es_max_txns s /\ 0 < es_max_versions s).
Proof.
  rewrite <- Z.mod_divide by lia.
  unfold garry_create_db_header, GARRY_MIN_PAGE_SIZE, GARRY_MAX_PAGE_SIZE.
  case_decide as Hs; unfold garry_validate_db_header, GARRY_MIN_PAGE_SIZE, GARRY_MAX_PAGE_SIZE; simpl.
  - destruct Hs as (?&?&Hs). rewrite Z.rem_mod_nonneg in Hs by lia.
    repeat case_decide; split; try done; lia.
  - split; [done|]. intros (?&?&?&?). destruct Hs. rewrite Z.rem_mod_nonneg by lia. lia.
Qed.
