(* ===== verification/Lz4.v ===== *)
(** LZ4 block compression, [src/src/lz4.c]: greedy hash-based matching, and a
    decoder that checks every bound.  The theorems are that the compressor
    stays inside the bound it allocates and that decoding its output gives the
    input back, and that the decoder is safe on arbitrary input. *)

From S2P Require Import Prelude.

Definition LZ4_MAX_INPUT_SIZE : Z := 65536.
Definition HASH_TABLE_SIZE : Z := 32768.
Definition MIN_MATCH : Z := 4.
Definition MAX_MATCH : Z := 65536.

Definition lz4_byte_to_int (b : Z) : Z := u8 b.

Definition lz4_compress_bound (src_len : Z) : Z :=
  if decide (src_len > LZ4_MAX_INPUT_SIZE) then 0
  else src_len + Z.quot src_len 255 + 16.

(** * Match search *)

(** [while (len < max_cmp && src[s + len] == src[ip + len]) len++;] *)
Definition match_length (src : list Z) (s ip max_cmp : Z) : option Z :=
  r ← scan 0 max_cmp (fun len =>
        x ← rd src (s + len);
        y ← rd src (ip + len);
        Some (if decide (x = y) then None else Some len));
  Some (default max_cmp r).

(** The loop over the candidates [s]; its state is [(s, best_len, best_off)]. *)
Definition match_search (src : list Z) (src_len ip min_match limit idx : Z)
  : option (Z * Z * Z) :=
  while (Z.to_nat ip)
    (fun '(s, best_len, best_off) => bool_decide (s < ip /\ best_len < limit))
    (fun '(s, best_len, best_off) =>
       let max_cmp := ip - s in
       let max_cmp := if decide (max_cmp > limit) then limit else max_cmp in
       let max_cmp := if decide (max_cmp > src_len - ip) then src_len - ip else max_cmp in
       len ← match_length src s ip max_cmp;
       if decide (len >= min_match /\ len > best_len) then Some (s + 1, len, ip - s)
       else Some (s + 1, best_len, best_off))
    (idx, 0, 0).

(** Returns the hash table, [*match_off] and [*match_len]. *)
Definition lz77_match_find (src : list Z) (src_len ip : Z) (hash_table : list Z)
    (min_match max_match : Z) : option (list Z * Z * Z) :=
  if decide (ip + min_match > src_len) then Some (hash_table, 0, 0) else
  c0 ← rd src ip;
  c1 ← rd src (ip + 1);
  let h := Z.lxor (Z.shiftl (u8 c0) 8) (u8 c1) in
  c2 ← rd src (ip + 2);
  let h := Z.land (Z.lxor (Z.shiftl h 8) (u8 c2)) (HASH_TABLE_SIZE - 1) in
  idx ← rd hash_table h;
  if decide (idx < 0 \/ idx >= ip) then
    hash_table ← wr hash_table h ip;
    Some (hash_table, 0, 0)
  else
    let limit := if decide (ip > max_match) then max_match else ip in
    '(_, best_len, best_off) ← match_search src src_len ip min_match limit idx;
    hash_table ← wr hash_table h ip;
    if decide (best_len >= min_match) then Some (hash_table, best_off, best_len)
    else Some (hash_table, 0, 0).

(** * Compression *)

(** The length extension after a nibble of 15. *)
Definition emit_ext (out_buf : list Z) (op ext : Z) : option (list Z * Z) :=
  if decide (ext >= 15) then
    '(out_buf, op, ext) ←
      while (Z.to_nat ext) (fun '(_, _, ext) => bool_decide (ext >= 255))
        (fun '(out_buf, op, ext) =>
           out_buf ← wr out_buf op (u8 255); Some (out_buf, op + 1, ext - 255))
        (out_buf, op, ext - 15);
    out_buf ← wr out_buf op (u8 ext);
    Some (out_buf, op + 1)
  else Some (out_buf, op).

(** The literal copy; the code advances [op] and [anchor] with the loop. *)
Definition emit_literals (out_buf : list Z) (op : Z) (src : list Z) (anchor lit_len : Z)
  : option (list Z) :=
  copy_loop out_buf op src anchor lit_len.

(** One sequence: literals, offset, match length, and the token last. *)
Definition emit_sequence (src : list Z) (ip anchor match_off match_len : Z)
    (out_buf : list Z) (op : Z) : option (list Z * Z) :=
  let offset := match_off in
  let lit_len := ip - anchor in
  let match_len := match_len - MIN_MATCH in
  let token_pos := op in
  let op := op + 1 in
  '(out_buf, op) ← emit_ext out_buf op lit_len;
  out_buf ← emit_literals out_buf op src anchor lit_len;
  let op := op + lit_len in
  out_buf ← wr out_buf op (u8 (Z.rem offset 256));
  out_buf ← wr out_buf (op + 1) (u8 (Z.quot offset 256));
  let op := op + 2 in
  '(out_buf, op) ← emit_ext out_buf op match_len;
  out_buf ←
    (if decide (lit_len > 15) then
       if decide (match_len > 15) then wr out_buf token_pos (u8 (15 * 16 + 15))
       else wr out_buf token_pos (u8 (15 * 16 + match_len))
     else
       if decide (match_len > 15) then wr out_buf token_pos (u8 (lit_len * 16 + 15))
       else wr out_buf token_pos (u8 (lit_len * 16 + match_len)));
  Some (out_buf, op).

(** The last literals, also the whole output for inputs below 12 bytes. *)
Definition emit_last (src : list Z) (anchor lit_len : Z) (out_buf : list Z) (op : Z)
  : option (list Z * Z) :=
  let token_pos := op in
  let op := op + 1 in
  '(out_buf, op) ← emit_ext out_buf op lit_len;
  out_buf ←
    (if decide (lit_len > 15) then wr out_buf token_pos (u8 (15 * 16))
     else wr out_buf token_pos (u8 (lit_len * 16)));
  out_buf ← emit_literals out_buf op src anchor lit_len;
  Some (out_buf, op + lit_len).

Definition compress_state : Type := list Z * list Z * Z * Z * Z.

(** The main loop; its state is [(hash_table, out_buf, ip, anchor, op)]. *)
Definition compress_loop (src : list Z) (src_len ip_limit : Z) (st : compress_state)
  : option compress_state :=
  while (Z.to_nat src_len) (fun '(_, _, ip, _, _) => bool_decide (ip < ip_limit))
    (fun '(hash_table, out_buf, ip, anchor, op) =>
       '(hash_table, match_off, match_len) ←
         lz77_match_find src src_len ip hash_table MIN_MATCH MAX_MATCH;
       if decide (match_len >= MIN_MATCH) then
         '(out_buf, op) ← emit_sequence src ip anchor match_off match_len out_buf op;
         let ip := ip + match_len in
         Some (hash_table, out_buf, ip, ip, op)
       else Some (hash_table, out_buf, ip + 1, anchor, op))
    st.

(** [malloc_out] and [malloc_table] are the results of the two allocations: the
    output buffer with arbitrary contents, and whether the table was obtained.
    The result is the returned buffer, [None] for [NULL], and [*out_len]. *)
Definition lz4_compress (src : list Z) (src_len : Z) (malloc_out : Z -> option (list Z))
    (malloc_table : bool) : option (option (list Z) * Z) :=
  if decide (src_len = 0 \/ src_len > LZ4_MAX_INPUT_SIZE) then Some (None, 0) else
  let max_out := lz4_compress_bound src_len in
  match malloc_out (max_out + 1) with
  | None => Some (None, 0)
  | Some out_buf =>
      if malloc_table then
        let hash_table := replicate (Z.to_nat HASH_TABLE_SIZE) (-1) in
        if decide (src_len < 12) then
          '(out_buf, op) ← emit_last src 0 src_len out_buf 0;
          Some (Some out_buf, op)
        else
          '(_, out_buf, _, anchor, op) ←
            compress_loop src src_len (src_len - 12) (hash_table, out_buf, 0, 0, 0);
          let lit_len := src_len - anchor in
          '(out_buf, op) ← emit_last src anchor lit_len out_buf op;
          Some (Some out_buf, op)
      else Some (None, 0)
  end.

(** * Decompression

    An inner [None] is the exit that frees the buffer and returns [NULL]. *)

(** The extension bytes of a length; each of the two places in the decoder
    tests the input bound before every byte. *)
Fixpoint read_ext (fuel : nat) (src : list Z) (ip ip_limit len : Z) : option (option (Z * Z)) :=
  match fuel with
  | O => None
  | S fuel =>
      if decide (ip >= ip_limit) then Some None
      else
        b ← rd src ip;
        let ext := lz4_byte_to_int b in
        let ip := ip + 1 in
        let len := len + ext in
        if decide (ext = 255) then read_ext fuel src ip ip_limit len
        else Some (Some (len, ip))
  end.

Definition read_length (src : list Z) (ip ip_limit len : Z) : option (option (Z * Z)) :=
  if decide (len = 15) then read_ext (Z.to_nat (ip_limit - ip + 1)) src ip ip_limit len
  else Some (Some (len, ip)).

(** The literal copy, one byte at a time. *)
Fixpoint copy_literals (lit_len : nat) (src : list Z) (ip ip_limit : Z) (out_buf : list Z)
    (op dst_capacity : Z) : option (option (list Z * Z * Z)) :=
  match lit_len with
  | O => Some (Some (out_buf, op, ip))
  | S lit_len =>
      if decide (op >= dst_capacity \/ ip >= ip_limit) then Some None
      else
        b ← rd src ip;
        out_buf ← wr out_buf op b;
        copy_literals lit_len src (ip + 1) ip_limit out_buf (op + 1) dst_capacity
  end.

(** The match copy, one byte at a time, so that a match may overlap its copy. *)
Fixpoint copy_match (match_len : nat) (offset : Z) (out_buf : list Z) (op dst_capacity : Z)
  : option (option (list Z * Z)) :=
  match match_len with
  | O => Some (Some (out_buf, op))
  | S match_len =>
      if decide (op >= dst_capacity) then Some None
      else
        out_buf ←
          (if decide (offset > 0 /\ offset <= op) then
             b ← rd out_buf (op - offset); wr out_buf op b
           else wr out_buf op 0);
        copy_match match_len offset out_buf (op + 1) dst_capacity
  end.

(** The result of the loop is the output buffer and [op]. *)
Fixpoint decompress_loop (fuel : nat) (src : list Z) (ip ip_limit : Z) (out_buf : list Z)
    (op dst_capacity : Z) : option (option (list Z * Z)) :=
  if decide (ip < ip_limit) then
    match fuel with
    | O => None
    | S fuel =>
        token ← lz4_byte_to_int <$> rd src ip;
        let ip := ip + 1 in
        let lit_len := Z.quot token 16 in
        let match_len := Z.rem token 16 in
        r ← read_length src ip ip_limit lit_len;
        match r with
        | None => Some None
        | Some (lit_len, ip) =>
            r ← copy_literals (Z.to_nat lit_len) src ip ip_limit out_buf op dst_capacity;
            match r with
            | None => Some None
            | Some (out_buf, op, ip) =>
                if decide (ip >= ip_limit) then Some (Some (out_buf, op))
                else if decide (ip + 2 > ip_limit) then Some None
                else
                  b0 ← rd src ip;
                  b1 ← rd src (ip + 1);
                  let offset := lz4_byte_to_int b0 + lz4_byte_to_int b1 * 256 in
                  let ip := ip + 2 in
                  if decide (offset = 0) then Some None
                  else
                    r ← read_length src ip ip_limit match_len;
                    match r with
                    | None => Some None
                    | Some (match_len, ip) =>
                        r ← copy_match (Z.to_nat (match_len + MIN_MATCH)) offset out_buf op
                              dst_capacity;
                        match r with
                        | None => Some None
                        | Some (out_buf, op) =>
                            decompress_loop fuel src ip ip_limit out_buf op dst_capacity
                        end
                    end
            end
        end
    end
  else Some (Some (out_buf, op)).

Definition lz4_decompress (src : list Z) (src_len dst_capacity : Z)
    (malloc_out : Z -> option (list Z)) : option (option (list Z) * Z) :=
  if decide (src_len = 0 \/ dst_capacity = 0) then Some (None, 0) else
  match malloc_out (dst_capacity + 1) with
  | None => Some (None, 0)
  | Some out_buf =>
      r ← decompress_loop (Z.to_nat src_len) src 0 src_len out_buf 0 dst_capacity;
      match r with
      | None => Some (None, 0)
      | Some (out_buf, op) => Some (Some out_buf, op)
      end
  end.

(** * Match search: what it returns is a match *)

Lemma match_length_spec src s ip max_cmp :
  0 <= s <= ip -> 0 <= max_cmp -> ip + max_cmp <= zlen src ->
  exists len, match_length src s ip max_cmp = Some len /\ 0 <= len <= max_cmp /\
    slice src s len = slice src ip len.
Proof.
  intros Hs Hm Hip. unfold match_length.
  set (body := fun len => x ← rd src (s + len); y ← rd src (ip + len);
                          Some (if decide (x = y) then None else Some len)).
  assert (Hx : forall i, 0 <= i < max_cmp -> exists x y, rd src (s + i) = Some x /\
      rd src (ip + i) = Some y /\ body i = Some (if decide (x = y) then None else Some i)).
  { intros i Hi. destruct (rd_is_Some src (s + i)) as [x Ex]; [lia|].
    destruct (rd_is_Some src (ip + i)) as [y Ey]; [lia|].
    exists x, y. unfold body. by rewrite Ex, Ey. }
  assert (Heq : forall i, 0 <= i < max_cmp -> body i = Some None -> rd src (s + i) = rd src (ip + i)).
  { intros i Hi. destruct (Hx i Hi) as (x & y & -> & -> & ->). by case_decide; simplify_eq. }
  destruct (scan_total 0 max_cmp body) as (r & -> & Hr).
  { intros i Hi. destruct (Hx i Hi) as (?&?&_&_&->). eauto. }
  destruct r as [k|]; simpl.
  - destruct Hr as (k' & Hk & Hk' & Hbef). exists k.
    destruct (Hx k' Hk) as (x & y & _ & _ & E). rewrite E in Hk'. case_decide; simplify_eq.
    split; [done|]. split; [lia|].
    apply slice_eq_rd; try lia. intros i Hi. apply Heq; [lia|]. by apply Hbef.
  - exists max_cmp. split; [done|]. split; [lia|].
    apply slice_eq_rd; try lia. intros i Hi. apply Heq; [lia|]. by apply Hr.
Qed.

(** A match of length [len] at distance [off]; it does not overlap its copy. *)
Definition is_match (src : list Z) (src_len ip off len : Z) : Prop :=
  0 < off <= ip /\ 0 <= len <= off /\ ip + len <= src_len /\
  slice src (ip - off) len = slice src ip len.

Lemma match_search_spec src src_len ip min_match limit idx :
  src_len <= zlen src -> 0 <= idx < ip -> ip <= src_len -> 0 < min_match -> 0 <= limit ->
  exists s len off, match_search src src_len ip min_match limit idx = Some (s, len, off) /\
    (len = 0 \/ is_match src src_len ip off len).
Proof.
  intros Hl Hidx Hip Hmin Hlim. unfold match_search.
  edestruct (while_inv (fun '(s, best_len, best_off) => 0 <= s <= ip /\
      (best_len = 0 \/ is_match src src_len ip best_off best_len)) (fun '(s, _, _) => ip - s)
    (Z.to_nat ip)) as ([[s len] off] & -> & H & _); cycle 3.
  - do 3 eexists. split; [done|]. apply H.
  - split; [lia|by left].
  - lia.
  - intros [[s best_len] best_off] [Hs Hbest] [Hc1 Hc2]%bool_decide_eq_true. split; [lia|].
    cbv zeta.
    set (mc := if decide _ then src_len - ip else _).
    assert (Hmc : 0 <= mc <= ip - s /\ ip + mc <= src_len)
      by (subst mc; repeat case_decide; lia).
    clearbody mc.
    destruct (match_length_spec src s ip mc) as (len & -> & Hlen & Heq); [lia..|].
    bsimpl. case_decide.
    + eexists. split; [done|]. simpl. split; [|lia]. split; [lia|]. right. unfold is_match.
      replace (ip - (ip - s)) with s by lia. split; [lia|]. split; [lia|]. split; [lia|done].
    + eexists. split; [done|]. simpl. split; [|lia]. split; [lia|done].
Qed.

Lemma hash_range x : 0 <= Z.land x (HASH_TABLE_SIZE - 1) < HASH_TABLE_SIZE.
Proof.
  unfold HASH_TABLE_SIZE. change (32768 - 1) with (Z.ones 15).
  rewrite Z.land_ones by lia. apply (Z.mod_pos_bound x (2 ^ 15)). lia.
Qed.

Lemma match_find_spec src src_len ip ht :
  src_len <= zlen src -> 0 <= ip < src_len -> zlen ht = HASH_TABLE_SIZE ->
  exists ht' off len,
    lz77_match_find src src_len ip ht MIN_MATCH MAX_MATCH = Some (ht', off, len) /\
    zlen ht' = HASH_TABLE_SIZE /\
    (len < MIN_MATCH \/ is_match src src_len ip off len /\ MIN_MATCH <= len).
Proof.
  intros Hl Hip Ht. unfold lz77_match_find, MIN_MATCH, MAX_MATCH.
  case_decide. { do 3 eexists. split; [done|]. split; [done|]. left. lia. }
  destruct (rd_is_Some src ip) as [c0 ->]; [lia|].
  destruct (rd_is_Some src (ip + 1)) as [c1 ->]; [lia|].
  destruct (rd_is_Some src (ip + 2)) as [c2 ->]; [lia|]. cbn [mbind option_bind].
  set (h := Z.land _ _). pose proof (hash_range (Z.lxor (Z.shiftl (Z.lxor (Z.shiftl (u8 c0) 8) (u8 c1)) 8) (u8 c2))) as Hh.
  fold h in Hh. clearbody h.
  destruct (rd_is_Some ht h) as [idx ->]; [lia|]. cbn [mbind option_bind].
  rewrite (wr_Some ht h ip) by lia. cbn [mbind option_bind].
  set (ht' := <[Z.to_nat h := ip]> ht).
  assert (Ht' : zlen ht' = HASH_TABLE_SIZE) by (subst ht'; by rewrite zlen_insert).
  case_decide. { do 3 eexists. split; [done|]. split; [done|]. left. lia. }
  destruct (match_search_spec src src_len ip 4 (if decide (ip > 65536) then 65536 else ip) idx)
    as (s & len & off & -> & Hm); [lia..|case_decide; lia|].
  cbn [mbind option_bind]. case_decide.
  - do 3 eexists. split; [done|]. split; [done|]. right. destruct Hm; [lia|]. split; [done|lia].
  - do 3 eexists. split; [done|]. split; [done|]. left. lia.
Qed.

(** * The block format *)

Definition enc_ext (v : Z) : list Z :=
  if decide (v < 15) then [] else replicate (Z.to_nat ((v - 15) / 255)) 255 ++ [(v - 15) mod 255].

Definition nibble (v : Z) : Z := Z.min v 15.

Definition enc_last (lits : list Z) : list Z :=
  [nibble (zlen lits) * 16] ++ enc_ext (zlen lits) ++ lits.

(** A sequence: literals, then a match of [sq_len] bytes at distance [sq_off]. *)
Record lz4_seq := Seq { sq_lits : list Z; sq_off : Z; sq_len : Z }.

Definition enc_seq (q : lz4_seq) : list Z :=
  [nibble (zlen (sq_lits q)) * 16 + nibble (sq_len q - 4)] ++ enc_ext (zlen (sq_lits q)) ++
  sq_lits q ++ [sq_off q mod 256; sq_off q / 256] ++ enc_ext (sq_len q - 4).

Lemma zlen_enc_ext v : 0 <= v -> zlen (enc_ext v) = if decide (v < 15) then 0 else 1 + (v - 15) / 255.
Proof.
  intros. unfold enc_ext. case_decide; [done|]. pose proof (Z.div_pos (v - 15) 255). solve_len.
Qed.

Lemma enc_ext_loop (k : nat) fuel out op ext :
  Z.of_nat k = ext / 255 -> 0 <= ext -> (k <= fuel)%nat -> 0 <= op <= zlen out ->
  while fuel (fun '(_, _, ext) => bool_decide (ext >= 255))
    (fun '(out_buf, op, ext) =>
       out_buf ← wr out_buf op (u8 255); Some (out_buf, op + 1, ext - 255)) (out, op, ext) =
  (fun o => (o, op + Z.of_nat k, ext mod 255)) <$> blit out op (replicate k 255).
Proof.
  revert fuel out op ext. induction k as [|k IH]; intros fuel out op ext Hk Hext Hf Hop.
  - cbn [replicate]. rewrite blit_nil by done. pose proof (Z.div_mod ext 255). pose proof (Z.mod_pos_bound ext 255).
    assert (Hc : bool_decide (ext >= 255) = false) by (apply bool_decide_eq_false; lia).
    destruct fuel; simpl; rewrite Hc; rewrite Z.add_0_r, (Z.mod_small ext 255) by lia; done.
  - destruct fuel as [|fuel]; [lia|]. cbn [while].
    assert (Hc : bool_decide (ext >= 255) = true).
    { apply bool_decide_eq_true. pose proof (Z.div_mod ext 255). pose proof (Z.mod_pos_bound ext 255). lia. }
    rewrite Hc. change (u8 255) with 255. rewrite wr_blit.
    change (replicate (S k) 255) with ([255] ++ replicate k 255).
    rewrite <- (blit_blit out op [255] (op + 1)) by done.
    destruct (blit out op [255]) as [o|] eqn:E; [|done]. cbn [mbind option_bind].
    pose proof (blit_zlen _ _ _ _ E). apply blit_inv in E as (p & g & q & -> & ? & Hg & ->).
    change (zlen [255]) with 1 in Hg.
    assert (E2 : (ext - 255) / 255 = ext / 255 - 1).
    { replace (ext - 255) with (ext + (-1) * 255) by lia. rewrite Z.div_add by lia. lia. }
    rewrite IH; [|lia|pose proof (Z.div_mod ext 255); pose proof (Z.mod_pos_bound ext 255); lia|lia|solve_len].
    assert (E3 : (ext - 255) mod 255 = ext mod 255).
    { replace (ext - 255) with (ext + (-1) * 255) by lia. apply Z_mod_plus_full. }
    rewrite E3. destruct (blit _ (op + 1) _); [|done]. simpl. do 3 f_equal. lia.
Qed.

Lemma emit_ext_blit out op ext :
  0 <= ext -> 0 <= op <= zlen out ->
  emit_ext out op ext = (fun o => (o, op + zlen (enc_ext ext))) <$> blit out op (enc_ext ext).
Proof.
  intros Hext Hop. rewrite zlen_enc_ext by done. unfold emit_ext, enc_ext.
  destruct (decide (ext < 15)).
  - rewrite decide_False by lia. rewrite blit_nil by done. simpl. do 2 f_equal. lia.
  - rewrite decide_True by lia. pose proof (Z.div_pos (ext - 15) 255).
    rewrite (enc_ext_loop (Z.to_nat ((ext - 15) / 255))); [|lia|lia| |done].
    + rewrite <- (blit_blit out op _ (op + (ext - 15) / 255)) by solve_len.
      destruct (blit out op _) as [o|]; [|done]. cbn [fmap option_fmap option_map mbind option_bind].
      rewrite wr_blit, Z2Nat.id, u8_id by (first [lia | unfold is_byte;
        pose proof (Z.mod_pos_bound (ext - 15) 255); lia]).
      destruct (blit o _ _); [|done]. simpl. do 2 f_equal. lia.
    + pose proof (Z.div_le_upper_bound (ext - 15) 255 ext). lia.
Qed.

Lemma nibble_token l m :
  0 <= l -> 0 <= m ->
  (if decide (l > 15) then if decide (m > 15) then u8 (15 * 16 + 15) else u8 (15 * 16 + m)
   else if decide (m > 15) then u8 (l * 16 + 15) else u8 (l * 16 + m)) = nibble l * 16 + nibble m.
Proof.
  intros. unfold nibble. repeat case_decide; rewrite u8_id by (unfold is_byte; lia); lia.
Qed.

Lemma emit_sequence_blit src ip anchor off m lits out op :
  slice src anchor (ip - anchor) = Some lits -> 0 < off < 65536 -> 4 <= m -> 0 <= op ->
  op + zlen (enc_seq (Seq lits off m)) <= zlen out ->
  exists out', blit out op (enc_seq (Seq lits off m)) = Some out' /\
    emit_sequence src ip anchor off m out op =
      Some (out', op + zlen (enc_seq (Seq lits off m))).
Proof.
  intros Hs Hoff Hm Hop Hfit. pose proof (slice_is_Some _ _ _ _ Hs) as (?&?&?&Hl).
  unfold enc_seq in *. cbn [sq_lits sq_off sq_len] in *.
  set (E1 := enc_ext (zlen lits)) in *. set (E2 := enc_ext (m - 4)) in *.
  set (O := [off mod 256; off / 256]) in *.
  set (T := [nibble (zlen lits) * 16 + nibble (m - 4)]) in *.
  assert (HT : zlen T = 1) by done. assert (HO : zlen O = 2) by done.
  pose proof (zlen_nonneg E1). pose proof (zlen_nonneg E2). rewrite !zlen_app in Hfit.
  unfold emit_sequence. cbv zeta. rewrite <- Hl. rewrite emit_ext_blit by lia. fold E1.
  destruct (blit_ok out (op + 1) E1) as (o1 & B1 & L1); [lia..|]. rewrite B1. bsimpl.
  unfold emit_literals. rewrite Hl, (copy_loop_slice _ _ _ _ _ _ Hs) by lia.
  destruct (blit_ok o1 (op + 1 + zlen E1) lits) as (o2 & B2 & L2); [lia..|]. rewrite B2. bsimpl.
  setoid_rewrite wr_blit. rewrite blit_blit_k by done. rewrite <- Hl.
  rewrite u8_rem, Z.quot_div_nonneg, (u8_id (off / 256)) by
    (first [lia | unfold is_byte; split; [apply Z.div_pos|apply Z.div_lt_upper_bound]; lia]).
  change ([u8 off] ++ [off / 256]) with O.
  destruct (blit_ok o2 (op + 1 + zlen E1 + zlen lits) O) as (o3 & B3 & L3); [lia..|].
  rewrite B3. bsimpl. unfold MIN_MATCH. rewrite emit_ext_blit by lia. fold E2.
  destruct (blit_ok o3 (op + 1 + zlen E1 + zlen lits + 2) E2) as (o4 & B4 & L4); [lia..|].
  rewrite B4. bsimpl.
  destruct (blit_ok o4 op T) as (o5 & B5 & L5); [lia..|].
  pose proof (blit_after _ _ _ _ _ _ _ B1 B2 eq_refl) as B12.
  pose proof (blit_after _ _ _ _ _ _ _ B12 B3 ltac:(rewrite zlen_app; lia)) as B123.
  pose proof (blit_after _ _ _ _ _ _ _ B123 B4 ltac:(rewrite !zlen_app; lia)) as B1234.
  pose proof (blit_front _ _ _ _ _ _ _ B1234 B5 ltac:(lia)) as B. rewrite <- !app_assoc in B.
  exists o5. split; [done|].
  assert (Htok : (if decide (zlen lits > 15) then
       if decide (m - 4 > 15) then wr o4 op (u8 (15 * 16 + 15)) else wr o4 op (u8 (15 * 16 + (m - 4)))
     else if decide (m - 4 > 15) then wr o4 op (u8 (zlen lits * 16 + 15))
       else wr o4 op (u8 (zlen lits * 16 + (m - 4)))) = Some o5).
  { rewrite <- B5. subst T. rewrite <- wr_blit. rewrite <- (nibble_token (zlen lits) (m - 4)) by lia.
    by repeat case_decide. }
  rewrite Htok. bsimpl. do 2 f_equal. rewrite !zlen_app. lia.
Qed.

Lemma emit_last_blit src anchor lit_len lits out op :
  slice src anchor lit_len = Some lits -> 0 <= op -> op + zlen (enc_last lits) <= zlen out ->
  exists out', blit out op (enc_last lits) = Some out' /\
    emit_last src anchor lit_len out op = Some (out', op + zlen (enc_last lits)).
Proof.
  intros Hs Hop Hfit. pose proof (slice_is_Some _ _ _ _ Hs) as (?&?&?&Hl).
  unfold enc_last in *. set (E1 := enc_ext (zlen lits)) in *. set (T := [nibble (zlen lits) * 16]) in *.
  assert (HT : zlen T = 1) by done. pose proof (zlen_nonneg E1). rewrite !zlen_app in Hfit.
  unfold emit_last. cbv zeta. rewrite <- Hl. rewrite emit_ext_blit by lia. fold E1.
  destruct (blit_ok out (op + 1) E1) as (o1 & B1 & L1); [lia..|]. rewrite B1. bsimpl.
  destruct (blit_ok o1 op T) as (o2 & B2 & L2); [lia..|].
  assert (Htok : (if decide (zlen lits > 15) then wr o1 op (u8 (15 * 16))
     else wr o1 op (u8 (zlen lits * 16))) = Some o2).
  { rewrite <- B2. subst T. unfold nibble. rewrite !wr_blit.
    case_decide; rewrite u8_id by (unfold is_byte; lia); do 2 f_equal; lia. }
  rewrite Htok. bsimpl. unfold emit_literals. rewrite Hl, (copy_loop_slice _ _ _ _ _ _ Hs) by lia.
  destruct (blit_ok o2 (op + 1 + zlen E1) lits) as (o3 & B3 & L3); [lia..|]. rewrite B3. bsimpl.
  pose proof (blit_front _ _ _ _ _ _ _ B1 B2 ltac:(lia)) as B12.
  pose proof (blit_after _ _ _ _ _ _ _ B12 B3 ltac:(rewrite zlen_app; lia)) as B.
  rewrite <- app_assoc in B. exists o3. split; [done|]. do 2 f_equal. rewrite !zlen_app. lia.
Qed.

(** * Sequences and the text they stand for *)

Definition match_text (o : list Z) (off len : Z) : list Z :=
  default [] (slice o (zlen o - off) len).

Definition run_seq (o : list Z) (q : lz4_seq) : list Z :=
  let o := o ++ sq_lits q in o ++ match_text o (sq_off q) (sq_len q).
Definition run_seqs (o : list Z) (qs : list lz4_seq) : list Z := fold_left run_seq qs o.
Definition enc_seqs (qs : list lz4_seq) : list Z := concat (map enc_seq qs).

(** A match lies within the text before it, does not overlap its copy, and its
    distance fits two bytes. *)
Definition seq_ok (o : list Z) (q : lz4_seq) : Prop :=
  0 < sq_off q < 65536 /\ sq_off q <= zlen (o ++ sq_lits q) /\ 4 <= sq_len q <= sq_off q.

Fixpoint seqs_ok (o : list Z) (qs : list lz4_seq) : Prop :=
  match qs with
  | [] => True
  | q :: qs => seq_ok o q /\ seqs_ok (run_seq o q) qs
  end.

Lemma run_seqs_app o qs1 qs2 : run_seqs o (qs1 ++ qs2) = run_seqs (run_seqs o qs1) qs2.
Proof. apply fold_left_app. Qed.

Lemma seqs_ok_app o qs1 qs2 :
  seqs_ok o (qs1 ++ qs2) <-> seqs_ok o qs1 /\ seqs_ok (run_seqs o qs1) qs2.
Proof. revert o. induction qs1 as [|q qs1 IH]; intros o; simpl; [tauto|]. rewrite IH. tauto. Qed.

Lemma enc_seqs_app qs1 qs2 : enc_seqs (qs1 ++ qs2) = enc_seqs qs1 ++ enc_seqs qs2.
Proof. unfold enc_seqs. by rewrite map_app, concat_app. Qed.

Lemma enc_seqs_snoc qs q : enc_seqs (qs ++ [q]) = enc_seqs qs ++ enc_seq q.
Proof. rewrite enc_seqs_app. unfold enc_seqs at 2. cbn [map concat]. by rewrite app_nil_r. Qed.

(** The text a match stands for. *)
Lemma match_text_slice o off len :
  0 < off <= zlen o -> 0 <= len <= off -> slice o (zlen o - off) len = Some (match_text o off len).
Proof. intros. unfold match_text. rewrite slice_Some by lia. done. Qed.

(** * The compressor writes sequences that stand for its input *)

Lemma seq_size l m :
  0 <= l -> 4 <= m ->
  3 + zlen (enc_ext l) + l + zlen (enc_ext (m - 4)) <= l + m + (l + m) / 255.
Proof.
  intros. rewrite !zlen_enc_ext by lia. repeat case_decide; Z.div_mod_to_equations; lia.
Qed.

Lemma zlen_enc_seq q :
  zlen (enc_seq q) = 3 + zlen (enc_ext (zlen (sq_lits q))) + zlen (sq_lits q) + zlen (enc_ext (sq_len q - 4)).
Proof. unfold enc_seq. rewrite !zlen_app. change (zlen [_]) with 1. change (zlen [_; _]) with 2. lia. Qed.

Lemma last_size l : 0 <= l -> 1 + zlen (enc_ext l) + l <= l + l / 255 + 2.
Proof. intros. rewrite zlen_enc_ext by lia. case_decide; Z.div_mod_to_equations; lia. Qed.

Lemma zlen_enc_last lits :
  zlen (enc_last lits) = 1 + zlen (enc_ext (zlen lits)) + zlen lits.
Proof. unfold enc_last. rewrite !zlen_app. change (zlen [_]) with 1. lia. Qed.

Lemma div255_add a b : a / 255 + b / 255 <= (a + b) / 255.
Proof. Z.div_mod_to_equations. lia. Qed.

Section Compress.
Context (src : list Z) (src_len : Z).
Hypothesis Hsrc : src_len <= zlen src.
Hypothesis Hmax : 0 < src_len <= LZ4_MAX_INPUT_SIZE.

Definition text (n : Z) : list Z := take (Z.to_nat n) src.

Lemma zlen_text n : 0 <= n <= src_len -> zlen (text n) = n.
Proof. unfold text, zlen in *. rewrite length_take. lia. Qed.

Lemma text_slice a n s : 0 <= a -> slice src a n = Some s -> text a ++ s = text (a + n).
Proof.
  intros Ha (p & q & E & <- & <-)%slice_inv. unfold text, zlen.
  rewrite E, <- Nat2Z.inj_add, !Nat2Z.id, take_app_length, (app_assoc p s q), <- length_app.
  by rewrite take_app_length.
Qed.

(** What the main loop has written so far. *)
Record compressed (out : list Z) (anchor op : Z) (qs : list lz4_seq) : Prop := {
  co_out : exists rest, out = enc_seqs qs ++ rest;
  co_op : op = zlen (enc_seqs qs);
  co_size : op <= anchor + anchor / 255;
  co_run : run_seqs [] qs = text anchor;
  co_ok : seqs_ok [] qs
}.

Definition loop_inv (st : compress_state) : Prop :=
  let '(ht, out, ip, anchor, op) := st in
  zlen ht = HASH_TABLE_SIZE /\ zlen out = lz4_compress_bound src_len + 1 /\
  0 <= anchor <= ip /\ ip <= src_len /\ exists qs, compressed out anchor op qs.

Lemma bound_eq : lz4_compress_bound src_len = src_len + src_len / 255 + 16.
Proof.
  unfold lz4_compress_bound. unfold LZ4_MAX_INPUT_SIZE in *. rewrite decide_False by lia.
  by rewrite Z.quot_div_nonneg by lia.
Qed.

Lemma emit_sequence_compressed out anchor op qs ip off m :
  compressed out anchor op qs -> zlen out = lz4_compress_bound src_len + 1 ->
  0 <= anchor <= ip -> is_match src src_len ip off m -> 4 <= m ->
  exists out' op' qs', emit_sequence src ip anchor off m out op = Some (out', op') /\
    zlen out' = zlen out /\ compressed out' (ip + m) op' qs'.
Proof.
  intros [[rest ->] Hop Hsize Hrun Hok] Hlen Ha (Hoff & Hm & Hfit & Hmatch) Hm4.
  rewrite bound_eq in Hlen. unfold LZ4_MAX_INPUT_SIZE in *.
  pose proof (slice_Some src anchor (ip - anchor) ltac:(lia) ltac:(lia) ltac:(lia)) as Hl.
  set (lits := take _ _) in Hl. clearbody lits.
  pose proof (slice_is_Some _ _ _ _ Hl) as (_&_&_&Hll).
  pose proof (zlen_enc_seq (Seq lits off m)) as Hz. cbn [sq_lits sq_len] in Hz.
  pose proof (seq_size (zlen lits) m ltac:(lia) Hm4) as Hss.
  pose proof (div255_add anchor (zlen lits + m)). pose proof (div255_add (ip + m) (src_len - (ip + m))).
  pose proof (Z.div_pos (src_len - (ip + m)) 255 ltac:(lia) ltac:(lia)).
  replace (anchor + (zlen lits + m)) with (ip + m) in * by lia.
  replace (ip + m + (src_len - (ip + m))) with src_len in * by lia.
  destruct (emit_sequence_blit src ip anchor off m lits (enc_seqs qs ++ rest) op Hl)
    as (out' & Hb & ->); [lia|lia|rewrite Hop; apply zlen_nonneg|rewrite Hz; lia|].
  do 2 eexists. exists (qs ++ [Seq lits off m]). split; [done|].
  split; [by eapply blit_zlen|].
  pose proof (text_slice anchor _ _ ltac:(lia) Hl) as Ht. replace (anchor + (ip - anchor)) with ip in Ht by lia.
  split.
  - apply blit_inv in Hb as (p & g & q & E & Hp & Hg & ->).
    apply app_inj_1 in E as [<- _]; [|unfold zlen in *; lia].
    exists q. by rewrite enc_seqs_snoc, <- app_assoc.
  - by rewrite enc_seqs_snoc, zlen_app, Hop.
  - lia.
  - rewrite run_seqs_app, Hrun. unfold run_seqs, run_seq. cbn [fold_left sq_lits sq_off sq_len].
    rewrite Ht.
    apply text_slice; [lia|]. rewrite <- Hmatch.
    pose proof (zlen_text ip ltac:(lia)) as Hz'.
    rewrite <- (match_text_slice (text ip) off m) by lia. rewrite Hz'.
    symmetry. unfold text. apply slice_take; lia.
  - apply seqs_ok_app. split; [done|]. cbn [seqs_ok]. split; [|done]. unfold seq_ok. cbn [sq_lits sq_off sq_len].
    rewrite Hrun, Ht, zlen_text by lia. lia.
Qed.

Lemma compress_loop_inv st :
  loop_inv st ->
  exists st', compress_loop src src_len (src_len - 12) st = Some st' /\ loop_inv st'.
Proof.
  intros Hinv. unfold compress_loop.
  edestruct (while_inv loop_inv (fun '(_, _, ip, _, _) => src_len - ip) (Z.to_nat src_len))
    as (st' & -> & H & _); cycle 3.
  - by exists st'.
  - exact Hinv.
  - destruct st as [[[[ht out] ip] anchor] op]. destruct Hinv as (_ & _ & ? & _). lia.
  - intros [[[[ht out] ip] anchor] op] (Hht & Hlen & Ha & Hip & qs & Hc) Hcond%bool_decide_eq_true.
    split; [lia|].
    destruct (match_find_spec src src_len ip ht) as (ht' & off & len & -> & Hht' & Hm); [lia..|].
    cbn [mbind option_bind]. case_decide as Hmin.
    + destruct Hm as [?|[Hm Hm4]]; [lia|]. unfold MIN_MATCH in Hm4.
      destruct (emit_sequence_compressed out anchor op qs ip off len) as (out' & op' & qs' & -> & Hl' & Hc');
        [done..|]. cbn [mbind option_bind].
      eexists. split; [done|]. destruct Hm as (?&?&?&_).
      split; [|lia]. split; [done|]. split; [congruence|]. split; [lia|]. split; [lia|]. by exists qs'.
    + eexists. split; [done|]. split; [|lia]. split; [done|]. split; [done|]. split; [lia|].
      split; [lia|]. by exists qs.
Qed.

Lemma emit_last_compressed out anchor op qs :
  compressed out anchor op qs -> zlen out = lz4_compress_bound src_len + 1 ->
  0 <= anchor <= src_len ->
  exists out' op' lits rest, emit_last src anchor (src_len - anchor) out op = Some (out', op') /\
    out' = enc_seqs qs ++ enc_last lits ++ rest /\
    op' = zlen (enc_seqs qs ++ enc_last lits) /\ op' <= lz4_compress_bound src_len /\
    run_seqs [] qs ++ lits = text src_len.
Proof.
  intros [[rest ->] Hop Hsize Hrun Hok] Hlen Ha. rewrite bound_eq in *.
  pose proof (slice_Some src anchor (src_len - anchor) ltac:(lia) ltac:(lia) ltac:(lia)) as Hl.
  set (lits := take _ _) in Hl. clearbody lits.
  pose proof (slice_is_Some _ _ _ _ Hl) as (_&_&_&Hll).
  pose proof (zlen_enc_last lits) as Hz. pose proof (last_size (zlen lits) ltac:(lia)).
  pose proof (div255_add anchor (zlen lits)) as Hd.
  replace (anchor + zlen lits) with src_len in Hd by lia.
  destruct (emit_last_blit src anchor (src_len - anchor) lits (enc_seqs qs ++ rest) op Hl)
    as (out' & Hb & ->); [rewrite Hop; apply zlen_nonneg|lia|].
  apply blit_inv in Hb as (p & g & q & E & Hp & Hg & ->).
  apply app_inj_1 in E as [<- _]; [|unfold zlen in *; lia].
  do 2 eexists. exists lits, q. split; [done|]. split; [done|].
  split; [rewrite zlen_app; lia|]. split; [lia|].
  pose proof (text_slice anchor _ _ ltac:(lia) Hl) as Ht.
  replace (anchor + (src_len - anchor)) with src_len in Ht by lia. by rewrite Hrun.
Qed.

Lemma compress_spec malloc_out out :
  malloc_out (lz4_compress_bound src_len + 1) = Some out ->
  zlen out = lz4_compress_bound src_len + 1 ->
  exists qs lits rest n,
    lz4_compress src src_len malloc_out true = Some (Some (enc_seqs qs ++ enc_last lits ++ rest), n) /\
    n = zlen (enc_seqs qs ++ enc_last lits) /\ n <= lz4_compress_bound src_len /\
    seqs_ok [] qs /\ run_seqs [] qs ++ lits = text src_len.
Proof.
  intros Hm Hl. unfold lz4_compress. rewrite decide_False by lia. cbv zeta. rewrite Hm.
  assert (Hc0 : compressed out 0 0 []) by (split; [by exists out|done..]).
  case_decide.
  - destruct (emit_last_compressed out 0 0 [] Hc0 Hl) as (o & n & lits & rest & Hr & -> & Hn & Hle & Ht);
      [lia|]. rewrite Z.sub_0_r in Hr. rewrite Hr. exists [], lits, rest, n. done.
  - destruct (compress_loop_inv (replicate (Z.to_nat HASH_TABLE_SIZE) (-1), out, 0, 0, 0))
      as ([[[[ht out'] ip] anchor] op] & -> & _ & Hl' & Ha & Hip & qs & Hc).
    { split; [|split; [done|split; [lia|split; [lia|by exists []]]]].
      rewrite zlen_replicate. unfold HASH_TABLE_SIZE. lia. }
    cbn [mbind option_bind].
    destruct (emit_last_compressed out' anchor op qs Hc Hl') as (o & n & lits & rest & -> & -> & Hn & Hle & Ht);
      [lia|]. exists qs, lits, rest, n. destruct Hc. done.
Qed.
End Compress.

(** * The decoder *)

(** Extension bytes in the middle of the input. *)
Lemma read_ext_spec fuel k r p q limit len :
  (k < fuel)%nat -> 0 <= r < 255 -> zlen p + Z.of_nat k + 1 <= limit ->
  read_ext fuel (p ++ (replicate k 255 ++ [r]) ++ q) (zlen p) limit len =
    Some (Some (len + 255 * Z.of_nat k + r, zlen p + Z.of_nat k + 1)).
Proof.
  revert fuel p len. induction k as [|k IH]; intros fuel p len Hf Hr Hl;
    (destruct fuel as [|fuel]; [lia|]); cbn [read_ext].
  - rewrite decide_False by lia. rewrite rd_app_0. cbn [replicate app].
    rewrite rd_cons_0. cbn [mbind option_bind]. unfold lz4_byte_to_int.
    rewrite u8_id by (unfold is_byte; lia). rewrite decide_False by lia. do 3 f_equal; lia.
  - rewrite decide_False by lia. rewrite rd_app_0. cbn [replicate app].
    rewrite rd_cons_0. cbn [mbind option_bind]. change (lz4_byte_to_int 255) with 255.
    rewrite decide_True by done. specialize (IH fuel (p ++ [255]) (len + 255)).
    rewrite <- app_assoc in IH. cbn [app] in IH. rewrite zlen_app in IH.
    change (zlen [255]) with 1 in IH. rewrite IH by lia. do 3 f_equal; lia.
Qed.

Lemma read_length_spec p q v limit :
  0 <= v -> zlen p + zlen (enc_ext v) <= limit ->
  read_length (p ++ enc_ext v ++ q) (zlen p) limit (nibble v) =
    Some (Some (v, zlen p + zlen (enc_ext v))).
Proof.
  intros Hv Hl. rewrite zlen_enc_ext in * by done. unfold read_length, enc_ext, nibble.
  destruct (decide (v < 15)).
  - rewrite decide_False by lia. do 3 f_equal; lia.
  - rewrite decide_True by lia. pose proof (Z.div_pos (v - 15) 255 ltac:(lia) ltac:(lia)).
    pose proof (Z.mod_pos_bound (v - 15) 255 ltac:(lia)). pose proof (Z.div_mod (v - 15) 255 ltac:(lia)).
    rewrite read_ext_spec by lia. do 3 f_equal; lia.
Qed.

Lemma copy_literals_spec p lits q o g limit cap :
  zlen p + zlen lits <= limit -> zlen o + zlen lits <= cap -> cap <= zlen (o ++ g) ->
  exists g', zlen g' = zlen g - zlen lits /\
    copy_literals (length lits) (p ++ lits ++ q) (zlen p) limit (o ++ g) (zlen o) cap =
      Some (Some (o ++ lits ++ g', zlen o + zlen lits, zlen p + zlen lits)).
Proof.
  revert p o g. induction lits as [|b lits IH]; intros p o g Hp Ho Hg; cbn [length copy_literals].
  - exists g. change (zlen []) with 0. split; [lia|]. do 3 f_equal; [f_equal|]; lia.
  - rewrite zlen_cons in *. pose proof (zlen_nonneg lits). rewrite zlen_app in Hg.
    rewrite decide_False by lia. rewrite rd_app_0. cbn [app]. rewrite rd_cons_0. cbn [mbind option_bind].
    destruct g as [|x g]; [change (zlen []) with 0 in Hg; lia|]. rewrite zlen_cons in *.
    rewrite wr_blit. change (x :: g) with ([x] ++ g). rewrite blit_app by done. cbn [mbind option_bind].
    destruct (IH (p ++ [b]) (o ++ [b]) g) as (g' & Hg' & E).
    + rewrite zlen_app. change (zlen [b]) with 1. lia.
    + rewrite zlen_app. change (zlen [b]) with 1. lia.
    + rewrite !zlen_app. change (zlen [b]) with 1. lia.
    + rewrite !zlen_app, <- !app_assoc in E. change (zlen [b]) with 1 in E. cbn [app] in E.
      exists g'. split; [lia|]. cbn [app]. rewrite E. do 3 f_equal; [f_equal|]; lia.
Qed.

Lemma copy_match_spec (n : nat) o m1 g off len cap :
  Z.of_nat n = len - zlen m1 -> 0 < off <= zlen o -> len <= off ->
  m1 = take (length m1) (match_text o off len) ->
  zlen o + len <= cap -> cap <= zlen (o ++ m1 ++ g) ->
  exists g', zlen g' = zlen g - Z.of_nat n /\
    copy_match n off (o ++ m1 ++ g) (zlen o + zlen m1) cap =
      Some (Some (o ++ match_text o off len ++ g', zlen o + len)).
Proof.
  intros Hn Hoff Hlen. revert m1 g Hn.
  pose proof (zlen_nonneg o).
  induction n as [|n IH]; intros m1 g Hn Hm1 Hcap Hg; cbn [copy_match]; pose proof (zlen_nonneg m1).
  - exists g. split; [lia|]. pose proof (match_text_slice o off len Hoff ltac:(lia)) as Hs.
    apply slice_is_Some in Hs as (_&_&_&Hs).
    assert (m1 = match_text o off len) as <-.
    { rewrite Hm1. apply take_ge. unfold zlen in *. lia. }
    do 3 f_equal. lia.
  - pose proof (match_text_slice o off len Hoff ltac:(lia)) as Hs.
    rewrite decide_False by lia. rewrite decide_True by lia.
    set (mt := match_text o off len) in *.
    pose proof (slice_is_Some _ _ _ _ Hs) as (_&_&_&Hmt).
    destruct (rd_is_Some mt (zlen m1)) as [b Hb]; [lia|].
    assert (Hrd : rd (o ++ m1 ++ g) (zlen o + zlen m1 - off) = Some b).
    { rewrite rd_app_l by lia. rewrite <- Hb, (rd_slice _ _ _ _ (zlen m1) Hs) by lia. f_equal. lia. }
    rewrite Hrd. cbn [mbind option_bind].
    rewrite !zlen_app in Hg. destruct g as [|x g]; [change (zlen []) with 0 in Hg; lia|].
    rewrite zlen_cons in *. rewrite wr_blit, (app_assoc o m1). change (x :: g) with ([x] ++ g).
    rewrite blit_app by (rewrite ?zlen_app; done). cbn [mbind option_bind].
    destruct (IH (m1 ++ [b]) g) as (g' & Hg' & E).
    + rewrite zlen_app. change (zlen [b]) with 1. lia.
    + rewrite length_app. cbn [length]. rewrite Nat.add_1_r.
      rewrite (take_S_r _ _ b); [by rewrite <- Hm1|].
      unfold rd in Hb. rewrite decide_True in Hb by lia. unfold zlen in Hb. by rewrite Nat2Z.id in Hb.
    + done.
    + rewrite !zlen_app. change (zlen [b]) with 1. lia.
    + exists g'. split; [lia|]. rewrite <- E, zlen_app. change (zlen [b]) with 1.
      rewrite <- !app_assoc. f_equal. lia.
Qed.

Lemma token_split a b : 0 <= a < 16 -> 0 <= b < 16 ->
  lz4_byte_to_int (a * 16 + b) = a * 16 + b /\ Z.quot (a * 16 + b) 16 = a /\
  Z.rem (a * 16 + b) 16 = b.
Proof.
  intros. split; [apply u8_id; unfold is_byte; lia|].
  rewrite Z.quot_div_nonneg, Z.rem_mod_nonneg by lia. Z.div_mod_to_equations. lia.
Qed.

Lemma nibble_range v : 0 <= v -> 0 <= nibble v < 16.
Proof. unfold nibble. lia. Qed.

Lemma offset_bytes off :
  0 < off < 65536 ->
  lz4_byte_to_int (off mod 256) + lz4_byte_to_int (off / 256) * 256 = off.
Proof.
  intros. unfold lz4_byte_to_int. rewrite !u8_id by (unfold is_byte; Z.div_mod_to_equations; lia).
  Z.div_mod_to_equations. lia.
Qed.

Lemma zlen_run_seq o q : seq_ok o q -> zlen (run_seq o q) = zlen o + zlen (sq_lits q) + sq_len q.
Proof.
  intros (? & ? & ?). unfold run_seq.
  pose proof (match_text_slice (o ++ sq_lits q) (sq_off q) (sq_len q) ltac:(lia) ltac:(lia)) as Hs.
  apply slice_is_Some in Hs as (_&_&_&Hs). rewrite zlen_app, Hs, zlen_app. lia.
Qed.

Lemma decompress_seq fuel p q rest limit o g cap :
  seq_ok o q -> zlen p + zlen (enc_seq q) <= limit -> zlen (run_seq o q) <= cap ->
  cap <= zlen (o ++ g) ->
  exists g', zlen (run_seq o q ++ g') = zlen (o ++ g) /\
    decompress_loop (S fuel) (p ++ enc_seq q ++ rest) (zlen p) limit (o ++ g) (zlen o) cap =
    decompress_loop fuel (p ++ enc_seq q ++ rest) (zlen p + zlen (enc_seq q)) limit
      (run_seq o q ++ g') (zlen (run_seq o q)) cap.
Proof.
  intros Hok Hlim Hcap Hbuf. pose proof (zlen_run_seq o q Hok) as Hrun.
  destruct Hok as (Hoff & Hoff2 & Hm). rewrite zlen_enc_seq in *. rewrite Hrun in Hcap.
  unfold run_seq, enc_seq. set (lits := sq_lits q) in *. set (off := sq_off q) in *.
  set (m := sq_len q) in *. set (E1 := enc_ext (zlen lits)) in *. set (E2 := enc_ext (m - 4)) in *.
  set (tok := nibble (zlen lits) * 16 + nibble (m - 4)).
  rewrite zlen_app in Hoff2.
  pose proof (zlen_nonneg lits) as Hl0. pose proof (zlen_nonneg E1). pose proof (zlen_nonneg E2).
  pose proof (nibble_range (zlen lits) Hl0) as Hn1. pose proof (nibble_range (m - 4) ltac:(lia)) as Hn2.
  destruct (token_split _ _ Hn1 Hn2) as (Ht1 & Ht2 & Ht3). fold tok in Ht1, Ht2, Ht3.
  set (O := [off mod 256; off / 256]). set (T := [tok]).
  assert (HO : zlen O = 2) by done. assert (HT : zlen T = 1) by done.
  set (src := p ++ (T ++ E1 ++ lits ++ O ++ E2) ++ rest).
  assert (Hsrc : p ++ T ++ E1 ++ lits ++ O ++ E2 ++ rest = src)
    by (unfold src; by rewrite <- !app_assoc).
  assert (S0 : rd src (zlen p) = Some tok) by (unfold src; by rewrite rd_app_0).
  assert (S45 : rd src (zlen p + 1 + zlen E1 + zlen lits) = Some (off mod 256) /\
                rd src (zlen p + 1 + zlen E1 + zlen lits + 1) = Some (off / 256)).
  { rewrite <- Hsrc, (app_assoc E1), (app_assoc T), (app_assoc p).
    split; [rewrite (rd_app_at _ _ _ 0)|rewrite (rd_app_at _ _ _ 1)];
      rewrite ?zlen_app, ?HT; done || lia. }
  destruct S45 as [S4 S5]. clearbody O T src.
  pose proof (read_length_spec (p ++ T) (lits ++ O ++ E2 ++ rest) (zlen lits) limit Hl0) as S1.
  destruct (copy_literals_spec (p ++ T ++ E1) lits (O ++ E2 ++ rest) o g limit cap)
    as (g1 & Hg1 & S2); [rewrite !zlen_app; lia|lia|done|].
  pose proof (read_length_spec (p ++ T ++ E1 ++ lits ++ O) rest (m - 4) limit ltac:(lia)) as S3.
  fold E1 in S1. fold E2 in S3. rewrite <- !app_assoc, Hsrc, !zlen_app, HT in S1.
  rewrite <- !app_assoc, Hsrc, !zlen_app, HT in S2.
  rewrite <- !app_assoc, Hsrc, !zlen_app, HT, HO in S3.
  specialize (S1 ltac:(lia)). specialize (S3 ltac:(lia)).
  rewrite !zlen_app in Hbuf.
  destruct (copy_match_spec (Z.to_nat m) (o ++ lits) [] g1 off m cap) as (g2 & Hg2 & S6);
    [rewrite zlen_nil; lia|rewrite zlen_app; lia|lia|done|rewrite zlen_app; lia|rewrite !zlen_app, zlen_nil; lia|].
  rewrite zlen_nil, Z.add_0_r, zlen_app, <- !app_assoc in S6. cbn [app] in S6.
  exists g2. split.
  { rewrite !zlen_app. pose proof (match_text_slice (o ++ lits) off m ltac:(rewrite zlen_app; lia) ltac:(lia)) as Hs.
    apply slice_is_Some in Hs as (_&_&_&Hs). lia. }
  cbn [decompress_loop]. rewrite decide_True by lia. rewrite S0. cbn [fmap option_fmap option_map mbind option_bind].
  rewrite Ht1, Ht2, Ht3, S1. cbn [mbind option_bind].
  replace (Z.to_nat (zlen lits)) with (length lits) by (unfold zlen; lia).
  replace (zlen p + 1 + zlen E1) with (zlen p + (1 + zlen E1)) in * by lia.
  rewrite S2. cbn [mbind option_bind]. rewrite decide_False by lia. rewrite decide_False by lia.
  rewrite S4. cbn [mbind option_bind]. rewrite S5. cbn [mbind option_bind].
  rewrite offset_bytes, decide_False by lia.
  replace (zlen p + (1 + zlen E1) + zlen lits + 2) with (zlen p + (1 + (zlen E1 + (zlen lits + 2)))) by lia.
  rewrite S3. cbn [mbind option_bind]. unfold MIN_MATCH.
  replace (m - 4 + 4) with m by lia. rewrite S6. cbn [mbind option_bind].
  unfold run_seq in Hrun. fold lits off m in Hrun. rewrite Hrun, <- !app_assoc. f_equal. lia.
Qed.

Lemma decompress_last fuel p lits rest o g cap :
  zlen o + zlen lits <= cap -> cap <= zlen (o ++ g) ->
  exists g', decompress_loop (S fuel) (p ++ enc_last lits ++ rest) (zlen p)
      (zlen p + zlen (enc_last lits)) (o ++ g) (zlen o) cap =
    Some (Some (o ++ lits ++ g', zlen o + zlen lits)).
Proof.
  intros Hcap Hbuf. pose proof (zlen_enc_last lits) as Hz.
  pose proof (zlen_nonneg lits) as Hl0. pose proof (nibble_range (zlen lits) Hl0) as Hn.
  destruct (token_split (nibble (zlen lits)) 0 Hn ltac:(lia)) as (Ht1 & Ht2 & Ht3).
  rewrite Z.add_0_r in *. set (limit := zlen p + zlen (enc_last lits)) in *.
  unfold enc_last in *. set (E1 := enc_ext (zlen lits)) in *.
  set (tok := nibble (zlen lits) * 16) in *. pose proof (zlen_nonneg E1).
  set (T := [tok]) in *. assert (HT : zlen T = 1) by done.
  set (src := p ++ (T ++ E1 ++ lits) ++ rest).
  assert (S0 : rd src (zlen p) = Some tok) by (unfold src; by rewrite rd_app_0).
  pose proof (read_length_spec (p ++ T) (lits ++ rest) (zlen lits) limit Hl0) as S1.
  destruct (copy_literals_spec (p ++ T ++ E1) lits rest o g limit cap) as (g1 & Hg1 & S2);
    [rewrite !zlen_app; lia|lia|done|].
  fold E1 in S1.
  assert (Hsrc : p ++ T ++ E1 ++ lits ++ rest = src) by (unfold src; by rewrite <- !app_assoc).
  clearbody T src. rewrite <- !app_assoc, Hsrc, !zlen_app, HT in S1.
  rewrite <- !app_assoc, Hsrc, !zlen_app, HT in S2. specialize (S1 ltac:(lia)).
  exists g1. cbn [decompress_loop]. rewrite decide_True by lia. rewrite S0.
  cbn [fmap option_fmap option_map mbind option_bind]. rewrite Ht1, Ht2, S1. cbn [mbind option_bind].
  replace (Z.to_nat (zlen lits)) with (length lits) by (unfold zlen; lia).
  replace (zlen p + 1 + zlen E1) with (zlen p + (1 + zlen E1)) in * by lia.
  rewrite S2. cbn [mbind option_bind]. by rewrite decide_True by lia.
Qed.

Lemma decompress_seqs qs fuel p lits rest o g cap :
  seqs_ok o qs -> (length qs < fuel)%nat ->
  zlen (run_seqs o qs ++ lits) <= cap -> cap <= zlen (o ++ g) ->
  exists g', decompress_loop fuel (p ++ enc_seqs qs ++ enc_last lits ++ rest) (zlen p)
      (zlen p + zlen (enc_seqs qs ++ enc_last lits)) (o ++ g) (zlen o) cap =
    Some (Some (run_seqs o qs ++ lits ++ g', zlen (run_seqs o qs ++ lits))).
Proof.
  revert fuel p o g. induction qs as [|q qs IH]; intros fuel p o g Hok Hf Hcap Hbuf;
    (destruct fuel as [|fuel]; [lia|]).
  - unfold enc_seqs, run_seqs in *. cbn [map concat fold_left app] in *. rewrite zlen_app in *.
    apply decompress_last; [lia|]. by rewrite zlen_app.
  - destruct Hok as [Hq Hqs]. change (enc_seqs (q :: qs)) with (enc_seq q ++ enc_seqs qs).
    change (run_seqs o (q :: qs)) with (run_seqs (run_seq o q) qs) in *. simpl in Hf.
    assert (Hmono : forall qs o, seqs_ok o qs -> zlen o <= zlen (run_seqs o qs)).
    { clear. induction qs as [|q qs IH]; intros o; [done|]. intros [Hq Hqs%IH].
      change (run_seqs o (q :: qs)) with (run_seqs (run_seq o q) qs).
      rewrite zlen_run_seq in Hqs by done. destruct Hq as (_&_&?). pose proof (zlen_nonneg (sq_lits q)). lia. }
    pose proof (Hmono qs (run_seq o q) Hqs). rewrite zlen_app in Hcap.
    pose proof (zlen_nonneg lits). pose proof (zlen_nonneg (enc_seqs qs)). pose proof (zlen_nonneg (enc_last lits)).
    rewrite <- !app_assoc.
    destruct (decompress_seq fuel p q (enc_seqs qs ++ enc_last lits ++ rest)
      (zlen p + zlen (enc_seq q ++ enc_seqs qs ++ enc_last lits)) o g cap) as (g1 & Hg1 & ->);
      [done|rewrite !zlen_app; lia|lia|done|].
    destruct (IH fuel (p ++ enc_seq q) (run_seq o q) g1) as (g2 & E); [done|lia|rewrite zlen_app; lia|lia|].
    exists g2. rewrite <- E, !zlen_app, <- !app_assoc. f_equal. lia.
Qed.

Lemma length_enc_seqs qs lits : Z.of_nat (length qs) < zlen (enc_seqs qs ++ enc_last lits).
Proof.
  rewrite zlen_app, zlen_enc_last. pose proof (zlen_nonneg lits).
  pose proof (zlen_nonneg (enc_ext (zlen lits))). 
  enough (Z.of_nat (length qs) <= zlen (enc_seqs qs)) by lia.
  induction qs as [|q qs IH]; [done|]. change (enc_seqs (q :: qs)) with (enc_seq q ++ enc_seqs qs).
  rewrite zlen_app, zlen_enc_seq. pose proof (zlen_nonneg (sq_lits q)).
  pose proof (zlen_nonneg (enc_ext (zlen (sq_lits q)))). pose proof (zlen_nonneg (enc_ext (sq_len q - 4))).
  simpl length. lia.
Qed.

(** * The decoder is total on arbitrary input *)

Lemma read_ext_total fuel src ip limit len :
  0 <= ip -> limit <= zlen src -> (Z.to_nat (limit - ip) < fuel)%nat -> 0 <= len ->
  exists r, read_ext fuel src ip limit len = Some r /\
    match r with None => True | Some (len', ip') => 0 <= len' /\ ip < ip' <= limit end.
Proof.
  revert ip len. induction fuel as [|fuel IH]; intros ip len Hip Hl Hf Hlen; [lia|].
  cbn [read_ext]. case_decide; [by exists None|].
  destruct (rd_is_Some src ip) as [b ->]; [lia|]. cbn [mbind option_bind].
  pose proof (u8_range b) as Hb. unfold is_byte in Hb. unfold lz4_byte_to_int. case_decide.
  - destruct (IH (ip + 1) (len + u8 b)) as (r & -> & Hr); [lia..|]. exists r. split; [done|].
    destruct r as [[??]|]; [lia|done].
  - eexists. split; [done|]. simpl. lia.
Qed.

Lemma read_length_total src ip limit len :
  0 <= ip <= limit -> limit <= zlen src -> 0 <= len ->
  exists r, read_length src ip limit len = Some r /\
    match r with None => True | Some (len', ip') => 0 <= len' /\ ip <= ip' <= limit end.
Proof.
  intros Hip Hl Hlen. unfold read_length. case_decide.
  - destruct (read_ext_total (Z.to_nat (limit - ip + 1)) src ip limit len) as (r & -> & Hr); [lia..|].
    exists r. split; [done|]. destruct r as [[??]|]; [lia|done].
  - eexists. split; [done|]. simpl. lia.
Qed.

Lemma copy_literals_total n src ip limit out op cap :
  0 <= ip -> limit <= zlen src -> 0 <= op <= cap -> cap <= zlen out ->
  exists r, copy_literals n src ip limit out op cap = Some r /\
    match r with
    | None => True
    | Some (out', op', ip') => zlen out' = zlen out /\ 0 <= op' <= cap /\ ip <= ip'
    end.
Proof.
  revert ip out op. induction n as [|n IH]; intros ip out op Hip Hl Hop Hcap; cbn [copy_literals].
  - eexists. split; [done|]. simpl. lia.
  - case_decide; [by exists None|]. destruct (rd_is_Some src ip) as [b ->]; [lia|].
    cbn [mbind option_bind]. rewrite wr_Some by lia. cbn [mbind option_bind].
    destruct (IH (ip + 1) (<[Z.to_nat op:=b]> out) (op + 1)) as (r & -> & Hr);
      [lia|lia|lia|by rewrite zlen_insert|].
    exists r. split; [done|]. destruct r as [[[??]?]|]; [|done]. rewrite zlen_insert in Hr. lia.
Qed.

Lemma copy_match_total n off out op cap :
  0 <= op <= cap -> cap <= zlen out ->
  exists r, copy_match n off out op cap = Some r /\
    match r with None => True | Some (out', op') => zlen out' = zlen out /\ 0 <= op' <= cap end.
Proof.
  revert out op. induction n as [|n IH]; intros out op Hop Hcap; cbn [copy_match].
  - eexists. split; [done|]. simpl. lia.
  - case_decide; [by exists None|].
    assert (Hw : exists b, (if decide (off > 0 /\ off <= op) then b ← rd out (op - off); wr out op b
                            else wr out op 0) = Some (<[Z.to_nat op:=b]> out)).
    { case_decide.
      - destruct (rd_is_Some out (op - off)) as [b ->]; [lia|]. exists b. apply wr_Some. lia.
      - exists 0. apply wr_Some. lia. }
    destruct Hw as [b ->]. cbn [mbind option_bind].
    destruct (IH (<[Z.to_nat op:=b]> out) (op + 1)) as (r & -> & Hr);
      [lia|by rewrite zlen_insert|].
    exists r. split; [done|]. destruct r as [[??]|]; [|done]. rewrite zlen_insert in Hr. lia.
Qed.

Lemma decompress_loop_total fuel src ip limit out op cap :
  0 <= ip -> limit <= zlen src -> (Z.to_nat (limit - ip) <= fuel)%nat -> 0 <= op <= cap -> cap <= zlen out ->
  exists r, decompress_loop fuel src ip limit out op cap = Some r /\
    match r with None => True | Some (out', op') => zlen out' = zlen out /\ 0 <= op' <= cap end.
Proof.
  revert ip out op. induction fuel as [|fuel IH]; intros ip out op Hip Hl Hf Hop Hcap;
    cbn [decompress_loop]; case_decide; try lia; try (eexists; split; [done|simpl; lia]).
  destruct (rd_is_Some src ip) as [b ->]; [lia|]. cbn [fmap option_fmap option_map mbind option_bind].
  pose proof (u8_range b) as Hb. unfold is_byte in Hb. change (lz4_byte_to_int b) with (u8 b).
  assert (0 <= Z.quot (u8 b) 16 /\ 0 <= Z.rem (u8 b) 16)
    by (rewrite Z.quot_div_nonneg, Z.rem_mod_nonneg by lia; Z.div_mod_to_equations; lia).
  destruct (read_length_total src (ip + 1) limit (Z.quot (u8 b) 16)) as (r & -> & Hr); [lia..|].
  cbn [mbind option_bind]. destruct r as [[lit ip1]|]; [|by exists None].
  destruct (copy_literals_total (Z.to_nat lit) src ip1 limit out op cap) as (r & -> & Hr2); [lia..|].
  cbn [mbind option_bind]. destruct r as [[[out1 op1] ip2]|]; [|by exists None].
  case_decide; [eexists; split; [done|simpl; lia]|]. case_decide; [by exists None|].
  destruct (rd_is_Some src ip2) as [b0 ->]; [lia|].
  destruct (rd_is_Some src (ip2 + 1)) as [b1 ->]; [lia|]. cbn [mbind option_bind].
  case_decide; [by exists None|].
  destruct (read_length_total src (ip2 + 2) limit (Z.rem (u8 b) 16)) as (r & -> & Hr3); [lia..|].
  cbn [mbind option_bind]. destruct r as [[m ip3]|]; [|by exists None].
  destruct (copy_match_total (Z.to_nat (m + MIN_MATCH)) (lz4_byte_to_int b0 + lz4_byte_to_int b1 * 256)
    out1 op1 cap) as (r & -> & Hr4); [lia..|].
  cbn [mbind option_bind]. destruct r as [[out2 op2]|]; [|by exists None].
  destruct (IH ip3 out2 op2) as (r & -> & Hr5); [lia..|]. exists r. split; [done|].
  destruct r as [[??]|]; [lia|done].
Qed.

(** * Properties *)

(** The compressed bytes decompress to the input, whatever follows them. *)
Lemma lz4_roundtrip_spec src src_len malloc_c bc :
  0 < src_len <= LZ4_MAX_INPUT_SIZE -> src_len <= zlen src ->
  malloc_c (lz4_compress_bound src_len + 1) = Some bc -> zlen bc = lz4_compress_bound src_len + 1 ->
  exists b rest, lz4_compress src src_len malloc_c true = Some (Some (b ++ rest), zlen b) /\
    0 < zlen b <= lz4_compress_bound src_len /\
    forall q malloc_d bd dst_capacity, malloc_d (dst_capacity + 1) = Some bd -> zlen bd = dst_capacity + 1 ->
      src_len <= dst_capacity ->
      exists out, lz4_decompress (b ++ q) (zlen b) dst_capacity malloc_d = Some (Some out, src_len) /\
        slice out 0 src_len = slice src 0 src_len.
Proof.
  intros Hlen Hsrc Hmc Hlc.
  destruct (compress_spec src src_len Hsrc Hlen malloc_c bc Hmc Hlc)
    as (qs & lits & rest & n & -> & Hn & Hle & Hok & Ht).
  pose proof (length_enc_seqs qs lits) as Hlq.
  assert (Htl : zlen (run_seqs [] qs ++ lits) = src_len) by (rewrite Ht; apply (zlen_text src src_len Hsrc); lia).
  exists (enc_seqs qs ++ enc_last lits), rest. rewrite <- app_assoc, Hn. split; [done|]. split; [lia|].
  intros q malloc_d bd cap Hmd Hld Hcap.
  destruct (decompress_seqs qs (Z.to_nat n) [] lits q [] bd cap) as (g & E);
    [done|lia|lia|cbn [app]; lia|].
  cbn [app] in E. change (zlen (@nil Z)) with 0 in E. rewrite Z.add_0_l, <- Hn in E.
  eexists. unfold lz4_decompress. rewrite <- Hn. rewrite decide_False by lia. rewrite Hmd, <- app_assoc, E.
  cbn [mbind option_bind]. rewrite Htl. split; [done|]. rewrite app_assoc, Ht. rewrite Ht in Htl.
  rewrite (slice_Some src 0 src_len) by lia. apply (slice_app []); done.
Qed.

(** C32: every input of 1 to 65536 bytes is compressed without writing outside
    the allocated buffer, into at most [lz4_compress_bound] bytes, and
    decompressing exactly those bytes into any sufficient capacity gives the
    input back. *)
Theorem lz4_roundtrip src src_len malloc_c malloc_d dst_capacity
  (Hlen : 0 < src_len <= LZ4_MAX_INPUT_SIZE) (Hsrc : src_len <= zlen src)
  (Hc : exists b, malloc_c (lz4_compress_bound src_len + 1) = Some b /\ zlen b = lz4_compress_bound src_len + 1)
  (Hd : exists b, malloc_d (dst_capacity + 1) = Some b /\ zlen b = dst_capacity + 1)
  (Hcap : src_len <= dst_capacity) :
  exists comp n out,
    lz4_compress src src_len malloc_c true = Some (Some comp, n) /\
    0 < n <= lz4_compress_bound src_len /\ n <= zlen comp /\
    lz4_decompress comp n dst_capacity malloc_d = Some (Some out, src_len) /\
    slice out 0 src_len = slice src 0 src_len.
Proof.
  destruct Hc as (bc & Hmc & Hlc). destruct Hd as (bd & Hmd & Hld).
  destruct (lz4_roundtrip_spec src src_len malloc_c bc Hlen Hsrc Hmc Hlc) as (b & rest & E & Hb & Hdec).
  destruct (Hdec rest malloc_d bd dst_capacity Hmd Hld Hcap) as (out & E2 & Hout).
  exists (b ++ rest), (zlen b), out. split; [exact E|]. split; [exact Hb|].
  split; [rewrite zlen_app; pose proof (zlen_nonneg rest); lia|]. split; [exact E2|exact Hout].
Qed.

Definition malloc_zeros (n : Z) : option (list Z) := Some (zeros n).

Lemma lz4_roundtrip_witness :
  exists comp n out,
    lz4_compress (concat (replicate 5 [97; 98; 99; 100; 101])) 25 malloc_zeros true
      = Some (Some comp, n) /\
    0 < n <= lz4_compress_bound 25 /\ n <= zlen comp /\
    lz4_decompress comp n 30 malloc_zeros = Some (Some out, 25) /\
    slice out 0 25 = slice (concat (replicate 5 [97; 98; 99; 100; 101])) 0 25.
Proof.
  apply (lz4_roundtrip (concat (replicate 5 [97; 98; 99; 100; 101])) 25 malloc_zeros malloc_zeros 30).
  - unfold LZ4_MAX_INPUT_SIZE. lia.
  - vm_compute. congruence.
  - eexists. split; reflexivity.
  - eexists. split; reflexivity.
  - lia.
Defined.

(** C33: on arbitrary, possibly hostile input the decoder never reads outside the
    input or writes outside the buffer it allocated, and always ends: it returns
    an error or at most [dst_capacity] bytes. *)
Theorem lz4_decompress_safe src src_len dst_capacity malloc_d
  (Hsrc : 0 <= src_len <= zlen src) (Hcap : 0 <= dst_capacity)
  (Hd : forall b, malloc_d (dst_capacity + 1) = Some b -> zlen b = dst_capacity + 1) :
  exists res n, lz4_decompress src src_len dst_capacity malloc_d = Some (res, n) /\
    match res with
    | None => n = 0
    | Some out => zlen out = dst_capacity + 1 /\ 0 <= n <= dst_capacity
    end.
Proof.
  unfold lz4_decompress. case_decide; [by do 2 eexists|].
  destruct (malloc_d (dst_capacity + 1)) as [b|] eqn:E; [|by do 2 eexists].
  specialize (Hd b eq_refl).
  destruct (decompress_loop_total (Z.to_nat src_len) src 0 src_len b 0 dst_capacity)
    as (r & -> & Hr); [lia..|]. cbn [mbind option_bind].
  destruct r as [[out op]|]; [|by do 2 eexists]. do 2 eexists. split; [done|]. simpl. lia.
Qed.

Lemma lz4_decompress_safe_witness :
  exists res n, lz4_decompress [255; 255; 3; 1] 4 8 malloc_zeros = Some (res, n) /\
    match res with None => n = 0 | Some out => zlen out = 9 /\ 0 <= n <= 8 end.
Proof.
  apply (lz4_decompress_safe [255; 255; 3; 1] 4 8 malloc_zeros).
  - vm_compute. split; congruence.
  - lia.
  - intros b [= <-]. reflexivity.
Defined.
