(* ===== verification/FileIo.v ===== *)
(** Files, [platform_src/posix/file_io.c]: page reads and writes at an offset,
    sequential reads and writes, truncation.

    A file is its bytes and the descriptor's position.  Each write consults
    [f_tape], the outcomes the operating system has in store: the number of
    bytes the next write transfers (a negative number for an error); when the
    tape is empty, writes are complete. *)

From S2P Require Import Prelude.

Record garry_file_descriptor := File {
  f_bytes : list Z; f_pos : Z; f_open : bool; f_tape : list Z
}.

Definition set_bytes (f : garry_file_descriptor) (b : list Z) : garry_file_descriptor :=
  File b (f_pos f) (f_open f) (f_tape f).
Definition set_pos (f : garry_file_descriptor) (p : Z) : garry_file_descriptor :=
  File (f_bytes f) p (f_open f) (f_tape f).

(** Writing [s] at [off] extends the file, with zeros in a gap. *)
Definition overwrite (b : list Z) (off : Z) (s : list Z) : list Z :=
  let b := b ++ zeros (off + zlen s - zlen b) in
  take (Z.to_nat off) b ++ s ++ drop (Z.to_nat (off + zlen s)) b.

(** [pwrite]: the new file and the number of bytes written. *)
Definition os_pwrite (f : garry_file_descriptor) (s : list Z) (off : Z)
  : garry_file_descriptor * Z :=
  if decide (f_open f = false \/ off < 0) then (f, -1)
  else
    match f_tape f with
    | [] => (File (overwrite (f_bytes f) off s) (f_pos f) (f_open f) [], zlen s)
    | k :: tape =>
        let n := Z.min k (zlen s) in
        if decide (n <= 0) then (File (f_bytes f) (f_pos f) (f_open f) tape, n)
        else (File (overwrite (f_bytes f) off (take (Z.to_nat n) s)) (f_pos f) (f_open f) tape, n)
    end.

(** [pread] at [off]: the bytes read, fewer than [count] at the end of file. *)
Definition os_pread (f : garry_file_descriptor) (count off : Z) : list Z :=
  if decide (f_open f = false \/ off < 0) then []
  else take (Z.to_nat count) (drop (Z.to_nat off) (f_bytes f)).

(** * Pages *)

Definition garry_file_read_page (f : garry_file_descriptor) (page_num : Z) (buf : list Z)
    (page_size : Z) : option (list Z) :=
  let offset := page_num * page_size in
  let s := os_pread f page_size offset in
  buf ← blit buf 0 s;
  if decide (zlen s < page_size) then memset buf 0 0 page_size else Some buf.

Definition garry_file_write_page (f : garry_file_descriptor) (page_num : Z) (buf : list Z)
    (page_size : Z) : option (garry_file_descriptor * bool) :=
  let offset := page_num * page_size in
  s ← slice buf 0 page_size;
  let '(f, n) := os_pwrite f s offset in
  Some (f, bool_decide (n = page_size)).

(** * Sequential access *)

(** The descriptor, the buffer and the number of bytes read. *)
Definition garry_file_read (f : garry_file_descriptor) (buf : list Z) (count : Z)
  : option (garry_file_descriptor * list Z * Z) :=
  if f_open f then
    let s := os_pread f count (f_pos f) in
    buf ← blit buf 0 s;
    Some (set_pos f (f_pos f + zlen s), buf, zlen s)
  else Some (f, buf, -1).

Definition garry_file_write_bytes (f : garry_file_descriptor) (buf : list Z) (count : Z)
  : option (garry_file_descriptor * Z) :=
  s ← slice buf 0 count;
  let '(f, n) := os_pwrite f s (f_pos f) in
  Some (if decide (n > 0) then set_pos f (f_pos f + n) else f, n).

(** [lseek] with [SEEK_SET]. *)
Definition garry_file_seek_set (f : garry_file_descriptor) (offset : Z)
  : garry_file_descriptor * Z :=
  if decide (f_open f = false \/ offset < 0) then (f, -1) else (set_pos f offset, offset).

(** [ftruncate] does not move the position. *)
Definition garry_file_truncate (f : garry_file_descriptor) (size : Z)
  : garry_file_descriptor * bool :=
  if decide (f_open f = false \/ size < 0) then (f, false)
  else (set_bytes f (take (Z.to_nat size) (f_bytes f) ++ zeros (size - zlen (f_bytes f))), true).

Definition garry_file_sync (f : garry_file_descriptor) : garry_file_descriptor := f.

Definition garry_file_close (f : garry_file_descriptor) : garry_file_descriptor :=
  File (f_bytes f) (f_pos f) false (f_tape f).

(** * Bytes of a file *)

(** The byte at a position; past the end of the file there are zeros. *)
Definition byte_at (b : list Z) (i : Z) : Z := default 0 (rd b i).

Lemma rd_zeros n i : 0 <= i < n -> rd (zeros n) i = Some 0.
Proof.
  intros. unfold rd, zeros. rewrite decide_True by lia. apply lookup_replicate_2. lia.
Qed.

Lemma zlen_zeros_max n : zlen (zeros n) = Z.max 0 n.
Proof. unfold zeros. rewrite zlen_replicate. lia. Qed.

Lemma byte_at_app_zeros b n i : byte_at (b ++ zeros n) i = byte_at b i.
Proof.
  unfold byte_at. destruct (decide (i < 0)); [by rewrite !rd_None by lia|].
  destruct (decide (i < zlen b)); [by rewrite rd_app_l|].
  rewrite (rd_None b) by lia. rewrite rd_app_r by lia.
  destruct (decide (i - zlen b < n)); [by rewrite rd_zeros by lia|].
  rewrite rd_None; [done|]. rewrite zlen_zeros_max. lia.
Qed.

Lemma zlen_overwrite b off s :
  0 <= off -> zlen (overwrite b off s) = Z.max (zlen b) (off + zlen s).
Proof.
  intros. unfold overwrite. pose proof (zlen_nonneg s). pose proof (zlen_nonneg b).
  rewrite !zlen_app. unfold zlen. rewrite length_take, length_drop, length_app.
  unfold zeros. rewrite length_replicate. unfold zlen in *. lia.
Qed.

Lemma byte_at_overwrite b off s i :
  0 <= off ->
  byte_at (overwrite b off s) i =
    if decide (off <= i < off + zlen s) then byte_at s (i - off) else byte_at b i.
Proof.
  intros Hoff. pose proof (zlen_nonneg s). unfold overwrite.
  set (b' := b ++ zeros (off + zlen s - zlen b)).
  assert (Hb' : off + zlen s <= zlen b').
  { subst b'. rewrite zlen_app, zlen_zeros_max. lia. }
  destruct (blit_split b' off s) as (p & g & q & E & Hp & Hg & Hb); [lia..|].
  assert (Hw : take (Z.to_nat off) b' ++ s ++ drop (Z.to_nat (off + zlen s)) b' = p ++ s ++ q).
  { unfold blit in Hb. rewrite decide_True in Hb by lia. injection Hb as <-.
    do 3 f_equal. unfold zlen. lia. }
  rewrite Hw. rewrite <- (byte_at_app_zeros b (off + zlen s - zlen b)). fold b'.
  unfold byte_at. pose proof (rd_blit _ _ _ _ i Hb) as Hr. rewrite Hr. by case_decide.
Qed.

(** * The pages of a file *)

(** The content of a page on disk; what lies past the end reads as zeros. *)
Definition disk_page (f : garry_file_descriptor) (page_size pid : Z) : list Z :=
  map (fun k => byte_at (f_bytes f) (pid * page_size + Z.of_nat k)) (seq 0 (Z.to_nat page_size)).

Lemma zlen_disk_page f ps pid : 0 <= ps -> zlen (disk_page f ps pid) = ps.
Proof. intros. unfold disk_page, zlen. rewrite length_map, length_seq. lia. Qed.

Lemma rd_disk_page f ps pid i :
  0 <= i < ps -> rd (disk_page f ps pid) i = Some (byte_at (f_bytes f) (pid * ps + i)).
Proof.
  intros. unfold rd, disk_page. rewrite decide_True by lia.
  rewrite list_lookup_fmap, lookup_seq_lt by lia. simpl. do 2 f_equal. lia.
Qed.

(** A file that holds whole pages and whose writes will succeed. *)
Record file_ok (ps : Z) (f : garry_file_descriptor) : Prop := {
  fo_open : f_open f = true;
  fo_tape : f_tape f = [];
  fo_aligned : (ps | zlen (f_bytes f))
}.

Lemma page_disjoint ps p q : 0 < ps -> p <> q -> p * ps + ps <= q * ps \/ q * ps + ps <= p * ps.
Proof. intros. destruct (decide (p < q)); [left|right]; nia. Qed.

Lemma read_page_disk ps f pid buf :
  file_ok ps f -> 0 < ps -> 0 <= pid -> zlen buf = ps ->
  garry_file_read_page f pid buf ps = Some (disk_page f ps pid).
Proof.
  intros [Ho Ht [k Hk]] Hps Hpid Hb. unfold garry_file_read_page, os_pread.
  rewrite decide_False by (rewrite Ho; intros [?|?]; [done|nia]).
  set (s := take _ _).
  assert (Hs : zlen s = Z.max 0 (Z.min ps (zlen (f_bytes f) - pid * ps))).
  { subst s. unfold zlen. rewrite length_take, length_drop. unfold zlen in *. nia. }
  assert (Hcase : zlen s = ps \/ zlen (f_bytes f) <= pid * ps).
  { destruct (decide (k <= pid)); [right|left]; nia. }
  destruct (decide (zlen s < ps)) as [Hd|Hd].
  - destruct (blit_ok buf 0 s) as (b & -> & Hlb); [lia..|]. cbn [mbind option_bind].
    destruct Hcase as [?|Hpast]; [lia|]. unfold memset.
    rewrite blit_whole by (rewrite zlen_replicate; lia). f_equal. symmetry.
    apply list_eq_rd; [rewrite zlen_disk_page, zlen_replicate by lia; lia|].
    rewrite zlen_disk_page by lia. intros i Hi. rewrite rd_disk_page by done.
    fold (zeros ps). rewrite rd_zeros by lia. unfold byte_at. by rewrite rd_None by lia.
  - rewrite (blit_whole buf s) by lia. cbn [mbind option_bind]. f_equal.
    apply list_eq_rd; [rewrite zlen_disk_page by lia; lia|]. intros i Hi.
    rewrite rd_disk_page by lia. unfold byte_at.
    assert (Hsl : slice (f_bytes f) (pid * ps) ps = Some s) by (apply slice_Some; nia).
    rewrite (rd_slice _ _ _ _ i Hsl) by lia.
    destruct (rd_is_Some (f_bytes f) (pid * ps + i)) as [x ->]; [nia|done].
Qed.

Lemma write_page_disk ps f pid buf s :
  file_ok ps f -> 0 < ps -> 0 <= pid -> slice buf 0 ps = Some s ->
  exists f', garry_file_write_page f pid buf ps = Some (f', true) /\ file_ok ps f' /\
    forall q, 0 <= q -> disk_page f' ps q = if decide (q = pid) then s else disk_page f ps q.
Proof.
  intros [Ho Ht [k Hk]] Hps Hpid Hs. pose proof (slice_is_Some _ _ _ _ Hs) as (_&_&_&Hl).
  unfold garry_file_write_page, os_pwrite. rewrite Hs. cbn [mbind option_bind].
  rewrite decide_False by (rewrite Ho; intros [?|?]; [done|nia]). rewrite Ht.
  eexists. split; [rewrite bool_decide_true by done; reflexivity|].
  split.
  - split; [done|done|]. cbn [f_bytes]. rewrite zlen_overwrite, Hl, Hk by nia.
    destruct (decide (k <= pid)); [exists (pid + 1)|exists k]; nia.
  - intros q Hq.
    apply list_eq_rd; [case_decide; rewrite !zlen_disk_page by lia; lia|].
    rewrite zlen_disk_page by lia. intros i Hi. rewrite rd_disk_page by done. cbn [f_bytes].
    rewrite byte_at_overwrite, Hl by nia. case_decide as Hin; case_decide as Hqp; try subst q.
    + replace (pid * ps + i - pid * ps) with i by lia. unfold byte_at.
      destruct (rd_is_Some s i) as [x ->]; [lia|done].
    + pose proof (page_disjoint ps q pid Hps Hqp). lia.
    + lia.
    + by rewrite rd_disk_page by lia.
Qed.
