(* ===== verification/BufferPool.v ===== *)
(** The buffer pool, [src/src/buffer_pool.c]: a fixed number of page slots over
    the database file, with pin counts, least-recently-used eviction of unpinned
    pages and write-back of dirty ones.

    A pointer into the pool is the index of its slot.  Page buffers have
    [page_size] bytes, the part of the C array that pages use.  The abstract
    specification is a map from page ids to page contents, [pool_view]. *)

From S2P Require Import Prelude Endian FileIo.

Definition GARRY_MAX_POOL_SIZE : Z := 256.

(** * State *)

Record slot := Slot {
  s_page : list Z; s_pid : Z; s_pin : Z; s_dirty : bool; s_loaded : bool; s_access : Z
}.

Record garry_buffer_pool := Pool {
  p_capacity : Z; p_page_size : Z; p_slots : list slot; p_fd : garry_file_descriptor;
  p_next_page : Z; p_free_list_head : Z; p_access_counter : Z
}.

Definition set_slots (p : garry_buffer_pool) (l : list slot) : garry_buffer_pool :=
  Pool (p_capacity p) (p_page_size p) l (p_fd p) (p_next_page p) (p_free_list_head p)
    (p_access_counter p).
Definition set_fd (p : garry_buffer_pool) (f : garry_file_descriptor) : garry_buffer_pool :=
  Pool (p_capacity p) (p_page_size p) (p_slots p) f (p_next_page p) (p_free_list_head p)
    (p_access_counter p).
Definition set_next_page (p : garry_buffer_pool) (n : Z) : garry_buffer_pool :=
  Pool (p_capacity p) (p_page_size p) (p_slots p) (p_fd p) n (p_free_list_head p)
    (p_access_counter p).
Definition set_free_list_head (p : garry_buffer_pool) (n : Z) : garry_buffer_pool :=
  Pool (p_capacity p) (p_page_size p) (p_slots p) (p_fd p) (p_next_page p) n (p_access_counter p).

(** [pool->access_counter++;], an unsigned counter. *)
Definition bump_access (p : garry_buffer_pool) : garry_buffer_pool :=
  Pool (p_capacity p) (p_page_size p) (p_slots p) (p_fd p) (p_next_page p) (p_free_list_head p)
    (u32 (p_access_counter p + 1)).

(** Update of one slot. *)
Definition upd_slot (p : garry_buffer_pool) (idx : Z) (f : slot -> slot)
  : option garry_buffer_pool :=
  s ← rd (p_slots p) idx;
  l ← wr (p_slots p) idx (f s);
  Some (set_slots p l).

Definition with_page (b : list Z) (s : slot) : slot :=
  Slot b (s_pid s) (s_pin s) (s_dirty s) (s_loaded s) (s_access s).
Definition with_pin (n : Z) (s : slot) : slot :=
  Slot (s_page s) (s_pid s) n (s_dirty s) (s_loaded s) (s_access s).
Definition with_dirty (d : bool) (s : slot) : slot :=
  Slot (s_page s) (s_pid s) (s_pin s) d (s_loaded s) (s_access s).
Definition with_access (a : Z) (s : slot) : slot :=
  Slot (s_page s) (s_pid s) (s_pin s) (s_dirty s) (s_loaded s) a.

(** * Slot search *)

Fixpoint find_slot_loop (l : list slot) (i pid : Z) : option Z :=
  match l with
  | [] => None
  | s :: l =>
      if decide (s_loaded s = true /\ s_pid s = pid) then Some i
      else find_slot_loop l (i + 1) pid
  end.

(** [None] is [GARRY_INVALID_SLOT]. *)
Definition find_slot (pool : garry_buffer_pool) (pid : Z) : option Z :=
  find_slot_loop (p_slots pool) 0 pid.

Fixpoint first_unloaded (l : list slot) (i : Z) : option Z :=
  match l with
  | [] => None
  | s :: l => if s_loaded s then first_unloaded l (i + 1) else Some i
  end.

Fixpoint least_recent (l : list slot) (i : Z) (best : option Z) (best_access : Z) : option Z :=
  match l with
  | [] => best
  | s :: l =>
      if decide (s_pin s = 0 /\ s_access s < best_access)
      then least_recent l (i + 1) (Some i) (s_access s)
      else least_recent l (i + 1) best best_access
  end.

Definition find_eviction_candidate (pool : garry_buffer_pool) : option Z :=
  match first_unloaded (p_slots pool) 0 with
  | Some i => Some i
  | None => least_recent (p_slots pool) 0 None 0xFFFFFFFF
  end.

(** Write a slot back; the boolean is the result of the file write. *)
Definition write_back (pool : garry_buffer_pool) (idx : Z) : option (garry_buffer_pool * bool) :=
  s ← rd (p_slots pool) idx;
  '(fd, ok) ← garry_file_write_page (p_fd pool) (s_pid s) (s_page s) (p_page_size pool);
  Some (set_fd pool fd, ok).

(** * Operations *)

Definition ensure_loaded (pool : garry_buffer_pool) (pid : Z)
  : option (garry_buffer_pool * option Z) :=
  match find_slot pool pid with
  | Some idx => Some (pool, Some idx)
  | None =>
      match find_eviction_candidate pool with
      | None => Some (pool, None)
      | Some victim =>
          s ← rd (p_slots pool) victim;
          '(pool, ok) ←
            (if decide (s_loaded s = true /\ s_dirty s = true) then
               '(pool, ok) ← write_back pool victim;
               if ok : bool then
                 pool ← upd_slot pool victim (with_dirty false);
                 Some (pool, true)
               else Some (pool, false)
             else Some (pool, true));
          if ok : bool then
            let pool := bump_access pool in
            page ← memset (s_page s) 0 0 (p_page_size pool);
            page ← garry_file_read_page (p_fd pool) pid page (p_page_size pool);
            pool ← upd_slot pool victim (fun _ =>
                     Slot page pid 0 false true (p_access_counter pool));
            Some (pool, Some victim)
          else Some (pool, None)
      end
  end.

Definition garry_pool_create (fd : garry_file_descriptor) (capacity page_size : Z)
  : option garry_buffer_pool :=
  if decide (capacity = 0 \/ capacity > GARRY_MAX_POOL_SIZE) then None
  else if decide (page_size < 512 \/ page_size > 65536) then None
  else Some (Pool capacity page_size
               (replicate (Z.to_nat capacity) (Slot (zeros page_size) 0 0 false false 0))
               fd 0 (-1) 0).

(** The returned pointer is the slot index, [None] for [NULL]. *)
Definition garry_pool_pin_page (pool : garry_buffer_pool) (pid : Z)
  : option (garry_buffer_pool * option Z) :=
  if decide (pid < 0) then Some (pool, None) else
  '(pool, r) ← ensure_loaded pool pid;
  match r with
  | None => Some (pool, None)
  | Some idx =>
      let pool := bump_access pool in
      pool ← upd_slot pool idx (fun s =>
               with_access (p_access_counter pool) (with_pin (u32 (s_pin s + 1)) s));
      Some (pool, Some idx)
  end.

Definition garry_pool_try_pin (pool : garry_buffer_pool) (pid : Z)
  : option (garry_buffer_pool * option Z) :=
  if decide (pid < 0) then Some (pool, None) else
  match find_slot pool pid with
  | None => Some (pool, None)
  | Some idx =>
      let pool := bump_access pool in
      pool ← upd_slot pool idx (fun s =>
               with_access (p_access_counter pool) (with_pin (u32 (s_pin s + 1)) s));
      Some (pool, Some idx)
  end.

Definition garry_pool_release_page (pool : garry_buffer_pool) (pid : Z)
  : option garry_buffer_pool :=
  if decide (pid < 0) then Some pool else
  match find_slot pool pid with
  | None => Some pool
  | Some idx =>
      upd_slot pool idx (fun s => if decide (s_pin s > 0) then with_pin (s_pin s - 1) s else s)
  end.

Definition garry_pool_pin_count (pool : garry_buffer_pool) (pid : Z) : option Z :=
  if decide (pid < 0) then Some 0 else
  match find_slot pool pid with
  | Some idx => s_pin <$> rd (p_slots pool) idx
  | None => Some 0
  end.

Definition garry_pool_mark_dirty (pool : garry_buffer_pool) (pid : Z)
  : option garry_buffer_pool :=
  if decide (pid < 0) then Some pool else
  match find_slot pool pid with
  | None => Some pool
  | Some idx => upd_slot pool idx (with_dirty true)
  end.

(** The end of both paths of [garry_pool_allocate]: write the victim back if it
    is dirty and give its slot, zeroed, to [pid]. *)
Definition take_victim (pool : garry_buffer_pool) (victim pid : Z)
  : option (garry_buffer_pool * bool) :=
  s ← rd (p_slots pool) victim;
  '(pool, ok) ← (if s_dirty s then write_back pool victim else Some (pool, true));
  if ok : bool then
    page ← memset (s_page s) 0 0 (p_page_size pool);
    let pool := bump_access pool in
    pool ← upd_slot pool victim (fun _ => Slot page pid 0 false true (p_access_counter pool));
    Some (pool, true)
  else Some (pool, false).

Definition garry_pool_allocate (pool : garry_buffer_pool) : option (garry_buffer_pool * Z) :=
  if decide (p_free_list_head pool >= 0) then
    let free_pid := p_free_list_head pool in
    head ← (match find_slot pool free_pid with
            | Some free_idx => s ← rd (p_slots pool) free_idx; garry_read_int32 (s_page s) 0
            | None => Some (-1)
            end);
    let pool := set_free_list_head pool head in
    match find_eviction_candidate pool with
    | None => Some (pool, -1)
    | Some victim =>
        '(pool, ok) ← take_victim pool victim free_pid;
        Some (pool, if ok : bool then free_pid else -1)
    end
  else
    match find_eviction_candidate pool with
    | None => Some (pool, -1)
    | Some victim =>
        if decide (p_next_page pool < 0) then Some (pool, -1)
        else
          let pid := p_next_page pool in
          '(pool, ok) ← take_victim pool victim pid;
          if ok : bool then
            next ← ck (pid + 1);
            Some (set_next_page pool next, pid)
          else Some (pool, -1)
    end.

Definition garry_pool_free_page (pool : garry_buffer_pool) (pid : Z)
  : option garry_buffer_pool :=
  if decide (pid < 0) then Some pool else
  pool ←
    (match find_slot pool pid with
     | None => Some pool
     | Some idx =>
         s ← rd (p_slots pool) idx;
         pool ← (if s_dirty s then '(pool, _) ← write_back pool idx; Some pool else Some pool);
         upd_slot pool idx (fun s => Slot (s_page s) (s_pid s) 0 false false (s_access s))
     end);
  '(pool, r) ← ensure_loaded pool pid;
  pool ←
    (match r with
     | None => Some pool
     | Some idx =>
         s ← rd (p_slots pool) idx;
         page ← garry_write_int32 (s_page s) 0 (p_free_list_head pool);
         upd_slot pool idx (fun s => with_dirty true (with_page page s))
     end);
  Some (set_free_list_head pool pid).

Definition garry_pool_is_loaded (pool : garry_buffer_pool) (pid : Z) : bool :=
  match find_slot pool pid with Some _ => true | None => false end.

Definition garry_pool_flush_page (pool : garry_buffer_pool) (pid : Z)
  : option (garry_buffer_pool * bool) :=
  if decide (pid < 0) then Some (pool, false) else
  match find_slot pool pid with
  | None => Some (pool, true)
  | Some idx =>
      s ← rd (p_slots pool) idx;
      if s_dirty s then
        '(pool, ok) ← write_back pool idx;
        if ok : bool then
          pool ← upd_slot pool idx (with_dirty false);
          Some (pool, true)
        else Some (pool, false)
      else Some (pool, true)
  end.

(** The loop stops at the first failing write; [n] slots are left. *)
Fixpoint flush_all_loop (n : nat) (i : Z) (pool : garry_buffer_pool) : option garry_buffer_pool :=
  match n with
  | O => Some pool
  | S n =>
      s ← rd (p_slots pool) i;
      if decide (s_loaded s = true /\ s_dirty s = true) then
        '(pool, ok) ← write_back pool i;
        if ok : bool then
          pool ← upd_slot pool i (with_dirty false);
          flush_all_loop n (i + 1) pool
        else Some pool
      else flush_all_loop n (i + 1) pool
  end.

Definition garry_pool_flush_all (pool : garry_buffer_pool) : option garry_buffer_pool :=
  flush_all_loop (Z.to_nat (p_capacity pool)) 0 pool.

(** The close loop ignores write failures; the file is what remains. *)
Definition garry_pool_close (pool : garry_buffer_pool) : option garry_file_descriptor :=
  pool ← forZ 0 (p_capacity pool) (fun i pool =>
    s ← rd (p_slots pool) i;
    if decide (s_loaded s = true /\ s_dirty s = true) then
      '(pool, _) ← write_back pool i;
      upd_slot pool i (with_dirty false)
    else Some pool) pool;
  Some (garry_file_close (p_fd pool)).

(** A client writes the buffer a pinned pointer gives it. *)
Definition slot_page (pool : garry_buffer_pool) (idx : Z) : option (list Z) :=
  s_page <$> rd (p_slots pool) idx.
Definition set_slot_page (pool : garry_buffer_pool) (idx : Z) (b : list Z)
  : option garry_buffer_pool :=
  upd_slot pool idx (with_page b).

(** * The abstract page map *)

Definition pool_view (p : garry_buffer_pool) (pid : Z) : list Z :=
  match find_slot p pid with
  | Some i => default [] (slot_page p i)
  | None => disk_page (p_fd p) (p_page_size p) pid
  end.

(** Slots hold distinct pages; a clean page equals its copy on disk, unless a
    client that has it pinned is writing it and has yet to mark it dirty. *)
Record pool_wf (p : garry_buffer_pool) : Prop := {
  wf_capacity : zlen (p_slots p) = p_capacity p;
  wf_page_size : 0 < p_page_size p;
  wf_file : file_ok (p_page_size p) (p_fd p);
  wf_slot : forall i s, rd (p_slots p) i = Some s ->
    zlen (s_page s) = p_page_size p /\ 0 <= s_pin s /\ (s_dirty s = true -> s_loaded s = true) /\
    (s_loaded s = true -> 0 <= s_pid s);
  wf_unique : forall i j si sj, rd (p_slots p) i = Some si -> rd (p_slots p) j = Some sj ->
    s_loaded si = true -> s_loaded sj = true -> s_pid si = s_pid sj -> i = j;
  wf_clean : forall i s, rd (p_slots p) i = Some s -> s_loaded s = true -> s_dirty s = false ->
    s_pin s = 0 -> s_page s = disk_page (p_fd p) (p_page_size p) (s_pid s)
}.

(** No client is in the middle of a write. *)
Definition settled (p : garry_buffer_pool) : Prop :=
  forall i s, rd (p_slots p) i = Some s -> s_loaded s = true -> s_dirty s = false ->
    s_page s = disk_page (p_fd p) (p_page_size p) (s_pid s).

(** * Slot lookup *)

Lemma rd_insert {A} (l : list A) i j x :
  0 <= i < zlen l -> rd (<[Z.to_nat i:=x]> l) j = if decide (j = i) then Some x else rd l j.
Proof.
  intros Hi. pose proof (wr_Some l i x Hi) as Hw. case_decide; subst.
  - by eapply rd_wr.
  - by eapply rd_wr_ne; [exact Hw|].
Qed.

Lemma find_slot_loop_spec l i pid :
  match find_slot_loop l i pid with
  | Some k => exists s, i <= k /\ rd l (k - i) = Some s /\ s_loaded s = true /\ s_pid s = pid
  | None => forall k s, rd l k = Some s -> s_loaded s = true -> s_pid s <> pid
  end.
Proof.
  revert i. induction l as [|s l IH]; intros i; cbn [find_slot_loop].
  - intros k s Hk. apply rd_Some_range in Hk. change (zlen []) with 0 in Hk. lia.
  - case_decide as Hd.
    + exists s. rewrite Z.sub_diag, rd_cons_0. destruct Hd. repeat split; done || lia.
    + specialize (IH (i + 1)). destruct (find_slot_loop l (i + 1) pid) as [k|].
      * destruct IH as (s' & Hk & Hr & Hl & Hp). exists s'. split; [lia|]. split; [|done].
        rewrite rd_cons_S by lia. by replace (k - i - 1) with (k - (i + 1)) by lia.
      * intros k s' Hk. pose proof (rd_Some_range _ _ _ Hk).
        destruct (decide (k = 0)) as [->|].
        -- rewrite rd_cons_0 in Hk. injection Hk as <-. tauto.
        -- rewrite rd_cons_S in Hk by lia. by eapply IH.
Qed.

Lemma find_slot_Some p pid i :
  find_slot p pid = Some i ->
  exists s, rd (p_slots p) i = Some s /\ s_loaded s = true /\ s_pid s = pid.
Proof.
  intros H. pose proof (find_slot_loop_spec (p_slots p) 0 pid) as Hs. unfold find_slot in H.
  rewrite H in Hs. destruct Hs as (s & _ & Hr & ?). rewrite Z.sub_0_r in Hr. eauto.
Qed.

Lemma find_slot_None p pid :
  find_slot p pid = None ->
  forall i s, rd (p_slots p) i = Some s -> s_loaded s = true -> s_pid s <> pid.
Proof.
  intros H. pose proof (find_slot_loop_spec (p_slots p) 0 pid) as Hs. unfold find_slot in H.
  by rewrite H in Hs.
Qed.

Lemma find_slot_unique p i s :
  pool_wf p -> rd (p_slots p) i = Some s -> s_loaded s = true -> find_slot p (s_pid s) = Some i.
Proof.
  intros Hwf Hr Hl. destruct (find_slot p (s_pid s)) as [j|] eqn:E.
  - apply find_slot_Some in E as (s' & Hr' & Hl' & Hp). f_equal. by eapply wf_unique.
  - by destruct (find_slot_None _ _ E _ _ Hr Hl).
Qed.

Lemma find_slot_absent p pid :
  (forall i s, rd (p_slots p) i = Some s -> s_loaded s = true -> s_pid s <> pid) ->
  find_slot p pid = None.
Proof.
  intros H. destruct (find_slot p pid) as [i|] eqn:E; [|done].
  apply find_slot_Some in E as (s & Hr & Hl & Hp). by destruct (H i s Hr Hl).
Qed.

Lemma view_loaded p i s :
  pool_wf p -> rd (p_slots p) i = Some s -> s_loaded s = true -> pool_view p (s_pid s) = s_page s.
Proof.
  intros Hwf Hr Hl. unfold pool_view, slot_page. by rewrite (find_slot_unique p i s), Hr.
Qed.

Lemma view_absent p pid :
  find_slot p pid = None -> pool_view p pid = disk_page (p_fd p) (p_page_size p) pid.
Proof. unfold pool_view. by intros ->. Qed.

(** * Steps that change one slot *)

Lemma upd_slot_eq p i f s :
  rd (p_slots p) i = Some s ->
  upd_slot p i f = Some (set_slots p (<[Z.to_nat i:=f s]> (p_slots p))).
Proof.
  intros Hr. unfold upd_slot. rewrite Hr. cbn [mbind option_bind].
  rewrite wr_Some by by eapply rd_Some_range. done.
Qed.

(** Changing a slot without changing which page it holds. *)
Lemma upd_slot_spec p i f s :
  pool_wf p -> rd (p_slots p) i = Some s ->
  s_loaded (f s) = s_loaded s -> s_pid (f s) = s_pid s -> zlen (s_page (f s)) = p_page_size p ->
  0 <= s_pin (f s) -> (s_dirty (f s) = true -> s_loaded s = true) ->
  (s_loaded s = true -> s_dirty (f s) = false -> s_pin (f s) = 0 ->
   s_page (f s) = disk_page (p_fd p) (p_page_size p) (s_pid s)) ->
  exists p', upd_slot p i f = Some p' /\ pool_wf p' /\
    p' = set_slots p (<[Z.to_nat i:=f s]> (p_slots p)) /\
    forall q, pool_view p' q =
      if decide (s_loaded s = true /\ q = s_pid s) then s_page (f s) else pool_view p q.
Proof.
  intros Hwf Hr Hl Hp Hz Hpin Hd Hc. pose proof (rd_Some_range _ _ _ Hr) as Hi.
  rewrite (upd_slot_eq p i f s Hr).
  set (p' := set_slots p _). exists p'. split; [done|].
  assert (Hrd : forall j, rd (p_slots p') j = if decide (j = i) then Some (f s) else rd (p_slots p) j)
    by (intros; by apply rd_insert).
  assert (Hwf' : pool_wf p').
  { destruct Hwf as [W1 W2 W3 W4 W5 W6]. split; [cbn; by rewrite zlen_insert|done|done|..].
    - intros j sj. rewrite Hrd. case_decide; [|apply W4]. intros [= <-].
      destruct (W4 i s Hr) as (_&_&_&?). rewrite Hl, Hp. done.
    - intros j k sj sk. rewrite !Hrd. repeat case_decide; subst; intros Hj Hk; simplify_eq;
        rewrite ?Hl, ?Hp; intros; [done|by eapply W5|by eapply W5|by eapply W5].
    - intros j sj. rewrite Hrd. case_decide; [|apply W6]. intros [= <-]. rewrite Hl, Hp. exact Hc. }
  split; [done|]. split; [done|]. intros q. case_decide as Hq.
  - destruct Hq as [Hls ->]. rewrite <- Hp. apply (view_loaded p' i); [done| |congruence].
    rewrite Hrd. by rewrite decide_True.
  - destruct (find_slot p q) as [j|] eqn:E.
    + apply find_slot_Some in E as (sj & Hj & Hlj & <-). rewrite (view_loaded p j sj) by done.
      apply (view_loaded p' j); [done| |done]. rewrite Hrd, decide_False; [done|].
      intros ->. simplify_eq. tauto.
    + rewrite (view_absent p) by done. rewrite view_absent; [done|].
      apply find_slot_absent. intros j sj. rewrite Hrd. case_decide as Hji.
      * intros [= <-]. rewrite Hl, Hp. intros. intros <-. tauto.
      * by apply find_slot_None.
Qed.

(** Giving a slot whose old content is on disk to a page that is not loaded. *)
Lemma load_slot_spec p i s s' :
  pool_wf p -> rd (p_slots p) i = Some s ->
  (s_loaded s = true -> s_page s = disk_page (p_fd p) (p_page_size p) (s_pid s)) ->
  find_slot p (s_pid s') = None -> 0 <= s_pid s' -> s_loaded s' = true -> s_dirty s' = false ->
  0 <= s_pin s' -> s_page s' = disk_page (p_fd p) (p_page_size p) (s_pid s') ->
  exists p', upd_slot p i (fun _ => s') = Some p' /\ pool_wf p' /\
    p' = set_slots p (<[Z.to_nat i:=s']> (p_slots p)) /\
    find_slot p' (s_pid s') = Some i /\ forall q, pool_view p' q = pool_view p q.
Proof.
  intros Hwf Hr Hclean Hnone Hpid Hl Hd Hpin Hpage. pose proof (rd_Some_range _ _ _ Hr) as Hi.
  rewrite (upd_slot_eq p i _ s Hr).
  set (p' := set_slots p _). exists p'. split; [done|].
  assert (Hrd : forall j, rd (p_slots p') j = if decide (j = i) then Some s' else rd (p_slots p) j)
    by (intros; by apply rd_insert).
  pose proof (find_slot_None _ _ Hnone) as Hfresh.
  assert (Hwf' : pool_wf p').
  { pose proof Hwf as [W1 W2 W3 W4 W5 W6].
    split; [cbn; by rewrite zlen_insert|done|done|..].
    - intros j sj. rewrite Hrd. case_decide; [|apply W4]. intros [= <-].
      rewrite Hpage, zlen_disk_page by (cbn; lia). by rewrite Hd.
    - intros j k sj sk. rewrite !Hrd. repeat case_decide; subst; intros Hj Hk; simplify_eq; intros Hlj Hlk Hpp;
        [done|by destruct (Hfresh k sk Hk Hlk)|by destruct (Hfresh j sj Hj Hlj)|by eapply W5].
    - intros j sj. rewrite Hrd. case_decide; [|apply W6]. by intros [= <-]. }
  assert (Hfind : find_slot p' (s_pid s') = Some i).
  { apply find_slot_unique; [done| |done]. rewrite Hrd. by rewrite decide_True. }
  split; [done|]. split; [done|]. split; [done|]. intros q.
  destruct (decide (q = s_pid s')) as [->|Hq].
  - rewrite (view_absent p) by done. rewrite (view_loaded p' i s'); [done|done| |done].
    rewrite Hrd. by rewrite decide_True.
  - destruct (find_slot p q) as [j|] eqn:E.
    + apply find_slot_Some in E as (sj & Hj & Hlj & <-). rewrite (view_loaded p j sj) by done.
      destruct (decide (j = i)) as [->|Hji].
      * simplify_eq. rewrite view_absent.
        -- symmetry. auto.
        -- apply find_slot_absent. intros k sk. rewrite Hrd. case_decide as Hki.
           ++ intros [= <-] _. congruence.
           ++ intros Hk Hlk Hpp. destruct Hki. eapply (wf_unique p Hwf); eassumption.
      * apply (view_loaded p' j); [done| |done]. by rewrite Hrd, decide_False.
    + rewrite (view_absent p) by done. rewrite view_absent; [done|].
      apply find_slot_absent. intros j sj. rewrite Hrd. case_decide as Hji.
      * intros [= <-] _. congruence.
      * by apply find_slot_None.
Qed.

(** Writing a slot back changes its copy on disk and nothing else. *)
Lemma write_back_spec p i s :
  pool_wf p -> rd (p_slots p) i = Some s -> s_loaded s = true ->
  exists fd, write_back p i = Some (set_fd p fd, true) /\ pool_wf (set_fd p fd) /\
    disk_page fd (p_page_size p) (s_pid s) = s_page s /\
    (forall q, pool_view (set_fd p fd) q = pool_view p q) /\
    (forall q, 0 <= q -> q <> s_pid s ->
       disk_page fd (p_page_size p) q = disk_page (p_fd p) (p_page_size p) q).
Proof.
  intros Hwf Hr Hl. pose proof Hwf as [W1 W2 W3 W4 W5 W6].
  destruct (W4 i s Hr) as (Hz & _ & _ & Hpid). specialize (Hpid Hl).
  unfold write_back. rewrite Hr. cbn [mbind option_bind].
  destruct (write_page_disk (p_page_size p) (p_fd p) (s_pid s) (s_page s) (s_page s))
    as (fd & -> & Hfd & Hdisk); [done|done|done|by apply slice_all|].
  cbn [mbind option_bind]. exists fd. split; [done|].
  assert (Hself : disk_page fd (p_page_size p) (s_pid s) = s_page s)
    by (rewrite Hdisk by done; by rewrite decide_True).
  assert (Hwf' : pool_wf (set_fd p fd)).
  { split; [done|done|done|done|done|]. cbn. intros j sj Hj Hlj Hdj Hpj.
    rewrite Hdisk by (by apply (W4 j sj Hj)). case_decide as Heq; [|by apply (W6 j)].
    assert (j = i) as -> by (by eapply W5). by simplify_eq. }
  split; [done|]. split; [done|]. split; [|intros q Hq Hne; by rewrite Hdisk, decide_False].
  intros q. unfold pool_view, slot_page.
  change (find_slot (set_fd p fd) q) with (find_slot p q). cbn.
  destruct (find_slot p q) as [j|] eqn:E; [done|].
  destruct (decide (0 <= q)) as [Hq|Hq].
  - rewrite Hdisk by done. rewrite decide_False; [done|]. intros ->. by destruct (find_slot_None _ _ E i s).
  - apply list_eq_rd; rewrite !zlen_disk_page by lia; [done|]. intros k Hk.
    rewrite !rd_disk_page by done. unfold byte_at. rewrite !rd_None by nia. done.
Qed.

(** * Eviction *)

Lemma first_unloaded_spec l i :
  match first_unloaded l i with
  | Some k => exists s, i <= k /\ rd l (k - i) = Some s /\ s_loaded s = false
  | None => Forall (fun s => s_loaded s = true) l
  end.
Proof.
  revert i. induction l as [|s l IH]; intros i; cbn [first_unloaded]; [constructor|].
  destruct (s_loaded s) eqn:Hl.
  - specialize (IH (i + 1)). destruct (first_unloaded l (i + 1)) as [k|]; [|by constructor].
    destruct IH as (s' & Hk & Hr & ?). exists s'. split; [lia|]. split; [|done].
    rewrite rd_cons_S by lia. by replace (k - i - 1) with (k - (i + 1)) by lia.
  - exists s. rewrite Z.sub_diag, rd_cons_0. split; [lia|done].
Qed.

Lemma least_recent_spec l i best ba :
  match least_recent l i best ba with
  | Some k => best = Some k \/ exists s, i <= k /\ rd l (k - i) = Some s /\ s_pin s = 0
  | None => best = None /\ Forall (fun s => s_pin s = 0 -> ba <= s_access s) l
  end.
Proof.
  revert i best ba. induction l as [|s l IH]; intros i best ba; cbn [least_recent].
  - destruct best; [by left|]. split; [done|constructor].
  - case_decide as Hd.
    + specialize (IH (i + 1) (Some i) (s_access s)).
      destruct (least_recent l (i + 1) (Some i) (s_access s)) as [k|].
      * right. destruct IH as [[= ->]|(s' & Hk & Hr & Hp)].
        -- exists s. rewrite Z.sub_diag, rd_cons_0. split; [lia|]. split; [done|]. tauto.
        -- exists s'. split; [lia|]. split; [|done].
           rewrite rd_cons_S by lia. by replace (k - i - 1) with (k - (i + 1)) by lia.
      * by destruct IH.
    + specialize (IH (i + 1) best ba). destruct (least_recent l (i + 1) best ba) as [k|].
      * destruct IH as [->|(s' & Hk & Hr & Hp)]; [by left|right]. exists s'. split; [lia|].
        split; [|done]. rewrite rd_cons_S by lia. by replace (k - i - 1) with (k - (i + 1)) by lia.
      * destruct IH as [-> IH]. split; [done|]. constructor; [lia|done].
Qed.

Lemma eviction_spec p :
  match find_eviction_candidate p with
  | Some v => exists s, rd (p_slots p) v = Some s /\ (s_loaded s = true -> s_pin s = 0)
  | None => Forall (fun s => s_loaded s = true /\ (s_pin s = 0 -> 0xFFFFFFFF <= s_access s)) (p_slots p)
  end.
Proof.
  unfold find_eviction_candidate. pose proof (first_unloaded_spec (p_slots p) 0) as H1.
  destruct (first_unloaded (p_slots p) 0) as [k|].
  - destruct H1 as (s & _ & Hr & Hl). rewrite Z.sub_0_r in Hr. exists s. split; [done|]. congruence.
  - pose proof (least_recent_spec (p_slots p) 0 None 0xFFFFFFFF) as H2.
    destruct (least_recent _ _ _ _) as [k|].
    + destruct H2 as [?|(s & _ & Hr & Hp)]; [done|]. rewrite Z.sub_0_r in Hr. by exists s.
    + destruct H2 as [_ H2]. by apply Forall_and.
Qed.

(** * Loading a page *)

(** What every operation keeps: the abstract map and the pinned pages. *)
Record pool_same (p p' : garry_buffer_pool) : Prop := {
  same_capacity : p_capacity p' = p_capacity p;
  same_page_size : p_page_size p' = p_page_size p;
  same_next : p_next_page p' = p_next_page p;
  same_free : p_free_list_head p' = p_free_list_head p;
  same_view : forall q, pool_view p' q = pool_view p q;
  same_pinned : forall i s, rd (p_slots p) i = Some s -> s_loaded s = true -> 0 < s_pin s ->
    exists s', rd (p_slots p') i = Some s' /\ s_loaded s' = true /\ s_pid s' = s_pid s /\
      s_page s' = s_page s
}.

Lemma pool_same_refl p : pool_same p p.
Proof. split; [done..|]. intros. by exists s. Qed.

Lemma bump_wf p : pool_wf p -> pool_wf (bump_access p).
Proof. intros []. by split. Qed.

Lemma bump_view p q : pool_view (bump_access p) q = pool_view p q.
Proof. done. Qed.

(** The victim's slot, written back if it was dirty. *)
Lemma clean_victim p v s :
  pool_wf p -> rd (p_slots p) v = Some s ->
  exists p', (if decide (s_loaded s = true /\ s_dirty s = true) then
                '(pool, ok) ← write_back p v;
                if ok : bool then pool ← upd_slot pool v (with_dirty false); Some (pool, true)
                else Some (pool, false)
              else Some (p, true)) = Some (p', true) /\
    pool_wf p' /\ rd (p_slots p') v = Some (with_dirty false s) /\
    (forall j, j <> v -> rd (p_slots p') j = rd (p_slots p) j) /\
    p_capacity p' = p_capacity p /\ p_page_size p' = p_page_size p /\
    p_next_page p' = p_next_page p /\ p_free_list_head p' = p_free_list_head p /\
    (forall q, pool_view p' q = pool_view p q) /\ (settled p -> settled p').
Proof.
  intros Hwf Hr. pose proof (wf_slot p Hwf v s Hr) as (Hz & Hpin & Hdl & Hpid).
  destruct (decide (s_loaded s = true /\ s_dirty s = true)) as [[Hl Hd]|Hn].
  - destruct (write_back_spec p v s Hwf Hr Hl) as (fd & -> & Hwf1 & Hdisk & Hview & Hkeep).
    cbn [mbind option_bind].
    destruct (upd_slot_spec (set_fd p fd) v (with_dirty false) s) as (p' & -> & Hwf' & -> & Hv');
      [done|done|done|done|done|done|done|done|].
    cbn [mbind option_bind]. eexists. split; [done|]. split; [done|].
    pose proof (rd_Some_range _ _ _ Hr) as Hi. cbn [p_slots set_slots set_fd].
    split; [by rewrite rd_insert, decide_True|].
    split; [intros; by rewrite rd_insert, decide_False|]. do 4 (split; [done|]). split.
    + intros q. rewrite Hv'. destruct (decide (s_loaded s = true /\ q = s_pid s)) as [[_ ->]|];
        [|apply Hview].
      change (s_page (with_dirty false s)) with (s_page s). symmetry. by apply (view_loaded p v).
    + intros Hset j sj. cbn [p_slots set_slots set_fd p_fd p_page_size].
      rewrite rd_insert by done. destruct (decide (j = v)) as [->|Hj]; [by intros [= <-]|].
      intros Hrj Hlj Hdj.
      rewrite Hkeep; [by apply (Hset j)|by apply (wf_slot p Hwf j sj Hrj)|].
      intros Hp. apply Hj. by eapply (wf_unique p Hwf).
  - assert (Hsd : s_dirty s = false) by (destruct (s_dirty s); [tauto|done]).
    exists p. split; [done|]. split; [done|].
    split; [rewrite Hr; f_equal; destruct s; cbn in *; by subst|]. done.
Qed.

Lemma ensure_loaded_spec p pid :
  pool_wf p -> 0 <= pid ->
  exists p' r, ensure_loaded p pid = Some (p', r) /\ pool_wf p' /\ pool_same p p' /\
    match r with
    | Some i => find_slot p' pid = Some i /\
        garry_pool_pin_count p' pid = garry_pool_pin_count p pid
    | None => p' = p /\ find_eviction_candidate p = None
    end.
Proof.
  intros Hwf Hpid. unfold ensure_loaded. destruct (find_slot p pid) as [i|] eqn:Hf.
  { exists p, (Some i). split; [done|]. split; [done|]. by split; [apply pool_same_refl|]. }
  pose proof (eviction_spec p) as Hev. destruct (find_eviction_candidate p) as [v|];
    [|by exists p, None; auto using pool_same_refl].
  destruct Hev as (s & Hr & Hpin). rewrite Hr. cbn [mbind option_bind].
  destruct (clean_victim p v s Hwf Hr) as (p1 & -> & Hwf1 & Hr1 & Hother & Hc1 & Hp1 & Hn1 & Hfl1 & Hv1 & _).
  cbn [mbind option_bind]. destruct (wf_slot p Hwf v s Hr) as (Hz & _ & Hdl & _).
  unfold memset. cbn [p_page_size bump_access p_fd]. rewrite Hp1.
  rewrite blit_whole by (rewrite zlen_replicate; pose proof (wf_page_size p Hwf); lia).
  cbn [mbind option_bind].
  rewrite (read_page_disk (p_page_size p)); [|rewrite <- Hp1; apply Hwf1|apply Hwf|done|
    rewrite zlen_replicate; pose proof (wf_page_size p Hwf); lia].
  cbn [mbind option_bind].
  assert (Hf1 : find_slot p1 pid = None).
  { apply find_slot_absent. intros j sj Hj Hlj. destruct (decide (j = v)) as [->|Hne].
    - simplify_eq. cbn in *. by apply (find_slot_None _ _ Hf v).
    - rewrite Hother in Hj by done. by apply (find_slot_None _ _ Hf j). }
  set (s' := Slot _ pid 0 false true _).
  destruct (load_slot_spec (bump_access p1) v (with_dirty false s) s') as (p2 & -> & Hwf2 & -> & Hf2 & Hv2);
    [by apply bump_wf|done|intros; apply (wf_clean p1 Hwf1 v); auto|done|done|done|done|done|
     cbn; by rewrite Hp1|].
  cbn [mbind option_bind]. do 2 eexists. split; [done|]. split; [done|].
  split; [|split; [exact Hf2|]].
  2: { unfold garry_pool_pin_count. change (s_pid s') with pid in Hf2. rewrite Hf2, Hf.
       rewrite decide_False by lia. cbn.
       rewrite rd_insert by (apply (rd_Some_range _ _ _ Hr1)).
       rewrite decide_True by done. by destruct (decide (pid < 0)). }
  split; [done|done|done|done|intros; by rewrite Hv2, bump_view|].
  intros j sj Hj Hlj Hpj.
  assert (Hjv : j <> v) by (intros ->; simplify_eq; specialize (Hpin Hlj); lia).
  exists sj. cbn. rewrite rd_insert by (apply (rd_Some_range _ _ _ Hr1)).
  by rewrite decide_False, Hother.
Qed.

(** * Pins *)

Definition pin_slot (a : Z) (s : slot) : slot := with_access a (with_pin (u32 (s_pin s + 1)) s).

Lemma u32_nonneg x : 0 <= u32 x.
Proof. unfold u32. apply Z.mod_pos_bound. lia. Qed.

(** The shared end of [garry_pool_pin_page] and [garry_pool_try_pin]. *)
Lemma pin_slot_spec p i pid :
  pool_wf p -> find_slot p pid = Some i ->
  (forall n, garry_pool_pin_count p pid = Some n -> n < 2 ^ 32 - 1) ->
  exists p' s, rd (p_slots p) i = Some s /\
    upd_slot (bump_access p) i (pin_slot (p_access_counter (bump_access p))) = Some p' /\
    pool_wf p' /\ pool_same p p' /\ slot_page p' i = Some (pool_view p pid) /\
    garry_pool_pin_count p' pid = Some (s_pin s + 1) /\
    (forall j sj, rd (p_slots p) j = Some sj -> exists sj', rd (p_slots p') j = Some sj' /\
       s_loaded sj' = s_loaded sj /\ s_pid sj' = s_pid sj /\ s_page sj' = s_page sj).
Proof.
  intros Hwf Hf. pose proof Hf as (s & Hr & Hl & <-)%find_slot_Some.
  destruct (wf_slot p Hwf i s Hr) as (Hz & Hpin & Hd & Hpid). intros Hmax.
  assert (Hlt : s_pin s < 2 ^ 32 - 1).
  { apply Hmax. unfold garry_pool_pin_count. rewrite decide_False by (specialize (Hpid Hl); lia).
    by rewrite Hf, Hr. }
  assert (Hu : u32 (s_pin s + 1) = s_pin s + 1) by (apply Z.mod_small; lia). clear Hmax.
  set (a := p_access_counter (bump_access p)).
  destruct (upd_slot_spec (bump_access p) i (pin_slot a) s) as (p' & E & Hwf' & -> & Hv);
    [by apply bump_wf|done|done|done|done|apply u32_nonneg|done|cbn; lia|].
  eexists _, s. split; [done|]. split; [exact E|]. split; [done|].
  assert (Hrd : forall j, rd (<[Z.to_nat i:=pin_slot a s]> (p_slots p)) j =
    if decide (j = i) then Some (pin_slot a s) else rd (p_slots p) j)
    by (intros; by apply rd_insert, (rd_Some_range _ _ _ Hr)).
  assert (Hview : forall q, pool_view (set_slots (bump_access p)
      (<[Z.to_nat i:=pin_slot a s]> (p_slots p))) q = pool_view p q).
  { intros q. refine (eq_trans (Hv q) _).
    destruct (decide (s_loaded s = true /\ q = s_pid s)) as [[_ ->]|]; [|apply bump_view].
    symmetry. by apply (view_loaded p i s). }
  assert (Hkeep : forall j sj, rd (p_slots p) j = Some sj -> exists sj',
    rd (<[Z.to_nat i:=pin_slot a s]> (p_slots p)) j = Some sj' /\
    s_loaded sj' = s_loaded sj /\ s_pid sj' = s_pid sj /\ s_page sj' = s_page sj).
  { intros j sj Hj. rewrite Hrd. destruct (decide (j = i)) as [->|]; [|by exists sj].
    simplify_eq. by eexists. }
  split; [split; [done|done|done|done|exact Hview|]|split; [|split; [|exact Hkeep]]].
  - intros j sj Hj Hlj _. destruct (Hkeep j sj Hj) as (sj' & ? & ? & ?).
    exists sj'. split; [done|]. split; [congruence|done].
  - unfold slot_page. cbn [p_slots set_slots bump_access]. rewrite Hrd, decide_True by done. cbn.
    f_equal. symmetry. by apply (view_loaded p i s).
  - unfold garry_pool_pin_count. rewrite decide_False by (specialize (Hpid Hl); lia).
    pose proof (Hrd i) as Hi. rewrite decide_True in Hi by done.
    pose proof (find_slot_unique _ i _ Hwf' Hi Hl) as Hfi.
    cbn in Hfi. cbn. rewrite Hfi.
    rewrite <- Hu. exact (f_equal (fmap s_pin) Hi).
Qed.

(** C29: Pinning a page that exists never fails unless every slot is loaded and
    pinned (or was accessed at the counter's maximum); on success the pointer
    returned holds the page's content (from a slot or, after an eviction with
    write-back, from disk), no page's content changes, the pinned pages stay
    where they are with their content, and the page's pin count grows by one. *)
Theorem pin_page_correct p pid :
  pool_wf p -> 0 <= pid ->
  (forall n, garry_pool_pin_count p pid = Some n -> n < 2 ^ 32 - 1) ->
  exists p' r, garry_pool_pin_page p pid = Some (p', r) /\ pool_wf p' /\ pool_same p p' /\
    match r with
    | Some i => slot_page p' i = Some (pool_view p pid) /\
        exists n, garry_pool_pin_count p pid = Some n /\
          garry_pool_pin_count p' pid = Some (n + 1)
    | None => p' = p /\ Forall (fun s => s_loaded s = true /\
                          (s_pin s = 0 -> 0xFFFFFFFF <= s_access s)) (p_slots p)
    end.
Proof.
  intros Hwf Hpid Hmax. unfold garry_pool_pin_page. rewrite decide_False by lia.
  destruct (ensure_loaded_spec p pid Hwf Hpid) as (p1 & r & E & Hwf1 & Hs1 & Hr).
  rewrite E. cbn [mbind option_bind]. destruct r as [i|].
  2: { destruct Hr as [-> Hev]. exists p, None. split; [done|]. split; [done|]. split; [done|].
       pose proof (eviction_spec p) as Hsp. rewrite Hev in Hsp. done. }
  destruct Hr as [Hf Hcnt1].
  destruct (pin_slot_spec p1 i pid Hwf1 Hf) as (p2 & s & Hrs & Hu & Hwf2 & Hs2 & Hpage & Hcnt & Hkeep);
    [by rewrite Hcnt1|].
  fold (pin_slot (p_access_counter (bump_access p1))). rewrite Hu. cbn [mbind option_bind].
  exists p2, (Some i). split; [done|]. split; [done|].
  destruct Hs1 as [A1 A2 A3 A4 A5 A6], Hs2 as [B1 B2 B3 B4 B5 _]. split.
  - split; [congruence..|intros; by rewrite B5|]. intros j sj Hj Hlj Hpj.
    destruct (A6 j sj Hj Hlj Hpj) as (s1 & Hj1 & Hl1 & Hp1 & Hg1).
    destruct (Hkeep j s1 Hj1) as (s2 & ? & ? & ? & ?). exists s2.
    split; [done|]. split; [congruence|]. split; congruence.
  - rewrite Hpage, A5. split; [done|]. exists (s_pin s). split; [|done].
    rewrite <- Hcnt1. unfold garry_pool_pin_count. by rewrite Hf, Hrs, decide_False by lia.
Qed.

(** * Client writes *)

Lemma find_slot_loop_ext l l' i pid :
  map (fun s => (s_loaded s, s_pid s)) l = map (fun s => (s_loaded s, s_pid s)) l' ->
  find_slot_loop l i pid = find_slot_loop l' i pid.
Proof.
  revert l' i. induction l as [|s l IH]; intros [|s' l'] i H; try discriminate; [done|].
  cbn in H. injection H as Hl Hp H. cbn [find_slot_loop]. rewrite Hl, Hp. by rewrite (IH l').
Qed.

Lemma find_slot_insert p i s s' q :
  rd (p_slots p) i = Some s -> s_loaded s' = s_loaded s -> s_pid s' = s_pid s ->
  find_slot (set_slots p (<[Z.to_nat i:=s']> (p_slots p))) q = find_slot p q.
Proof.
  intros Hr Hl Hp. unfold find_slot. cbn. apply find_slot_loop_ext.
  change (map ?f ?l) with (f <$> l). rewrite list_fmap_insert, list_insert_id; [done|].
  rewrite list_lookup_fmap. unfold rd in Hr. case_decide; [|done]. rewrite Hr. cbn. congruence.
Qed.

(** The client protocol "pin, write the buffer, mark dirty" updates one page:
    writing [b] into a loaded page's buffer and marking it dirty gives a
    well-formed pool whose page map is updated at that page only. *)
Theorem page_write_updates_view p i pid b :
  pool_wf p -> find_slot p pid = Some i -> zlen b = p_page_size p ->
  exists p', (pool ← set_slot_page p i b; garry_pool_mark_dirty pool pid) = Some p' /\
    pool_wf p' /\ find_slot p' pid = Some i /\
    forall q, pool_view p' q = if decide (q = pid) then b else pool_view p q.
Proof.
  intros Hwf Hf Hb. pose proof Hf as Hf'. apply find_slot_Some in Hf' as (s & Hr & Hl & <-).
  destruct (wf_slot p Hwf i s Hr) as (Hz & Hpin & Hd & Hpid). specialize (Hpid Hl).
  pose proof (rd_Some_range _ _ _ Hr) as Hi.
  unfold set_slot_page. rewrite (upd_slot_eq p i _ s Hr). cbn [mbind option_bind].
  unfold garry_pool_mark_dirty. rewrite decide_False by lia.
  rewrite (find_slot_insert p i s) by done. rewrite Hf.
  rewrite (upd_slot_eq _ i _ (with_page b s)) by (cbn; rewrite rd_insert by done; by rewrite decide_True).
  cbn [p_slots set_slots]. rewrite list_insert_insert_eq.
  destruct (upd_slot_spec p i (fun s => with_dirty true (with_page b s)) s)
    as (p' & _ & Hwf' & -> & Hv); [done..|].
  eexists. split; [done|]. split; [exact Hwf'|].
  split; [rewrite <- Hf; by apply (find_slot_insert p i s)|].
  intros q. refine (eq_trans (Hv q) _).
  destruct (decide (s_loaded s = true /\ q = s_pid s)) as [[_ ->]|Hn]; [by rewrite decide_True|].
  rewrite decide_False; [done|]. tauto.
Qed.

(** * Durability *)

Definition flushed (n : Z) (p : garry_buffer_pool) : Prop :=
  forall i s, rd (p_slots p) i = Some s -> i < n -> s_loaded s = true -> s_dirty s = false.

(** What the loops of flush and close have done after [n] slots. *)
Record swept (p : garry_buffer_pool) (n : Z) (p' : garry_buffer_pool) : Prop := {
  sw_wf : pool_wf p';
  sw_view : forall q, pool_view p' q = pool_view p q;
  sw_flushed : flushed n p';
  sw_capacity : p_capacity p' = p_capacity p;
  sw_page_size : p_page_size p' = p_page_size p;
  sw_settled : settled p'
}.

Lemma swept_start p : pool_wf p -> settled p -> swept p 0 p.
Proof. intros. split; [done..| |done|done|done]. intros j s Hj Hlt. apply rd_Some_range in Hj. lia. Qed.

Lemma swept_step p i p1 :
  swept p i p1 -> 0 <= i < p_capacity p ->
  exists s p2, rd (p_slots p1) i = Some s /\ swept p (i + 1) p2 /\
    if decide (s_loaded s = true /\ s_dirty s = true) then
      exists q, write_back p1 i = Some (q, true) /\ upd_slot q i (with_dirty false) = Some p2
    else p2 = p1.
Proof.
  intros [Hwf Hv Hfl Hcap Hps Hset] Hi. pose proof (wf_capacity p1 Hwf) as Hz.
  destruct (rd_is_Some (p_slots p1) i) as [s Hr]; [lia|].
  destruct (clean_victim p1 i s Hwf Hr) as (p2 & E & Hwf2 & Hr2 & Hother & Hcap2 & Hps2 & _ & _ & Hv2 & Hset2).
  exists s, p2. split; [done|]. split.
  - split; [done|intros; by rewrite Hv2| |congruence|congruence|auto].
    intros j sj Hj Hlt Hlj. destruct (decide (j = i)) as [->|]; [by simplify_eq|].
    rewrite Hother in Hj by done. apply (Hfl j); [done|lia|done].
  - destruct (decide (s_loaded s = true /\ s_dirty s = true)); [|congruence].
    destruct (write_back p1 i) as [[q [|]]|]; cbn [mbind option_bind] in *; try discriminate.
    exists q. split; [done|].
    destruct (upd_slot q i (with_dirty false)) as [q'|]; cbn [mbind option_bind] in *; congruence.
Qed.

Lemma flush_all_loop_spec n p i p1 :
  swept p i p1 -> 0 <= i -> i + Z.of_nat n = p_capacity p ->
  exists p', flush_all_loop n i p1 = Some p' /\ swept p (p_capacity p) p'.
Proof.
  revert p1 i. induction n as [|n IH]; intros p1 i Hsw Hi Hn; cbn [flush_all_loop].
  { exists p1. split; [done|]. by replace (p_capacity p) with i by lia. }
  destruct (swept_step p i p1 Hsw) as (s & p2 & -> & Hsw2 & Hd); [lia|]. cbn [mbind option_bind].
  destruct (decide (s_loaded s = true /\ s_dirty s = true)).
  - destruct Hd as (q & -> & E). cbn [mbind option_bind]. rewrite E. cbn [mbind option_bind].
    apply IH; [done|lia|lia].
  - subst p2. apply IH; [done|lia|lia].
Qed.

(** A swept pool's pages are all on disk. *)
Lemma swept_disk p p' q :
  swept p (p_capacity p) p' -> disk_page (p_fd p') (p_page_size p') q = pool_view p q.
Proof.
  intros [Hwf Hv Hfl Hcap Hps Hset]. rewrite <- Hv. destruct (find_slot p' q) as [j|] eqn:Ef.
  - apply find_slot_Some in Ef as (s & Hj & Hl & <-). rewrite (view_loaded p' j s) by done.
    symmetry. apply (Hset j s Hj Hl). apply (Hfl j s Hj); [|done].
    apply rd_Some_range in Hj. rewrite <- Hcap, <- (wf_capacity p' Hwf). lia.
  - by rewrite view_absent.
Qed.

(** After [garry_pool_flush_all], on a file whose writes succeed, every page of
    the database file is the page's current content, and no page's content has
    changed for the clients of the pool; no client is in the middle of a write. *)
Theorem flush_all_durable p :
  pool_wf p -> settled p ->
  exists p', garry_pool_flush_all p = Some p' /\ pool_wf p' /\
    forall q, pool_view p' q = pool_view p q /\
      disk_page (p_fd p') (p_page_size p') q = pool_view p q.
Proof.
  intros Hwf Hset. pose proof (zlen_nonneg (p_slots p)) as Hz. pose proof (wf_capacity p Hwf) as Hcap.
  destruct (flush_all_loop_spec (Z.to_nat (p_capacity p)) p 0 p) as (p' & E & Hsw);
    [by apply swept_start|lia|lia|].
  exists p'. split; [exact E|]. split; [apply Hsw|]. intros q.
  split; [apply Hsw|by apply swept_disk].
Qed.

Lemma close_spec p :
  pool_wf p -> settled p ->
  exists fd, garry_pool_close p = Some fd /\ f_open fd = false /\ (p_page_size p | zlen (f_bytes fd)) /\
    forall q, disk_page fd (p_page_size p) q = pool_view p q.
Proof.
  intros Hwf Hset. unfold garry_pool_close.
  pose proof (zlen_nonneg (p_slots p)) as Hz. pose proof (wf_capacity p Hwf) as Hcap.
  edestruct (forZ_inv (swept p) 0 (p_capacity p)) as (p' & E & Hsw);
    [lia|by apply swept_start| |rewrite E].
  - intros i p1 Hi Hsw. destruct (swept_step p i p1 Hsw Hi) as (s & p2 & Hr & Hsw2 & Hd).
    exists p2. cbn beta. rewrite Hr. cbn [mbind option_bind]. split; [|done].
    destruct (decide (s_loaded s = true /\ s_dirty s = true)); [|congruence].
    destruct Hd as (q & -> & Hu). done.
  - cbn [mbind option_bind]. eexists. split; [done|]. split; [done|]. split; [by rewrite <- (sw_page_size _ _ _ Hsw); apply (wf_file _ (sw_wf _ _ _ Hsw))|]. intros q.
    rewrite <- (sw_page_size _ _ _ Hsw). by apply (swept_disk p p' q).
Qed.

(** C30: Closing the pool, with no client in the middle of a write, leaves a closed database file in which every page is the
    content the pool's clients last saw. *)
Theorem close_durable p :
  pool_wf p -> settled p ->
  exists fd, garry_pool_close p = Some fd /\ f_open fd = false /\
    forall q, disk_page fd (p_page_size p) q = pool_view p q.
Proof. intros Hwf Hset. destruct (close_spec p Hwf Hset) as (fd & H1 & H2 & _ & H3). by exists fd. Qed.

(** * Allocation *)

Lemma take_victim_spec p v pid s :
  pool_wf p -> rd (p_slots p) v = Some s -> (s_loaded s = true -> s_pin s = 0) ->
  exists fd, take_victim p v pid =
      Some (set_slots (bump_access (set_fd p fd))
              (<[Z.to_nat v:=Slot (zeros (p_page_size p)) pid 0 false true
                   (u32 (p_access_counter p + 1))]> (p_slots p)), true) /\
    pool_wf (set_fd p fd) /\ (forall q, pool_view (set_fd p fd) q = pool_view p q) /\
    (s_loaded s = true -> disk_page fd (p_page_size p) (s_pid s) = s_page s) /\
    (fd = p_fd p \/ s_loaded s = true /\ write_back p v = Some (set_fd p fd, true)).
Proof.
  intros Hwf Hr Hpin. destruct (wf_slot p Hwf v s Hr) as (Hz & _ & Hd & _).
  unfold take_victim. rewrite Hr. cbn [mbind option_bind].
  assert (Hrest : forall fd, (page ← memset (s_page s) 0 0 (p_page_size (set_fd p fd));
    pool ← upd_slot (bump_access (set_fd p fd)) v (fun _ => Slot page pid 0 false true
      (p_access_counter (bump_access (set_fd p fd)))); Some (pool, true)) =
    Some (set_slots (bump_access (set_fd p fd))
      (<[Z.to_nat v:=Slot (zeros (p_page_size p)) pid 0 false true
                   (u32 (p_access_counter p + 1))]> (p_slots p)), true)).
  { intros fd. unfold memset. cbn [p_page_size set_fd]. pose proof (wf_page_size p Hwf).
    rewrite blit_whole by (rewrite zlen_replicate; lia). cbn [mbind option_bind].
    by rewrite (upd_slot_eq _ v _ s) by done. }
  destruct (s_dirty s) eqn:Hdirty.
  - destruct (write_back_spec p v s Hwf Hr (Hd eq_refl)) as (fd & E & Hwf1 & Hdisk & Hv & _).
    rewrite E. cbn [mbind option_bind]. exists fd. split; [apply Hrest|].
    split; [done|]. split; [done|]. split; [done|]. right. split; [by apply Hd|done].
  - cbn [mbind option_bind]. exists (p_fd p). replace (set_fd p (p_fd p)) with p by by destruct p.
    split; [|split; [done|split; [done|split; [|by left]]]].
    + specialize (Hrest (p_fd p)). by replace (set_fd p (p_fd p)) with p in Hrest by by destruct p.
    + intros Hl. symmetry. apply (wf_clean p Hwf v); auto.
Qed.

(** A page past the end of the file reads as zeros. *)
Lemma disk_page_past_end fd ps pid :
  0 < ps -> zlen (f_bytes fd) <= pid * ps -> disk_page fd ps pid = zeros ps.
Proof.
  intros Hps H. apply list_eq_rd; rewrite zlen_disk_page by lia; [by rewrite zlen_zeros_max; lia|].
  intros i Hi. rewrite rd_disk_page, rd_zeros by done. unfold byte_at. by rewrite rd_None by lia.
Qed.

Lemma allocate_fresh_spec p :
  pool_wf p -> p_free_list_head p < 0 -> 0 <= p_next_page p < 2 ^ 31 - 1 ->
  find_slot p (p_next_page p) = None ->
  zlen (f_bytes (p_fd p)) <= p_next_page p * p_page_size p ->
  exists p' r, garry_pool_allocate p = Some (p', r) /\ pool_wf p' /\
    (forall q, pool_view p' q = pool_view p q) /\
    match find_eviction_candidate p with
    | Some v => r = p_next_page p /\ p_next_page p' = r + 1 /\ find_slot p' r = Some v /\
        pool_view p' r = zeros (p_page_size p) /\
        exists s fd, rd (p_slots p) v = Some s /\ (s_loaded s = true -> s_pin s = 0) /\
          p' = set_next_page (set_slots (bump_access (set_fd p fd))
                 (<[Z.to_nat v:=Slot (zeros (p_page_size p)) (p_next_page p) 0 false true
                      (u32 (p_access_counter p + 1))]> (p_slots p))) (p_next_page p + 1) /\
          (fd = p_fd p \/ s_loaded s = true /\ write_back p v = Some (set_fd p fd, true))
    | None => r = -1 /\ p' = p
    end.
Proof.
  intros Hwf Hfree Hnext Hf Heof. unfold garry_pool_allocate. rewrite decide_False by lia.
  pose proof (eviction_spec p) as Hev.
  destruct (find_eviction_candidate p) as [v|]; [|by exists p, (-1)].
  destruct Hev as (s & Hr & Hpin). rewrite decide_False by lia.
  destruct (take_victim_spec p v (p_next_page p) s Hwf Hr Hpin) as (fd & -> & Hwf1 & Hv1 & Hd1 & Hfd).
  cbn [mbind option_bind]. unfold ck. rewrite decide_True by (unfold is_i32; lia).
  cbn [mbind option_bind].
  assert (Hz : pool_view p (p_next_page p) = zeros (p_page_size p)).
  { rewrite view_absent by done. apply disk_page_past_end; [apply Hwf|done]. }
  set (s' := Slot _ (p_next_page p) 0 false true _).
  destruct (load_slot_spec (bump_access (set_fd p fd)) v s s') as (p2 & _ & Hwf2 & -> & Hf2 & Hv2);
    [by apply bump_wf|done|intros; symmetry; auto|done|cbn; lia|done|done|done| |].
  { cbn. rewrite <- Hz, <- Hv1. by rewrite view_absent. }
  do 2 eexists. split; [done|].
  assert (Hview : forall q, pool_view (set_slots (bump_access (set_fd p fd))
    (<[Z.to_nat v:=s']> (p_slots p))) q = pool_view p q).
  { intros q. rewrite <- Hv1. exact (Hv2 q). }
  split; [by destruct Hwf2|]. split; [exact Hview|]. split; [done|]. split; [done|].
  split; [exact Hf2|]. split; [rewrite <- Hz; apply Hview|].
  exists s, fd. by split.
Qed.

(** With an empty free list, allocating a page past the end of the file
    returns the next page id with a zeroed buffer loaded for it, advances the
    counter by one and changes no page's content; it fails, changing nothing,
    exactly when every slot is in use. *)
Theorem allocate_fresh_correct p :
  pool_wf p -> p_free_list_head p < 0 -> 0 <= p_next_page p < 2 ^ 31 - 1 ->
  find_slot p (p_next_page p) = None ->
  zlen (f_bytes (p_fd p)) <= p_next_page p * p_page_size p ->
  exists p' r, garry_pool_allocate p = Some (p', r) /\ pool_wf p' /\
    (forall q, pool_view p' q = pool_view p q) /\
    match find_eviction_candidate p with
    | Some v => r = p_next_page p /\ p_next_page p' = r + 1 /\ find_slot p' r = Some v /\
        pool_view p' r = zeros (p_page_size p)
    | None => r = -1 /\ p' = p
    end.
Proof.
  intros H1 H2 H3 H4 H5.
  destruct (allocate_fresh_spec p H1 H2 H3 H4 H5) as (p' & r & E & Hwf & Hv & H).
  exists p', r. split; [done|]. split; [done|]. split; [done|].
  destruct (find_eviction_candidate p); [|done]. by destruct H as (? & ? & ? & ? & _).
Qed.

(** The history of [reuse_loses_write]: two pages are allocated, the second is
    freed and allocated again, a client writes [b] to it, and the pool is
    closed.  The result: the two ids the second page was allocated under, the
    page before the close, and the page in the closed file. *)
Definition reuse_scenario (b : list Z) : option (Z * Z * list Z * list Z) :=
  pool ← garry_pool_create (File [] 0 true []) 2 512;
  '(pool, _) ← garry_pool_allocate pool;
  '(pool, pid) ← garry_pool_allocate pool;
  pool ← garry_pool_free_page pool pid;
  '(pool, pid') ← garry_pool_allocate pool;
  '(pool, r) ← garry_pool_pin_page pool pid';
  idx ← r;
  pool ← set_slot_page pool idx b;
  pool ← garry_pool_mark_dirty pool pid';
  pool ← garry_pool_release_page pool pid';
  fd ← garry_pool_close pool;
  Some (pid, pid', pool_view pool pid', disk_page fd 512 pid').

(** [garry_pool_allocate] serves a freed page from any evictable slot and
    leaves the freed copy, dirty with the free-list link, in its own slot.  The
    page is then in two slots: a client's write to the allocated page is visible
    in the pool, but close writes the stale copy over it, and the file ends up
    with the free-list link (-1) and zeros. *)
Theorem reuse_loses_write :
  reuse_scenario (replicate 512 7) =
    Some (1, 1, replicate 512 7, le32 (-1) ++ zeros 508).
Proof. vm_compute. reflexivity. Qed.

(** * Witnesses *)

Lemma pool_create_wf fd capacity ps p :
  garry_pool_create fd capacity ps = Some p -> 0 <= capacity -> file_ok ps fd ->
  pool_wf p /\ forall q, find_slot p q = None.
Proof.
  unfold garry_pool_create. repeat case_decide; try discriminate. intros [= <-] Hc Hf.
  assert (Hs : forall i s, rd (replicate (Z.to_nat capacity) (Slot (zeros ps) 0 0 false false 0)) i
    = Some s -> s = Slot (zeros ps) 0 0 false false 0).
  { intros i s. unfold rd. case_decide; [|done]. intros Hl. by apply lookup_replicate in Hl as [-> _]. }
  split.
  - split; cbn [p_slots p_capacity p_page_size p_fd].
    + rewrite zlen_replicate. lia.
    + lia.
    + done.
    + intros i s ->%Hs. cbn. rewrite zlen_zeros_max. split; [lia|]. done.
    + by intros i j si sj ->%Hs ->%Hs.
    + by intros i s ->%Hs.
  - intros q. apply find_slot_absent. by intros i s ->%Hs.
Qed.

Definition sample_pool : garry_buffer_pool :=
  Pool 2 512 (replicate 2 (Slot (zeros 512) 0 0 false false 0)) (File [] 0 true []) 0 (-1) 0.

Lemma sample_pool_wf : pool_wf sample_pool.
Proof.
  apply (pool_create_wf (File [] 0 true []) 2 512); [reflexivity|lia|].
  split; [done|done|]. by exists 0.
Qed.

(** The sample pool with page 3 loaded. *)
Definition sample_loaded : garry_buffer_pool :=
  match ensure_loaded sample_pool 3 with Some (p, _) => p | None => sample_pool end.

Lemma sample_loaded_wf : pool_wf sample_loaded.
Proof.
  destruct (ensure_loaded_spec sample_pool 3 sample_pool_wf) as (p' & r & E & H & _); [lia|].
  unfold sample_loaded. by rewrite E.
Qed.

(** With no page pinned, no write is under way. *)
Lemma unpinned_settled p : pool_wf p -> Forall (fun s => s_pin s = 0) (p_slots p) -> settled p.
Proof.
  intros Hwf HF i s Hr Hl Hd. apply (wf_clean p Hwf i); try done.
  unfold rd in Hr. case_decide; [|done]. exact (Forall_lookup_1 _ _ _ _ HF Hr).
Qed.

Lemma sample_loaded_settled : settled sample_loaded.
Proof.
  apply unpinned_settled; [exact sample_loaded_wf|]. vm_compute. repeat constructor.
Qed.

Lemma pin_page_correct_witness :
  exists p' r, garry_pool_pin_page sample_loaded 3 = Some (p', r) /\ pool_wf p' /\
    pool_same sample_loaded p'.
Proof.
  destruct (pin_page_correct sample_loaded 3) as (p' & r & H1 & H2 & H3 & _);
    [exact sample_loaded_wf|lia| |].
  { intros n Hn. assert (E : garry_pool_pin_count sample_loaded 3 = Some 0) by (vm_compute; reflexivity).
    rewrite E in Hn. injection Hn as <-. reflexivity. }
  exists p', r. split; [exact H1|]. split; [exact H2|exact H3].
Defined.

Lemma page_write_updates_view_witness :
  exists p', (pool ← set_slot_page sample_loaded 0 (replicate 512 7);
              garry_pool_mark_dirty pool 3) = Some p' /\ pool_wf p'.
Proof.
  destruct (page_write_updates_view sample_loaded 0 3 (replicate 512 7)) as (p' & H1 & H2 & _);
    [exact sample_loaded_wf|vm_compute; reflexivity|vm_compute; reflexivity|].
  exists p'. split; [exact H1|exact H2].
Defined.

Lemma flush_all_durable_witness :
  exists p', garry_pool_flush_all sample_loaded = Some p' /\ pool_wf p'.
Proof.
  destruct (flush_all_durable sample_loaded) as (p' & H1 & H2 & _);
    [exact sample_loaded_wf|exact sample_loaded_settled|].
  exists p'. split; [exact H1|exact H2].
Defined.

Lemma close_durable_witness :
  exists fd, garry_pool_close sample_loaded = Some fd /\ f_open fd = false.
Proof.
  destruct (close_durable sample_loaded) as (fd & H1 & H2 & _);
    [exact sample_loaded_wf|exact sample_loaded_settled|].
  exists fd. split; [exact H1|exact H2].
Defined.

Lemma allocate_fresh_correct_witness :
  exists p' r, garry_pool_allocate sample_loaded = Some (p', r) /\ pool_wf p'.
Proof.
  destruct (allocate_fresh_correct sample_loaded) as (p' & r & H1 & H2 & _);
    [exact sample_loaded_wf|vm_compute; reflexivity|vm_compute; split; congruence|
     vm_compute; reflexivity|vm_compute; congruence|].
  exists p', r. split; [exact H1|exact H2].
Defined.
