(* ===== verification/PoolClient.v ===== *)
(** The buffer pool as its clients use it: pages are pinned and released in
    brackets, so that at any time a known multiset [pins] of pages is pinned.
    This file proves, for such clients, that no operation fails while fewer
    pages are pinned than the pool has slots, and what each operation does to
    the page map and to the pins.  It is the interface the B-tree, the version
    chains and the transactions build on. *)

From S2P Require Import Prelude Endian FileIo BufferPool.

(** * Pool states of bracketed clients *)

Fixpoint npins (pins : list Z) (pid : Z) : Z :=
  match pins with
  | [] => 0
  | q :: pins => (if decide (q = pid) then 1 else 0) + npins pins pid
  end.

(** [ready n pins w p]: the pages [pins] are pinned, as often as they occur there,
    and no others; the pages [w] have been written and not yet marked dirty; no
    page has been freed; every page in the pool or in the file was allocated;
    and the access counter is at least [n] operations away from its end (the
    unsigned maximum, at which a slot is never chosen as victim). *)
Record ready (n : Z) (pins w : list Z) (p : garry_buffer_pool) : Prop := {
  rdy_wf : pool_wf p;
  rdy_capacity : p_capacity p <= GARRY_MAX_POOL_SIZE;
  rdy_pins : forall i s, rd (p_slots p) i = Some s -> s_loaded s = true ->
    s_pin s = npins pins (s_pid s);
  rdy_loaded : Forall (fun q => is_Some (find_slot p q)) pins;
  rdy_access : forall i s, rd (p_slots p) i = Some s -> s_access s <= p_access_counter p;
  rdy_counter : 0 <= n /\ 0 <= p_access_counter p /\ p_access_counter p + n < 2 ^ 32 - 1;
  rdy_free : p_free_list_head p = -1;
  rdy_next : 0 <= p_next_page p;
  rdy_bound : forall i s, rd (p_slots p) i = Some s -> s_loaded s = true -> s_pid s < p_next_page p;
  rdy_synced : forall i s, rd (p_slots p) i = Some s -> s_loaded s = true -> s_dirty s = false ->
    (s_pid s ∉ w) -> s_page s = disk_page (p_fd p) (p_page_size p) (s_pid s)
}.

(** What an operation that changes no page keeps. *)
Record keeps (p p' : garry_buffer_pool) : Prop := {
  kp_capacity : p_capacity p' = p_capacity p;
  kp_page_size : p_page_size p' = p_page_size p;
  kp_next : p_next_page p' = p_next_page p;
  kp_view : forall q, pool_view p' q = pool_view p q
}.

(** Pinned pages stay in their slots. *)
Definition stable (pins : list Z) (p p' : garry_buffer_pool) : Prop :=
  forall q i, q ∈ pins -> find_slot p q = Some i -> find_slot p' q = Some i.

#[export] Instance keeps_preorder : PreOrder keeps.
Proof.
  split.
  - intros p. by split.
  - intros p q r [] []. split; [congruence..|]. intros x. congruence.
Qed.

#[export] Instance stable_preorder pins : PreOrder (stable pins).
Proof. split; [by intros p q|]. intros p q r H1 H2 x i Hx Hf. auto. Qed.

Lemma stable_cons pid pins p p' : stable (pid :: pins) p p' -> stable pins p p'.
Proof. intros H q i Hq. apply H. by right. Qed.

Lemma npins_nonneg pins q : 0 <= npins pins q.
Proof. induction pins as [|x pins IH]; cbn [npins]; [lia|]. case_decide; lia. Qed.

Lemma npins_zlen pins q : npins pins q <= zlen pins.
Proof.
  induction pins as [|x pins IH]; cbn [npins]; [done|]. rewrite zlen_cons. case_decide; lia.
Qed.

Lemma npins_pos pins q : 0 < npins pins q <-> q ∈ pins.
Proof.
  induction pins as [|x pins IH]; cbn [npins].
  - split; [lia|]. by intros ?%elem_of_nil.
  - rewrite elem_of_cons, <- IH. pose proof (npins_nonneg pins q). case_decide as Hd.
    + split; [by left|lia].
    + rewrite Z.add_0_l. split; [by right|]. by intros [->|?].
Qed.

Lemma npins_absent pins q : (q ∉ pins) -> npins pins q = 0.
Proof. rewrite <- npins_pos. pose proof (npins_nonneg pins q). lia. Qed.

#[export] Instance npins_perm : Proper ((≡ₚ) ==> eq ==> eq) npins.
Proof.
  intros l l' H q ? <-. induction H; cbn [npins]; lia.
Qed.

#[export] Instance ready_perm n : Proper ((≡ₚ) ==> eq ==> eq ==> iff) (ready n).
Proof.
  assert (Himp : forall l l' w p, l ≡ₚ l' -> ready n l w p -> ready n l' w p).
  { intros l l' w p H []. split; try done.
    - intros i s Hi Hl. rewrite <- H. by eapply rdy_pins0.
    - by rewrite <- H. }
  intros l l' H w ? <- p ? <-. split; apply Himp; [done|by symmetry].
Qed.

Lemma ready_le n m pins w p : ready n pins w p -> 0 <= m <= n -> ready m pins w p.
Proof. intros [] ?. split; [done..|lia|done|done|done|done]. Qed.

Lemma ready_sub n pins w w' p : ready n pins w p -> (forall q, q ∈ w -> q ∈ w') -> ready n pins w' p.
Proof.
  intros [] Hw. split; [done..|]. intros i s Hi Hl Hd Hn. apply rdy_synced0 with (i := i); try done. intros Hin. by apply Hn, Hw.
Qed.

Lemma ready_settled n pins p : ready n pins [] p -> settled p.
Proof. intros Hr i s Hi Hl Hd. apply (rdy_synced _ _ _ _ Hr i); [done..|]. apply not_elem_of_nil. Qed.

(** The slot of a loaded page. *)
Lemma synced_at n pins w p i s pid :
  ready n pins w p -> rd (p_slots p) i = Some s -> s_loaded s = true -> s_pid s = pid ->
  s_dirty s = false -> (pid ∉ w) -> s_page s = disk_page (p_fd p) (p_page_size p) pid.
Proof. intros Hr Hi Hl <- Hd Hw. by apply (rdy_synced _ _ _ _ Hr i). Qed.

Lemma find_slot_rd n pins w p q i :
  ready n pins w p -> find_slot p q = Some i ->
  exists s, rd (p_slots p) i = Some s /\ s_loaded s = true /\ s_pid s = q /\
    s_pin s = npins pins q /\ s_page s = pool_view p q /\ 0 <= q < p_next_page p.
Proof.
  intros Hr Hf. pose proof Hf as (s & Hi & Hl & <-)%find_slot_Some. exists s.
  destruct (wf_slot p (rdy_wf _ _ _ _ Hr) i s Hi) as (_ & _ & _ & Hp).
  split; [done|]. split; [done|]. split; [done|]. split; [by apply (rdy_pins _ _ _ _ Hr i)|].
  split; [symmetry; by apply (view_loaded p i s (rdy_wf _ _ _ _ Hr))|].
  split; [by apply Hp|by apply (rdy_bound _ _ _ _ Hr i)].
Qed.

(** * A slot can always be found *)

Lemma slots_nodup p :
  pool_wf p -> Forall (fun s => s_loaded s = true) (p_slots p) -> NoDup (map s_pid (p_slots p)).
Proof.
  intros Hwf Hl. apply NoDup_alt. intros i j q. change (map ?f ?l) with (f <$> l).
  rewrite !list_lookup_fmap. intros Hi Hj.
  destruct (p_slots p !! i) as [si|] eqn:Ei; [|done].
  destruct (p_slots p !! j) as [sj|] eqn:Ej; [|done]. cbn in Hi, Hj.
  assert (Z.of_nat i = Z.of_nat j); [|lia].
  apply (wf_unique p Hwf _ _ si sj); rewrite ?rd_lookup; try done.
  - by eapply Forall_lookup_1 in Hl.
  - by eapply (Forall_lookup_1 _ _ _ _ Hl).
  - congruence.
Qed.

Lemma eviction_ready n pins w p :
  ready n pins w p -> zlen pins < p_capacity p -> find_eviction_candidate p <> None.
Proof.
  intros Hr Hlt E. pose proof (eviction_spec p) as H. rewrite E in H.
  assert (Hall : Forall (fun s => s_loaded s = true) (p_slots p))
    by (by eapply Forall_impl; [exact H|]; intros s []).
  pose proof (slots_nodup p (rdy_wf _ _ _ _ Hr) Hall) as Hnd%NoDup_ListNoDup.
  assert (Hincl : List.incl (map s_pid (p_slots p)) pins).
  { intros q Hq. apply list_elem_of_In in Hq.
    apply list_elem_of_fmap in Hq as (s & -> & Hs).
    apply list_elem_of_lookup in Hs as [k Hk].
    rewrite Forall_lookup in H. destruct (H k s Hk) as [Hl Hp].
    apply list_elem_of_In, npins_pos. rewrite <- rd_lookup in Hk.
    pose proof (rdy_pins _ _ _ _ Hr _ s Hk Hl) as Hpin.
    pose proof (rdy_access _ _ _ _ Hr _ s Hk). pose proof (rdy_counter _ _ _ _ Hr).
    pose proof (npins_nonneg pins (s_pid s)).
    destruct (decide (s_pin s = 0)) as [Hz|]; [specialize (Hp Hz); lia|lia]. }
  pose proof (List.NoDup_incl_length Hnd Hincl) as Hle. rewrite length_map in Hle.
  pose proof (wf_capacity p (rdy_wf _ _ _ _ Hr)). unfold zlen in *. lia.
Qed.

(** * Steps on the slots *)

(** The slots after loading a page that was not loaded. *)
Lemma ensure_loaded_slots p pid v s :
  pool_wf p -> 0 <= pid -> find_slot p pid = None -> find_eviction_candidate p = Some v ->
  rd (p_slots p) v = Some s ->
  exists p' page, ensure_loaded p pid = Some (p', Some v) /\
    p_slots p' = <[Z.to_nat v:=Slot page pid 0 false true (u32 (p_access_counter p + 1))]> (p_slots p) /\
    p_access_counter p' = u32 (p_access_counter p + 1) /\
    (p_fd p' = p_fd p \/ s_loaded s = true /\ write_back p v = Some (set_fd p (p_fd p'), true)).
Proof.
  intros Hwf Hpid Hf Hev Hr. unfold ensure_loaded. rewrite Hf, Hev, Hr. cbn [mbind option_bind].
  destruct (wf_slot p Hwf v s Hr) as (Hz & _ & Hdl & _). pose proof (wf_page_size p Hwf) as Hps.
  assert (Hread : forall q : garry_buffer_pool, file_ok (p_page_size p) (p_fd q) -> p_page_size q = p_page_size p ->
    (page ← memset (s_page s) 0 0 (p_page_size (bump_access q));
     garry_file_read_page (p_fd (bump_access q)) pid page (p_page_size (bump_access q))) =
    Some (disk_page (p_fd q) (p_page_size p) pid)).
  { intros q Hq E. cbn [p_page_size bump_access p_fd]. rewrite E. unfold memset.
    rewrite blit_whole by (rewrite zlen_replicate; lia). cbn [mbind option_bind].
    by rewrite (read_page_disk (p_page_size p)) by (done || rewrite zlen_replicate; lia). }
  destruct (decide (s_loaded s = true /\ s_dirty s = true)) as [[Hl Hd]|Hn].
  - destruct (write_back_spec p v s Hwf Hr Hl) as (fd & Hw & Hwf1 & _). rewrite Hw.
    cbn [mbind option_bind]. rewrite (upd_slot_eq (set_fd p fd) v _ s Hr). cbn [mbind option_bind].
    pose proof (Hread (set_slots (set_fd p fd) (<[Z.to_nat v:=with_dirty false s]> (p_slots (set_fd p fd)))))
      as Hrd. cbn [p_fd p_page_size set_slots set_fd bump_access] in Hrd |- *.
    specialize (Hrd (wf_file _ Hwf1) eq_refl).
    destruct (memset (s_page s) 0 0 _) as [pg|]; [|done]. cbn [mbind option_bind] in Hrd |- *.
    rewrite Hrd. cbn [mbind option_bind].
    rewrite (upd_slot_eq _ v _ (with_dirty false s)).
    2: { cbn. rewrite rd_insert by (by eapply rd_Some_range). by rewrite decide_True. }
    cbn [mbind option_bind]. do 2 eexists. split; [done|].
    cbn [p_slots set_slots bump_access set_fd p_access_counter p_fd].
    rewrite list_insert_insert_eq. split; [done|]. split; [done|]. by right.
  - cbn [mbind option_bind]. pose proof (Hread p (wf_file _ Hwf) eq_refl) as Hrd.
    destruct (memset (s_page s) 0 0 _) as [pg|]; [|done]. cbn [mbind option_bind] in Hrd |- *.
    rewrite Hrd. cbn [mbind option_bind]. rewrite (upd_slot_eq (bump_access p) v _ s) by done.
    cbn [mbind option_bind]. do 2 eexists. split; [done|]. split; [done|]. split; [done|]. by left.
Qed.

(** Replacing an unpinned slot by a page that was not loaded. *)
Lemma ready_load n pins w p p' v s s' :
  ready (n + 1) pins w p -> 0 <= n -> pool_wf p' -> rd (p_slots p) v = Some s ->
  (s_loaded s = true -> s_pin s = 0) ->
  p_slots p' = <[Z.to_nat v:=s']> (p_slots p) ->
  p_access_counter p' = u32 (p_access_counter p + 1) ->
  p_capacity p' = p_capacity p -> p_page_size p' = p_page_size p ->
  p_free_list_head p' = -1 -> p_next_page p <= p_next_page p' ->
  (p_fd p' = p_fd p \/ s_loaded s = true /\ write_back p v = Some (set_fd p (p_fd p'), true)) ->
  s_loaded s' = true -> s_pin s' = 0 -> s_dirty s' = false -> s_access s' = p_access_counter p' ->
  find_slot p (s_pid s') = None -> s_pid s' < p_next_page p' ->
  ready n pins w p' /\ stable pins p p'.
Proof.
  intros Hr Hn Hwf Hv Hpin Hsl Hac Hcap Hps Hfl Hnx Hfd Hl' Hp' Hd' Ha' Hnone Hlt.
  pose proof (rd_Some_range _ _ _ Hv) as Hvr.
  assert (Hrd : forall j, rd (p_slots p') j = if decide (j = v) then Some s' else rd (p_slots p) j)
    by (intros; rewrite Hsl; by apply rd_insert).
  assert (Hcnt : p_access_counter p' = p_access_counter p + 1).
  { rewrite Hac. unfold u32. apply Z.mod_small. pose proof (rdy_counter _ _ _ _ Hr). lia. }
  assert (Hst : stable pins p p').
  { intros q j Hq Hj. pose proof Hj as (sj & Hjr & Hjl & <-)%find_slot_Some.
    apply find_slot_unique; [done| |done]. rewrite Hrd. rewrite decide_False; [done|].
    intros ->. simplify_eq. specialize (Hpin Hjl). rewrite (rdy_pins _ _ _ _ Hr _ _ Hv Hjl) in Hpin.
    apply npins_pos in Hq. lia. }
  assert (Hdisk : forall j sj, j <> v -> rd (p_slots p) j = Some sj -> s_loaded sj = true ->
    disk_page (p_fd p') (p_page_size p) (s_pid sj) = disk_page (p_fd p) (p_page_size p) (s_pid sj)).
  { destruct Hfd as [->|[Hl Hw]]; [done|].
    destruct (write_back_spec p v s (rdy_wf _ _ _ _ Hr) Hv Hl) as (fd & E & _ & _ & _ & Hother).
    rewrite Hw in E. injection E as E. rewrite E.
    intros j sj Hne Hj Hlj. apply Hother; [by apply (wf_slot p (rdy_wf _ _ _ _ Hr) j)|].
    intros Hpp. apply Hne. by eapply (wf_unique p (rdy_wf _ _ _ _ Hr)). }
  split; [|done]. split; [done|..].
  - rewrite Hcap. apply Hr.
  - intros j sj. rewrite Hrd. case_decide; [|by apply (rdy_pins _ _ _ _ Hr)].
    intros [= <-] _. rewrite Hp'. symmetry. apply npins_absent. intros Hin.
    pose proof (rdy_loaded _ _ _ _ Hr) as HF. rewrite Forall_forall in HF.
    destruct (HF _ Hin) as [? ?]. congruence.
  - pose proof (rdy_loaded _ _ _ _ Hr) as HF. rewrite Forall_forall in HF |- *.
    intros q Hq. destruct (HF q Hq) as [j Hj]. exists j. by apply Hst.
  - intros j sj. rewrite Hrd. case_decide; [intros [= <-]; lia|].
    intros Hj. pose proof (rdy_access _ _ _ _ Hr _ _ Hj). lia.
  - pose proof (rdy_counter _ _ _ _ Hr). lia.
  - done.
  - pose proof (rdy_next _ _ _ _ Hr). lia.
  - intros j sj. rewrite Hrd. case_decide; [by intros [= <-]|].
    intros Hj Hlj. pose proof (rdy_bound _ _ _ _ Hr _ _ Hj Hlj). lia.
  - intros j sj. rewrite Hrd. destruct (decide (j = v)) as [->|Hne].
    + intros [= <-] _ _ _. apply (wf_clean p' Hwf v); try done. by rewrite Hrd, decide_True.
    + intros Hj Hlj Hdj Hw. rewrite Hps, (Hdisk j sj Hne Hj Hlj). by apply (rdy_synced _ _ _ _ Hr j).
Qed.

Lemma ensure_loaded_ready n pins w p pid :
  ready (n + 1) pins w p -> 0 <= n -> zlen pins < p_capacity p -> 0 <= pid < p_next_page p ->
  exists p' i, ensure_loaded p pid = Some (p', Some i) /\ ready n pins w p' /\ keeps p p' /\
    stable pins p p' /\ find_slot p' pid = Some i.
Proof.
  intros Hr Hn Hlt Hpid. pose proof (rdy_wf _ _ _ _ Hr) as Hwf.
  destruct (ensure_loaded_spec p pid Hwf) as (p' & r & E & Hwf' & Hs & Hres); [lia|].
  destruct r as [i|]; [|destruct Hres as [_ Hev]; by destruct (eviction_ready _ _ _ _ Hr Hlt)].
  exists p', i. split; [done|].
  assert (Hk : keeps p p') by (destruct Hs; by split).
  destruct Hres as [Hf _].
  destruct (find_slot p pid) as [j|] eqn:Ef.
  { unfold ensure_loaded in E. rewrite Ef in E. injection E as <- <-.
    split; [by apply (ready_le (n + 1)); [|lia]|]. done. }
  pose proof (eviction_spec p) as Hev.
  destruct (find_eviction_candidate p) as [v|] eqn:Ev; [|by destruct (eviction_ready _ _ _ _ Hr Hlt)].
  destruct Hev as (s & Hv & Hpin).
  destruct (ensure_loaded_slots p pid v s Hwf) as (p1 & page & E1 & Hsl & Hac & Hfd); [lia|done..|].
  rewrite E in E1. injection E1 as <- <-.
  destruct (ready_load n pins w p p' i s (Slot page pid 0 false true (u32 (p_access_counter p + 1))))
    as [H1 H2]; try done.
  - apply Hs.
  - apply Hs.
  - rewrite (same_free _ _ Hs). apply Hr.
  - by rewrite (same_next _ _ Hs).
  - rewrite (same_next _ _ Hs). cbn. lia.
Qed.

Lemma bump_ready n pins w p :
  ready (n + 1) pins w p -> 0 <= n -> ready n pins w (bump_access p).
Proof.
  intros Hr Hn. pose proof (rdy_counter _ _ _ _ Hr) as (_ & Hc & Hlt).
  assert (Hb : p_access_counter (bump_access p) = p_access_counter p + 1)
    by (cbn; apply Z.mod_small; lia).
  destruct Hr. split; try done.
  - by apply bump_wf.
  - intros i s Hi. rewrite Hb. specialize (rdy_access0 i s Hi). lia.
  - rewrite Hb. lia.
Qed.

(** Changing the slot of a loaded page. *)
Lemma ready_upd n pins pins' w w' p pid i s f :
  ready n pins w p -> rd (p_slots p) i = Some s -> s_loaded s = true -> s_pid s = pid ->
  s_loaded (f s) = true -> s_pid (f s) = pid -> zlen (s_page (f s)) = p_page_size p ->
  s_access (f s) <= p_access_counter p -> s_pin (f s) = npins pins' pid ->
  (forall q, q <> pid -> npins pins' q = npins pins q) ->
  (forall q, q <> pid -> q ∈ w -> q ∈ w') ->
  (pid ∈ w' -> pid ∈ pins') ->
  (s_dirty (f s) = false -> (pid ∉ w') -> s_page (f s) = disk_page (p_fd p) (p_page_size p) pid) ->
  exists p', upd_slot p i f = Some p' /\ ready n pins' w' p' /\
    (forall q, find_slot p' q = find_slot p q) /\
    p_capacity p' = p_capacity p /\ p_page_size p' = p_page_size p /\
    p_next_page p' = p_next_page p /\ rd (p_slots p') i = Some (f s) /\ p_fd p' = p_fd p /\
    forall q, pool_view p' q = if decide (q = pid) then s_page (f s) else pool_view p q.
Proof.
  intros Hr Hi Hl Hp Hl' Hp' Hz Hac Hpin Hother Hw Hwp Hsync.
  pose proof (rdy_wf _ _ _ _ Hr) as Hwf. pose proof (rd_Some_range _ _ _ Hi) as Hir.
  destruct (upd_slot_spec p i f s) as (p' & E & Hwf' & -> & Hv); try done.
  - congruence.
  - congruence.
  - rewrite Hpin. apply npins_nonneg.
  - intros _ Hd Hp0. rewrite Hp. apply Hsync; [done|]. intros Hin. apply Hwp, npins_pos in Hin. lia.
  - eexists. split; [exact E|].
    assert (Hrd : forall j, rd (<[Z.to_nat i:=f s]> (p_slots p)) j =
      if decide (j = i) then Some (f s) else rd (p_slots p) j) by (intros; by apply rd_insert).
    assert (Hfs : forall q, find_slot (set_slots p (<[Z.to_nat i:=f s]> (p_slots p))) q = find_slot p q)
      by (intros; apply (find_slot_insert p i s); congruence).
    split; [split; [exact Hwf'|exact (rdy_capacity _ _ _ _ Hr)|..]|].
    + intros j sj. cbn [p_slots set_slots]. rewrite Hrd.
      destruct (decide (j = i)) as [->|Hne]; [intros [= <-] _; by rewrite Hpin, Hp'|].
      intros Hj Hlj. rewrite Hother; [by apply (rdy_pins _ _ _ _ Hr j)|]. intros Hpp.
      apply Hne. apply (wf_unique p Hwf j i sj s); try done. congruence.
    + apply Forall_forall. intros q Hq. rewrite Hfs. destruct (decide (q = pid)) as [->|Hne].
      * exists i. rewrite <- Hp. by apply find_slot_unique.
      * pose proof (rdy_loaded _ _ _ _ Hr) as HF. rewrite Forall_forall in HF. apply HF.
        apply npins_pos. rewrite <- Hother by done. by apply npins_pos.
    + intros j sj. cbn [p_slots set_slots p_access_counter]. rewrite Hrd.
      destruct (decide (j = i)) as [->|Hne]; [by intros [= <-]|apply (rdy_access _ _ _ _ Hr)].
    + apply (rdy_counter _ _ _ _ Hr).
    + apply (rdy_free _ _ _ _ Hr).
    + apply (rdy_next _ _ _ _ Hr).
    + intros j sj. cbn [p_slots set_slots p_next_page]. rewrite Hrd.
      destruct (decide (j = i)) as [->|Hne]; [|apply (rdy_bound _ _ _ _ Hr)].
      intros [= <-] _. rewrite Hp', <- Hp. by apply (rdy_bound _ _ _ _ Hr i).
    + intros j sj. cbn [p_slots set_slots p_fd p_page_size]. rewrite Hrd.
      destruct (decide (j = i)) as [->|Hne].
      * intros [= <-] _. rewrite Hp'. exact Hsync.
      * intros Hj Hlj Hdj Hnw. apply (rdy_synced _ _ _ _ Hr j); try done.
        intros Hin. apply Hnw, Hw; [|done]. intros Hpp. apply Hne.
        apply (wf_unique p Hwf j i sj s); try done. congruence.
    + split; [done|]. do 3 (split; [done|]). split; [cbn; by rewrite Hrd, decide_True|]. split; [done|].
      intros q. rewrite Hv. destruct (decide (q = pid)) as [->|Hne].
      * by rewrite decide_True.
      * rewrite decide_False; [done|]. intros [_ ?]. congruence.
Qed.

(** * The operations of bracketed clients *)

Lemma pin_count_small pins p : zlen pins < p_capacity p -> p_capacity p <= GARRY_MAX_POOL_SIZE ->
  forall q, 0 <= npins pins q < 256.
Proof.
  intros H1 H2 q. pose proof (npins_zlen pins q). pose proof (npins_nonneg pins q).
  unfold GARRY_MAX_POOL_SIZE in *. lia.
Qed.

(** The common end of the two pin operations. *)
Lemma pin_found_ready n pins w p pid i :
  ready (n + 1) pins w p -> 0 <= n -> zlen pins < p_capacity p -> find_slot p pid = Some i ->
  exists p', upd_slot (bump_access p) i (fun s => with_access (p_access_counter (bump_access p))
      (with_pin (u32 (s_pin s + 1)) s)) = Some p' /\
    ready n (pid :: pins) w p' /\ keeps p p' /\ (forall q, find_slot p' q = find_slot p q) /\
    slot_page p' i = Some (pool_view p pid) /\ ((pid ∉ w) -> exists s, rd (p_slots p') i = Some s /\
      (s_dirty s = false -> s_page s = disk_page (p_fd p') (p_page_size p') pid)).
Proof.
  intros Hr Hn Hlt Hf.
  destruct (find_slot_rd _ _ _ _ _ _ Hr Hf) as (s & Hi & Hl & Hp & Hpin & Hpg & Hrange).
  pose proof (pin_count_small pins p Hlt (rdy_capacity _ _ _ _ Hr) pid) as Hsm.
  destruct (ready_upd n pins (pid :: pins) w w (bump_access p) pid i s
    (fun s => with_access (p_access_counter (bump_access p)) (with_pin (u32 (s_pin s + 1)) s)))
    as (p' & E & Hr' & Hfs & Hc & Hps & Hnx & Hi' & Hfd & Hv).
  - by apply bump_ready.
  - done.
  - done.
  - done.
  - done.
  - done.
  - exact (proj1 (wf_slot p (rdy_wf _ _ _ _ Hr) i s Hi)).
  - done.
  - cbn [s_pin with_access with_pin npins]. rewrite decide_True by done. rewrite Hpin.
    unfold u32. rewrite Z.mod_small by lia. lia.
  - intros q Hq. cbn [npins]. by rewrite decide_False.
  - done.
  - by left.
  - intros Hd Hw. exact (synced_at _ _ _ _ _ _ _ Hr Hi Hl Hp Hd Hw).
  - exists p'. split; [exact E|]. split; [done|]. split.
    + split; [done..|]. intros q. rewrite Hv. case_decide as Hq; [|done]. subst q. exact Hpg.
    + split; [done|]. split.
      * unfold slot_page. rewrite Hi'. cbn. by rewrite Hpg.
      * intros Hw. eexists. split; [exact Hi'|]. cbn. intros Hd. rewrite Hfd, Hps.
        exact (synced_at _ _ _ _ _ _ _ Hr Hi Hl Hp Hd Hw).
Qed.

Lemma pin_page_ready n pins w p pid :
  ready (n + 2) pins w p -> 0 <= n -> zlen pins < p_capacity p -> 0 <= pid < p_next_page p ->
  exists p' i, garry_pool_pin_page p pid = Some (p', Some i) /\ ready n (pid :: pins) w p' /\
    keeps p p' /\ stable pins p p' /\ find_slot p' pid = Some i /\
    slot_page p' i = Some (pool_view p pid).
Proof.
  intros Hr Hn Hlt Hpid. unfold garry_pool_pin_page. rewrite decide_False by lia.
  destruct (ensure_loaded_ready (n + 1) pins w p pid) as (p1 & i & E & Hr1 & Hk1 & Hs1 & Hf1);
    [by replace (n + 1 + 1) with (n + 2) by lia|lia|done|done|].
  rewrite E. cbn [mbind option_bind].
  destruct (pin_found_ready n pins w p1 pid i) as (p2 & -> & Hr2 & Hk2 & Hf2 & Hpg & _);
    [done|done|by rewrite (kp_capacity _ _ Hk1)|done|].
  cbn [mbind option_bind]. exists p2, i. split; [done|]. split; [done|].
  split; [by transitivity p1|]. split.
  - intros q j Hq Hj. rewrite Hf2. by apply Hs1.
  - split; [by rewrite Hf2|]. by rewrite Hpg, (kp_view _ _ Hk1).
Qed.

Lemma try_pin_ready n pins w p pid :
  ready (n + 1) pins w p -> 0 <= n -> zlen pins < p_capacity p -> 0 <= pid ->
  match find_slot p pid with
  | None => garry_pool_try_pin p pid = Some (p, None)
  | Some i => exists p', garry_pool_try_pin p pid = Some (p', Some i) /\
      ready n (pid :: pins) w p' /\ keeps p p' /\ stable pins p p' /\ find_slot p' pid = Some i /\
      slot_page p' i = Some (pool_view p pid)
  end.
Proof.
  intros Hr Hn Hlt Hpid. unfold garry_pool_try_pin. rewrite decide_False by lia.
  destruct (find_slot p pid) as [i|] eqn:Hf; [|done].
  destruct (pin_found_ready n pins w p pid i) as (p2 & -> & Hr2 & Hk2 & Hf2 & Hpg & _); [done..|].
  cbn [mbind option_bind]. exists p2. split; [done|]. split; [done|]. split; [done|].
  split; [intros q j _; by rewrite Hf2|]. split; [by rewrite Hf2|done].
Qed.

Lemma release_ready n pid pins w p :
  ready n (pid :: pins) w p -> (pid ∉ w) ->
  exists p', garry_pool_release_page p pid = Some p' /\ ready n pins w p' /\ keeps p p' /\
    (forall q, find_slot p' q = find_slot p q).
Proof.
  intros Hr Hw. pose proof (rdy_loaded _ _ _ _ Hr) as HF. apply Forall_cons in HF as [[i Hf] _].
  destruct (find_slot_rd _ _ _ _ _ _ Hr Hf) as (s & Hi & Hl & Hp & Hpin & Hpg & Hrange).
  unfold garry_pool_release_page. rewrite decide_False, Hf by lia.
  cbn [npins] in Hpin. rewrite decide_True in Hpin by done. pose proof (npins_nonneg pins pid).
  assert (E : upd_slot p i (fun s => if decide (s_pin s > 0) then with_pin (s_pin s - 1) s else s) =
    upd_slot p i (fun s => with_pin (npins pins pid) s)).
  { rewrite !(upd_slot_eq p i _ s Hi). rewrite decide_True by lia. do 4 f_equal. lia. }
  rewrite E.
  destruct (ready_upd n (pid :: pins) pins w w p pid i s (fun s => with_pin (npins pins pid) s))
    as (p' & -> & Hr' & Hfs & Hc & Hps & Hnx & Hi' & Hfd & Hv); try done.
  - exact (proj1 (wf_slot p (rdy_wf _ _ _ _ Hr) i s Hi)).
  - exact (rdy_access _ _ _ _ Hr i s Hi).
  - intros q Hq. cbn [npins]. by rewrite decide_False.
  - intros Hd _. exact (synced_at _ _ _ _ _ _ _ Hr Hi Hl Hp Hd Hw).
  - exists p'. split; [done|]. split; [done|]. split; [|done].
    split; [done..|]. intros q. rewrite Hv. case_decide as Hq; [|done]. by subst q.
Qed.

(** The page map with one page replaced. *)
Record updates (pid : Z) (b : list Z) (p p' : garry_buffer_pool) : Prop := {
  up_capacity : p_capacity p' = p_capacity p;
  up_page_size : p_page_size p' = p_page_size p;
  up_next : p_next_page p' = p_next_page p;
  up_view : forall q, pool_view p' q = if decide (q = pid) then b else pool_view p q
}.

Lemma set_page_ready n pins w p pid i b :
  ready n pins w p -> pid ∈ pins -> find_slot p pid = Some i -> zlen b = p_page_size p ->
  exists p', set_slot_page p i b = Some p' /\ ready n pins (pid :: w) p' /\ updates pid b p p' /\
    (forall q, find_slot p' q = find_slot p q) /\ slot_page p' i = Some b.
Proof.
  intros Hr Hin Hf Hb.
  destruct (find_slot_rd _ _ _ _ _ _ Hr Hf) as (s & Hi & Hl & Hp & Hpin & Hpg & Hrange).
  unfold set_slot_page.
  destruct (ready_upd n pins pins w (pid :: w) p pid i s (with_page b))
    as (p' & -> & Hr' & Hfs & Hc & Hps & Hnx & Hi' & Hfd & Hv); try done.
  - exact (rdy_access _ _ _ _ Hr i s Hi).
  - intros q _ Hq. by right.
  - intros _ Hn. destruct Hn. by left.
  - exists p'. split; [done|]. split; [done|]. split; [by split|]. split; [done|].
    unfold slot_page. by rewrite Hi'.
Qed.

Lemma mark_dirty_ready n pins w p pid :
  ready n pins (pid :: w) p -> pid ∈ pins ->
  exists p', garry_pool_mark_dirty p pid = Some p' /\
    ready n pins (filter (fun q => q <> pid) w) p' /\ keeps p p' /\
    (forall q, find_slot p' q = find_slot p q).
Proof.
  intros Hr Hin. pose proof (rdy_loaded _ _ _ _ Hr) as HF. rewrite Forall_forall in HF.
  destruct (HF _ Hin) as [i Hf].
  destruct (find_slot_rd _ _ _ _ _ _ Hr Hf) as (s & Hi & Hl & Hp & Hpin & Hpg & Hrange).
  unfold garry_pool_mark_dirty. rewrite decide_False, Hf by lia.
  destruct (ready_upd n pins pins (pid :: w) (filter (fun q => q <> pid) w) p pid i s (with_dirty true))
    as (p' & -> & Hr' & Hfs & Hc & Hps & Hnx & Hi' & Hfd & Hv); try done.
  - exact (proj1 (wf_slot p (rdy_wf _ _ _ _ Hr) i s Hi)).
  - exact (rdy_access _ _ _ _ Hr i s Hi).
  - intros q Hq. rewrite elem_of_cons, list_elem_of_filter. tauto.
  - exists p'. split; [done|]. split; [done|]. split; [|done].
    split; [done..|]. intros q. rewrite Hv. case_decide as Hq; [|done]. by subst q.
Qed.

Lemma write_back_ready n pins w p i s :
  ready n pins w p -> rd (p_slots p) i = Some s -> s_loaded s = true ->
  exists fd, write_back p i = Some (set_fd p fd, true) /\ ready n pins w (set_fd p fd) /\
    (forall q, pool_view (set_fd p fd) q = pool_view p q) /\
    disk_page fd (p_page_size p) (s_pid s) = s_page s /\
    forall q, 0 <= q -> q <> s_pid s ->
      disk_page fd (p_page_size p) q = disk_page (p_fd p) (p_page_size p) q.
Proof.
  intros Hr Hi Hl. pose proof (rdy_wf _ _ _ _ Hr) as Hwf.
  destruct (write_back_spec p i s Hwf Hi Hl) as (fd & Hw & Hwf1 & Hd & Hv & Ho).
  exists fd. split; [done|]. split; [|done].
  split; [done|exact (rdy_capacity _ _ _ _ Hr)|exact (rdy_pins _ _ _ _ Hr)|exact (rdy_loaded _ _ _ _ Hr)|
    exact (rdy_access _ _ _ _ Hr)|exact (rdy_counter _ _ _ _ Hr)|exact (rdy_free _ _ _ _ Hr)|
    exact (rdy_next _ _ _ _ Hr)|exact (rdy_bound _ _ _ _ Hr)|..].
  cbn. intros j sj Hj Hlj Hdj Hnw. destruct (decide (j = i)) as [->|Hne]; [by simplify_eq|].
    rewrite Ho; [by apply (rdy_synced _ _ _ _ Hr j)|by apply (wf_slot p Hwf j sj Hj)|].
    intros Hp. apply Hne. by eapply (wf_unique p Hwf).
Qed.

(** The file holds the page's content. *)
Definition on_disk (p : garry_buffer_pool) (pid : Z) : Prop :=
  disk_page (p_fd p) (p_page_size p) pid = pool_view p pid.

(** Flushing a page that is not being written: its copy on disk is its content. *)
Lemma flush_page_ready n pins w p pid :
  ready n pins w p -> 0 <= pid -> (pid ∉ w) ->
  exists p', garry_pool_flush_page p pid = Some (p', true) /\ ready n pins w p' /\ keeps p p' /\
    (forall q, find_slot p' q = find_slot p q) /\ on_disk p' pid /\
    forall q, 0 <= q -> on_disk p q -> on_disk p' q.
Proof.
  intros Hr Hpid Hw. unfold garry_pool_flush_page. rewrite decide_False by lia. unfold on_disk.
  destruct (find_slot p pid) as [i|] eqn:Hf.
  2: { exists p. split; [done|]. split; [done|]. split; [done|]. split; [done|]. split; [|done].
       by rewrite view_absent. }
  destruct (find_slot_rd _ _ _ _ _ _ Hr Hf) as (s & Hi & Hl & Hp & Hpin & Hpg & Hrange).
  rewrite Hi. cbn [mbind option_bind]. destruct (s_dirty s) eqn:Hd.
  - destruct (write_back_ready n pins w p i s Hr Hi Hl) as (fd & -> & Hr1 & Hv1 & Hd1 & Ho1).
    cbn [mbind option_bind].
    destruct (ready_upd n pins pins w w (set_fd p fd) pid i s (with_dirty false))
      as (p' & -> & Hr' & Hfs & Hc & Hps & Hnx & Hi' & Hfd & Hv); try done.
    + exact (proj1 (wf_slot p (rdy_wf _ _ _ _ Hr) i s Hi)).
    + exact (rdy_access _ _ _ _ Hr i s Hi).
    + intros _ _. by rewrite <- Hp.
    + assert (Hv' : forall q, pool_view p' q = pool_view p q).
      { intros q. rewrite Hv. case_decide as Hq; [|apply Hv1]. subst q. exact Hpg. }
      assert (Hpd : disk_page (p_fd p') (p_page_size p') pid = pool_view p' pid).
      { rewrite Hv', Hfd, Hps. cbn. by rewrite <- Hpg, <- Hp. }
      cbn [mbind option_bind]. exists p'. split; [done|]. split; [done|]. split; [by split|].
      split; [done|]. split; [done|]. intros q Hq Hq'. destruct (decide (q = pid)) as [->|Hne]; [done|].
      rewrite Hv', Hfd, Hps. cbn. rewrite Ho1 by congruence. done.
  - exists p. split; [done|]. split; [done|]. split; [done|]. split; [done|]. split; [|done].
    rewrite <- Hpg. symmetry. exact (synced_at _ _ _ _ _ _ _ Hr Hi Hl Hp Hd Hw).
Qed.

(** Flushing the whole pool. *)
Lemma flush_all_loop_ready k : forall i n pins p,
  ready n pins [] p -> 0 <= i -> i + Z.of_nat k <= p_capacity p ->
  exists p', flush_all_loop k i p = Some p' /\ ready n pins [] p' /\ keeps p p' /\
    forall q, find_slot p' q = find_slot p q.
Proof.
  induction k as [|k IH]; intros i n pins p Hr Hi Hk; cbn [flush_all_loop]; [by exists p|].
  pose proof (rdy_wf _ _ _ _ Hr) as Hwf. pose proof (wf_capacity p Hwf) as Hcap.
  destruct (rd_is_Some (p_slots p) i) as [s Hs]; [lia|]. rewrite Hs. cbn [mbind option_bind].
  case_decide as Hd; [|apply IH; [exact Hr|lia|lia]]. destruct Hd as [Hl Hd].
  pose proof (wf_slot p Hwf i s Hs) as (_ & _ & _ & Hpid).
  destruct (flush_page_ready n pins [] p (s_pid s) Hr (Hpid Hl) (not_elem_of_nil _)) as (p1 & E & Hr1 & Hk1 & Hf1 & _).
  unfold garry_pool_flush_page in E. rewrite decide_False in E by (specialize (Hpid Hl); lia).
  rewrite (find_slot_unique p i s Hwf Hs Hl), Hs in E. cbn [mbind option_bind] in E. rewrite Hd in E.
  destruct (write_back p i) as [[pw [|]]|]; cbn [mbind option_bind] in E |- *; try discriminate.
  destruct (upd_slot pw i (with_dirty false)) as [pu|]; cbn [mbind option_bind] in E |- *; [|discriminate].
  injection E as ->. destruct (IH (i + 1) n pins p1 Hr1) as (p' & E' & Hr' & Hk' & Hf');
    [lia|rewrite (kp_capacity _ _ Hk1); lia|].
  exists p'. split; [exact E'|]. split; [exact Hr'|]. split; [by transitivity p1|]. intros q. by rewrite Hf', Hf1.
Qed.

Lemma flush_all_ready n pins p :
  ready n pins [] p ->
  exists p', garry_pool_flush_all p = Some p' /\ ready n pins [] p' /\ keeps p p' /\ forall q, on_disk p' q.
Proof.
  intros Hr. pose proof (rdy_wf _ _ _ _ Hr) as Hwf. pose proof (zlen_nonneg (p_slots p)) as Hz.
  pose proof (wf_capacity p Hwf) as Hcap. unfold garry_pool_flush_all.
  destruct (flush_all_loop_ready (Z.to_nat (p_capacity p)) 0 n pins p Hr) as (p' & E & Hr' & Hk & _); [lia|lia|].
  exists p'. split; [exact E|]. split; [exact Hr'|]. split; [exact Hk|].
  destruct (flush_all_durable p Hwf (ready_settled _ _ _ Hr)) as (p2 & E2 & _ & Hd).
  unfold garry_pool_flush_all in E2. rewrite E in E2. injection E2 as <-. intros q. destruct (Hd q) as [H1 H2].
  unfold on_disk. by rewrite H2, H1.
Qed.

(** A page that was never allocated is not in the pool. *)
Lemma next_absent n pins w p pid :
  ready n pins w p -> p_next_page p <= pid -> find_slot p pid = None.
Proof.
  intros Hr Hle. destruct (find_slot p pid) as [i|] eqn:Hf; [|done].
  destruct (find_slot_rd _ _ _ _ _ _ Hr Hf) as (s & _ & _ & _ & _ & _ & ?). lia.
Qed.

(** Allocation and the pin that follows it: the next page, zeroed, whatever the
    file holds under its id; the client has yet to mark it dirty. *)
Lemma allocate_pin_ready n pins w p :
  ready (n + 2) pins w p -> 0 <= n -> zlen pins < p_capacity p -> p_next_page p < 2 ^ 31 - 1 ->
  exists p1 p2 i, garry_pool_allocate p = Some (p1, p_next_page p) /\
    garry_pool_pin_page p1 (p_next_page p) = Some (p2, Some i) /\
    ready n (p_next_page p :: pins) (p_next_page p :: w) p2 /\
    p_capacity p2 = p_capacity p /\ p_page_size p2 = p_page_size p /\ p_next_page p2 = p_next_page p + 1 /\
    (forall q, pool_view p2 q = if decide (q = p_next_page p) then zeros (p_page_size p) else pool_view p q) /\
    stable pins p p2 /\ find_slot p2 (p_next_page p) = Some i /\ slot_page p2 i = Some (zeros (p_page_size p)).
Proof.
  intros Hr Hn Hlt Hmax. pose proof (rdy_wf _ _ _ _ Hr) as Hwf. pose proof (rdy_next _ _ _ _ Hr) as H0.
  pose proof (next_absent _ _ _ _ _ Hr (Z.le_refl _)) as Habs. pose proof (rdy_free _ _ _ _ Hr) as Hfree.
  set (pid := p_next_page p) in *. pose proof (eviction_spec p) as Hev.
  destruct (find_eviction_candidate p) as [v|] eqn:Ev; [|by destruct (eviction_ready _ _ _ _ Hr Hlt)].
  destruct Hev as (s & Hi & Hpin). pose proof (rd_Some_range _ _ _ Hi) as Hvr.
  destruct (take_victim_spec p v pid s Hwf Hi Hpin) as (fd & Etv & Hwf1 & Hv1 & Hd1 & Hfd).
  set (acc := u32 (p_access_counter p + 1)) in *. set (base := bump_access (set_fd p fd)) in *.
  set (s1 := Slot (zeros (p_page_size p)) pid 0 false true acc) in *.
  set (s' := Slot (disk_page fd (p_page_size p) pid) pid 0 false true acc).
  destruct (load_slot_spec base v s s') as (p2 & _ & Hwf2 & E2 & Hf2 & Hv2);
    [by apply bump_wf|done|intros; symmetry; auto|done|done|done|done|done|done|].
  set (pX := set_next_page p2 (pid + 1)).
  assert (HwX : pool_wf pX) by (destruct Hwf2; by split).
  destruct (ready_load (n + 1) pins w p pX v s s') as [HrX HstX]; try (subst pX p2; done).
  - by replace (n + 1 + 1) with (n + 2) by lia.
  - lia.
  - subst pX. cbn. lia.
  - subst pX. cbn. lia.
  - assert (HcX : p_capacity pX = p_capacity p) by (subst pX p2; done).
    assert (HzX : p_page_size pX = p_page_size p) by (subst pX p2; done).
    destruct (pin_found_ready n pins w pX pid v HrX Hn) as (pY & EY & HrY & HkY & HfY & _); [by rewrite HcX|exact Hf2|].
    assert (HzY : p_page_size pY = p_page_size p) by (by rewrite (kp_page_size _ _ HkY)).
    destruct (set_page_ready n (pid :: pins) w pY pid v (zeros (p_page_size p)) HrY) as (pZ & EZ & HrZ & HuZ & HfZ & HpZ);
      [by left|by rewrite HfY|rewrite zlen_zeros; [done|]; pose proof (wf_page_size p Hwf); lia|].
    set (p1 := set_next_page (set_slots base (<[Z.to_nat v:=s1]> (p_slots p))) (pid + 1)).
    assert (H1 : p1 = set_slots pX (<[Z.to_nat v:=with_page (zeros (p_page_size p)) s']> (p_slots pX))).
    { subst p1 pX p2. cbn [p_slots set_next_page set_slots]. by rewrite list_insert_insert_eq. }
    assert (HsX : rd (p_slots pX) v = Some s').
    { subst pX p2. cbn [p_slots set_next_page set_slots]. rewrite rd_insert by exact Hvr. by rewrite decide_True. }
    exists p1, pZ, v. split.
    { unfold garry_pool_allocate. rewrite decide_False by lia. rewrite Ev, decide_False by (fold pid; lia). fold pid. rewrite Etv.
      cbn [mbind option_bind]. unfold ck. rewrite decide_True by (unfold is_i32; lia). done. }
    split.
    { unfold garry_pool_pin_page. rewrite decide_False by lia. unfold ensure_loaded.
      assert (Hf1 : find_slot p1 pid = Some v) by (rewrite H1, (find_slot_insert pX v s') by done; exact Hf2).
      rewrite Hf1. cbn [mbind option_bind].
      rewrite (upd_slot_eq _ v _ s') in EY by exact HsX. injection EY as <-.
      unfold set_slot_page in EZ. rewrite (upd_slot_eq _ v _ (with_access (p_access_counter (bump_access pX))
        (with_pin (u32 (s_pin s' + 1)) s'))) in EZ
        by (cbn [p_slots set_slots bump_access]; rewrite rd_insert by (by eapply rd_Some_range); by rewrite decide_True).
      injection EZ as <-. rewrite H1.
      rewrite (upd_slot_eq _ v _ (with_page (zeros (p_page_size p)) s'))
        by (cbn [p_slots set_slots bump_access]; rewrite rd_insert by (by eapply rd_Some_range); by rewrite decide_True).
      cbn [mbind option_bind p_slots set_slots bump_access]. by rewrite !list_insert_insert_eq. }
    destruct HuZ as [U1 U2 U3 U4].
    split; [done|]. split; [by rewrite U1, (kp_capacity _ _ HkY)|]. split; [by rewrite U2|].
    split; [by rewrite U3, (kp_next _ _ HkY)|]. split; [|split; [|split; [by rewrite HfZ, HfY|exact HpZ]]].
    + intros q. rewrite U4. case_decide as Hq; [done|]. rewrite (kp_view _ _ HkY), <- Hv1. exact (Hv2 q).
    + intros q j Hq Hj. rewrite HfZ, HfY. by apply HstX.
Qed.

(** Writing a pinned page and marking it dirty. *)
Lemma write_mark_any n pins w p pid i b :
  ready n pins w p -> pid ∈ pins -> find_slot p pid = Some i -> zlen b = p_page_size p ->
  exists p', (pool ← set_slot_page p i b; garry_pool_mark_dirty pool pid) = Some p' /\
    ready n pins (filter (fun q => q <> pid) w) p' /\ updates pid b p p' /\ (forall q, find_slot p' q = find_slot p q).
Proof.
  intros Hr Hin Hf Hb.
  destruct (set_page_ready n pins w p pid i b Hr Hin Hf Hb) as (p1 & -> & Hr1 & Hu1 & Hf1 & _).
  cbn [mbind option_bind].
  destruct (mark_dirty_ready n pins w p1 pid Hr1 Hin) as (p2 & -> & Hr2 & Hk2 & Hf2).
  exists p2. split; [done|]. split; [done|]. split; [|intros q; by rewrite Hf2].
  destruct Hu1 as [U1 U2 U3 U4], Hk2 as [K1 K2 K3 K4].
  split; [congruence..|]. intros q. by rewrite K4.
Qed.

Lemma write_mark_ready n pins w p pid i b :
  ready n pins w p -> pid ∈ pins -> find_slot p pid = Some i -> zlen b = p_page_size p -> (pid ∉ w) ->
  exists p', (pool ← set_slot_page p i b; garry_pool_mark_dirty pool pid) = Some p' /\
    ready n pins w p' /\ updates pid b p p' /\ (forall q, find_slot p' q = find_slot p q).
Proof.
  intros Hr Hin Hf Hb Hw. destruct (write_mark_any n pins w p pid i b Hr Hin Hf Hb) as (p' & E & Hr' & Hu).
  exists p'. split; [exact E|]. rewrite filter_all in Hr'; [by split|]. by intros x Hx ->.
Qed.

Lemma keeps_updates pid b p p1 p' : keeps p p1 -> updates pid b p1 p' -> updates pid b p p'.
Proof.
  intros [K1 K2 K3 K4] [U1 U2 U3 U4]. split; [congruence..|]. intros q. rewrite U4. by case_decide.
Qed.

Lemma updates_keeps pid b p p1 p' : updates pid b p p1 -> keeps p1 p' -> updates pid b p p'.
Proof.
  intros [U1 U2 U3 U4] [K1 K2 K3 K4]. split; [congruence..|]. intros q. by rewrite K4.
Qed.

Lemma updates_twice pid b b' p p1 p' : updates pid b p p1 -> updates pid b' p1 p' -> updates pid b' p p'.
Proof.
  intros [U1 U2 U3 U4] [V1 V2 V3 V4]. split; [congruence..|]. intros q. rewrite V4, U4. by case_decide.
Qed.

(** The page sizes of the page map. *)
Lemma view_size n pins w p q : ready n pins w p -> zlen (pool_view p q) = p_page_size p.
Proof.
  intros Hr. pose proof (rdy_wf _ _ _ _ Hr) as Hwf. pose proof (wf_page_size p Hwf).
  destruct (find_slot p q) as [i|] eqn:Hf.
  - destruct (find_slot_rd _ _ _ _ _ _ Hr Hf) as (s & Hi & _ & _ & _ & <- & _).
    exact (proj1 (wf_slot p Hwf i s Hi)).
  - rewrite view_absent by done. apply zlen_disk_page. lia.
Qed.

Lemma slot_page_view n pins w p q i :
  ready n pins w p -> find_slot p q = Some i -> slot_page p i = Some (pool_view p q).
Proof.
  intros Hr Hf. destruct (find_slot_rd _ _ _ _ _ _ Hr Hf) as (s & Hi & _ & _ & _ & <- & _).
  unfold slot_page. by rewrite Hi.
Qed.

(** A pool that has just been created is ready. *)
Lemma create_ready fd capacity ps next p n :
  garry_pool_create fd capacity ps = Some p -> 0 <= capacity -> file_ok ps fd ->
  0 <= next -> 0 <= n < 2 ^ 32 - 1 ->
  ready n [] [] (set_next_page p next).
Proof.
  intros E Hc Hfd Hnext Hn. destruct (pool_create_wf fd capacity ps p E Hc Hfd) as [[] _].
  unfold garry_pool_create in E. repeat case_decide; try discriminate. injection E as <-.
  assert (Hs : forall i s, rd (replicate (Z.to_nat capacity) (Slot (zeros ps) 0 0 false false 0)) i
    = Some s -> s = Slot (zeros ps) 0 0 false false 0).
  { intros i s. unfold rd. case_decide; [|done]. intros Hl. by apply lookup_replicate in Hl as [-> _]. }
  split; [by split|..]; cbn [p_slots p_capacity p_page_size p_fd p_next_page p_access_counter
    p_free_list_head set_next_page]; try lia; try constructor; try (by intros i s ->%Hs).
Qed.
