(* ===== verification/BtreeNode.v ===== *)
(** B-tree nodes, [src/src/btree_node.c]: the in-memory node with its fixed
    arrays, the metadata record, and loading and storing a node through the
    buffer pool, with the round trip between a page and a node. *)

From S2P Require Import Prelude Endian KeyEncoding BtreeCompression RecordCodec SlottedPage FileIo BufferPool.
From S2P Require Import PoolClient.

Definition GARRY_MAX_KEYS_PER_NODE : Z := 3.
Definition GARRY_META_SLOT : Z := 0.
Definition GARRY_PAGE_ID_BIAS : Z := 100000.

(** * Data *)

Record garry_btree_node := BtreeNode {
  nd_kind : garry_node_kind; nd_header : garry_page_header;
  nd_keys : list (list Z); nd_key_lens : list Z; nd_values : list (list Z); nd_value_lens : list Z;
  nd_children : list Z; nd_next : Z; nd_prev : Z; nd_count : Z
}.

Definition set_links (n : garry_btree_node) (next prev : Z) : garry_btree_node :=
  BtreeNode (nd_kind n) (nd_header n) (nd_keys n) (nd_key_lens n) (nd_values n) (nd_value_lens n)
    (nd_children n) next prev (nd_count n).
Definition set_children (n : garry_btree_node) (cs : list Z) : garry_btree_node :=
  BtreeNode (nd_kind n) (nd_header n) (nd_keys n) (nd_key_lens n) (nd_values n) (nd_value_lens n)
    cs (nd_next n) (nd_prev n) (nd_count n).
Definition set_count (n : garry_btree_node) (c : Z) : garry_btree_node :=
  BtreeNode (nd_kind n) (nd_header n) (nd_keys n) (nd_key_lens n) (nd_values n) (nd_value_lens n)
    (nd_children n) (nd_next n) (nd_prev n) c.
Definition set_kind (n : garry_btree_node) (k : garry_node_kind) (h : garry_page_header) : garry_btree_node :=
  BtreeNode k h (nd_keys n) (nd_key_lens n) (nd_values n) (nd_value_lens n)
    (nd_children n) (nd_next n) (nd_prev n) (nd_count n).
Definition set_keys (n : garry_btree_node) (keys : list (list Z)) (lens : list Z) : garry_btree_node :=
  BtreeNode (nd_kind n) (nd_header n) keys lens (nd_values n) (nd_value_lens n)
    (nd_children n) (nd_next n) (nd_prev n) (nd_count n).
Definition set_values (n : garry_btree_node) (values : list (list Z)) (lens : list Z) : garry_btree_node :=
  BtreeNode (nd_kind n) (nd_header n) (nd_keys n) (nd_key_lens n) values lens
    (nd_children n) (nd_next n) (nd_prev n) (nd_count n).

(** [memcpy(a[i], src, n)] into an array of byte arrays. *)
Definition put_array (a : list (list Z)) (i : Z) (src : list Z) (n : Z) : option (list (list Z)) :=
  x ← rd a i; x ← memcpy x 0 src 0 n; wr a i x.

(** [memcpy(a[i], b[j], sizeof(garry_byte_array))]: a whole element. *)
Definition move_array (a : list (list Z)) (i : Z) (b : list (list Z)) (j : Z) : option (list (list Z)) :=
  x ← rd b j; put_array a i x GARRY_MAX_KEY_SIZE.

(** [a[i] = b[j]]. *)
Definition move_int (a : list Z) (i : Z) (b : list Z) (j : Z) : option (list Z) :=
  x ← rd b j; wr a i x.

(** Moving key [j] of [m] and its length to key [i] of [n]; the same for values. *)
Definition move_key (n : garry_btree_node) (i : Z) (m : garry_btree_node) (j : Z) : option garry_btree_node :=
  keys ← move_array (nd_keys n) i (nd_keys m) j;
  lens ← move_int (nd_key_lens n) i (nd_key_lens m) j;
  Some (set_keys n keys lens).
Definition move_value (n : garry_btree_node) (i : Z) (m : garry_btree_node) (j : Z) : option garry_btree_node :=
  values ← move_array (nd_values n) i (nd_values m) j;
  lens ← move_int (nd_value_lens n) i (nd_value_lens m) j;
  Some (set_values n values lens).
Definition move_child (n : garry_btree_node) (i : Z) (m : garry_btree_node) (j : Z) : option garry_btree_node :=
  cs ← move_int (nd_children n) i (nd_children m) j;
  Some (set_children n cs).

(** A key and its value. *)
Definition move_entry (n : garry_btree_node) (i : Z) (m : garry_btree_node) (j : Z) : option garry_btree_node :=
  n ← move_key n i m j; move_value n i m j.

Definition put_key (n : garry_btree_node) (i : Z) (key : list Z) (klen : Z) : option garry_btree_node :=
  keys ← put_array (nd_keys n) i key klen;
  lens ← wr (nd_key_lens n) i klen;
  Some (set_keys n keys lens).
Definition put_value (n : garry_btree_node) (i : Z) (value : list Z) (vlen : Z) : option garry_btree_node :=
  values ← put_array (nd_values n) i value vlen;
  lens ← wr (nd_value_lens n) i vlen;
  Some (set_values n values lens).

(** * Metadata *)

Definition encode_cbor_uint (buf : list Z) (pos val : Z) : option (list Z * Z) :=
  if decide (val < 0) then Some (buf, pos)
  else if decide (val < 24) then
    buf ← wr buf pos (u8 val);
    Some (buf, pos + 1)
  else if decide (val < 256) then
    buf ← wr buf pos 24;
    buf ← wr buf (pos + 1) (u8 val);
    Some (buf, pos + 2)
  else if decide (val < 65536) then
    buf ← wr buf pos 25;
    buf ← wr buf (pos + 1) (u8 (Z.rem (Z.quot val 256) 256));
    buf ← wr buf (pos + 2) (u8 (Z.rem val 256));
    Some (buf, pos + 3)
  else
    buf ← wr buf pos 26;
    buf ← wr buf (pos + 1) (u8 (Z.rem (Z.quot val 16777216) 256));
    buf ← wr buf (pos + 2) (u8 (Z.rem (Z.quot val 65536) 256));
    buf ← wr buf (pos + 3) (u8 (Z.rem (Z.quot val 256) 256));
    buf ← wr buf (pos + 4) (u8 (Z.rem val 256));
    Some (buf, pos + 5).

(** Returns the position and the new [*val]; [None] as [val] is an indeterminate
    value. *)
Definition decode_cbor_uint (buf : list Z) (pos elen : Z) (val : option Z) : option (Z * option Z) :=
  if decide (pos >= elen) then Some (pos, val) else
  fb ← norm_byte <$> rd buf pos;
  if decide (fb < 24) then Some (pos + 1, Some fb)
  else if decide (fb = 24) then
    if decide (pos + 1 >= elen) then Some (pos + 1, val) else
    b1 ← norm_byte <$> rd buf (pos + 1);
    Some (pos + 2, Some b1)
  else if decide (fb = 25) then
    if decide (pos + 2 >= elen) then Some (pos + 1, val) else
    b1 ← norm_byte <$> rd buf (pos + 1);
    b2 ← norm_byte <$> rd buf (pos + 2);
    Some (pos + 3, Some (b1 * 256 + b2))
  else if decide (fb = 26) then
    if decide (pos + 4 >= elen) then Some (pos + 1, val) else
    b1 ← norm_byte <$> rd buf (pos + 1);
    b2 ← norm_byte <$> rd buf (pos + 2);
    b3 ← norm_byte <$> rd buf (pos + 3);
    b4 ← norm_byte <$> rd buf (pos + 4);
    v ← ck (b1 * 16777216);
    Some (pos + 5, Some (v + b2 * 65536 + b3 * 256 + b4))
  else Some (pos + 1, val).

Definition garry_encode_node_meta (node : garry_btree_node) (buf : list Z) : option (list Z * Z) :=
  let num_children :=
    if decide (nd_kind node = GARRY_NODE_INTERNAL) then nd_count node + 1 else 0 in
  let meta_count := 2 + num_children in
  '(buf, pos) ←
    (if decide (meta_count < 24) then
       buf ← wr buf 0 (u8 (128 + meta_count));
       Some (buf, 1)
     else
       buf ← wr buf 0 (u8 (128 + 24));
       buf ← wr buf 1 (u8 meta_count);
       Some (buf, 2));
  next ← ck (nd_next node + GARRY_PAGE_ID_BIAS);
  '(buf, pos) ← encode_cbor_uint buf pos next;
  prev ← ck (nd_prev node + GARRY_PAGE_ID_BIAS);
  '(buf, pos) ← encode_cbor_uint buf pos prev;
  forZ 0 num_children (fun i (st : list Z * Z) =>
    let '(buf, pos) := st in
    c ← rd (nd_children node) i;
    c ← ck (c + GARRY_PAGE_ID_BIAS);
    encode_cbor_uint buf pos c) (buf, pos).

(** [*val - GARRY_PAGE_ID_BIAS]; an indeterminate [*val] must not be read. *)
Definition unbias (val : option Z) : option Z := v ← val; ck (v - GARRY_PAGE_ID_BIAS).

Definition garry_decode_node_meta (buf : list Z) (elen : Z) (node : garry_btree_node)
  : option garry_btree_node :=
  fb ← norm_byte <$> rd buf 0;
  if decide (fb < 128 \/ fb >= 160) then Some node else
  let ai := Z.rem fb 32 in
  hdr ←
    (if decide (ai < 24) then Some (Some (ai, 1))
     else if decide (ai = 24 /\ 1 < elen) then
       c ← norm_byte <$> rd buf 1; Some (Some (c, 2))
     else Some None);
  match hdr with
  | None => Some node
  | Some (arr_count, pos) =>
      '(pos, decoded) ← decode_cbor_uint buf pos elen None;
      next ← unbias decoded;
      '(pos, decoded) ← decode_cbor_uint buf pos elen decoded;
      prev ← unbias decoded;
      let node := set_links node next prev in
      let num_children := if decide (nd_kind node = GARRY_NODE_INTERNAL) then arr_count - 2 else 0 in
      '(node, _, _) ← forZ 0 num_children (fun i (st : garry_btree_node * Z * option Z) =>
        let '(node, pos, decoded) := st in
        if decide (pos < elen) then
          '(pos, decoded) ← decode_cbor_uint buf pos elen decoded;
          c ← unbias decoded;
          cs ← wr (nd_children node) i c;
          Some (set_children node cs, pos, decoded)
        else Some (node, pos, decoded)) (node, pos, decoded);
      Some node
  end.

(** * Nodes and pages *)

(** The inner result is the returned boolean. *)
Definition garry_leaf_insert (node : garry_btree_node) (key : list Z) (klen : Z) (value : list Z)
    (vlen idx : Z) : option (garry_btree_node * bool) :=
  if decide (nd_count node >= GARRY_MAX_KEYS_PER_NODE) then Some (node, false) else
  '(node, _) ← while (Z.to_nat (nd_count node)) (fun st : garry_btree_node * Z => bool_decide (st.2 > idx))
    (fun st => let '(node, i) := st in
       node ← move_entry node i node (i - 1);
       Some (node, i - 1)) (node, nd_count node);
  node ← put_key node idx key klen;
  node ← put_value node idx value vlen;
  Some (set_count node (nd_count node + 1), true).

(** [garry_allocate_leaf] and [garry_allocate_internal] differ in the kind. *)
Definition allocate_node (kind : garry_node_kind) (pool : garry_buffer_pool)
  : option (garry_buffer_pool * Z) :=
  '(pool, pid) ← garry_pool_allocate pool;
  if decide (pid < 0) then Some (pool, -1) else
  '(pool, r) ← garry_pool_pin_page pool pid;
  match r with
  | None => Some (pool, -1)
  | Some idx =>
      page ← slot_page pool idx;
      page ← garry_page_init page kind 0 (p_page_size pool);
      pool ← set_slot_page pool idx page;
      pool ← garry_pool_mark_dirty pool pid;
      pool ← garry_pool_release_page pool pid;
      Some (pool, pid)
  end.
Definition garry_allocate_leaf (pool : garry_buffer_pool) : option (garry_buffer_pool * Z) :=
  allocate_node GARRY_NODE_LEAF pool.
Definition garry_allocate_internal (pool : garry_buffer_pool) : option (garry_buffer_pool * Z) :=
  allocate_node GARRY_NODE_INTERNAL pool.

(** The zeroed node the load starts from. *)
Definition blank_node : garry_btree_node :=
  BtreeNode GARRY_NODE_LEAF (PageHeader GARRY_NODE_LEAF 0 0 0 0 0 0 0)
    (replicate 3 (zeros GARRY_MAX_KEY_SIZE)) (replicate 3 0)
    (replicate 3 (zeros GARRY_MAX_KEY_SIZE)) (replicate 3 0) (replicate 4 0) (-1) (-1) 0.

Definition kind_of_type (ptype : Z) : garry_node_kind :=
  if decide (ptype = node_kind_ord GARRY_NODE_LEAF) then GARRY_NODE_LEAF
  else if decide (ptype = node_kind_ord GARRY_NODE_OVERFLOW) then GARRY_NODE_OVERFLOW
  else GARRY_NODE_INTERNAL.

(** One entry of the page, with the local buffers [rec_data], [rec_buf] and [ckey]. *)
Definition load_entry (buf : list Z) (page_size j : Z)
    (st : garry_btree_node * Z * list Z * list Z * list Z)
  : option (garry_btree_node * Z * list Z * list Z * list Z) :=
  let '(node, entry_idx, rec, rec_buf, ckey) := st in
  if decide (entry_idx < GARRY_MAX_KEYS_PER_NODE) then
    '(rec, rlen) ← garry_page_get buf j rec page_size;
    if decide (rlen > 0) then
      rec_buf ← copy_loop rec_buf 0 rec 0 rlen;
      v ← rd (nd_values node) entry_idx;
      r ← garry_decode_kv rec_buf rlen ckey v;
      values ← wr (nd_values node) entry_idx (kv_value r);
      let node := set_values node values (nd_value_lens node) in
      if kv_ok r then
        node ← put_key node entry_idx (kv_key r) (kv_klen r);
        vlens ← wr (nd_value_lens node) entry_idx (kv_vlen r);
        Some (set_values node (nd_values node) vlens, entry_idx + 1, rec, rec_buf, kv_key r)
      else Some (node, entry_idx, rec, rec_buf, kv_key r)
    else Some (node, entry_idx, rec, rec_buf, ckey)
  else Some (node, entry_idx, rec, rec_buf, ckey).

(** What the load reads from the pinned page. *)
Definition load_page (buf : list Z) (page_size : Z) : option garry_btree_node :=
  rec_count ← garry_page_record_count buf;
  ptype_val ← garry_read_int32 buf GARRY_PAGE_HDR_OFF_TYPE;
  level_val ← garry_read_int32 buf GARRY_PAGE_HDR_OFF_LEVEL;
  let kind := kind_of_type ptype_val in
  let node := set_kind blank_node kind (PageHeader kind level_val 0 0 0 0 0 0) in
  let rec_buf := zeros GARRY_MAX_RECORD_SIZE in
  '(node, rec, rec_buf) ←
    (if decide (rec_count > 0) then
       '(rec, rlen) ← garry_page_get buf GARRY_META_SLOT (zeros GARRY_MAX_RECORD_SIZE) page_size;
       if decide (rlen > 0) then
         rec_buf ← copy_loop rec_buf 0 rec 0 rlen;
         node ← garry_decode_node_meta rec_buf rlen node;
         Some (node, rec, rec_buf)
       else Some (node, rec, rec_buf)
     else Some (node, zeros GARRY_MAX_RECORD_SIZE, rec_buf));
  if decide (rec_count > 1) then
    '(node, entry_idx, _, _, _) ← forZ 1 rec_count (load_entry buf page_size)
       (node, 0, rec, rec_buf, zeros GARRY_MAX_KEY_SIZE);
    Some (set_count node entry_idx)
  else Some node.

Definition garry_load_node (pool : garry_buffer_pool) (pid : Z)
  : option (garry_buffer_pool * garry_btree_node) :=
  '(pool, r) ← garry_pool_try_pin pool pid;
  '(pool, r) ← match r with
               | Some idx => Some (pool, Some idx)
               | None => garry_pool_pin_page pool pid
               end;
  match r with
  | None => Some (pool, blank_node)
  | Some idx =>
      buf ← slot_page pool idx;
      node ← load_page buf (p_page_size pool);
      pool ← garry_pool_release_page pool pid;
      Some (pool, node)
  end.

(** Encoding entry [i] and inserting it, unless an insertion has failed before. *)
Definition store_entry (page_size : Z) (node : garry_btree_node) (i : Z) (st : list Z * list Z * bool)
  : option (list Z * list Z * bool) :=
  let '(page, rec_buf, ok) := st in
  if ok : bool then
    key ← rd (nd_keys node) i; klen ← rd (nd_key_lens node) i;
    value ← rd (nd_values node) i; vlen ← rd (nd_value_lens node) i;
    '(rec_buf, rec_len) ← garry_encode_kv key klen value
        (if decide (nd_kind node = GARRY_NODE_INTERNAL) then 0 else vlen) rec_buf;
    if decide (rec_len > 0) then
      enc_data ← copy_loop (zeros GARRY_MAX_RECORD_SIZE) 0 rec_buf 0 rec_len;
      '(page, slot_idx) ← garry_page_insert page enc_data rec_len page_size;
      Some (page, rec_buf, bool_decide (0 <= slot_idx))
    else Some (page, rec_buf, true)
  else Some st.

(** The records of the node, inserted one by one; [false] when one does not fit. *)
Definition store_page (page : list Z) (page_size : Z) (node : garry_btree_node)
  : option (list Z * bool) :=
  page ← garry_page_init page (nd_kind node) (page_level (nd_header node)) page_size;
  '(rec_buf, meta_len) ← garry_encode_node_meta node (zeros GARRY_MAX_RECORD_SIZE);
  meta_data ← copy_loop (zeros GARRY_MAX_RECORD_SIZE) 0 rec_buf 0 meta_len;
  '(page, slot_idx) ← garry_page_insert page meta_data meta_len page_size;
  if decide (slot_idx < 0) then Some (page, false) else
  '(page, _, ok) ← forZ 0 (nd_count node) (store_entry page_size node) (page, rec_buf, true);
  Some (page, ok).

(** A node that does not fit leaves the page half written and clean. *)
Definition garry_store_node (pool : garry_buffer_pool) (pid : Z) (node : garry_btree_node)
  : option garry_buffer_pool :=
  '(pool, r) ← garry_pool_pin_page pool pid;
  match r with
  | None => Some pool
  | Some idx =>
      let node := if decide (nd_count node > GARRY_MAX_KEYS_PER_NODE)
                  then set_count node GARRY_MAX_KEYS_PER_NODE else node in
      page ← slot_page pool idx;
      '(page, ok) ← store_page page (p_page_size pool) node;
      pool ← set_slot_page pool idx page;
      pool ← (if ok : bool then garry_pool_mark_dirty pool pid else Some pool);
      garry_pool_release_page pool pid
  end.

(** * The metadata record *)

(** Page ids the bias keeps non-negative and in range. *)
Definition id_ok (c : Z) : Prop := -1 <= c < 2 ^ 31 - GARRY_PAGE_ID_BIAS.
Definition enc_id (c : Z) : list Z := enc_int 0 (c + GARRY_PAGE_ID_BIAS).
Definition meta_bytes (next prev : Z) (cs : list Z) : list Z :=
  [130 + zlen cs] ++ enc_id next ++ enc_id prev ++ concat (map enc_id cs).

Lemma encode_cbor_uint_blit buf pos v :
  0 <= v < 2 ^ 31 ->
  encode_cbor_uint buf pos v = (fun o => (o, pos + zlen (enc_int 0 v))) <$> blit buf pos (enc_int 0 v).
Proof.
  intros Hv. rewrite <- encode_uint_blit by done. unfold encode_cbor_uint, encode_uint,
    GARRY_CBOR_UINT_BASE, CBOR_INLINE_THRESHOLD. rewrite (decide_False (P := v < 0)) by lia.
  destruct (decide (v < 24)); [by rewrite decide_True by lia|]. rewrite (decide_False (P := v >= 0 /\ v < 24)) by lia.
  destruct (decide (v < 256)); [by rewrite decide_True by lia|]. rewrite (decide_False (P := v >= 0 /\ v < 256)) by lia.
  destruct (decide (v < 65536)); [by rewrite decide_True by lia|].
  by rewrite (decide_False (P := v >= 0 /\ v < 65536)) by lia.
Qed.

Lemma decode_cbor_uint_enc p v q elen d :
  0 <= v < 2 ^ 31 -> zlen p + zlen (enc_int 0 v) <= elen ->
  decode_cbor_uint (p ++ enc_int 0 v ++ q) (zlen p) elen d =
    Some (zlen p + zlen (enc_int 0 v), Some v).
Proof.
  intros Hv Hl. pose proof (zlen_enc_int 0 v). unfold decode_cbor_uint. rewrite (decide_False (P := zlen p >= elen)) by lia.
  rewrite rd_app_0, !rd_app_plus by lia. unfold enc_int in *.
  pose proof (be16 v). pose proof (be32 v).
  repeat case_decide; simpl; rd_const; cbn [mbind option_bind fmap option_fmap option_map];
    rewrite ?norm_byte_id by (first [unfold is_byte; lia|apply div_byte; lia|apply mod_byte]);
    autorewrite with buf in *; dec; try (repeat f_equal; lia).
  unfold ck. rewrite decide_True; [cbn; repeat f_equal; lia|].
  unfold is_i32. pose proof (div_byte v 16777216). pose proof (Z.div_lt_upper_bound v 16777216 128).
  unfold is_byte in *. lia.
Qed.

(** Bytes emitted one field after the other. *)
Lemma emit_id buf s b c :
  blit buf 0 s = Some b -> id_ok c -> zlen s + 5 <= zlen buf ->
  exists b', encode_cbor_uint b (zlen s) (c + GARRY_PAGE_ID_BIAS) = Some (b', zlen (s ++ enc_id c)) /\
    blit buf 0 (s ++ enc_id c) = Some b'.
Proof.
  unfold id_ok, enc_id, GARRY_PAGE_ID_BIAS. intros Hb Hc Hl. pose proof (zlen_enc_int 0 (c + 100000)).
  pose proof (zlen_nonneg s).
  destruct (blit_ok buf 0 (s ++ enc_int 0 (c + 100000))) as (b' & E & _); [lia|rewrite zlen_app; lia|].
  exists b'. split; [|done]. rewrite encode_cbor_uint_blit by lia.
  rewrite <- (blit_blit _ _ _ (zlen s)) in E by lia. rewrite Hb in E. cbn [mbind option_bind] in E.
  rewrite E. cbn. by rewrite zlen_app.
Qed.

Lemma zlen_enc_id c : id_ok c -> zlen (enc_id c) <= 5.
Proof. intros _. apply zlen_enc_int. Qed.

Lemma zlen_ids cs : Forall id_ok cs -> zlen (concat (map enc_id cs)) <= 5 * zlen cs.
Proof.
  induction 1 as [|c cs Hc HF IH]; [done|]. cbn [map concat]. rewrite zlen_app, zlen_cons.
  pose proof (zlen_enc_id c Hc). lia.
Qed.

Lemma zlen_meta next prev cs :
  id_ok next -> id_ok prev -> Forall id_ok cs -> 3 <= zlen (meta_bytes next prev cs) <= 11 + 5 * zlen cs.
Proof.
  intros Hn Hp HF. unfold meta_bytes. rewrite !zlen_app. change (zlen [130 + zlen cs]) with 1.
  pose proof (zlen_enc_int 0 (next + GARRY_PAGE_ID_BIAS)). pose proof (zlen_enc_int 0 (prev + GARRY_PAGE_ID_BIAS)).
  pose proof (zlen_ids cs HF). pose proof (zlen_nonneg (concat (map enc_id cs))). unfold enc_id in *. lia.
Qed.

(** The children a node's metadata lists. *)
Definition meta_children (node : garry_btree_node) (cs : list Z) : Prop :=
  if decide (nd_kind node = GARRY_NODE_INTERNAL)
  then slice (nd_children node) 0 (nd_count node + 1) = Some cs else cs = [].

Lemma encode_meta_spec node buf cs :
  meta_children node cs -> id_ok (nd_next node) -> id_ok (nd_prev node) -> Forall id_ok cs ->
  zlen cs <= 21 -> 11 + 5 * zlen cs <= zlen buf ->
  exists buf', garry_encode_node_meta node buf =
      Some (buf', zlen (meta_bytes (nd_next node) (nd_prev node) cs)) /\
    blit buf 0 (meta_bytes (nd_next node) (nd_prev node) cs) = Some buf'.
Proof.
  intros Hcs Hn Hp HF H21 Hl. unfold garry_encode_node_meta. pose proof (zlen_nonneg cs) as Hz.
  assert (Hnum : (if decide (nd_kind node = GARRY_NODE_INTERNAL) then nd_count node + 1 else 0) = zlen cs /\
    forall i c, rd cs i = Some c -> rd (nd_children node) i = Some c).
  { unfold meta_children in Hcs. case_decide.
    - pose proof (slice_is_Some _ _ _ _ Hcs) as (_ & _ & _ & Hnl). split; [done|]. intros i c Hi.
      pose proof (rd_Some_range _ _ _ Hi) as Hr. rewrite (rd_slice _ _ _ _ i Hcs ltac:(lia)), Z.add_0_l in Hi. done.
    - subst cs. split; [done|]. intros i c Hi. apply rd_Some_range in Hi. unfold zlen in Hi. cbn in Hi. lia. }
  destruct Hnum as [-> Hrd]. rewrite decide_True by lia.
  destruct (blit_ok buf 0 [130 + zlen cs]) as (b0 & E0 & _); [lia|change (zlen [130 + zlen cs]) with 1; lia|].
  rewrite wr_blit, u8_id by (unfold is_byte; lia). replace (128 + (2 + zlen cs)) with (130 + zlen cs) by lia.
  rewrite E0. cbn [mbind option_bind]. unfold ck.
  assert (Hi32 : forall c, id_ok c -> is_i32 (c + GARRY_PAGE_ID_BIAS))
    by (unfold id_ok, is_i32, GARRY_PAGE_ID_BIAS; lia).
  rewrite (decide_True _ _ (Hi32 _ Hn)), (decide_True _ _ (Hi32 _ Hp)). cbn [mbind option_bind].
  destruct (emit_id buf [130 + zlen cs] b0 _ E0 Hn) as (b1 & F1 & E1); [change (zlen [130 + zlen cs]) with 1; lia|].
  change 1 with (zlen [130 + zlen cs]). rewrite F1. cbn [mbind option_bind].
  pose proof (zlen_enc_id _ Hn). pose proof (zlen_enc_id _ Hp).
  destruct (emit_id buf _ b1 _ E1 Hp) as (b2 & F2 & E2);
    [rewrite zlen_app; change (zlen [130 + zlen cs]) with 1; lia|].
  rewrite F2. cbn [mbind option_bind]. set (h := ([130 + zlen cs] ++ enc_id (nd_next node)) ++ enc_id (nd_prev node)) in *.
  assert (Hh : zlen h <= 11) by (subst h; rewrite !zlen_app; change (zlen [130 + zlen cs]) with 1; lia).
  edestruct (forZ_inv (fun i (st : list Z * Z) =>
    let s := h ++ concat (map enc_id (take (Z.to_nat i) cs)) in
    blit buf 0 s = Some st.1 /\ st.2 = zlen s) 0 (zlen cs)) as ([b3 pos] & -> & Hb & Hpos);
    [lia|cbn; by rewrite app_nil_r| |].
  - intros i [b pos] Hi [Hb Hpos]. cbn [fst snd] in *.
    destruct (lookup_lt_is_Some_2 cs (Z.to_nat i)) as [c Hc]; [unfold zlen in *; lia|].
    rewrite (Hrd i c) by (unfold rd; by rewrite decide_True by lia). cbn [mbind option_bind].
    pose proof (Forall_lookup_1 _ _ _ _ HF Hc) as Hid. rewrite (decide_True _ _ (Hi32 _ Hid)). cbn [mbind option_bind].
    assert (HFt : Forall id_ok (take (Z.to_nat i) cs)) by (by apply Forall_take).
    pose proof (zlen_ids _ HFt) as Hlt. unfold zlen in Hlt at 2. rewrite length_take in Hlt.
    destruct (emit_id buf _ b c Hb Hid) as (b' & F & E); [rewrite zlen_app; unfold zlen in *; lia|].
    rewrite Hpos, F. eexists. split; [done|]. cbn [fst snd].
    replace (Z.to_nat (i + 1)) with (S (Z.to_nat i)) by lia. rewrite (take_S_r _ _ _ Hc), map_app, concat_app.
    cbn [map concat]. rewrite app_nil_r, app_assoc. done.
  - cbn [fst snd] in *. rewrite take_ge in Hb, Hpos by (unfold zlen; lia). subst pos.
    exists b3. assert (Em : meta_bytes (nd_next node) (nd_prev node) cs = h ++ concat (map enc_id cs))
      by (unfold meta_bytes; subst h; by rewrite <- !app_assoc). by rewrite Em.
Qed.

Lemma decode_id p c q elen d :
  id_ok c -> zlen p + zlen (enc_id c) <= elen ->
  decode_cbor_uint (p ++ enc_id c ++ q) (zlen p) elen d =
    Some (zlen (p ++ enc_id c), Some (c + GARRY_PAGE_ID_BIAS)) /\ unbias (Some (c + GARRY_PAGE_ID_BIAS)) = Some c.
Proof.
  unfold id_ok, enc_id, GARRY_PAGE_ID_BIAS. intros Hc Hl. rewrite decode_cbor_uint_enc, zlen_app by lia.
  split; [done|]. unfold unbias, ck, GARRY_PAGE_ID_BIAS. cbn [mbind option_bind].
  rewrite decide_True by (unfold is_i32; lia). f_equal. lia.
Qed.

Lemma decode_meta_spec node next prev cs q :
  id_ok next -> id_ok prev -> Forall id_ok cs -> zlen cs <= 21 -> zlen cs <= zlen (nd_children node) ->
  (nd_kind node <> GARRY_NODE_INTERNAL -> cs = []) ->
  exists chs, blit (nd_children node) 0 cs = Some chs /\
    garry_decode_node_meta (meta_bytes next prev cs ++ q) (zlen (meta_bytes next prev cs)) node =
      Some (set_children (set_links node next prev) chs).
Proof.
  intros Hn Hp HF H21 Hcap Hleaf. pose proof (zlen_nonneg cs) as Hz.
  destruct (blit_ok (nd_children node) 0 cs) as (chs & Hchs & _); [lia..|]. exists chs. split; [done|].
  unfold garry_decode_node_meta. set (m := meta_bytes next prev cs).
  pose proof (zlen_meta next prev cs Hn Hp HF) as Hm. fold m in Hm.
  assert (Hm0 : m = [130 + zlen cs] ++ enc_id next ++ enc_id prev ++ concat (map enc_id cs)) by done.
  assert (Hml : zlen m = 1 + zlen (enc_id next) + zlen (enc_id prev) + zlen (concat (map enc_id cs))).
  { rewrite Hm0, !zlen_app. change (zlen [130 + zlen cs]) with 1. lia. }
  pose proof (zlen_nonneg (enc_id prev)). pose proof (zlen_nonneg (concat (map enc_id cs))).
  assert (Hrd : rd (m ++ q) 0 = Some (130 + zlen cs)) by (by rewrite Hm0, <- !app_assoc).
  rewrite Hrd. cbn [fmap option_fmap option_map mbind option_bind].
  rewrite norm_byte_id by (unfold is_byte; lia). rewrite decide_False by lia.
  replace (Z.rem (130 + zlen cs) 32) with (2 + zlen cs)
    by (rewrite Z.rem_mod_nonneg by lia; pose proof (Z.mod_unique (130 + zlen cs) 32 4 (2 + zlen cs)); lia).
  rewrite decide_True by lia. cbn [mbind option_bind].
  assert (D1 : forall d, decode_cbor_uint (m ++ q) 1 (zlen m) d =
    Some (zlen ([130 + zlen cs] ++ enc_id next), Some (next + GARRY_PAGE_ID_BIAS))).
  { intros d. rewrite Hm0 at 1. rewrite <- !app_assoc.
    apply (decode_id [130 + zlen cs] next); [done|]. change (zlen [130 + zlen cs]) with 1. lia. }
  set (h := ([130 + zlen cs] ++ enc_id next) ++ enc_id prev).
  assert (Hh : m = h ++ concat (map enc_id cs)) by (rewrite Hm0; subst h; by rewrite <- !app_assoc).
  assert (D2 : forall d, decode_cbor_uint (m ++ q) (zlen ([130 + zlen cs] ++ enc_id next)) (zlen m) d =
    Some (zlen h, Some (prev + GARRY_PAGE_ID_BIAS))).
  { intros d. rewrite Hh at 1. subst h. rewrite <- (app_assoc _ _ q), <- (app_assoc _ (enc_id prev)).
    apply (decode_id ([130 + zlen cs] ++ enc_id next) prev); [done|].
    rewrite zlen_app. change (zlen [130 + zlen cs]) with 1. lia. }
  rewrite D1. cbn [mbind option_bind]. rewrite (proj2 (decode_id [] next [] 5 None Hn (zlen_enc_id _ Hn))).
  cbn [mbind option_bind]. rewrite D2. cbn [mbind option_bind].
  rewrite (proj2 (decode_id [] prev [] 5 None Hp (zlen_enc_id _ Hp))). cbn [mbind option_bind].
  change (nd_kind (set_links node next prev)) with (nd_kind node).
  assert (Hnum : (if decide (nd_kind node = GARRY_NODE_INTERNAL) then 2 + zlen cs - 2 else 0) = zlen cs).
  { case_decide as Hk; [lia|]. by rewrite (Hleaf Hk). }
  rewrite Hnum.
  edestruct (forZ_inv (fun i (st : garry_btree_node * Z * option Z) =>
    st.1.2 = zlen (h ++ concat (map enc_id (take (Z.to_nat i) cs))) /\
    exists c, blit (nd_children node) 0 (take (Z.to_nat i) cs) = Some c /\
      st.1.1 = set_children (set_links node next prev) c) 0 (zlen cs))
    as ([[nd pos] dd] & -> & Hpos & c & Hc & Hnd); [lia| | |].
  - split; [cbn; by rewrite app_nil_r|]. exists (nd_children node). split; [|by destruct node].
    apply blit_nil. lia.
  - intros i [[nd pos] dd] Hi (Hpos & ch & Hch & Hnd). cbn [fst snd] in *. subst pos nd.
    destruct (lookup_lt_is_Some_2 cs (Z.to_nat i)) as [c Hc]; [unfold zlen in *; lia|].
    pose proof (Forall_lookup_1 _ _ _ _ HF Hc) as Hid.
    assert (Hsplit : cs = take (Z.to_nat i) cs ++ c :: drop (S (Z.to_nat i)) cs) by (symmetry; by apply take_drop_middle).
    assert (Hml' : zlen (concat (map enc_id cs)) = zlen (concat (map enc_id (take (Z.to_nat i) cs))) +
      zlen (enc_id c) + zlen (concat (map enc_id (drop (S (Z.to_nat i)) cs)))).
    { rewrite Hsplit at 1. rewrite map_app, concat_app. cbn [map concat]. rewrite !zlen_app. lia. }
    pose proof (zlen_nonneg (concat (map enc_id (drop (S (Z.to_nat i)) cs)))).
    pose proof (zlen_enc_int 0 (c + GARRY_PAGE_ID_BIAS)) as He. fold (enc_id c) in He.
    assert (Hpl : zlen (h ++ concat (map enc_id (take (Z.to_nat i) cs))) + zlen (enc_id c) <= zlen m)
      by (rewrite Hh, !zlen_app; lia).
    rewrite decide_True by lia.
    assert (D3 : decode_cbor_uint (m ++ q) (zlen (h ++ concat (map enc_id (take (Z.to_nat i) cs)))) (zlen m) dd =
      Some (zlen ((h ++ concat (map enc_id (take (Z.to_nat i) cs))) ++ enc_id c), Some (c + GARRY_PAGE_ID_BIAS))).
    { rewrite Hh at 1. rewrite Hsplit at 1. rewrite map_app, concat_app. cbn [map concat].
      rewrite !app_assoc. rewrite <- (app_assoc _ _ q), <- (app_assoc _ (enc_id c)).
      by apply (decode_id (h ++ concat (map enc_id (take (Z.to_nat i) cs))) c). }
    rewrite D3. cbn [mbind option_bind]. rewrite (proj2 (decode_id [] c [] 5 None Hid (zlen_enc_id _ Hid))).
    cbn [mbind option_bind].
    assert (Ht : zlen (take (Z.to_nat i) cs) = i) by (unfold zlen in *; rewrite length_take; lia).
    destruct (blit_ok (nd_children node) 0 (take (Z.to_nat i) cs ++ [c])) as (ch' & Hch' & _);
      [lia|rewrite zlen_app, Ht; change (zlen [c]) with 1; lia|].
    change (nd_children (set_children (set_links node next prev) ch)) with ch. rewrite wr_blit.
    pose proof (blit_blit (nd_children node) 0 (take (Z.to_nat i) cs) i [c] ltac:(lia)) as Hbb.
    rewrite Hch, Hch' in Hbb. cbn [mbind option_bind] in Hbb. rewrite Hbb. cbn [mbind option_bind].
    eexists. split; [done|]. cbn [fst snd].
    replace (Z.to_nat (i + 1)) with (S (Z.to_nat i)) by lia. rewrite (take_S_r _ _ _ Hc), map_app, concat_app.
    cbn [map concat]. rewrite app_nil_r, <- app_assoc. split; [done|]. by exists ch'.
  - cbn [fst snd mbind option_bind] in *. rewrite take_ge in Hc by (unfold zlen; lia).
    rewrite Hchs in Hc. by injection Hc as <-; subst nd.
Qed.

(** * Nodes as lists of keys, values and children *)

(** The first elements of an array of byte arrays, with their lengths. *)
Fixpoint holds (arrs : list (list Z)) (lens : list Z) (ks : list (list Z)) {struct ks} : Prop :=
  match ks, arrs, lens with
  | [], _, _ => True
  | k :: ks, a :: arrs, l :: lens => l = zlen k /\ slice a 0 (zlen k) = Some k /\ holds arrs lens ks
  | _, _, _ => False
  end.

(** A leaf holds keys and values, an internal node keys and children. *)
Inductive anode :=
  | ALeaf (next prev : Z) (es : list (list Z * list Z))
  | AInternal (next prev : Z) (ks : list (list Z)) (cs : list Z).

Definition an_kind (a : anode) : garry_node_kind :=
  match a with ALeaf _ _ _ => GARRY_NODE_LEAF | AInternal _ _ _ _ => GARRY_NODE_INTERNAL end.
Definition an_keys (a : anode) : list (list Z) :=
  match a with ALeaf _ _ es => map fst es | AInternal _ _ ks _ => ks end.
Definition an_links (a : anode) : Z * Z :=
  match a with ALeaf n p _ => (n, p) | AInternal n p _ _ => (n, p) end.
Definition an_children (a : anode) : list Z :=
  match a with ALeaf _ _ _ => [] | AInternal _ _ _ cs => cs end.
Definition an_pairs (a : anode) : list (list Z * list Z) :=
  match a with ALeaf _ _ es => es | AInternal _ _ ks _ => map (fun k => (k, [])) ks end.

(** The records of its page. *)
Definition an_records (a : anode) : list (list Z) :=
  meta_bytes (an_links a).1 (an_links a).2 (an_children a) :: map (fun e => enc_kv e.1 e.2) (an_pairs a).

Definition short (k : list Z) : Prop := zlen k <= 255.
Definition an_wf (a : anode) : Prop :=
  id_ok (an_links a).1 /\ id_ok (an_links a).2 /\ Forall id_ok (an_children a) /\
  Forall (fun e => short e.1 /\ short e.2) (an_pairs a) /\ zlen (an_pairs a) <= GARRY_MAX_KEYS_PER_NODE /\
  match a with ALeaf _ _ _ => True | AInternal _ _ ks cs => zlen cs = zlen ks + 1 end.

Record node_arrays (n : garry_btree_node) : Prop := {
  na_keys : zlen (nd_keys n) = 3 /\ Forall (fun x => zlen x = GARRY_MAX_KEY_SIZE) (nd_keys n);
  na_key_lens : zlen (nd_key_lens n) = 3 /\ Forall (fun l => 0 <= l <= GARRY_MAX_KEY_SIZE) (nd_key_lens n);
  na_values : zlen (nd_values n) = 3 /\ Forall (fun x => zlen x = GARRY_MAX_KEY_SIZE) (nd_values n);
  na_value_lens : zlen (nd_value_lens n) = 3 /\ Forall (fun l => 0 <= l <= GARRY_MAX_KEY_SIZE) (nd_value_lens n);
  na_children : zlen (nd_children n) = 4
}.

(** [node_rep n a]: the node in memory holds [a]. *)
Record node_rep (n : garry_btree_node) (a : anode) : Prop := {
  nr_arrays : node_arrays n;
  nr_kind : nd_kind n = an_kind a;
  nr_links : (nd_next n, nd_prev n) = an_links a;
  nr_count : nd_count n = zlen (an_pairs a);
  nr_keys : holds (nd_keys n) (nd_key_lens n) (map fst (an_pairs a));
  nr_values : match a with ALeaf _ _ es => holds (nd_values n) (nd_value_lens n) (map snd es) | _ => True end;
  nr_children : match a with
                | ALeaf _ _ _ => True
                | AInternal _ _ _ cs => slice (nd_children n) 0 (zlen cs) = Some cs
                end
}.

(** [page_node ps page a]: the page holds it; a page just allocated as a leaf has no
    records and holds the empty leaf. *)
Record page_node (ps : Z) (page : list Z) (a : anode) : Prop := {
  pn_rep : page_rep ps page (an_records a) \/ (a = ALeaf (-1) (-1) [] /\ page_rep ps page []);
  pn_type : garry_read_le32 page GARRY_PAGE_HDR_OFF_TYPE = Some (node_kind_ord (an_kind a));
  pn_level : is_Some (garry_read_le32 page GARRY_PAGE_HDR_OFF_LEVEL)
}.

(** The page has room for the records. *)
Definition node_fits (ps : Z) (a : anode) : Prop :=
  GARRY_PAGE_HEADER_SIZE + GARRY_SLOT_SIZE * zlen (an_records a) + recs_len (an_records a) <= ps.

Lemma holds_length arrs lens ks : holds arrs lens ks -> zlen ks <= zlen arrs /\ zlen ks <= zlen lens.
Proof.
  revert arrs lens. induction ks as [|k ks IH]; intros arrs lens H.
  - change (zlen (@nil (list Z))) with 0. pose proof (zlen_nonneg arrs). pose proof (zlen_nonneg lens). lia.
  - destruct arrs as [|a arrs], lens as [|l lens]; try done. destruct H as (_ & _ & H).
    apply IH in H. rewrite !zlen_cons. lia.
Qed.

Lemma holds_rd arrs lens ks i k :
  holds arrs lens ks -> rd ks i = Some k ->
  exists a, rd arrs i = Some a /\ rd lens i = Some (zlen k) /\ slice a 0 (zlen k) = Some k.
Proof.
  revert arrs lens i. induction ks as [|x ks IH]; intros arrs lens i H Hi.
  - apply rd_Some_range in Hi. change (zlen (@nil (list Z))) with 0 in Hi. lia.
  - pose proof (rd_Some_range _ _ _ Hi) as Hr.
    destruct arrs as [|a arrs], lens as [|l lens]; try done. destruct H as (-> & Hs & H).
    destruct (decide (i = 0)) as [->|Hne].
    + rewrite rd_cons_0 in Hi. injection Hi as ->. exists a. by rewrite !rd_cons_0.
    + rewrite rd_cons_S in Hi by lia. destruct (IH _ _ _ H Hi) as (b & E1 & E2 & E3). exists b.
      by rewrite !rd_cons_S by lia.
Qed.

(** Writing the element after the held ones. *)
Lemma holds_snoc arrs lens ks k a (i : nat) :
  holds arrs lens ks -> i = length ks -> slice a 0 (zlen k) = Some k ->
  (i < length arrs)%nat -> (i < length lens)%nat ->
  holds (<[i:=a]> arrs) (<[i:=zlen k]> lens) (ks ++ [k]).
Proof.
  intros H -> Hs. revert arrs lens H. induction ks as [|x ks IH]; intros arrs lens H Ha Hl;
    destruct arrs as [|b arrs], lens as [|l lens]; cbn [length] in *; try lia; try done.
  destruct H as (-> & Hx & H). change (<[S (length ks):=a]> (b :: arrs)) with (b :: <[length ks:=a]> arrs).
  change (<[S (length ks):=zlen k]> (zlen x :: lens)) with (zlen x :: <[length ks:=zlen k]> lens).
  cbn [app holds]. split; [done|]. split; [done|]. apply IH; [done|lia|lia].
Qed.

Lemma zlen_enc_kv k v : zlen k + zlen v + 3 <= zlen (enc_kv k v) <= zlen k + zlen v + 5.
Proof.
  unfold enc_kv. rewrite !zlen_app. change (zlen [130]) with 1.
  pose proof (zlen_enc_bytes k). pose proof (zlen_enc_bytes v). lia.
Qed.

Lemma blit_head {A} (d s d' : list A) : blit d 0 s = Some d' -> exists q, d' = s ++ q.
Proof.
  intros (p & g & q & _ & Hp & _ & ->)%blit_inv.
  destruct p; [by exists q|rewrite zlen_cons in Hp; pose proof (zlen_nonneg p); lia].
Qed.

(** Replacing one element of an array of byte arrays. *)
Lemma array_slot (arrs : list (list Z)) i :
  zlen arrs = 3 -> Forall (fun x => zlen x = GARRY_MAX_KEY_SIZE) arrs -> 0 <= i < 3 ->
  exists x, rd arrs i = Some x /\ zlen x = GARRY_MAX_KEY_SIZE /\ forall y, zlen y = GARRY_MAX_KEY_SIZE ->
    wr arrs i y = Some (<[Z.to_nat i:=y]> arrs) /\ zlen (<[Z.to_nat i:=y]> arrs) = 3 /\
    Forall (fun x => zlen x = GARRY_MAX_KEY_SIZE) (<[Z.to_nat i:=y]> arrs).
Proof.
  intros Hl HF Hi. destruct (rd_is_Some arrs i) as [x Hx]; [lia|]. exists x. split; [done|].
  assert (Hz : zlen x = GARRY_MAX_KEY_SIZE).
  { unfold rd in Hx. rewrite decide_True in Hx by lia. exact (Forall_lookup_1 _ _ _ _ HF Hx). }
  split; [done|]. intros y Hy. rewrite wr_Some by lia. split; [done|]. rewrite zlen_insert. split; [done|].
  by apply Forall_insert.
Qed.

Lemma put_array_spec (arrs : list (list Z)) i (src : list Z) n k :
  zlen arrs = 3 -> Forall (fun x => zlen x = GARRY_MAX_KEY_SIZE) arrs -> 0 <= i < 3 ->
  slice src 0 n = Some k -> n <= GARRY_MAX_KEY_SIZE ->
  exists x', put_array arrs i src n = Some (<[Z.to_nat i:=x']> arrs) /\ zlen x' = GARRY_MAX_KEY_SIZE /\
    slice x' 0 n = Some k /\ zlen (<[Z.to_nat i:=x']> arrs) = 3 /\
    Forall (fun x => zlen x = GARRY_MAX_KEY_SIZE) (<[Z.to_nat i:=x']> arrs).
Proof.
  intros Hl HF Hi Hs Hn. destruct (array_slot arrs i Hl HF Hi) as (x & Hx & Hz & Hw).
  pose proof (slice_is_Some _ _ _ _ Hs) as (_ & _ & _ & Hk).
  destruct (blit_ok x 0 k) as (x' & E & Hz'); [lia..|]. rewrite Hz in Hz'.
  unfold put_array, memcpy. rewrite Hx, Hs. cbn [mbind option_bind]. rewrite E. cbn [mbind option_bind].
  destruct (Hw x' Hz') as (-> & ? & ?). exists x'. split; [done|]. split; [done|].
  split; [rewrite <- Hk; by apply (slice_blit x)|done].
Qed.

(** The state of the loop over the entries. *)
Record loaded_upto (a : anode) (chs : list Z) (j : Z) (st : garry_btree_node * Z * list Z * list Z * list Z)
  : Prop := {
  lu_idx : st.1.1.1.2 = j - 1;
  lu_rec : zlen st.1.1.2 = GARRY_MAX_RECORD_SIZE;
  lu_buf : zlen st.1.2 = GARRY_MAX_RECORD_SIZE;
  lu_ckey : zlen st.2 = GARRY_MAX_KEY_SIZE;
  lu_arrays : node_arrays st.1.1.1.1;
  lu_kind : nd_kind st.1.1.1.1 = an_kind a;
  lu_links : (nd_next st.1.1.1.1, nd_prev st.1.1.1.1) = an_links a;
  lu_children : nd_children st.1.1.1.1 = chs;
  lu_keys : holds (nd_keys st.1.1.1.1) (nd_key_lens st.1.1.1.1)
              (map fst (take (Z.to_nat (j - 1)) (an_pairs a)));
  lu_values : holds (nd_values st.1.1.1.1) (nd_value_lens st.1.1.1.1)
                (map snd (take (Z.to_nat (j - 1)) (an_pairs a)))
}.

Lemma load_entry_spec ps buf a chs j st :
  page_rep ps buf (an_records a) -> an_wf a -> 1 <= j <= zlen (an_pairs a) -> loaded_upto a chs j st ->
  exists st', load_entry buf ps j st = Some st' /\ loaded_upto a chs (j + 1) st'.
Proof.
  intros Hrep (_ & _ & _ & Hsh & Hcap & _) Hj. destruct st as [[[[node idx] rec] rb] ck].
  intros [H1 H2 H3 H4 H5 H6 H7 H8 H9 H10]. cbn [fst snd] in *. unfold GARRY_MAX_KEYS_PER_NODE in Hcap.
  destruct (lookup_lt_is_Some_2 (an_pairs a) (Z.to_nat (j - 1))) as [[k v] He]; [unfold zlen in *; lia|].
  pose proof (Forall_lookup_1 _ _ _ _ Hsh He) as [Hk Hv]. unfold short in Hk, Hv. cbn [fst snd] in Hk, Hv.
  pose proof (zlen_enc_kv k v) as Hkv. pose proof (zlen_nonneg k). pose proof (zlen_nonneg v).
  unfold load_entry. rewrite decide_True by (unfold GARRY_MAX_KEYS_PER_NODE; lia).
  assert (Hr : rd (an_records a) j = Some (enc_kv k v)).
  { unfold an_records. rewrite rd_cons_S by lia. unfold rd. rewrite decide_True by lia.
    change (map ?f ?l) with (f <$> l). by rewrite list_lookup_fmap, He. }
  pose proof (page_get_rep ps buf _ j rec Hrep) as Hg. rewrite Hr in Hg.
  unfold GARRY_MAX_RECORD_SIZE, GARRY_MAX_KEY_SIZE in *.
  destruct Hg as (rec' & Hb & ->); [lia|]. cbn [mbind option_bind]. rewrite decide_True by lia.
  pose proof (slice_blit _ _ _ _ Hb) as Hs. rewrite (copy_loop_slice _ _ _ _ _ _ Hs) by lia.
  destruct (blit_ok rb 0 (enc_kv k v)) as (rb' & Erb & Hzrb); [lia..|]. rewrite Erb. cbn [mbind option_bind].
  destruct (array_slot (nd_values node) idx (proj1 (na_values _ H5)) (proj2 (na_values _ H5)) ltac:(lia))
    as (x & Hx & Hzx & Hw). rewrite Hx. cbn [mbind option_bind].
  destruct (blit_head _ _ _ Erb) as [q ->].
  destruct (decode_kv_enc k v q (zlen (enc_kv k v)) ck x) as (ck' & x' & Eck & Ex & ->);
    [done|done|lia|lia|unfold GARRY_MAX_KEY_SIZE in *; lia|]. cbn [mbind option_bind kv_value kv_ok kv_key kv_klen kv_vlen].
  destruct (Hw x') as (-> & Hl1 & HF1); [by rewrite (blit_zlen _ _ _ _ Ex)|]. cbn [mbind option_bind].
  pose proof (slice_blit _ _ _ _ Eck) as Sck. pose proof (slice_blit _ _ _ _ Ex) as Sx.
  unfold put_key. cbn [nd_keys nd_key_lens set_values].
  destruct (put_array_spec (nd_keys node) idx ck' (zlen k) k (proj1 (na_keys _ H5)) (proj2 (na_keys _ H5)))
    as (y & -> & Hzy & Sy & Hl2 & HF2); [lia|done|unfold GARRY_MAX_KEY_SIZE; lia|]. cbn [mbind option_bind].
  destruct (na_key_lens _ H5) as [Hkl Hkb]. destruct (na_value_lens _ H5) as [Hvl Hvb].
  rewrite wr_Some by lia. cbn [mbind option_bind nd_value_lens set_keys set_values nd_values].
  rewrite wr_Some by lia. cbn [mbind option_bind]. eexists. split; [done|].
  assert (Htk : take (Z.to_nat (j + 1 - 1)) (an_pairs a) = take (Z.to_nat (j - 1)) (an_pairs a) ++ [(k, v)]).
  { replace (Z.to_nat (j + 1 - 1)) with (S (Z.to_nat (j - 1))) by lia. by apply take_S_r. }
  assert (Hlen : forall {B} (f : list Z * list Z -> B), Z.to_nat idx = length (map f (take (Z.to_nat (j - 1)) (an_pairs a)))).
  { intros B f. rewrite length_map, length_take. unfold zlen in *. lia. }
  split; cbn [fst snd set_values set_keys nd_keys nd_key_lens nd_values nd_value_lens nd_kind nd_next nd_prev nd_children];
    rewrite ?Htk, ?map_app; cbn [map fst snd]; try done.
  - lia.
  - by rewrite (blit_zlen _ _ _ _ Hb).
  - by rewrite Hzrb.
  - by rewrite (blit_zlen _ _ _ _ Eck).
  - split; cbn [set_keys set_values nd_keys nd_key_lens nd_values nd_value_lens nd_children];
      [by split| |by split| |apply H5]; (split; [by rewrite zlen_insert|apply Forall_insert; [done|unfold GARRY_MAX_KEY_SIZE; lia]]).
  - apply holds_snoc; [done|apply Hlen|done|pose proof (proj1 (na_keys _ H5)); unfold zlen in *; lia|unfold zlen in *; lia].
  - apply holds_snoc; [done|apply Hlen|done|pose proof (proj1 (na_values _ H5)); unfold zlen in *; lia|unfold zlen in *; lia].
Qed.

Lemma read_le32_some ps page rs off :
  page_rep ps page rs -> 0 <= off -> off + 4 <= GARRY_PAGE_HEADER_SIZE -> is_Some (garry_read_le32 page off).
Proof.
  intros [Hs Hb] Ho Hl. pose proof (zlen_nonneg rs).
  pose proof (zlen_nonneg (concat rs)). unfold recs_len, GARRY_SLOT_SIZE in *.
  unfold garry_read_le32. destruct (rd_is_Some page off) as [b0 ->]; [lia|].
  destruct (rd_is_Some page (off + 1)) as [b1 ->]; [lia|]. destruct (rd_is_Some page (off + 2)) as [b2 ->]; [lia|].
  destruct (rd_is_Some page (off + 3)) as [b3 ->]; [lia|]. by eexists.
Qed.

Lemma kind_of_an_kind a : kind_of_type (node_kind_ord (an_kind a)) = an_kind a.
Proof. by destruct a. Qed.

Lemma blank_arrays kind hdr next prev chs :
  zlen chs = 4 -> node_arrays (set_children (set_links (set_kind blank_node kind hdr) next prev) chs).
Proof.
  intros Hc. split; [| | | |exact Hc]; (split; [done|]).
  all: do 3 (apply Forall_cons; split; [by vm_compute|]); apply Forall_nil; exact I.
Qed.

(** Loading a page without records. *)
Lemma load_page_empty ps page kind :
  page_rep ps page [] -> garry_read_le32 page GARRY_PAGE_HDR_OFF_TYPE = Some (node_kind_ord kind) ->
  is_Some (garry_read_le32 page GARRY_PAGE_HDR_OFF_LEVEL) ->
  exists hdr, load_page page ps = Some (set_kind blank_node (kind_of_type (node_kind_ord kind)) hdr).
Proof.
  intros Hrep Ht [lv Hlv]. unfold load_page, garry_page_record_count, garry_read_int32.
  rewrite (rep_count _ _ _ Hrep), Ht, Hlv. cbn [mbind option_bind]. change (zlen (@nil (list Z))) with 0.
  rewrite (decide_False (P := 0 > 0)) by lia. cbn [mbind option_bind]. rewrite (decide_False (P := 0 > 1)) by lia.
  by eexists.
Qed.

Lemma empty_leaf_rep hdr : node_rep (set_kind blank_node GARRY_NODE_LEAF hdr) (ALeaf (-1) (-1) []).
Proof. split; try done. exact (blank_arrays GARRY_NODE_LEAF hdr (-1) (-1) (replicate 4 0) eq_refl). Qed.

(** Loading a page that holds a node. *)
Lemma load_page_spec ps page a :
  page_node ps page a -> an_wf a -> exists n, load_page page ps = Some n /\ node_rep n a.
Proof.
  intros [[Hrep|[-> Hrep]] Ht Hlv] Hwf.
  2: { destruct (load_page_empty _ _ _ Hrep Ht Hlv) as [hdr ->]. eexists. split; [done|apply empty_leaf_rep]. }
  destruct Hlv as [lv Hlv]. pose proof Hwf as (Hn & Hp & Hcs & Hsh & Hcap & Hch). unfold load_page.
  unfold garry_page_record_count, garry_read_int32. rewrite (rep_count _ _ _ Hrep), Ht, Hlv.
  cbn [mbind option_bind]. rewrite kind_of_an_kind.
  assert (Hrc : zlen (an_records a) = 1 + zlen (an_pairs a)).
  { unfold an_records. rewrite zlen_cons. unfold zlen. by rewrite length_map. }
  pose proof (zlen_nonneg (an_pairs a)). rewrite (decide_True (P := zlen (an_records a) > 0)) by lia.
  set (m := meta_bytes (an_links a).1 (an_links a).2 (an_children a)).
  pose proof (zlen_meta _ _ _ Hn Hp Hcs) as Hm. fold m in Hm.
  assert (Hcl : zlen (an_children a) <= 4).
  { destruct a as [next prev es|next prev ks cs]; cbn; [done|].
    unfold an_pairs, GARRY_MAX_KEYS_PER_NODE, zlen in *. rewrite length_map in Hcap. lia. }
  pose proof (page_get_rep ps page _ 0 (zeros GARRY_MAX_RECORD_SIZE) Hrep) as Hg.
  unfold an_records in Hg at 1. rewrite rd_cons_0 in Hg. fold m in Hg. rewrite zlen_zeros in Hg by done.
  unfold GARRY_META_SLOT, GARRY_MAX_RECORD_SIZE in *. destruct Hg as (rec & Hb & ->); [lia|].
  cbn [mbind option_bind]. rewrite decide_True by lia.
  rewrite (copy_loop_slice _ _ _ _ _ _ (slice_blit _ _ _ _ Hb)) by (rewrite ?zlen_zeros; lia).
  rewrite Hb. cbn [mbind option_bind]. destruct (blit_head _ _ _ Hb) as [q Hq].
  set (n0 := set_kind blank_node (an_kind a) (PageHeader (an_kind a) lv 0 0 0 0 0 0)).
  destruct (decode_meta_spec n0 _ _ (an_children a) q Hn Hp Hcs) as (chs & Hchs & Hdec).
  - lia.
  - change (zlen (nd_children n0)) with 4. lia.
  - destruct a; [done|]. by intros [].
  - fold m in Hdec. rewrite Hq, Hdec. cbn [mbind option_bind]. rewrite <- Hq.
    set (n1 := set_children (set_links n0 (an_links a).1 (an_links a).2) chs).
    assert (Hst : loaded_upto a chs 1 (n1, 0, rec, rec, zeros GARRY_MAX_KEY_SIZE)).
    { pose proof (blit_zlen _ _ _ _ Hb) as Hz. pose proof (blit_zlen _ _ _ _ Hchs) as Hzc.
      rewrite zlen_zeros in Hz by done. subst n1 n0.
      split; cbn [fst snd set_children set_links set_kind nd_kind nd_next nd_prev nd_children].
      - reflexivity.
      - exact Hz.
      - exact Hz.
      - reflexivity.
      - apply blank_arrays. by rewrite Hzc.
      - reflexivity.
      - by destruct (an_links a).
      - reflexivity.
      - exact I.
      - exact I. }
    assert (Hfin : exists n, (if decide (zlen (an_records a) > 1) then
        '(node, entry_idx, _, _, _) ← forZ 1 (zlen (an_records a)) (load_entry page ps)
          (n1, 0, rec, rec, zeros GARRY_MAX_KEY_SIZE); Some (set_count node entry_idx) else Some n1) = Some n /\
      exists st, loaded_upto a chs (zlen (an_records a)) st /\ n = set_count st.1.1.1.1 (zlen (an_pairs a))).
    { destruct (decide (zlen (an_records a) > 1)) as [Hd|Hd].
      - destruct (forZ_inv (loaded_upto a chs) 1 (zlen (an_records a)) (load_entry page ps)
          (n1, 0, rec, rec, zeros GARRY_MAX_KEY_SIZE)) as (st & -> & Hst'); [lia|done| |].
        { intros i st Hi Hs. apply load_entry_spec; [done|done|lia|done]. }
        destruct st as [[[[nd idx] r1] r2] ck]. cbn [mbind option_bind]. eexists. split; [done|].
        eexists. split; [exact Hst'|]. cbn. pose proof (lu_idx _ _ _ _ Hst') as Hi. cbn in Hi. f_equal. lia.
      - exists n1. split; [done|]. eexists. replace (zlen (an_records a)) with 1 by lia.
        split; [exact Hst|]. cbn. replace (zlen (an_pairs a)) with 0 by lia. done. }
    destruct Hfin as (n & -> & st & Hlu & ->). eexists. split; [done|].
    destruct Hlu as [L1 L2 L3 L4 L5 L6 L7 L8 L9 L10].
    rewrite take_ge in L9, L10 by (unfold zlen in *; lia).
    split; cbn [set_count nd_kind nd_next nd_prev nd_count nd_keys nd_key_lens nd_values nd_value_lens nd_children].
    + by destruct L5.
    + exact L6.
    + exact L7.
    + reflexivity.
    + exact L9.
    + destruct a; [exact L10|exact I].
    + destruct a; [exact I|]. cbn [an_children] in *. rewrite L8. apply (slice_blit _ _ _ _ Hchs).
Qed.

(** The pair the store writes for entry [i]. *)
Lemma node_entry n a i k v :
  node_rep n a -> rd (an_pairs a) i = Some (k, v) -> zlen (an_pairs a) <= 3 ->
  exists key value vl, rd (nd_keys n) i = Some key /\ rd (nd_key_lens n) i = Some (zlen k) /\
    slice key 0 (zlen k) = Some k /\ rd (nd_values n) i = Some value /\ rd (nd_value_lens n) i = Some vl /\
    slice value 0 (if decide (nd_kind n = GARRY_NODE_INTERNAL) then 0 else vl) = Some v.
Proof.
  intros [Harr Hk _ _ Hkeys Hvals _] Hi Hcap. pose proof (rd_Some_range _ _ _ Hi) as Hr.
  assert (Hik : rd (map fst (an_pairs a)) i = Some k).
  { unfold rd in *. case_decide; [|done]. change (map ?f ?l) with (f <$> l). by rewrite list_lookup_fmap, Hi. }
  destruct (holds_rd _ _ _ _ _ Hkeys Hik) as (key & E1 & E2 & E3).
  destruct (array_slot (nd_values n) i (proj1 (na_values _ Harr)) (proj2 (na_values _ Harr)) ltac:(lia))
    as (value & Ev & Hz & _).
  destruct (rd_is_Some (nd_value_lens n) i) as [vl El]; [rewrite (proj1 (na_value_lens _ Harr)); lia|].
  exists key, value, vl. split; [done|]. split; [done|]. split; [done|]. split; [done|]. split; [done|].
  rewrite Hk. destruct a as [next prev es|next prev ks cs]; cbn [an_kind an_pairs] in *.
  - rewrite decide_False by done.
    assert (Hiv : rd (map snd es) i = Some v).
    { unfold rd in *. case_decide; [|done]. change (map ?f ?l) with (f <$> l). by rewrite list_lookup_fmap, Hi. }
    destruct (holds_rd _ _ _ _ _ Hvals Hiv) as (value' & E4 & E5 & E6).
    rewrite Ev in E4. injection E4 as <-. rewrite El in E5. by injection E5 as ->.
  - rewrite decide_True by done. assert (v = []) as ->.
    { unfold rd in Hi. case_decide; [|done]. change (map ?f ?l) with (f <$> l) in Hi.
      rewrite list_lookup_fmap in Hi. destruct (ks !! Z.to_nat i); [|done]. by injection Hi as _ <-. }
    rewrite slice_Some by (unfold GARRY_MAX_KEY_SIZE in *; lia). done.
Qed.

Lemma recs_len_cons r rs : recs_len (r :: rs) = zlen r + recs_len rs.
Proof. unfold recs_len. cbn [concat]. by rewrite zlen_app. Qed.

Lemma recs_len_take (f : list Z * list Z -> list Z) es i e :
  es !! i = Some e -> recs_len (map f (take i es)) + zlen (f e) <= recs_len (map f es).
Proof.
  intros He. pose proof (take_drop_middle es i e He) as Hs. rewrite <- Hs at 2.
  unfold recs_len. rewrite map_app, concat_app, zlen_app. cbn [map concat]. rewrite zlen_app.
  pose proof (zlen_nonneg (concat (map f (drop (S i) es)))). lia.
Qed.

(** The state of the loop that stores the entries. *)
Record stored_upto (ps : Z) (a : anode) (lv n : Z) (i : Z) (st : list Z * list Z * bool) : Prop := {
  su_ok : st.2 = true;
  su_len : zlen st.1.1 = n;
  su_buf : zlen st.1.2 = GARRY_MAX_RECORD_SIZE;
  su_rep : page_rep ps st.1.1 (meta_bytes (an_links a).1 (an_links a).2 (an_children a) ::
             map (fun e => enc_kv e.1 e.2) (take (Z.to_nat i) (an_pairs a)));
  su_type : garry_read_le32 st.1.1 GARRY_PAGE_HDR_OFF_TYPE = Some (node_kind_ord (an_kind a));
  su_level : garry_read_le32 st.1.1 GARRY_PAGE_HDR_OFF_LEVEL = Some lv
}.

Lemma store_entry_spec ps n a lv l i st :
  node_rep n a -> an_wf a -> node_fits ps a -> 0 <= i < zlen (an_pairs a) -> stored_upto ps a lv l i st ->
  exists st', store_entry ps n i st = Some st' /\ stored_upto ps a lv l (i + 1) st'.
Proof.
  intros Hn (_ & _ & _ & Hsh & Hcap & _) Hfit Hi. destruct st as [[page rb] ok]. intros [S1 S2 S3 S4 S5 S6].
  cbn [fst snd] in *. subst ok. unfold GARRY_MAX_KEYS_PER_NODE in Hcap.
  destruct (lookup_lt_is_Some_2 (an_pairs a) (Z.to_nat i)) as [[k v] He]; [unfold zlen in *; lia|].
  pose proof (Forall_lookup_1 _ _ _ _ Hsh He) as [Hk Hv]. unfold short in Hk, Hv. cbn [fst snd] in Hk, Hv.
  pose proof (zlen_enc_kv k v) as Hkv. pose proof (zlen_nonneg k). pose proof (zlen_nonneg v).
  destruct (node_entry n a i k v Hn) as (key & value & vl & E1 & E2 & E3 & E4 & E5 & E6);
    [unfold rd; by rewrite decide_True by lia|lia|].
  unfold store_entry. rewrite E1, E2, E4, E5. cbn [mbind option_bind].
  rewrite (encode_kv_blit _ _ _ _ _ _ rb E3 E6). unfold GARRY_MAX_RECORD_SIZE in *.
  destruct (blit_ok rb 0 (enc_kv k v)) as (rb' & Eb & Hz); [lia..|]. rewrite Eb.
  cbn [fmap option_fmap option_map mbind option_bind]. rewrite decide_True by lia.
  rewrite (copy_loop_slice _ _ _ _ _ _ (slice_blit _ _ _ _ Eb)) by (rewrite ?zlen_zeros; lia).
  destruct (blit_ok (zeros 16384) 0 (enc_kv k v)) as (enc & Ee & _); [lia|rewrite zlen_zeros; lia|].
  rewrite Ee. cbn [mbind option_bind].
  set (m := meta_bytes (an_links a).1 (an_links a).2 (an_children a)) in *.
  set (f := fun e : list Z * list Z => enc_kv e.1 e.2) in *.
  assert (Hnext : m :: map f (take (Z.to_nat (i + 1)) (an_pairs a)) =
    (m :: map f (take (Z.to_nat i) (an_pairs a))) ++ [enc_kv k v]).
  { replace (Z.to_nat (i + 1)) with (S (Z.to_nat i)) by lia. by rewrite (take_S_r _ _ _ He), map_app. }
  assert (Hpf : page_fits ps (m :: map f (take (Z.to_nat i) (an_pairs a))) (zlen (enc_kv k v))).
  { unfold node_fits, an_records in Hfit. fold m in Hfit. fold f in Hfit.
    pose proof (recs_len_take f _ _ _ He) as Hrl. change (f (k, v)) with (enc_kv k v) in Hrl.
    assert (Hz1 : zlen (map f (take (Z.to_nat i) (an_pairs a))) = i)
      by (unfold zlen in *; rewrite length_map, length_take; lia).
    assert (Hz2 : zlen (map f (an_pairs a)) = zlen (an_pairs a)) by (unfold zlen; by rewrite length_map).
    unfold page_fits. rewrite recs_len_cons, zlen_cons, Hz1. rewrite recs_len_cons, zlen_cons, Hz2 in Hfit.
    unfold GARRY_MAX_SLOTS, GARRY_SLOT_SIZE in *. lia. }
  destruct (page_insert_fits ps page _ enc (zlen (enc_kv k v)) (enc_kv k v) S4 Hpf (slice_blit _ _ _ _ Ee))
    as (page' & -> & Hl' & Hrep' & Hkeep). cbn [mbind option_bind].
  rewrite bool_decide_eq_true_2 by apply zlen_nonneg. eexists. split; [done|].
  split; cbn [fst snd].
  - done.
  - by rewrite Hl'.
  - by rewrite Hz.
  - fold m f. by rewrite Hnext.
  - rewrite Hkeep; [done|]. unfold GARRY_PAGE_HDR_OFF_TYPE, GARRY_PAGE_HDR_OFF_COUNT. lia.
  - rewrite Hkeep; [done|]. unfold GARRY_PAGE_HDR_OFF_LEVEL, GARRY_PAGE_HDR_OFF_COUNT. lia.
Qed.

(** Storing a node whose records fit. *)
Lemma store_page_spec ps page n a :
  node_rep n a -> an_wf a -> node_fits ps a -> ps <= GARRY_MAX_PAGE_SIZE -> ps <= zlen page ->
  exists page', store_page page ps n = Some (page', true) /\ page_node ps page' a /\ zlen page' = zlen page.
Proof.
  intros Hn Hwf Hfit Hps Hpl. pose proof Hwf as (Hnx & Hpv & Hcs & Hsh & Hcap & Hch). unfold store_page.
  set (m := meta_bytes (an_links a).1 (an_links a).2 (an_children a)).
  pose proof (zlen_meta _ _ _ Hnx Hpv Hcs) as Hm. fold m in Hm. unfold GARRY_MAX_KEYS_PER_NODE in Hcap.
  pose proof (zlen_nonneg (an_pairs a)) as Hp0.
  assert (Hrl : recs_len (an_records a) = zlen m + recs_len (map (fun e => enc_kv e.1 e.2) (an_pairs a))).
  { unfold recs_len, an_records. fold m. cbn [concat]. by rewrite zlen_app. }
  assert (Hrc : zlen (an_records a) = 1 + zlen (an_pairs a)).
  { unfold an_records. rewrite zlen_cons. unfold zlen. by rewrite length_map. }
  pose proof (zlen_nonneg (concat (map (fun e : list Z * list Z => enc_kv e.1 e.2) (an_pairs a)))) as Hr0.
  fold (recs_len (map (fun e : list Z * list Z => enc_kv e.1 e.2) (an_pairs a))) in Hr0.
  assert (Hcl : zlen (an_children a) <= 4).
  { destruct a as [next prev es|next prev ks cs]; cbn; [done|].
    unfold an_pairs, zlen in *. rewrite length_map in Hcap. lia. }
  unfold node_fits in Hfit. unfold GARRY_PAGE_HEADER_SIZE, GARRY_SLOT_SIZE, GARRY_MAX_RECORD_SIZE in *.
  destruct (page_init_rep page (nd_kind n) (page_level (nd_header n)) ps) as (p0 & -> & Hl0 & Hrep0 & Ht0 & Hlv0);
    [unfold GARRY_PAGE_HEADER_SIZE; lia|done|]. cbn [mbind option_bind].
  pose proof (nr_links _ _ Hn) as Hlk.
  assert (Hl1 : nd_next n = (an_links a).1) by (by rewrite <- Hlk).
  assert (Hl2 : nd_prev n = (an_links a).2) by (by rewrite <- Hlk).
  destruct (encode_meta_spec n (zeros 16384) (an_children a)) as (rb & -> & Eb);
    rewrite ?Hl1, ?Hl2; [|done|done|done|lia|rewrite zlen_zeros; lia|].
  { unfold meta_children. rewrite (nr_kind _ _ Hn). pose proof (nr_count _ _ Hn) as Hc. pose proof (nr_children _ _ Hn) as Hck.
    destruct a as [next prev es|next prev ks cs]; cbn [an_kind an_children]; [by rewrite decide_False|].
    rewrite decide_True by done. rewrite Hc. unfold an_pairs, zlen. rewrite length_map. fold (zlen ks).
    by rewrite <- Hch. }
  fold m in Eb |- *. rewrite Hl1, Hl2 in Eb. fold m in Eb. cbn [mbind option_bind].
  rewrite (copy_loop_slice _ _ _ _ _ _ (slice_blit _ _ _ _ Eb)) by (rewrite ?zlen_zeros; lia).
  rewrite Eb. cbn [mbind option_bind].
  assert (Hpf : page_fits ps [] (zlen m)).
  { unfold page_fits, recs_len, GARRY_MAX_SLOTS, GARRY_SLOT_SIZE, GARRY_PAGE_HEADER_SIZE.
    change (zlen (@nil (list Z))) with 0. change (zlen (concat (@nil (list Z)))) with 0. lia. }
  destruct (page_insert_fits ps p0 [] rb (zlen m) m Hrep0 Hpf (slice_blit _ _ _ _ Eb)) as (p1 & -> & Hl1' & Hrep1 & Hk1).
  cbn [mbind option_bind]. change (zlen (@nil (list Z))) with 0. rewrite (decide_False (P := 0 < 0)) by lia.
  rewrite (nr_count _ _ Hn).
  destruct (forZ_inv (stored_upto ps a (i32 (page_level (nd_header n))) (zlen page)) 0 (zlen (an_pairs a))
    (store_entry ps n) (p1, rb, true)) as ([[p2 rb2] ok] & -> & Hst).
  - lia.
  - split; cbn [fst snd]; [done|by rewrite Hl1', Hl0|by rewrite (blit_zlen _ _ _ _ Eb)|exact Hrep1| |].
    + rewrite Hk1; [by rewrite Ht0, (nr_kind _ _ Hn)|]. unfold GARRY_PAGE_HDR_OFF_TYPE, GARRY_PAGE_HDR_OFF_COUNT. lia.
    + rewrite Hk1; [exact Hlv0|]. unfold GARRY_PAGE_HDR_OFF_LEVEL, GARRY_PAGE_HDR_OFF_COUNT. lia.
  - intros i st Hi Hs. apply (store_entry_spec ps n a); try done.
  - cbn [mbind option_bind]. destruct Hst as [S1 S2 S3 S4 S5 S6]. cbn [fst snd] in *. subst ok.
    exists p2. split; [done|]. split; [|done]. rewrite take_ge in S4 by (unfold zlen; lia).
    split; [left; exact S4|exact S5|by eexists].
Qed.

(** * Nodes through the buffer pool *)

(** Marking a page dirty, pinned or not, in the pool or not. *)
Lemma mark_dirty_any n pins w p pid :
  ready n pins w p -> 0 <= pid -> (pid ∉ w) ->
  exists p', garry_pool_mark_dirty p pid = Some p' /\ ready n pins w p' /\ keeps p p' /\
    (forall q, find_slot p' q = find_slot p q).
Proof.
  intros Hr Hpid Hw. unfold garry_pool_mark_dirty. rewrite decide_False by lia.
  destruct (find_slot p pid) as [i|] eqn:Hf; [|exists p; done].
  destruct (find_slot_rd _ _ _ _ _ _ Hr Hf) as (s & Hi & Hl & Hp & Hpin & Hpg & Hrange).
  destruct (ready_upd n pins pins w w p pid i s (with_dirty true))
    as (p' & -> & Hr' & Hfs & Hc & Hps & Hnx & Hi' & Hfd & Hv); try done.
  - exact (proj1 (wf_slot p (rdy_wf _ _ _ _ Hr) i s Hi)).
  - exact (rdy_access _ _ _ _ Hr i s Hi).
  - exists p'. split; [done|]. split; [done|]. split; [|done].
    split; [done..|]. intros q. rewrite Hv. case_decide as Hq; [|done]. by subst q.
Qed.

(** Pinning a page to load it: [try_pin] first, [pin_page] when it is not in the pool. *)
Lemma load_pin_ready n pins w p pid :
  ready (n + 2) pins w p -> 0 <= n -> zlen pins < p_capacity p -> 0 <= pid < p_next_page p ->
  exists p' i, ('(pool, r) ← garry_pool_try_pin p pid;
                match r with Some idx => Some (pool, Some idx) | None => garry_pool_pin_page pool pid end) =
      Some (p', Some i) /\
    ready n (pid :: pins) w p' /\ keeps p p' /\ stable pins p p' /\ slot_page p' i = Some (pool_view p pid).
Proof.
  intros Hr Hn Hlt Hpid.
  pose proof (try_pin_ready (n + 1) pins w p pid) as Ht. replace (n + 1 + 1) with (n + 2) in Ht by lia.
  specialize (Ht Hr). destruct (find_slot p pid) as [i|] eqn:Hf.
  - destruct Ht as (p' & E & Hr' & Hk & Hs & _ & Hp); [lia|exact Hlt|lia|]. exists p', i. rewrite E.
    split; [reflexivity|]. split; [|split; [exact Hk|split; [exact Hs|exact Hp]]].
    eapply ready_le; [exact Hr'|lia].
  - rewrite Ht by lia. cbn [mbind option_bind].
    destruct (pin_page_ready n pins w p pid Hr Hn Hlt Hpid) as (p' & i & E & Hr' & Hk & Hs & _ & Hp).
    exists p', i. rewrite E. split; [reflexivity|]. split; [exact Hr'|]. split; [exact Hk|]. split; [exact Hs|exact Hp].
Qed.

Lemma load_node_ready n pins p pid a :
  ready (n + 2) pins [] p -> 0 <= n -> zlen pins < p_capacity p -> 0 <= pid < p_next_page p ->
  page_node (p_page_size p) (pool_view p pid) a -> an_wf a ->
  exists p' nd, garry_load_node p pid = Some (p', nd) /\ node_rep nd a /\ ready n pins [] p' /\
    keeps p p' /\ stable pins p p'.
Proof.
  intros Hr Hn Hlt Hpid Hpn Hwf. unfold garry_load_node.
  destruct (load_pin_ready n pins [] p pid Hr Hn Hlt Hpid) as (p1 & i & E & Hr1 & Hk1 & Hs1 & Hp1).
  destruct (garry_pool_try_pin p pid) as [[q r]|]; [|discriminate]. cbn [mbind option_bind] in E |- *.
  rewrite E. cbn [mbind option_bind]. rewrite Hp1. cbn [mbind option_bind].
  rewrite (kp_page_size _ _ Hk1).
  destruct (load_page_spec _ _ a Hpn Hwf) as (nd & -> & Hnd). cbn [mbind option_bind].
  destruct (release_ready n pid pins [] p1 Hr1 (not_elem_of_nil _)) as (p2 & -> & Hr2 & Hk2 & Hf2).
  cbn [mbind option_bind]. exists p2, nd. split; [reflexivity|]. split; [exact Hnd|]. split; [exact Hr2|].
  split; [transitivity p1; [exact Hk1|exact Hk2]|]. intros q' j Hq Hj. rewrite Hf2. by apply Hs1.
Qed.

Lemma store_node_ready n pins p pid nd a :
  ready (n + 2) pins [] p -> 0 <= n -> zlen pins < p_capacity p -> 0 <= pid < p_next_page p ->
  node_rep nd a -> an_wf a -> node_fits (p_page_size p) a -> p_page_size p <= GARRY_MAX_PAGE_SIZE ->
  exists p' b, garry_store_node p pid nd = Some p' /\ ready n pins [] p' /\ updates pid b p p' /\
    page_node (p_page_size p) b a /\ stable pins p p'.
Proof.
  intros Hr Hn Hlt Hpid Hnd Hwf Hfit Hps. unfold garry_store_node.
  destruct (pin_page_ready n pins [] p pid Hr Hn Hlt Hpid) as (p1 & i & -> & Hr1 & Hk1 & Hs1 & Hf1 & Hp1).
  cbn [mbind option_bind]. rewrite Hp1. cbn [mbind option_bind].
  rewrite (decide_False (P := nd_count nd > GARRY_MAX_KEYS_PER_NODE)).
  2: { rewrite (nr_count _ _ Hnd). destruct Hwf as (_ & _ & _ & _ & ? & _). lia. }
  rewrite (kp_page_size _ _ Hk1).
  destruct (store_page_spec (p_page_size p) (pool_view p pid) nd a Hnd Hwf Hfit Hps) as (b & -> & Hb & Hbz);
    [by rewrite (view_size _ _ _ _ _ Hr)|]. cbn [mbind option_bind].
  destruct (write_mark_ready n (pid :: pins) [] p1 pid i b Hr1) as (p2 & E2 & Hr2 & Hu2 & Hf2);
    [by left|exact Hf1|by rewrite Hbz, (view_size _ _ _ _ _ Hr), (kp_page_size _ _ Hk1)|apply not_elem_of_nil|].
  destruct (set_slot_page p1 i b) as [p1'|]; [|discriminate]. cbn [mbind option_bind] in E2 |- *. rewrite E2.
  cbn [mbind option_bind].
  destruct (release_ready n pid pins [] p2 Hr2 (not_elem_of_nil _)) as (p3 & -> & Hr3 & Hk3 & Hf3).
  exists p3, b. split; [reflexivity|]. split; [exact Hr3|]. split.
  - eapply updates_keeps; [eapply keeps_updates; [exact Hk1|exact Hu2]|exact Hk3].
  - split; [exact Hb|]. intros q j Hq Hj. rewrite Hf3, Hf2. by apply Hs1.
Qed.

(** A page that has just been allocated as a node. *)
Record fresh_node (kind : garry_node_kind) (p p' : garry_buffer_pool) : Prop := {
  fn_capacity : p_capacity p' = p_capacity p;
  fn_page_size : p_page_size p' = p_page_size p;
  fn_next : p_next_page p' = p_next_page p + 1;
  fn_view : forall q, q <> p_next_page p -> pool_view p' q = pool_view p q;
  fn_rep : page_rep (p_page_size p) (pool_view p' (p_next_page p)) [];
  fn_type : garry_read_le32 (pool_view p' (p_next_page p)) GARRY_PAGE_HDR_OFF_TYPE = Some (node_kind_ord kind);
  fn_level : is_Some (garry_read_le32 (pool_view p' (p_next_page p)) GARRY_PAGE_HDR_OFF_LEVEL)
}.

Lemma allocate_node_ready kind n pins p :
  ready (n + 3) pins [] p -> 0 <= n -> zlen pins < p_capacity p -> p_next_page p < 2 ^ 31 - 1 ->
  GARRY_PAGE_HEADER_SIZE <= p_page_size p <= GARRY_MAX_PAGE_SIZE ->
  exists p', allocate_node kind p = Some (p', p_next_page p) /\ ready n pins [] p' /\
    fresh_node kind p p' /\ stable pins p p'.
Proof.
  intros Hp Hn Hc Hnx Hsz. pose proof (rdy_next _ _ _ _ Hp) as Hpid. set (pid := p_next_page p) in *.
  unfold allocate_node.
  apply (ready_le _ (n + 2)) in Hp; [|lia].
  destruct (allocate_pin_ready n pins [] p Hp Hn Hc Hnx) as (p1 & p2 & i & -> & Epin & Hp2 & C2 & S2 & N2 & V2 & St2 & F2 & Sp2).
  fold pid in Epin, Hp2, N2, V2, F2 |- *. cbn [mbind option_bind]. rewrite decide_False by lia. rewrite Epin.
  cbn [mbind option_bind]. rewrite Sp2. cbn [mbind option_bind]. rewrite S2.
  assert (Hz : zlen (zeros (p_page_size p)) = p_page_size p) by (rewrite zlen_zeros; unfold GARRY_PAGE_HEADER_SIZE in *; lia).
  destruct (page_init_rep (zeros (p_page_size p)) kind 0 (p_page_size p)) as (b & -> & Hbz & Hrep & Ht & Hlv);
    [lia|by rewrite Hz|]. cbn [mbind option_bind].
  destruct (write_mark_any n (pid :: pins) [pid] p2 pid i b Hp2) as (p4 & E4 & Hp4 & U4 & F4);
    [by left|exact F2|by rewrite Hbz, S2|]. rewrite filter_cons_False in Hp4 by tauto.
  destruct (set_slot_page p2 i b) as [p3|]; [|discriminate]. cbn [mbind option_bind] in E4 |- *. rewrite E4.
  cbn [mbind option_bind].
  destruct (release_ready n pid pins [] p4 Hp4 (not_elem_of_nil _)) as (p5 & -> & Hp5 & K5 & F5).
  cbn [mbind option_bind]. exists p5. split; [done|]. split; [done|].
  pose proof (updates_keeps _ _ _ _ _ U4 K5) as [U1' U2' U3' U4'].
  split.
  - split; fold pid; [by rewrite U1'|by rewrite U2'|by rewrite U3'| | | |];
      [|by rewrite U4', decide_True..|rewrite U4', decide_True by done; by eexists].
    intros q Hq. rewrite U4', decide_False by done. by rewrite V2, decide_False.
  - intros q j Hq Hj. rewrite F5, F4. by apply St2.
Qed.

(** Loading a page that has just been allocated gives an empty node. *)
Lemma load_fresh_ready kind n pins p pid :
  ready (n + 2) pins [] p -> 0 <= n -> zlen pins < p_capacity p -> 0 <= pid < p_next_page p ->
  page_rep (p_page_size p) (pool_view p pid) [] ->
  garry_read_le32 (pool_view p pid) GARRY_PAGE_HDR_OFF_TYPE = Some (node_kind_ord kind) ->
  is_Some (garry_read_le32 (pool_view p pid) GARRY_PAGE_HDR_OFF_LEVEL) ->
  exists p' hdr, garry_load_node p pid =
      Some (p', set_kind blank_node (kind_of_type (node_kind_ord kind)) hdr) /\ ready n pins [] p' /\
    keeps p p' /\ stable pins p p'.
Proof.
  intros Hr Hn Hlt Hpid Hrep Ht Hlv. unfold garry_load_node.
  destruct (load_pin_ready n pins [] p pid Hr Hn Hlt Hpid) as (p1 & i & E & Hr1 & Hk1 & Hs1 & Hp1).
  destruct (garry_pool_try_pin p pid) as [[q r]|]; [|discriminate]. cbn [mbind option_bind] in E |- *.
  rewrite E. cbn [mbind option_bind]. rewrite Hp1. cbn [mbind option_bind].
  rewrite (kp_page_size _ _ Hk1). destruct (load_page_empty _ _ _ Hrep Ht Hlv) as [hdr ->]. cbn [mbind option_bind].
  destruct (release_ready n pid pins [] p1 Hr1 (not_elem_of_nil _)) as (p2 & -> & Hr2 & Hk2 & Hf2).
  cbn [mbind option_bind]. do 2 eexists. split; [reflexivity|]. split; [exact Hr2|].
  split; [transitivity p1; [exact Hk1|exact Hk2]|]. intros q' j Hq Hj. rewrite Hf2. by apply Hs1.
Qed.

(** C31: a node stored to its page is loaded back: the load returns a node with the
    same kind, links, keys, values and children, for every node whose keys and values
    have at most 255 bytes (their lengths are stored in one byte) and whose records fit
    the page, and no other page changes. *)
Theorem node_roundtrip n pins p pid nd a
  (Hr : ready (n + 4) pins [] p) (Hn : 0 <= n) (Hc : zlen pins < p_capacity p) (Hpid : 0 <= pid < p_next_page p)
  (Hnd : node_rep nd a) (Hwf : an_wf a) (Hfit : node_fits (p_page_size p) a) (Hps : p_page_size p <= GARRY_MAX_PAGE_SIZE) :
  exists p1 p2 nd2, garry_store_node p pid nd = Some p1 /\ garry_load_node p1 pid = Some (p2, nd2) /\
    node_rep nd2 a /\ ready n pins [] p2 /\ forall q, q <> pid -> pool_view p2 q = pool_view p q.
Proof.
  destruct (store_node_ready (n + 2) pins p pid nd a) as (p1 & b & E1 & Hr1 & Hu & Hb & _); try done; [by replace (n + 2 + 2) with (n + 4) by lia|lia|].
  destruct (load_node_ready n pins p1 pid a Hr1 Hn) as (p2 & nd2 & E2 & Hnd2 & Hr2 & Hk & _);
    [by rewrite (up_capacity _ _ _ _ Hu)|by rewrite (up_next _ _ _ _ Hu)| |exact Hwf|].
  - by rewrite (up_page_size _ _ _ _ Hu), (up_view _ _ _ _ Hu), decide_True.
  - exists p1, p2, nd2. split; [exact E1|]. split; [exact E2|]. split; [exact Hnd2|]. split; [exact Hr2|].
    intros q Hq. by rewrite (kp_view _ _ Hk), (up_view _ _ _ _ Hu), decide_False.
Qed.
