(* ===== verification/NodeView.v ===== *)
(** The arrays of a B-tree node as lists: the byte string in every element of
    the key and value arrays, what moving and writing elements does to these
    lists, and the loops that copy and shift ranges of elements. *)

From S2P Require Import Prelude Endian KeyEncoding BtreeCompression RecordCodec SlottedPage FileIo BufferPool.
From S2P Require Import PoolClient BtreeNode.

(** * Arrays of byte strings *)

(** [slot_holds a l v]: the array [a] with length [l] holds [v]. *)
Definition slot_holds (a : list Z) (l : Z) (v : list Z) : Prop :=
  zlen a = GARRY_MAX_KEY_SIZE /\ l = zlen v /\ slice a 0 (zlen v) = Some v.

Definition varr (arrs : list (list Z)) (lens : list Z) (vs : list (list Z)) : Prop :=
  Forall3 slot_holds arrs lens vs.

Lemma varr_zlen arrs lens vs : varr arrs lens vs -> zlen arrs = zlen vs /\ zlen lens = zlen vs.
Proof. unfold zlen. induction 1; cbn [length]; lia. Qed.

Lemma varr_rd arrs lens vs i v :
  varr arrs lens vs -> rd vs i = Some v ->
  exists a, rd arrs i = Some a /\ rd lens i = Some (zlen v) /\ slice a 0 (zlen v) = Some v /\
    zlen a = GARRY_MAX_KEY_SIZE /\ zlen v <= GARRY_MAX_KEY_SIZE.
Proof.
  intros H. revert i. induction H as [|a l w arrs lens vs (Hz & -> & Hs) HF IH]; intros i Hi.
  - apply rd_Some_range in Hi. change (zlen (@nil (list Z))) with 0 in Hi. lia.
  - pose proof (rd_Some_range _ _ _ Hi) as Hr. destruct (decide (i = 0)) as [->|Hne].
    + rewrite rd_cons_0 in Hi. injection Hi as ->. exists a. rewrite !rd_cons_0.
      pose proof (slice_is_Some _ _ _ _ Hs) as (_ & _ & ? & _).
      split; [done|]. split; [done|]. split; [done|]. split; [done|lia].
    + rewrite rd_cons_S in Hi by lia. rewrite !rd_cons_S by lia. by apply IH.
Qed.

Lemma varr_insert arrs lens vs (i : nat) a v :
  varr arrs lens vs -> slot_holds a (zlen v) v ->
  varr (<[i:=a]> arrs) (<[i:=zlen v]> lens) (<[i:=v]> vs).
Proof.
  intros H Ha. revert i. induction H as [|x l w arrs lens vs Hx HF IH]; intros i; [constructor|].
  destruct i as [|i]; cbn; constructor; try done. apply IH.
Qed.

(** Writing and moving an element. *)
Lemma varr_put arrs lens vs i src n v :
  varr arrs lens vs -> 0 <= i < zlen vs -> slice src 0 n = Some v -> n <= GARRY_MAX_KEY_SIZE ->
  exists arrs' lens' vs', put_array arrs i src n = Some arrs' /\ wr lens i n = Some lens' /\
    blit vs i [v] = Some vs' /\ varr arrs' lens' vs'.
Proof.
  intros H Hi Hs Hn. destruct (varr_zlen _ _ _ H) as [Hl1 Hl2].
  destruct (rd_is_Some vs i) as [w Hw]; [lia|].
  destruct (varr_rd _ _ _ _ _ H Hw) as (a & Ha & _ & _ & Hz & _).
  pose proof (slice_is_Some _ _ _ _ Hs) as (_ & Hn0 & _ & <-).
  destruct (blit_ok a 0 v) as (a' & E & Hz'); [lia..|]. unfold put_array, memcpy.
  rewrite Ha, Hs. cbn [mbind option_bind]. rewrite E. cbn [mbind option_bind]. rewrite !wr_Some by lia.
  do 3 eexists. split; [reflexivity|]. split; [reflexivity|].
  rewrite <- wr_blit, wr_Some by lia. split; [reflexivity|]. apply varr_insert; [done|].
  split; [lia|]. split; [done|]. by apply (slice_blit a).
Qed.

Lemma varr_move A L V B M W i j w :
  varr A L V -> varr B M W -> rd W j = Some w -> 0 <= i < zlen V ->
  exists A' L' V', move_array A i B j = Some A' /\ move_int L i M j = Some L' /\
    blit V i [w] = Some V' /\ varr A' L' V'.
Proof.
  intros HV HW Hj Hi. destruct (varr_zlen _ _ _ HV) as [Hl1 Hl2].
  destruct (varr_rd _ _ _ _ _ HW Hj) as (b & Eb & El & Hs & Hz & Hle).
  destruct (rd_is_Some V i) as [v Hv]; [lia|].
  destruct (varr_rd _ _ _ _ _ HV Hv) as (a & Ha & _ & _ & Hza & _).
  unfold move_array, move_int, put_array, memcpy. rewrite Eb, El. cbn [mbind option_bind]. rewrite Ha.
  cbn [mbind option_bind]. rewrite (slice_all b) by lia. cbn [mbind option_bind].
  rewrite blit_whole by lia. cbn [mbind option_bind]. rewrite !wr_Some by lia.
  do 3 eexists. split; [reflexivity|]. split; [reflexivity|].
  rewrite <- wr_blit, wr_Some by lia. split; [reflexivity|]. apply varr_insert; [done|]. by split.
Qed.

Lemma move_int_rd (L M : list Z) i j x :
  rd M j = Some x -> move_int L i M j = blit L i [x].
Proof. intros Hj. unfold move_int. rewrite Hj. cbn [mbind option_bind]. apply wr_blit. Qed.

(** * Nodes *)

Record node_view (n : garry_btree_node) (ks vs : list (list Z)) : Prop := {
  nv_keys : varr (nd_keys n) (nd_key_lens n) ks;
  nv_values : varr (nd_values n) (nd_value_lens n) vs
}.

Lemma varr_exists arrs lens N :
  zlen arrs = N /\ Forall (fun x => zlen x = GARRY_MAX_KEY_SIZE) arrs ->
  zlen lens = N /\ Forall (fun l => 0 <= l <= GARRY_MAX_KEY_SIZE) lens -> exists vs, varr arrs lens vs /\ zlen vs = N.
Proof.
  intros [Hl1 H1] [Hl2 H2]. revert N lens Hl1 Hl2 H2.
  induction H1 as [|a arrs Ha HF IH]; intros N lens Hl1 Hl2 H2.
  - destruct lens; [|rewrite zlen_cons in Hl2; rewrite zlen_nil in Hl1; pose proof (zlen_nonneg lens); lia].
    exists []. split; [constructor|done].
  - destruct lens as [|l lens]; [rewrite zlen_cons in Hl1; rewrite zlen_nil in Hl2; pose proof (zlen_nonneg arrs); lia|].
    apply Forall_cons in H2 as [Hl HF2].
    rewrite zlen_cons in Hl1. rewrite zlen_cons in Hl2. destruct (IH (N - 1) lens) as (vs & Hv & Hz); [lia|lia|done|].
    unfold GARRY_MAX_KEY_SIZE in *. pose proof (slice_Some a 0 l ltac:(lia) ltac:(lia) ltac:(lia)) as Hs.
    pose proof (slice_is_Some _ _ _ _ Hs) as (_ & _ & _ & Hzl).
    eexists (_ :: vs). split; [|rewrite zlen_cons; lia].
    constructor; [|exact Hv]. split; [done|]. split; [symmetry; exact Hzl|]. by rewrite Hzl.
Qed.

Lemma holds_view arrs lens vs ks :
  varr arrs lens vs -> holds arrs lens ks -> slice vs 0 (zlen ks) = Some ks.
Proof.
  intros Hv Hh. assert (Hp : exists q, vs = ks ++ q).
  { revert ks Hh. induction Hv as [|a l v arrs lens vs (Hz & -> & Hs) HF IH]; intros ks Hh.
    - destruct ks; [by exists []|done].
    - destruct ks as [|k ks]; [by exists (v :: vs)|]. destruct Hh as (Hl & Hs' & Hh).
      rewrite Hl, Hs' in Hs. injection Hs as ->. destruct (IH ks Hh) as [q ->]. by exists q. }
  destruct Hp as [q ->]. by apply (slice_app [] ks q).
Qed.

Lemma view_holds arrs lens vs ks :
  varr arrs lens vs -> slice vs 0 (zlen ks) = Some ks -> holds arrs lens ks.
Proof.
  intros Hv (p & q & -> & Hp & _)%slice_inv. destruct p; [|rewrite zlen_cons in Hp; pose proof (zlen_nonneg p); lia].
  cbn [app] in *. revert arrs lens Hv. induction ks as [|k ks IH]; intros arrs lens Hv; [done|].
  destruct arrs as [|a arrs], lens as [|l lens]; try by inversion Hv.
  inversion Hv as [|? ? ? ? ? ? (Hz & -> & Hs) HF]; subst. cbn [holds]. split; [done|]. split; [done|].
  by apply IH.
Qed.

Lemma varr_arrays arrs lens vs :
  varr arrs lens vs ->
  Forall (fun x => zlen x = GARRY_MAX_KEY_SIZE) arrs /\ Forall (fun l => 0 <= l <= GARRY_MAX_KEY_SIZE) lens.
Proof.
  induction 1 as [|a l v arrs lens vs (Hz & -> & Hs) HF [IH1 IH2]]; [by split|]. pose proof (zlen_nonneg v).
  pose proof (slice_is_Some _ _ _ _ Hs) as (_ & ? & ? & _). unfold GARRY_MAX_KEY_SIZE in *.
  split; constructor; try done. lia.
Qed.

(** A node of arrays holding [ks] and [vs] holds an abstract node when their beginnings do. *)
Lemma view_rep n ks vs a :
  node_view n ks vs -> zlen ks = 3 -> zlen vs = 3 -> zlen (nd_children n) = 4 ->
  nd_kind n = an_kind a -> (nd_next n, nd_prev n) = an_links a -> nd_count n = zlen (an_pairs a) ->
  slice ks 0 (zlen (map fst (an_pairs a))) = Some (map fst (an_pairs a)) ->
  match a with
  | ALeaf _ _ es => slice vs 0 (zlen (map snd es)) = Some (map snd es)
  | AInternal _ _ _ cs => slice (nd_children n) 0 (zlen cs) = Some cs
  end ->
  node_rep n a.
Proof.
  intros [Hk Hv] Hlk Hlv Hlc H1 H2 H3 H4 H5. destruct (varr_zlen _ _ _ Hk) as [Z1 Z2].
  destruct (varr_zlen _ _ _ Hv) as [Z3 Z4]. destruct (varr_arrays _ _ _ Hk) as [F1 F2].
  destruct (varr_arrays _ _ _ Hv) as [F3 F4].
  split; [split; [split; [lia|done]|split; [lia|done]|split; [lia|done]|split; [lia|done]|done]|done|done|done| | |].
  - by apply (view_holds _ _ ks).
  - destruct a; [by apply (view_holds _ _ vs)|exact I].
  - destruct a; [exact I|exact H5].
Qed.

Lemma rep_view n a :
  node_rep n a -> exists ks vs, node_view n ks vs /\ zlen ks = 3 /\ zlen vs = 3 /\
    slice ks 0 (zlen (map fst (an_pairs a))) = Some (map fst (an_pairs a)) /\
    match a with
    | ALeaf _ _ es => slice vs 0 (zlen (map snd es)) = Some (map snd es)
    | AInternal _ _ _ cs => slice (nd_children n) 0 (zlen cs) = Some cs
    end.
Proof.
  intros [Harr Hk Hl Hc Hkeys Hvals Hch].
  destruct (varr_exists _ _ 3 (na_keys _ Harr) (na_key_lens _ Harr)) as (ks & Hks & Zk).
  destruct (varr_exists _ _ 3 (na_values _ Harr) (na_value_lens _ Harr)) as (vs & Hvs & Zv).
  exists ks, vs. split; [by split|]. split; [done|]. split; [done|]. split; [by eapply holds_view|].
  destruct a; [by eapply holds_view|exact Hch].
Qed.

(** * Moving and writing entries *)

(** The node with other arrays. *)
Definition with_arrays (n : garry_btree_node) (keys : list (list Z)) (lens : list Z)
    (values : list (list Z)) (vlens : list Z) (cs : list Z) : garry_btree_node :=
  BtreeNode (nd_kind n) (nd_header n) keys lens values vlens cs (nd_next n) (nd_prev n) (nd_count n).

(** [becomes n n' ks vs cs]: [n'] is [n] with arrays that hold [ks], [vs] and [cs]. *)
Definition becomes (n n' : garry_btree_node) (ks vs : list (list Z)) (cs : list Z) : Prop :=
  exists keys lens values vlens, n' = with_arrays n keys lens values vlens cs /\
    varr keys lens ks /\ varr values vlens vs.

Lemma becomes_refl n ks vs : node_view n ks vs -> becomes n n ks vs (nd_children n).
Proof. intros [H1 H2]. do 4 eexists. split; [|split; [exact H1|exact H2]]. by destruct n. Qed.

Lemma becomes_view n n' ks vs cs : becomes n n' ks vs cs -> node_view n' ks vs.
Proof. intros (? & ? & ? & ? & -> & H1 & H2). by split. Qed.

Lemma becomes_trans n n1 n2 ks vs cs ks2 vs2 cs2 :
  becomes n n1 ks vs cs -> becomes n1 n2 ks2 vs2 cs2 -> becomes n n2 ks2 vs2 cs2.
Proof.
  intros (? & ? & ? & ? & -> & _ & _) (? & ? & ? & ? & -> & H1 & H2). do 4 eexists. split; [reflexivity|by split].
Qed.

Lemma becomes_meta n n' ks vs cs :
  becomes n n' ks vs cs ->
  nd_kind n' = nd_kind n /\ nd_header n' = nd_header n /\ nd_next n' = nd_next n /\ nd_prev n' = nd_prev n /\
  nd_count n' = nd_count n /\ nd_children n' = cs.
Proof. by intros (? & ? & ? & ? & -> & _ & _). Qed.

Lemma move_key_view n m ks vs ks' vs' i j k :
  node_view n ks vs -> node_view m ks' vs' -> rd ks' j = Some k -> 0 <= i < zlen ks ->
  exists n' ks2, move_key n i m j = Some n' /\ blit ks i [k] = Some ks2 /\ becomes n n' ks2 vs (nd_children n).
Proof.
  intros [Hk Hv] [Hk' Hv'] Hj Hi.
  destruct (varr_move _ _ _ _ _ _ i j k Hk Hk' Hj Hi) as (A & L & V & E1 & E2 & E3 & Hr).
  unfold move_key. rewrite E1, E2. cbn [mbind option_bind]. do 2 eexists. split; [reflexivity|]. split; [exact E3|].
  do 4 eexists. split; [reflexivity|by split].
Qed.

Lemma move_value_view n m ks vs ks' vs' i j v :
  node_view n ks vs -> node_view m ks' vs' -> rd vs' j = Some v -> 0 <= i < zlen vs ->
  exists n' vs2, move_value n i m j = Some n' /\ blit vs i [v] = Some vs2 /\ becomes n n' ks vs2 (nd_children n).
Proof.
  intros [Hk Hv] [Hk' Hv'] Hj Hi.
  destruct (varr_move _ _ _ _ _ _ i j v Hv Hv' Hj Hi) as (A & L & V & E1 & E2 & E3 & Hr).
  unfold move_value. rewrite E1, E2. cbn [mbind option_bind]. do 2 eexists. split; [reflexivity|]. split; [exact E3|].
  do 4 eexists. split; [reflexivity|by split].
Qed.

Lemma move_child_view n m ks vs i j c :
  node_view n ks vs -> rd (nd_children m) j = Some c -> 0 <= i < zlen (nd_children n) ->
  exists n' cs2, move_child n i m j = Some n' /\ blit (nd_children n) i [c] = Some cs2 /\ becomes n n' ks vs cs2.
Proof.
  intros [Hk Hv] Hj Hi. unfold move_child. rewrite (move_int_rd _ _ _ _ _ Hj).
  destruct (blit_ok (nd_children n) i [c]) as (cs2 & E & _); [lia|change (zlen [c]) with 1; lia|].
  rewrite E. cbn [mbind option_bind]. do 2 eexists. split; [reflexivity|]. split; [reflexivity|].
  do 4 eexists. split; [reflexivity|by split].
Qed.

Lemma put_key_view n ks vs i src len k :
  node_view n ks vs -> slice src 0 len = Some k -> len <= GARRY_MAX_KEY_SIZE -> 0 <= i < zlen ks ->
  exists n' ks2, put_key n i src len = Some n' /\ blit ks i [k] = Some ks2 /\ becomes n n' ks2 vs (nd_children n).
Proof.
  intros [Hk Hv] Hs Hl Hi. destruct (varr_put _ _ _ i src len k Hk Hi Hs Hl) as (A & L & V & E1 & E2 & E3 & Hr).
  unfold put_key. rewrite E1. cbn [mbind option_bind]. rewrite E2. cbn [mbind option_bind].
  do 2 eexists. split; [reflexivity|]. split; [exact E3|]. do 4 eexists. split; [reflexivity|by split].
Qed.

Lemma put_value_view n ks vs i src len v :
  node_view n ks vs -> slice src 0 len = Some v -> len <= GARRY_MAX_KEY_SIZE -> 0 <= i < zlen vs ->
  exists n' vs2, put_value n i src len = Some n' /\ blit vs i [v] = Some vs2 /\ becomes n n' ks vs2 (nd_children n).
Proof.
  intros [Hk Hv] Hs Hl Hi. destruct (varr_put _ _ _ i src len v Hv Hi Hs Hl) as (A & L & V & E1 & E2 & E3 & Hr).
  unfold put_value. rewrite E1. cbn [mbind option_bind]. rewrite E2. cbn [mbind option_bind].
  do 2 eexists. split; [reflexivity|]. split; [exact E3|]. do 4 eexists. split; [reflexivity|by split].
Qed.

Lemma move_entry_view n m ks vs ks' vs' i j k v :
  node_view n ks vs -> node_view m ks' vs' -> rd ks' j = Some k -> rd vs' j = Some v ->
  0 <= i < zlen ks -> 0 <= i < zlen vs ->
  exists n' ks2 vs2, move_entry n i m j = Some n' /\ blit ks i [k] = Some ks2 /\ blit vs i [v] = Some vs2 /\
    becomes n n' ks2 vs2 (nd_children n).
Proof.
  intros Hn Hm Hk Hv Hi Hi'. unfold move_entry.
  destruct (move_key_view n m ks vs ks' vs' i j k Hn Hm Hk Hi) as (n1 & ks2 & -> & E1 & B1).
  cbn [mbind option_bind]. pose proof (becomes_meta _ _ _ _ _ B1) as (_ & _ & _ & _ & _ & Hc).
  destruct (move_value_view n1 m ks2 vs ks' vs' i j v (becomes_view _ _ _ _ _ B1) Hm Hv Hi')
    as (n2 & vs2 & -> & E2 & B2).
  do 3 eexists. split; [reflexivity|]. split; [exact E1|]. split; [exact E2|]. rewrite <- Hc.
  exact (becomes_trans _ _ _ _ _ _ _ _ _ B1 B2).
Qed.

(** * Loops *)

(** One more element of a block write. *)
Lemma blit_grow {A} (b b1 s : list A) d j x :
  blit b d (take (Z.to_nat j) s) = Some b1 -> 0 <= j -> rd s j = Some x -> d + j + 1 <= zlen b -> 0 <= d ->
  exists b2, blit b1 (d + j) [x] = Some b2 /\ blit b d (take (Z.to_nat (j + 1)) s) = Some b2.
Proof.
  intros H1 Hj Hx Hd Hd0. pose proof (rd_Some_range _ _ _ Hx) as Hr.
  assert (Hz : zlen (take (Z.to_nat j) s) = j) by (unfold zlen in *; rewrite length_take; lia).
  destruct (blit_ok b1 (d + j) [x]) as (b2 & E & _);
    [lia|rewrite (blit_zlen _ _ _ _ H1); change (zlen [x]) with 1; lia|].
  exists b2. split; [exact E|]. replace (Z.to_nat (j + 1)) with (S (Z.to_nat j)) by lia.
  rewrite (take_S_r s (Z.to_nat j) x) by (unfold rd in Hx; by case_decide).
  apply (blit_after _ b1 _ _ _ (d + j)); [done|done|lia].
Qed.

(** [seg_of l s n seg]: the [n] elements of [l] from [s]. *)
Lemma seg_rd {A} (l seg : list A) s n j :
  slice l s n = Some seg -> 0 <= j < n -> exists x, rd l (s + j) = Some x /\ rd seg j = Some x.
Proof.
  intros Hs Hj. rewrite (rd_slice _ _ _ _ _ Hs) by lia.
  pose proof (slice_is_Some _ _ _ _ Hs) as (? & ? & ? & _).
  destruct (rd_is_Some l (s + j)) as [x Hx]; [lia|]. by exists x.
Qed.

(** What a loop does to one of the lists: nothing, or write the elements of a
    segment from [d] on, the element [j] at [d + j]. *)
Definition wrote_one {A} (seg : option (Z * list A)) (j : Z) (l l' : list A) : Prop :=
  match seg with
  | Some (d, s) => exists x, rd s j = Some x /\ blit l (d + j) [x] = Some l'
  | None => l' = l
  end.
Definition wrote_all {A} (seg : option (Z * list A)) (l l' : list A) : Prop :=
  match seg with Some (d, s) => blit l d s = Some l' | None => l' = l end.
Definition wrote_upto {A} (seg : option (Z * list A)) (j : Z) (l l' : list A) : Prop :=
  match seg with Some (d, s) => blit l d (take (Z.to_nat j) s) = Some l' | None => l' = l end.
Definition seg_len {A} (seg : option (Z * list A)) (n : Z) : Prop :=
  match seg with Some (d, s) => zlen s = n | None => True end.

Lemma wrote_start {A} (seg : option (Z * list A)) l l' : wrote_all seg l l' -> wrote_upto seg 0 l l.
Proof.
  destruct seg as [[d s]|]; [|done]. cbn. intros (p & g & q & -> & <- & Hg & ->)%blit_inv.
  apply blit_nil. rewrite !zlen_app. pose proof (zlen_nonneg p). pose proof (zlen_nonneg g). pose proof (zlen_nonneg q). lia.
Qed.

Lemma wrote_step {A} (seg : option (Z * list A)) j l l1 l2 lf :
  wrote_all seg l lf -> wrote_upto seg j l l1 -> wrote_one seg j l1 l2 -> 0 <= j -> wrote_upto seg (j + 1) l l2.
Proof.
  destruct seg as [[d s]|]; cbn; [|congruence].
  intros Hall H1 (x & Hx & H2) Hj. pose proof (rd_Some_range _ _ _ Hx) as Hr.
  apply blit_inv in Hall as (p & g & q & -> & <- & Hg & _).
  destruct (blit_grow _ _ _ _ _ _ H1 Hj Hx) as (b2 & E & Hb);
    [rewrite !zlen_app; pose proof (zlen_nonneg q); lia|apply zlen_nonneg|]. rewrite H2 in E. by injection E as ->.
Qed.

Lemma wrote_end {A} (seg : option (Z * list A)) n l l' lf :
  wrote_all seg l lf -> wrote_upto seg n l l' -> seg_len seg n -> l' = lf.
Proof.
  destruct seg as [[d s]|]; cbn; [|congruence]. intros H1 H2 <-. rewrite take_ge in H2 by (unfold zlen; lia). congruence.
Qed.

(** A loop over the arrays of a node that writes at most one key, one value and one child a step. *)
Lemma node_loop n ks vs lo hi body gk gv gc ks2 vs2 cs2 :
  node_view n ks vs -> lo <= hi ->
  wrote_all gk ks ks2 -> wrote_all gv vs vs2 -> wrote_all gc (nd_children n) cs2 ->
  seg_len gk (hi - lo) -> seg_len gv (hi - lo) -> seg_len gc (hi - lo) ->
  (forall i t ki vi ci, lo <= i < hi -> becomes n t ki vi ci ->
     wrote_upto gk (i - lo) ks ki -> wrote_upto gv (i - lo) vs vi -> wrote_upto gc (i - lo) (nd_children n) ci ->
     exists t' kj vj cj, body i t = Some t' /\ becomes t t' kj vj cj /\
       wrote_one gk (i - lo) ki kj /\ wrote_one gv (i - lo) vi vj /\ wrote_one gc (i - lo) ci cj) ->
  exists n', forZ lo hi body n = Some n' /\ becomes n n' ks2 vs2 cs2.
Proof.
  intros Hn Hle Hk Hv Hc Lk Lv Lc Hstep.
  destruct (forZ_inv (fun i t => exists ki vi ci, becomes n t ki vi ci /\
      wrote_upto gk (i - lo) ks ki /\ wrote_upto gv (i - lo) vs vi /\ wrote_upto gc (i - lo) (nd_children n) ci)
    lo hi body n) as (n' & E & kf & vf & cf & Hb & Bk & Bv & Bc); [exact Hle| | |].
  - exists ks, vs, (nd_children n). rewrite Z.sub_diag. split; [by apply becomes_refl|].
    split; [exact (wrote_start _ _ _ Hk)|]. split; [exact (wrote_start _ _ _ Hv)|exact (wrote_start _ _ _ Hc)].
  - intros i t Hi (ki & vi & ci & Hb & Bk & Bv & Bc).
    destruct (Hstep i t ki vi ci Hi Hb Bk Bv Bc) as (t' & kj & vj & cj & -> & Hb' & W1 & W2 & W3).
    exists t'. split; [reflexivity|]. exists kj, vj, cj. replace (i + 1 - lo) with (i - lo + 1) by lia.
    split; [exact (becomes_trans _ _ _ _ _ _ _ _ _ Hb Hb')|].
    split; [|split]; (eapply wrote_step; [eassumption|eassumption|eassumption|lia]).
  - exists n'. split; [exact E|].
    by rewrite <- (wrote_end _ _ _ _ _ Hk Bk Lk), <- (wrote_end _ _ _ _ _ Hv Bv Lv), <- (wrote_end _ _ _ _ _ Hc Bc Lc).
Qed.

Lemma wrote_upto_zlen {A} (seg : option (Z * list A)) j l l' : wrote_upto seg j l l' -> zlen l' = zlen l.
Proof. destruct seg as [[d s]|]; cbn; [apply blit_zlen|by intros ->]. Qed.

Lemma wrote_range {A} (s : list A) d j l l' :
  wrote_all (Some (d, s)) l l' -> 0 <= j < zlen s -> 0 <= d + j < zlen l.
Proof.
  cbn. intros (p & g & q & -> & <- & Hg & _)%blit_inv Hj. rewrite !zlen_app.
  pose proof (zlen_nonneg p). pose proof (zlen_nonneg q). lia.
Qed.

(** Copying the entries of [m] from [s] on to [d] on. *)
Lemma copy_entries_loop n m ks vs ks' vs' lo hi d s sk sv ks2 vs2 (f g : Z -> Z) :
  node_view n ks vs -> node_view m ks' vs' -> lo <= hi ->
  slice ks' s (hi - lo) = Some sk -> slice vs' s (hi - lo) = Some sv ->
  blit ks d sk = Some ks2 -> blit vs d sv = Some vs2 ->
  (forall i, f i = d + (i - lo)) -> (forall i, g i = s + (i - lo)) ->
  exists n', forZ lo hi (fun i t => move_entry t (f i) m (g i)) n = Some n' /\
    becomes n n' ks2 vs2 (nd_children n).
Proof.
  intros Hn Hm Hle Hsk Hsv Hk Hv Hf Hg.
  pose proof (slice_is_Some _ _ _ _ Hsk) as (_ & _ & _ & Zk).
  pose proof (slice_is_Some _ _ _ _ Hsv) as (_ & _ & _ & Zv).
  apply (node_loop n ks vs lo hi _ (Some (d, sk)) (Some (d, sv)) None); try done.
  intros i t ki vi ci Hi Hb Bk Bv Bc. rewrite Hf, Hg.
  destruct (seg_rd _ _ _ _ (i - lo) Hsk ltac:(lia)) as (k & Rk1 & Rk2).
  destruct (seg_rd _ _ _ _ (i - lo) Hsv ltac:(lia)) as (v & Rv1 & Rv2).
  destruct (move_entry_view t m ki vi ks' vs' (d + (i - lo)) (s + (i - lo)) k v
    (becomes_view _ _ _ _ _ Hb) Hm Rk1 Rv1) as (t' & kj & vj & E & Ek & Ev & Hb').
  - rewrite (wrote_upto_zlen _ _ _ _ Bk). apply (wrote_range sk d _ ks ks2 Hk). lia.
  - rewrite (wrote_upto_zlen _ _ _ _ Bv). apply (wrote_range sv d _ vs vs2 Hv). lia.
  - pose proof (becomes_meta _ _ _ _ _ Hb) as (_ & _ & _ & _ & _ & Hc). rewrite Hc in Hb'.
    exists t', kj, vj, ci. split; [exact E|]. split; [exact Hb'|]. split; [by exists k|]. split; [by exists v|reflexivity].
Qed.

(** Copying keys. *)
Lemma copy_keys_loop n m ks vs ks' vs' lo hi d s sk ks2 (f g : Z -> Z) :
  node_view n ks vs -> node_view m ks' vs' -> lo <= hi ->
  slice ks' s (hi - lo) = Some sk -> blit ks d sk = Some ks2 ->
  (forall i, f i = d + (i - lo)) -> (forall i, g i = s + (i - lo)) ->
  exists n', forZ lo hi (fun i t => move_key t (f i) m (g i)) n = Some n' /\
    becomes n n' ks2 vs (nd_children n).
Proof.
  intros Hn Hm Hle Hsk Hk Hf Hg. pose proof (slice_is_Some _ _ _ _ Hsk) as (_ & _ & _ & Zk).
  apply (node_loop n ks vs lo hi _ (Some (d, sk)) None None); try done.
  intros i t ki vi ci Hi Hb Bk Bv Bc. rewrite Hf, Hg.
  destruct (seg_rd _ _ _ _ (i - lo) Hsk ltac:(lia)) as (k & Rk1 & Rk2).
  destruct (move_key_view t m ki vi ks' vs' (d + (i - lo)) (s + (i - lo)) k
    (becomes_view _ _ _ _ _ Hb) Hm Rk1) as (t' & kj & E & Ek & Hb').
  - rewrite (wrote_upto_zlen _ _ _ _ Bk). apply (wrote_range sk d _ ks ks2 Hk). lia.
  - pose proof (becomes_meta _ _ _ _ _ Hb) as (_ & _ & _ & _ & _ & Hc). rewrite Hc in Hb'.
    exists t', kj, vi, ci. split; [exact E|]. split; [exact Hb'|]. split; [by exists k|]. by split.
Qed.

(** Copying children. *)
Lemma copy_children_loop n m ks vs lo hi d s sc cs2 (f g : Z -> Z) :
  node_view n ks vs -> lo <= hi ->
  slice (nd_children m) s (hi - lo) = Some sc -> blit (nd_children n) d sc = Some cs2 ->
  (forall i, f i = d + (i - lo)) -> (forall i, g i = s + (i - lo)) ->
  exists n', forZ lo hi (fun i t => move_child t (f i) m (g i)) n = Some n' /\ becomes n n' ks vs cs2.
Proof.
  intros Hn Hle Hsc Hc Hf Hg. pose proof (slice_is_Some _ _ _ _ Hsc) as (_ & _ & _ & Zc).
  apply (node_loop n ks vs lo hi _ None None (Some (d, sc))); try done.
  intros i t ki vi ci Hi Hb Bk Bv Bc. rewrite Hf, Hg.
  destruct (seg_rd _ _ _ _ (i - lo) Hsc ltac:(lia)) as (c & Rc1 & Rc2).
  pose proof (becomes_meta _ _ _ _ _ Hb) as (_ & _ & _ & _ & _ & Hct).
  destruct (move_child_view t m ki vi (d + (i - lo)) (s + (i - lo)) c
    (becomes_view _ _ _ _ _ Hb) Rc1) as (t' & cj & E & Ec & Hb').
  - rewrite Hct, (wrote_upto_zlen _ _ _ _ Bc). apply (wrote_range sc d _ (nd_children n) cs2 Hc). lia.
  - rewrite Hct in Ec. exists t', ki, vi, cj. split; [exact E|]. split; [exact Hb'|]. split; [done|]. split; [done|]. by exists c.
Qed.

(** Copying keys and children, each with its own distance. *)
Lemma copy_keys_children_loop n m ks vs ks' vs' lo hi d s dc sc sk cks ks2 cs2 (f g fc gc : Z -> Z) :
  node_view n ks vs -> node_view m ks' vs' -> lo <= hi ->
  slice ks' s (hi - lo) = Some sk -> slice (nd_children m) sc (hi - lo) = Some cks ->
  blit ks d sk = Some ks2 -> blit (nd_children n) dc cks = Some cs2 ->
  (forall i, f i = d + (i - lo)) -> (forall i, g i = s + (i - lo)) ->
  (forall i, fc i = dc + (i - lo)) -> (forall i, gc i = sc + (i - lo)) ->
  exists n', forZ lo hi (fun i t => t ← move_key t (f i) m (g i); move_child t (fc i) m (gc i)) n = Some n' /\
    becomes n n' ks2 vs cs2.
Proof.
  intros Hn Hm Hle Hsk Hsc Hk Hc Hf Hg Hfc Hgc.
  pose proof (slice_is_Some _ _ _ _ Hsk) as (_ & _ & _ & Zk).
  pose proof (slice_is_Some _ _ _ _ Hsc) as (_ & _ & _ & Zc).
  apply (node_loop n ks vs lo hi _ (Some (d, sk)) None (Some (dc, cks))); try done.
  intros i t ki vi ci Hi Hb Bk Bv Bc. rewrite Hf, Hg, Hfc, Hgc.
  destruct (seg_rd _ _ _ _ (i - lo) Hsk ltac:(lia)) as (k & Rk1 & Rk2).
  destruct (seg_rd _ _ _ _ (i - lo) Hsc ltac:(lia)) as (c & Rc1 & Rc2).
  destruct (move_key_view t m ki vi ks' vs' (d + (i - lo)) (s + (i - lo)) k
    (becomes_view _ _ _ _ _ Hb) Hm Rk1) as (t1 & kj & -> & Ek & Hb1).
  { rewrite (wrote_upto_zlen _ _ _ _ Bk). apply (wrote_range sk d _ ks ks2 Hk). lia. }
  cbn [mbind option_bind].
  pose proof (becomes_meta _ _ _ _ _ Hb) as (_ & _ & _ & _ & _ & Hct).
  pose proof (becomes_meta _ _ _ _ _ Hb1) as (_ & _ & _ & _ & _ & Hct1).
  destruct (move_child_view t1 m kj vi (dc + (i - lo)) (sc + (i - lo)) c
    (becomes_view _ _ _ _ _ Hb1) Rc1) as (t' & cj & E & Ec & Hb').
  - rewrite Hct1, Hct, (wrote_upto_zlen _ _ _ _ Bc). apply (wrote_range cks dc _ (nd_children n) cs2 Hc). lia.
  - rewrite Hct1, Hct in Ec. exists t', kj, vi, cj. split; [exact E|].
    split; [exact (becomes_trans _ _ _ _ _ _ _ _ _ Hb1 Hb')|]. split; [by exists k|]. split; [done|]. by exists c.
Qed.

(** * Shifting the end of the arrays up by one *)

Lemma drop_rd {A} (l : list A) j x : rd l j = Some x -> drop (Z.to_nat j) l = x :: drop (Z.to_nat (j + 1)) l.
Proof.
  intros Hx. pose proof (rd_Some_range _ _ _ Hx). replace (Z.to_nat (j + 1)) with (S (Z.to_nat j)) by lia.
  apply drop_S. unfold rd in Hx. by case_decide.
Qed.

(** The elements from [i] on are one place higher; [i - 1] is next. *)
Definition lifted {A} (idx c i : Z) (l l' : list A) : Prop :=
  exists s, slice l idx (c - idx) = Some s /\ blit l (i + 1) (drop (Z.to_nat (i - idx)) s) = Some l'.

Lemma lifted_start {A} (l : list A) idx c : 0 <= idx <= c -> c < zlen l -> lifted idx c c l l.
Proof.
  intros Hi Hc. pose proof (slice_Some l idx (c - idx) ltac:(lia) ltac:(lia) ltac:(lia)) as Hs.
  pose proof (slice_is_Some _ _ _ _ Hs) as (_ & _ & _ & Hz). eexists. split; [exact Hs|].
  rewrite drop_ge by (unfold zlen in Hz; lia). apply blit_nil. lia.
Qed.

Lemma lifted_step {A} (l l' : list A) idx c i :
  lifted idx c i l l' -> 0 <= idx < i -> i <= c -> c < zlen l ->
  exists x l2, rd l' (i - 1) = Some x /\ blit l' i [x] = Some l2 /\ lifted idx c (i - 1) l l2.
Proof.
  intros (s & Hs & Hb) Hi Hic Hc. pose proof (slice_is_Some _ _ _ _ Hs) as (_ & _ & _ & Hz).
  destruct (seg_rd _ _ _ _ (i - 1 - idx) Hs ltac:(lia)) as (x & Hx1 & Hx2).
  destruct (blit_ok l' i [x]) as (l2 & E & _);
    [lia|rewrite (blit_zlen _ _ _ _ Hb); change (zlen [x]) with 1; lia|].
  exists x, l2. split; [|split; [exact E|]].
  - rewrite (rd_blit_ne _ _ _ _ _ Hb) by lia. by replace (idx + (i - 1 - idx)) with (i - 1) in Hx1 by lia.
  - exists s. split; [exact Hs|]. rewrite (drop_rd _ _ _ Hx2).
    replace (i - 1 - idx + 1) with (i - idx) by lia. replace (i - 1 + 1) with i by lia.
    exact (blit_front _ _ _ (i + 1) _ i [x] Hb E ltac:(change (zlen [x]) with 1; lia)).
Qed.

(** Filling the freed place. *)
Lemma lifted_end {A} (l l' : list A) idx c x :
  lifted idx c idx l l' -> 0 <= idx -> c < zlen l -> idx <= c ->
  exists p s l2, slice l 0 idx = Some p /\ slice l idx (c - idx) = Some s /\ blit l' idx [x] = Some l2 /\
    slice l2 0 (c + 1) = Some (p ++ [x] ++ s).
Proof.
  intros (s & Hs & Hb) Hi Hc Hic. rewrite Z.sub_diag in Hb. change (drop (Z.to_nat 0) s) with s in Hb.
  pose proof (slice_is_Some _ _ _ _ Hs) as (_ & _ & _ & Hz).
  pose proof (slice_Some l 0 idx ltac:(lia) ltac:(lia) ltac:(lia)) as Hp. set (p := take _ _) in Hp. clearbody p.
  pose proof (slice_is_Some _ _ _ _ Hp) as (_ & _ & _ & Hzp).
  destruct (blit_ok l' idx [x]) as (l2 & E & _);
    [lia|rewrite (blit_zlen _ _ _ _ Hb); change (zlen [x]) with 1; lia|].
  exists p, s, l2. split; [done|]. split; [done|]. split; [done|].
  assert (Ef : blit l idx ([x] ++ s) = Some l2)
    by exact (blit_front _ _ _ (idx + 1) _ idx [x] Hb E ltac:(change (zlen [x]) with 1; lia)).
  destruct (slice_inv _ _ _ _ Hp) as (u & w & -> & Hu & _). destruct u; [|rewrite zlen_cons in Hu; pose proof (zlen_nonneg u); lia].
  cbn [app] in *.
  apply blit_inv in Ef as (p' & g & q & E1 & Hp' & Hg & ->).
  apply app_inj_1 in E1 as [<- E1]; [|unfold zlen in *; lia].
  rewrite app_assoc. apply (slice_app [] (p ++ [x] ++ s) q); [done|].
  rewrite !zlen_app. change (zlen [x]) with 1. lia.
Qed.

Lemma shift_entries n ks vs idx c :
  node_view n ks vs -> 0 <= idx <= c -> c < zlen ks -> c < zlen vs ->
  exists n' ks2 vs2, while (Z.to_nat c) (fun st : garry_btree_node * Z => bool_decide (st.2 > idx))
      (fun st => let '(node, i) := st in node ← move_entry node i node (i - 1); Some (node, i - 1)) (n, c) =
      Some (n', idx) /\
    becomes n n' ks2 vs2 (nd_children n) /\ lifted idx c idx ks ks2 /\ lifted idx c idx vs vs2.
Proof.
  intros Hn Hi Hk Hv.
  destruct (while_inv (fun st : garry_btree_node * Z => idx <= st.2 <= c /\ exists ki vi,
      becomes n st.1 ki vi (nd_children n) /\ lifted idx c st.2 ks ki /\ lifted idx c st.2 vs vi)
    (fun st => st.2 - idx) (Z.to_nat c) (fun st : garry_btree_node * Z => bool_decide (st.2 > idx))
    (fun st => let '(node, i) := st in node ← move_entry node i node (i - 1); Some (node, i - 1)) (n, c))
    as ([n' i] & E & (Hr & ki & vi & Hb & Lk & Lv) & Hstop).
  - split; [cbn; lia|]. exists ks, vs. split; [by apply becomes_refl|]. split; apply lifted_start; (done || lia).
  - cbn. lia.
  - intros [t i] (Hr & ki & vi & Hb & Lk & Lv) Hgo%bool_decide_eq_true. cbn [fst snd] in *.
    split; [lia|]. destruct (lifted_step _ _ _ _ _ Lk) as (k & k2 & Rk & Bk & Lk'); [lia..|].
    destruct (lifted_step _ _ _ _ _ Lv) as (v & v2 & Rv & Bv & Lv'); [lia..|].
    pose proof (rd_Some_range _ _ _ Rk). pose proof (rd_Some_range _ _ _ Rv).
    pose proof (blit_inv _ _ _ _ Bk) as (p1 & g1 & q1 & E1 & P1 & G1 & _).
    pose proof (blit_inv _ _ _ _ Bv) as (p2 & g2 & q2 & E2 & P2 & G2 & _).
    destruct (move_entry_view t t ki vi ki vi i (i - 1) k v (becomes_view _ _ _ _ _ Hb)
      (becomes_view _ _ _ _ _ Hb) Rk Rv) as (t' & kj & vj & -> & Ek & Ev & Hb').
    + rewrite E1, !zlen_app, G1. change (zlen [k]) with 1. pose proof (zlen_nonneg q1). lia.
    + rewrite E2, !zlen_app, G2. change (zlen [v]) with 1. pose proof (zlen_nonneg q2). lia.
    + cbn [mbind option_bind]. exists (t', i - 1). split; [reflexivity|]. cbn [fst snd].
      pose proof (becomes_meta _ _ _ _ _ Hb) as (_ & _ & _ & _ & _ & Hc). rewrite Hc in Hb'.
      split; [|lia]. split; [lia|]. exists k2, v2. rewrite Bk in Ek. injection Ek as <-. rewrite Bv in Ev. injection Ev as <-.
      split; [exact (becomes_trans _ _ _ _ _ _ _ _ _ Hb Hb')|]. split; [exact Lk'|exact Lv'].
  - cbn [fst snd] in *. apply bool_decide_eq_false in Hstop. assert (i = idx) as -> by lia.
    exists n', ki, vi. split; [exact E|]. split; [exact Hb|]. split; [exact Lk|exact Lv].
Qed.

(** The same for keys and the children after them. *)
Lemma shift_keys_children n ks vs idx c :
  node_view n ks vs -> 0 <= idx <= c -> c < zlen ks -> c + 1 < zlen (nd_children n) ->
  exists n' ks2 cs2, while (Z.to_nat c) (fun st : garry_btree_node * Z => bool_decide (st.2 > idx))
      (fun st => let '(node, i) := st in
         node ← move_key node i node (i - 1); node ← move_child node (i + 1) node i; Some (node, i - 1)) (n, c) =
      Some (n', idx) /\
    becomes n n' ks2 vs cs2 /\ lifted idx c idx ks ks2 /\ lifted (idx + 1) (c + 1) (idx + 1) (nd_children n) cs2.
Proof.
  intros Hn Hi Hk Hv.
  destruct (while_inv (fun st : garry_btree_node * Z => idx <= st.2 <= c /\ exists ki ci,
      becomes n st.1 ki vs ci /\ lifted idx c st.2 ks ki /\ lifted (idx + 1) (c + 1) (st.2 + 1) (nd_children n) ci)
    (fun st => st.2 - idx) (Z.to_nat c) (fun st : garry_btree_node * Z => bool_decide (st.2 > idx))
    (fun st => let '(node, i) := st in
       node ← move_key node i node (i - 1); node ← move_child node (i + 1) node i; Some (node, i - 1)) (n, c))
    as ([n' i] & E & (Hr & ki & ci & Hb & Lk & Lc) & Hstop).
  - split; [cbn; lia|]. exists ks, (nd_children n). split; [by apply becomes_refl|]. cbn [fst snd]. split; apply lifted_start; lia.
  - cbn. lia.
  - intros [t i] (Hr & ki & ci & Hb & Lk & Lc) Hgo%bool_decide_eq_true. cbn [fst snd] in *.
    split; [lia|]. destruct (lifted_step _ _ _ _ _ Lk) as (k & k2 & Rk & Bk & Lk'); [lia..|].
    destruct (lifted_step _ _ _ _ _ Lc) as (x & c2 & Rc & Bc & Lc'); [lia..|].
    pose proof (blit_inv _ _ _ _ Bk) as (p1 & g1 & q1 & E1 & P1 & G1 & _).
    pose proof (blit_inv _ _ _ _ Bc) as (p2 & g2 & q2 & E2 & P2 & G2 & _).
    destruct (move_key_view t t ki vs ki vs i (i - 1) k (becomes_view _ _ _ _ _ Hb)
      (becomes_view _ _ _ _ _ Hb) Rk) as (t1 & kj & -> & Ek & Hb1).
    { rewrite E1, !zlen_app, G1. change (zlen [k]) with 1. pose proof (zlen_nonneg q1). lia. }
    cbn [mbind option_bind].
    pose proof (becomes_meta _ _ _ _ _ Hb) as (_ & _ & _ & _ & _ & Hc).
    pose proof (becomes_meta _ _ _ _ _ Hb1) as (_ & _ & _ & _ & _ & Hc1). rewrite Hc in Hc1.
    replace (i + 1 - 1) with i in Rc by lia.
    destruct (move_child_view t1 t1 kj vs (i + 1) i x (becomes_view _ _ _ _ _ Hb1)) as (t' & cj & -> & Ec & Hb').
    + by rewrite Hc1.
    + rewrite Hc1, E2, !zlen_app, G2. change (zlen [x]) with 1. pose proof (zlen_nonneg q2). lia.
    + cbn [mbind option_bind]. exists (t', i - 1). split; [reflexivity|]. cbn [fst snd].
      split; [|lia]. split; [lia|]. exists k2, c2. rewrite Bk in Ek. injection Ek as <-.
      rewrite Hc1, Bc in Ec. injection Ec as <-.
      split; [exact (becomes_trans _ _ _ _ _ _ _ _ _ (becomes_trans _ _ _ _ _ _ _ _ _ Hb Hb1) Hb')|].
      split; [exact Lk'|]. by replace (i - 1 + 1) with (i + 1 - 1) by lia.
  - cbn [fst snd] in *. apply bool_decide_eq_false in Hstop. assert (i = idx) as -> by lia.
    exists n', ki, ci. split; [exact E|]. split; [exact Hb|]. split; [exact Lk|exact Lc].
Qed.

(** * Inserting into a leaf *)

Lemma slice_map {A B} (f : A -> B) (l : list A) s n p :
  slice l s n = Some p -> slice (map f l) s n = Some (map f p).
Proof.
  intros (a & b & -> & Ha & Hp)%slice_inv. rewrite !map_app. apply slice_app; unfold zlen in *; by rewrite length_map.
Qed.

Lemma slice_prefix_eq {A} (l p : list A) n q :
  slice l 0 n = Some p -> slice l 0 n = Some q -> p = q.
Proof. congruence. Qed.

Lemma slice_within {A} (l p : list A) n s m :
  slice l 0 n = Some p -> 0 <= s -> 0 <= m -> s + m <= n -> slice l s m = slice p s m.
Proof.
  intros Hp Hs Hm Hle. pose proof (slice_is_Some _ _ _ _ Hp) as (_ & Hn & Hl & _).
  assert (p = take (Z.to_nat n) l) as ->.
  { pose proof (slice_Some l 0 n ltac:(lia) ltac:(lia) ltac:(lia)) as E. rewrite Hp in E. by injection E as ->. }
  symmetry. apply slice_take; lia.
Qed.

(** The beginning and the end of a list at a position. *)
Lemma slice_parts {A} (l : list A) (i : Z) :
  0 <= i <= zlen l -> slice l 0 i = Some (take (Z.to_nat i) l) /\
    slice l i (zlen l - i) = Some (drop (Z.to_nat i) l).
Proof.
  intros Hi. rewrite <- (take_drop (Z.to_nat i) l) at 1 3.
  assert (Hz : zlen (take (Z.to_nat i) l) = i) by (unfold zlen in *; rewrite length_take; lia).
  assert (Hd : zlen (drop (Z.to_nat i) l) = zlen l - i) by (unfold zlen in *; rewrite length_drop; lia).
  split; [by apply (slice_app [])|]. rewrite <- (app_nil_r (drop _ _)) at 1. by apply slice_app.
Qed.

Lemma zlen_map {A B} (f : A -> B) l : zlen (map f l) = zlen l.
Proof. unfold zlen. by rewrite length_map. Qed.

(** [l] with [x] at position [i]. *)
Definition put_at {A} (i : Z) (x : A) (l : list A) : list A :=
  take (Z.to_nat i) l ++ [x] ++ drop (Z.to_nat i) l.

Lemma zlen_put_at {A} i (x : A) l : zlen (put_at i x l) = zlen l + 1.
Proof.
  unfold put_at, zlen. rewrite !length_app, length_take, length_drop. cbn [length]. lia.
Qed.

Lemma map_put_at {A B} (f : A -> B) i x l : map f (put_at i x l) = put_at i (f x) (map f l).
Proof. unfold put_at. rewrite !map_app, firstn_map, skipn_map. done. Qed.

(** Making room at [idx] in an array that begins with [l], and filling it. *)
Lemma lifted_put {A} (arr arr' l : list A) idx c x :
  slice arr 0 c = Some l -> lifted idx c idx arr arr' -> 0 <= idx <= c -> c < zlen arr ->
  exists arr2, blit arr' idx [x] = Some arr2 /\ slice arr2 0 (c + 1) = Some (put_at idx x l).
Proof.
  intros Hl Hlift Hi Hc. pose proof (slice_is_Some _ _ _ _ Hl) as (_ & _ & _ & Hz).
  destruct (lifted_end _ _ _ _ x Hlift) as (p & s & l2 & Hp & Hs & Hb & H2); [lia..|].
  exists l2. split; [exact Hb|]. rewrite H2. rewrite (slice_within _ _ _ _ _ Hl) in Hp by lia. rewrite (slice_within _ _ _ _ _ Hl) in Hs by lia.
  destruct (slice_parts l idx) as [E1 E2]; [lia|]. rewrite Hz in E2.
  rewrite E1 in Hp. injection Hp as <-. rewrite E2 in Hs. by injection Hs as <-.
Qed.

Lemma leaf_insert_spec node next prev es key klen value vlen k v idx :
  node_rep node (ALeaf next prev es) -> zlen es < GARRY_MAX_KEYS_PER_NODE -> 0 <= idx <= zlen es ->
  slice key 0 klen = Some k -> slice value 0 vlen = Some v ->
  klen <= GARRY_MAX_KEY_SIZE -> vlen <= GARRY_MAX_KEY_SIZE ->
  exists n', garry_leaf_insert node key klen value vlen idx = Some (n', true) /\
    node_rep n' (ALeaf next prev (put_at idx (k, v) es)).
Proof.
  intros Hn Hc Hi Hk Hv Hkl Hvl. destruct (rep_view _ _ Hn) as (ks & vs & Hw & Zk & Zv & Sk & Sv).
  cbn [an_pairs] in Sk. rewrite zlen_map in Sk, Sv. unfold garry_leaf_insert, GARRY_MAX_KEYS_PER_NODE in *.
  pose proof (nr_count _ _ Hn) as Hcount. cbn [an_pairs] in Hcount. rewrite Hcount.
  rewrite decide_False by lia.
  destruct (shift_entries node ks vs idx (zlen es) Hw Hi) as (n1 & k1 & v1 & -> & B1 & L1 & L2); [lia..|].
  cbn [mbind option_bind].
  pose proof (becomes_meta _ _ _ _ _ B1) as (M1 & M2 & M3 & M4 & M5 & M6).
  destruct (lifted_put _ _ _ _ _ k Sk L1) as (ks2 & Ek & Fk); [lia..|].
  destruct (lifted_put _ _ _ _ _ v Sv L2) as (vs2 & Ev & Fv); [lia..|].
  assert (Zk1 : zlen k1 = 3) by (destruct L1 as (? & _ & HB); by rewrite (blit_zlen _ _ _ _ HB)).
  assert (Zv1 : zlen v1 = 3) by (destruct L2 as (? & _ & HB); by rewrite (blit_zlen _ _ _ _ HB)).
  destruct (put_key_view n1 k1 v1 idx key klen k (becomes_view _ _ _ _ _ B1) Hk Hkl) as (n2 & ks2' & -> & Ek' & B2); [lia|].
  cbn [mbind option_bind]. rewrite Ek in Ek'. injection Ek' as <-. rewrite M6 in B2.
  destruct (put_value_view n2 ks2 v1 idx value vlen v (becomes_view _ _ _ _ _ B2) Hv Hvl) as (n3 & vs2' & -> & Ev' & B3); [lia|].
  cbn [mbind option_bind]. rewrite Ev in Ev'. injection Ev' as <-.
  pose proof (becomes_meta _ _ _ _ _ B2) as (_ & _ & _ & _ & _ & N6). rewrite N6 in B3.
  pose proof (becomes_trans _ _ _ _ _ _ _ _ _ (becomes_trans _ _ _ _ _ _ _ _ _ B1 B2) B3) as B.
  pose proof (becomes_meta _ _ _ _ _ B) as (P1 & P2 & P3 & P4 & P5 & P6).
  eexists. split; [reflexivity|]. destruct (becomes_view _ _ _ _ _ B) as [V1 V2].
  apply (view_rep _ ks2 vs2); cbn [set_count nd_kind nd_next nd_prev nd_count nd_children an_kind an_links an_pairs].
  - split; [exact V1|exact V2].
  - by rewrite (blit_zlen _ _ _ _ Ek).
  - by rewrite (blit_zlen _ _ _ _ Ev).
  - rewrite P6. exact (na_children _ (nr_arrays _ _ Hn)).
  - rewrite P1. exact (nr_kind _ _ Hn).
  - rewrite P3, P4. exact (nr_links _ _ Hn).
  - rewrite P5, Hcount. by rewrite zlen_put_at.
  - rewrite zlen_map, zlen_put_at, map_put_at. exact Fk.
  - rewrite zlen_map, zlen_put_at, map_put_at. exact Fv.
Qed.
