(* ===== verification/BtreeSearch.v ===== *)
(** Searching the B-tree, [src/src/btree_search.c]: the scans of one node and
    the descent from the root.  A tree of pages is related to the sorted list of
    its entries, and the search returns what the list, read as a map, holds. *)

From Stdlib Require Import Sorting.Sorted.
From stdpp Require Import gmap.
From S2P Require Import Prelude Endian KeyEncoding BtreeCompression RecordCodec SlottedPage FileIo BufferPool.
From S2P Require Import PoolClient BtreeNode NodeView.

(** * The code *)

Definition garry_leaf_find (node : garry_btree_node) (key : list Z) (klen : Z) : option Z :=
  r ← scan 0 (nd_count node) (fun i =>
        k ← rd (nd_keys node) i; l ← rd (nd_key_lens node) i;
        b ← garry_byte_equal k l key klen;
        Some (if b : bool then Some i else None));
  Some (default (-1) r).

Definition garry_internal_find (node : garry_btree_node) (key : list Z) (klen : Z) : option Z :=
  r ← scan 0 (nd_count node) (fun i =>
        k ← rd (nd_keys node) i; l ← rd (nd_key_lens node) i;
        c ← garry_byte_compare key klen k l;
        Some (if decide (c < 0) then Some i else None));
  Some (default (nd_count node) r).

(** The descent; [fuel] bounds its length.  The inner [None] is the result 0,
    otherwise [*result] and [*result_len] are returned. *)
Fixpoint garry_leaf_find_search (fuel : nat) (pool : garry_buffer_pool) (page : Z) (key : list Z) (klen : Z)
    (result : list Z) : option (garry_buffer_pool * option (list Z * Z)) :=
  match fuel with
  | O => None
  | S fuel =>
      '(pool, node) ← garry_load_node pool page;
      if decide (nd_kind node = GARRY_NODE_LEAF) then
        idx ← garry_leaf_find node key klen;
        if decide (idx < 0) then Some (pool, None) else
        v ← rd (nd_values node) idx;
        result ← memcpy result 0 v 0 GARRY_MAX_KEY_SIZE;
        vlen ← rd (nd_value_lens node) idx;
        Some (pool, Some (result, vlen))
      else if decide (nd_kind node <> GARRY_NODE_INTERNAL) then Some (pool, None)
      else if decide (nd_count node = 0) then Some (pool, None)
      else
        child ← garry_internal_find node key klen;
        page ← rd (nd_children node) child;
        garry_leaf_find_search fuel pool page key klen result
  end.

(** * The scans of a node *)

(** The first index at which a predicate holds, and the value when there is none. *)
Definition first_index {A} (P : A -> Prop) `{forall x, Decision (P x)} (d : Z) (l : list A) : Z :=
  match list_find P l with Some (i, _) => Z.of_nat i | None => d end.

Lemma first_index_range {A} (P : A -> Prop) `{forall x, Decision (P x)} d (l : list A) :
  (exists x, rd l (first_index P d l) = Some x /\ P x /\
    Forall (fun y => ~ P y) (take (Z.to_nat (first_index P d l)) l)) \/
  (first_index P d l = d /\ Forall (fun y => ~ P y) l).
Proof.
  unfold first_index. destruct (list_find P l) as [[i x]|] eqn:E.
  - left. apply list_find_Some in E as (Hi & HP & Hn). exists x. rewrite rd_lookup, Nat2Z.id.
    split; [done|]. split; [done|]. apply Forall_lookup. intros j y Hj.
    apply lookup_take_Some in Hj as [Hj Hlt]. by apply (Hn j).
  - right. apply list_find_None in E. done.
Qed.

Lemma scan_first_index {A} (P : A -> Prop) `{forall x, Decision (P x)} d (l : list A)
    (body : Z -> option (option Z)) :
  (forall i x, rd l i = Some x -> body i = Some (if decide (P x) then Some i else None)) ->
  (r ← scan 0 (zlen l) body; Some (default d r)) = Some (first_index P d l).
Proof.
  intros Hb. unfold first_index. destruct (list_find P l) as [[i x]|] eqn:E.
  - apply list_find_Some in E as (Hi & HP & Hn).
    rewrite (scan_Some 0 (zlen l) (Z.of_nat i) (Z.of_nat i)); [done| | |].
    + apply lookup_lt_Some in Hi. unfold zlen. lia.
    + intros j Hj. destruct (rd_is_Some l j) as [y Hy].
      { apply lookup_lt_Some in Hi. unfold zlen. lia. }
      rewrite (Hb j y Hy). rewrite decide_False; [done|].
      unfold rd in Hy. rewrite decide_True in Hy by lia. apply (Hn _ _ Hy). lia.
    + rewrite (Hb _ x) by (by rewrite rd_lookup). by rewrite decide_True.
  - apply list_find_None in E. rewrite scan_None; [done|]. intros j Hj.
    destruct (rd_is_Some l j) as [y Hy]; [lia|]. rewrite (Hb j y Hy). rewrite decide_False; [done|].
    unfold rd in Hy. rewrite decide_True in Hy by lia. exact (Forall_lookup_1 _ _ _ _ E Hy).
Qed.

Lemma node_key n a i k :
  node_rep n a -> rd (map fst (an_pairs a)) i = Some k ->
  exists arr, rd (nd_keys n) i = Some arr /\ rd (nd_key_lens n) i = Some (zlen k) /\ slice arr 0 (zlen k) = Some k.
Proof. intros Hn Hi. exact (holds_rd _ _ _ _ _ (nr_keys _ _ Hn) Hi). Qed.

Lemma leaf_find_spec n a key klen k :
  node_rep n a -> slice key 0 klen = Some k ->
  garry_leaf_find n key klen = Some (first_index (fun x => x = k) (-1) (map fst (an_pairs a))).
Proof.
  intros Hn Hk. unfold garry_leaf_find. rewrite (nr_count _ _ Hn), <- (zlen_map fst (an_pairs a)).
  apply scan_first_index. intros i x Hx. destruct (node_key _ _ _ _ Hn Hx) as (arr & -> & -> & Hs).
  cbn [mbind option_bind]. rewrite (byte_equal_spec _ _ _ _ x k Hs Hk). cbn [mbind option_bind].
  destruct (decide (x = k)); [by rewrite bool_decide_eq_true_2|by rewrite bool_decide_eq_false_2].
Qed.

Lemma internal_find_spec n a key klen k :
  node_rep n a -> slice key 0 klen = Some k -> Forall is_byte k ->
  Forall (Forall is_byte) (map fst (an_pairs a)) ->
  garry_internal_find n key klen =
    Some (first_index (fun x => key_lt k x) (zlen (an_pairs a)) (map fst (an_pairs a))).
Proof.
  intros Hn Hk Hb HB. unfold garry_internal_find. rewrite (nr_count _ _ Hn), <- (zlen_map fst (an_pairs a)).
  apply scan_first_index. intros i x Hx. destruct (node_key _ _ _ _ Hn Hx) as (arr & -> & -> & Hs).
  cbn [mbind option_bind]. assert (Hx' : Forall is_byte x).
  { unfold rd in Hx. case_decide; [|done]. exact (Forall_lookup_1 _ _ _ _ HB Hx). }
  rewrite (byte_compare_lex _ _ _ _ k x Hk Hs Hb Hx'). cbn [mbind option_bind].
  destruct (decide (key_lt k x)) as [Hlt|Hlt]; unfold key_lt in Hlt.
  - rewrite Hlt. done.
  - by destruct (lex k x).
Qed.

(** * Trees *)

Abbreviation entry := (list Z * list Z)%type (only parsing).

(** Three entries of this size fit a page, whatever the kind of node. *)
Definition entry_fits (ps : Z) (e : entry) : Prop :=
  GARRY_PAGE_HEADER_SIZE + 4 * GARRY_SLOT_SIZE + 31 + 3 * (5 + zlen e.1 + zlen e.2) <= ps.
Record entry_ok (ps : Z) (e : entry) : Prop := {
  eo_key : short e.1;
  eo_value : short e.2;
  eo_bytes : Forall is_byte e.1;
  eo_fits : entry_fits ps e
}.

Record node_ok (ps : Z) (a : anode) : Prop := {
  no_next : id_ok (an_links a).1;
  no_prev : id_ok (an_links a).2;
  no_children : Forall id_ok (an_children a);
  no_entries : Forall (entry_ok ps) (an_pairs a);
  no_count : zlen (an_pairs a) <= GARRY_MAX_KEYS_PER_NODE;
  no_shape : match a with ALeaf _ _ _ => True | AInternal _ _ ks cs => zlen cs = zlen ks + 1 end
}.

Lemma node_ok_wf ps a : node_ok ps a -> an_wf a.
Proof.
  intros []. repeat (split; [done|]). split; [|by split].
  eapply Forall_impl; [exact no_entries0|]. intros e [H1 H2 _ _]. by split.
Qed.

Lemma recs_len_bound (f : entry -> list Z) (es : list entry) b :
  0 <= b -> Forall (fun e => 3 * zlen (f e) <= b) es -> 3 * recs_len (map f es) <= b * zlen es.
Proof.
  intros Hb. induction 1 as [|e es He HF IH]; [unfold recs_len, zlen; cbn; lia|].
  cbn [map]. rewrite recs_len_cons, zlen_cons. lia.
Qed.

Lemma node_ok_fits ps a : node_ok ps a -> GARRY_PAGE_HEADER_SIZE + 4 * GARRY_SLOT_SIZE + 31 <= ps -> node_fits ps a.
Proof.
  intros [Hn Hp Hc He Hl Hs] Hps. unfold node_fits, an_records. rewrite recs_len_cons, zlen_cons, zlen_map.
  pose proof (zlen_meta _ _ _ Hn Hp Hc) as Hm. unfold GARRY_MAX_KEYS_PER_NODE in Hl.
  assert (Hcl : zlen (an_children a) <= 4).
  { destruct a as [next prev es|next prev ks cs]; cbn; [done|]. cbn [an_pairs] in Hl. rewrite zlen_map in Hl. lia. }
  pose proof (zlen_nonneg (an_pairs a)). unfold GARRY_SLOT_SIZE, GARRY_PAGE_HEADER_SIZE in *.
  pose proof (recs_len_bound (fun e => enc_kv e.1 e.2) (an_pairs a) (ps - 32 - 16 - 31) ltac:(lia)) as Hb.
  assert (HF : Forall (fun e : entry => 3 * zlen (enc_kv e.1 e.2) <= ps - 32 - 16 - 31) (an_pairs a)).
  { eapply Forall_impl; [exact He|]. intros e [_ _ _ Hf]. pose proof (zlen_enc_kv e.1 e.2).
    unfold entry_fits, GARRY_PAGE_HEADER_SIZE, GARRY_SLOT_SIZE in Hf. lia. }
  specialize (Hb HF).
  pose proof (Z.mul_le_mono_nonneg_l (zlen (an_pairs a)) 3 (ps - 32 - 16 - 31) ltac:(lia) Hl). lia.
Qed.

(** The page [pid] holds the node [a]. *)
Definition node_at (ps : Z) (view : Z -> list Z) (pid : Z) (a : anode) : Prop :=
  page_node ps (view pid) a /\ node_ok ps a.

Definition sorted (m : list entry) : Prop := StronglySorted (fun a b => key_lt a.1 b.1) m.

(** The children [cs] of an internal node with separators [ks]: the entries of a
    child are below the separator after it and not below the one before it. *)
Fixpoint forest (tree : Z -> list entry -> list Z -> Prop) (ks : list (list Z)) (cs : list Z)
    (m : list entry) (fp : list Z) {struct ks} : Prop :=
  match ks, cs with
  | [], [c] => tree c m fp /\ m <> []
  | k :: ks, c :: cs => exists m1 m2 fp1 fp2, m = m1 ++ m2 /\ fp = fp1 ++ fp2 /\
      tree c m1 fp1 /\ m1 <> [] /\ forest tree ks cs m2 fp2 /\
      Forall (fun e => key_lt e.1 k) m1 /\ Forall (fun e => key_le k e.1) m2
  | _, _ => False
  end.

(** [tree_at ps view h pid m fp]: the tree of height [h] under [pid] has the
    entries [m] in order and consists of the pages [fp]. *)
Fixpoint tree_at (ps : Z) (view : Z -> list Z) (h : nat) (pid : Z) (m : list entry) (fp : list Z) : Prop :=
  match h with
  | O => fp = [pid] /\ sorted m /\ exists next prev, node_at ps view pid (ALeaf next prev m)
  | S h => exists next prev ks cs fps, fp = pid :: fps /\ ks <> [] /\
      node_at ps view pid (AInternal next prev ks cs) /\ forest (tree_at ps view h) ks cs m fps
  end.

Lemma forest_mono (T T' : Z -> list entry -> list Z -> Prop) ks cs m fp :
  (forall c m f, T c m f -> (forall q, q ∈ f -> q ∈ fp) -> T' c m f) -> forest T ks cs m fp -> forest T' ks cs m fp.
Proof.
  revert cs m fp. induction ks as [|k ks IH]; intros cs m fp HT H.
  - destruct cs as [|c [|? ?]]; try done. destruct H as [H Hm]. split; [by apply HT|done].
  - destruct cs as [|c cs]; [done|]. destruct H as (m1 & m2 & f1 & f2 & -> & -> & H1 & Hm & H2 & HF1 & HF2).
    exists m1, m2, f1, f2. split; [done|]. split; [done|]. split.
    { apply HT; [done|]. intros q Hq. apply elem_of_app. by left. }
    split; [done|]. split; [|done]. apply IH; [|done]. intros c' m' f' Ht Hf. apply HT; [done|].
    intros q Hq. apply elem_of_app. right. by apply Hf.
Qed.

(** Only the pages of the tree matter. *)
Lemma tree_frame ps view view' h pid m fp :
  (forall q, q ∈ fp -> view' q = view q) -> tree_at ps view h pid m fp -> tree_at ps view' h pid m fp.
Proof.
  revert pid m fp. induction h as [|h IH]; intros pid m fp Hv; cbn [tree_at].
  - intros (-> & Hs & next & prev & Hp & Hok). split; [done|]. split; [done|]. exists next, prev.
    split; [|done]. rewrite Hv; [done|]. by left.
  - intros (next & prev & ks & cs & fps & -> & Hne & [Hp Hok] & Hf). exists next, prev, ks, cs, fps.
    split; [done|]. split; [done|]. split; [split; [|done]|].
    + rewrite Hv; [done|]. by left.
    + apply (forest_mono (tree_at ps view h)); [|done]. intros c m' f Ht Hq. apply IH; [|done].
      intros q Hqf. apply Hv. right. by apply Hq.
Qed.

Lemma sorted_app m1 m2 k :
  sorted m1 -> sorted m2 -> Forall (fun e => key_lt e.1 k) m1 -> Forall (fun e => key_le k e.1) m2 ->
  sorted (m1 ++ m2).
Proof.
  intros H1 H2 F1 F2. induction H1 as [|e m1 Hs IH He]; [done|].
  apply Forall_cons in F1 as [F0 F1]. cbn [app]. constructor; [by apply IH|].
  apply Forall_app. split; [done|]. eapply Forall_impl; [exact F2|]. intros x Hx. cbn in Hx.
  apply key_le_lt_eq in Hx as [Hx| <-]; [|done]. by transitivity k.
Qed.

Lemma tree_sorted ps view h pid m fp : tree_at ps view h pid m fp -> sorted m.
Proof.
  revert pid m fp. induction h as [|h IH]; intros pid m fp; cbn [tree_at].
  - by intros (_ & Hs & _).
  - intros (next & prev & ks & cs & fps & _ & _ & _ & Hf). clear next prev fp. revert cs m fps Hf.
    induction ks as [|k ks IHk]; intros cs m fps Hf.
    + destruct cs as [|c [|? ?]]; try done. destruct Hf as [Hf _]. by apply (IH c m fps).
    + destruct cs as [|c cs]; [done|]. destruct Hf as (m1 & m2 & f1 & f2 & -> & -> & H1 & _ & H2 & HF1 & HF2).
      apply (sorted_app m1 m2 k); [by eapply IH|by eapply IHk|done|done].
Qed.

Lemma tree_root ps view h pid m fp : tree_at ps view h pid m fp -> exists f, fp = pid :: f.
Proof.
  destruct h; cbn [tree_at]; [intros (-> & _); by exists []|].
  intros (? & ? & ? & ? & f & -> & _). by exists f.
Qed.

(** Every level has a page of its own. *)
Lemma tree_height ps view h pid m fp : tree_at ps view h pid m fp -> (h < length fp)%nat.
Proof.
  revert pid m fp. induction h as [|h IH]; intros pid m fp; cbn [tree_at].
  - intros (-> & _). cbn. lia.
  - intros (next & prev & ks & cs & fps & -> & Hne & _ & Hf). cbn [length].
    destruct ks as [|k ks]; [done|]. destruct cs as [|c cs]; [done|].
    destruct Hf as (m1 & m2 & f1 & f2 & -> & -> & H1 & _). rewrite length_app. apply IH in H1. lia.
Qed.

Lemma put_at_0 {A} (x : A) l : put_at 0 x l = x :: l.
Proof. done. Qed.

Lemma put_at_cons {A} i (x y : A) l : 0 <= i -> put_at (i + 1) x (y :: l) = y :: put_at i x l.
Proof.
  intros Hi. unfold put_at. replace (Z.to_nat (i + 1)) with (S (Z.to_nat i)) by lia. done.
Qed.

Lemma first_index_cons {A} (P : A -> Prop) `{forall x, Decision (P x)} (x : A) l :
  first_index P (zlen (x :: l)) (x :: l) = if decide (P x) then 0 else first_index P (zlen l) l + 1.
Proof.
  unfold first_index. cbn [list_find]. destruct (decide (P x)); [done|].
  destruct (list_find P l) as [[i y]|]; cbn; [lia|]. rewrite zlen_cons. lia.
Qed.

Lemma first_index_bound {A} (P : A -> Prop) `{forall x, Decision (P x)} (l : list A) :
  0 <= first_index P (zlen l) l <= zlen l.
Proof.
  destruct (first_index_range P (zlen l) l) as [(x & Hx & _)|[-> _]].
  - apply rd_Some_range in Hx. lia.
  - pose proof (zlen_nonneg l). lia.
Qed.

(** The child that covers a key: where it is, and how the forest changes when
    the child is replaced by a tree or by two trees with a separator. *)
Record zoom (T : Z -> list entry -> list Z -> Prop) (k : list Z) (ks : list (list Z)) (cs : list Z)
    (i c : Z) (ma mi mb : list entry) (fa fi fb : list Z) : Prop := {
  zo_child : rd cs i = Some c;
  zo_tree : T c mi fi;
  zo_some : mi <> [];
  zo_below : Forall (fun e => key_lt e.1 k) ma;
  zo_above : Forall (fun e => key_lt k e.1) mb;
  zo_one : forall (T' : Z -> list entry -> list Z -> Prop) m' f',
    (forall c m f, T c m f -> (forall q, q ∈ f -> q ∈ fa \/ q ∈ fb) -> T' c m f) ->
    T' c m' f' -> m' <> [] -> Forall (fun e => e ∈ mi \/ e.1 = k) m' ->
    forest T' ks cs (ma ++ m' ++ mb) (fa ++ f' ++ fb);
  zo_two : forall (T' : Z -> list entry -> list Z -> Prop) s c2 m1 f1 m2 f2,
    (forall c m f, T c m f -> (forall q, q ∈ f -> q ∈ fa \/ q ∈ fb) -> T' c m f) ->
    T' c m1 f1 -> T' c2 m2 f2 -> m1 <> [] -> m2 <> [] -> Forall (fun e => e ∈ mi \/ e.1 = k) (m1 ++ m2) ->
    Forall (fun e => key_lt e.1 s) m1 -> Forall (fun e => key_le s e.1) m2 ->
    forest T' (put_at i s ks) (put_at (i + 1) c2 cs) (ma ++ (m1 ++ m2) ++ mb) (fa ++ (f1 ++ f2) ++ fb)
}.

Lemma key_le_lt_trans a b c : key_le a b -> key_lt b c -> key_lt a c.
Proof. intros [H1| ->]%key_le_lt_eq H2; [by transitivity b|done]. Qed.

Lemma key_lt_le_trans a b c : key_lt a b -> key_le b c -> key_lt a c.
Proof. intros H1 [H2| <-]%key_le_lt_eq; [by transitivity b|done]. Qed.

Lemma key_lt_le a b : key_lt a b -> key_le a b.
Proof. intros H. apply key_le_lt_eq. by left. Qed.

Lemma not_key_lt a b : ~ key_lt a b -> key_le b a.
Proof. intros H. by apply key_le_not_lt. Qed.

(** The bounds of an updated child. *)
Lemma covered_below k k0 (mi m' : list entry) :
  Forall (fun e => key_lt e.1 k0) mi -> key_lt k k0 -> Forall (fun e => e ∈ mi \/ e.1 = k) m' ->
  Forall (fun e => key_lt e.1 k0) m'.
Proof.
  intros Hmi Hk Hm. eapply Forall_impl; [exact Hm|]. intros e [He|He]; [|by rewrite He].
  rewrite Forall_forall in Hmi. exact (Hmi e He).
Qed.

Lemma covered_above k k0 (mi m' : list entry) :
  Forall (fun e => key_le k0 e.1) mi -> key_le k0 k -> Forall (fun e => e ∈ mi \/ e.1 = k) m' ->
  Forall (fun e => key_le k0 e.1) m'.
Proof.
  intros Hmi Hk Hm. eapply Forall_impl; [exact Hm|]. intros e [He|He]; [|by rewrite He].
  rewrite Forall_forall in Hmi. exact (Hmi e He).
Qed.

Lemma forest_zoom T k ks cs m fp :
  forest T ks cs m fp ->
  exists c ma mi mb fa fi fb, m = ma ++ mi ++ mb /\ fp = fa ++ fi ++ fb /\
    zoom T k ks cs (first_index (fun x => key_lt k x) (zlen ks) ks) c ma mi mb fa fi fb.
Proof.
  revert cs m fp. induction ks as [|k0 ks IH]; intros cs m fp H.
  - destruct cs as [|c [|? ?]]; try done. destruct H as [Ht Hm].
    exists c, [], m, [], [], fp, []. rewrite !app_nil_r. split; [done|]. split; [done|].
    change (first_index _ _ _) with 0. split; try done.
    + intros T' m' f' _ Ht' Hm' _. rewrite !app_nil_r. by split.
    + intros T' s c2 m1 f1 m2 f2 _ H1 H2 N1 N2 _ F1 F2. rewrite !app_nil_r.
      exists m1, m2, f1, f2.
      split; [done|]. split; [done|]. split; [exact H1|]. split; [exact N1|]. split; [split; [exact H2|exact N2]|].
      split; [exact F1|exact F2].
  - destruct cs as [|c cs]; [done|]. destruct H as (m1 & m2 & f1 & f2 & -> & -> & H1 & N1 & H2 & F1 & F2).
    rewrite first_index_cons. destruct (decide (key_lt k k0)) as [Hlt|Hge].
    + exists c, [], m1, m2, [], f1, f2. split; [done|]. split; [done|]. split; try done.
      * eapply Forall_impl; [exact F2|]. intros e He. by apply (key_lt_le_trans _ k0).
      * intros T' m' f' HT Ht' Hm' Hcov. exists m', m2, f', f2. split; [done|]. split; [done|]. split; [done|].
        split; [done|]. split; [apply (forest_mono T); [|done]; intros c' m'' f Hc Hq; apply HT; [done|]; intros q Hq'; right; by apply Hq|].
        split; [by apply (covered_below k k0 m1)|done].
      * intros T' s c2 ml fl mr fr HT Hl Hr Nl Nr Hcov Fl Fr. apply Forall_app in Hcov as [Cl Cr].
        rewrite put_at_0, (put_at_cons 0 c2 c cs) by lia. rewrite put_at_0.
        pose proof (covered_below k k0 m1 mr F1 Hlt Cr) as Br.
        exists ml, (mr ++ m2), fl, (fr ++ f2). rewrite <- !app_assoc. split; [done|]. split; [done|]. split; [done|].
        split; [done|]. split; [|split; [done|]].
        -- exists mr, m2, fr, f2. split; [done|]. split; [done|]. split; [done|]. split; [done|].
           split; [apply (forest_mono T); [|done]; intros c' m'' f Hc Hq; apply HT; [done|]; intros q Hq'; right; by apply Hq|].
           by split.
        -- apply Forall_app. split; [done|]. destruct mr as [|e mr]; [done|].
           apply Forall_cons in Fr as [Fe _]. apply Forall_cons in Br as [Be _].
           eapply Forall_impl; [exact F2|]. intros x Hx. apply key_lt_le.
           apply (key_le_lt_trans _ e.1); [done|]. by apply (key_lt_le_trans _ k0).
    + apply not_key_lt in Hge. destruct (IH _ _ _ H2) as (c' & ma & mi & mb & fa & fi & fb & -> & -> & Z).
      destruct Z as [Z1 Z2 Z3 Z4 Z5 Z6 Z7].
      pose proof (first_index_bound (fun x => key_lt k x) ks) as Hi.
      set (i := first_index (fun x => key_lt k x) (zlen ks) ks) in *.
      apply Forall_app in F2 as [Fa F2]. apply Forall_app in F2 as [Fi Fb].
      exists c', (m1 ++ ma), mi, mb, (f1 ++ fa), fi, fb. split; [by rewrite <- !app_assoc|]. split; [by rewrite <- !app_assoc|].
      split; try done.
      * rewrite rd_cons_S by lia. by replace (i + 1 - 1) with i by lia.
      * apply Forall_app. split; [|done]. eapply Forall_impl; [exact F1|]. intros e He. by apply (key_lt_le_trans _ k0).
      * intros T' m' f' HT Ht' Hm' Hcov. exists m1, (ma ++ m' ++ mb), f1, (fa ++ f' ++ fb).
        rewrite <- !app_assoc. split; [done|]. split; [done|]. split; [|split; [done|split; [|split; [done|]]]].
        -- apply HT; [done|]. intros q Hq. left. apply elem_of_app. by left.
        -- apply Z6; [|done..]. intros c2 m2 f2 Hc2 Hq. apply HT; [done|]. intros q Hq'.
           destruct (Hq q Hq'); [left; apply elem_of_app; by right|by right].
        -- rewrite !Forall_app. split; [done|]. split; [|done]. by apply (covered_above k k0 mi).
      * intros T' s c2 ml fl mr fr HT Hl Hr Nl Nr Hcov Fl Fr.
        rewrite !put_at_cons by lia. exists m1, (ma ++ (ml ++ mr) ++ mb), f1, (fa ++ (fl ++ fr) ++ fb).
        rewrite <- !app_assoc. split; [done|]. split; [done|]. split; [|split; [done|split; [|split; [done|]]]].
        -- apply HT; [done|]. intros q Hq. left. apply elem_of_app. by left.
        -- rewrite !(app_assoc ml), !(app_assoc fl). apply Z7; [|done..]. intros c3 m3 f3 Hc2 Hq. apply HT; [done|]. intros q Hq'.
           destruct (Hq q Hq'); [left; apply elem_of_app; by right|by right].
        -- pose proof (covered_above k k0 mi (ml ++ mr) Fi Hge Hcov) as Hc. rewrite Forall_app in Hc.
           destruct Hc. rewrite !Forall_app. auto.
Qed.

Lemma forest_some T ks cs m fp : forest T ks cs m fp -> m <> [].
Proof.
  destruct ks as [|k ks], cs as [|c cs]; try done; cbn [forest].
  - destruct cs; [by intros []|done].
  - intros (m1 & m2 & _ & _ & -> & _ & _ & Hm & _). by destruct m1.
Qed.

(** Cutting a forest at a separator. *)
Lemma forest_cut T kl s kr cs m fp :
  forest T (kl ++ s :: kr) cs m fp ->
  exists cl cr m1 m2 f1 f2, cs = cl ++ cr /\ zlen cl = zlen kl + 1 /\ m = m1 ++ m2 /\ fp = f1 ++ f2 /\
    forest T kl cl m1 f1 /\ forest T kr cr m2 f2 /\
    Forall (fun e => key_lt e.1 s) m1 /\ Forall (fun e => key_le s e.1) m2.
Proof.
  revert cs m fp. induction kl as [|k kl IH]; intros cs m fp H.
  - destruct cs as [|c cs]; [done|]. destruct H as (m1 & m2 & f1 & f2 & -> & -> & H1 & N1 & H2 & F1 & F2).
    exists [c], cs, m1, m2, f1, f2. split; [done|]. split; [done|]. split; [done|]. split; [done|].
    split; [by split|]. by split.
  - destruct cs as [|c cs]; [done|]. destruct H as (m1 & m2 & f1 & f2 & -> & -> & H1 & N1 & H2 & F1 & F2).
    destruct (IH _ _ _ H2) as (cl & cr & m3 & m4 & f3 & f4 & -> & Hz & -> & -> & H3 & H4 & F3 & F4).
    exists (c :: cl), cr, (m1 ++ m3), m4, (f1 ++ f3), f4. rewrite !zlen_cons, Hz, <- !app_assoc.
    split; [done|]. split; [lia|]. split; [done|]. split; [done|].
    apply Forall_app in F2 as [F2 _]. split; [|split; [done|split; [|done]]].
    + exists m1, m3, f1, f3. split; [done|]. split; [done|]. split; [done|]. split; [done|].
      split; [done|]. by split.
    + apply Forall_app. split; [|done]. pose proof (forest_some _ _ _ _ _ H3) as N3.
      destruct m3 as [|e m3]; [done|]. apply Forall_cons in F2 as [Fe _]. apply Forall_cons in F3 as [Ge _].
      eapply Forall_impl; [exact F1|]. intros x Hx. transitivity k; [done|]. by apply (key_le_lt_trans _ e.1).
Qed.

(** * The entries as a map *)

Definition contents (m : list entry) : gmap (list Z) (list Z) := list_to_map m.

Lemma contents_below m k : Forall (fun e : entry => key_lt e.1 k) m -> contents m !! k = None.
Proof.
  intros HF. apply not_elem_of_list_to_map_1. intros (e & He & Hin)%list_elem_of_fmap.
  rewrite Forall_forall in HF. specialize (HF e Hin). cbn in HF. rewrite He in HF.
  by apply (irreflexivity key_lt e.1).
Qed.

Lemma contents_above m k : Forall (fun e : entry => key_lt k e.1) m -> contents m !! k = None.
Proof.
  intros HF. apply not_elem_of_list_to_map_1. intros (e & He & Hin)%list_elem_of_fmap.
  rewrite Forall_forall in HF. specialize (HF e Hin). cbn in HF. rewrite He in HF.
  by apply (irreflexivity key_lt e.1).
Qed.

Lemma contents_middle ma mi mb k :
  Forall (fun e : entry => key_lt e.1 k) ma -> Forall (fun e : entry => key_lt k e.1) mb ->
  contents (ma ++ mi ++ mb) !! k = contents mi !! k.
Proof.
  intros Ha Hb. unfold contents. rewrite !list_to_map_app, lookup_union_r by (by apply contents_below).
  rewrite lookup_union. pose proof (contents_above mb k Hb) as E. unfold contents in E. rewrite E.
  apply right_id, _.
Qed.

(** The first entry with a key is the map's entry. *)
Lemma contents_first m k :
  contents m !! k = match list_find (fun e : entry => e.1 = k) m with Some (_, e) => Some e.2 | None => None end.
Proof.
  unfold contents. induction m as [|[k' v'] m IH]; [done|]. cbn [list_to_map foldr list_find fst snd].
  destruct (decide (k' = k)) as [->|Hne]; [by rewrite lookup_insert_eq|].
  rewrite lookup_insert_ne by done. change (foldr _ _ _) with (list_to_map (M := gmap (list Z) (list Z)) m).
  rewrite IH. by destruct (list_find _ m) as [[]|].
Qed.

Lemma first_index_key (k : list Z) (m : list entry) :
  match contents m !! k with
  | Some v => rd m (first_index (fun x => x = k) (-1) (map fst m)) = Some (k, v) /\
      0 <= first_index (fun x => x = k) (-1) (map fst m)
  | None => first_index (fun x => x = k) (-1) (map fst m) = -1
  end.
Proof.
  rewrite contents_first. unfold first_index. change (map fst m) with (fst <$> m). rewrite list_find_fmap.
  change (list_find ((fun x : list Z => x = k) ∘ fst) m) with (list_find (fun e : entry => e.1 = k) m).
  destruct (list_find (fun e : entry => e.1 = k) m) as [[i [k' v]]|] eqn:E.
  - cbn. apply list_find_Some in E as (Hi & Hk & _). cbn in Hk. subst k'. rewrite rd_lookup. split; [done|lia].
  - done.
Qed.

(** * The search *)

Lemma rd_map {A B} (f : A -> B) (l : list A) i : rd (map f l) i = f <$> rd l i.
Proof. unfold rd. case_decide; [|done]. change (map f l) with (f <$> l). apply list_lookup_fmap. Qed.

Lemma node_value n next prev es i v :
  node_rep n (ALeaf next prev es) -> rd (map snd es) i = Some v ->
  exists arr, rd (nd_values n) i = Some arr /\ rd (nd_value_lens n) i = Some (zlen v) /\
    slice arr 0 (zlen v) = Some v /\ zlen arr = GARRY_MAX_KEY_SIZE.
Proof.
  intros Hn Hi. destruct (holds_rd _ _ _ _ _ (nr_values _ _ Hn) Hi) as (arr & E1 & E2 & E3).
  exists arr. split; [done|]. split; [done|]. split; [done|].
  unfold rd in E1. case_decide; [|done].
  exact (Forall_lookup_1 _ _ _ _ (proj2 (na_values _ (nr_arrays _ _ Hn))) E1).
Qed.

Lemma search_spec ps h : forall pool pid m fp fuel n pins key klen k result,
  tree_at ps (pool_view pool) h pid m fp -> Forall (fun q => 0 <= q < p_next_page pool) fp ->
  ready (n + 2 * (Z.of_nat h + 1)) pins [] pool -> 0 <= n -> zlen pins < p_capacity pool ->
  p_page_size pool = ps -> slice key 0 klen = Some k -> Forall is_byte k ->
  GARRY_MAX_KEY_SIZE <= zlen result -> (h < fuel)%nat ->
  exists pool' r, garry_leaf_find_search fuel pool pid key klen result = Some (pool', r) /\
    ready n pins [] pool' /\ keeps pool pool' /\ stable pins pool pool' /\
    match contents m !! k with
    | Some v => exists res, r = Some (res, zlen v) /\ slice res 0 (zlen v) = Some v /\ zlen res = zlen result
    | None => r = None
    end.
Proof.
  induction h as [|h IH]; intros pool pid m fp fuel n pins key klen k result Ht Hfp Hr Hn Hc Hps Hk Hb Hres Hfuel;
    (destruct fuel as [|fuel]; [lia|]); cbn [tree_at] in Ht; cbn [garry_leaf_find_search].
  - destruct Ht as (-> & Hs & next & prev & Hp & Hok). apply Forall_cons in Hfp as [Hpid _].
    destruct (load_node_ready n pins pool pid (ALeaf next prev m)) as (p1 & nd & -> & Hnd & Hr1 & Hk1 & Hs1);
      [eapply ready_le; [exact Hr|lia]|done|done|done|by rewrite Hps|by eapply node_ok_wf|]. cbn [mbind option_bind].
    rewrite (nr_kind _ _ Hnd). cbn [an_kind]. rewrite decide_True by done.
    rewrite (leaf_find_spec _ _ _ _ _ Hnd Hk). cbn [mbind option_bind an_pairs].
    pose proof (first_index_key k m) as Hf. destruct (contents m !! k) as [v|] eqn:Ev.
    + destruct Hf as [Hf Hf0]. rewrite decide_False by lia.
      assert (Hv : rd (map snd m) (first_index (fun x => x = k) (-1) (map fst m)) = Some v).
      { by rewrite rd_map, Hf. }
      destruct (node_value _ _ _ _ _ _ Hnd Hv) as (arr & -> & -> & Hsl & Hza). cbn [mbind option_bind].
      unfold memcpy. rewrite (slice_all arr) by lia. cbn [mbind option_bind].
      destruct (blit_ok result 0 arr) as (res & Eres & Hzr); [lia|lia|]. rewrite Eres. cbn [mbind option_bind].
      do 2 eexists. split; [reflexivity|]. split; [done|]. split; [done|]. split; [done|].
      exists res. split; [done|]. split; [|done]. pose proof (slice_is_Some _ _ _ _ Hsl) as (_ & ? & ? & _).
      rewrite <- Hsl. apply (slice_within res arr (zlen arr)); [exact (slice_blit _ _ _ _ Eres)|lia|lia|lia].
    + rewrite Hf, decide_True by lia. exists p1, None. split; [reflexivity|]. split; [exact Hr1|]. split; [exact Hk1|]. split; [exact Hs1|reflexivity].
  - destruct Ht as (next & prev & ks & cs & fps & -> & Hne & [Hp Hok] & Hfor). apply Forall_cons in Hfp as [Hpid Hfps].
    destruct (load_node_ready (n + 2 * (Z.of_nat h + 1)) pins pool pid (AInternal next prev ks cs))
      as (p1 & nd & -> & Hnd & Hr1 & Hk1 & Hs1);
      [eapply ready_le; [exact Hr|lia]|lia|done|done|by rewrite Hps|by eapply node_ok_wf|]. cbn [mbind option_bind].
    rewrite (nr_kind _ _ Hnd). cbn [an_kind]. rewrite (decide_False (P := GARRY_NODE_INTERNAL = GARRY_NODE_LEAF)) by done.
    rewrite decide_False by tauto. rewrite (nr_count _ _ Hnd). cbn [an_pairs]. rewrite zlen_map.
    rewrite decide_False by (destruct ks; [done|rewrite zlen_cons; pose proof (zlen_nonneg ks); lia]).
    assert (Hids : map fst (map (fun k : list Z => (k, @nil Z)) ks) = ks) by (rewrite map_map; apply map_id).
    assert (HB : Forall (Forall is_byte) ks).
    { pose proof (no_entries _ _ Hok) as He. cbn [an_pairs] in He.
      rewrite List.Forall_map in He.
      eapply Forall_impl; [exact He|]. intros x Hx. exact (eo_bytes _ _ Hx). }
    rewrite (internal_find_spec _ _ _ _ _ Hnd Hk Hb); cbn [an_pairs]; rewrite Hids; [|done].
    cbn [mbind option_bind]. rewrite zlen_map.
    destruct (forest_zoom _ k _ _ _ _ Hfor) as (c & ma & mi & mb & fa & fi & fb & -> & -> & Z).
    pose proof (nr_children _ _ Hnd) as Hch. pose proof (zo_child _ _ _ _ _ _ _ _ _ _ _ _ Z) as Hci.
    pose proof (rd_Some_range _ _ _ Hci). rewrite (rd_slice _ _ _ _ _ Hch) in Hci by lia. rewrite Z.add_0_l in Hci.
    rewrite Hci. cbn [mbind option_bind].
    apply Forall_app in Hfps as [_ Hfps]. apply Forall_app in Hfps as [Hfi _].
    pose proof (tree_frame ps (pool_view pool) (pool_view p1) h c mi fi
      (fun q _ => kp_view _ _ Hk1 q) (zo_tree _ _ _ _ _ _ _ _ _ _ _ _ Z)) as Hti.
    destruct (IH p1 c mi fi fuel n pins key klen k result Hti) as (p2 & r & -> & Hr2 & Hk2 & Hs2 & Hm); try done.
    + by rewrite (kp_next _ _ Hk1).
    + by rewrite (kp_capacity _ _ Hk1).
    + by rewrite (kp_page_size _ _ Hk1).
    + lia.
    + exists p2, r. split; [done|]. split; [done|]. split; [by transitivity p1|]. split; [by transitivity p1|].
      rewrite contents_middle; [done|apply Z|apply Z].
Qed.

(** * The chain of the leaves *)

(** The [next_page] of a page that holds a leaf. *)
Definition leaf_next (ps : Z) (view : Z -> list Z) (q : Z) : option Z :=
  nd ← load_page (view q) ps;
  if decide (nd_kind nd = GARRY_NODE_LEAF) then Some (nd_next nd) else None.

(** The leaves among the pages of a tree, with their links; the pages are in
    preorder, so the leaves are in the order of their keys. *)
Definition leaf_seq (ps : Z) (view : Z -> list Z) (fp : list Z) : list (Z * Z) :=
  omap (fun q => pair q <$> leaf_next ps view q) fp.

(** Every leaf links to the one after it, the last one to none. *)
Definition first_leaf (ls : list (Z * Z)) : Z := match ls with (q, _) :: _ => q | [] => -1 end.
Fixpoint linked (ls : list (Z * Z)) : Prop :=
  match ls with
  | [] => True
  | (_, next) :: ls => next = first_leaf ls /\ linked ls
  end.

Lemma leaf_next_leaf ps view q next prev m : node_at ps view q (ALeaf next prev m) -> leaf_next ps view q = Some next.
Proof.
  intros [Hp Hok]. destruct (load_page_spec _ _ _ Hp (node_ok_wf _ _ Hok)) as (nd & E & Hn).
  unfold leaf_next. rewrite E. cbn [mbind option_bind]. rewrite (nr_kind _ _ Hn). cbn [an_kind].
  pose proof (nr_links _ _ Hn) as Hl. cbn [an_links] in Hl. rewrite decide_True by reflexivity. by injection Hl as ->.
Qed.

Lemma leaf_next_internal ps view q next prev ks cs :
  node_at ps view q (AInternal next prev ks cs) -> leaf_next ps view q = None.
Proof.
  intros [Hp Hok]. destruct (load_page_spec _ _ _ Hp (node_ok_wf _ _ Hok)) as (nd & E & Hn).
  unfold leaf_next. rewrite E. cbn [mbind option_bind]. by rewrite (nr_kind _ _ Hn).
Qed.

Lemma leaf_seq_app ps view f1 f2 : leaf_seq ps view (f1 ++ f2) = leaf_seq ps view f1 ++ leaf_seq ps view f2.
Proof. apply omap_app. Qed.

Lemma leaf_seq_leaf ps view q f next :
  leaf_next ps view q = Some next -> leaf_seq ps view (q :: f) = (q, next) :: leaf_seq ps view f.
Proof. intros E. unfold leaf_seq. cbn. by rewrite E. Qed.

Lemma leaf_seq_internal ps view q f : leaf_next ps view q = None -> leaf_seq ps view (q :: f) = leaf_seq ps view f.
Proof. intros E. unfold leaf_seq. cbn. by rewrite E. Qed.

Lemma leaf_seq_view ps view view' fp :
  (forall q, q ∈ fp -> view' q = view q) -> leaf_seq ps view' fp = leaf_seq ps view fp.
Proof.
  induction fp as [|q fp IH]; intros Hv; [done|]. unfold leaf_seq in *. cbn.
  assert (E : leaf_next ps view' q = leaf_next ps view q) by (unfold leaf_next; by rewrite Hv by (by left)).
  rewrite E, IH; [done|]. intros x Hx. apply Hv. by right.
Qed.

(** How an insertion changes the chain: not at all, or a leaf gets a new one after it. *)
Definition relink (ls ls' : list (Z * Z)) : Prop :=
  ls' = ls \/ exists a q next new b, ls = a ++ (q, next) :: b /\ ls' = a ++ (q, new) :: (new, next) :: b.

Lemma relink_around a ls ls' b : relink ls ls' -> relink (a ++ ls ++ b) (a ++ ls' ++ b).
Proof.
  intros [->|(x & q & next & new & y & -> & ->)]; [by left|]. right. exists (a ++ x), q, next, new, (y ++ b).
  by rewrite <- !app_assoc.
Qed.

Lemma relink_linked ls ls' : relink ls ls' -> linked ls -> linked ls' /\ first_leaf ls' = first_leaf ls.
Proof.
  intros [->|(a & q & next & new & b & -> & ->)]; [done|]. induction a as [|[x nx] a IH]; cbn [app linked first_leaf].
  - intros [-> H]. split; [split; [reflexivity|by split]|reflexivity].
  - intros [-> H]. destruct (IH H) as [H1 ->]. by split.
Qed.

(** [btree h p root M]: the pages of the pool hold, under [root], a tree of height
    [h] whose entries form the map [M]. *)
Record btree (h : nat) (p : garry_buffer_pool) (root : Z) (m : list entry) (fp : list Z) : Prop := {
  bt_tree : tree_at (p_page_size p) (pool_view p) h root m fp;
  bt_nodup : NoDup fp;
  bt_pages : Forall (fun q => 0 <= q < p_next_page p) fp;
  bt_linked : linked (leaf_seq (p_page_size p) (pool_view p) fp)
}.

(** Loads of pages do not change the tree. *)
Lemma btree_keeps h p p' root m fp : keeps p p' -> btree h p root m fp -> btree h p' root m fp.
Proof.
  intros [K1 K2 K3 K4] [H1 H2 H3 H4]. split; [|done|by rewrite K3|]; rewrite K2.
  - apply (tree_frame _ (pool_view p)); [|done]. intros q _. apply K4.
  - rewrite (leaf_seq_view _ (pool_view p)); [done|]. intros q _. apply K4.
Qed.

(** C9: the search finds exactly the entries of the tree: with fuel above the
    height it ends, returns the value stored under the key, or 0 when the tree has
    no such key, and it changes neither the pages nor the pins. *)
Theorem search_correct h p root m fp fuel n pins key klen k result
  (Ht : btree h p root m fp) (Hr : ready (n + 2 * (Z.of_nat h + 1)) pins [] p) (Hn : 0 <= n)
  (Hc : zlen pins < p_capacity p) (Hk : slice key 0 klen = Some k) (Hb : Forall is_byte k)
  (Hres : GARRY_MAX_KEY_SIZE <= zlen result) (Hfuel : (h < fuel)%nat) :
  exists p' r, garry_leaf_find_search fuel p root key klen result = Some (p', r) /\
    ready n pins [] p' /\ keeps p p' /\ btree h p' root m fp /\
    match contents m !! k with
    | Some v => exists res, r = Some (res, zlen v) /\ slice res 0 (zlen v) = Some v
    | None => r = None
    end.
Proof.
  pose proof Ht as [H1 _ H3 _].
  destruct (search_spec _ h p root m fp fuel n pins key klen k result H1 H3 Hr Hn Hc eq_refl Hk Hb Hres Hfuel)
    as (p' & r & E & Hr' & Hk' & _ & Hm).
  exists p', r. split; [exact E|]. split; [exact Hr'|]. split; [exact Hk'|].
  split; [by apply (btree_keeps _ p)|].
  destruct (contents m !! k) as [v|]; [|exact Hm]. destruct Hm as (res & -> & Hs & _). by exists res.
Qed.
