(* ===== verification/BtreeModify.v ===== *)
(** Insertion into the B-tree, [src/src/btree_modify.c]: the recursive descent, the
    splits of leaves and internal nodes, the new root, and what they do to the tree of
    pages and the links of its leaves. *)

From Stdlib Require Import Sorting.Sorted.
From stdpp Require Import gmap.
From S2P Require Import Prelude Endian KeyEncoding BtreeCompression RecordCodec SlottedPage FileIo BufferPool.
From S2P Require Import PoolClient BtreeNode NodeView BtreeSearch.

Definition GARRY_BTREE_MIN_KEYS : Z := 1.

(** * Splits *)

(** The output parameters [sep], [sep_len] and [new_child]. *)
Record split_out := Split { sp_sep : list Z; sp_len : Z; sp_new : Z }.

(** The arrays carved out of the allocated block, [n] elements each and one child
    more; [malloc] leaves them uninitialised and no element is read before it is
    written. *)
Definition tmp_arrays : garry_btree_node :=
  let n := Z.to_nat (GARRY_MAX_KEYS_PER_NODE + 1) in
  BtreeNode GARRY_NODE_LEAF (PageHeader GARRY_NODE_LEAF 0 0 0 0 0 0 0)
    (replicate n (zeros GARRY_MAX_KEY_SIZE)) (replicate n 0)
    (replicate n (zeros GARRY_MAX_KEY_SIZE)) (replicate n 0) (replicate (S n) 0) (-1) (-1) 0.

(** The first position whose key is above the new one. *)
Definition insert_position (node : garry_btree_node) (key : list Z) (klen : Z) : option Z :=
  forZ 0 (nd_count node) (fun i insert_pos =>
    if decide (insert_pos = nd_count node) then
      k ← rd (nd_keys node) i; l ← rd (nd_key_lens node) i;
      c ← garry_byte_compare key klen k l;
      Some (if decide (c < 0) then i else insert_pos)
    else Some insert_pos) (nd_count node).

(** [memcpy(sep, keys[i], sizeof(garry_byte_array)); *sep_len = lens[i];] *)
Definition promote (out : split_out) (node : garry_btree_node) (i new : Z) : option split_out :=
  k ← rd (nd_keys node) i;
  sep ← memcpy (sp_sep out) 0 k 0 GARRY_MAX_KEY_SIZE;
  l ← rd (nd_key_lens node) i;
  Some (Split sep l new).

(** [mem] tells whether [malloc] succeeds. *)
Definition leaf_split (mem : bool) (pool : garry_buffer_pool) (page : Z) (node : garry_btree_node)
    (key : list Z) (klen : Z) (value : list Z) (vlen : Z) (out : split_out)
  : option (garry_buffer_pool * garry_btree_node * split_out * bool) :=
  if negb mem then Some (pool, node, out, false) else
  let all_count := nd_count node + 1 in
  let mid := Z.quot all_count 2 in
  insert_pos ← insert_position node key klen;
  tmp ← forZ 0 insert_pos (fun i tmp => move_entry tmp i node i) tmp_arrays;
  tmp ← put_key tmp insert_pos key klen;
  tmp ← put_value tmp insert_pos value vlen;
  tmp ← forZ insert_pos (nd_count node) (fun i tmp => move_entry tmp (i + 1) node i) tmp;
  '(pool, right_page) ← garry_allocate_leaf pool;
  if decide (right_page < 0) then Some (pool, node, out, false) else
  '(pool, right_node) ← garry_load_node pool right_page;
  let right_node := set_count (set_kind right_node GARRY_NODE_LEAF (nd_header right_node)) (all_count - mid) in
  right_node ← forZ 0 (nd_count right_node) (fun i right_node => move_entry right_node i tmp (mid + i)) right_node;
  let node := set_count node mid in
  node ← forZ 0 (nd_count node) (fun i node => move_entry node i tmp i) node;
  let right_node := set_links right_node (nd_next node) (nd_prev right_node) in
  let node := set_links node right_page (nd_prev node) in
  let right_node := set_links right_node (nd_next right_node) page in
  out ← promote out right_node 0 right_page;
  pool ← garry_pool_mark_dirty pool page;
  pool ← garry_store_node pool right_page right_node;
  pool ← garry_store_node pool page node;
  Some (pool, node, out, true).

Definition internal_split (mem : bool) (pool : garry_buffer_pool) (page : Z) (node : garry_btree_node)
    (insert_idx : Z) (insert_key : list Z) (insert_klen insert_child : Z) (out : split_out)
  : option (garry_buffer_pool * garry_btree_node * split_out * bool) :=
  if negb mem then Some (pool, node, out, false) else
  let all_count := nd_count node + 1 in
  let mid := Z.quot all_count 2 in
  tmp ← forZ 0 insert_idx (fun i tmp => tmp ← move_key tmp i node i; move_child tmp i node i) tmp_arrays;
  keys ← put_array (nd_keys tmp) insert_idx insert_key GARRY_MAX_KEY_SIZE;
  lens ← wr (nd_key_lens tmp) insert_idx insert_klen;
  let tmp := set_keys tmp keys lens in
  tmp ← move_child tmp insert_idx node insert_idx;
  cs ← wr (nd_children tmp) (insert_idx + 1) insert_child;
  let tmp := set_children tmp cs in
  tmp ← forZ (insert_idx + 1) (nd_count node + 1) (fun i tmp =>
          tmp ← move_key tmp i node (i - 1); move_child tmp (i + 1) node i) tmp;
  '(pool, right_page) ← garry_allocate_internal pool;
  if decide (right_page < 0) then Some (pool, node, out, false) else
  '(pool, right_node) ← garry_load_node pool right_page;
  let hdr := PageHeader GARRY_NODE_INTERNAL (page_level (nd_header node)) 0 0 0 0 0 0 in
  let right_node := set_kind right_node GARRY_NODE_INTERNAL hdr in
  let left_count := mid in
  let right_count := all_count - mid - 1 in
  let right_node := set_links (set_count right_node right_count) (nd_next node) page in
  right_node ← forZ 0 (nd_count right_node) (fun i right_node => move_key right_node i tmp (mid + 1 + i)) right_node;
  right_node ← forZ 0 (nd_count right_node + 1) (fun i right_node => move_child right_node i tmp (mid + 1 + i)) right_node;
  let node := set_count node left_count in
  node ← forZ 0 (nd_count node) (fun i node => move_key node i tmp i) node;
  node ← forZ 0 (nd_count node + 1) (fun i node => move_child node i tmp i) node;
  let node := set_links node right_page (nd_prev node) in
  out ← promote out tmp mid right_page;
  pool ← garry_store_node pool right_page right_node;
  pool ← garry_store_node pool page node;
  pool ← garry_pool_mark_dirty pool right_page;
  pool ← garry_pool_mark_dirty pool page;
  Some (pool, node, out, true).

(** * Insertion *)

(** Linking a new child after position [idx] of a node that has room. *)
Definition link_child (node : garry_btree_node) (idx : Z) (sep : list Z) (sep_len child : Z)
  : option garry_btree_node :=
  '(node, _) ← while (Z.to_nat (nd_count node)) (fun st : garry_btree_node * Z => bool_decide (st.2 > idx))
    (fun st => let '(node, i) := st in
       node ← move_key node i node (i - 1); node ← move_child node (i + 1) node i; Some (node, i - 1))
    (node, nd_count node);
  keys ← put_array (nd_keys node) idx sep GARRY_MAX_KEY_SIZE;
  lens ← wr (nd_key_lens node) idx sep_len;
  cs ← wr (nd_children node) (idx + 1) child;
  Some (set_count (set_children (set_keys node keys lens) cs) (nd_count node + 1)).

(** The position in a leaf with room: the scan runs from the last key down and
    stops at the first key, from the right, above the new one. *)
Definition leaf_position (node : garry_btree_node) (key : list Z) (klen : Z) : option Z :=
  '(_, idx) ← while (Z.to_nat (nd_count node))
    (fun st : Z * Z => bool_decide (st.1 >= 0 /\ st.2 = nd_count node))
    (fun st => let '(i, idx) := st in
       k ← rd (nd_keys node) i; l ← rd (nd_key_lens node) i;
       c ← garry_byte_compare key klen k l;
       Some (i - 1, if decide (c < 0) then i else idx))
    (nd_count node - 1, nd_count node);
  Some idx.

(** The leaf case. *)
Definition insert_leaf (mem : bool) (pool : garry_buffer_pool) (page : Z) (node : garry_btree_node)
    (key : list Z) (klen : Z) (value : list Z) (vlen : Z) (out : split_out)
  : option (garry_buffer_pool * split_out * bool) :=
  idx ← garry_leaf_find node key klen;
  if decide (idx >= 0) then
    node ← put_key node idx key klen;
    node ← put_value node idx value vlen;
    pool ← garry_store_node pool page node;
    pool ← garry_pool_mark_dirty pool page;
    Some (pool, out, true)
  else if decide (nd_count node < GARRY_MAX_KEYS_PER_NODE - 1) then
    idx ← leaf_position node key klen;
    '(node, inserted) ← garry_leaf_insert node key klen value vlen idx;
    pool ← garry_store_node pool page node;
    pool ← garry_pool_mark_dirty pool page;
    Some (pool, out, inserted)
  else
    '(pool, node, out, inserted) ← leaf_split mem pool page node key klen value vlen out;
    pool ← garry_store_node pool page node;
    Some (pool, out, inserted).

(** [mem page]: whether the [malloc] of a split of [page] succeeds; [fuel] bounds
    the descent. *)
Fixpoint btree_insert_rec (mem : Z -> bool) (fuel : nat) (pool : garry_buffer_pool) (page : Z)
    (key : list Z) (klen : Z) (value : list Z) (vlen : Z) (sep : list Z)
  : option (garry_buffer_pool * split_out * bool) :=
  match fuel with
  | O => None
  | S fuel =>
      let out := Split sep 0 (-1) in
      '(pool, node) ← garry_load_node pool page;
      if decide (nd_kind node = GARRY_NODE_LEAF) then
        insert_leaf (mem page) pool page node key klen value vlen out
      else
        idx ← garry_internal_find node key klen;
        child ← rd (nd_children node) idx;
        '(pool, child_out, inserted) ← btree_insert_rec mem fuel pool child key klen value vlen
                                          (zeros GARRY_MAX_RECORD_SIZE);
        if decide (inserted = true /\ sp_new child_out >= 0) then
          if decide (nd_count node < GARRY_MAX_KEYS_PER_NODE) then
            node ← link_child node idx (sp_sep child_out) (sp_len child_out) (sp_new child_out);
            pool ← garry_store_node pool page node;
            pool ← garry_pool_mark_dirty pool page;
            Some (pool, out, inserted)
          else
            '(pool, _, out, ok) ← internal_split (mem page) pool page node idx (sp_sep child_out)
                                    (sp_len child_out) (sp_new child_out) out;
            Some (pool, out, if ok : bool then inserted else false)
        else Some (pool, out, inserted)
  end.

(** [*root] is returned; [mem] as above. *)
Definition garry_btree_insert (mem : Z -> bool) (fuel : nat) (pool : garry_buffer_pool) (root : Z)
    (key : list Z) (klen : Z) (value : list Z) (vlen : Z) : option (garry_buffer_pool * Z * bool) :=
  '(pool, new_root_node) ← garry_load_node pool root;
  let orig_root_entries := nd_count new_root_node in
  '(pool, out, inserted) ← btree_insert_rec mem fuel pool root key klen value vlen (zeros GARRY_MAX_RECORD_SIZE);
  if decide (sp_new out >= 0) then
    '(pool, node) ← garry_load_node pool root;
    if decide (nd_count node <= orig_root_entries) then
      '(pool, new_root_page) ← garry_allocate_internal pool;
      if decide (new_root_page < 0) then Some (pool, root, false) else
      let node := set_kind node GARRY_NODE_INTERNAL (PageHeader GARRY_NODE_INTERNAL 0 0 0 0 0 0 0) in
      cs ← wr (nd_children node) 0 root;
      keys ← put_array (nd_keys node) 0 (sp_sep out) GARRY_MAX_KEY_SIZE;
      lens ← wr (nd_key_lens node) 0 (sp_len out);
      cs ← wr cs 1 (sp_new out);
      cs ← forZ 2 (GARRY_MAX_KEYS_PER_NODE + 1) (fun i cs => wr cs i 0) cs;
      let node := set_links (set_count (set_children (set_keys node keys lens) cs) 1) (-1) (-1) in
      pool ← garry_store_node pool new_root_page node;
      pool ← garry_pool_mark_dirty pool new_root_page;
      Some (pool, new_root_page, inserted)
    else Some (pool, root, inserted)
  else Some (pool, root, inserted).

(** * The specification: a sorted list with one entry added or replaced *)

Fixpoint upsert (k v : list Z) (m : list entry) : list entry :=
  match m with
  | [] => [(k, v)]
  | (k', v') :: m =>
      match lex k k' with
      | Lt => (k, v) :: (k', v') :: m
      | Eq => (k, v) :: m
      | Gt => (k', v') :: upsert k v m
      end
  end.

Lemma contents_upsert k v m : contents (upsert k v m) = <[k:=v]> (contents m).
Proof.
  unfold contents. induction m as [|[k' v'] m IH]; [done|]. cbn [upsert].
  destruct (lex k k') eqn:E; cbn [list_to_map foldr fst snd].
  - apply lex_eq in E as ->. by rewrite insert_insert_eq.
  - done.
  - change (foldr _ _ (upsert k v m)) with (list_to_map (M := gmap (list Z) (list Z)) (upsert k v m)).
    rewrite IH. apply insert_insert_ne. intros ->. by rewrite lex_refl in E.
Qed.

Lemma upsert_some k v m : upsert k v m <> [].
Proof. destruct m as [|[k' v'] m]; [done|]. cbn. by destruct (lex k k'). Qed.

Lemma upsert_covered k v m : Forall (fun e => e ∈ m \/ e.1 = k) (upsert k v m).
Proof.
  induction m as [|[k' v'] m IH]; cbn [upsert]; [repeat constructor; by right|].
  assert (Hm : Forall (fun e : entry => e ∈ (k', v') :: m \/ e.1 = k) m).
  { apply Forall_forall. intros e He. left. by right. }
  destruct (lex k k').
  - constructor; [by right|done].
  - constructor; [by right|]. constructor; [left; by left|done].
  - constructor; [left; by left|]. eapply Forall_impl; [exact IH|]. intros e [He|He]; [left; by right|by right].
Qed.

Lemma lex_gt a b : lex a b = Gt <-> key_lt b a.
Proof. unfold key_lt. rewrite (lex_antisym a b). by destruct (lex a b). Qed.

Lemma upsert_sorted k v m : sorted m -> sorted (upsert k v m).
Proof.
  induction 1 as [|[k' v'] m Hs IH Hk]; cbn [upsert]; [by repeat constructor|].
  destruct (lex k k') eqn:E.
  - apply lex_eq in E as <-. by constructor.
  - constructor; [by constructor|]. constructor; [done|]. eapply Forall_impl; [exact Hk|]. intros e He. by transitivity k'.
  - apply lex_gt in E. constructor; [exact IH|]. rewrite Forall_forall in Hk |- *. intros e He.
    pose proof (upsert_covered k v m) as Hc. rewrite Forall_forall in Hc. destruct (Hc e He) as [Hin|He1]; [by apply Hk|].
    by rewrite He1.
Qed.

Lemma upsert_middle k v ma mi mb :
  Forall (fun e : entry => key_lt e.1 k) ma -> Forall (fun e : entry => key_lt k e.1) mb ->
  upsert k v (ma ++ mi ++ mb) = ma ++ upsert k v mi ++ mb.
Proof.
  intros Ha Hb. induction Ha as [|[k' v'] ma Hk Ha IH]; cbn [app upsert fst] in *.
  - induction mi as [|[k' v'] mi IHi]; cbn [app upsert].
    + destruct mb as [|[k' v'] mb]; [done|]. apply Forall_cons in Hb as [Hk _]. cbn in Hk. unfold key_lt in Hk.
      cbn [upsert]. by rewrite Hk.
    + destruct (lex k k'); [done|done|]. by rewrite IHi.
  - apply lex_gt in Hk. by rewrite Hk, IH.
Qed.

(** A new key goes before the first key above it. *)
Lemma upsert_new k v m :
  first_index (fun x => x = k) (-1) (map fst m) = -1 ->
  upsert k v m = put_at (first_index (fun x => key_lt k x) (zlen m) (map fst m)) (k, v) m.
Proof.
  intros Hn. destruct (first_index_range (fun x => x = k) (-1) (map fst m)) as [(x & Hx & _)|[_ HF]].
  { rewrite Hn in Hx. apply rd_Some_range in Hx. lia. }
  clear Hn. rewrite <- (zlen_map fst m). induction m as [|[k' v'] m IH]; [done|].
  apply Forall_cons in HF as [Hne HF]. cbn [map fst] in *. rewrite first_index_cons. cbn [upsert].
  destruct (decide (key_lt k k')) as [Hlt|Hge].
  - unfold key_lt in Hlt. by rewrite Hlt, put_at_0.
  - destruct (lex k k') eqn:E; [apply lex_eq in E; congruence|done|].
    rewrite put_at_cons by apply first_index_bound. by rewrite IH.
Qed.

(** An existing key keeps its place. *)
Lemma upsert_found k v m i :
  sorted m -> rd (map fst m) i = Some k -> upsert k v m = <[Z.to_nat i:=(k, v)]> m.
Proof.
  intros Hs. revert i. induction Hs as [|[k' v'] m Hs IH Hk]; intros i Hi.
  { apply rd_Some_range in Hi. change (zlen (map fst [])) with 0 in Hi. lia. }
  pose proof (rd_Some_range _ _ _ Hi) as Hr. cbn [map fst] in Hi. cbn [upsert].
  destruct (decide (i = 0)) as [->|Hne].
  - rewrite rd_cons_0 in Hi. injection Hi as ->. by rewrite lex_refl.
  - rewrite rd_cons_S in Hi by lia. assert (Hlt : key_lt k' k).
    { rewrite rd_map in Hi. destruct (rd m (i - 1)) as [e|] eqn:Ee; [|done]. injection Hi as <-.
      unfold rd in Ee. case_decide; [|done]. exact (Forall_lookup_1 _ _ _ _ Hk Ee). }
    apply lex_gt in Hlt. rewrite Hlt, (IH (i - 1)) by done.
    replace (Z.to_nat i) with (S (Z.to_nat (i - 1))) by lia. done.
Qed.

(** * Positions in a node *)

(** The comparison of the new key with key [i] of the node. *)
Lemma compare_key n a i x key klen k :
  node_rep n a -> rd (map fst (an_pairs a)) i = Some x -> slice key 0 klen = Some k -> Forall is_byte k ->
  Forall (Forall is_byte) (map fst (an_pairs a)) ->
  (kk ← rd (nd_keys n) i; l ← rd (nd_key_lens n) i; garry_byte_compare key klen kk l) = Some (cmpZ (lex k x)).
Proof.
  intros Hn Hx Hk Hb HB. destruct (node_key _ _ _ _ Hn Hx) as (arr & -> & -> & Hs). cbn [mbind option_bind].
  apply byte_compare_lex; [done|done|done|]. unfold rd in Hx. case_decide; [|done]. exact (Forall_lookup_1 _ _ _ _ HB Hx).
Qed.

Lemma cmp_below k x i (d : Z) : (if decide (cmpZ (lex k x) < 0) then i else d) = (if decide (key_lt k x) then i else d).
Proof.
  destruct (decide (key_lt k x)) as [Hlt|Hlt]; unfold key_lt in Hlt; [by rewrite Hlt|]. by destruct (lex k x).
Qed.

Lemma leaf_position_spec n a key klen k :
  node_rep n a -> zlen (an_pairs a) <= 1 -> slice key 0 klen = Some k -> Forall is_byte k ->
  Forall (Forall is_byte) (map fst (an_pairs a)) ->
  leaf_position n key klen = Some (first_index (fun x => key_lt k x) (zlen (an_pairs a)) (map fst (an_pairs a))).
Proof.
  intros Hn Hl Hk Hb HB. unfold leaf_position. pose proof (nr_count _ _ Hn) as Hc. rewrite Hc.
  pose proof (compare_key n a 0) as Hcmp.
  destruct (an_pairs a) as [|[x v] [|e es]].
  - reflexivity.
  - change (zlen [(x, v)]) with 1. change (Z.to_nat 1) with 1%nat. cbn [while fst snd]. change (1 - 1) with 0.
    specialize (Hcmp x key klen k Hn eq_refl Hk Hb HB).
    destruct (rd (nd_keys n) 0) as [kk|]; [|done]. destruct (rd (nd_key_lens n) 0) as [l|]; [|done].
    cbn [mbind option_bind] in *. rewrite Hcmp. cbn [mbind option_bind]. rewrite cmp_below.
    unfold first_index. cbn [map fst list_find]. by destruct (decide (key_lt k x)).
  - rewrite !zlen_cons in Hl. pose proof (zlen_nonneg es). lia.
Qed.

Lemma first_index_take {A} (P : A -> Prop) `{forall x, Decision (P x)} d (l : list A) (i : nat) x :
  l !! i = Some x ->
  first_index P d (take (S i) l) =
    if decide (Forall (fun y => ~ P y) (take i l)) then (if decide (P x) then Z.of_nat i else d)
    else first_index P d (take i l).
Proof.
  intros Hi. unfold first_index. rewrite (take_S_r _ _ _ Hi).
  pose proof (lookup_lt_Some _ _ _ Hi) as Hlt. pose proof (length_take_le l i ltac:(lia)) as Hlen.
  destruct (list_find P (take i l)) as [[j y]|] eqn:E.
  - rewrite (list_find_app_l _ _ _ _ _ E). rewrite decide_False; [done|]. intros HF. apply list_find_Some in E as (Hj & HP & _).
    exact (Forall_lookup_1 _ _ _ _ HF Hj HP).
  - rewrite (list_find_app_r _ _ _ E). apply list_find_None in E. rewrite decide_True by done. cbn [list_find].
    destruct (decide (P x)); cbn; [|done]. by rewrite Hlen.
Qed.

Lemma insert_position_spec n a key klen k :
  node_rep n a -> slice key 0 klen = Some k -> Forall is_byte k -> Forall (Forall is_byte) (map fst (an_pairs a)) ->
  insert_position n key klen = Some (first_index (fun x => key_lt k x) (zlen (an_pairs a)) (map fst (an_pairs a))).
Proof.
  intros Hn Hk Hb HB. unfold insert_position. rewrite (nr_count _ _ Hn).
  rewrite <- (zlen_map fst (an_pairs a)). set (ks := map fst (an_pairs a)) in *.
  edestruct (forZ_inv (fun i pos => pos = first_index (fun x => key_lt k x) (zlen ks) (take (Z.to_nat i) ks))
    0 (zlen ks)) as (pos & E & Hp); [apply zlen_nonneg|reflexivity| |].
  2: { rewrite E, Hp. by rewrite take_ge by (unfold zlen; lia). }
  intros i pos Hi ->. destruct (rd_is_Some ks i) as [x Hx]; [lia|].
  replace (Z.to_nat (i + 1)) with (S (Z.to_nat i)) by lia. rewrite (first_index_take _ _ _ _ x).
  2: { unfold rd in Hx. by rewrite decide_True in Hx by lia. }
  destruct (first_index_range (fun x => key_lt k x) (zlen ks) (take (Z.to_nat i) ks)) as [(y & Hy & HP & _)|[-> HF]].
  - pose proof (rd_Some_range _ _ _ Hy) as Hr.
    assert (zlen (take (Z.to_nat i) ks) <= i) by (unfold zlen; rewrite length_take; lia).
    rewrite decide_False by lia. rewrite decide_False; [by eexists|].
    intros HF. unfold rd in Hy. case_decide; [|done]. exact (Forall_lookup_1 _ _ _ _ HF Hy HP).
  - rewrite decide_True by done. rewrite (decide_True (P := Forall _ _)) by done.
    pose proof (compare_key n a i x key klen k Hn Hx Hk Hb HB) as Hcmp.
    destruct (rd (nd_keys n) i) as [kk|]; [|done]. destruct (rd (nd_key_lens n) i) as [l|]; [|done].
    cbn [mbind option_bind] in *. rewrite Hcmp. cbn [mbind option_bind]. rewrite cmp_below.
    eexists. split; [reflexivity|]. replace (Z.of_nat (Z.to_nat i)) with i by lia. reflexivity.
Qed.

(** * Effects on the pages *)

(** An operation that writes only the pages [W], and pages it allocates. *)
Record writes (W : list Z) (p p' : garry_buffer_pool) : Prop := {
  ws_capacity : p_capacity p' = p_capacity p;
  ws_page_size : p_page_size p' = p_page_size p;
  ws_next : p_next_page p <= p_next_page p';
  ws_view : forall q, q < p_next_page p -> (q ∉ W) -> pool_view p' q = pool_view p q
}.

Lemma writes_trans W W' p p1 p2 :
  writes W p p1 -> writes W' p1 p2 -> (forall q, q ∈ W' -> q ∈ W \/ p_next_page p <= q) -> writes W p p2.
Proof.
  intros [A1 A2 A3 A4] [B1 B2 B3 B4] HW. split; [congruence|congruence|lia|].
  intros q Hq Hn. rewrite B4; [by apply A4|lia|]. intros Hin. destruct (HW q Hin); [done|lia].
Qed.

Lemma keeps_writes W p p' : keeps p p' -> writes W p p'.
Proof. intros [K1 K2 K3 K4]. split; [done|done|lia|]. intros q _ _. apply K4. Qed.

Lemma updates_writes W pid b p p' : updates pid b p p' -> pid ∈ W -> writes W p p'.
Proof.
  intros [K1 K2 K3 K4] Hin. split; [done|done|lia|]. intros q _ Hq. rewrite K4, decide_False; [done|]. by intros ->.
Qed.

Lemma fresh_writes W kind p p' : fresh_node kind p p' -> writes W p p'.
Proof. intros [F1 F2 F3 F4 _ _ _]. split; [done|done|lia|]. intros q Hq _. apply F4. lia. Qed.

(** Page sizes that hold a node. *)
Definition page_size_ok (ps : Z) : Prop :=
  GARRY_PAGE_HEADER_SIZE + 4 * GARRY_SLOT_SIZE + 31 <= ps <= GARRY_MAX_PAGE_SIZE.

(** Storing a node. *)
Lemma store_at_ready n pins p pid nd a :
  ready (n + 2) pins [] p -> 0 <= n -> zlen pins < p_capacity p -> 0 <= pid < p_next_page p ->
  node_rep nd a -> node_ok (p_page_size p) a -> page_size_ok (p_page_size p) ->
  exists p', garry_store_node p pid nd = Some p' /\ ready n pins [] p' /\ writes [pid] p p' /\
    node_at (p_page_size p) (pool_view p') pid a /\ stable pins p p' /\ p_next_page p' = p_next_page p /\
    (forall q, q <> pid -> pool_view p' q = pool_view p q).
Proof.
  intros Hr Hn Hc Hp Hnd Hok [Hps1 Hps2].
  destruct (store_node_ready n pins p pid nd a Hr Hn Hc Hp Hnd (node_ok_wf _ _ Hok) (node_ok_fits _ _ Hok Hps1) Hps2)
    as (p' & b & E & Hr' & Hu & Hb & Hs).
  exists p'. split; [exact E|]. split; [exact Hr'|]. split; [eapply updates_writes; [exact Hu|by left]|].
  split; [split; [|exact Hok]; by rewrite (up_view _ _ _ _ Hu), decide_True|]. split; [exact Hs|].
  split; [by apply Hu|]. intros q Hq. by rewrite (up_view _ _ _ _ Hu), decide_False.
Qed.

Lemma load_at_ready n pins p pid a :
  ready (n + 2) pins [] p -> 0 <= n -> zlen pins < p_capacity p -> 0 <= pid < p_next_page p ->
  node_at (p_page_size p) (pool_view p) pid a ->
  exists p' nd, garry_load_node p pid = Some (p', nd) /\ node_rep nd a /\ ready n pins [] p' /\
    keeps p p' /\ stable pins p p'.
Proof. intros Hr Hn Hc Hp [Ha Hok]. apply load_node_ready; try done. by eapply node_ok_wf. Qed.

Lemma node_at_view ps view view' pid a : view' pid = view pid -> node_at ps view pid a -> node_at ps view' pid a.
Proof. intros E [H1 H2]. split; [by rewrite E|done]. Qed.

(** * The pieces of a split *)

Lemma tmp_view : node_view tmp_arrays (replicate 4 []) (replicate 4 []).
Proof. split; repeat constructor. Qed.

Lemma blank_view kind hdr : node_view (set_kind blank_node kind hdr) (replicate 3 []) (replicate 3 []).
Proof. split; repeat constructor. Qed.

(** Filling an array with [l] and a new element at [pos], in three writes. *)
Lemma fill_put {A} (T arr l : list A) x c pos :
  slice arr 0 c = Some l -> 0 <= pos <= c -> c + 1 <= zlen T ->
  exists p s T1 T2 T3, slice arr 0 pos = Some p /\ slice arr pos (c - pos) = Some s /\
    blit T 0 p = Some T1 /\ blit T1 pos [x] = Some T2 /\ blit T2 (pos + 1) s = Some T3 /\
    slice T3 0 (c + 1) = Some (put_at pos x l) /\ zlen T1 = zlen T /\ zlen T2 = zlen T /\ zlen T3 = zlen T.
Proof.
  intros Hl Hpos HT. pose proof (slice_is_Some _ _ _ _ Hl) as (_ & _ & _ & Hz).
  destruct (slice_parts l pos) as [E1 E2]; [lia|]. rewrite Hz in E2.
  set (p := take (Z.to_nat pos) l) in *. set (s := drop (Z.to_nat pos) l) in *.
  pose proof (slice_is_Some _ _ _ _ E1) as (_ & _ & _ & Hzp). pose proof (slice_is_Some _ _ _ _ E2) as (_ & _ & _ & Hzs).
  destruct (blit_ok T 0 p) as (T1 & B1 & Z1); [lia..|].
  destruct (blit_ok T1 pos [x]) as (T2 & B2 & Z2); [lia|change (zlen [x]) with 1; lia|].
  destruct (blit_ok T2 (pos + 1) s) as (T3 & B3 & Z3); [lia..|].
  exists p, s, T1, T2, T3. rewrite !(slice_within arr l c) by (exact Hl || lia).
  split; [done|]. split; [done|]. split; [done|]. split; [done|]. split; [done|]. split; [|split; [lia|split; lia]].
  assert (B12 : blit T 0 (p ++ [x]) = Some T2) by (apply (blit_after _ T1 _ _ _ pos); [done|done|lia]).
  assert (B123 : blit T 0 ((p ++ [x]) ++ s) = Some T3).
  { apply (blit_after _ T2 _ _ _ (pos + 1)); [done|done|]. rewrite zlen_app. change (zlen [x]) with 1. lia. }
  apply slice_blit in B123. unfold put_at. fold p s. rewrite app_assoc. rewrite <- B123. f_equal.
  rewrite !zlen_app. change (zlen [x]) with 1. lia.
Qed.

(** The beginning of an array overwritten with a segment of another. *)
Lemma take_seg {A} (R arr l seg : list A) c s len :
  slice arr 0 c = Some l -> 0 <= s -> 0 <= len -> s + len <= c -> len <= zlen R -> slice l s len = Some seg ->
  exists R2, slice arr s len = Some seg /\ blit R 0 seg = Some R2 /\ slice R2 0 len = Some seg /\ zlen R2 = zlen R.
Proof.
  intros Hl Hs Hlen Hle HR Hseg. pose proof (slice_is_Some _ _ _ _ Hseg) as (_ & _ & _ & Hz).
  destruct (blit_ok R 0 seg) as (R2 & B & Z2); [lia..|]. exists R2.
  rewrite (slice_within arr l c) by (exact Hl || lia). split; [done|]. split; [done|]. split; [|done].
  rewrite <- Hz. by apply (slice_blit R).
Qed.

(** [sep] receives key [i]. *)
Lemma promote_spec out nd ks vs i x new :
  node_view nd ks vs -> rd ks i = Some x -> GARRY_MAX_KEY_SIZE <= zlen (sp_sep out) ->
  exists sep, promote out nd i new = Some (Split sep (zlen x) new) /\ zlen sep = zlen (sp_sep out) /\
    slice sep 0 (zlen x) = Some x.
Proof.
  intros [Hk _] Hi Hs. destruct (varr_rd _ _ _ _ _ Hk Hi) as (a & Ea & El & Hsl & Hza & Hle).
  unfold promote. rewrite Ea, El. cbn [mbind option_bind]. unfold memcpy. rewrite (slice_all a) by lia.
  cbn [mbind option_bind]. destruct (blit_ok (sp_sep out) 0 a) as (sep & E & Hz); [lia..|]. rewrite E.
  cbn [mbind option_bind]. exists sep. split; [done|]. split; [done|].
  pose proof (zlen_nonneg x). rewrite (slice_within sep a (zlen a)); [exact Hsl|exact (slice_blit _ _ _ _ E)|lia|lia|lia].
Qed.

(** The block of [leaf_split] receives all entries, the new one in its place. *)
Lemma leaf_tmp_spec node next prev es key klen k value vlen v pos :
  node_rep node (ALeaf next prev es) -> zlen es <= GARRY_MAX_KEYS_PER_NODE -> 0 <= pos <= zlen es ->
  slice key 0 klen = Some k -> slice value 0 vlen = Some v ->
  klen <= GARRY_MAX_KEY_SIZE -> vlen <= GARRY_MAX_KEY_SIZE ->
  exists t1 t2 t3 t4 kt vt,
    forZ 0 pos (fun i tmp => move_entry tmp i node i) tmp_arrays = Some t1 /\
    put_key t1 pos key klen = Some t2 /\ put_value t2 pos value vlen = Some t3 /\
    forZ pos (zlen es) (fun i tmp => move_entry tmp (i + 1) node i) t3 = Some t4 /\
    node_view t4 kt vt /\ slice kt 0 (zlen es + 1) = Some (map fst (put_at pos (k, v) es)) /\
    slice vt 0 (zlen es + 1) = Some (map snd (put_at pos (k, v) es)).
Proof.
  intros Hn Hl Hp Hk Hv Hkl Hvl. destruct (rep_view _ _ Hn) as (ks & vs & Hw & Zk & Zv & Sk & Sv).
  cbn [an_pairs] in Sk. rewrite zlen_map in Sk, Sv. unfold GARRY_MAX_KEYS_PER_NODE in Hl.
  assert (Z4 : zlen (replicate 4 (@nil Z)) = 4) by done.
  destruct (fill_put (replicate 4 []) ks _ k (zlen es) pos Sk Hp) as (pk & sk & K1 & K2 & K3 & A1 & A2 & A3 & A4 & A5 & A6 & A7 & A8 & A9); [lia|].
  destruct (fill_put (replicate 4 []) vs _ v (zlen es) pos Sv Hp) as (pv & sv & V1 & V2 & V3 & B1 & B2 & B3 & B4 & B5 & B6 & B7 & B8 & B9); [lia|].
  destruct (copy_entries_loop tmp_arrays node _ _ ks vs 0 pos 0 0 pk pv K1 V1 (fun i => i) (fun i => i) tmp_view Hw)
    as (t1 & E1 & C1); [lia|by rewrite Z.sub_0_r|by rewrite Z.sub_0_r|done|done|intros; lia|intros; lia|].
  destruct (put_key_view t1 K1 V1 pos key klen k (becomes_view _ _ _ _ _ C1) Hk Hkl) as (t2 & K2' & E2 & F2 & C2); [lia|].
  rewrite A4 in F2. injection F2 as <-.
  destruct (put_value_view t2 K2 V1 pos value vlen v (becomes_view _ _ _ _ _ C2) Hv Hvl) as (t3 & V2' & E3 & F3 & C3); [lia|].
  rewrite B4 in F3. injection F3 as <-.
  destruct (copy_entries_loop t3 node K2 V2 ks vs pos (zlen es) (pos + 1) pos sk sv K3 V3 (fun i => i + 1) (fun i => i)
    (becomes_view _ _ _ _ _ C3) Hw) as (t4 & E4 & C4); [lia|done|done|done|done|intros; lia|intros; lia|].
  exists t1, t2, t3, t4, K3, V3. split; [exact E1|]. split; [exact E2|]. split; [exact E3|]. split; [exact E4|].
  split; [exact (becomes_view _ _ _ _ _ C4)|]. rewrite !map_put_at. by split.
Qed.

(** Entries of the block copied to the beginning of a node. *)
Lemma take_entries nd ks vs tmp kt vt (all seg : list entry) c s len (g : Z -> Z) :
  node_view nd ks vs -> zlen ks = 3 -> zlen vs = 3 -> node_view tmp kt vt ->
  slice kt 0 c = Some (map fst all) -> slice vt 0 c = Some (map snd all) ->
  slice all s len = Some seg -> 0 <= s -> s + len <= c -> len <= 3 -> (forall i, g i = s + i) ->
  exists nd' ks2 vs2, forZ 0 len (fun i t => move_entry t i tmp (g i)) nd = Some nd' /\
    becomes nd nd' ks2 vs2 (nd_children nd) /\ zlen ks2 = 3 /\ zlen vs2 = 3 /\
    slice ks2 0 len = Some (map fst seg) /\ slice vs2 0 len = Some (map snd seg).
Proof.
  intros Hn Zk Zv Ht Hk Hv Hseg Hs Hc Hl Hg. pose proof (slice_is_Some _ _ _ _ Hseg) as (_ & Hl0 & _ & _).
  destruct (take_seg ks kt _ (map fst seg) c s len Hk) as (ks2 & A1 & A2 & A3 & A4); [lia..|by apply slice_map|].
  destruct (take_seg vs vt _ (map snd seg) c s len Hv) as (vs2 & B1 & B2 & B3 & B4); [lia..|by apply slice_map|].
  destruct (copy_entries_loop nd tmp ks vs kt vt 0 len 0 s (map fst seg) (map snd seg) ks2 vs2 (fun i => i) g Hn Ht)
    as (nd' & E & C); [lia|by rewrite Z.sub_0_r|by rewrite Z.sub_0_r|done|done|intros; lia|intros; rewrite Hg; lia|].
  exists nd', ks2, vs2. split; [exact E|]. split; [exact C|]. split; [lia|]. split; [lia|]. by split.
Qed.

(** A node that holds a list of entries is a leaf. *)
Lemma view_leaf nd ks vs es next prev :
  node_view nd ks vs -> zlen ks = 3 -> zlen vs = 3 -> zlen (nd_children nd) = 4 ->
  slice ks 0 (zlen es) = Some (map fst es) -> slice vs 0 (zlen es) = Some (map snd es) ->
  nd_kind nd = GARRY_NODE_LEAF -> nd_next nd = next -> nd_prev nd = prev -> nd_count nd = zlen es ->
  node_rep nd (ALeaf next prev es).
Proof.
  intros Hw Zk Zv Zc Hk Hv H1 <- <- H4. apply (view_rep nd ks vs); try done; cbn [an_pairs]; by rewrite zlen_map.
Qed.

Lemma put_at_Permutation {A} i (x : A) l : put_at i x l ≡ₚ x :: l.
Proof. unfold put_at. cbn [app]. rewrite <- Permutation_middle, take_drop. done. Qed.

Lemma Forall_put_at {A} (P : A -> Prop) i x l : P x -> Forall P l -> Forall P (put_at i x l).
Proof. intros Hx Hl. rewrite put_at_Permutation. by constructor. Qed.

Lemma view_count n ks vs c : node_view n ks vs -> node_view (set_count n c) ks vs.
Proof. intros [H1 H2]. by split. Qed.

Lemma node_ok_leaf ps next prev es :
  id_ok next -> id_ok prev -> Forall (entry_ok ps) es -> zlen es <= GARRY_MAX_KEYS_PER_NODE ->
  node_ok ps (ALeaf next prev es).
Proof. intros. by split. Qed.

Lemma forZ_eq {S} lo hi (f g : Z -> S -> option S) s r :
  forZ lo hi f s = r -> (forall i s, f i s = g i s) -> forZ lo hi g s = r.
Proof. intros <- H. symmetry. apply forZ_ext. intros i t _. apply H. Qed.

(** What a split returns: the two halves of the entries, the separator, the pages. *)
Record did_split (pool pool' : garry_buffer_pool) (page : Z) (out out' : split_out) : Prop := {
  ds_writes : writes [page] pool pool';
  ds_next : p_next_page pool' = p_next_page pool + 1;
  ds_new : sp_new out' = p_next_page pool;
  ds_sep : zlen (sp_sep out') = zlen (sp_sep out)
}.

(** [memcpy]ing the two halves out of the block. *)
Lemma leaf_halves node right tmp next prev es rhdr kt vt all mid rp page (c := zlen all) :
  node_rep node (ALeaf next prev es) -> right = set_kind blank_node GARRY_NODE_LEAF rhdr ->
  node_view tmp kt vt -> slice kt 0 c = Some (map fst all) -> slice vt 0 c = Some (map snd all) ->
  0 < mid < c -> mid <= 3 -> c - mid <= 3 ->
  exists r' n' rks rvs, forZ 0 (c - mid) (fun i r => move_entry r i tmp (mid + i)) (set_count right (c - mid)) = Some r' /\
    forZ 0 mid (fun i n => move_entry n i tmp i) (set_count node mid) = Some n' /\
    nd_next n' = next /\ nd_prev n' = prev /\ nd_count r' = c - mid /\ nd_count n' = mid /\
    node_view r' rks rvs /\ slice rks 0 (c - mid) = Some (map fst (drop (Z.to_nat mid) all)) /\
    node_rep (set_links r' next page) (ALeaf next page (drop (Z.to_nat mid) all)) /\
    node_rep (set_links n' rp prev) (ALeaf rp prev (take (Z.to_nat mid) all)).
Proof.
  intros Hn -> Ht Hk Hv Hm Hm3 Hc3. destruct (rep_view _ _ Hn) as (ks & vs & Hw & Zk & Zv & _ & _).
  pose proof (nr_links _ _ Hn) as Hlk. cbn [an_links] in Hlk. injection Hlk as Hl1 Hl2.
  destruct (slice_parts all mid) as [E1 E2]; [unfold c in *; lia|]. fold c in E2.
  destruct (take_entries (set_count (set_kind blank_node GARRY_NODE_LEAF rhdr) (c - mid)) (replicate 3 []) (replicate 3 [])
    tmp kt vt all _ c mid (c - mid) (fun i => mid + i) (view_count _ _ _ _ (blank_view _ _)) eq_refl eq_refl Ht Hk Hv E2)
    as (r' & rk & rv & F1 & B1 & R1 & R2 & R3 & R4); [lia|lia|lia|done|].
  destruct (take_entries (set_count node mid) ks vs tmp kt vt all _ c 0 mid (fun i => i) (view_count _ _ _ _ Hw) Zk Zv Ht Hk Hv E1)
    as (n' & nk & nv & F2 & B2 & N1 & N2 & N3 & N4); [lia|lia|lia|intros; lia|].
  pose proof (becomes_meta _ _ _ _ _ B1) as (M1 & _ & M2 & M3 & M4 & M5).
  pose proof (becomes_meta _ _ _ _ _ B2) as (P1 & _ & P2 & P3 & P4 & P5).
  destruct (becomes_view _ _ _ _ _ B1) as [V1 V2]. destruct (becomes_view _ _ _ _ _ B2) as [V3 V4].
  assert (Hz1 : zlen (drop (Z.to_nat mid) all) = c - mid) by (unfold c, zlen in *; rewrite length_drop; lia).
  assert (Hz2 : zlen (take (Z.to_nat mid) all) = mid) by (unfold c, zlen in *; rewrite length_take; lia).
  exists r', n', rk, rv. split; [exact F1|]. split; [exact F2|]. split; [rewrite P2; exact Hl1|].
  split; [rewrite P3; exact Hl2|]. split; [exact M4|]. split; [exact P4|]. split; [by split|]. split; [exact R3|]. split.
  - apply (view_leaf _ rk rv); cbn [set_links nd_kind nd_next nd_prev nd_count nd_children]; try done.
    + by rewrite M5.
    + by rewrite Hz1.
    + by rewrite Hz1.
    + by rewrite Hz1.
  - apply (view_leaf _ nk nv); cbn [set_links nd_kind nd_next nd_prev nd_count nd_children]; try done.
    + rewrite P5. exact (na_children _ (nr_arrays _ _ Hn)).
    + by rewrite Hz2.
    + by rewrite Hz2.
    + rewrite P1. exact (nr_kind _ _ Hn).
    + by rewrite Hz2.
Qed.

(** The new entry of an insertion, as the caller's buffers hold it. *)
Record new_entry (ps : Z) (key : list Z) (klen : Z) (value : list Z) (vlen : Z) (k v : list Z) : Prop := {
  ne_key : slice key 0 klen = Some k;
  ne_value : slice value 0 vlen = Some v;
  ne_ok : entry_ok ps (k, v)
}.

Lemma new_entry_lens ps key klen value vlen k v :
  new_entry ps key klen value vlen k v -> klen <= GARRY_MAX_KEY_SIZE /\ vlen <= GARRY_MAX_KEY_SIZE.
Proof.
  intros [H1 H2 [H3 H4 _ _]]. unfold short, GARRY_MAX_KEY_SIZE in *. cbn in H3, H4.
  pose proof (slice_is_Some _ _ _ _ H1) as (_ & _ & _ & <-). pose proof (slice_is_Some _ _ _ _ H2) as (_ & _ & _ & <-). lia.
Qed.

Lemma entries_bytes ps (es : list entry) : Forall (entry_ok ps) es -> Forall (Forall is_byte) (map fst es).
Proof. intros H. rewrite List.Forall_map. eapply Forall_impl; [exact H|]. intros e He. apply He. Qed.

Definition id_limit : Z := 2 ^ 31 - GARRY_PAGE_ID_BIAS.

Lemma page_id_ok q : 0 <= q < id_limit -> id_ok q.
Proof. unfold id_limit, id_ok. lia. Qed.

Lemma leaf_split_spec pool page node next prev es key klen value vlen k v out n pins :
  ready (n + 9) pins [] pool -> 0 <= n -> zlen pins < p_capacity pool -> 0 <= page < p_next_page pool ->
  p_next_page pool < id_limit -> page_size_ok (p_page_size pool) ->
  node_rep node (ALeaf next prev es) -> node_ok (p_page_size pool) (ALeaf next prev es) -> 2 <= zlen es ->
  new_entry (p_page_size pool) key klen value vlen k v ->
  first_index (fun x => x = k) (-1) (map fst es) = -1 -> GARRY_MAX_KEY_SIZE <= zlen (sp_sep out) ->
  exists pool' node' out' l r,
    leaf_split true pool page node key klen value vlen out = Some (pool', node', out', true) /\
    ready n pins [] pool' /\ stable pins pool pool' /\ did_split pool pool' page out out' /\
    upsert k v es = l ++ r /\ l <> [] /\ r <> [] /\ zlen l <= 2 /\
    node_rep node' (ALeaf (sp_new out') prev l) /\
    node_at (p_page_size pool) (pool_view pool') page (ALeaf (sp_new out') prev l) /\
    node_at (p_page_size pool) (pool_view pool') (sp_new out') (ALeaf next page r) /\
    exists e, rd r 0 = Some e /\ sp_len out' = zlen e.1 /\ slice (sp_sep out') 0 (zlen e.1) = Some e.1.
Proof.
  intros Hr Hn Hc Hpage Hid Hps Hnd Hok H2 Hne Hnew Hsep. pose proof (new_entry_lens _ _ _ _ _ _ _ Hne) as [Hkl Hvl].
  destruct Hne as [Hk Hv Heok]. pose proof (no_entries _ _ Hok) as He. pose proof (no_count _ _ Hok) as Hcnt. cbn [an_pairs] in He, Hcnt.
  pose proof (upsert_new k v es Hnew) as Hup. set (pos := first_index _ (zlen es) _) in Hup.
  assert (Hpos : 0 <= pos <= zlen es) by (subst pos; rewrite <- (zlen_map fst es); apply first_index_bound).
  unfold leaf_split. cbn [negb]. rewrite (nr_count _ _ Hnd). cbn [an_pairs].
  rewrite (insert_position_spec _ _ key klen k Hnd Hk (eo_bytes _ _ Heok) (entries_bytes _ _ He)).
  cbn [mbind option_bind an_pairs]. fold pos.
  destruct (leaf_tmp_spec node next prev es key klen k value vlen v pos Hnd Hcnt Hpos Hk Hv Hkl Hvl)
    as (t1 & t2 & t3 & tmp & kt & vt & -> & E2 & E3 & E4 & Ht & Skt & Svt). cbn [mbind option_bind].
  rewrite E2. cbn [mbind option_bind]. rewrite E3. cbn [mbind option_bind]. rewrite E4. cbn [mbind option_bind].
  unfold garry_allocate_leaf. rewrite <- Hup in Skt, Svt.
  assert (Hall : zlen (upsert k v es) = zlen es + 1) by (rewrite Hup; apply zlen_put_at). rewrite <- Hall in Skt, Svt |- *.
  set (all := upsert k v es) in *. set (mid := Z.quot (zlen all) 2).
  assert (Hmid : 0 < mid < zlen all /\ mid <= 2 /\ zlen all - mid <= 2).
  { unfold mid, GARRY_MAX_KEYS_PER_NODE in *. rewrite Z.quot_div_nonneg by lia.
    pose proof (Z.div_mod (zlen all) 2 ltac:(lia)). pose proof (Z.mod_pos_bound (zlen all) 2). lia. }
  unfold id_limit, GARRY_PAGE_ID_BIAS in Hid. destruct Hps as [Hps1 Hps2].
  destruct (allocate_node_ready GARRY_NODE_LEAF (n + 6) pins pool) as (p1 & -> & Hr1 & Hf1 & Hs1);
    [eapply ready_le; [exact Hr|lia]|lia|exact Hc|lia|unfold GARRY_SLOT_SIZE in *; lia|].
  cbn [mbind option_bind]. set (R := p_next_page pool) in *. pose proof (rdy_next _ _ _ _ Hr) as HR. fold R in HR.
  rewrite decide_False by lia. destruct Hf1 as [F1 F2 F3 F4 F5 F6 F7]. fold R in F3, F4, F5, F6, F7.
  destruct (load_fresh_ready GARRY_NODE_LEAF (n + 4) pins p1 R) as (p2 & rhdr & -> & Hr2 & Hk2 & Hs2);
    [eapply ready_le; [exact Hr1|lia]|lia|lia|lia|by rewrite F2|exact F6|exact F7|].
  cbn [mbind option_bind]. change (kind_of_type _) with GARRY_NODE_LEAF.
  set (right := set_kind (set_kind blank_node _ rhdr) _ _).
  destruct (leaf_halves node right tmp next prev es rhdr kt vt all mid R page) as
    (r' & n' & rks & rvs & L1 & L2 & L3 & L4 & L5 & L6 & L7 & L8 & L9 & L10); try done; try lia.
  cbn [nd_count set_count]. rewrite L1. cbn [mbind option_bind]. rewrite L2. cbn [mbind option_bind].
  rewrite L3, L4. cbn [nd_next set_links nd_prev].
  change (set_links (set_links r' _ _) _ page) with (set_links r' next page).
  destruct (rd_is_Some (drop (Z.to_nat mid) all) 0) as [e He0]; [unfold zlen in *; rewrite length_drop; lia|].
  assert (Hk0 : rd rks 0 = Some e.1).
  { pose proof (rd_slice _ _ _ _ 0 L8 ltac:(lia)) as Hx. rewrite rd_map, He0 in Hx. by symmetry. }
  assert (L7' : node_view (set_links r' next page) rks rvs) by (destruct L7; by split).
  destruct (promote_spec out _ rks rvs 0 e.1 R L7' Hk0 Hsep) as (sep & -> & Hzs & Hsl). cbn [mbind option_bind].
  assert (Hp2 : p_next_page p2 = R + 1) by (by rewrite (kp_next _ _ Hk2)).
  destruct (mark_dirty_any (n + 4) pins [] p2 page Hr2) as (p3 & -> & Hr3 & Hk3 & Hs3); [lia|apply not_elem_of_nil|].
  cbn [mbind option_bind].
  assert (Eall : Forall (entry_ok (p_page_size pool)) all) by (rewrite Hup; by apply Forall_put_at).
  assert (HidR : id_ok R) by (apply page_id_ok; unfold id_limit, GARRY_PAGE_ID_BIAS; lia).
  assert (HidP : id_ok page) by (apply page_id_ok; unfold id_limit, GARRY_PAGE_ID_BIAS; lia).
  assert (Q3 : p_page_size p3 = p_page_size pool) by (by rewrite (kp_page_size _ _ Hk3), (kp_page_size _ _ Hk2)).
  assert (C3 : p_capacity p3 = p_capacity pool) by (by rewrite (kp_capacity _ _ Hk3), (kp_capacity _ _ Hk2)).
  assert (N3 : p_next_page p3 = R + 1) by (by rewrite (kp_next _ _ Hk3)).
  assert (Hzd : zlen (drop (Z.to_nat mid) all) = zlen all - mid) by (unfold zlen in *; rewrite length_drop; lia).
  assert (Hzt : zlen (take (Z.to_nat mid) all) = mid) by (unfold zlen in *; rewrite length_take; lia).
  assert (OkR : node_ok (p_page_size pool) (ALeaf next page (drop (Z.to_nat mid) all))).
  { apply node_ok_leaf; [apply Hok|done|by apply Forall_drop|unfold GARRY_MAX_KEYS_PER_NODE; lia]. }
  assert (OkL : node_ok (p_page_size pool) (ALeaf R prev (take (Z.to_nat mid) all))).
  { apply node_ok_leaf; [done|apply Hok|by apply Forall_take|unfold GARRY_MAX_KEYS_PER_NODE; lia]. }
  destruct (store_at_ready (n + 2) pins p3 R (set_links r' next page) (ALeaf next page (drop (Z.to_nat mid) all)))
    as (p4 & E5 & Hr4 & Hw4 & Ha4 & Hs4 & N4 & V4);
    [eapply ready_le; [exact Hr3|lia]|lia|by rewrite C3|lia|exact L9|by rewrite Q3|by rewrite Q3|].
  rewrite E5. cbn [mbind option_bind].
  assert (Q4 : p_page_size p4 = p_page_size pool) by (by rewrite (ws_page_size _ _ _ Hw4)).
  destruct (store_at_ready n pins p4 page (set_links n' R prev) (ALeaf R prev (take (Z.to_nat mid) all)) Hr4 Hn)
    as (p5 & E6 & Hr5 & Hw5 & Ha5 & Hs5 & N5 & V5);
    [by rewrite (ws_capacity _ _ _ Hw4), C3|lia|exact L10|by rewrite Q4|by rewrite Q4|].
  rewrite E6. cbn [mbind option_bind]. do 5 eexists. split; [reflexivity|]. split; [exact Hr5|].
  split; [|split; [|split; [symmetry; apply take_drop|]]].
  - transitivity p1; [exact Hs1|]. transitivity p2; [exact Hs2|]. transitivity p3; [by intros q j _; rewrite Hs3|].
    transitivity p4; [exact Hs4|exact Hs5].
  - split; cbn [sp_new sp_sep]; [|lia|done|done].
    split; [by rewrite (ws_capacity _ _ _ Hw5), (ws_capacity _ _ _ Hw4)|by rewrite (ws_page_size _ _ _ Hw5)|fold R; lia|].
    intros q Hq Hnq. fold R in Hq. rewrite V5 by (intros ->; apply Hnq; by left). rewrite V4 by lia.
    rewrite (kp_view _ _ Hk3), (kp_view _ _ Hk2). apply F4. lia.
  - rewrite Q3 in Ha4. rewrite Q4 in Ha5.
    split; [intros E; rewrite E in Hzt; change (zlen (@nil entry)) with 0 in Hzt; lia|].
    split; [intros E; rewrite E in Hzd; change (zlen (@nil entry)) with 0 in Hzd; lia|]. cbn [sp_new sp_len sp_sep].
    split; [lia|]. split; [exact L10|]. split; [exact Ha5|]. split; [|by exists e].
    apply (node_at_view _ (pool_view p4)); [|exact Ha4]. apply V5. lia.
Qed.

(** * Inserting into a leaf *)

Lemma slice_insert {A} (arr arr2 l : list A) c i x :
  slice arr 0 c = Some l -> blit arr i [x] = Some arr2 -> 0 <= i < c ->
  slice arr2 0 c = Some (<[Z.to_nat i:=x]> l).
Proof.
  intros Hl Hb Hi. pose proof (slice_is_Some _ _ _ _ Hl) as (_ & _ & Hc & Hz).
  destruct (slice_inv _ _ _ _ Hl) as (p & q & -> & Hp & _). destruct p; [|rewrite zlen_cons in Hp; pose proof (zlen_nonneg p); lia].
  cbn [app] in *. rewrite <- wr_blit, wr_Some in Hb by lia. injection Hb as <-.
  rewrite insert_app_l by (unfold zlen in *; lia). apply (slice_app [] _ q); [done|]. by rewrite zlen_insert.
Qed.

Lemma map_insert {A B} (f : A -> B) (l : list A) i x : map f (<[i:=x]> l) = <[i:=f x]> (map f l).
Proof. apply list_fmap_insert. Qed.

Lemma put_entry_spec nd next prev es i ps key klen value vlen k v :
  node_rep nd (ALeaf next prev es) -> 0 <= i < zlen es -> zlen es <= 3 -> new_entry ps key klen value vlen k v ->
  exists n1 n2, put_key nd i key klen = Some n1 /\ put_value n1 i value vlen = Some n2 /\
    node_rep n2 (ALeaf next prev (<[Z.to_nat i:=(k, v)]> es)).
Proof.
  intros Hn Hi Hl Hne. pose proof (new_entry_lens _ _ _ _ _ _ _ Hne) as [Hkl Hvl]. destruct Hne as [Hk Hv _].
  destruct (rep_view _ _ Hn) as (ks & vs & Hw & Zk & Zv & Sk & Sv).
  cbn [an_pairs] in Sk. rewrite zlen_map in Sk, Sv.
  destruct (put_key_view nd ks vs i key klen k Hw Hk Hkl) as (n1 & ks2 & E1 & F1 & B1); [lia|].
  destruct (put_value_view n1 ks2 vs i value vlen v (becomes_view _ _ _ _ _ B1) Hv Hvl) as (n2 & vs2 & E2 & F2 & B2); [lia|].
  exists n1, n2. split; [exact E1|]. split; [exact E2|].
  pose proof (becomes_trans _ _ _ _ _ _ _ _ _ B1 B2) as B.
  pose proof (becomes_meta _ _ _ _ _ B) as (P1 & _ & P3 & P4 & P5 & _). pose proof (becomes_meta _ _ _ _ _ B1) as (_ & _ & _ & _ & _ & N6).
  pose proof (becomes_meta _ _ _ _ _ B2) as (_ & _ & _ & _ & _ & P6).
  pose proof (nr_links _ _ Hn) as Hlk. cbn [an_links] in Hlk. injection Hlk as Hl1 Hl2.
  apply (view_leaf n2 ks2 vs2).
  - exact (becomes_view _ _ _ _ _ B).
  - by rewrite (blit_zlen _ _ _ _ F1).
  - by rewrite (blit_zlen _ _ _ _ F2).
  - rewrite P6, N6. exact (na_children _ (nr_arrays _ _ Hn)).
  - rewrite zlen_insert, map_insert. exact (slice_insert _ _ _ _ _ _ Sk F1 Hi).
  - rewrite zlen_insert, map_insert. exact (slice_insert _ _ _ _ _ _ Sv F2 Hi).
  - rewrite P1. exact (nr_kind _ _ Hn).
  - by rewrite P3.
  - by rewrite P4.
  - rewrite P5, (nr_count _ _ Hn). cbn [an_pairs]. by rewrite zlen_insert.
Qed.

(** The pages of a tree after an insertion: old ones and new ones, none twice. *)
Definition covers (p p' : garry_buffer_pool) (fp fp' : list Z) : Prop :=
  NoDup fp' /\ forall q, q ∈ fp' -> q ∈ fp \/ p_next_page p <= q < p_next_page p'.

(** The chain of the leaves after an insertion. *)
Definition relinks (ps : Z) (p p' : garry_buffer_pool) (fp fp' : list Z) : Prop :=
  relink (leaf_seq ps (pool_view p) fp) (leaf_seq ps (pool_view p') fp').

Lemma relinks_leaf ps p p' page next prev prev' m m' :
  node_at ps (pool_view p) page (ALeaf next prev m) -> node_at ps (pool_view p') page (ALeaf next prev' m') ->
  relinks ps p p' [page] [page].
Proof.
  intros H1 H2. left. rewrite !(leaf_seq_leaf _ _ _ _ next); [done| |]; by eapply leaf_next_leaf.
Qed.

Lemma relinks_split ps p p' page new next prev m l r q1 q2 :
  node_at ps (pool_view p) page (ALeaf next prev m) -> node_at ps (pool_view p') page (ALeaf new q1 l) ->
  node_at ps (pool_view p') new (ALeaf next q2 r) -> relinks ps p p' [page] ([page] ++ [new]).
Proof.
  intros H1 H2 H3. right. exists [], page, next, new, []. cbn [app].
  rewrite (leaf_seq_leaf _ (pool_view p) _ _ next) by (by eapply leaf_next_leaf).
  rewrite (leaf_seq_leaf _ (pool_view p') _ _ new) by (by eapply leaf_next_leaf).
  by rewrite (leaf_seq_leaf _ (pool_view p') _ _ next) by (by eapply leaf_next_leaf).
Qed.

Lemma relinks_view ps p0 p p' p1 fp fp' :
  (forall q, q ∈ fp -> pool_view p0 q = pool_view p q) -> (forall q, q ∈ fp' -> pool_view p1 q = pool_view p' q) ->
  relinks ps p p' fp fp' -> relinks ps p0 p1 fp fp'.
Proof.
  intros H0 H1 H. unfold relinks. rewrite (leaf_seq_view _ (pool_view p) (pool_view p0) _ H0).
  by rewrite (leaf_seq_view _ (pool_view p') (pool_view p1) _ H1).
Qed.

Lemma relinks_keeps ps p p1 p' fp fp' : keeps p p1 -> relinks ps p1 p' fp fp' -> relinks ps p p' fp fp'.
Proof. intros Hk. apply relinks_view; [|done]. intros q _. symmetry. apply (kp_view _ _ Hk). Qed.

(** What the insertion into the tree of height [h] under [page] leaves: one tree
    with the entries [m], or two trees and their separator. *)
Definition root_count (ps : Z) (view : Z -> list Z) (page : Z) (P : Z -> Prop) : Prop :=
  exists a, node_at ps view page a /\ P (zlen (an_pairs a)).

Record inserted (h : nat) (p p' : garry_buffer_pool) (page : Z) (m : list entry) (fp : list Z)
    (sep : list Z) (out : split_out) : Prop := {
  in_writes : writes fp p p';
  in_next : p_next_page p' <= p_next_page p + Z.of_nat h + 1;
  in_sep : zlen (sp_sep out) = zlen sep;
  in_tree :
    (sp_new out = -1 /\ exists fp', tree_at (p_page_size p) (pool_view p') h page m fp' /\ covers p p' fp fp' /\
       relinks (p_page_size p) p p' fp fp') \/
    (0 <= sp_new out < p_next_page p' /\ exists s m1 m2 f1 f2, m = m1 ++ m2 /\ m1 <> [] /\ m2 <> [] /\
       sp_len out = zlen s /\ slice (sp_sep out) 0 (zlen s) = Some s /\ entry_ok (p_page_size p) (s, []) /\
       tree_at (p_page_size p) (pool_view p') h page m1 f1 /\
       tree_at (p_page_size p) (pool_view p') h (sp_new out) m2 f2 /\ covers p p' fp (f1 ++ f2) /\
       Forall (fun e => key_lt e.1 s) m1 /\ Forall (fun e => key_le s e.1) m2 /\
       relinks (p_page_size p) p p' fp (f1 ++ f2));
  in_left : 0 <= sp_new out -> root_count (p_page_size p) (pool_view p) page (fun c => 2 <= c) /\
    root_count (p_page_size p) (pool_view p') page (fun c => c <= 2)
}.

Lemma leaf_tree ps view page next prev m :
  node_at ps view page (ALeaf next prev m) -> sorted m -> tree_at ps view 0 page m [page].
Proof. intros Ha Hs. split; [done|]. split; [exact Hs|]. by exists next, prev. Qed.

Lemma covers_one p p' page : covers p p' [page] [page].
Proof. split; [apply NoDup_singleton|]. intros q Hq. by left. Qed.

Lemma key_fits ps (e : entry) : entry_ok ps e -> entry_ok ps (e.1, []).
Proof.
  intros [H1 H2 H3 H4]. split; [done|unfold short, zlen; cbn; lia|done|].
  unfold entry_fits in *. cbn [fst snd]. change (zlen (@nil Z)) with 0. pose proof (zlen_nonneg e.2). lia.
Qed.

(** The two halves of a sorted list around the first key of the second. *)
Lemma sorted_halves l r (e : entry) :
  sorted (l ++ r) -> rd r 0 = Some e ->
  sorted l /\ sorted r /\ Forall (fun x => key_lt x.1 e.1) l /\ Forall (fun x => key_le e.1 x.1) r.
Proof.
  intros Hs He. destruct r as [|e' r]; [done|]. rewrite rd_cons_0 in He. injection He as ->.
  assert (Hr : sorted (e :: r)).
  { induction l as [|x l IH]; [exact Hs|]. apply IH. by inversion Hs. }
  assert (Hl : sorted l /\ Forall (fun x => key_lt x.1 e.1) l).
  { clear Hr. induction l as [|x l IH]; [split; constructor|]. inversion Hs as [|? ? Hs' HF]; subst.
    destruct (IH Hs') as [I1 I2]. apply Forall_app in HF as [HF1 HF2]. apply Forall_cons in HF2 as [HF2 _].
    split; by constructor. }
  destruct Hl as [H1 H2]. split; [done|]. split; [done|]. split; [done|].
  inversion Hr as [|? ? _ HF]; subst. constructor; [by apply key_le_lt_eq; right|].
  eapply Forall_impl; [exact HF|]. intros x Hx. by apply key_lt_le.
Qed.

Lemma upsert_entries ps k v m : entry_ok ps (k, v) -> Forall (entry_ok ps) m -> Forall (entry_ok ps) (upsert k v m).
Proof.
  intros He. induction 1 as [|[k' v'] m Hk Hm IH]; cbn [upsert]; [by apply Forall_singleton|].
  destruct (lex k k'); rewrite !Forall_cons; auto.
Qed.

Lemma zlen_upsert_found k v m i :
  sorted m -> rd (map fst m) i = Some k -> zlen (upsert k v m) = zlen m.
Proof. intros Hs Hi. rewrite (upsert_found _ _ _ _ Hs Hi). apply zlen_insert. Qed.

(** Storing a changed leaf. *)
Lemma store_leaf n pins pool page nd next prev es0 es m sep :
  node_at (p_page_size pool) (pool_view pool) page (ALeaf next prev es0) ->
  ready (n + 2) pins [] pool -> 0 <= n -> zlen pins < p_capacity pool -> 0 <= page < p_next_page pool ->
  page_size_ok (p_page_size pool) -> node_rep nd (ALeaf next prev m) ->
  node_ok (p_page_size pool) (ALeaf next prev es) -> Forall (entry_ok (p_page_size pool)) m ->
  zlen m <= GARRY_MAX_KEYS_PER_NODE -> sorted m ->
  exists pool', (pool ← garry_store_node pool page nd; garry_pool_mark_dirty pool page) = Some pool' /\
    ready n pins [] pool' /\ stable pins pool pool' /\ inserted 0 pool pool' page m [page] sep (Split sep 0 (-1)).
Proof.
  intros Hat Hr Hn Hc Hp Hps Hnd Hok Hm Hl Hs.
  assert (Hok' : node_ok (p_page_size pool) (ALeaf next prev m)) by (apply node_ok_leaf; [apply Hok|apply Hok|done|done]).
  destruct (store_at_ready n pins pool page nd _ Hr Hn Hc Hp Hnd Hok' Hps) as (p1 & -> & Hr1 & Hw1 & Ha1 & Hs1 & N1 & V1).
  cbn [mbind option_bind].
  destruct (mark_dirty_any n pins [] p1 page Hr1) as (p2 & -> & Hr2 & Hk2 & Hs2); [lia|apply not_elem_of_nil|].
  exists p2. split; [reflexivity|]. split; [exact Hr2|]. split; [intros q j Hq Hj; rewrite Hs2; by apply Hs1|].
  split; cbn [sp_sep sp_new].
  - eapply writes_trans; [exact Hw1|by apply keeps_writes|intros q Hq; left; exact Hq].
  - rewrite (kp_next _ _ Hk2). lia.
  - reflexivity.
  - assert (Ha2 : node_at (p_page_size pool) (pool_view p2) page (ALeaf next prev m))
      by (apply (node_at_view _ (pool_view p1)); [apply (kp_view _ _ Hk2)|exact Ha1]).
    left. split; [reflexivity|]. exists [page]. split; [by apply (leaf_tree _ _ _ next prev)|]. split; [apply covers_one|].
    by eapply relinks_leaf.
  - lia.
Qed.

(** The leaf case of the insertion: with memory for a split it succeeds. *)
Lemma insert_leaf_spec pool page node next prev es key klen value vlen k v sep n pins :
  ready (n + 11) pins [] pool -> 0 <= n -> zlen pins < p_capacity pool -> 0 <= page < p_next_page pool ->
  p_next_page pool < id_limit -> page_size_ok (p_page_size pool) ->
  node_rep node (ALeaf next prev es) -> node_at (p_page_size pool) (pool_view pool) page (ALeaf next prev es) -> sorted es ->
  new_entry (p_page_size pool) key klen value vlen k v -> GARRY_MAX_KEY_SIZE <= zlen sep ->
  exists pool' out, insert_leaf true pool page node key klen value vlen (Split sep 0 (-1)) = Some (pool', out, true) /\
    ready n pins [] pool' /\ stable pins pool pool' /\ inserted 0 pool pool' page (upsert k v es) [page] sep out.
Proof.
  intros Hr Hn Hc Hp Hid Hps Hnd Hat Hs Hne Hsep. pose proof (proj2 Hat) as Hok. pose proof (no_entries _ _ Hok) as He. pose proof (no_count _ _ Hok) as Hcnt.
  cbn [an_pairs] in He, Hcnt. pose proof (upsert_entries _ _ v _ (ne_ok _ _ _ _ _ _ _ Hne) He) as Heu.
  pose proof (upsert_sorted k v _ Hs) as Hsu. unfold insert_leaf.
  rewrite (leaf_find_spec _ _ key klen k Hnd (ne_key _ _ _ _ _ _ _ Hne)). cbn [mbind option_bind an_pairs].
  destruct (first_index_range (fun x => x = k) (-1) (map fst es)) as [(x & Hx & -> & _)|[Hnew HF]].
  - pose proof (rd_Some_range _ _ _ Hx) as Hi. rewrite zlen_map in Hi. set (i := first_index _ _ _) in *.
    rewrite decide_True by lia.
    destruct (put_entry_spec _ _ _ _ i _ key klen value vlen k v Hnd Hi Hcnt Hne) as (n1 & n2 & -> & E2 & Hn2).
    cbn [mbind option_bind]. rewrite E2. cbn [mbind option_bind].
    pose proof (zlen_upsert_found k v es i Hs Hx) as Hz. rewrite <- (upsert_found _ _ _ _ Hs Hx) in Hn2.
    destruct (store_leaf n pins pool page n2 next prev es es (upsert k v es) sep Hat) as (p' & E & Hr' & Hs' & Hin);
      try done; [eapply ready_le; [exact Hr|lia]|lia|].
    destruct (garry_store_node pool page n2) as [p1|]; [|discriminate]. cbn [mbind option_bind] in E |- *. rewrite E.
    cbn [mbind option_bind]. by do 2 eexists.
  - rewrite Hnew, decide_False by lia. rewrite (nr_count _ _ Hnd). cbn [an_pairs].
    pose proof (ne_key _ _ _ _ _ _ _ Hne) as Hk. pose proof (eo_bytes _ _ (ne_ok _ _ _ _ _ _ _ Hne)) as Hb. cbn in Hb.
    destruct (decide (zlen es < GARRY_MAX_KEYS_PER_NODE - 1)) as [Hroom|Hfull]; unfold GARRY_MAX_KEYS_PER_NODE in *.
    + rewrite (leaf_position_spec _ _ key klen k Hnd) by (cbn [an_pairs]; (lia || done || exact (entries_bytes _ _ He))).
      cbn [mbind option_bind an_pairs]. rewrite (upsert_new k v es Hnew) in Hsu, Heu |- *.
      set (pos := first_index _ (zlen es) _) in *.
      assert (Hpos : 0 <= pos <= zlen es) by (subst pos; rewrite <- (zlen_map fst es); apply first_index_bound).
      pose proof (new_entry_lens _ _ _ _ _ _ _ Hne) as [Hkl Hvl].
      destruct (leaf_insert_spec node next prev es key klen value vlen k v pos Hnd) as (n2 & -> & Hn2);
        [unfold GARRY_MAX_KEYS_PER_NODE; lia|done|done|by apply Hne|done|done|]. cbn [mbind option_bind].
      destruct (store_leaf n pins pool page n2 next prev es es (put_at pos (k, v) es) sep Hat) as (p' & E & Hr' & Hs' & Hin);
        try done; [eapply ready_le; [exact Hr|lia]|rewrite zlen_put_at; unfold GARRY_MAX_KEYS_PER_NODE; lia|].
      destruct (garry_store_node pool page n2) as [p1|]; [|discriminate]. cbn [mbind option_bind] in E |- *. rewrite E.
      cbn [mbind option_bind]. by do 2 eexists.
    + destruct (leaf_split_spec pool page node next prev es key klen value vlen k v (Split sep 0 (-1)) (n + 2) pins)
        as (p1 & nd1 & out & l & r & -> & Hr1 & Hs1 & [W1 W2 W3 W4] & Hlr & Hl0 & Hr0 & Hl2 & Hnd1 & Hal & Har & e & He0 & Hlen & Hsl);
        try done; [eapply ready_le; [exact Hr|lia]|lia|lia|]. cbn [mbind option_bind].
      pose proof (ws_capacity _ _ _ W1) as C1. pose proof (ws_page_size _ _ _ W1) as Q1.
      pose proof (proj2 Hal) as Okl. pose proof (rdy_next _ _ _ _ Hr) as HR.
      destruct (store_at_ready n pins p1 page nd1 _ Hr1 Hn ltac:(lia) ltac:(lia) Hnd1) as (p2 & -> & Hr2 & Hw2 & Ha2 & Hs2 & N2 & V2);
        [by rewrite Q1|by rewrite Q1|]. cbn [mbind option_bind].
      exists p2, out. split; [reflexivity|]. split; [exact Hr2|]. split; [by transitivity p1|].
      rewrite Hlr in Hsu, Heu. destruct (sorted_halves l r e Hsu He0) as (Sl & Sr & Bl & Br). rewrite Q1 in Ha2.
      split.
      * eapply writes_trans; [exact W1|exact Hw2|intros q Hq; left; exact Hq].
      * lia.
      * exact W4.
      * right. split; [lia|]. exists e.1, l, r, [page], [sp_new out]. split; [exact Hlr|]. split; [exact Hl0|].
        split; [exact Hr0|]. split; [exact Hlen|]. split; [exact Hsl|]. split.
        { apply Forall_app in Heu as [_ Heu]. unfold rd in He0. case_decide; [|done].
          exact (key_fits _ _ (Forall_lookup_1 _ _ _ _ Heu He0)). }
        assert (Har2 : node_at (p_page_size pool) (pool_view p2) (sp_new out) (ALeaf next page r))
          by (apply (node_at_view _ (pool_view p1)); [apply V2; lia|exact Har]).
        split; [by apply (leaf_tree _ _ _ (sp_new out) prev)|]. split; [by apply (leaf_tree _ _ _ next page)|].
        split; [|split; [exact Bl|split; [exact Br|by eapply relinks_split]]]. split.
        { apply NoDup_cons. split; [|apply NoDup_singleton]. rewrite list_elem_of_singleton. lia. }
        intros q [->|[->|[]%not_elem_of_nil]%elem_of_cons]%elem_of_cons; [left; by left|right; lia].
      * intros _. split; [exists (ALeaf next prev es); split; [exact Hat|cbn [an_pairs]; lia]|].
        exists (ALeaf (sp_new out) prev l). split; [exact Ha2|exact Hl2].
Qed.

(** * Internal nodes *)

Lemma view_internal nd ks vs kk cc next prev :
  node_view nd ks vs -> zlen ks = 3 -> zlen vs = 3 -> zlen (nd_children nd) = 4 ->
  slice ks 0 (zlen kk) = Some kk -> slice (nd_children nd) 0 (zlen cc) = Some cc ->
  nd_kind nd = GARRY_NODE_INTERNAL -> nd_next nd = next -> nd_prev nd = prev -> nd_count nd = zlen kk ->
  node_rep nd (AInternal next prev kk cc).
Proof.
  intros Hw Zk Zv Zc Hk Hc H1 <- <- H4.
  assert (Hids : map fst (map (fun k : list Z => (k, @nil Z)) kk) = kk) by (rewrite map_map; apply map_id).
  apply (view_rep nd ks vs); cbn [an_pairs an_kind an_links]; rewrite ?Hids, ?zlen_map; done.
Qed.

Lemma rep_internal n next prev kk cc :
  node_rep n (AInternal next prev kk cc) -> exists ks vs, node_view n ks vs /\ zlen ks = 3 /\ zlen vs = 3 /\
    slice ks 0 (zlen kk) = Some kk /\ slice (nd_children n) 0 (zlen cc) = Some cc /\ zlen (nd_children n) = 4 /\
    nd_kind n = GARRY_NODE_INTERNAL /\ nd_next n = next /\ nd_prev n = prev /\ nd_count n = zlen kk.
Proof.
  intros Hn. destruct (rep_view _ _ Hn) as (ks & vs & Hw & Zk & Zv & Sk & Sc).
  assert (Hids : map fst (map (fun k : list Z => (k, @nil Z)) kk) = kk) by (rewrite map_map; apply map_id).
  cbn [an_pairs] in Sk. rewrite Hids in Sk. exists ks, vs. split; [done|]. split; [done|]. split; [done|].
  split; [done|]. split; [done|]. split; [exact (na_children _ (nr_arrays _ _ Hn))|]. split; [exact (nr_kind _ _ Hn)|].
  pose proof (nr_links _ _ Hn) as Hlk. cbn [an_links] in Hlk. injection Hlk as -> ->. split; [done|]. split; [done|].
  rewrite (nr_count _ _ Hn). cbn [an_pairs]. apply zlen_map.
Qed.

(** A whole element of [sep] with the separator's length. *)
Lemma put_separator n ks vs i sep s :
  node_view n ks vs -> 0 <= i < zlen ks -> GARRY_MAX_KEY_SIZE <= zlen sep ->
  slice sep 0 (zlen s) = Some s -> zlen s <= GARRY_MAX_KEY_SIZE ->
  exists keys lens ks2, put_array (nd_keys n) i sep GARRY_MAX_KEY_SIZE = Some keys /\
    wr (nd_key_lens n) i (zlen s) = Some lens /\ blit ks i [s] = Some ks2 /\
    becomes n (set_keys n keys lens) ks2 vs (nd_children n).
Proof.
  intros [Hk Hv] Hi Hz Hs Hl. destruct (varr_zlen _ _ _ Hk) as [Hl1 Hl2]. destruct (rd_is_Some ks i) as [w Hw]; [lia|].
  destruct (varr_rd _ _ _ _ _ Hk Hw) as (a & Ha & _ & _ & Hza & _). unfold put_array, memcpy. rewrite Ha.
  unfold GARRY_MAX_KEY_SIZE in *. pose proof (slice_Some sep 0 256 ltac:(lia) ltac:(lia) ltac:(lia)) as Hb.
  set (b := take _ _) in Hb. pose proof (slice_is_Some _ _ _ _ Hb) as (_ & _ & _ & Hzb).
  rewrite Hb. cbn [mbind option_bind]. rewrite blit_whole by lia. cbn [mbind option_bind]. rewrite !wr_Some by lia.
  do 3 eexists. split; [reflexivity|]. split; [reflexivity|]. rewrite <- wr_blit, wr_Some by lia. split; [reflexivity|].
  do 4 eexists. split; [reflexivity|]. split; [|exact Hv]. apply varr_insert; [exact Hk|]. split; [exact Hzb|].
  split; [done|]. rewrite <- (slice_within sep b 256); [exact Hs|exact Hb|lia|apply zlen_nonneg|lia].
Qed.

Lemma link_child_spec node next prev kk cc idx sep s c :
  node_rep node (AInternal next prev kk cc) -> zlen kk < GARRY_MAX_KEYS_PER_NODE -> zlen cc = zlen kk + 1 ->
  0 <= idx <= zlen kk -> GARRY_MAX_KEY_SIZE <= zlen sep -> slice sep 0 (zlen s) = Some s -> short s ->
  exists n', link_child node idx sep (zlen s) c = Some n' /\
    node_rep n' (AInternal next prev (put_at idx s kk) (put_at (idx + 1) c cc)).
Proof.
  intros Hn Hl Hcc Hi Hsz Hs Hsh. destruct (rep_internal _ _ _ _ _ Hn) as (ks & vs & Hw & Zk & Zv & Sk & Sc & Zc & M1 & M2 & M3 & M4).
  unfold link_child. rewrite M4. unfold GARRY_MAX_KEYS_PER_NODE in Hl.
  destruct (shift_keys_children node ks vs idx (zlen kk) Hw Hi) as (n1 & k1 & c1 & -> & B1 & L1 & L2); [lia..|].
  cbn [mbind option_bind]. rewrite Hcc in Sc.
  destruct (lifted_put _ _ _ _ _ s Sk L1) as (ks2 & Ek & Fk); [lia..|].
  destruct (lifted_put _ _ _ _ _ c Sc L2) as (cs2 & Ec & Fc); [lia..|].
  assert (Zk1 : zlen k1 = 3) by (destruct L1 as (? & _ & HB); by rewrite (blit_zlen _ _ _ _ HB)).
  assert (Zc1 : zlen c1 = 4) by (destruct L2 as (? & _ & HB); by rewrite (blit_zlen _ _ _ _ HB)).
  destruct (put_separator n1 k1 vs idx sep s (becomes_view _ _ _ _ _ B1)) as (keys & lens & ks2' & -> & E2 & Ek' & B2);
    [lia|done|done|unfold short, GARRY_MAX_KEY_SIZE in *; lia|]. cbn [mbind option_bind]. rewrite E2. cbn [mbind option_bind].
  rewrite Ek in Ek'. injection Ek' as <-.
  pose proof (becomes_meta _ _ _ _ _ B1) as (P1 & _ & P3 & P4 & P5 & P6). rewrite P6, wr_blit, Ec. cbn [mbind option_bind].
  eexists. split; [reflexivity|].
  assert (Bc : node_view (set_count (set_children (set_keys n1 keys lens) cs2) (nd_count n1 + 1)) ks2 vs).
  { destruct (becomes_view _ _ _ _ _ B2). by split. }
  apply (view_internal _ ks2 vs _ _ _ _ Bc); cbn [set_count set_children set_keys nd_children nd_kind nd_next nd_prev nd_count].
  - by rewrite (blit_zlen _ _ _ _ Ek).
  - exact Zv.
  - by rewrite (blit_zlen _ _ _ _ Ec).
  - by rewrite zlen_put_at.
  - by rewrite zlen_put_at, Hcc.
  - by rewrite P1.
  - by rewrite P3.
  - by rewrite P4.
  - by rewrite P5, M4, zlen_put_at.
Qed.

(** Filling the children of the block: the child after position [idx] is new. *)
Lemma fill_child (T arr l : list Z) y c idx :
  slice arr 0 (c + 1) = Some l -> 0 <= idx <= c -> c + 2 <= zlen T ->
  exists p x s T1 T2 T3 T4, slice arr 0 idx = Some p /\ rd arr idx = Some x /\ slice arr (idx + 1) (c - idx) = Some s /\
    blit T 0 p = Some T1 /\ blit T1 idx [x] = Some T2 /\ blit T2 (idx + 1) [y] = Some T3 /\
    blit T3 (idx + 2) s = Some T4 /\ slice T4 0 (c + 2) = Some (put_at (idx + 1) y l) /\
    zlen T1 = zlen T /\ zlen T2 = zlen T /\ zlen T3 = zlen T /\ zlen T4 = zlen T.
Proof.
  intros Hl Hi HT. pose proof (slice_is_Some _ _ _ _ Hl) as (_ & _ & Hle & Hz).
  destruct (fill_put T arr l y (c + 1) (idx + 1) Hl) as (p & s & T2 & T3 & T4 & A1 & A2 & A3 & A4 & A5 & A6 & A7 & A8 & A9); [lia..|].
  replace (c + 1 - (idx + 1)) with (c - idx) in A2 by lia. replace (idx + 1 + 1) with (idx + 2) in A5 by lia.
  replace (c + 1 + 1) with (c + 2) in A6 by lia.
  pose proof (slice_is_Some _ _ _ _ A1) as (_ & _ & _ & Hzp).
  destruct (slice_parts p idx) as [E1 E2]; [lia|].
  set (q := take (Z.to_nat idx) p) in *. set (d := drop (Z.to_nat idx) p) in *.
  assert (Hzd : zlen d = 1) by (pose proof (slice_is_Some _ _ _ _ E2) as (_ & _ & _ & ?); lia).
  assert (Hzq : zlen q = idx) by (pose proof (slice_is_Some _ _ _ _ E1) as (_ & _ & _ & ?); lia).
  destruct d as [|x [|? ?]] eqn:Ed; [done| |rewrite !zlen_cons in Hzd; pose proof (zlen_nonneg l0); lia].
  assert (Hp : p = q ++ [x]) by (rewrite <- Ed; symmetry; apply take_drop).
  destruct (blit_ok T 0 q) as (T1 & B1 & Z1); [lia..|]. exists q, x, s, T1, T2, T3, T4.
  split; [by rewrite (slice_within _ _ _ _ _ A1) by lia|]. split.
  { pose proof (rd_slice _ _ _ _ idx A1 ltac:(lia)) as Hx. rewrite Hp, rd_app_r, Hzq, Z.sub_diag in Hx by lia.
    rewrite rd_cons_0 in Hx. by symmetry. }
  split; [exact A2|]. split; [exact B1|]. split; [|split; [exact A4|split; [exact A5|split; [exact A6|split; [exact Z1|split; [exact A7|split; [exact A8|exact A9]]]]]]].
  rewrite Hp in A3. rewrite <- (blit_blit T 0 q idx [x]) in A3 by lia. by rewrite B1 in A3.
Qed.

(** The block of [internal_split] receives all keys and children. *)
Lemma internal_tmp_spec node next prev kk cc idx ikey s child :
  node_rep node (AInternal next prev kk cc) -> zlen kk <= GARRY_MAX_KEYS_PER_NODE -> zlen cc = zlen kk + 1 ->
  0 <= idx <= zlen kk -> GARRY_MAX_KEY_SIZE <= zlen ikey -> slice ikey 0 (zlen s) = Some s -> short s ->
  exists t1 keys lens t2 cs t3 kt vt,
    forZ 0 idx (fun i tmp => tmp ← move_key tmp i node i; move_child tmp i node i) tmp_arrays = Some t1 /\
    put_array (nd_keys t1) idx ikey GARRY_MAX_KEY_SIZE = Some keys /\ wr (nd_key_lens t1) idx (zlen s) = Some lens /\
    move_child (set_keys t1 keys lens) idx node idx = Some t2 /\ wr (nd_children t2) (idx + 1) child = Some cs /\
    forZ (idx + 1) (zlen kk + 1) (fun i tmp => tmp ← move_key tmp i node (i - 1); move_child tmp (i + 1) node i)
      (set_children t2 cs) = Some t3 /\
    node_view t3 kt vt /\ slice kt 0 (zlen kk + 1) = Some (put_at idx s kk) /\
    slice (nd_children t3) 0 (zlen kk + 2) = Some (put_at (idx + 1) child cc).
Proof.
  intros Hn Hl Hcc Hi Hsz Hs Hsh. destruct (rep_internal _ _ _ _ _ Hn) as (ks & vs & Hw & Zk & Zv & Sk & Sc & Zc & M1 & M2 & M3 & M4).
  unfold GARRY_MAX_KEYS_PER_NODE in Hl. rewrite Hcc in Sc. assert (Z4 : zlen (replicate 4 (@nil Z)) = 4) by done.
  destruct (fill_put (replicate 4 []) ks _ s (zlen kk) idx Sk Hi) as (p & q & K1 & K2 & K3 & A1 & A2 & A3 & A4 & A5 & A6 & A7 & A8 & A9);
    [lia|].
  destruct (fill_child (nd_children tmp_arrays) (nd_children node) _ child (zlen kk) idx Sc Hi)
    as (cp & x & cq & C1 & C2 & C3 & C4 & B1 & B2 & B3 & B4 & B5 & B6 & B7 & B8 & B9 & B10 & B11 & B12);
    [change (zlen (nd_children tmp_arrays)) with 5; lia|].
  change (zlen (nd_children tmp_arrays)) with 5 in B9, B10, B11, B12.
  destruct (copy_keys_children_loop tmp_arrays node _ _ ks vs 0 idx 0 0 0 0 p cp K1 C1 (fun i => i) (fun i => i) (fun i => i)
    (fun i => i) tmp_view Hw) as (t1 & E1 & D1); [lia|by rewrite Z.sub_0_r|by rewrite Z.sub_0_r|done|done|intros; lia..|].
  pose proof (becomes_meta _ _ _ _ _ D1) as (_ & _ & _ & _ & _ & P1).
  destruct (put_separator t1 K1 _ idx ikey s (becomes_view _ _ _ _ _ D1)) as (keys & lens & K2' & E2 & E3 & F2 & D2);
    [lia|done|done|unfold short, GARRY_MAX_KEY_SIZE in *; lia|]. rewrite A4 in F2. injection F2 as <-.
  destruct (move_child_view (set_keys t1 keys lens) node K2 _ idx idx x (becomes_view _ _ _ _ _ D2) B2) as (t2 & C2' & E4 & F4 & D4).
  { cbn [set_keys nd_children]. rewrite P1, B9. lia. }
  cbn [set_keys nd_children] in F4. rewrite P1, B5 in F4. injection F4 as <-.
  pose proof (becomes_meta _ _ _ _ _ D4) as (_ & _ & _ & _ & _ & P4).
  assert (Hw3 : node_view (set_children t2 C3) K2 (replicate 4 [])) by (destruct (becomes_view _ _ _ _ _ D4); by split).
  destruct (copy_keys_children_loop (set_children t2 C3) node K2 _ ks vs (idx + 1) (zlen kk + 1) (idx + 1) idx (idx + 2) (idx + 1)
    q cq K3 C4 (fun i => i) (fun i => i - 1) (fun i => i + 1) (fun i => i) Hw3 Hw) as (t3 & E5 & D5);
    [lia|by replace (zlen kk + 1 - (idx + 1)) with (zlen kk - idx) by lia|
     by replace (zlen kk + 1 - (idx + 1)) with (zlen kk - idx) by lia|done|done|intros; lia..|].
  pose proof (becomes_meta _ _ _ _ _ D5) as (_ & _ & _ & _ & _ & P5).
  exists t1, keys, lens, t2, C3, t3, K3, (replicate 4 []). split; [exact E1|]. split; [exact E2|]. split; [exact E3|].
  split; [exact E4|]. split; [rewrite P4, wr_blit; exact B6|]. split; [exact E5|].
  split; [exact (becomes_view _ _ _ _ _ D5)|]. split; [exact A6|]. by rewrite P5.
Qed.

(** Keys and children of the block copied to the beginning of a node. *)
Lemma take_internal nd ks vs tmp kt vt (kk kseg : list (list Z)) (cc cseg : list Z) c s len (g gc : Z -> Z) :
  node_view nd ks vs -> zlen ks = 3 -> zlen (nd_children nd) = 4 -> node_view tmp kt vt ->
  slice kt 0 c = Some kk -> slice (nd_children tmp) 0 (c + 1) = Some cc ->
  slice kk s len = Some kseg -> slice cc s (len + 1) = Some cseg -> 0 <= s -> s + len <= c -> len <= 3 ->
  (forall i, g i = s + i) -> (forall i, gc i = s + i) ->
  exists n1 n2 ks2, forZ 0 len (fun i t => move_key t i tmp (g i)) nd = Some n1 /\
    forZ 0 (len + 1) (fun i t => move_child t i tmp (gc i)) n1 = Some n2 /\
    (exists cs2, becomes nd n2 ks2 vs cs2) /\ nd_count n1 = nd_count nd /\ zlen ks2 = 3 /\ zlen (nd_children n2) = 4 /\
    slice ks2 0 len = Some kseg /\ slice (nd_children n2) 0 (len + 1) = Some cseg.
Proof.
  intros Hn Zk Zc Ht Hk Hc Hks Hcs Hs Hle Hl Hg Hgc. pose proof (slice_is_Some _ _ _ _ Hks) as (_ & Hl0 & _ & _).
  destruct (take_seg ks kt _ kseg c s len Hk) as (ks2 & A1 & A2 & A3 & A4); [lia..|done|].
  destruct (take_seg (nd_children nd) (nd_children tmp) _ cseg (c + 1) s (len + 1) Hc) as (cs2 & B1 & B2 & B3 & B4); [lia..|done|].
  destruct (copy_keys_loop nd tmp ks vs kt vt 0 len 0 s kseg ks2 (fun i => i) g Hn Ht) as (n1 & E1 & C1);
    [lia|by rewrite Z.sub_0_r|done|intros; lia|intros; rewrite Hg; lia|].
  pose proof (becomes_meta _ _ _ _ _ C1) as (_ & _ & _ & _ & Pc & P1).
  destruct (copy_children_loop n1 tmp ks2 vs 0 (len + 1) 0 s cseg cs2 (fun i => i) gc (becomes_view _ _ _ _ _ C1)) as (n2 & E2 & C2);
    [lia|by rewrite Z.sub_0_r|by rewrite P1|intros; lia|intros; rewrite Hgc; lia|].
  pose proof (becomes_trans _ _ _ _ _ _ _ _ _ C1 C2) as C. pose proof (becomes_meta _ _ _ _ _ C) as (_ & _ & _ & _ & _ & P2).
  exists n1, n2, ks2. split; [exact E1|]. split; [exact E2|]. split; [by exists cs2|]. split; [exact Pc|]. split; [lia|].
  rewrite P2. split; [lia|]. by split.
Qed.

Lemma node_ok_internal ps next prev kk cc :
  id_ok next -> id_ok prev -> Forall id_ok cc -> Forall (fun k => entry_ok ps (k, [])) kk ->
  zlen kk <= GARRY_MAX_KEYS_PER_NODE -> zlen cc = zlen kk + 1 -> node_ok ps (AInternal next prev kk cc).
Proof.
  intros H1 H2 H3 H4 H5 H6. split; cbn [an_links an_children an_pairs]; try done; [|by rewrite zlen_map].
  rewrite List.Forall_map. exact H4.
Qed.

Lemma internal_keys_ok ps next prev kk cc :
  node_ok ps (AInternal next prev kk cc) -> Forall (fun k => entry_ok ps (k, [])) kk.
Proof. intros H. pose proof (no_entries _ _ H) as He. cbn [an_pairs] in He. by rewrite List.Forall_map in He. Qed.

(** The halves of a full node and of its children. *)
Lemma internal_halves node right tmp next prev kk cc kt vt allk allc kl sm kr page rp rhdr :
  node_rep node (AInternal next prev kk cc) ->
  right = set_links (set_count (set_kind blank_node GARRY_NODE_INTERNAL rhdr) 1) next page ->
  node_view tmp kt vt -> slice kt 0 4 = Some allk -> slice (nd_children tmp) 0 5 = Some allc ->
  allk = kl ++ sm :: kr -> zlen kl = 2 -> zlen kr = 1 -> zlen allc = 5 ->
  exists r1 r2 n1 n2, forZ 0 1 (fun i r => move_key r i tmp (3 + i)) right = Some r1 /\ nd_count r1 = 1 /\
    forZ 0 2 (fun i r => move_child r i tmp (3 + i)) r1 = Some r2 /\
    forZ 0 2 (fun i n => move_key n i tmp i) (set_count node 2) = Some n1 /\ nd_count n1 = 2 /\
    forZ 0 3 (fun i n => move_child n i tmp i) n1 = Some n2 /\ nd_prev n2 = prev /\
    node_rep r2 (AInternal next page kr (drop 3 allc)) /\
    node_rep (set_links n2 rp prev) (AInternal rp prev kl (take 3 allc)).
Proof.
  intros Hn -> Ht Hk Hc -> Hzl Hzr Hzc.
  destruct (rep_internal _ _ _ _ _ Hn) as (ks & vs & Hw & Zk & Zv & _ & _ & Zc & M1 & M2 & M3 & _).
  destruct (slice_parts allc 3) as [C1 C2]; [lia|]. rewrite Hzc in C2.
  assert (K1 : slice (kl ++ sm :: kr) 0 2 = Some kl) by (by apply (slice_app [] kl (sm :: kr))).
  assert (K2 : slice (kl ++ sm :: kr) 3 1 = Some kr).
  { change (sm :: kr) with ([sm] ++ kr). rewrite app_assoc. rewrite <- (app_nil_r kr) at 1. apply (slice_app (kl ++ [sm]) kr []); [|done].
    rewrite zlen_app, Hzl. done. }
  assert (Hwr : node_view (set_links (set_count (set_kind blank_node GARRY_NODE_INTERNAL rhdr) 1) next page)
    (replicate 3 []) (replicate 3 [])) by (destruct (blank_view GARRY_NODE_INTERNAL rhdr); by split).
  destruct (take_internal _ _ _ tmp kt vt _ kr allc (drop 3 allc) 4 3 1 (fun i => 3 + i) (fun i => 3 + i) Hwr eq_refl eq_refl Ht Hk Hc K2 C2)
    as (r1 & r2 & rk & R1 & R2 & (rc & R3) & R4 & R5 & R6 & R7 & R8); [lia|lia|lia|done|done|].
  destruct (take_internal (set_count node 2) ks vs tmp kt vt _ kl allc (take 3 allc) 4 0 2 (fun i => i) (fun i => i)
    (view_count _ _ _ _ Hw) Zk Zc Ht Hk Hc K1 C1) as (n1 & n2 & nk & N1 & N2 & (nc & N3) & N4 & N5 & N6 & N7 & N8);
    [lia|lia|lia|intros; lia|intros; lia|].
  pose proof (becomes_meta _ _ _ _ _ R3) as (P1 & _ & P2 & P3 & P4 & _).
  pose proof (becomes_meta _ _ _ _ _ N3) as (Q1 & _ & Q2 & Q3 & Q4 & _).
  assert (Hz1 : zlen (drop 3 allc) = 2) by (unfold zlen in *; rewrite length_drop; lia).
  assert (Hz2 : zlen (take 3 allc) = 3) by (unfold zlen in *; rewrite length_take; lia).
  exists r1, r2, n1, n2. split; [exact R1|]. split; [exact R4|]. split; [exact R2|]. split; [exact N1|]. split; [exact N4|].
  split; [exact N2|]. split; [by rewrite Q3|]. split.
  - apply (view_internal _ rk _ _ _ _ _ (becomes_view _ _ _ _ _ R3)); try done.
    + by rewrite Hzr.
    + by rewrite Hz1.
    + by rewrite P4, Hzr.
  - assert (Hv : node_view (set_links n2 rp prev) nk vs) by (destruct (becomes_view _ _ _ _ _ N3); by split).
    apply (view_internal _ nk _ _ _ _ _ Hv); cbn [set_links nd_children nd_kind nd_next nd_prev nd_count]; try done.
    + by rewrite Hzl.
    + by rewrite Hz2.
    + by rewrite Q1.
    + by rewrite Q4, Hzl.
Qed.

Lemma internal_split_spec pool page node next prev kk cc idx ikey s child out n pins :
  ready (n + 9) pins [] pool -> 0 <= n -> zlen pins < p_capacity pool -> 0 <= page < p_next_page pool ->
  p_next_page pool < id_limit -> page_size_ok (p_page_size pool) ->
  node_rep node (AInternal next prev kk cc) -> node_ok (p_page_size pool) (AInternal next prev kk cc) ->
  zlen kk = GARRY_MAX_KEYS_PER_NODE -> 0 <= idx <= zlen kk -> GARRY_MAX_KEY_SIZE <= zlen ikey ->
  slice ikey 0 (zlen s) = Some s -> entry_ok (p_page_size pool) (s, []) -> id_ok child ->
  GARRY_MAX_KEY_SIZE <= zlen (sp_sep out) ->
  exists pool' node' out' kl sm kr,
    internal_split true pool page node idx ikey (zlen s) child out = Some (pool', node', out', true) /\
    ready n pins [] pool' /\ stable pins pool pool' /\ did_split pool pool' page out out' /\
    put_at idx s kk = kl ++ sm :: kr /\ zlen kl = 2 /\ zlen kr = 1 /\
    sp_len out' = zlen sm /\ slice (sp_sep out') 0 (zlen sm) = Some sm /\ entry_ok (p_page_size pool) (sm, []) /\
    node_at (p_page_size pool) (pool_view pool') page (AInternal (sp_new out') prev kl (take 3 (put_at (idx + 1) child cc))) /\
    node_at (p_page_size pool) (pool_view pool') (sp_new out') (AInternal next page kr (drop 3 (put_at (idx + 1) child cc))).
Proof.
  intros Hr Hn Hc Hpage Hid [Hps1 Hps2] Hnd Hok H3 Hi Hiz His Hsok Hcid Hsep.
  pose proof (no_shape _ _ Hok) as Hcc. cbn in Hcc. pose proof (internal_keys_ok _ _ _ _ _ Hok) as Hkok.
  unfold GARRY_MAX_KEYS_PER_NODE in H3. unfold internal_split. cbn [negb]. rewrite (nr_count _ _ Hnd).
  change (an_pairs (AInternal next prev kk cc)) with (map (fun k : list Z => (k, @nil Z)) kk). rewrite zlen_map.
  destruct (internal_tmp_spec node next prev kk cc idx ikey s child Hnd) as
    (t1 & keys & lens & t2 & cs & tmp & kt & vt & -> & T2 & T3 & T4 & T5 & T6 & Ht & Skt & Sct);
    [unfold GARRY_MAX_KEYS_PER_NODE; lia|done|done|done|done|by apply Hsok|].
  cbn [mbind option_bind]. rewrite T2. cbn [mbind option_bind]. rewrite T3. cbn [mbind option_bind]. rewrite T4.
  cbn [mbind option_bind]. rewrite T5. cbn [mbind option_bind]. rewrite T6. cbn [mbind option_bind].
  set (allk := put_at idx s kk) in *. set (allc := put_at (idx + 1) child cc) in *.
  assert (Hzk : zlen allk = 4) by (unfold allk; rewrite zlen_put_at; lia).
  assert (Hzc : zlen allc = 5) by (unfold allc; rewrite zlen_put_at; lia).
  rewrite H3 in Skt, Sct |- *. change (3 + 1) with 4 in *. change (3 + 2) with 5 in Sct. change (Z.quot 4 2) with 2.
  change (4 - 2 - 1) with 1. change (2 + 1) with 3.
  assert (Hsplit : exists kl sm kr, allk = kl ++ sm :: kr /\ zlen kl = 2 /\ zlen kr = 1).
  { destruct allk as [|a [|b [|c [|d [|? ?]]]]]; try (cbn in Hzk; lia); try done.
    - by exists [a; b], c, [d].
    - exfalso. unfold zlen in Hzk. cbn [length] in Hzk. lia. }
  destruct Hsplit as (kl & sm & kr & Hall & Hzl & Hzr).
  unfold garry_allocate_internal, id_limit, GARRY_PAGE_ID_BIAS in *.
  destruct (allocate_node_ready GARRY_NODE_INTERNAL (n + 6) pins pool) as (p1 & -> & Hr1 & Hf1 & Hs1);
    [eapply ready_le; [exact Hr|lia]|lia|exact Hc|lia|unfold GARRY_SLOT_SIZE in *; lia|].
  cbn [mbind option_bind]. set (R := p_next_page pool) in *. pose proof (rdy_next _ _ _ _ Hr) as HR. fold R in HR.
  rewrite decide_False by lia. destruct Hf1 as [F1 F2 F3 F4 F5 F6 F7]. fold R in F3, F4, F5, F6, F7.
  destruct (load_fresh_ready GARRY_NODE_INTERNAL (n + 4) pins p1 R) as (p2 & rhdr & -> & Hr2 & Hk2 & Hs2);
    [eapply ready_le; [exact Hr1|lia]|lia|lia|lia|by rewrite F2|exact F6|exact F7|].
  cbn [mbind option_bind]. set (right := set_links _ _ page).
  assert (Hnx : nd_next node = next) by (pose proof (nr_links _ _ Hnd) as E; cbn in E; by injection E).
  destruct (internal_halves node right tmp next prev kk cc kt vt allk allc kl sm kr page R
    (PageHeader GARRY_NODE_INTERNAL (page_level (nd_header node)) 0 0 0 0 0 0) Hnd) as
    (r1 & r2 & n1 & n2 & L1 & L2 & L3 & L4 & L5 & L6 & L7 & L8 & L9); try done.
  { unfold right. by rewrite Hnx. }
  cbn [nd_count right set_links set_count]. rewrite L1. cbn [mbind option_bind]. rewrite L2. change (1 + 1) with 2.
  rewrite L3. cbn [mbind option_bind]. rewrite L4. cbn [mbind option_bind]. rewrite L5. change (2 + 1) with 3. rewrite L6.
  cbn [mbind option_bind]. rewrite L7.
  assert (Hksm : rd kt 2 = Some sm).
  { pose proof (rd_slice _ _ _ _ 2 Skt ltac:(lia)) as Hx. rewrite Hall, rd_app_r, Hzl in Hx by lia.
    rewrite rd_cons_0 in Hx. by symmetry. }
  destruct (promote_spec out tmp kt vt 2 sm R Ht Hksm Hsep) as (sep & -> & Hzs & Hsl). cbn [mbind option_bind].
  assert (Q2 : p_page_size p2 = p_page_size pool) by (by rewrite (kp_page_size _ _ Hk2)).
  assert (N2 : p_next_page p2 = R + 1) by (by rewrite (kp_next _ _ Hk2)).
  assert (HidR : id_ok R) by (apply page_id_ok; unfold id_limit, GARRY_PAGE_ID_BIAS; lia).
  assert (HidP : id_ok page) by (apply page_id_ok; unfold id_limit, GARRY_PAGE_ID_BIAS; lia).
  assert (Kall : Forall (fun k => entry_ok (p_page_size pool) (k, [])) (kl ++ sm :: kr)) by (rewrite <- Hall; by apply Forall_put_at).
  apply Forall_app in Kall as [Kl Kr]. apply Forall_cons in Kr as [Ksm Kr].
  assert (Call : Forall id_ok allc) by (apply Forall_put_at; [done|apply Hok]).
  assert (OkR : node_ok (p_page_size pool) (AInternal next page kr (drop 3 allc))).
  { apply node_ok_internal; [apply Hok|done|by apply Forall_drop|done|unfold GARRY_MAX_KEYS_PER_NODE; lia|].
    unfold zlen in *. rewrite length_drop. lia. }
  assert (OkL : node_ok (p_page_size pool) (AInternal R prev kl (take 3 allc))).
  { apply node_ok_internal; [done|apply Hok|by apply Forall_take|done|unfold GARRY_MAX_KEYS_PER_NODE; lia|].
    unfold zlen in *. rewrite length_take. lia. }
  destruct (store_at_ready (n + 2) pins p2 R r2 _ ltac:(eapply ready_le; [exact Hr2|lia]) ltac:(lia)
    ltac:(rewrite (kp_capacity _ _ Hk2); lia) ltac:(lia) L8) as (p3 & -> & Hr3 & Hw3 & Ha3 & Hs3 & N3 & V3);
    [by rewrite Q2|by rewrite Q2|]. cbn [mbind option_bind].
  assert (Q3 : p_page_size p3 = p_page_size pool) by (by rewrite (ws_page_size _ _ _ Hw3)).
  assert (C3 : p_capacity p3 = p_capacity pool) by (by rewrite (ws_capacity _ _ _ Hw3), (kp_capacity _ _ Hk2)).
  destruct (store_at_ready n pins p3 page _ _ Hr3 Hn ltac:(lia) ltac:(lia) L9) as (p4 & -> & Hr4 & Hw4 & Ha4 & Hs4 & N4 & V4);
    [by rewrite Q3|by rewrite Q3|]. cbn [mbind option_bind].
  destruct (mark_dirty_any n pins [] p4 R Hr4) as (p5 & -> & Hr5 & Hk5 & Hs5); [lia|apply not_elem_of_nil|]. cbn [mbind option_bind].
  destruct (mark_dirty_any n pins [] p5 page Hr5) as (p6 & -> & Hr6 & Hk6 & Hs6); [lia|apply not_elem_of_nil|]. cbn [mbind option_bind].
  assert (V64 : forall q, pool_view p6 q = pool_view p4 q) by (intros q; by rewrite (kp_view _ _ Hk6), (kp_view _ _ Hk5)).
  eexists p6, _, _, kl, sm, kr. split; [reflexivity|]. split; [exact Hr6|]. cbn [sp_new sp_len sp_sep]. split; [|split].
  - transitivity p1; [exact Hs1|]. transitivity p2; [exact Hs2|]. transitivity p3; [exact Hs3|]. transitivity p4; [exact Hs4|].
    intros q j _. by rewrite Hs6, Hs5.
  - assert (N6 : p_next_page p6 = R + 1) by (rewrite (kp_next _ _ Hk6), (kp_next _ _ Hk5); lia).
    split; cbn [sp_new sp_sep]; [|exact N6|done|done].
    split; [by rewrite (kp_capacity _ _ Hk6), (kp_capacity _ _ Hk5), (ws_capacity _ _ _ Hw4)|
      by rewrite (kp_page_size _ _ Hk6), (kp_page_size _ _ Hk5), (ws_page_size _ _ _ Hw4)|fold R; lia|].
    intros q Hq Hnq. fold R in Hq. rewrite V64, V4 by (intros ->; apply Hnq; by left). rewrite V3 by lia.
    rewrite (kp_view _ _ Hk2). apply F4. lia.
  - rewrite Q3 in Ha4. rewrite Q2 in Ha3. split; [exact Hall|]. split; [exact Hzl|]. split; [exact Hzr|]. split; [done|].
    split; [exact Hsl|]. split; [exact Ksm|]. split.
    + apply (node_at_view _ (pool_view p4)); [apply V64|exact Ha4].
    + apply (node_at_view _ (pool_view p3)); [|exact Ha3]. rewrite V64. apply V4. lia.
Qed.

(** * The descent *)

Ltac list_in := rewrite ?elem_of_cons, ?elem_of_app in *; rewrite ?elem_of_cons, ?elem_of_app in *; tauto.

Lemma covers_in p p' x fa fi fb fi' :
  NoDup (x :: fa ++ fi ++ fb) -> Forall (fun q => 0 <= q < p_next_page p) (x :: fa ++ fi ++ fb) ->
  covers p p' fi fi' -> covers p p' (x :: fa ++ fi ++ fb) (x :: fa ++ fi' ++ fb).
Proof.
  intros Hnd Hlt [Hn' Hin]. rewrite Forall_forall in Hlt. unfold covers.
  assert (Hold : forall q, q ∈ fi' -> q ∈ x :: fa ++ fb -> False).
  { intros q Hq Hx. assert (Hall : q ∈ x :: fa ++ fi ++ fb) by (list_in).
    destruct (Hin q Hq) as [Hfi|Hnew]; [|pose proof (Hlt q Hall); lia].
    apply NoDup_cons in Hnd as [Hx0 Hnd]. apply NoDup_app in Hnd as (_ & Hd1 & Hnd). apply NoDup_app in Hnd as (_ & Hd2 & _).
    apply elem_of_cons in Hx as [->|[Ha|Hb]%elem_of_app].
    - apply Hx0. list_in.
    - apply (Hd1 q Ha). list_in.
    - exact (Hd2 q Hfi Hb). }
  split.
  - apply NoDup_cons in Hnd as [Hx0 Hnd]. apply NoDup_app in Hnd as (N1 & Hd1 & Hnd). apply NoDup_app in Hnd as (N2 & Hd2 & N3).
    apply NoDup_cons. split.
    + intros Hx. apply elem_of_app in Hx as [Ha|[Hi|Hb]%elem_of_app]; [apply Hx0; list_in|apply (Hold x Hi); by left|apply Hx0; list_in].
    + apply NoDup_app. split; [done|]. split.
      * intros q Ha [Hi|Hb]%elem_of_app; [apply (Hold q Hi); right; list_in|apply (Hd1 q Ha); list_in].
      * apply NoDup_app. split; [done|]. split; [|done]. intros q Hi Hb. apply (Hold q Hi). right. list_in.
  - intros q [->|[Ha|[Hi|Hb]%elem_of_app]%elem_of_app]%elem_of_cons.
    + left. by left.
    + left. list_in.
    + destruct (Hin q Hi); [left; list_in|by right].
    + left. list_in.
Qed.

(** The pages of the other children are not written. *)
Lemma outside_fi x (fa fi fb : list Z) q :
  NoDup (x :: fa ++ fi ++ fb) -> q ∈ x :: fa ++ fb -> (q ∉ fi).
Proof.
  intros Hnd Hq Hi. apply NoDup_cons in Hnd as [Hx0 Hnd]. apply NoDup_app in Hnd as (_ & Hd1 & Hnd).
  apply NoDup_app in Hnd as (_ & Hd2 & _). apply elem_of_cons in Hq as [->|[Ha|Hb]%elem_of_app].
  - apply Hx0. list_in.
  - apply (Hd1 q Ha). list_in.
  - exact (Hd2 q Hi Hb).
Qed.

Lemma outside_root x (fa fi fb : list Z) q : NoDup (x :: fa ++ fi ++ fb) -> q ∈ fa \/ q ∈ fb -> q <> x.
Proof. intros Hnd Hq ->. apply NoDup_cons in Hnd as [Hx0 _]. apply Hx0. list_in. Qed.

(** The trees beside the changed child, after pages [fi] and [page] have been written. *)
Lemma beside ps p p' h page (fa fi fb : list Z) :
  NoDup (page :: fa ++ fi ++ fb) -> Forall (fun q => 0 <= q < p_next_page p) (page :: fa ++ fi ++ fb) ->
  writes (page :: fi) p p' ->
  forall c m f, tree_at ps (pool_view p) h c m f -> (forall q, q ∈ f -> q ∈ fa \/ q ∈ fb) -> tree_at ps (pool_view p') h c m f.
Proof.
  intros Hnd Hlt Hw c m f Ht Hf. apply (tree_frame _ (pool_view p)); [|exact Ht]. intros q Hq.
  specialize (Hf q Hq). rewrite Forall_forall in Hlt. apply (ws_view _ _ _ Hw).
  - apply Hlt. right. list_in.
  - intros [->|Hi]%elem_of_cons; [by apply (outside_root page fa fi fb page)|].
    apply (outside_fi page fa fi fb q Hnd); [right; list_in|exact Hi].
Qed.

Lemma writes_weaken W W' p p' : writes W p p' -> (forall q, q ∈ W -> q ∈ W') -> writes W' p p'.
Proof. intros [H1 H2 H3 H4] HW. split; [done|done|done|]. intros q Hq Hn. apply H4; [done|]. intros Hin. by apply Hn, HW. Qed.

(** A changed page and the child's tree below it. *)
Lemma tree_after_store ps p p' page h c m f :
  tree_at ps (pool_view p) h c m f -> (page ∉ f) -> Forall (fun q => q < p_next_page p) f -> writes [page] p p' ->
  tree_at ps (pool_view p') h c m f.
Proof.
  intros Ht Hn Hf Hw. apply (tree_frame _ (pool_view p)); [|exact Ht]. intros q Hq. rewrite Forall_forall in Hf.
  apply (ws_view _ _ _ Hw); [by apply Hf|]. rewrite list_elem_of_singleton. by intros ->.
Qed.

(** What the internal node knows about the child it descended into. *)
Record descent (ps : Z) (h : nat) (p : garry_buffer_pool) (page next prev : Z) (kk : list (list Z)) (cc : list Z)
    (k : list Z) (idx c : Z) (ma mi mb : list entry) (fa fi fb : list Z) : Prop := {
  de_zoom : zoom (tree_at ps (pool_view p) h) k kk cc idx c ma mi mb fa fi fb;
  de_node : node_at ps (pool_view p) page (AInternal next prev kk cc);
  de_some : kk <> [];
  de_nodup : NoDup (page :: fa ++ fi ++ fb);
  de_pages : Forall (fun q => 0 <= q < p_next_page p) (page :: fa ++ fi ++ fb)
}.

Lemma descent_child ps h p page next prev kk cc k idx c ma mi mb fa fi fb :
  descent ps h p page next prev kk cc k idx c ma mi mb fa fi fb ->
  tree_at ps (pool_view p) h c mi fi /\ NoDup fi /\ Forall (fun q => 0 <= q < p_next_page p) fi /\ 0 <= page < p_next_page p /\
  (page ∉ fi) /\ 0 <= idx <= zlen kk.
Proof.
  intros [Hz Ha Hs Hn Hf]. split; [apply Hz|]. pose proof Hn as Hn'. apply NoDup_cons in Hn as [Hx Hn].
  apply NoDup_app in Hn as (_ & _ & Hn). apply NoDup_app in Hn as (Hn & _ & _). split; [done|].
  apply Forall_cons in Hf as [Hp Hf]. apply Forall_app in Hf as [_ Hf]. apply Forall_app in Hf as [Hf _].
  split; [done|]. split; [done|]. split; [list_in|].
  pose proof (rd_Some_range _ _ _ (zo_child _ _ _ _ _ _ _ _ _ _ _ _ Hz)). pose proof (no_shape _ _ (proj2 Ha)) as Hc. cbn in Hc. lia.
Qed.

Lemma upsert_around ps h p page next prev kk cc k idx c ma mi mb fa fi fb v :
  descent ps h p page next prev kk cc k idx c ma mi mb fa fi fb ->
  upsert k v (ma ++ mi ++ mb) = ma ++ upsert k v mi ++ mb.
Proof. intros [Hz _ _ _ _]. apply upsert_middle; apply Hz. Qed.

(** The child changed in place. *)
(** The leaves beside the changed child keep their links. *)
Lemma relinks_around ps h p p' page next prev kk cc k idx c ma mi mb fa fi fb fi' :
  descent ps h p page next prev kk cc k idx c ma mi mb fa fi fb -> writes (page :: fi) p p' ->
  leaf_next ps (pool_view p') page = None -> relinks ps p p' fi fi' ->
  relinks ps p p' (page :: fa ++ fi ++ fb) (page :: fa ++ fi' ++ fb).
Proof.
  intros [_ Ha _ Hn Hf] Hw Hi Hr. unfold relinks.
  assert (Hv : forall q, q ∈ fa \/ q ∈ fb -> pool_view p' q = pool_view p q).
  { intros q Hq. rewrite Forall_forall in Hf. apply (ws_view _ _ _ Hw); [apply Hf; right; list_in|].
    intros [->|Hin]%elem_of_cons; [by apply (outside_root page fa fi fb page)|].
    apply (outside_fi page fa fi fb q Hn); [right; list_in|exact Hin]. }
  rewrite (leaf_seq_internal _ (pool_view p)) by (by eapply leaf_next_internal). rewrite (leaf_seq_internal _ (pool_view p')) by done.
  rewrite !leaf_seq_app, (leaf_seq_view ps (pool_view p) (pool_view p') fa) by (intros q Hq; apply Hv; by left).
  rewrite (leaf_seq_view ps (pool_view p) (pool_view p') fb) by (intros q Hq; apply Hv; by right).
  by apply relink_around.
Qed.

Lemma insert_in_place ps h p p' page next prev kk cc k v idx c ma mi mb fa fi fb fi' :
  descent ps h p page next prev kk cc k idx c ma mi mb fa fi fb -> writes fi p p' ->
  tree_at ps (pool_view p') h c (upsert k v mi) fi' -> covers p p' fi fi' -> relinks ps p p' fi fi' ->
  tree_at ps (pool_view p') (S h) page (upsert k v (ma ++ mi ++ mb)) (page :: fa ++ fi' ++ fb) /\
  covers p p' (page :: fa ++ fi ++ fb) (page :: fa ++ fi' ++ fb) /\
  relinks ps p p' (page :: fa ++ fi ++ fb) (page :: fa ++ fi' ++ fb).
Proof.
  intros Hd Hw Ht Hcov Hrl. destruct (descent_child _ _ _ _ _ _ _ _ _ _ _ _ _ _ _ _ _ Hd) as (_ & _ & _ & Hpage & Hnot & _).
  rewrite (upsert_around _ _ _ _ _ _ _ _ _ _ _ _ _ _ _ _ _ v Hd). pose proof Hd as [Hz Ha Hs Hn Hf].
  assert (Ha' : node_at ps (pool_view p') page (AInternal next prev kk cc))
    by (apply (node_at_view _ (pool_view p)); [apply (ws_view _ _ _ Hw); [lia|done]|exact Ha]).
  split; [|split; [by apply covers_in|]].
  2: { eapply relinks_around; [exact Hd| |by eapply leaf_next_internal|exact Hrl]. apply (writes_weaken fi); [done|]. intros q Hq. by right. }
  exists next, prev, kk, cc, (fa ++ fi' ++ fb). split; [done|]. split; [done|]. split.
  - exact Ha'.
  - apply (zo_one _ _ _ _ _ _ _ _ _ _ _ _ Hz); [|exact Ht|apply upsert_some|apply upsert_covered].
    apply (beside ps p p' h page fa fi fb); [done|done|]. apply (writes_weaken fi); [done|]. intros q Hq. by right.
Qed.

(** The forest of the children after the child was split and linked, at any later state. *)
Lemma insert_linked ps h p p' page next prev kk cc k v idx c c2 s ma mi mb fa fi fb m1 m2 f1 f2 :
  descent ps h p page next prev kk cc k idx c ma mi mb fa fi fb -> writes (page :: fi) p p' ->
  upsert k v mi = m1 ++ m2 -> m1 <> [] -> m2 <> [] ->
  Forall (fun e : entry => key_lt e.1 s) m1 -> Forall (fun e : entry => key_le s e.1) m2 ->
  tree_at ps (pool_view p') h c m1 f1 -> tree_at ps (pool_view p') h c2 m2 f2 ->
  forest (tree_at ps (pool_view p') h) (put_at idx s kk) (put_at (idx + 1) c2 cc)
    (upsert k v (ma ++ mi ++ mb)) (fa ++ (f1 ++ f2) ++ fb).
Proof.
  intros Hd Hw Hm H1 H2 B1 B2 T1 T2. rewrite (upsert_around _ _ _ _ _ _ _ _ _ _ _ _ _ _ _ _ _ v Hd), Hm.
  pose proof (upsert_covered k v mi) as Hc. rewrite Hm in Hc. destruct Hd as [Hz Ha Hs Hn Hf].
  apply (zo_two _ _ _ _ _ _ _ _ _ _ _ _ Hz); try done. by apply (beside ps p p' h page fa fi fb).
Qed.

Lemma inserted_in_place ps h p p' page m fp fp' sep :
  ps = p_page_size p -> writes fp p p' -> p_next_page p' <= p_next_page p + Z.of_nat h + 1 ->
  tree_at ps (pool_view p') h page m fp' -> covers p p' fp fp' -> relinks ps p p' fp fp' -> inserted h p p' page m fp sep (Split sep 0 (-1)).
Proof. intros -> H1 H2 H3 H4 H5. split; [done|done|done| |cbn; lia]. left. split; [done|]. by exists fp'. Qed.

(** The two trees after a split of the internal node. *)
Lemma insert_split ps h p p' page next prev kk cc k v idx c c2 s ma mi mb fa fi fb m1 m2 f1 f2 R kl sm kr p1 :
  descent ps h p page next prev kk cc k idx c ma mi mb fa fi fb -> writes (page :: fi) p p' ->
  upsert k v mi = m1 ++ m2 -> m1 <> [] -> m2 <> [] ->
  Forall (fun e : entry => key_lt e.1 s) m1 -> Forall (fun e : entry => key_le s e.1) m2 ->
  tree_at ps (pool_view p') h c m1 f1 -> tree_at ps (pool_view p') h c2 m2 f2 -> covers p p1 fi (f1 ++ f2) ->
  relinks ps p p' fi (f1 ++ f2) ->
  put_at idx s kk = kl ++ sm :: kr -> zlen kl = 2 -> kr <> [] -> p_next_page p <= p_next_page p1 ->
  R = p_next_page p1 -> p_next_page p' = R + 1 ->
  node_at ps (pool_view p') page (AInternal R prev kl (take 3 (put_at (idx + 1) c2 cc))) ->
  node_at ps (pool_view p') R (AInternal next page kr (drop 3 (put_at (idx + 1) c2 cc))) ->
  exists n1 n2 g1 g2, upsert k v (ma ++ mi ++ mb) = n1 ++ n2 /\ n1 <> [] /\ n2 <> [] /\
    tree_at ps (pool_view p') (S h) page n1 g1 /\ tree_at ps (pool_view p') (S h) R n2 g2 /\
    covers p p' (page :: fa ++ fi ++ fb) (g1 ++ g2) /\
    Forall (fun e => key_lt e.1 sm) n1 /\ Forall (fun e => key_le sm e.1) n2 /\
    relinks ps p p' (page :: fa ++ fi ++ fb) (g1 ++ g2).
Proof.
  intros Hd Hw Hm H1 H2 B1 B2 T1 T2 Hcov Hrl Hall Hzl Hkr Hle HR HR' Ha1 Ha2.
  pose proof (insert_linked ps h p p' page next prev kk cc k v idx c c2 s ma mi mb fa fi fb m1 m2 f1 f2
    Hd Hw Hm H1 H2 B1 B2 T1 T2) as Hfor. rewrite Hall in Hfor.
  destruct (forest_cut _ _ _ _ _ _ _ Hfor) as (cl & cr & n1 & n2 & g1 & g2 & Hc & Hzc & Hn & Hg & F1 & F2 & Q1 & Q2).
  pose proof Hd as [_ _ _ Hnd Hf]. destruct (covers_in p p1 page fa fi fb (f1 ++ f2) Hnd Hf Hcov) as [Cn Cin].
  assert (Hcl : take 3 (put_at (idx + 1) c2 cc) = cl /\ drop 3 (put_at (idx + 1) c2 cc) = cr).
  { rewrite Hc. assert (length cl = 3%nat) by (unfold zlen in *; lia). split; [by apply take_app_length'|by apply drop_app_length']. }
  destruct Hcl as [-> ->] in Ha1, Ha2.
  exists n1, n2, (page :: g1), (R :: g2). split; [exact Hn|]. split; [exact (forest_some _ _ _ _ _ F1)|].
  split; [exact (forest_some _ _ _ _ _ F2)|]. split; [|split; [|split; [|split; [exact Q1|split; [exact Q2|]]]]].
  - exists R, prev, kl, cl, g1. split; [done|]. split; [intros ->; done|]. by split.
  - exists next, page, kr, cr, g2. split; [done|]. split; [done|]. by split.
  - rewrite Hg in Cn, Cin. rewrite Forall_forall in Hf.
    assert (HRn : R ∉ page :: g1 ++ g2).
    { intros Hin. destruct (Cin R Hin) as [Ho|?]; [|lia]. specialize (Hf R Ho). cbn in Hf. lia. }
    split.
    + apply (NoDup_Permutation_proper _ (R :: page :: g1 ++ g2)); [cbn [app]; by rewrite <- Permutation_middle, (Permutation_swap R page)|].
      by apply NoDup_cons.
    + intros q Hq. assert (Hq' : q = R \/ q ∈ page :: g1 ++ g2) by list_in.
      destruct Hq' as [->|Hq']; [right; lia|]. destruct (Cin q Hq'); [by left|right; lia].
  - pose proof (relinks_around _ _ _ p' _ _ _ _ _ _ _ _ _ _ _ _ _ _ (f1 ++ f2) Hd Hw (leaf_next_internal _ _ _ _ _ _ _ Ha1) Hrl) as Hrs.
    unfold relinks in *. rewrite Hg, (leaf_seq_internal _ (pool_view p')), leaf_seq_app in Hrs by (by eapply leaf_next_internal).
    rewrite leaf_seq_app, (leaf_seq_internal _ (pool_view p') page), (leaf_seq_internal _ (pool_view p') R) by (by eapply leaf_next_internal).
    exact Hrs.
Qed.

(** Pages of the new trees lie below the next page and differ from the parent. *)
Lemma covered_pages p p' page fi f :
  covers p p' fi f -> Forall (fun q => 0 <= q < p_next_page p) fi -> (page ∉ fi) -> 0 <= page < p_next_page p ->
  0 <= p_next_page p <= p_next_page p' ->
  (page ∉ f) /\ Forall (fun q => q < p_next_page p') f.
Proof.
  intros [_ Hin] Hf Hn Hp Hle. rewrite Forall_forall in Hf. split.
  - intros Hq. destruct (Hin page Hq); [done|lia].
  - apply Forall_forall. intros q Hq. destruct (Hin q Hq) as [Ho|?]; [specialize (Hf q Ho); cbn in Hf|]; lia.
Qed.

Lemma covers_keeps p p0 p' fp fp' : keeps p p0 -> covers p0 p' fp fp' -> covers p p' fp fp'.
Proof. intros Hk [H1 H2]. split; [done|]. by rewrite <- (kp_next _ _ Hk). Qed.

Lemma relinks_after ps p p2 p' page fi f :
  (page ∉ f) -> Forall (fun q => q < p_next_page p2) f -> writes [page] p2 p' -> relinks ps p p2 fi f -> relinks ps p p' fi f.
Proof.
  intros Hn Hf Hw. apply relinks_view; [done|]. intros q Hq. rewrite Forall_forall in Hf.
  apply (ws_view _ _ _ Hw); [by apply Hf|]. rewrite list_elem_of_singleton. by intros ->.
Qed.

Definition level_cost : Z := 13.

Lemma insert_rec_spec mem h : (forall q, mem q = true) ->
  forall pool page m fp fuel n pins key klen value vlen k v sep,
  tree_at (p_page_size pool) (pool_view pool) h page m fp -> NoDup fp -> Forall (fun q => 0 <= q < p_next_page pool) fp ->
  ready (n + level_cost * (Z.of_nat h + 1)) pins [] pool -> 0 <= n -> zlen pins < p_capacity pool ->
  p_next_page pool + Z.of_nat h + 1 <= id_limit -> page_size_ok (p_page_size pool) ->
  new_entry (p_page_size pool) key klen value vlen k v -> GARRY_MAX_KEY_SIZE <= zlen sep -> (h < fuel)%nat ->
  exists pool' out, btree_insert_rec mem fuel pool page key klen value vlen sep = Some (pool', out, true) /\
    ready n pins [] pool' /\ stable pins pool pool' /\ inserted h pool pool' page (upsert k v m) fp sep out.
Proof.
  intros Hmem. induction h as [|h IH]; intros pool page m fp fuel n pins key klen value vlen k v sep Ht Hnd Hf Hr Hn Hc Hid Hps Hne Hsep Hfuel;
    (destruct fuel as [|fuel]; [lia|]); cbn [tree_at] in Ht; cbn [btree_insert_rec]; unfold level_cost in *.
  - destruct Ht as (-> & Hs & next & prev & Ha). apply Forall_cons in Hf as [Hp _].
    destruct (load_at_ready (n + 11) pins pool page _ ltac:(eapply ready_le; [exact Hr|lia]) ltac:(lia) Hc Hp Ha)
      as (p1 & nd & -> & Hnrep & Hr1 & Hk1 & Hs1). cbn [mbind option_bind].
    rewrite (nr_kind _ _ Hnrep), Hmem. cbn [an_kind]. rewrite decide_True by done.
    destruct (insert_leaf_spec p1 page nd next prev m key klen value vlen k v sep n pins Hr1 Hn) as (p2 & out & E & Hr2 & Hs2 & [I1 I2 I3 I4 I5]);
      rewrite ?(kp_capacity _ _ Hk1), ?(kp_next _ _ Hk1), ?(kp_page_size _ _ Hk1); try done;
      [lia|apply (node_at_view _ (pool_view pool)); [apply (kp_view _ _ Hk1)|exact Ha]|].
    exists p2, out. split; [exact E|]. split; [exact Hr2|]. split; [by transitivity p1|].
    rewrite (kp_next _ _ Hk1) in I2. rewrite (kp_page_size _ _ Hk1) in I4, I5.
    split; [|done|done| |].
    + eapply writes_trans; [apply (keeps_writes [page]); exact Hk1|exact I1|by left].
    + destruct I4 as [(E1 & fp' & T & C & L)|(E1 & s & m1 & m2 & f1 & f2 & J1 & J2 & J3 & J4 & J5 & J6 & J7 & J8 & J9 & J10 & J11 & J12)].
      * left. split; [done|]. exists fp'. split; [done|]. split; [by eapply covers_keeps|by eapply relinks_keeps].
      * right. split; [done|]. exists s, m1, m2, f1, f2. repeat (split; [done|]). split; [by eapply covers_keeps|].
        split; [done|]. split; [done|]. by eapply relinks_keeps.
    + intros Hpos. destruct (I5 Hpos) as [(a & Ha1 & Hc1) H2]. split; [|exact H2]. exists a. split; [|exact Hc1].
      apply (node_at_view _ (pool_view p1)); [symmetry; apply (kp_view _ _ Hk1)|exact Ha1].
  - destruct Ht as (next & prev & kk & cc & fps & -> & Hkk & Ha & Hfor).
    pose proof Hf as Hf'. apply Forall_cons in Hf' as [Hp _].
    destruct (load_at_ready (n + 11 + 13 * (Z.of_nat h + 1)) pins pool page _ ltac:(eapply ready_le; [exact Hr|lia]) ltac:(lia) Hc Hp Ha)
      as (p1 & nd & -> & Hnrep & Hr1 & Hk1 & Hs1). cbn [mbind option_bind].
    rewrite (nr_kind _ _ Hnrep). cbn [an_kind]. rewrite decide_False by done.
    pose proof (internal_keys_ok _ _ _ _ _ (proj2 Ha)) as Hkok. pose proof (no_count _ _ (proj2 Ha)) as Hcnt.
    pose proof (no_shape _ _ (proj2 Ha)) as Hshape. cbn [an_pairs] in Hcnt, Hshape. rewrite zlen_map in Hcnt.
    assert (Hids : map fst (map (fun k : list Z => (k, @nil Z)) kk) = kk) by (rewrite map_map; apply map_id).
    rewrite (internal_find_spec _ _ _ _ _ Hnrep (ne_key _ _ _ _ _ _ _ Hne) (eo_bytes _ _ (ne_ok _ _ _ _ _ _ _ Hne)));
      cbn [an_pairs fst]; rewrite Hids.
    2: { eapply Forall_impl; [exact Hkok|]. intros x Hx. exact (eo_bytes _ _ Hx). }
    cbn [mbind option_bind]. rewrite zlen_map. set (idx := first_index _ (zlen kk) kk).
    destruct (forest_zoom _ k _ _ _ _ Hfor) as (c & ma & mi & mb & fa & fi & fb & -> & -> & Hz). fold idx in Hz.
    assert (Hd : descent (p_page_size pool) h pool page next prev kk cc k idx c ma mi mb fa fi fb) by (by split).
    destruct (descent_child _ _ _ _ _ _ _ _ _ _ _ _ _ _ _ _ _ Hd) as (Tc & Nc & Fc & _ & Hpage & Hidx).
    pose proof (nr_children _ _ Hnrep) as Hch. pose proof (zo_child _ _ _ _ _ _ _ _ _ _ _ _ Hz) as Hci.
    pose proof (rd_Some_range _ _ _ Hci) as Hcr. rewrite (rd_slice _ _ _ _ _ Hch) in Hci by lia. rewrite Z.add_0_l in Hci.
    rewrite Hci. cbn [mbind option_bind]. pose proof (rdy_next _ _ _ _ Hr) as Hnx0.
    destruct (IH p1 c mi fi fuel (n + 11) pins key klen value vlen k v (zeros GARRY_MAX_RECORD_SIZE))
      as (p2 & cout & -> & Hr2 & Hs2 & [I1 I2 I3 I4 _]); rewrite ?(kp_capacity _ _ Hk1), ?(kp_next _ _ Hk1), ?(kp_page_size _ _ Hk1);
      try done; [|lia|lia|lia|].
    { apply (tree_frame _ (pool_view pool)); [|exact Tc]. intros q _. apply (kp_view _ _ Hk1). }
    rewrite (kp_next _ _ Hk1) in I2. rewrite (kp_page_size _ _ Hk1) in I4. cbn [mbind option_bind].
    assert (W2 : writes fi pool p2) by (eapply writes_trans; [apply (keeps_writes fi); exact Hk1|exact I1|by left]).
    assert (S2 : stable pins pool p2) by (by transitivity p1).
    destruct I4 as [(E1 & fi' & T & C & L)|(E1 & s & m1 & m2 & f1 & f2 & J1 & J2 & J3 & J4 & J5 & J6 & J7 & J8 & J9 & J10 & J11 & J12)].
    + rewrite decide_False by (intros [_ ?]; lia). apply (covers_keeps pool) in C; [|exact Hk1]. apply (relinks_keeps _ pool) in L; [|exact Hk1].
      destruct (insert_in_place _ h pool p2 page next prev kk cc k v idx c ma mi mb fa fi fb fi' Hd W2 T C L) as (T' & C' & L').
      do 2 eexists. split; [reflexivity|]. split; [eapply ready_le; [exact Hr2|lia]|]. split; [exact S2|].
      apply (inserted_in_place _ _ _ _ _ _ _ _ _ eq_refl) with (3 := T') (4 := C') (5 := L'); [|lia].
      apply (writes_weaken fi); [exact W2|]. intros q Hq. list_in.
    + rewrite decide_True by (split; [done|lia]). rewrite (nr_count _ _ Hnrep). cbn [an_pairs]. rewrite zlen_map.
      apply (covers_keeps pool) in J9; [|exact Hk1]. apply (relinks_keeps _ pool) in J12; [|exact Hk1]. pose proof (ws_next _ _ _ W2) as Hle2.
      destruct (covered_pages pool p2 page fi (f1 ++ f2) J9 Fc Hpage Hp ltac:(lia)) as [Hpf Hlf].
      pose proof Hlf as Hlf'. apply Forall_app in Hlf' as [Hlf1 Hlf2]. pose proof (ws_page_size _ _ _ W2) as Q2. pose proof (ws_capacity _ _ _ W2) as C2.
      change (zlen (zeros GARRY_MAX_RECORD_SIZE)) with GARRY_MAX_RECORD_SIZE in I3.
      assert (Hcid : id_ok (sp_new cout)) by (apply page_id_ok; unfold id_limit in *; lia).
      rewrite J4. destruct (decide (zlen kk < GARRY_MAX_KEYS_PER_NODE)) as [Hroom|Hfull].
      * destruct (link_child_spec nd next prev kk cc idx (sp_sep cout) s (sp_new cout) Hnrep Hroom Hshape Hidx) as (nd2 & -> & Hnd2);
          [rewrite I3; done|exact J5|by apply J6|]. cbn [mbind option_bind].
        assert (Hok2 : node_ok (p_page_size pool) (AInternal next prev (put_at idx s kk) (put_at (idx + 1) (sp_new cout) cc))).
        { pose proof (proj2 Ha) as Hok. apply node_ok_internal; [apply Hok|apply Hok|apply Forall_put_at; [done|apply Hok]|
            by apply Forall_put_at|rewrite zlen_put_at; lia|rewrite !zlen_put_at; lia]. }
        destruct (store_at_ready n pins p2 page nd2 _ ltac:(eapply ready_le; [exact Hr2|lia]) Hn ltac:(lia) ltac:(lia) Hnd2)
          as (p3 & -> & Hr3 & Hw3 & Ha3 & Hs3 & N3 & V3); [by rewrite Q2|by rewrite Q2|]. cbn [mbind option_bind].
        destruct (mark_dirty_any n pins [] p3 page Hr3) as (p4 & -> & Hr4 & Hk4 & Hs4); [lia|apply not_elem_of_nil|]. cbn [mbind option_bind].
        assert (W24 : writes [page] p2 p4).
        { eapply writes_trans; [exact Hw3|apply (keeps_writes []); exact Hk4|]. intros q Hq. by apply not_elem_of_nil in Hq. }
        assert (W4 : writes (page :: fi) pool p4).
        { eapply writes_trans; [apply (writes_weaken fi (page :: fi)); [exact W2|by right]|exact W24|].
          intros q Hq%list_elem_of_singleton. left. rewrite Hq. by left. }
        pose proof (tree_after_store _ p2 p4 page h c m1 f1 J7 ltac:(list_in) Hlf1 W24) as T1.
        pose proof (tree_after_store _ p2 p4 page h _ m2 f2 J8 ltac:(list_in) Hlf2 W24) as T2.
        pose proof (insert_linked _ h pool p4 page next prev kk cc k v idx c (sp_new cout) s ma mi mb fa fi fb m1 m2 f1 f2
          Hd W4 J1 J2 J3 J10 J11 T1 T2) as Hfor4.
        do 2 eexists. split; [reflexivity|]. split; [exact Hr4|]. split.
        { transitivity p2; [exact S2|]. intros q j Hq Hj. rewrite Hs4. by apply Hs3. }
        assert (N4 : p_next_page p4 = p_next_page p2) by (rewrite (kp_next _ _ Hk4); lia).
        assert (Ha4 : node_at (p_page_size pool) (pool_view p4) page (AInternal next prev (put_at idx s kk) (put_at (idx + 1) (sp_new cout) cc))).
        { rewrite Q2 in Ha3. apply (node_at_view _ (pool_view p3)); [apply (kp_view _ _ Hk4)|exact Ha3]. }
        apply (inserted_in_place _ _ _ _ _ _ _ (page :: fa ++ (f1 ++ f2) ++ fb) _ eq_refl).
        -- apply (writes_weaken (page :: fi)); [exact W4|]. intros q Hq. list_in.
        -- lia.
        -- exists next, prev, (put_at idx s kk), (put_at (idx + 1) (sp_new cout) cc), (fa ++ (f1 ++ f2) ++ fb).
           split; [done|]. split; [unfold put_at; by destruct (take _ _)|]. split; [exact Ha4|exact Hfor4].
        -- destruct (covers_in pool p2 page fa fi fb (f1 ++ f2) Hnd Hf J9) as [K1 K2]. split; [exact K1|].
           intros q Hq. rewrite N4. by apply K2.
        -- eapply relinks_around; [exact Hd|exact W4|by eapply leaf_next_internal|].
           exact (relinks_after _ _ _ _ _ _ _ Hpf Hlf W24 J12).
      * destruct (internal_split_spec p2 page nd next prev kk cc idx (sp_sep cout) s (sp_new cout) (Split sep 0 (-1)) n pins)
          as (p3 & nd3 & out & kl & sm & kr & E3 & Hr3 & Hs3 & [D1 D2 D3 D4] & Hall & Zkl & Zkr & Ol & Os & Osm & A1 & A2);
          rewrite ?Q2; try done; [eapply ready_le; [exact Hr2|lia]|lia|lia|unfold id_limit in *; lia|by apply Ha|lia|by rewrite I3|].
        rewrite Hmem, E3. cbn [mbind option_bind]. rewrite Q2 in A1, A2.
        assert (W3 : writes (page :: fi) pool p3).
        { eapply writes_trans; [apply (writes_weaken fi (page :: fi)); [exact W2|by right]|exact D1|].
          intros q Hq%list_elem_of_singleton. left. rewrite Hq. by left. }
        pose proof (tree_after_store _ p2 p3 page h c m1 f1 J7 ltac:(list_in) Hlf1 D1) as T1.
        pose proof (tree_after_store _ p2 p3 page h _ m2 f2 J8 ltac:(list_in) Hlf2 D1) as T2.
        assert (Hkr : kr <> []) by (intros E; rewrite E in Zkr; done).
        rewrite D3 in A1, A2.
        destruct (insert_split _ h pool p3 page next prev kk cc k v idx c (sp_new cout) s ma mi mb fa fi fb m1 m2 f1 f2
          (p_next_page p2) kl sm kr p2 Hd W3 J1 J2 J3 J10 J11 T1 T2 J9 (relinks_after _ _ _ _ _ _ _ Hpf Hlf D1 J12)
          Hall Zkl Hkr Hle2 eq_refl D2 A1 A2)
          as (n1 & n2 & g1 & g2 & G1 & G2 & G3 & G4 & G5 & G6 & G7 & G8 & G9).
        exists p3, out. split; [reflexivity|]. split; [exact Hr3|]. split; [by transitivity p2|].
        split; [|lia|exact D4| |].
        -- apply (writes_weaken (page :: fi)); [exact W3|]. intros q Hq. list_in.
        -- right. rewrite D3. split; [lia|]. exists sm, n1, n2, g1, g2.
           split; [exact G1|]. split; [exact G2|]. split; [exact G3|]. split; [exact Ol|]. split; [exact Os|].
           split; [rewrite <- Q2; exact Osm|]. split; [exact G4|]. split; [exact G5|]. split; [exact G6|]. split; [exact G7|]. split; [exact G8|exact G9].
        -- intros _. unfold GARRY_MAX_KEYS_PER_NODE in Hfull. split.
           ++ exists (AInternal next prev kk cc). split; [exact Ha|]. cbn [an_pairs]. rewrite zlen_map. lia.
           ++ eexists. split; [exact A1|]. cbn [an_pairs]. rewrite zlen_map. lia.
Qed.
