(* ===== verification/BtreeInsert.v ===== *)
(** Insertion into the B-tree as a whole, [garry_btree_insert] of
    [src/src/btree_modify.c]: it refines the insertion into a map, grows the tree by
    at most one level, and what happens when a node does not fit its page. *)

From Stdlib Require Import Sorting.Sorted.
From stdpp Require Import gmap.
From S2P Require Import Prelude Endian KeyEncoding BtreeCompression RecordCodec SlottedPage FileIo BufferPool.
From S2P Require Import PoolClient BtreeNode NodeView BtreeSearch BtreeModify.

(** The number of entries a page holds is determined by the page. *)
Lemma page_count ps page a b : page_node ps page a -> page_node ps page b -> zlen (an_pairs a) = zlen (an_pairs b).
Proof.
  assert (Hrec : forall c, zlen (an_records c) = 1 + zlen (an_pairs c))
    by (intros c; unfold an_records; by rewrite zlen_cons, zlen_map).
  pose proof (zlen_nonneg (an_pairs a)). pose proof (zlen_nonneg (an_pairs b)).
  intros [[Ha|[-> Ha]] _ _] [[Hb|[-> Hb]] _ _]; pose proof (rep_count _ _ _ Ha) as Ea;
    rewrite (rep_count _ _ _ Hb), ?Hrec in Ea; [|exfalso|exfalso|done].
  - assert (1 + zlen (an_pairs b) = 1 + zlen (an_pairs a)) by congruence. lia.
  - assert (zlen (@nil (list Z)) = 1 + zlen (an_pairs a)) as E by congruence. change (zlen (@nil (list Z))) with 0 in E. lia.
  - assert (1 + zlen (an_pairs b) = zlen (@nil (list Z))) as E by congruence. change (zlen (@nil (list Z))) with 0 in E. lia.
Qed.

(** The node written as the new root. *)
Lemma new_root_node nd a root s sep new :
  node_rep nd a -> GARRY_MAX_KEY_SIZE <= zlen sep -> slice sep 0 (zlen s) = Some s -> short s ->
  exists cs0 keys lens cs1 cs2, wr (nd_children nd) 0 root = Some cs0 /\
    put_array (nd_keys nd) 0 sep GARRY_MAX_KEY_SIZE = Some keys /\ wr (nd_key_lens nd) 0 (zlen s) = Some lens /\
    wr cs0 1 new = Some cs1 /\ forZ 2 (GARRY_MAX_KEYS_PER_NODE + 1) (fun i cs => wr cs i 0) cs1 = Some cs2 /\
    forall hdr, node_rep (set_links (set_count (set_children (set_keys (set_kind nd GARRY_NODE_INTERNAL hdr) keys lens) cs2) 1) (-1) (-1))
      (AInternal (-1) (-1) [s] [root; new]).
Proof.
  intros Hn Hz Hs Hsh. destruct (rep_view _ _ Hn) as (ks & vs & Hw & Zk & Zv & _ & _).
  pose proof (na_children _ (nr_arrays _ _ Hn)) as Hc.
  destruct (nd_children nd) as [|c0 [|c1 [|c2 [|c3 [|? ?]]]]]; try (cbn in Hc; lia); try done.
  2: { exfalso. unfold zlen in Hc. cbn [length] in Hc. lia. }
  destruct (put_separator nd ks vs 0 sep s Hw) as (keys & lens & ks2 & E1 & E2 & Ek & B); [lia|done|done|unfold short, GARRY_MAX_KEY_SIZE in *; lia|].
  exists [root; c1; c2; c3], keys, lens, [root; new; c2; c3], [root; new; 0; 0].
  split; [done|]. split; [exact E1|]. split; [exact E2|]. split; [done|]. split; [done|]. intros hdr.
  destruct (becomes_view _ _ _ _ _ B) as [V1 V2].
  apply (view_internal _ ks2 vs); cbn [set_links set_count set_children set_keys set_kind nd_children nd_kind nd_next nd_prev nd_count]; try done.
  - by rewrite (blit_zlen _ _ _ _ Ek).
  - exact (slice_blit _ _ _ _ Ek).
Qed.

(** The operations a caller must be able to count: thirteen a level, nine for the root. *)
Definition insert_cost (h : nat) : Z := level_cost * (Z.of_nat h + 1) + 9.

Lemma btree_insert_spec mem h p root m fp fuel n pins key klen value vlen k v :
  (forall q, mem q = true) -> btree h p root m fp -> ready (n + insert_cost h) pins [] p -> 0 <= n ->
  zlen pins < p_capacity p -> p_next_page p + Z.of_nat h + 2 <= id_limit -> page_size_ok (p_page_size p) ->
  new_entry (p_page_size p) key klen value vlen k v -> (h < fuel)%nat ->
  exists p' root' h' fp', garry_btree_insert mem fuel p root key klen value vlen = Some (p', root', true) /\
    btree h' p' root' (upsert k v m) fp' /\ (h' = h \/ h' = S h) /\ ready n pins [] p' /\ stable pins p p' /\
    writes fp p p' /\ p_next_page p' <= p_next_page p + Z.of_nat h + 2 /\
    forall q, q ∈ fp' -> q ∈ fp \/ p_next_page p <= q < p_next_page p'.
Proof.
  intros Hmem [Ht Hnd Hf Hlk] Hr Hn Hc Hid Hps Hne Hfuel. unfold insert_cost in Hr. pose proof (rdy_next _ _ _ _ Hr) as H0.
  unfold garry_btree_insert. destruct (tree_root _ _ _ _ _ _ Ht) as [f0 Efp]. pose proof Hf as Hf'. rewrite Efp in Hf'.
  apply Forall_cons in Hf' as [Hroot _].
  assert (Ha : exists a, node_at (p_page_size p) (pool_view p) root a).
  { destruct h; cbn [tree_at] in Ht; [destruct Ht as (_ & _ & next & prev & Ha); by eexists|].
    destruct Ht as (next & prev & ks & cs & fps & _ & _ & Ha & _). by eexists. }
  destruct Ha as [a Ha].
  destruct (load_at_ready (n + level_cost * (Z.of_nat h + 1) + 7) pins p root a ltac:(eapply ready_le; [exact Hr|unfold level_cost; lia])
    ltac:(unfold level_cost; lia) Hc Hroot Ha) as (p1 & nd & -> & Hnrep & Hr1 & Hk1 & Hs1). cbn [mbind option_bind].
  rewrite (nr_count _ _ Hnrep).
  destruct (insert_rec_spec mem h Hmem p1 root m fp fuel (n + 7) pins key klen value vlen k v (zeros GARRY_MAX_RECORD_SIZE))
    as (p2 & out & -> & Hr2 & Hs2 & [I1 I2 I3 I4 I5]); rewrite ?(kp_capacity _ _ Hk1), ?(kp_next _ _ Hk1), ?(kp_page_size _ _ Hk1);
    try done; [|eapply ready_le; [exact Hr1|unfold level_cost; lia]|lia|lia|].
  { apply (tree_frame _ (pool_view p)); [|exact Ht]. intros q _. apply (kp_view _ _ Hk1). }
  rewrite (kp_next _ _ Hk1) in I2. rewrite (kp_page_size _ _ Hk1) in I4, I5. cbn [mbind option_bind].
  assert (W2 : writes fp p p2) by (eapply writes_trans; [apply (keeps_writes fp); exact Hk1|exact I1|by left]).
  pose proof (ws_page_size _ _ _ W2) as Q2. pose proof (ws_capacity _ _ _ W2) as C2. pose proof (ws_next _ _ _ W2) as N2.
  change (zlen (zeros GARRY_MAX_RECORD_SIZE)) with GARRY_MAX_RECORD_SIZE in I3.
  assert (Hlt : forall f q, covers p p2 fp f -> q ∈ f -> 0 <= q < p_next_page p2).
  { intros f q [_ Hin] Hq. rewrite Forall_forall in Hf. destruct (Hin q Hq) as [Ho|?]; [specialize (Hf q Ho); cbn in Hf|]; lia. }
  destruct I4 as [(E1 & fp' & T & C & L)|(E1 & s & m1 & m2 & f1 & f2 & J1 & J2 & J3 & J4 & J5 & J6 & J7 & J8 & J9 & J10 & J11 & J12)].
  - rewrite decide_False by lia. apply (covers_keeps p) in C; [|exact Hk1]. apply (relinks_keeps _ p) in L; [|exact Hk1].
    exists p2, root, h, fp'. split; [reflexivity|]. split.
    { split; [by rewrite Q2|apply C| |rewrite Q2; apply (relink_linked _ _ L Hlk)]. apply Forall_forall. intros q Hq. by apply (Hlt fp'). }
    split; [by left|]. split; [eapply ready_le; [exact Hr2|lia]|]. split; [by transitivity p1|]. split; [exact W2|]. split; [lia|apply C].
  - rewrite decide_True by lia. apply (covers_keeps p) in J9; [|exact Hk1]. apply (relinks_keeps _ p) in J12; [|exact Hk1].
    destruct (I5 ltac:(lia)) as [(a1 & Ha1 & Hc1) (a2 & Ha2 & Hc2)].
    destruct (load_at_ready (n + 5) pins p2 root a2 ltac:(eapply ready_le; [exact Hr2|lia]) ltac:(lia) ltac:(lia) ltac:(lia))
      as (p3 & nd3 & -> & Hnrep3 & Hr3 & Hk3 & Hs3); [by rewrite Q2|]. cbn [mbind option_bind].
    assert (Hcount : zlen (an_pairs a1) = zlen (an_pairs a)).
    { apply (page_count (p_page_size p) (pool_view p root)); [|apply Ha]. destruct Ha1 as [Ha1 _]. by rewrite (kp_view _ _ Hk1) in Ha1. }
    rewrite (nr_count _ _ Hnrep3). rewrite decide_True by lia. unfold garry_allocate_internal.
    assert (N3 : p_next_page p3 = p_next_page p2) by apply Hk3. assert (Q3 : p_page_size p3 = p_page_size p) by (by rewrite (kp_page_size _ _ Hk3)).
    assert (C3 : p_capacity p3 = p_capacity p) by (by rewrite (kp_capacity _ _ Hk3)).
    pose proof Hps as [Hps1 Hps2]. unfold id_limit, GARRY_PAGE_ID_BIAS in Hid.
    destruct (allocate_node_ready GARRY_NODE_INTERNAL (n + 2) pins p3) as (p4 & -> & Hr4 & Hf4 & Hs4);
      [eapply ready_le; [exact Hr3|lia]|lia|lia|lia|rewrite Q3; unfold GARRY_SLOT_SIZE in *; lia|]. cbn [mbind option_bind].
    rewrite N3. set (R := p_next_page p2) in *. rewrite decide_False by lia. destruct Hf4 as [F1 F2 F3 F4 _ _ _]. rewrite N3 in F3, F4.
    destruct (new_root_node nd3 a2 root s (sp_sep out) (sp_new out) Hnrep3) as (cs0 & keys & lens & cs1 & cs2 & R1 & R2 & R3 & R4 & R5 & Hroot2);
      [rewrite I3; done|exact J5|by apply J6|].
    cbn [set_kind nd_children nd_keys nd_key_lens]. rewrite J4, R1. cbn [mbind option_bind]. rewrite R2. cbn [mbind option_bind].
    rewrite R3. cbn [mbind option_bind]. rewrite R4. cbn [mbind option_bind]. rewrite R5. cbn [mbind option_bind].
    set (nr := set_links _ _ _).
    assert (Hok : node_ok (p_page_size p) (AInternal (-1) (-1) [s] [root; sp_new out])).
    { apply node_ok_internal; [done|done| |by apply Forall_singleton|done|done].
      apply Forall_cons. split; [apply page_id_ok; unfold id_limit, GARRY_PAGE_ID_BIAS; lia|].
      apply Forall_singleton. apply page_id_ok; unfold id_limit, GARRY_PAGE_ID_BIAS; lia. }
    destruct (store_at_ready n pins p4 R nr (AInternal (-1) (-1) [s] [root; sp_new out]) Hr4 Hn)
      as (p5 & -> & Hr5 & Hw5 & Ha5 & Hs5 & N5 & V5); [lia|lia|apply Hroot2|by rewrite F2, Q3|by rewrite F2, Q3|]. cbn [mbind option_bind].
    destruct (mark_dirty_any n pins [] p5 R Hr5) as (p6 & -> & Hr6 & Hk6 & Hs6); [lia|apply not_elem_of_nil|]. cbn [mbind option_bind].
    assert (V6 : forall q, q <> R -> pool_view p6 q = pool_view p2 q).
    { intros q Hq. by rewrite (kp_view _ _ Hk6), V5, F4, (kp_view _ _ Hk3). }
    assert (Q6 : p_page_size p6 = p_page_size p) by (by rewrite (kp_page_size _ _ Hk6), (ws_page_size _ _ _ Hw5), F2).
    assert (N6 : p_next_page p6 = R + 1) by (rewrite (kp_next _ _ Hk6); lia).
    assert (Hnew : forall q, q ∈ f1 ++ f2 -> q <> R) by (intros q Hq ->; pose proof (Hlt _ R J9 Hq); lia).
    exists p6, R, (S h), (R :: f1 ++ f2). split; [reflexivity|]. split; [|split; [by right|split; [exact Hr6|split; [|split; [|split; [lia|]]]]]].
    + assert (Ha6 : node_at (p_page_size p) (pool_view p6) R (AInternal (-1) (-1) [s] [root; sp_new out])).
      { apply (node_at_view _ (pool_view p5)); [apply (kp_view _ _ Hk6)|]. by rewrite F2, Q3 in Ha5. }
      split; rewrite ?Q6.
      * exists (-1), (-1), [s], [root; sp_new out], (f1 ++ f2). split; [done|]. split; [done|]. split; [exact Ha6|].
        exists m1, m2, f1, f2. split; [exact J1|]. split; [done|]. split; [|split; [exact J2|split; [split; [|exact J3]|by split]]].
        -- apply (tree_frame _ (pool_view p2)); [|exact J7]. intros q Hq. apply V6, Hnew. list_in.
        -- apply (tree_frame _ (pool_view p2)); [|exact J8]. intros q Hq. apply V6, Hnew. list_in.
      * apply NoDup_cons. split; [|apply J9]. intros Hin. by apply (Hnew R).
      * apply Forall_cons. split; [lia|]. apply Forall_forall. intros q Hq. pose proof (Hlt _ q J9 Hq). cbn. lia.
      * rewrite leaf_seq_internal by (by eapply leaf_next_internal).
        rewrite (leaf_seq_view _ (pool_view p2)) by (intros q Hq; by apply V6, Hnew). apply (relink_linked _ _ J12 Hlk).
    + transitivity p1; [exact Hs1|]. transitivity p2; [exact Hs2|]. transitivity p3; [exact Hs3|]. transitivity p4; [exact Hs4|].
      intros q j Hq Hj. rewrite Hs6. by apply Hs5.
    + split; [rewrite (kp_capacity _ _ Hk6), (ws_capacity _ _ _ Hw5); lia|exact Q6|lia|].
      intros q Hq Hnq. rewrite V6 by lia. by apply W2.
    + intros q [->|Hq]%elem_of_cons; [right; lia|]. destruct (proj2 J9 q Hq); [by left|right; lia].
Qed.

(** * The empty tree *)

Lemma empty_leaf_tree p root :
  node_at (p_page_size p) (pool_view p) root (ALeaf (-1) (-1) []) -> 0 <= root < p_next_page p -> btree 0 p root [] [root].
Proof.
  intros Ha Hr. split; [|apply NoDup_singleton|by apply Forall_singleton|].
  - apply (leaf_tree _ _ _ (-1) (-1)); [exact Ha|constructor].
  - rewrite (leaf_seq_leaf _ _ _ _ (-1)) by (by eapply leaf_next_leaf). by split.
Qed.

Lemma empty_tree n pins p :
  ready (n + 3) pins [] p -> 0 <= n -> zlen pins < p_capacity p -> p_next_page p < id_limit -> page_size_ok (p_page_size p) ->
  exists p', garry_allocate_leaf p = Some (p', p_next_page p) /\ ready n pins [] p' /\ stable pins p p' /\
    p_next_page p' = p_next_page p + 1 /\ writes [] p p' /\ btree 0 p' (p_next_page p) [] [p_next_page p].
Proof.
  intros Hr Hn Hc Hid [Hps1 Hps2]. pose proof (rdy_next _ _ _ _ Hr). unfold id_limit, GARRY_PAGE_ID_BIAS in Hid.
  destruct (allocate_node_ready GARRY_NODE_LEAF n pins p Hr Hn Hc) as (p' & E & Hr' & Hf & Hs);
    [lia|unfold GARRY_SLOT_SIZE in *; lia|].
  exists p'. split; [exact E|]. split; [exact Hr'|]. split; [exact Hs|]. split; [apply Hf|].
  split; [by apply (fresh_writes _ GARRY_NODE_LEAF)|]. destruct Hf as [F1 F2 F3 F4 F5 F6 F7].
  assert (Ha : node_at (p_page_size p) (pool_view p') (p_next_page p) (ALeaf (-1) (-1) [])).
  { split; [split; [by right|exact F6|exact F7]|]. apply node_ok_leaf; [done|done|constructor|done]. }
  apply empty_leaf_tree; [by rewrite F2|lia].
Qed.

(** * Insertion is insertion into a map *)

(** C8: insertion refines insertion into a map.  On a tree of any height, with
    memory for the splits, [garry_btree_insert] returns 1; the pages then hold,
    under the returned root, a tree one level higher at most whose entries are the
    old ones with the key bound to the value; only pages of the tree and new pages
    are written, and the pins are those before. *)
Theorem btree_insert_refines mem h p root m fp fuel n pins key klen value vlen k v
  (Hmem : forall q, mem q = true) (Ht : btree h p root m fp) (Hr : ready (n + insert_cost h) pins [] p) (Hn : 0 <= n)
  (Hc : zlen pins < p_capacity p) (Hid : p_next_page p + Z.of_nat h + 2 <= id_limit)
  (Hps : page_size_ok (p_page_size p)) (Hne : new_entry (p_page_size p) key klen value vlen k v) (Hfuel : (h < fuel)%nat) :
  exists p' root' h' m' fp', garry_btree_insert mem fuel p root key klen value vlen = Some (p', root', true) /\
    btree h' p' root' m' fp' /\ contents m' = <[k:=v]> (contents m) /\ sorted m' /\ (h' = h \/ h' = S h) /\
    ready n pins [] p' /\ writes fp p p' /\ forall q, q ∈ fp' -> q ∈ fp \/ p_next_page p <= q < p_next_page p'.
Proof.
  destruct (btree_insert_spec mem h p root m fp fuel n pins key klen value vlen k v Hmem Ht Hr Hn Hc Hid Hps Hne Hfuel)
    as (p' & root' & h' & fp' & E & H1 & H2 & H3 & _ & H4 & _ & H5).
  exists p', root', h', (upsert k v m), fp'. split; [exact E|]. split; [exact H1|]. split; [apply contents_upsert|].
  split; [apply upsert_sorted; eapply tree_sorted; apply Ht|]. split; [exact H2|]. split; [exact H3|]. split; [exact H4|exact H5].
Qed.

(** A value is found after it has been inserted, and every other key is found as before. *)
Theorem insert_then_search mem h p root m fp fuel n pins key klen value vlen k v key' klen' k' result
  (Hmem : forall q, mem q = true) (Ht : btree h p root m fp)
  (Hr : ready (n + 2 * (Z.of_nat h + 2) + insert_cost h) pins [] p) (Hn : 0 <= n)
  (Hc : zlen pins < p_capacity p) (Hid : p_next_page p + Z.of_nat h + 2 <= id_limit)
  (Hps : page_size_ok (p_page_size p)) (Hne : new_entry (p_page_size p) key klen value vlen k v) (Hfuel : (S h < fuel)%nat)
  (Hk' : slice key' 0 klen' = Some k') (Hb' : Forall is_byte k') (Hres : GARRY_MAX_KEY_SIZE <= zlen result) :
  exists p' root' p2 r, garry_btree_insert mem fuel p root key klen value vlen = Some (p', root', true) /\
    garry_leaf_find_search fuel p' root' key' klen' result = Some (p2, r) /\
    match (if decide (k' = k) then Some v else contents m !! k') with
    | Some x => exists res, r = Some (res, zlen x) /\ slice res 0 (zlen x) = Some x
    | None => r = None
    end.
Proof.
  destruct (btree_insert_spec mem h p root m fp fuel (n + 2 * (Z.of_nat h + 2)) pins key klen value vlen k v Hmem Ht)
    as (p' & root' & h' & fp' & E & [T1 T2 T3 _] & Hh & Hr' & _ & Hw & _); try done; [lia|lia|].
  destruct (search_spec _ h' p' root' _ fp' fuel n pins key' klen' k' result T1 T3) as (p2 & r & E2 & _ & _ & _ & Hm); try done.
  - eapply ready_le; [exact Hr'|]. destruct Hh as [-> | ->]; lia.
  - by rewrite (ws_capacity _ _ _ Hw).
  - destruct Hh as [-> | ->]; lia.
  - exists p', root', p2, r. split; [exact E|]. split; [exact E2|]. rewrite contents_upsert in Hm.
    destruct (decide (k' = k)) as [->|Hne'].
    + rewrite lookup_insert_eq in Hm. destruct Hm as (res & -> & Hs & _). by exists res.
    + rewrite lookup_insert_ne in Hm by done. destruct (contents m !! k') as [x|]; [|exact Hm].
      destruct Hm as (res & -> & Hs & _). by exists res.
Qed.

(** * Where insertion fails or loses keys *)

(** A pool of four 512-byte pages slots, nothing allocated below page 2. *)
Definition sample_tree_base : garry_buffer_pool :=
  Pool 4 512 (replicate 4 (Slot (zeros 512) 0 0 false false 0)) (File [] 0 true []) 2 (-1) 0.

(** Inserting one-byte keys with one-byte values, one after the other. *)
Definition insert_all (mem : Z -> bool) (p : garry_buffer_pool) (root : Z) (ks : list Z)
  : option (garry_buffer_pool * Z * list bool) :=
  foldl (fun st k => '(p, root, rs) ← st;
    '(p, root, r) ← garry_btree_insert mem 8 p root [k] 1 [k + 100] 1; Some (p, root, rs ++ [r])) (Some (p, root, [])) ks.

Definition found (fuel : nat) (p : garry_buffer_pool) (root : Z) (key : list Z) : option bool :=
  '(_, r) ← garry_leaf_find_search fuel p root key (zlen key) (zeros 512);
  Some (match r with Some _ => true | None => false end).

(** When [malloc] fails for the split of the full root, the insertion returns
    0, but the leaf below has been split already and its right half is linked
    nowhere: key 5, inserted before, is no longer found. *)
Theorem failed_split_loses_key :
  (p0 ← garry_allocate_leaf sample_tree_base;
   '(p, root, rs) ← insert_all (fun _ => true) p0.1 p0.2 [1; 2; 3; 4; 5];
   before ← found 8 p root [5];
   '(p, root', r) ← garry_btree_insert (fun q => bool_decide (q <> root)) 8 p root [6] 1 [106] 1;
   after ← found 8 p root' [5];
   Some (rs, before, r, after)) = Some ([true; true; true; true; true], true, false, false).
Proof. vm_compute. reflexivity. Qed.

(** An insertion whose node does not fit its page returns 1 and the key is
    lost: [garry_store_node] gives up without an error.  Here two keys of 200 bytes
    with values of 100 bytes on a page of 512 bytes. *)
Theorem unfit_node_loses_key :
  (p0 ← garry_allocate_leaf sample_tree_base;
   '(p, root, r1) ← garry_btree_insert (fun _ => true) 8 p0.1 p0.2 (replicate 200 1) 200 (replicate 100 7) 100;
   '(p, root, r2) ← garry_btree_insert (fun _ => true) 8 p root (replicate 200 2) 200 (replicate 100 7) 100;
   f1 ← found 8 p root (replicate 200 1);
   f2 ← found 8 p root (replicate 200 2);
   Some (r1, r2, f1, f2)) = Some (true, true, true, false).
Proof. vm_compute. reflexivity. Qed.

(** A key of [GARRY_MAX_KEY_SIZE] bytes, which the storage layer accepts, is
    stored with the length byte 0 and not found. *)
Theorem longest_key_not_found :
  (p0 ← garry_allocate_leaf sample_tree_base;
   '(p, root, r) ← garry_btree_insert (fun _ => true) 8 p0.1 p0.2 (replicate 256 1) GARRY_MAX_KEY_SIZE [7] 1;
   f ← found 8 p root (replicate 256 1);
   Some (r, f)) = Some (true, false).
Proof. vm_compute. reflexivity. Qed.

(** * Witnesses *)

Lemma sample_tree_ready n : 0 <= n < 2 ^ 32 - 1 -> ready n [] [] sample_tree_base.
Proof.
  intros Hn. apply (create_ready (File [] 0 true []) 4 512 2 (set_next_page sample_tree_base 0));
    [reflexivity|lia| |lia|done].
  split; [done|done|]. by exists 0.
Qed.

Definition sample_tree : garry_buffer_pool := default sample_tree_base (fst <$> garry_allocate_leaf sample_tree_base).

Lemma sample_tree_ok : btree 0 sample_tree 2 [] [2] /\ ready 1000000 [] [] sample_tree /\
  p_capacity sample_tree = 4 /\ p_page_size sample_tree = 512 /\ p_next_page sample_tree = 3.
Proof.
  destruct (empty_tree 1000000 [] sample_tree_base) as (p' & E & Hr & _ & Hnx & Hw & Ht);
    [by apply sample_tree_ready|lia|done|done|vm_compute; split; congruence|].
  assert (Hs : sample_tree = p') by (unfold sample_tree; by rewrite E). rewrite Hs.
  split; [exact Ht|]. split; [exact Hr|]. split; [by rewrite (ws_capacity _ _ _ Hw)|].
  split; [by rewrite (ws_page_size _ _ _ Hw)|by rewrite Hnx].
Qed.

Lemma sample_entry : new_entry 512 [97; 98; 0] 2 [7; 8; 9] 2 [97; 98] [7; 8].
Proof. split; [done|done|]. split; [done|done|by repeat constructor|done]. Qed.

Lemma search_correct_witness :
  exists p', garry_leaf_find_search 2 sample_tree 2 [97] 1 (zeros 512) = Some (p', None) /\ btree 0 p' 2 [] [2].
Proof.
  destruct sample_tree_ok as (Ht & Hr & Hc & Hps & Hnx).
  destruct (search_correct 0 sample_tree 2 [] [2] 2 0 [] [97] 1 [97] (zeros 512)) as (p' & r & E & _ & _ & H & Hm).
  - exact Ht.
  - eapply ready_le; [exact Hr|lia].
  - lia.
  - rewrite Hc. reflexivity.
  - reflexivity.
  - by repeat constructor.
  - vm_compute. discriminate.
  - lia.
  - rewrite (lookup_empty [97] : contents [] !! [97] = None) in Hm. subst r.
    exists p'. split; [exact E|exact H].
Defined.

Lemma btree_insert_refines_witness : exists p' root' h' m' fp',
  garry_btree_insert (fun _ => true) 2 sample_tree 2 [97; 98; 0] 2 [7; 8; 9] 2 = Some (p', root', true) /\
  btree h' p' root' m' fp' /\ contents m' = {[ [97; 98] := [7; 8] ]}.
Proof.
  destruct sample_tree_ok as (Ht & Hr & Hc & Hps & Hnx).
  destruct (btree_insert_refines (fun _ => true) 0 sample_tree 2 [] [2] 2 0 [] [97; 98; 0] 2 [7; 8; 9] 2 [97; 98] [7; 8])
    as (p' & root' & h' & m' & fp' & E & H & Hm & _).
  - reflexivity.
  - exact Ht.
  - eapply ready_le; [exact Hr|unfold insert_cost, level_cost; lia].
  - lia.
  - rewrite Hc. reflexivity.
  - rewrite Hnx. vm_compute. discriminate.
  - rewrite Hps. vm_compute. split; congruence.
  - rewrite Hps. exact sample_entry.
  - lia.
  - exists p', root', h', m', fp'. split; [exact E|]. split; [exact H|]. rewrite Hm. reflexivity.
Defined.

Lemma insert_then_search_witness : exists p' root' p2 res,
  garry_btree_insert (fun _ => true) 2 sample_tree 2 [97; 98; 0] 2 [7; 8; 9] 2 = Some (p', root', true) /\
  garry_leaf_find_search 2 p' root' [97; 98] 2 (zeros 512) = Some (p2, Some (res, 2)) /\ slice res 0 2 = Some [7; 8].
Proof.
  destruct sample_tree_ok as (Ht & Hr & Hc & Hps & Hnx).
  destruct (insert_then_search (fun _ => true) 0 sample_tree 2 [] [2] 2 0 [] [97; 98; 0] 2 [7; 8; 9] 2 [97; 98] [7; 8]
    [97; 98] 2 [97; 98] (zeros 512)) as (p' & root' & p2 & r & E & E2 & Hm).
  - reflexivity.
  - exact Ht.
  - eapply ready_le; [exact Hr|unfold insert_cost, level_cost; lia].
  - lia.
  - rewrite Hc. reflexivity.
  - rewrite Hnx. vm_compute. discriminate.
  - rewrite Hps. vm_compute. split; congruence.
  - rewrite Hps. exact sample_entry.
  - lia.
  - reflexivity.
  - by repeat constructor.
  - vm_compute. discriminate.
  - rewrite decide_True in Hm by reflexivity. destruct Hm as (res & -> & Hs).
    exists p', root', p2, res. split; [exact E|]. split; [exact E2|exact Hs].
Defined.

(** A leaf with one entry. *)
Definition sample_node : garry_btree_node :=
  BtreeNode GARRY_NODE_LEAF (PageHeader GARRY_NODE_LEAF 0 0 0 0 0 0 0)
    [97 :: zeros 255; zeros 256; zeros 256] [1; 0; 0] [7 :: 8 :: zeros 254; zeros 256; zeros 256] [2; 0; 0]
    (replicate 4 0) (-1) (-1) 1.

Lemma sample_node_rep : node_rep sample_node (ALeaf (-1) (-1) [([97], [7; 8])]).
Proof.
  split.
  - split; [split|split|split|split|]; try reflexivity; repeat constructor; vm_compute; congruence.
  - reflexivity.
  - reflexivity.
  - reflexivity.
  - repeat split; reflexivity.
  - repeat split; reflexivity.
  - exact I.
Qed.

Lemma sample_node_wf : an_wf (ALeaf (-1) (-1) [([97], [7; 8])]).
Proof.
  unfold an_wf, id_ok, short, GARRY_PAGE_ID_BIAS, GARRY_MAX_KEYS_PER_NODE. cbn [an_links an_children an_pairs fst snd].
  split; [lia|]. split; [lia|]. split; [constructor|]. split; [|by split].
  constructor; [|constructor]. by split.
Qed.

Lemma node_roundtrip_witness : exists p1 p2 nd2,
  garry_store_node sample_tree 2 sample_node = Some p1 /\ garry_load_node p1 2 = Some (p2, nd2) /\
  node_rep nd2 (ALeaf (-1) (-1) [([97], [7; 8])]).
Proof.
  destruct sample_tree_ok as (Ht & Hr & Hc & Hps & Hnx).
  destruct (node_roundtrip 0 [] sample_tree 2 sample_node (ALeaf (-1) (-1) [([97], [7; 8])]))
    as (p1 & p2 & nd2 & E1 & E2 & Hn & _).
  - eapply ready_le; [exact Hr|lia].
  - lia.
  - rewrite Hc. reflexivity.
  - rewrite Hnx. lia.
  - apply sample_node_rep.
  - exact sample_node_wf.
  - rewrite Hps. unfold node_fits. vm_compute. discriminate.
  - rewrite Hps. vm_compute. discriminate.
  - exists p1, p2, nd2. split; [exact E1|]. split; [exact E2|exact Hn].
Defined.
