(* ===== verification/BtreeDelete.v ===== *)
(** Deletion from the B-tree, [src/src/btree_modify.c]: the descent, the removal
    from the leaf, the merging of an underflowed child with a sibling, and the
    shrinking of the root. *)

From Stdlib Require Import Sorting.Sorted.
From stdpp Require Import gmap.
From S2P Require Import Prelude Endian KeyEncoding BtreeCompression RecordCodec SlottedPage FileIo BufferPool.
From S2P Require Import PoolClient BtreeNode NodeView BtreeSearch BtreeModify BtreeInsert.

(** * The code *)

(** The keys a merge of two siblings would hold; one more for internal nodes,
    which take the separator of the parent between them. *)
Definition merged_keys (dst src : garry_btree_node) : Z :=
  nd_count dst + nd_count src + (if decide (nd_kind dst = GARRY_NODE_INTERNAL) then 1 else 0).

(** The entries (and children) of [src] appended to [dst]; [sep] is the index of
    the separator in [parent]. *)
Definition merge_nodes (parent : garry_btree_node) (sep : Z) (dst src : garry_btree_node) : option garry_btree_node :=
  dst ← (if decide (nd_kind dst = GARRY_NODE_INTERNAL) then
           dst ← move_key dst (nd_count dst) parent sep;
           Some (set_count dst (nd_count dst + 1))
         else Some dst);
  let base := nd_count dst in
  dst ← forZ 0 (nd_count src) (fun i dst => move_entry dst (base + i) src i) dst;
  dst ← (if decide (nd_kind src = GARRY_NODE_INTERNAL) then
           forZ 0 (nd_count src + 1) (fun i dst => move_child dst (base + i) src i) dst
         else Some dst);
  let dst := set_count dst (nd_count dst + nd_count src) in
  Some (set_links dst (nd_next src) (nd_prev dst)).

(** Key [sep] and child [sep + 1] taken out of the parent. *)
Definition unlink_child (parent : garry_btree_node) (sep : Z) : option garry_btree_node :=
  parent ← forZ sep (nd_count parent - 1) (fun i parent =>
    parent ← move_key parent i parent (i + 1); move_child parent (i + 1) parent (i + 2)) parent;
  Some (set_count parent (nd_count parent - 1)).

(** The two branches of the source differ only in the sibling that is merged: the
    left one takes the child over, or the child takes the right one over. *)
Definition rebalance_child (pool : garry_buffer_pool) (parent_page : Z) (parent : garry_btree_node) (child_idx : Z)
  : option (garry_buffer_pool * garry_btree_node * bool) :=
  child_page ← rd (nd_children parent) child_idx;
  '(dst_page, src_page, sep) ←
    (if decide (child_idx > 0) then
       left_page ← rd (nd_children parent) (child_idx - 1); Some (left_page, child_page, child_idx - 1)
     else
       right_page ← rd (nd_children parent) (child_idx + 1); Some (child_page, right_page, child_idx));
  '(pool, dst) ← garry_load_node pool dst_page;
  '(pool, src) ← garry_load_node pool src_page;
  if decide (merged_keys dst src > GARRY_MAX_KEYS_PER_NODE) then Some (pool, parent, false) else
  dst ← merge_nodes parent sep dst src;
  pool ← garry_store_node pool dst_page dst;
  pool ← garry_pool_mark_dirty pool dst_page;
  parent ← unlink_child parent sep;
  pool ← garry_store_node pool parent_page parent;
  pool ← garry_pool_mark_dirty pool parent_page;
  Some (pool, parent, true).

(** The entries above [idx] moved down by one. *)
Definition remove_entry (node : garry_btree_node) (idx : Z) : option garry_btree_node :=
  node ← forZ idx (nd_count node - 1) (fun i node => move_entry node i node (i + 1)) node;
  Some (set_count node (nd_count node - 1)).

Fixpoint btree_delete_rec (fuel : nat) (pool : garry_buffer_pool) (page : Z) (key : list Z) (klen : Z)
  : option (garry_buffer_pool * bool) :=
  match fuel with
  | O => None
  | S fuel =>
      '(pool, node) ← garry_load_node pool page;
      if decide (nd_kind node = GARRY_NODE_LEAF) then
        idx ← garry_leaf_find node key klen;
        if decide (idx >= 0) then
          node ← remove_entry node idx;
          pool ← garry_store_node pool page node;
          pool ← garry_pool_mark_dirty pool page;
          Some (pool, bool_decide (nd_count node < GARRY_BTREE_MIN_KEYS))
        else Some (pool, bool_decide (nd_count node < GARRY_BTREE_MIN_KEYS))
      else
        idx ← garry_internal_find node key klen;
        child ← rd (nd_children node) idx;
        '(pool, underflowed) ← btree_delete_rec fuel pool child key klen;
        '(pool, node) ← (if underflowed : bool then
                           '(pool, node, _) ← rebalance_child pool page node idx; Some (pool, node)
                         else Some (pool, node));
        Some (pool, bool_decide (nd_count node < GARRY_BTREE_MIN_KEYS))
  end.

(** [*root] is returned. *)
Definition garry_btree_delete (fuel : nat) (pool : garry_buffer_pool) (root : Z) (key : list Z) (klen : Z)
  : option (garry_buffer_pool * Z) :=
  '(pool, underflowed) ← btree_delete_rec fuel pool root key klen;
  if underflowed : bool then
    '(pool, root_node) ← garry_load_node pool root;
    if decide (nd_kind root_node = GARRY_NODE_INTERNAL /\ nd_count root_node = 0) then
      pool ← garry_pool_free_page pool root;
      root ← rd (nd_children root_node) 0;
      Some (pool, root)
    else Some (pool, root)
  else Some (pool, root).

(** * Removing an entry from a leaf *)

(** The list without the entry of [k]. *)
Definition remove (k : list Z) (m : list entry) : list entry := filter (fun e => e.1 <> k) m.

Lemma contents_remove k m : contents (remove k m) = delete k (contents m).
Proof.
  apply map_eq. intros k'. rewrite contents_first, lookup_delete. unfold remove.
  induction m as [|[k1 v1] m IH]; [by case_decide|]. rewrite filter_cons. cbn [fst]. unfold contents in *. cbn [list_to_map foldr fst snd].
  change (foldr _ _ ?l) with (list_to_map (M := gmap (list Z) (list Z)) l).
  destruct (decide (k1 <> k)) as [Hne|He].
  - cbn [list_find fst snd]. destruct (decide (k1 = k')) as [->|Hk].
    + rewrite decide_False by congruence. by rewrite lookup_insert_eq.
    + rewrite lookup_insert_ne by done. rewrite <- IH. by destruct (list_find _ _) as [[]|].
  - assert (k1 = k) as -> by (by destruct (decide (k1 = k))). rewrite IH.
    case_decide; [done|]. by rewrite lookup_insert_ne.
Qed.

Lemma remove_covered k m : Forall (fun e => e ∈ m \/ e.1 = k) (remove k m).
Proof. apply Forall_forall. intros e [_ He]%list_elem_of_filter. by left. Qed.

Lemma remove_absent k (m : list entry) : Forall (fun e => e.1 <> k) m -> remove k m = m.
Proof. unfold remove. induction 1 as [|e m He _ IH]; [done|]. rewrite filter_cons. by rewrite decide_True, IH. Qed.

Lemma key_other k (m : list entry) : Forall (fun e => key_lt e.1 k) m \/ Forall (fun e => key_lt k e.1) m -> Forall (fun e => e.1 <> k) m.
Proof.
  intros [HF|HF]; (eapply Forall_impl; [exact HF|]); intros e He E; cbn in He; rewrite E in He; by apply (irreflexivity key_lt k).
Qed.

Lemma remove_middle k (ma mi mb : list entry) :
  Forall (fun e => key_lt e.1 k) ma -> Forall (fun e => key_lt k e.1) mb ->
  remove k (ma ++ mi ++ mb) = ma ++ remove k mi ++ mb.
Proof.
  intros Ha Hb. unfold remove. rewrite !filter_app. fold (remove k ma) (remove k mi) (remove k mb).
  by rewrite (remove_absent k ma), (remove_absent k mb) by (apply key_other; auto).
Qed.

Lemma remove_sorted k m : sorted m -> sorted (remove k m).
Proof.
  unfold sorted, remove. induction 1 as [|e m Hs IH HF]; [constructor|]. rewrite filter_cons. case_decide; [|exact IH].
  constructor; [exact IH|]. apply Forall_forall. intros x [_ Hx]%list_elem_of_filter. rewrite Forall_forall in HF. by apply HF.
Qed.

(** At the index of the key the list is cut. *)
Definition cut_at {A} (i : Z) (l : list A) : list A := take (Z.to_nat i) l ++ drop (Z.to_nat (i + 1)) l.

Lemma zlen_cut_at {A} i (l : list A) : 0 <= i < zlen l -> zlen (cut_at i l) = zlen l - 1.
Proof. intros Hi. unfold cut_at, zlen in *. rewrite length_app, length_take, length_drop. lia. Qed.

Lemma map_cut_at {A B} (f : A -> B) i l : map f (cut_at i l) = cut_at i (map f l).
Proof. unfold cut_at. by rewrite map_app, firstn_map, skipn_map. Qed.

Lemma remove_at k (m : list entry) i : sorted m -> rd (map fst m) i = Some k -> remove k m = cut_at i m.
Proof.
  intros Hs. revert i. induction Hs as [|[k' v'] m Hs IH Hk]; intros i Hi.
  { apply rd_Some_range in Hi. change (zlen (map fst [])) with 0 in Hi. lia. }
  pose proof (rd_Some_range _ _ _ Hi) as Hr. cbn [map fst] in Hi. unfold remove. rewrite filter_cons. cbn [fst]. fold (remove k m).
  destruct (decide (i = 0)) as [->|Hne].
  - rewrite rd_cons_0 in Hi. injection Hi as ->. rewrite decide_False by tauto. apply remove_absent, key_other. by right.
  - rewrite rd_cons_S in Hi by lia. assert (Hlt : key_lt k' k).
    { rewrite rd_map in Hi. destruct (rd m (i - 1)) as [e|] eqn:Ee; [|done]. injection Hi as <-.
      unfold rd in Ee. case_decide; [|done]. exact (Forall_lookup_1 _ _ _ _ Hk Ee). }
    rewrite decide_True by (intros ->; by apply (irreflexivity key_lt k)). rewrite (IH (i - 1)) by done. unfold cut_at.
    replace (Z.to_nat i) with (S (Z.to_nat (i - 1))) by lia. replace (i - 1 + 1) with i by lia.
    replace (Z.to_nat (i + 1)) with (S (Z.to_nat i)) by lia. done.
Qed.

(** Moving the elements above [i] down by one, in an array that begins with [l]. *)
Lemma closed_gap {A} (arr l : list A) i :
  slice arr 0 (zlen l) = Some l -> 0 <= i < zlen l ->
  exists seg arr2, slice arr (i + 1) (zlen l - 1 - i) = Some seg /\ blit arr i seg = Some arr2 /\ zlen arr2 = zlen arr /\
    slice arr2 0 (zlen l - 1) = Some (cut_at i l).
Proof.
  intros (p & q & -> & Hp & _)%slice_inv Hi. destruct p; [|rewrite zlen_cons in Hp; pose proof (zlen_nonneg p); lia]. cbn [app].
  unfold cut_at. set (a := take (Z.to_nat i) l). set (b := drop (Z.to_nat (i + 1)) l).
  assert (Hl : exists x, l = a ++ x :: b).
  { destruct (rd_is_Some l i Hi) as [x Hx]. exists x. subst a b. replace (Z.to_nat (i + 1)) with (S (Z.to_nat i)) by lia.
    symmetry. apply take_drop_middle. unfold rd in Hx. by case_decide. }
  destruct Hl as [x Hl]. assert (Ha : zlen a = i) by (subst a; unfold zlen in *; rewrite length_take; lia).
  clearbody a b. subst l. rewrite zlen_app, zlen_cons in *.
  assert (Hg : exists g y, x :: b = g ++ [y] /\ zlen g = zlen b).
  { exists (removelast (x :: b)), (List.last (x :: b) x). pose proof (app_removelast_last x (l := x :: b) ltac:(done)) as E. split; [exact E|].
    apply (f_equal zlen) in E. rewrite zlen_app, zlen_cons in E. change (zlen [_]) with 1 in E. lia. }
  destruct Hg as (g & y & Eg & Hgz). exists b, (a ++ b ++ (y :: q)).
  assert (E1 : (a ++ x :: b) ++ q = (a ++ [x]) ++ b ++ q) by (by rewrite <- !app_assoc).
  assert (E2 : (a ++ x :: b) ++ q = a ++ g ++ y :: q) by (by rewrite Eg, <- !app_assoc).
  split; [|split; [|split]].
  - rewrite E1. apply slice_app; [rewrite zlen_app; change (zlen [x]) with 1; lia|lia].
  - rewrite E2. apply blit_app; lia.
  - rewrite !zlen_app, !zlen_cons. lia.
  - rewrite app_assoc. apply (slice_app [] (a ++ b) (y :: q)); [done|]. rewrite zlen_app. lia.
Qed.

(** Entries moved from the position after, in the node itself. *)
Lemma close_entries n ks vs (l lv : list (list Z)) i :
  node_view n ks vs -> slice ks 0 (zlen l) = Some l -> slice vs 0 (zlen l) = Some lv -> 0 <= i < zlen l ->
  exists n' ks2 vs2, forZ i (zlen l - 1) (fun j node => move_entry node j node (j + 1)) n = Some n' /\
    becomes n n' ks2 vs2 (nd_children n) /\ zlen ks2 = zlen ks /\ zlen vs2 = zlen vs /\
    slice ks2 0 (zlen l - 1) = Some (cut_at i l) /\ slice vs2 0 (zlen l - 1) = Some (cut_at i lv).
Proof.
  intros Hn Hk Hv Hi. pose proof (slice_is_Some _ _ _ _ Hv) as (_ & _ & _ & Zv).
  destruct (closed_gap ks l i Hk Hi) as (sk & ks2 & Sk & Bk & Zk2 & Ck).
  destruct (closed_gap vs lv i) as (sv & vs2 & Sv & Bv & Zv2 & Cv); [by rewrite Zv|lia|]. rewrite Zv in Sv, Cv.
  pose proof (slice_is_Some _ _ _ _ Sk) as (_ & _ & ? & Zsk). pose proof (slice_is_Some _ _ _ _ Sv) as (_ & _ & ? & Zsv).
  destruct (node_loop n ks vs i (zlen l - 1) (fun j node => move_entry node j node (j + 1)) (Some (i, sk)) (Some (i, sv)) None
    ks2 vs2 (nd_children n)) as (n' & E & B).
  - exact Hn.
  - lia.
  - exact Bk.
  - exact Bv.
  - reflexivity.
  - exact Zsk.
  - exact Zsv.
  - exact I.
  - intros j t ki vi ci Hj Hb Wk Wv Wc. cbn [wrote_upto wrote_one] in *.
    assert (Hread : forall (arr seg b : list (list Z)), slice arr (i + 1) (zlen l - 1 - i) = Some seg ->
      blit arr i (take (Z.to_nat (j - i)) seg) = Some b -> exists x, rd b (j + 1) = Some x /\ rd seg (j - i) = Some x /\ 0 <= j < zlen b).
    { intros arr seg b Hs Hbl. destruct (seg_rd _ _ _ _ (j - i) Hs ltac:(lia)) as (x & R1 & R2). exists x.
      pose proof (slice_is_Some _ _ _ _ Hs) as (_ & _ & ? & Hz).
      assert (Ht : zlen (take (Z.to_nat (j - i)) seg) = j - i) by (unfold zlen in *; rewrite length_take; lia).
      rewrite (rd_blit_ne _ _ _ _ (j + 1) Hbl) by lia. replace (i + 1 + (j - i)) with (j + 1) in R1 by lia.
      split; [exact R1|]. split; [exact R2|]. rewrite (blit_zlen _ _ _ _ Hbl). lia. }
    destruct (Hread _ _ _ Sk Wk) as (k & K1 & K2 & K3). destruct (Hread _ _ _ Sv Wv) as (v & V1 & V2 & V3).
    destruct (move_entry_view t t ki vi ki vi j (j + 1) k v (becomes_view _ _ _ _ _ Hb) (becomes_view _ _ _ _ _ Hb) K1 V1 K3 V3)
      as (t' & kj & vj & E & Ek & Ev & Hb').
    pose proof (becomes_meta _ _ _ _ _ Hb) as (_ & _ & _ & _ & _ & Hc). rewrite Hc in Hb'.
    exists t', kj, vj, ci. split; [exact E|]. split; [exact Hb'|]. replace (i + (j - i)) with j by lia.
    split; [by exists k|]. split; [by exists v|reflexivity].
  - exists n', ks2, vs2. by repeat (split; [assumption|]).
Qed.

Lemma remove_entry_spec node next prev es i :
  node_rep node (ALeaf next prev es) -> 0 <= i < zlen es ->
  exists node', remove_entry node i = Some node' /\ node_rep node' (ALeaf next prev (cut_at i es)).
Proof.
  intros Hn Hi. destruct (rep_view _ _ Hn) as (ks & vs & Hv & Zk & Zv & Sk & Sv). cbn [an_pairs] in *.
  unfold remove_entry. rewrite (nr_count _ _ Hn). cbn [an_pairs]. rewrite zlen_map in Sv.
  destruct (close_entries node ks vs (map fst es) (map snd es) i Hv Sk) as (n' & ks2 & vs2 & E & B & Z1 & Z2 & S1 & S2);
    [by rewrite zlen_map|by rewrite zlen_map|]. rewrite zlen_map in E, S1, S2. rewrite E. cbn [mbind option_bind].
  pose proof (becomes_meta _ _ _ _ _ B) as (M1 & M2 & M3 & M4 & M5 & M6). rewrite M5, (nr_count _ _ Hn). cbn [an_pairs].
  eexists. split; [reflexivity|]. pose proof (nr_links _ _ Hn) as Hl. cbn [an_links] in Hl. injection Hl as El1 El2.
  apply (view_leaf _ ks2 vs2); cbn [set_count nd_children nd_kind nd_next nd_prev nd_count]; rewrite ?zlen_cut_at, ?map_cut_at by lia; try congruence.
  - apply view_count. exact (becomes_view _ _ _ _ _ B).
  - rewrite M6. apply (na_children _ (nr_arrays _ _ Hn)).
  - rewrite M1. exact (nr_kind _ _ Hn).
Qed.

(** * Deletion without underflow *)

(** The leaf in which the descent for [k] ends. *)
Inductive leaf_for (ps : Z) (view : Z -> list Z) (k : list Z) : nat -> Z -> list entry -> Prop :=
  | leaf_here page next prev es : node_at ps view page (ALeaf next prev es) -> leaf_for ps view k 0 page es
  | leaf_below h page next prev ks cs c es : node_at ps view page (AInternal next prev ks cs) ->
      rd cs (first_index (fun x => key_lt k x) (zlen ks) ks) = Some c -> leaf_for ps view k h c es ->
      leaf_for ps view k (S h) page es.

Lemma leaf_for_view ps view view' k h page es :
  (forall q, view' q = view q) -> leaf_for ps view' k h page es -> leaf_for ps view k h page es.
Proof.
  intros Hv. induction 1 as [page next prev es Ha|h page next prev ks cs c es Ha Hc _ IH].
  - eapply leaf_here. apply (node_at_view _ view'); [symmetry; apply Hv|exact Ha].
  - eapply leaf_below; [|exact Hc|exact IH]. apply (node_at_view _ view'); [symmetry; apply Hv|exact Ha].
Qed.

(** What the deletion leaves when no node is left without keys. *)
Record deleted (h : nat) (p p' : garry_buffer_pool) (page : Z) (m : list entry) (fp : list Z) : Prop := {
  dl_writes : writes fp p p';
  dl_next : p_next_page p' = p_next_page p;
  dl_tree : tree_at (p_page_size p) (pool_view p') h page m fp;
  dl_links : relinks (p_page_size p) p p' fp fp
}.

Lemma delete_leaf_spec fuel pool page next prev m n pins key klen k :
  node_at (p_page_size pool) (pool_view pool) page (ALeaf next prev m) -> sorted m ->
  ready (n + 4) pins [] pool -> 0 <= n -> zlen pins < p_capacity pool -> 0 <= page < p_next_page pool ->
  page_size_ok (p_page_size pool) -> slice key 0 klen = Some k ->
  exists pool', btree_delete_rec (S fuel) pool page key klen = Some (pool', bool_decide (zlen (remove k m) < GARRY_BTREE_MIN_KEYS)) /\
    ready n pins [] pool' /\ stable pins pool pool' /\ deleted 0 pool pool' page (remove k m) [page].
Proof.
  intros Ha Hs Hr Hn Hc Hp Hps Hk. cbn [btree_delete_rec].
  destruct (load_at_ready (n + 2) pins pool page _ ltac:(eapply ready_le; [exact Hr|lia]) ltac:(lia) Hc Hp Ha)
    as (p1 & nd & -> & Hnrep & Hr1 & Hk1 & Hs1). cbn [mbind option_bind].
  rewrite (nr_kind _ _ Hnrep). cbn [an_kind]. rewrite decide_True by done.
  rewrite (leaf_find_spec _ _ key klen k Hnrep Hk). cbn [mbind option_bind an_pairs].
  destruct (first_index_range (fun x => x = k) (-1) (map fst m)) as [(x & Hx & -> & _)|[Hnone HF]].
  - pose proof (rd_Some_range _ _ _ Hx) as Hi. rewrite zlen_map in Hi. set (i := first_index _ _ _) in *.
    rewrite decide_True by lia. rewrite (remove_at k m i Hs Hx).
    destruct (remove_entry_spec _ _ _ _ i Hnrep Hi) as (nd2 & -> & Hnrep2). cbn [mbind option_bind].
    pose proof (proj2 Ha) as Hok.
    assert (Hok2 : node_ok (p_page_size pool) (ALeaf next prev (cut_at i m))).
    { apply node_ok_leaf; [apply Hok|apply Hok| |rewrite zlen_cut_at by lia; pose proof (no_count _ _ Hok) as Hcnt; cbn [an_pairs] in Hcnt; lia].
      pose proof (no_entries _ _ Hok) as He. cbn [an_pairs] in He. unfold cut_at. apply Forall_app. split; [by apply Forall_take|by apply Forall_drop]. }
    pose proof (rdy_next _ _ _ _ Hr) as Hnx.
    destruct (store_at_ready n pins p1 page nd2 _ Hr1 Hn ltac:(rewrite (kp_capacity _ _ Hk1); lia) ltac:(rewrite (kp_next _ _ Hk1); lia) Hnrep2)
      as (p2 & -> & Hr2 & Hw2 & Ha2 & Hs2 & N2 & V2); [by rewrite (kp_page_size _ _ Hk1)|by rewrite (kp_page_size _ _ Hk1)|].
    cbn [mbind option_bind]. rewrite (kp_page_size _ _ Hk1) in Ha2.
    destruct (mark_dirty_any n pins [] p2 page Hr2) as (p3 & -> & Hr3 & Hk3 & Hs3); [lia|apply not_elem_of_nil|]. cbn [mbind option_bind].
    exists p3. rewrite (nr_count _ _ Hnrep2). cbn [an_pairs]. split; [reflexivity|]. split; [exact Hr3|].
    assert (Ha3 : node_at (p_page_size pool) (pool_view p3) page (ALeaf next prev (cut_at i m)))
      by (apply (node_at_view _ (pool_view p2)); [apply (kp_view _ _ Hk3)|exact Ha2]).
    split; [|split].
    + transitivity p1; [exact Hs1|]. intros q j Hq Hj. rewrite Hs3. by apply Hs2.
    + eapply writes_trans; [apply (keeps_writes [page]); exact Hk1| |intros q Hq; left; exact Hq].
      eapply writes_trans; [exact Hw2|apply (keeps_writes [page]); exact Hk3|intros q Hq; left; exact Hq].
    + rewrite (kp_next _ _ Hk3), N2. apply Hk1.
    + apply (leaf_tree _ _ _ next prev); [exact Ha3|]. rewrite <- (remove_at k m i Hs Hx). by apply remove_sorted.
    + by eapply relinks_leaf.
  - rewrite Hnone, decide_False by lia. rewrite (nr_count _ _ Hnrep). cbn [an_pairs].
    rewrite (remove_absent k m) by (by rewrite Forall_map in HF). exists p1. split; [reflexivity|].
    split; [eapply ready_le; [exact Hr1|lia]|]. split; [exact Hs1|].
    assert (Ha1 : node_at (p_page_size pool) (pool_view p1) page (ALeaf next prev m))
      by (apply (node_at_view _ (pool_view pool)); [apply (kp_view _ _ Hk1)|exact Ha]).
    split; [by apply keeps_writes|apply Hk1|by apply (leaf_tree _ _ _ next prev)|by eapply relinks_leaf].
Qed.

Lemma delete_rec_spec h : forall pool page m fp fuel n pins key klen k,
  tree_at (p_page_size pool) (pool_view pool) h page m fp -> NoDup fp -> Forall (fun q => 0 <= q < p_next_page pool) fp ->
  ready (n + 2 * Z.of_nat h + 4) pins [] pool -> 0 <= n -> zlen pins < p_capacity pool -> page_size_ok (p_page_size pool) ->
  slice key 0 klen = Some k -> Forall is_byte k -> m <> [] ->
  (forall es, leaf_for (p_page_size pool) (pool_view pool) k h page es -> k ∈ map fst es -> 2 <= zlen es) -> (h < fuel)%nat ->
  exists pool', btree_delete_rec fuel pool page key klen = Some (pool', false) /\
    ready n pins [] pool' /\ stable pins pool pool' /\ deleted h pool pool' page (remove k m) fp /\ remove k m <> [].
Proof.
  induction h as [|h IH]; intros pool page m fp fuel n pins key klen k Ht Hnd Hf Hr Hn Hc Hps Hk Hb Hm Hroom Hfuel;
    (destruct fuel as [|fuel]; [lia|]); cbn [tree_at] in Ht.
  - destruct Ht as (-> & Hs & next & prev & Ha). apply Forall_cons in Hf as [Hp _].
    destruct (delete_leaf_spec fuel pool page next prev m n pins key klen k Ha Hs) as (p' & E & Hr' & Hs' & Hd); try done;
      [eapply ready_le; [exact Hr|lia]|].
    assert (Hz : 1 <= zlen (remove k m)).
    { destruct (decide (k ∈ map fst m)) as [Hin|Hni].
      - specialize (Hroom m (leaf_here _ _ _ _ _ _ _ Ha) Hin). apply list_elem_of_lookup in Hin as [i Hi].
        rewrite (remove_at k m (Z.of_nat i) Hs) by (by rewrite rd_lookup). apply lookup_lt_Some in Hi. rewrite length_map in Hi.
        rewrite zlen_cut_at by (unfold zlen; lia). lia.
      - rewrite remove_absent; [destruct m; [done|rewrite zlen_cons; pose proof (zlen_nonneg m); lia]|].
        apply Forall_forall. intros e He Heq. apply Hni. apply list_elem_of_fmap. by exists e. }
    exists p'. rewrite E. rewrite bool_decide_eq_false_2 by (unfold GARRY_BTREE_MIN_KEYS; lia).
    split; [reflexivity|]. split; [exact Hr'|]. split; [exact Hs'|]. split; [exact Hd|]. intros E0. by rewrite E0 in Hz.
  - cbn [btree_delete_rec]. destruct Ht as (next & prev & kk & cc & fps & -> & Hkk & Ha & Hfor).
    pose proof Hf as Hf'. apply Forall_cons in Hf' as [Hp _].
    destruct (load_at_ready (n + 2 * Z.of_nat h + 4) pins pool page _ ltac:(eapply ready_le; [exact Hr|lia]) ltac:(lia) Hc Hp Ha)
      as (p1 & nd & -> & Hnrep & Hr1 & Hk1 & Hs1). cbn [mbind option_bind].
    rewrite (nr_kind _ _ Hnrep). cbn [an_kind]. rewrite decide_False by done.
    pose proof (internal_keys_ok _ _ _ _ _ (proj2 Ha)) as Hkok. pose proof (no_shape _ _ (proj2 Ha)) as Hshape.
    assert (Hids : map fst (map (fun k : list Z => (k, @nil Z)) kk) = kk) by (rewrite map_map; apply map_id).
    rewrite (internal_find_spec _ _ _ _ _ Hnrep Hk Hb); cbn [an_pairs fst]; rewrite Hids.
    2: { eapply Forall_impl; [exact Hkok|]. intros x Hx. exact (eo_bytes _ _ Hx). }
    cbn [mbind option_bind]. rewrite zlen_map. set (idx := first_index _ (zlen kk) kk).
    destruct (forest_zoom _ k _ _ _ _ Hfor) as (c & ma & mi & mb & fa & fi & fb & -> & -> & Hz). fold idx in Hz.
    assert (Hd : descent (p_page_size pool) h pool page next prev kk cc k idx c ma mi mb fa fi fb) by (by split).
    destruct (descent_child _ _ _ _ _ _ _ _ _ _ _ _ _ _ _ _ _ Hd) as (Tc & Nc & Fc & _ & Hpage & Hidx).
    pose proof (nr_children _ _ Hnrep) as Hch. pose proof (zo_child _ _ _ _ _ _ _ _ _ _ _ _ Hz) as Hci. pose proof Hci as Hci0.
    pose proof (rd_Some_range _ _ _ Hci) as Hcr. rewrite (rd_slice _ _ _ _ _ Hch) in Hci by lia. rewrite Z.add_0_l in Hci.
    rewrite Hci. cbn [mbind option_bind].
    assert (Tc1 : tree_at (p_page_size p1) (pool_view p1) h c mi fi).
    { rewrite (kp_page_size _ _ Hk1). apply (tree_frame _ (pool_view pool)); [|exact Tc]. intros q _. apply (kp_view _ _ Hk1). }
    assert (Hr1' : ready (n + 2 * Z.of_nat h + 4) pins [] p1) by exact Hr1.
    assert (Hroom1 : forall es, leaf_for (p_page_size p1) (pool_view p1) k h c es -> k ∈ map fst es -> 2 <= zlen es).
    { intros es Hes. rewrite (kp_page_size _ _ Hk1) in Hes. apply Hroom. eapply leaf_below; [exact Ha|exact Hci0|].
      apply (leaf_for_view _ _ (pool_view p1)); [apply (kp_view _ _ Hk1)|exact Hes]. }
    destruct (IH p1 c mi fi fuel n pins key klen k Tc1 Nc) as (p2 & -> & Hr2 & Hs2 & [D1 D2 D3 D4] & Hne); try done.
    { by rewrite (kp_next _ _ Hk1). }
    { by rewrite (kp_capacity _ _ Hk1). }
    { by rewrite (kp_page_size _ _ Hk1). }
    { apply Hz. }
    { lia. }
    rewrite (kp_next _ _ Hk1) in D2. rewrite (kp_page_size _ _ Hk1) in D3, D4. cbn [mbind option_bind].
    apply (relinks_keeps _ pool) in D4; [|exact Hk1].
    assert (W2 : writes fi pool p2) by (eapply writes_trans; [apply (keeps_writes fi); exact Hk1|exact D1|by left]).
    assert (W2' : writes (page :: fi) pool p2) by (apply (writes_weaken fi); [exact W2|by right]).
    assert (Ha2 : node_at (p_page_size pool) (pool_view p2) page (AInternal next prev kk cc))
      by (apply (node_at_view _ (pool_view pool)); [apply (ws_view _ _ _ W2); [lia|done]|exact Ha]).
    rewrite (nr_count _ _ Hnrep). cbn [an_pairs]. rewrite zlen_map. rewrite bool_decide_eq_false_2
      by (unfold GARRY_BTREE_MIN_KEYS; destruct kk; [done|rewrite zlen_cons; pose proof (zlen_nonneg kk); lia]).
    exists p2. split; [reflexivity|]. split; [exact Hr2|]. split; [by transitivity p1|].
    rewrite (remove_middle k ma mi mb) by apply Hz. split; [split|].
    + apply (writes_weaken fi); [exact W2|]. intros q Hq. list_in.
    + exact D2.
    + exists next, prev, kk, cc, (fa ++ fi ++ fb). split; [done|]. split; [done|]. split; [exact Ha2|].
      apply (zo_one _ _ _ _ _ _ _ _ _ _ _ _ Hz); [|exact D3|exact Hne|apply remove_covered].
      by apply (beside (p_page_size pool) pool p2 h page fa fi fb).
    + eapply relinks_around; [exact Hd|exact W2'|by eapply leaf_next_internal|exact D4].
    + destruct ma; [|done]. by destruct (remove k mi).
Qed.

(** C40: deletion from the B-tree refines deletion from a map as long as no node is
    left without keys: when the leaf that has the key has another key too, or is
    the root, the deletion ends and leaves, under the same root and on the same
    pages, a tree whose entries are the old ones without the key; a key the tree
    does not have leaves the entries as they are; no page outside the tree is
    written.  (When the last key of a leaf goes, nodes are merged; see
    [delete_hides_key].) *)
Theorem btree_delete_refines h p root m fp fuel n pins key klen k
  (Ht : btree h p root m fp) (Hr : ready (n + 2 * Z.of_nat h + 6) pins [] p) (Hn : 0 <= n) (Hc : zlen pins < p_capacity p)
  (Hps : page_size_ok (p_page_size p)) (Hk : slice key 0 klen = Some k) (Hb : Forall is_byte k) (Hf : (h < fuel)%nat)
  (Hroom : h = 0%nat \/ forall es, leaf_for (p_page_size p) (pool_view p) k h root es -> k ∈ map fst es -> 2 <= zlen es) :
  exists p', garry_btree_delete fuel p root key klen = Some (p', root) /\ btree h p' root (remove k m) fp /\
    contents (remove k m) = delete k (contents m) /\ writes fp p p' /\ ready n pins [] p'.
Proof.
  pose proof Ht as [T1 T2 T3 T4]. unfold garry_btree_delete.
  assert (Hdone : forall p', deleted h p p' root (remove k m) fp -> btree h p' root (remove k m) fp).
  { intros p' [D1 D2 D3 D4]. split; rewrite ?(ws_page_size _ _ _ D1), ?D2; [exact D3|exact T2|exact T3|].
    apply (relink_linked _ _ D4 T4). }
  destruct h as [|h].
  - cbn [tree_at] in T1. destruct T1 as (-> & Hs & next & prev & Ha). apply Forall_cons in T3 as [Hp _].
    destruct fuel as [|fuel]; [lia|].
    destruct (delete_leaf_spec fuel p root next prev m (n + 2) pins key klen k Ha Hs) as (p1 & -> & Hr1 & _ & Hd); try done;
      [eapply ready_le; [exact Hr|lia]|lia|]. cbn [mbind option_bind]. pose proof (dl_writes _ _ _ _ _ _ Hd) as W1.
    destruct (bool_decide (zlen (remove k m) < GARRY_BTREE_MIN_KEYS)).
    + pose proof (dl_tree _ _ _ _ _ _ Hd) as (_ & _ & next' & prev' & Ha').
      destruct (load_at_ready n pins p1 root (ALeaf next' prev' (remove k m)) Hr1 Hn) as (p2 & nd & -> & Hnrep & Hr2 & Hk2 & _);
        [by rewrite (ws_capacity _ _ _ W1)|by rewrite (dl_next _ _ _ _ _ _ Hd)|by rewrite (ws_page_size _ _ _ W1)|].
      cbn [mbind option_bind]. rewrite (nr_kind _ _ Hnrep). cbn [an_kind]. rewrite decide_False by (intros [? _]; done).
      exists p2. split; [reflexivity|]. split; [by apply (btree_keeps _ p1); [|apply Hdone]|]. split; [apply contents_remove|].
      split; [|exact Hr2]. eapply writes_trans; [exact W1|apply (keeps_writes [root]); exact Hk2|intros q Hq; left; exact Hq].
    + exists p1. split; [reflexivity|]. split; [by apply Hdone|]. split; [apply contents_remove|]. split; [exact W1|].
      eapply ready_le; [exact Hr1|lia].
  - destruct Hroom as [?|Hroom]; [done|].
    assert (Hm : m <> []) by (destruct T1 as (? & ? & ? & ? & ? & _ & _ & _ & Hfor); by eapply forest_some).
    destruct (delete_rec_spec (S h) p root m fp fuel n pins key klen k T1 T2 T3) as (p1 & -> & Hr1 & _ & Hd & _); try done;
      [eapply ready_le; [exact Hr|lia]|]. cbn [mbind option_bind].
    exists p1. split; [reflexivity|]. split; [by apply Hdone|]. split; [apply contents_remove|]. split; [apply Hd|exact Hr1].
Qed.

(** * Where deletion hides keys *)

(** The keys of the list deleted one after the other. *)
Definition delete_all (p : garry_buffer_pool) (root : Z) (ks : list Z) : option (garry_buffer_pool * Z) :=
  foldl (fun st k => '(p, root) ← st; garry_btree_delete 8 p root [k] 1) (Some (p, root)) ks.

Definition found_all (p : garry_buffer_pool) (root : Z) (ks : list Z) : option (list bool) :=
  foldr (fun k st => l ← st; b ← found 8 p root [k]; Some (b :: l)) (Some []) ks.

(** Deleting keys hides a key that was not deleted.  Eight keys are inserted
    into an empty tree; deleting the keys 1 and 2 leaves the left internal node
    without a key, the merge with its sibling of three keys would exceed the
    maximum and is given up, and the search, which takes a node without keys for
    an empty one, no longer finds key 3. *)
Theorem delete_hides_key :
  (p0 ← garry_allocate_leaf sample_tree_base;
   '(p, root, rs) ← insert_all (fun _ => true) p0.1 p0.2 [1; 2; 3; 4; 5; 6; 7; 8];
   '(p, root) ← delete_all p root [1; 2];
   after ← found_all p root [1; 2; 3; 4; 8];
   Some (rs, after)) = Some (replicate 8 true, [false; false; false; true; true]).
Proof. vm_compute. reflexivity. Qed.

(** * Witness *)

(** A tree of one entry is a leaf. *)
Lemma one_entry_leaf ps view h page e fp : ~ tree_at ps view (S h) page [e] fp.
Proof.
  intros (next & prev & ks & cs & fps & _ & Hne & _ & Hfor). destruct ks as [|k ks]; [done|]. destruct cs as [|c cs]; [done|].
  destruct Hfor as (m1 & m2 & f1 & f2 & Hm & _ & _ & N1 & H2 & _). apply forest_some in H2.
  apply (f_equal length) in Hm. rewrite length_app in Hm. destruct m1, m2; cbn in Hm; try done; lia.
Qed.

(** The key of a tree of one leaf is deleted; the leaf stays, empty. *)
Lemma btree_delete_refines_witness : exists p root p',
  garry_btree_delete 4 p root [97; 98; 0] 2 = Some (p', root) /\ exists fp, btree 0 p' root [] fp.
Proof.
  destruct sample_tree_ok as (Ht & Hr & Hc & Hps & Hnx).
  destruct (btree_insert_spec (fun _ => true) 0 sample_tree 2 [] [2] 2 1000 [] [97; 98; 0] 2 [7; 8; 9] 2 [97; 98] [7; 8])
    as (p & root & h & fp & E & Hb & Hh & Hrp & _ & Hw & Hn & Hfp).
  - reflexivity.
  - exact Ht.
  - eapply ready_le; [exact Hr|unfold insert_cost, level_cost; lia].
  - lia.
  - rewrite Hc. reflexivity.
  - rewrite Hnx. vm_compute. discriminate.
  - rewrite Hps. vm_compute. split; congruence.
  - rewrite Hps. exact sample_entry.
  - lia.
  - assert (Hh0 : h = 0%nat).
    { destruct Hh as [Hh|Hh]; [exact Hh|]. exfalso. rewrite Hh in Hb. exact (one_entry_leaf _ _ _ _ _ _ (bt_tree _ _ _ _ _ Hb)). }
    destruct (btree_delete_refines h p root (upsert [97; 98] [7; 8] []) fp 4 10 [] [97; 98; 0] 2 [97; 98]) as (p' & E' & Hb' & _).
    + exact Hb.
    + eapply ready_le; [exact Hrp|]. destruct Hh as [-> | ->]; lia.
    + lia.
    + rewrite (ws_capacity _ _ _ Hw), Hc. reflexivity.
    + rewrite (ws_page_size _ _ _ Hw), Hps. vm_compute. split; congruence.
    + reflexivity.
    + repeat constructor; unfold is_byte; lia.
    + destruct Hh as [-> | ->]; lia.
    + left. exact Hh0.
    + exists p, root, p'. split; [exact E'|]. exists fp. rewrite Hh0 in Hb'. exact Hb'.
Defined.
