(* ===== verification/Cursor.v ===== *)
(** The cursor over the leaves of the B-tree, [src/src/btree_cursor.c]: it descends
    to the first leaf that can hold keys with a prefix, follows the links of the
    leaves and returns the keys with the prefix, in order and each once. *)

From Stdlib Require Import Sorting.Sorted.
From stdpp Require Import gmap.
From S2P Require Import Prelude Endian KeyEncoding BtreeCompression RecordCodec SlottedPage FileIo BufferPool.
From S2P Require Import PoolClient BtreeNode NodeView BtreeSearch BtreeModify BtreeInsert.

(** * The code *)

Record garry_btree_cursor_handle := BtreeCursor {
  bc_root : Z; bc_prefix : list Z; bc_prefix_len : Z; bc_current_page : Z; bc_current_slot : Z;
  bc_current : list Z; bc_current_len : Z; bc_current_value : list Z; bc_exhausted : bool;
  bc_saved_key : list Z; bc_saved_klen : Z; bc_has_saved : bool; bc_node_loaded : bool;
  bc_current_node : garry_btree_node
}.

Definition set_position (c : garry_btree_cursor_handle) (page slot : Z) (loaded : bool) : garry_btree_cursor_handle :=
  BtreeCursor (bc_root c) (bc_prefix c) (bc_prefix_len c) page slot (bc_current c) (bc_current_len c)
    (bc_current_value c) (bc_exhausted c) (bc_saved_key c) (bc_saved_klen c) (bc_has_saved c) loaded (bc_current_node c).
Definition set_exhausted (c : garry_btree_cursor_handle) (loaded : bool) : garry_btree_cursor_handle :=
  BtreeCursor (bc_root c) (bc_prefix c) (bc_prefix_len c) (bc_current_page c) (bc_current_slot c) (bc_current c)
    (bc_current_len c) (bc_current_value c) true (bc_saved_key c) (bc_saved_klen c) (bc_has_saved c) loaded (bc_current_node c).
Definition set_current (c : garry_btree_cursor_handle) (key : list Z) (klen : Z) (value : list Z) : garry_btree_cursor_handle :=
  BtreeCursor (bc_root c) (bc_prefix c) (bc_prefix_len c) (bc_current_page c) (bc_current_slot c) key klen
    value (bc_exhausted c) (bc_saved_key c) (bc_saved_klen c) (bc_has_saved c) (bc_node_loaded c) (bc_current_node c).
Definition set_saved (c : garry_btree_cursor_handle) (key : list Z) (klen : Z) (has : bool) : garry_btree_cursor_handle :=
  BtreeCursor (bc_root c) (bc_prefix c) (bc_prefix_len c) (bc_current_page c) (bc_current_slot c) (bc_current c)
    (bc_current_len c) (bc_current_value c) (bc_exhausted c) key klen has (bc_node_loaded c) (bc_current_node c).
Definition set_node (c : garry_btree_cursor_handle) (node : garry_btree_node) : garry_btree_cursor_handle :=
  BtreeCursor (bc_root c) (bc_prefix c) (bc_prefix_len c) (bc_current_page c) (bc_current_slot c) (bc_current c)
    (bc_current_len c) (bc_current_value c) (bc_exhausted c) (bc_saved_key c) (bc_saved_klen c) (bc_has_saved c) true node.

(** [memset(&cur, 0, sizeof(cur))] *)
Definition zero_node : garry_btree_node :=
  BtreeNode GARRY_NODE_INTERNAL (PageHeader GARRY_NODE_INTERNAL 0 0 0 0 0 0 0)
    (replicate 3 (zeros GARRY_MAX_KEY_SIZE)) (replicate 3 0)
    (replicate 3 (zeros GARRY_MAX_KEY_SIZE)) (replicate 3 0) (replicate 4 0) 0 0 0.
Definition zero_cursor : garry_btree_cursor_handle :=
  BtreeCursor 0 (zeros GARRY_MAX_KEY_SIZE) 0 0 0 (zeros GARRY_MAX_KEY_SIZE) 0 (zeros GARRY_MAX_KEY_SIZE) false
    (zeros GARRY_MAX_KEY_SIZE) 0 false false zero_node.

Definition prefix_match (key : list Z) (klen : Z) (prefix : list Z) (plen : Z) : option bool :=
  if decide (plen > klen) then Some false else
  r ← scan 0 plen (fun i =>
        x ← rd key i; y ← rd prefix i;
        Some (if decide (x <> y) then Some false else None));
  Some (default true r).

(** The descent of the open, [fuel] bounding its length: the child that can hold
    the first key with the prefix, or the first child without a prefix. *)
Fixpoint cursor_descend (fuel : nat) (pool : garry_buffer_pool) (page : Z) (prefix : option (list Z)) (plen : Z)
    (cur : garry_btree_cursor_handle) : option (garry_buffer_pool * garry_btree_cursor_handle) :=
  match fuel with
  | O => None
  | S fuel =>
      '(pool, node) ← garry_load_node pool page;
      if decide (nd_kind node = GARRY_NODE_LEAF) then Some (pool, set_position cur page 0 (bc_node_loaded cur))
      else if decide (nd_count node > 0) then
        idx ← (match prefix with
               | Some p =>
                   if decide (plen > 0) then
                     idx ← garry_internal_find node p (i32 plen);
                     Some (if decide (idx >= nd_count node) then nd_count node - 1 else idx)
                   else Some 0
               | None => Some 0
               end);
        page ← rd (nd_children node) idx;
        cursor_descend fuel pool page prefix plen cur
      else Some (pool, set_exhausted cur (bc_node_loaded cur))
  end.

Definition garry_btree_cursor_open (fuel : nat) (pool : garry_buffer_pool) (root : Z) (prefix : option (list Z))
    (plen : Z) : option (garry_buffer_pool * garry_btree_cursor_handle) :=
  pfx ← (match prefix with
         | Some p => memcpy (zeros GARRY_MAX_KEY_SIZE) 0 p 0 GARRY_MAX_KEY_SIZE
         | None => Some (zeros GARRY_MAX_KEY_SIZE)
         end);
  let z := zero_cursor in
  cursor_descend fuel pool root prefix plen
    (BtreeCursor root pfx plen (bc_current_page z) (bc_current_slot z) (bc_current z) (bc_current_len z)
       (bc_current_value z) false (bc_saved_key z) (bc_saved_klen z) false (bc_node_loaded z) (bc_current_node z)).

(** The first slot of the node, from the current one on, whose key has the prefix. *)
Definition find_slot (node : garry_btree_node) (cur : garry_btree_cursor_handle) : option (option Z) :=
  scan (i32 (bc_current_slot cur)) (nd_count node) (fun i =>
    m ← (if decide (bc_prefix_len cur > 0) then
           k ← rd (nd_keys node) i; l ← rd (nd_key_lens node) i;
           prefix_match k l (bc_prefix cur) (i32 (bc_prefix_len cur))
         else Some false);
    Some (if decide (m = true \/ bc_prefix_len cur = 0) then Some i else None)).

(** What the cursor copies when it stops at slot [i]: to the caller's key buffer and
    to its own fields. *)
Definition take_slot (node : garry_btree_node) (cur : garry_btree_cursor_handle) (key : list Z) (i : Z)
  : option (garry_btree_cursor_handle * (list Z * Z)) :=
  k ← rd (nd_keys node) i; l ← rd (nd_key_lens node) i; v ← rd (nd_values node) i;
  key ← memcpy key 0 k 0 GARRY_MAX_KEY_SIZE;
  current ← memcpy (bc_current cur) 0 k 0 GARRY_MAX_KEY_SIZE;
  value ← memcpy (bc_current_value cur) 0 v 0 GARRY_MAX_KEY_SIZE;
  let cur := set_current cur current (u32 l) value in
  Some (set_position cur (bc_current_page cur) (u32 (i + 1)) (bc_node_loaded cur), (key, u32 l)).

(** The walk over the leaves, [fuel] bounding their number. *)
Fixpoint cursor_walk (fuel : nat) (pool : garry_buffer_pool) (cur : garry_btree_cursor_handle) (key : list Z)
  : option (garry_buffer_pool * garry_btree_cursor_handle * option (list Z * Z)) :=
  match fuel with
  | O => None
  | S fuel =>
      '(pool, node) ← garry_load_node pool (bc_current_page cur);
      let cur := set_node cur node in
      r ← find_slot node cur;
      match r with
      | Some i => '(cur, out) ← take_slot node cur key i; Some (pool, cur, Some out)
      | None =>
          if decide (nd_next node >= 0) then cursor_walk fuel pool (set_position cur (nd_next node) 0 false) key
          else Some (pool, set_exhausted cur false, None)
      end
  end.

(** The inner [None] is the result 0; otherwise the caller's key buffer and [*klen]. *)
Definition garry_btree_cursor_next (fuel : nat) (pool : garry_buffer_pool) (cur : garry_btree_cursor_handle) (key : list Z)
  : option (garry_buffer_pool * garry_btree_cursor_handle * option (list Z * Z)) :=
  if bc_exhausted cur then Some (pool, cur, None) else
  if bc_has_saved cur then
    key ← memcpy key 0 (bc_saved_key cur) 0 GARRY_MAX_KEY_SIZE;
    current ← memcpy (bc_current cur) 0 (bc_saved_key cur) 0 GARRY_MAX_KEY_SIZE;
    let klen := bc_saved_klen cur in
    let cur := set_current cur current klen (bc_current_value cur) in
    Some (pool, set_saved cur (bc_saved_key cur) 0 false, Some (key, klen))
  else cursor_walk fuel pool cur key.

Definition garry_btree_cursor_peek (pool : garry_buffer_pool) (cur : garry_btree_cursor_handle) (key : list Z)
  : option (garry_buffer_pool * option (list Z * Z)) :=
  if bc_exhausted cur then Some (pool, None) else
  if decide (bc_current_len cur > 0) then
    key ← memcpy key 0 (bc_current cur) 0 GARRY_MAX_KEY_SIZE;
    Some (pool, Some (key, bc_current_len cur))
  else
    '(pool, node) ← garry_load_node pool (bc_current_page cur);
    if decide (bc_current_slot cur < u32 (nd_count node)) then
      k ← rd (nd_keys node) (bc_current_slot cur); l ← rd (nd_key_lens node) (bc_current_slot cur);
      key ← memcpy key 0 k 0 GARRY_MAX_KEY_SIZE;
      Some (pool, Some (key, u32 l))
    else Some (pool, None).

Definition garry_btree_cursor_value (cur : garry_btree_cursor_handle) (out : list Z) : option (list Z) :=
  memcpy out 0 (bc_current_value cur) 0 GARRY_MAX_KEY_SIZE.

Definition garry_btree_cursor_close (cur : garry_btree_cursor_handle) : garry_btree_cursor_handle :=
  set_exhausted cur (bc_node_loaded cur).

(** * Prefixes *)

Lemma prefix_match_spec key klen prefix plen k P :
  slice key 0 klen = Some k -> slice prefix 0 plen = Some P ->
  prefix_match key klen prefix plen = Some (bool_decide (P `prefix_of` k)).
Proof.
  intros Hk Hp. rewrite <- (has_prefix_spec _ _ _ _ _ _ Hk Hp). unfold prefix_match, garry_has_prefix.
  by destruct (decide (plen > klen)), (decide (klen < plen)); try lia.
Qed.

(** A key below the prefix does not have it. *)
Lemma below_prefix k P : key_lt k P -> ~ P `prefix_of` k.
Proof.
  intros Hlt [s ->]. unfold key_lt in Hlt. induction P as [|x P IH]; cbn in Hlt; [by destruct s|].
  rewrite Z.compare_refl in Hlt. by apply IH.
Qed.

(** * Scanning a node from a slot on *)

Lemma scan_from {A} (P : A -> Prop) `{forall x, Decision (P x)} (l : list A) lo (body : Z -> option (option Z)) :
  0 <= lo <= zlen l ->
  (forall i x, rd l i = Some x -> body i = Some (if decide (P x) then Some i else None)) ->
  scan lo (zlen l) body = Some ((fun f => lo + Z.of_nat f.1) <$> list_find P (drop (Z.to_nat lo) l)).
Proof.
  intros Hlo Hb. destruct (list_find P (drop (Z.to_nat lo) l)) as [[i x]|] eqn:E; cbn [fmap option_fmap option_map fst].
  - apply list_find_Some in E as (Hi & HP & Hn). pose proof Hi as Hlt. apply lookup_lt_Some in Hlt. rewrite length_drop in Hlt.
    rewrite lookup_drop in Hi.
    apply (scan_Some _ _ (lo + Z.of_nat i)).
    + unfold zlen in *. lia.
    + intros j Hj. destruct (rd_is_Some l j) as [y Hy]; [unfold zlen in *; lia|].
      rewrite (Hb j y Hy), decide_False; [done|]. unfold rd in Hy. rewrite decide_True in Hy by lia.
      apply (Hn (Z.to_nat (j - lo)) y); [|lia]. rewrite lookup_drop. by replace (Z.to_nat lo + Z.to_nat (j - lo))%nat with (Z.to_nat j) by lia.
    + rewrite (Hb _ x); [by rewrite decide_True|]. unfold rd. rewrite decide_True by lia.
      by replace (Z.to_nat (lo + Z.of_nat i)) with (Z.to_nat lo + i)%nat by lia.
  - apply list_find_None in E. apply scan_None. intros j Hj.
    destruct (rd_is_Some l j) as [y Hy]; [unfold zlen in *; lia|]. rewrite (Hb j y Hy), decide_False; [done|].
    unfold rd in Hy. rewrite decide_True in Hy by lia. rewrite Forall_forall in E. apply E.
    apply list_elem_of_lookup. exists (Z.to_nat (j - lo)). rewrite lookup_drop.
    by replace (Z.to_nat lo + Z.to_nat (j - lo))%nat with (Z.to_nat j) by lia.
Qed.

Definition has_prefix (P : list Z) (e : entry) : Prop := P `prefix_of` e.1.
#[export] Instance has_prefix_dec P e : Decision (has_prefix P e) := prefix_dec _ _.

Lemma find_slot_spec node next prev es cur P :
  node_rep node (ALeaf next prev es) -> slice (bc_prefix cur) 0 (bc_prefix_len cur) = Some P ->
  bc_prefix_len cur < 2 ^ 31 -> 0 <= bc_current_slot cur <= zlen es -> zlen es < 2 ^ 31 ->
  find_slot node cur =
    Some ((fun f => bc_current_slot cur + Z.of_nat f.1) <$> list_find (has_prefix P) (drop (Z.to_nat (bc_current_slot cur)) es)).
Proof.
  intros Hn Hp Hpl Hs Hes. pose proof (slice_is_Some _ _ _ _ Hp) as (_ & Hp0 & _ & Zp).
  unfold find_slot. rewrite (nr_count _ _ Hn). cbn [an_pairs]. rewrite (i32_id (bc_current_slot cur)) by (unfold is_i32; lia).
  apply scan_from; [exact Hs|]. intros i e Hi.
  assert (Hi' : rd (map fst (an_pairs (ALeaf next prev es))) i = Some e.1) by (cbn [an_pairs]; by rewrite rd_map, Hi).
  destruct (node_key _ _ _ _ Hn Hi') as (arr & E1 & E2 & E3).
  destruct (decide (bc_prefix_len cur > 0)) as [Hpos|Hz].
  - rewrite E1, E2. cbn [mbind option_bind]. rewrite (i32_id (bc_prefix_len cur)) by (unfold is_i32; lia).
    rewrite (prefix_match_spec _ _ _ _ _ _ E3 Hp). cbn [mbind option_bind]. unfold has_prefix.
    destruct (decide (P `prefix_of` e.1)) as [Hd|Hd].
    + rewrite bool_decide_eq_true_2 by done. by rewrite decide_True by (by left).
    + rewrite bool_decide_eq_false_2 by done. by rewrite decide_False by (intros [?|?]; [done|lia]).
  - cbn [mbind option_bind]. rewrite decide_True by (right; lia).
    assert (P = []) as -> by (destruct P; [done|rewrite zlen_cons in Zp; pose proof (zlen_nonneg P); lia]).
    rewrite decide_True; [done|]. apply prefix_nil.
Qed.

(** * The leaves of a tree *)

(** A leaf: its page, its link and its entries. *)
Abbreviation leaf := (Z * Z * list entry)%type (only parsing).

Definition leaf_at (ps : Z) (view : Z -> list Z) (l : leaf) : Prop :=
  exists prev, node_at ps view l.1.1 (ALeaf l.1.2 prev l.2).

(** The leaves of the tree with entries [m] on the pages [fp], in order. *)
Record leaves_of (ps : Z) (view : Z -> list Z) (m : list entry) (fp : list Z) (L : list leaf) : Prop := {
  lv_seq : leaf_seq ps view fp = map fst L;
  lv_entries : m = concat (map snd L);
  lv_nodes : Forall (leaf_at ps view) L;
  lv_pages : Forall (fun l => l.1.1 ∈ fp) L
}.

Lemma leaves_none ps view : leaves_of ps view [] [] [].
Proof. by split. Qed.

Lemma leaves_app ps view m1 m2 f1 f2 L1 L2 :
  leaves_of ps view m1 f1 L1 -> leaves_of ps view m2 f2 L2 -> leaves_of ps view (m1 ++ m2) (f1 ++ f2) (L1 ++ L2).
Proof.
  intros [A1 A2 A3 A4] [B1 B2 B3 B4]. split.
  - by rewrite leaf_seq_app, A1, B1, map_app.
  - by rewrite A2, B2, map_app, concat_app.
  - by apply Forall_app.
  - apply Forall_app. split; eapply Forall_impl; [exact A4| |exact B4|]; intros l Hl; apply elem_of_app; [by left|by right].
Qed.

Lemma leaves_internal ps view pid next prev ks cs m fps L :
  node_at ps view pid (AInternal next prev ks cs) -> leaves_of ps view m fps L -> leaves_of ps view m (pid :: fps) L.
Proof.
  intros Ha [A1 A2 A3 A4]. split; [|done|done|].
  - by rewrite leaf_seq_internal by (by eapply leaf_next_internal).
  - eapply Forall_impl; [exact A4|]. intros l Hl. by right.
Qed.

Lemma leaves_leaf ps view pid next prev m :
  node_at ps view pid (ALeaf next prev m) -> leaves_of ps view m [pid] [(pid, next, m)].
Proof.
  intros Ha. split.
  - by rewrite (leaf_seq_leaf _ _ _ _ next) by (by eapply leaf_next_leaf).
  - cbn. by rewrite app_nil_r.
  - apply Forall_singleton. by exists prev.
  - apply Forall_singleton. by left.
Qed.

Lemma forest_leaves ps view (T : Z -> list entry -> list Z -> Prop) ks cs m fp :
  (forall c m f, T c m f -> exists L, leaves_of ps view m f L) -> forest T ks cs m fp -> exists L, leaves_of ps view m fp L.
Proof.
  intros HT. revert cs m fp. induction ks as [|k ks IH]; intros cs m fp H.
  - destruct cs as [|c [|? ?]]; try done. destruct H as [H _]. by apply (HT c).
  - destruct cs as [|c cs]; [done|]. destruct H as (m1 & m2 & f1 & f2 & -> & -> & H1 & _ & H2 & _).
    destruct (HT _ _ _ H1) as [L1 HL1]. destruct (IH _ _ _ H2) as [L2 HL2]. exists (L1 ++ L2). by apply leaves_app.
Qed.

Lemma tree_leaves ps view h pid m fp : tree_at ps view h pid m fp -> exists L, leaves_of ps view m fp L.
Proof.
  revert pid m fp. induction h as [|h IH]; intros pid m fp; cbn [tree_at].
  - intros (-> & _ & next & prev & Ha). eexists. by eapply leaves_leaf.
  - intros (next & prev & ks & cs & fps & -> & _ & Ha & Hf).
    destruct (forest_leaves ps view _ ks cs m fps (fun c m f => IH c m f) Hf) as [L HL]. exists L. by eapply leaves_internal.
Qed.

(** The child at an index: the leaves before it and after it, and what bounds the
    entries before it. *)
Lemma forest_child ps view (T : Z -> list entry -> list Z -> Prop) ks cs m fp i :
  (forall c m f, T c m f -> exists L, leaves_of ps view m f L) -> forest T ks cs m fp -> 0 <= i <= zlen ks ->
  exists c ma mi mb fa fi fb La Lb, rd cs i = Some c /\ m = ma ++ mi ++ mb /\ fp = fa ++ fi ++ fb /\ T c mi fi /\
    leaves_of ps view ma fa La /\ leaves_of ps view mb fb Lb /\
    (i = 0 -> ma = []) /\ (0 < i -> ma <> []) /\ (forall s, rd ks (i - 1) = Some s -> Forall (fun e => key_lt e.1 s) ma).
Proof.
  intros HT. revert cs m fp i. induction ks as [|k ks IH]; intros cs m fp i H Hi.
  - destruct cs as [|c [|? ?]]; try done. destruct H as [H _]. change (zlen (@nil (list Z))) with 0 in Hi.
    exists c, [], m, [], [], fp, [], [], []. rewrite !app_nil_r. replace i with 0 by lia.
    split; [done|]. split; [done|]. split; [done|]. split; [done|]. split; [apply leaves_none|]. split; [apply leaves_none|].
    split; [done|]. by split.
  - destruct cs as [|c cs]; [done|]. destruct H as (m1 & m2 & f1 & f2 & -> & -> & H1 & N1 & H2 & B1 & B2).
    rewrite zlen_cons in Hi. destruct (decide (i = 0)) as [->|Hne].
    + destruct (forest_leaves _ _ _ _ _ _ _ HT H2) as [Lb HLb].
      exists c, [], m1, m2, [], f1, f2, [], Lb. split; [done|]. split; [done|]. split; [done|]. split; [done|].
      split; [apply leaves_none|]. split; [done|]. split; [done|]. by split.
    + destruct (IH cs m2 f2 (i - 1) H2 ltac:(lia)) as (c' & ma & mi & mb & fa & fi & fb & La & Lb & E & -> & -> & Ht & HLa & HLb & Hz & Hnz & Hs).
      destruct (HT _ _ _ H1) as [L1 HL1].
      exists c', (m1 ++ ma), mi, mb, (f1 ++ fa), fi, fb, (L1 ++ La), Lb. rewrite <- !app_assoc.
      split; [by rewrite rd_cons_S by lia|]. split; [done|]. split; [done|]. split; [done|].
      split; [by apply leaves_app|]. split; [done|]. split; [lia|]. split; [by destruct m1|]. intros s Hrd.
      destruct (decide (i = 1)) as [->|Hi1].
      * rewrite Hz, app_nil_r by done. change (1 - 1) with 0 in Hrd. rewrite rd_cons_0 in Hrd. by injection Hrd as <-.
      * rewrite rd_cons_S in Hrd by lia. specialize (Hs s Hrd). apply Forall_app. split; [|exact Hs].
        eapply Forall_impl; [exact B1|]. intros e He. transitivity k; [exact He|].
        destruct ma as [|x ma]; [by destruct (Hnz ltac:(lia))|].
        apply Forall_cons in Hs as [Hx _]. apply Forall_app in B2 as [B2 _]. apply Forall_cons in B2 as [Bx _].
        by apply (key_le_lt_trans _ x.1).
Qed.

(** * The position of a cursor *)

Definition chain_ok (p : garry_buffer_pool) (L : list leaf) : Prop :=
  linked (map fst L) /\ Forall (fun l => leaf_at (p_page_size p) (pool_view p) l /\ 0 <= l.1.1 < p_next_page p) L.

Lemma chain_keeps p p' L : keeps p p' -> chain_ok p L -> chain_ok p' L.
Proof.
  intros [K1 K2 K3 K4] [H1 H2]. split; [done|]. eapply Forall_impl; [exact H2|]. intros l [(prev & Ha) Hp].
  split; [|by rewrite K3]. exists prev. rewrite K2. by apply (node_at_view _ (pool_view p)).
Qed.

(** The leaves of a tree form a chain. *)
Lemma btree_leaves h p root m fp L :
  btree h p root m fp -> leaves_of (p_page_size p) (pool_view p) m fp L -> chain_ok p L.
Proof.
  intros [T1 T2 T3 T4] [L1 L2 L3 L4]. split; [by rewrite <- L1|]. apply Forall_forall. intros l Hl.
  rewrite Forall_forall in L3. rewrite Forall_forall in L4. rewrite Forall_forall in T3.
  split; [by apply L3|]. by apply T3, L4.
Qed.

Lemma linked_tail (l1 l2 : list (Z * Z)) : linked (l1 ++ l2) -> linked l2.
Proof. induction l1 as [|[q next] l1 IH]; [done|]. intros [_ H]. by apply IH. Qed.

Lemma chain_tail p L1 L2 : chain_ok p (L1 ++ L2) -> chain_ok p L2.
Proof.
  intros [H1 H2]. rewrite map_app in H1. apply linked_tail in H1. apply Forall_app in H2 as [_ H2]. by split.
Qed.

(** [cursor_on p cur P rest L]: the cursor is in the first leaf of [L], with the
    entries [rest] still to come. *)
Record cursor_on (p : garry_buffer_pool) (cur : garry_btree_cursor_handle) (P : list Z) (rest : list entry)
    (L : list leaf) : Prop := {
  co_current : zlen (bc_current cur) = GARRY_MAX_KEY_SIZE;
  co_value : zlen (bc_current_value cur) = GARRY_MAX_KEY_SIZE;
  co_saved : zlen (bc_saved_key cur) = GARRY_MAX_KEY_SIZE;
  co_prefix : slice (bc_prefix cur) 0 (bc_prefix_len cur) = Some P;
  co_plen : bc_prefix_len cur < 2 ^ 31;
  co_fresh : bc_has_saved cur = false;
  co_live : bc_exhausted cur = false;
  co_chain : chain_ok p L;
  co_here : exists q next es L', L = (q, next, es) :: L' /\ bc_current_page cur = q /\
    0 <= bc_current_slot cur <= zlen es /\
    rest = drop (Z.to_nat (bc_current_slot cur)) es ++ concat (map snd L')
}.

Lemma cursor_keeps p p' cur P rest L : keeps p p' -> cursor_on p cur P rest L -> cursor_on p' cur P rest L.
Proof. intros Hk [? ? ? ? ? ? ? ? ?]. split; try done. by apply (chain_keeps p). Qed.

(** The cursor has just returned [e]: its copy of the node holds it before the slot. *)
Definition on_entry (cur : garry_btree_cursor_handle) (e : entry) : Prop :=
  bc_node_loaded cur = true /\ exists next prev es, node_rep (bc_current_node cur) (ALeaf next prev es) /\
    zlen es <= GARRY_MAX_KEYS_PER_NODE /\ 1 <= bc_current_slot cur <= zlen es /\ rd es (bc_current_slot cur - 1) = Some e.

Lemma key_array n a i arr : node_rep n a -> rd (nd_keys n) i = Some arr -> zlen arr = GARRY_MAX_KEY_SIZE.
Proof.
  intros Hn Hi. unfold rd in Hi. case_decide; [|done]. exact (Forall_lookup_1 _ _ _ _ (proj2 (na_keys _ (nr_arrays _ _ Hn))) Hi).
Qed.

Lemma copy_array (dst arr k : list Z) :
  zlen arr = GARRY_MAX_KEY_SIZE -> GARRY_MAX_KEY_SIZE <= zlen dst -> slice arr 0 (zlen k) = Some k ->
  exists d, memcpy dst 0 arr 0 GARRY_MAX_KEY_SIZE = Some d /\ zlen d = zlen dst /\ slice d 0 (zlen k) = Some k.
Proof.
  intros Ha Hd Hk. unfold memcpy. rewrite (slice_all arr) by lia. cbn [mbind option_bind].
  destruct (blit_ok dst 0 arr) as (d & E & Hz); [lia|lia|]. exists d. split; [exact E|]. split; [exact Hz|].
  pose proof (slice_is_Some _ _ _ _ Hk) as (_ & ? & ? & _).
  rewrite <- Hk. apply (slice_within d arr (zlen arr)); [exact (slice_blit _ _ _ _ E)|lia|lia|lia].
Qed.

(** Stopping at an entry of the loaded node. *)
Lemma take_slot_spec node next prev es cur key i e :
  node_rep node (ALeaf next prev es) -> rd es i = Some e -> i < 2 ^ 31 -> zlen e.1 < 2 ^ 31 ->
  GARRY_MAX_KEY_SIZE <= zlen key -> zlen (bc_current cur) = GARRY_MAX_KEY_SIZE -> zlen (bc_current_value cur) = GARRY_MAX_KEY_SIZE ->
  exists key' current value, take_slot node cur key i =
      Some (set_position (set_current cur current (zlen e.1) value) (bc_current_page cur) (i + 1) (bc_node_loaded cur), (key', zlen e.1)) /\
    slice key' 0 (zlen e.1) = Some e.1 /\ zlen key' = zlen key /\ slice current 0 (zlen e.1) = Some e.1 /\
    zlen current = GARRY_MAX_KEY_SIZE /\ slice value 0 (zlen e.2) = Some e.2 /\ zlen value = GARRY_MAX_KEY_SIZE.
Proof.
  intros Hn Hi Hi2 Hl Hkey Hc Hv. pose proof (rd_Some_range _ _ _ Hi) as Hr.
  assert (Hik : rd (map fst (an_pairs (ALeaf next prev es))) i = Some e.1) by (cbn [an_pairs]; by rewrite rd_map, Hi).
  destruct (node_key _ _ _ _ Hn Hik) as (arr & E1 & E2 & E3). pose proof (key_array _ _ _ _ Hn E1) as Hz.
  destruct (node_value _ _ _ _ i e.2 Hn) as (varr & F1 & _ & F2 & F3); [by rewrite rd_map, Hi|].
  unfold take_slot. rewrite E1, E2, F1. cbn [mbind option_bind].
  destruct (copy_array key arr e.1 Hz Hkey E3) as (key' & -> & G1 & G2). cbn [mbind option_bind].
  destruct (copy_array (bc_current cur) arr e.1 Hz ltac:(lia) E3) as (current & -> & G3 & G4). cbn [mbind option_bind].
  destruct (copy_array (bc_current_value cur) varr e.2 F3 ltac:(lia) F2) as (value & -> & G5 & G6). cbn [mbind option_bind].
  pose proof (zlen_nonneg e.1). unfold u32. rewrite !Z.mod_small by lia. exists key', current, value.
  split; [done|]. split; [done|]. split; [done|]. split; [done|]. split; [lia|]. split; [done|lia].
Qed.

(** What a call of the cursor returns, and where it leaves the cursor. *)
Definition cursor_result (n : Z) (pins : list Z) (leaves : nat) (p' : garry_buffer_pool) (cur' : garry_btree_cursor_handle)
    (P : list Z) (rest : list entry) (key : list Z) (out : option (list Z * Z)) : Prop :=
  match list_find (has_prefix P) rest with
  | Some (i, e) => exists key' L', out = Some (key', zlen e.1) /\ slice key' 0 (zlen e.1) = Some e.1 /\
      zlen key' = zlen key /\ cursor_on p' cur' P (drop (S i) rest) L' /\
      (length L' <= leaves)%nat /\ ready (n + 2 * (zlen L' - 1)) pins [] p' /\
      on_entry cur' e /\ bc_current_len cur' = zlen e.1 /\ slice (bc_current cur') 0 (zlen e.1) = Some e.1 /\
      slice (bc_current_value cur') 0 (zlen e.2) = Some e.2
  | None => out = None /\ bc_exhausted cur' = true /\ ready n pins [] p'
  end.

Lemma cursor_walk_spec L : forall p cur P rest n pins fuel key,
  cursor_on p cur P rest L -> ready (n + 2 * zlen L) pins [] p -> 0 <= n -> zlen pins < p_capacity p ->
  GARRY_MAX_KEY_SIZE <= zlen key -> (length L <= fuel)%nat ->
  exists p' cur' out, cursor_walk fuel p cur key = Some (p', cur', out) /\ keeps p p' /\
    cursor_result n pins (length L) p' cur' P rest key out.
Proof.
  induction L as [|[[q next] es] L IH]; intros p cur P rest n pins fuel key Hcur Hr Hn Hcap Hkey Hf.
  { destruct (co_here _ _ _ _ _ Hcur) as (? & ? & ? & ? & [=] & _). }
  pose proof Hcur as [C1 C2 C3 C4 C5 C6 C7 [Hlk C8] (q' & next' & es' & L' & [= <- <- <- <-] & Hq & Hs & Hrest)].
  pose proof C8 as C8'. apply Forall_cons in C8' as [[(prev & Ha) Hqr] Htl]. cbn [fst snd] in Ha, Hqr. pose proof (proj2 Ha) as Hok.
  pose proof (no_count _ _ Hok) as Hcnt. cbn [an_pairs] in Hcnt. rewrite zlen_cons in Hr. cbn [length] in Hf.
  destruct fuel as [|fuel]; [lia|]. cbn [cursor_walk]. rewrite Hq. pose proof (zlen_nonneg L) as HL0.
  destruct (load_at_ready (n + 2 * zlen L) pins p q _ ltac:(eapply ready_le; [exact Hr|lia]) ltac:(lia) Hcap Hqr Ha)
    as (p1 & nd & -> & Hnd & Hr1 & Hk1 & _). cbn [mbind option_bind].
  unfold GARRY_MAX_KEYS_PER_NODE in Hcnt.
  rewrite (find_slot_spec nd next prev es (set_node cur nd) P Hnd C4 C5 Hs ltac:(lia)). cbn [mbind option_bind bc_current_slot set_node].
  set (s := bc_current_slot cur) in *. unfold cursor_result. rewrite Hrest.
  destruct (list_find (has_prefix P) (drop (Z.to_nat s) es)) as [[i e]|] eqn:Efind; cbn [fmap option_fmap option_map fst].
  - rewrite (list_find_app_l _ _ _ i e) by exact Efind. apply list_find_Some in Efind as (Hi & Hpe & _).
    rewrite lookup_drop in Hi. assert (Hrd : rd es (s + Z.of_nat i) = Some e).
    { unfold rd. rewrite decide_True by lia. by replace (Z.to_nat (s + Z.of_nat i)) with (Z.to_nat s + i)%nat by lia. }
    pose proof (rd_Some_range _ _ _ Hrd) as Hri.
    assert (He : entry_ok (p_page_size p) e) by (eapply Forall_lookup_1; [exact (no_entries _ _ Hok)|exact Hi]).
    pose proof (eo_key _ _ He) as Hsh. unfold short in Hsh.
    destruct (take_slot_spec nd next prev es (set_node cur nd) key (s + Z.of_nat i) e Hnd Hrd)
      as (key' & current & value & -> & G1 & G2 & G3 & G4 & G5 & G6); [lia|lia|done|done|done|]. cbn [mbind option_bind].
    do 3 eexists. split; [reflexivity|]. split; [exact Hk1|].
    exists key', ((q, next, es) :: L). split; [reflexivity|]. split; [exact G1|]. split; [exact G2|]. split; [|split; [done|split; [|split; [|split; [|split]]]]].
    + split; cbn [set_position set_current set_node bc_current bc_current_value bc_saved_key bc_prefix bc_prefix_len bc_has_saved bc_exhausted];
        try done; [by apply (chain_keeps p); [|split]|].
      exists q, next, es, L. split; [reflexivity|]. split; [exact Hq|]. cbn [bc_current_slot set_position]. split; [lia|].
      rewrite drop_app_le by (rewrite length_drop; unfold zlen in *; lia). rewrite drop_drop. f_equal. f_equal. lia.
    + rewrite zlen_cons. eapply ready_le; [exact Hr1|lia].
    + split; [reflexivity|]. exists next, prev, es. split; [exact Hnd|]. cbn [bc_current_slot set_position].
      unfold GARRY_MAX_KEYS_PER_NODE. split; [lia|]. split; [lia|]. by replace (s + Z.of_nat i + 1 - 1) with (s + Z.of_nat i) by lia.
    + reflexivity.
    + exact G3.
    + exact G5.
  - rewrite list_find_app_r by done. pose proof (nr_links _ _ Hnd) as Hlinks. cbn [an_links] in Hlinks. injection Hlinks as -> _.
    destruct Hlk as [Hnext Hlk]. destruct L as [|[[q2 next2] es2] L].
    + cbn in Hnext. subst next. rewrite decide_False by lia. do 3 eexists. split; [reflexivity|]. split; [exact Hk1|].
      cbn. split; [done|]. split; [done|]. eapply ready_le; [exact Hr1|]. change (zlen []) with 0. lia.
    + assert (next = q2) as -> by exact Hnext. pose proof Htl as Htl'. apply Forall_cons in Htl' as [[_ Hq2] _]. cbn in Hq2. rewrite decide_True by lia.
      assert (Hcur1 : cursor_on p1 (set_position (set_node cur nd) q2 0 false) P (concat (map snd ((q2, next2, es2) :: L))) ((q2, next2, es2) :: L)).
      { split; cbn [set_position set_node bc_current bc_current_value bc_saved_key bc_prefix bc_prefix_len bc_has_saved bc_exhausted]; try done.
        - apply (chain_keeps p); [exact Hk1|]. by split.
        - exists q2, next2, es2, L. split; [done|]. split; [done|]. split; [cbn; pose proof (zlen_nonneg es2); lia|done]. }
      destruct (IH p1 _ P _ n pins fuel key Hcur1 Hr1 Hn) as (p2 & cur2 & out & -> & Hk2 & Hres);
        [by rewrite (kp_capacity _ _ Hk1)|done|lia|].
      exists p2, cur2, out. split; [done|]. split; [by transitivity p1|]. unfold cursor_result in Hres.
      destruct (list_find (has_prefix P) (concat _)) as [[j e]|]; [|exact Hres]. cbn [fmap option_fmap option_map prod_map fst snd].
      destruct Hres as (key' & L' & R1 & R2 & R3 & R4 & R5 & R6). exists key', L'. split; [exact R1|]. split; [exact R2|]. split; [exact R3|].
      split; [|split; [cbn [length] in *; lia|exact R6]]. rewrite drop_app_ge by lia. by replace (S (j + length (drop (Z.to_nat s) es)) - length (drop (Z.to_nat s) es))%nat with (S j) by lia.
Qed.

(** * Opening a cursor *)

Lemma cursor_descend_spec h : forall pool pid m fp fuel n pins prefix plen P cur,
  tree_at (p_page_size pool) (pool_view pool) h pid m fp -> Forall (fun q => 0 <= q < p_next_page pool) fp ->
  ready (n + 2 * (Z.of_nat h + 1)) pins [] pool -> 0 <= n -> zlen pins < p_capacity pool ->
  slice prefix 0 plen = Some P -> plen < 2 ^ 31 -> Forall is_byte P -> (h < fuel)%nat ->
  exists pool' L1 q next es L2, cursor_descend fuel pool pid (Some prefix) plen cur =
      Some (pool', set_position cur q 0 (bc_node_loaded cur)) /\
    ready n pins [] pool' /\ keeps pool pool' /\
    leaves_of (p_page_size pool) (pool_view pool) m fp (L1 ++ (q, next, es) :: L2) /\
    Forall (fun e => ~ has_prefix P e) (concat (map snd L1)).
Proof.
  induction h as [|h IH]; intros pool pid m fp fuel n pins prefix plen P cur Ht Hfp Hr Hn Hc Hp Hpl Hb Hf;
    (destruct fuel as [|fuel]; [lia|]); cbn [tree_at] in Ht; cbn [cursor_descend].
  - destruct Ht as (-> & _ & next & prev & Ha). apply Forall_cons in Hfp as [Hpid _].
    destruct (load_at_ready n pins pool pid _ ltac:(eapply ready_le; [exact Hr|lia]) Hn Hc Hpid Ha) as (p1 & nd & -> & Hnd & Hr1 & Hk1 & _).
    cbn [mbind option_bind]. rewrite (nr_kind _ _ Hnd). cbn [an_kind]. rewrite decide_True by done.
    exists p1, [], pid, next, m, []. split; [reflexivity|]. split; [exact Hr1|]. split; [exact Hk1|].
    split; [by eapply leaves_leaf|constructor].
  - destruct Ht as (next & prev & ks & cs & fps & -> & Hne & Ha & Hfor). apply Forall_cons in Hfp as [Hpid Hfps].
    destruct (load_at_ready (n + 2 * (Z.of_nat h + 1)) pins pool pid _ ltac:(eapply ready_le; [exact Hr|lia]) ltac:(lia) Hc Hpid Ha)
      as (p1 & nd & -> & Hnd & Hr1 & Hk1 & _). cbn [mbind option_bind].
    rewrite (nr_kind _ _ Hnd). cbn [an_kind]. rewrite (decide_False (P := GARRY_NODE_INTERNAL = GARRY_NODE_LEAF)) by done.
    rewrite (nr_count _ _ Hnd). cbn [an_pairs]. rewrite zlen_map.
    pose proof (slice_is_Some _ _ _ _ Hp) as (_ & Hp0 & _ & Zp).
    assert (Hks : 0 < zlen ks) by (destruct ks; [done|rewrite zlen_cons; pose proof (zlen_nonneg ks); lia]).
    rewrite decide_True by lia.
    assert (Hids : map fst (map (fun k : list Z => (k, @nil Z)) ks) = ks) by (rewrite map_map; apply map_id).
    assert (Hidx : exists idx, (if decide (plen > 0) then
        idx ← garry_internal_find nd prefix (i32 plen); Some (if decide (idx >= zlen ks) then zlen ks - 1 else idx) else Some 0) = Some idx /\
        0 <= idx <= zlen ks /\ (0 < idx -> exists s, rd ks (idx - 1) = Some s /\ key_le s P)).
    { destruct (decide (plen > 0)) as [Hpos|Hz]; [|exists 0; split; [done|]; split; [lia|lia]].
      rewrite i32_id by (unfold is_i32; lia).
      rewrite (internal_find_spec _ _ _ _ _ Hnd Hp Hb); cbn [an_pairs]; rewrite Hids.
      2: { pose proof (internal_keys_ok _ _ _ _ _ (proj2 Ha)) as Hk. eapply Forall_impl; [exact Hk|]. intros x Hx. exact (eo_bytes _ _ Hx). }
      cbn [mbind option_bind]. rewrite zlen_map.
      assert (Hbelow : forall j s, rd ks j = Some s -> j < first_index (fun x => key_lt P x) (zlen ks) ks -> key_le s P).
      { intros j s Hj Hlt. apply not_key_lt. pose proof (rd_Some_range _ _ _ Hj) as Hjr.
        destruct (first_index_range (fun x => key_lt P x) (zlen ks) ks) as [(x & _ & _ & HF)|[_ HF]].
        - rewrite Forall_lookup in HF. unfold rd in Hj. rewrite decide_True in Hj by lia. apply (HF (Z.to_nat j)).
          rewrite lookup_take_lt by lia. exact Hj.
        - rewrite Forall_lookup in HF. unfold rd in Hj. rewrite decide_True in Hj by lia. exact (HF _ _ Hj). }
      pose proof (first_index_bound (fun x => key_lt P x) ks) as Hfb.
      eexists. split; [reflexivity|]. case_decide; (split; [lia|]); intros Hp1.
      - destruct (rd_is_Some ks (zlen ks - 1 - 1)) as [s Hs]; [lia|]. exists s. split; [exact Hs|]. apply (Hbelow _ _ Hs). lia.
      - destruct (rd_is_Some ks (first_index (fun x => key_lt P x) (zlen ks) ks - 1)) as [s Hs]; [lia|].
        exists s. split; [exact Hs|]. apply (Hbelow _ _ Hs). lia. }
    destruct Hidx as (idx & -> & Hir & Hsep). cbn [mbind option_bind].
    destruct (forest_child (p_page_size pool) (pool_view pool) _ ks cs m fps idx (fun c m f H => tree_leaves _ _ _ c m f H) Hfor Hir)
      as (c & ma & mi & mb & fa & fi & fb & La & Lb & Hci & -> & -> & Hti & HLa & HLb & Hz & _ & Hs).
    pose proof (nr_children _ _ Hnd) as Hch. pose proof (rd_Some_range _ _ _ Hci). rewrite (rd_slice _ _ _ _ _ Hch) in Hci by lia.
    rewrite Z.add_0_l in Hci. rewrite Hci. cbn [mbind option_bind].
    apply Forall_app in Hfps as [_ Hfps]. apply Forall_app in Hfps as [Hfi _].
    pose proof (tree_frame _ (pool_view pool) (pool_view p1) h c mi fi (fun q _ => kp_view _ _ Hk1 q) Hti) as Hti1.
    rewrite <- (kp_page_size _ _ Hk1) in Hti1.
    destruct (IH p1 c mi fi fuel n pins prefix plen P cur Hti1) as (p2 & L1 & q & nx & es & L2 & -> & Hr2 & Hk2 & HL & HF); try done.
    + by rewrite (kp_next _ _ Hk1).
    + by rewrite (kp_capacity _ _ Hk1).
    + lia.
    + exists p2, (La ++ L1), q, nx, es, (L2 ++ Lb). split; [reflexivity|]. split; [exact Hr2|]. split; [by transitivity p1|].
      rewrite (kp_page_size _ _ Hk1) in HL. split.
      * eapply leaves_internal; [exact Ha|]. rewrite <- app_assoc. apply leaves_app; [exact HLa|].
        change (L1 ++ (q, nx, es) :: L2 ++ Lb) with (L1 ++ ((q, nx, es) :: L2) ++ Lb). rewrite app_assoc. apply leaves_app; [|exact HLb].
        destruct HL as [V1 V2 V3 V4]. split; [|exact V2| |exact V4].
        -- rewrite (leaf_seq_view _ (pool_view p1)) by (intros x _; symmetry; apply (kp_view _ _ Hk1)). exact V1.
        -- eapply Forall_impl; [exact V3|]. intros l (pr & Hl). exists pr. eapply node_at_view; [|exact Hl]. symmetry. apply (kp_view _ _ Hk1).
      * rewrite map_app, concat_app. apply Forall_app. split; [|exact HF]. rewrite <- (lv_entries _ _ _ _ _ HLa).
        destruct (decide (idx = 0)) as [->|Hi0]; [rewrite Hz by done; constructor|].
        destruct (Hsep ltac:(lia)) as (s & Hrs & Hle). eapply Forall_impl; [exact (Hs s Hrs)|]. intros e He.
        apply below_prefix. by apply (key_lt_le_trans _ s).
Qed.

Lemma filter_found {A} (P : A -> Prop) `{forall x, Decision (P x)} (l : list A) :
  filter P l = match list_find P l with Some (i, x) => x :: filter P (drop (S i) l) | None => [] end.
Proof.
  induction l as [|x l IH]; [done|]. rewrite filter_cons. cbn [list_find]. destruct (decide (P x)); [done|].
  rewrite IH. by destruct (list_find P l) as [[i y]|].
Qed.

Lemma filter_none {A} (P : A -> Prop) `{forall x, Decision (P x)} (l : list A) : Forall (fun x => ~ P x) l -> filter P l = [].
Proof. induction 1 as [|x l Hx _ IH]; [done|]. rewrite filter_cons. by rewrite decide_False. Qed.

Lemma leaves_count ps view m fp L : leaves_of ps view m fp L -> (length L <= length fp)%nat.
Proof.
  intros [HL _ _ _]. rewrite <- (length_map fst L), <- HL. clear HL. unfold leaf_seq.
  induction fp as [|q fp IH]; [done|]. cbn. destruct (leaf_next ps view q); cbn; lia.
Qed.

Lemma btree_cursor_open_spec h p root m fp fuel n pins prefix plen P :
  btree h p root m fp -> ready (n + 2 * (Z.of_nat h + 1)) pins [] p -> 0 <= n -> zlen pins < p_capacity p ->
  zlen prefix = GARRY_MAX_KEY_SIZE -> slice prefix 0 plen = Some P -> Forall is_byte P -> (h < fuel)%nat ->
  exists p' cur rest L, garry_btree_cursor_open fuel p root (Some prefix) plen = Some (p', cur) /\
    ready n pins [] p' /\ keeps p p' /\ cursor_on p' cur P rest L /\ (length L <= length fp)%nat /\
    (exists before, m = before ++ rest /\ Forall (fun e => ~ has_prefix P e) before) /\
    bc_current_len cur = 0 /\ bc_node_loaded cur = false.
Proof.
  intros Ht Hr Hn Hc Hz Hp Hb Hf. pose proof (slice_is_Some _ _ _ _ Hp) as (_ & Hp0 & Hp1 & _).
  unfold garry_btree_cursor_open. unfold memcpy. rewrite (slice_all prefix) by lia. cbn [mbind option_bind].
  destruct (blit_ok (zeros GARRY_MAX_KEY_SIZE) 0 prefix) as (pfx & Epfx & _);
    [lia|rewrite Hz; vm_compute; discriminate|]. rewrite Epfx. cbn [mbind option_bind].
  pose proof Ht as [T1 T2 T3 T4]. unfold GARRY_MAX_KEY_SIZE in Hz.
  match goal with |- context [cursor_descend _ _ _ _ _ ?c] => set (cur0 := c) end.
  destruct (cursor_descend_spec h p root m fp fuel n pins prefix plen P cur0 T1 T3 Hr Hn Hc Hp ltac:(lia) Hb Hf)
    as (p' & L1 & q & next & es & L2 & -> & Hr' & Hk & HL & HF).
  pose proof (btree_leaves _ _ _ _ _ _ Ht HL) as Hch. apply chain_tail in Hch.
  exists p', (set_position cur0 q 0 (bc_node_loaded cur0)), (concat (map snd ((q, next, es) :: L2))), ((q, next, es) :: L2).
  split; [reflexivity|]. split; [exact Hr'|]. split; [exact Hk|]. split; [|split; [|split; [|split; [reflexivity|reflexivity]]]].
  - split; cbn [set_position cur0 bc_current bc_current_value bc_saved_key bc_prefix bc_prefix_len bc_has_saved bc_exhausted
      zero_cursor]; try reflexivity.
    + rewrite (slice_within pfx prefix (zlen prefix)); [exact Hp|exact (slice_blit _ _ _ _ Epfx)|lia|lia|lia].
    + lia.
    + by apply (chain_keeps p).
    + exists q, next, es, L2. split; [reflexivity|]. split; [reflexivity|]. cbn. split; [pose proof (zlen_nonneg es); lia|reflexivity].
  - pose proof (leaves_count _ _ _ _ _ HL) as Hlen. rewrite length_app in Hlen. lia.
  - exists (concat (map snd L1)). split; [|exact HF]. rewrite (lv_entries _ _ _ _ _ HL), map_app, concat_app. reflexivity.
Qed.

(** * Iteration *)

(** The loop of a client: call next until it returns 0, and note the keys; the pool
    the calls leave is returned with them. *)
Fixpoint cursor_keys (calls fuel : nat) (p : garry_buffer_pool) (cur : garry_btree_cursor_handle) (key : list Z)
  : option (garry_buffer_pool * list (list Z)) :=
  match calls with
  | O => None
  | S calls =>
      '(p, cur, out) ← garry_btree_cursor_next fuel p cur key;
      match out with
      | None => Some (p, [])
      | Some (key, klen) =>
          k ← slice key 0 klen; '(p, ks) ← cursor_keys calls fuel p cur key; Some (p, k :: ks)
      end
  end.

Lemma cursor_next_spec p cur P rest L n pins fuel key :
  cursor_on p cur P rest L -> ready (n + 2 * zlen L) pins [] p -> 0 <= n -> zlen pins < p_capacity p ->
  GARRY_MAX_KEY_SIZE <= zlen key -> (length L <= fuel)%nat ->
  exists p' cur' out, garry_btree_cursor_next fuel p cur key = Some (p', cur', out) /\ keeps p p' /\
    cursor_result n pins (length L) p' cur' P rest key out.
Proof.
  intros Hcur Hr Hn Hc Hk Hf. unfold garry_btree_cursor_next.
  rewrite (co_live _ _ _ _ _ Hcur), (co_fresh _ _ _ _ _ Hcur). by eapply cursor_walk_spec.
Qed.

Lemma cursor_here p cur P rest L : cursor_on p cur P rest L -> 1 <= zlen L /\
  exists before, concat (map snd L) = before ++ rest.
Proof.
  intros Hcur. destruct (co_here _ _ _ _ _ Hcur) as (q & next & es & L' & -> & _ & _ & ->). split.
  - rewrite zlen_cons. pose proof (zlen_nonneg L'). lia.
  - exists (take (Z.to_nat (bc_current_slot cur)) es). cbn. by rewrite app_assoc, take_drop.
Qed.

Lemma cursor_keys_spec calls : forall p cur P rest L n pins fuel key,
  cursor_on p cur P rest L -> ready (n + 2 * zlen L + 2 * Z.of_nat (length (filter (has_prefix P) rest))) pins [] p ->
  0 <= n -> zlen pins < p_capacity p -> GARRY_MAX_KEY_SIZE <= zlen key -> (length L <= fuel)%nat ->
  (length (filter (has_prefix P) rest) < calls)%nat ->
  exists p', cursor_keys calls fuel p cur key = Some (p', map fst (filter (has_prefix P) rest)) /\
    keeps p p' /\ ready n pins [] p'.
Proof.
  induction calls as [|calls IH]; intros p cur P rest L n pins fuel key Hcur Hr Hn Hc Hk Hf Hcalls; [lia|].
  cbn [cursor_keys]. pose proof (zlen_nonneg L).
  destruct (cursor_next_spec p cur P rest L (n + 2 * Z.of_nat (length (filter (has_prefix P) rest))) pins fuel key Hcur)
    as (p' & cur' & out & -> & Hkp & Hres); [eapply ready_le; [exact Hr|lia]|lia|done|done|done|].
  rewrite filter_found in Hr, Hres, Hcalls |- *. cbn [mbind option_bind]. unfold cursor_result in Hres.
  destruct (list_find (has_prefix P) rest) as [[i e]|].
  - destruct Hres as (key' & L' & -> & Hs & Hz & Hcur' & HL & Hr' & _). rewrite Hs. cbn [mbind option_bind length] in *.
    destruct (IH p' cur' P _ L' n pins fuel key' Hcur') as (p2 & -> & Hk2 & Hr2); [|done|by rewrite (kp_capacity _ _ Hkp)|lia|lia|lia|].
    + eapply ready_le; [exact Hr'|]. destruct (cursor_here _ _ _ _ _ Hcur'). lia.
    + exists p2. split; [done|]. split; [by transitivity p'|exact Hr2].
  - destruct Hres as (-> & Hrest). exists p'. split; [done|]. split; [exact Hkp|].
    destruct Hrest as [_ Hr']. eapply ready_le; [exact Hr'|cbn [length]; lia].
Qed.

(** The accesses of an iteration: the descent, the leaves and the keys. *)
Definition iteration_cost (h : nat) (m : list entry) (fp : list Z) : Z :=
  2 * (Z.of_nat h + 1) + 2 * zlen fp + 2 * zlen m.

(** C12: a cursor enumerates the keys with its prefix: opening it and calling next
    ends with the result 0 after exactly as many calls as the tree has keys with the
    prefix, and these keys are what the calls returned, each once and in ascending
    order; neither the open nor all the calls of next together change a page, and in
    the end no page is pinned that was not before. *)
Theorem cursor_iterates h p root m fp fuel n pins prefix plen P calls key
  (Ht : btree h p root m fp) (Hr : ready (n + iteration_cost h m fp) pins [] p) (Hn : 0 <= n)
  (Hc : zlen pins < p_capacity p) (Hz : zlen prefix = GARRY_MAX_KEY_SIZE) (Hp : slice prefix 0 plen = Some P)
  (Hb : Forall is_byte P) (Hf : (h < fuel)%nat) (Hl : (length fp <= fuel)%nat) (Hk : GARRY_MAX_KEY_SIZE <= zlen key)
  (Hcalls : (length (filter (has_prefix P) m) < calls)%nat) :
  exists p' cur p2 keys, garry_btree_cursor_open fuel p root (Some prefix) plen = Some (p', cur) /\ keeps p p' /\
    cursor_keys calls fuel p' cur key = Some (p2, keys) /\ keeps p p2 /\ ready n pins [] p2 /\ keys = map fst (filter (has_prefix P) m) /\
    StronglySorted key_lt keys /\ forall k, k ∈ keys <-> P `prefix_of` k /\ is_Some (contents m !! k).
Proof.
  unfold iteration_cost in Hr. pose proof (zlen_nonneg fp). pose proof (zlen_nonneg m).
  destruct (btree_cursor_open_spec h p root m fp fuel (n + 2 * zlen fp + 2 * zlen m) pins prefix plen P Ht)
    as (p' & cur & rest & L & E & Hr' & Hkp & Hcur & HL & (before & -> & Hbf) & _); [eapply ready_le; [exact Hr|lia]|lia|done|done|done|done|done|].
  assert (Hfil : filter (has_prefix P) (before ++ rest) = filter (has_prefix P) rest) by (by rewrite filter_app, (filter_none _ _ Hbf)).
  set (m := before ++ rest) in *.
  assert (Hlen : (length (filter (has_prefix P) m) <= length m)%nat) by apply length_filter.
  pose proof (tree_sorted _ _ _ _ _ _ (bt_tree _ _ _ _ _ Ht)) as Hs.
  destruct (cursor_keys_spec calls p' cur P rest L n pins fuel key Hcur) as (p2 & E2 & Hk2 & Hr2); try done;
    [eapply ready_le; [exact Hr'|]; rewrite <- Hfil; unfold zlen in *; lia|by rewrite (kp_capacity _ _ Hkp)|lia|by rewrite <- Hfil|].
  rewrite <- Hfil in E2. exists p', cur, p2, (map fst (filter (has_prefix P) m)). split; [exact E|]. split; [exact Hkp|].
  split; [exact E2|]. split; [by transitivity p'|]. split; [exact Hr2|]. split; [reflexivity|split].
  - clearbody m. clear -Hs. induction Hs as [|e m Hs IH HF]; [constructor|]. rewrite filter_cons. case_decide; [|exact IH].
    cbn [map]. constructor; [exact IH|]. apply Forall_forall. intros k (x & -> & [_ Hx]%list_elem_of_filter)%list_elem_of_fmap.
    rewrite Forall_forall in HF. by apply HF.
  - intros k. split.
    + intros (x & -> & [Hx Hin]%list_elem_of_filter)%list_elem_of_fmap. split; [exact Hx|].
      destruct (contents m !! x.1) as [v|] eqn:Ev; [done|]. apply not_elem_of_list_to_map in Ev. exfalso. apply Ev.
      by apply list_elem_of_fmap_2.
    + intros [Hpk [v Hv]]. apply elem_of_list_to_map_2 in Hv. apply list_elem_of_fmap. exists (k, v). split; [done|].
      by apply list_elem_of_filter.
Qed.

(** A cursor opened with the prefix [9], and a peek before the first next: the key
    [1] is returned, which does not have the prefix. *)
Theorem peek_ignores_prefix :
  (p0 ← garry_allocate_leaf sample_tree_base;
   '(p, root, _) ← insert_all (fun _ => true) p0.1 p0.2 [1; 9];
   '(p, cur) ← garry_btree_cursor_open 8 p root (Some (9 :: zeros 255)) 1;
   '(p, r) ← garry_btree_cursor_peek p cur (zeros 256);
   '(p, _, r2) ← garry_btree_cursor_next 8 p cur (zeros 256);
   Some (option_map (fun x => (take 1 x.1, x.2)) r, option_map (fun x => (take 1 x.1, x.2)) r2)) =
  Some (Some ([1], 1), Some ([9], 1)).
Proof. vm_compute. reflexivity. Qed.

(** * Witnesses *)

Lemma cursor_iterates_witness : exists p root p' cur p2,
  garry_btree_cursor_open 4 p root (Some (97 :: zeros 255)) 1 = Some (p', cur) /\
  cursor_keys 2 4 p' cur (zeros 256) = Some (p2, [[97; 98]]) /\ keeps p p2.
Proof.
  destruct sample_tree_ok as (Ht & Hr & Hc & Hps & Hnx).
  destruct (btree_insert_spec (fun _ => true) 0 sample_tree 2 [] [2] 2 1000 [] [97; 98; 0] 2 [7; 8; 9] 2 [97; 98] [7; 8])
    as (p & root & h & fp & E & Hb & Hh & Hrp & _ & Hw & Hn & Hfp).
  - reflexivity.
  - exact Ht.
  - eapply ready_le; [exact Hr|unfold insert_cost, level_cost; lia].
  - lia.
  - rewrite Hc. reflexivity.
  - rewrite Hnx. vm_compute. discriminate.
  - rewrite Hps. vm_compute. split; congruence.
  - rewrite Hps. exact sample_entry.
  - lia.
  - assert (Hlen : (length fp <= 4)%nat).
    { apply (submseteq_length fp [2; 3; 4; 5]), NoDup_submseteq; [apply Hb|]. intros q Hq.
      destruct (Hfp q Hq) as [->%list_elem_of_singleton|Hq2]; [by left|]. rewrite Hnx in Hn, Hq2.
      assert (q = 3 \/ q = 4) as [-> | ->] by lia; [by right; left|by right; right; left]. }
    destruct (cursor_iterates h p root (upsert [97; 98] [7; 8] []) fp 4 10 [] (97 :: zeros 255) 1 [97] 2 (zeros 256))
      as (p' & cur & p2 & keys & E1 & _ & E2 & Hk2 & _ & E3 & _).
    + exact Hb.
    + eapply ready_le; [exact Hrp|]. unfold iteration_cost. change (zlen (upsert [97; 98] [7; 8] [])) with 1. unfold zlen. destruct Hh as [-> | ->]; lia.
    + lia.
    + rewrite (ws_capacity _ _ _ Hw), Hc. reflexivity.
    + reflexivity.
    + reflexivity.
    + repeat constructor; unfold is_byte; lia.
    + destruct Hh as [-> | ->]; lia.
    + exact Hlen.
    + vm_compute. discriminate.
    + vm_compute. lia.
    + exists p, root, p', cur, p2. split; [exact E1|]. rewrite E2, E3. split; [reflexivity|exact Hk2].
Defined.
