(* ===== verification/VersionChain.v ===== *)
(** Version chains, [src/src/version_chain.c]: the versions of one key as the
    records of a slotted page, oldest first, with the visibility rule, pruning
    and the overflow pages that hold values too long for the chain page.

    A page passed to these functions is a pointer into the buffer pool, pinned
    by the caller; it is an argument and a result here, and the caller puts the
    result back into its slot.  The results of [malloc] are arguments. *)

From S2P Require Import Prelude Endian FileIo BufferPool SlottedPage.

Definition GARRY_OVERFLOW_PTR_SIZE : Z := 4.
Definition GARRY_CHAIN_ENTRY_HEADER_SIZE : Z := 14.
Definition GARRY_CHAIN_ENTRY_BUF_SIZE : Z := GARRY_MAX_RECORD_SIZE.
Definition GARRY_CHAIN_FLAG_OVERFLOW : Z := 1.
Definition GARRY_CHAIN_PRUNE_MIN_LEN : Z := 8.
Definition GARRY_MAX_VERSIONS_PER_PAGE : Z := 128.

(** * Appending *)

Definition garry_chain_page_init (buf : list Z) (page_size : Z) : option (list Z) :=
  garry_page_init buf GARRY_NODE_CHAIN 0 page_size.

Definition garry_overflow_chunk_size (page_size : Z) : Z :=
  page_size - GARRY_PAGE_HEADER_SIZE - GARRY_OVERFLOW_PTR_SIZE.

Definition garry_chain_inline_capacity (page_size : Z) : Z :=
  page_size - GARRY_PAGE_HEADER_SIZE - GARRY_OVERFLOW_PTR_SIZE - GARRY_CHAIN_ENTRY_HEADER_SIZE.

(** The entry header every append writes: the four byte stores of each field
    are those of [garry_write_le32]. *)
Definition entry_header (entry : list Z) (txn len tomb flags : Z) : option (list Z) :=
  entry ← garry_write_le32 entry 0 txn;
  entry ← garry_write_le32 entry 4 0;
  entry ← garry_write_le32 entry 8 len;
  entry ← wr entry 12 tomb;
  wr entry 13 flags.

(** [value] is [None] for [NULL]; the entry buffer is a local array. *)
Definition garry_chain_page_append (buf : list Z) (page_size txn : Z) (value : option (list Z))
    (vlen : Z) : option (list Z * bool) :=
  if decide (vlen > garry_chain_inline_capacity page_size) then Some (buf, false) else
  entry ← entry_header (zeros GARRY_MAX_RECORD_SIZE) txn vlen 0 0;
  '(entry, pos) ←
    (match value with
     | Some value =>
         if decide (vlen > 0) then
           entry ← copy_loop entry 14 value 0 vlen;
           Some (entry, 14 + vlen)
         else Some (entry, 14)
     | None => Some (entry, 14)
     end);
  '(buf, slot_idx) ← garry_page_insert buf entry pos page_size;
  Some (buf, bool_decide (0 <= slot_idx)).

Definition garry_chain_page_append_tombstone (buf : list Z) (page_size txn : Z)
  : option (list Z * bool) :=
  entry ← entry_header (zeros GARRY_CHAIN_ENTRY_BUF_SIZE) txn 0 1 0;
  '(buf, slot_idx) ← garry_page_insert buf entry 14 page_size;
  Some (buf, bool_decide (0 <= slot_idx)).

Definition garry_chain_page_append_overflow (buf : list Z) (page_size txn total_len head : Z)
  : option (list Z * bool) :=
  entry ← entry_header (zeros GARRY_CHAIN_ENTRY_BUF_SIZE) txn total_len 0
            GARRY_CHAIN_FLAG_OVERFLOW;
  entry ← garry_write_le32 entry 14 head;
  '(buf, slot_idx) ← garry_page_insert buf entry 18 page_size;
  Some (buf, bool_decide (0 <= slot_idx)).

(** * Overflow pages *)

(** The link of the previous page; a failing pin leaves it unwritten. *)
Definition overflow_link (pool : garry_buffer_pool) (prev_pid this_pid : Z)
  : option garry_buffer_pool :=
  if decide (prev_pid >= 0) then
    '(pool, r) ← garry_pool_pin_page pool prev_pid;
    match r with
    | None => Some pool
    | Some idx =>
        page ← slot_page pool idx;
        page ← garry_write_int32 page GARRY_PAGE_HEADER_SIZE this_pid;
        pool ← set_slot_page pool idx page;
        pool ← garry_pool_mark_dirty pool prev_pid;
        pool ← garry_pool_release_page pool prev_pid;
        '(pool, _) ← garry_pool_flush_page pool prev_pid;
        Some pool
    end
  else Some pool.

(** [while (offset < vlen)]; every round writes at least one byte, so [vlen]
    rounds are enough. *)
Fixpoint overflow_write_loop (fuel : nat) (pool : garry_buffer_pool) (value : list Z)
    (vlen chunk_cap head prev_pid offset : Z) : option (garry_buffer_pool * Z) :=
  if decide (offset < vlen) then
    match fuel with
    | O => None
    | S fuel =>
        '(pool, this_pid) ← garry_pool_allocate pool;
        if decide (this_pid < 0) then Some (pool, -1) else
        '(pool, r) ← garry_pool_pin_page pool this_pid;
        match r with
        | None =>
            pool ← garry_pool_free_page pool this_pid;
            Some (pool, -1)
        | Some idx =>
            page ← slot_page pool idx;
            page ← garry_page_init page GARRY_NODE_OVERFLOW 0 (p_page_size pool);
            pool ← set_slot_page pool idx page;
            pool ← overflow_link pool prev_pid this_pid;
            let this_chunk := if decide (vlen - offset < chunk_cap) then vlen - offset
                              else chunk_cap in
            page ← slot_page pool idx;
            page ← copy_loop page (GARRY_PAGE_HEADER_SIZE + GARRY_OVERFLOW_PTR_SIZE) value offset
                     this_chunk;
            page ← garry_write_int32 page GARRY_PAGE_HEADER_SIZE (-1);
            pool ← set_slot_page pool idx page;
            pool ← garry_pool_mark_dirty pool this_pid;
            pool ← garry_pool_release_page pool this_pid;
            overflow_write_loop fuel pool value vlen chunk_cap
              (if decide (head = -1) then this_pid else head) this_pid (offset + this_chunk)
        end
    end
  else
    pool ← (if decide (prev_pid >= 0) then
              '(pool, _) ← garry_pool_flush_page pool prev_pid; Some pool
            else Some pool);
    Some (pool, head).

Definition garry_overflow_write (pool : garry_buffer_pool) (value : list Z) (vlen : Z)
  : option (garry_buffer_pool * Z) :=
  overflow_write_loop (Z.to_nat vlen) pool value vlen
    (garry_overflow_chunk_size (p_page_size pool)) (-1) (-1) 0.

(** The pool, the output buffer and the result; [total_len] rounds are enough. *)
Fixpoint overflow_read_loop (fuel : nat) (pool : garry_buffer_pool) (total_len chunk_cap pid copied : Z)
    (out_buf : list Z) : option (garry_buffer_pool * list Z * bool) :=
  if decide (pid >= 0 /\ copied < total_len) then
    match fuel with
    | O => None
    | S fuel =>
        '(pool, r) ← garry_pool_pin_page pool pid;
        match r with
        | None => Some (pool, out_buf, false)
        | Some idx =>
            page ← slot_page pool idx;
            next ← garry_read_int32 page GARRY_PAGE_HEADER_SIZE;
            let this_chunk := if decide (total_len - copied < chunk_cap) then total_len - copied
                              else chunk_cap in
            out_buf ← copy_loop out_buf copied page (GARRY_PAGE_HEADER_SIZE + GARRY_OVERFLOW_PTR_SIZE)
                        this_chunk;
            pool ← garry_pool_release_page pool pid;
            overflow_read_loop fuel pool total_len chunk_cap next (copied + this_chunk) out_buf
        end
    end
  else Some (pool, out_buf, bool_decide (copied = total_len)).

Definition garry_overflow_read (pool : garry_buffer_pool) (head total_len : Z) (out_buf : list Z)
  : option (garry_buffer_pool * list Z * bool) :=
  overflow_read_loop (Z.to_nat total_len) pool total_len
    (garry_overflow_chunk_size (p_page_size pool)) head 0 out_buf.

(** The chain of pages is as long as the file decides; a round frees a page. *)
Fixpoint garry_overflow_free (fuel : nat) (pool : garry_buffer_pool) (pid : Z)
  : option garry_buffer_pool :=
  if decide (pid >= 0) then
    match fuel with
    | O => None
    | S fuel =>
        '(pool, r) ← garry_pool_try_pin pool pid;
        match r with
        | None => Some pool
        | Some idx =>
            page ← slot_page pool idx;
            next ← garry_read_int32 page GARRY_PAGE_HEADER_SIZE;
            pool ← garry_pool_release_page pool pid;
            pool ← garry_pool_free_page pool pid;
            garry_overflow_free fuel pool next
        end
    end
  else Some pool.

(** * Visibility *)

(** The visibility test of both scans. *)
Definition entry_visible (txid_created txid_deleted snap_txid : Z) (active : list Z)
    (active_count : Z) : option bool :=
  if decide (txid_created > snap_txid) then Some false
  else if decide (txid_deleted <> 0 /\ txid_deleted <= snap_txid) then Some false
  else
    hidden ← scan 0 active_count (fun k =>
      a ← rd active k;
      Some (if decide (a = txid_created /\ a <> snap_txid) then Some () else None));
    Some (match hidden with Some _ => false | None => true end).

(** What [malloc] gives a read: room for the copy of the page, and for the value of
    slot [i].  Without room for a value the scan goes on to the next older version. *)
Record read_mem := ReadMem { rm_page : bool; rm_value : Z -> bool }.
Definition all_reads : read_mem := ReadMem true (fun _ => true).

(** [while (i >= 0 && result == NULL && !done)], with [n = i + 1].  The result
    is the returned buffer, [vlen] and a final NUL byte, or [None] for [NULL]. *)
Fixpoint find_visible_loop (mem : Z -> bool) (n : nat) (pool : garry_buffer_pool) (local rec_data : list Z)
    (page_size snap_txid : Z) (active : list Z) (active_count : Z)
  : option (garry_buffer_pool * option (list Z * Z)) :=
  match n with
  | O => Some (pool, None)
  | S n =>
      let i := Z.of_nat n in
      '(rec_data, rlen) ← garry_page_get local i rec_data page_size;
      if decide (rlen >= GARRY_CHAIN_ENTRY_HEADER_SIZE) then
        txid_created ← garry_read_le32 rec_data 0;
        txid_deleted ← garry_read_le32 rec_data 4;
        value_len ← garry_read_le32 rec_data 8;
        t ← rd rec_data 12;
        let is_tombstone := bool_decide (t <> 0) in
        fb ← rd rec_data 13;
        let fb := if decide (fb < 0) then fb + 256 else fb in
        let is_overflow := bool_decide (Z.land fb 1 = GARRY_CHAIN_FLAG_OVERFLOW) in
        visible ← entry_visible txid_created txid_deleted snap_txid active active_count;
        if visible : bool then
          if is_tombstone then Some (pool, None)
          else if is_overflow then
            head_id ← garry_read_le32 rec_data 14;
            if negb (mem i) then
              find_visible_loop mem n pool local rec_data page_size snap_txid active active_count
            else
            '(pool, result, read_ok) ←
              garry_overflow_read pool head_id value_len (zeros (value_len + 1));
            if read_ok : bool then
              result ← wr result value_len 0;
              Some (pool, Some (result, value_len))
            else
              find_visible_loop mem n pool local rec_data page_size snap_txid active active_count
          else if negb (mem i) then
            find_visible_loop mem n pool local rec_data page_size snap_txid active active_count
          else
            result ← copy_loop (zeros (value_len + 1)) 0 rec_data 14 value_len;
            result ← wr result value_len 0;
            Some (pool, Some (result, value_len))
        else find_visible_loop mem n pool local rec_data page_size snap_txid active active_count
      else find_visible_loop mem n pool local rec_data page_size snap_txid active active_count
  end.

Definition garry_chain_page_find_visible (mem : read_mem) (pool : garry_buffer_pool) (buf : list Z)
    (page_size snap_txid : Z) (active : list Z) (active_count : Z)
  : option (garry_buffer_pool * option (list Z * Z)) :=
  if negb (rm_page mem) then Some (pool, None) else
  local ← memcpy (zeros GARRY_MAX_PAGE_SIZE) 0 buf 0 page_size;
  rec_count ← garry_page_record_count local;
  find_visible_loop (rm_value mem) (Z.to_nat rec_count) pool local (zeros GARRY_CHAIN_ENTRY_BUF_SIZE) page_size
    snap_txid active active_count.

Fixpoint has_visible_loop (n : nat) (local rec_data : list Z) (page_size snap_txid : Z)
    (active : list Z) (active_count : Z) : option bool :=
  match n with
  | O => Some false
  | S n =>
      let i := Z.of_nat n in
      '(rec_data, rlen) ← garry_page_get local i rec_data page_size;
      if decide (rlen >= GARRY_CHAIN_ENTRY_HEADER_SIZE) then
        txid_created ← garry_read_le32 rec_data 0;
        txid_deleted ← garry_read_le32 rec_data 4;
        value_len ← garry_read_le32 rec_data 8;
        t ← rd rec_data 12;
        let is_tombstone := bool_decide (t <> 0) in
        visible ← entry_visible txid_created txid_deleted snap_txid active active_count;
        if visible : bool then Some (negb is_tombstone)
        else has_visible_loop n local rec_data page_size snap_txid active active_count
      else has_visible_loop n local rec_data page_size snap_txid active active_count
  end.

Definition garry_chain_page_has_visible (mem : bool) (buf : list Z) (page_size snap_txid : Z) (active : list Z)
    (active_count : Z) : option bool :=
  if negb mem then Some false else
  local ← memcpy (zeros GARRY_MAX_PAGE_SIZE) 0 buf 0 page_size;
  rec_count ← garry_page_record_count local;
  has_visible_loop (Z.to_nat rec_count) local (zeros GARRY_CHAIN_ENTRY_BUF_SIZE) page_size
    snap_txid active active_count.

Definition garry_chain_page_has_version (buf : list Z) (page_size txn : Z) : option bool :=
  local ← memcpy (zeros GARRY_MAX_PAGE_SIZE) 0 buf 0 page_size;
  rec_count ← garry_page_record_count local;
  r ← scan 0 rec_count (fun i =>
    '(rec_data, rlen) ← garry_page_get local i (zeros GARRY_CHAIN_ENTRY_BUF_SIZE) page_size;
    if decide (rlen >= 4) then
      txid_created ← garry_read_le32 rec_data 0;
      Some (if decide (txid_created = txn) then Some () else None)
    else Some None);
  Some (match r with Some _ => true | None => false end).

(** * Pruning *)

(** Whether some active snapshot still reads a version that is not the last. *)
Definition prune_visible (txid_created txid_deleted : Z) (active : list Z) (active_count : Z)
  : option bool :=
  forZ 0 active_count (fun k visible =>
    snap ← rd active k;
    if decide (txid_created <= snap /\ ~ (txid_deleted <> 0 /\ txid_deleted <= snap)) then
      creating_active ← scan 0 active_count (fun k2 =>
        a ← rd active k2; Some (if decide (a = txid_created) then Some () else None));
      Some (match creating_active with None => true | Some _ => visible end)
    else Some visible) false.

(** The first loop: the [keep] flags. *)
Definition prune_keep (local : list Z) (page_size rec_count : Z) (active : list Z)
    (active_count : Z) (rec : list Z) : option (list Z * list bool) :=
  forZ 0 rec_count (fun i '(rec, keep) =>
    '(rec, rlen) ← garry_page_get local i rec page_size;
    if decide (rlen >= GARRY_CHAIN_PRUNE_MIN_LEN) then
      txid_created ← garry_read_le32 rec 0;
      txid_deleted ← garry_read_le32 rec 4;
      if decide (i = rec_count - 1) then
        keep ← wr keep i true; Some (rec, keep)
      else
        visible ← prune_visible txid_created txid_deleted active active_count;
        keep ← wr keep i visible; Some (rec, keep)
    else
      keep ← wr keep i true; Some (rec, keep))
    (rec, replicate (Z.to_nat GARRY_MAX_VERSIONS_PER_PAGE) false).

(** The second loop: the overflow pages of the discarded entries are freed;
    [fuel] bounds the pages of one chain. *)
Definition prune_free_entry (fuel : nat) (local : list Z) (page_size : Z) (keep : list bool) (i : Z)
    (st : garry_buffer_pool * list Z) : option (garry_buffer_pool * list Z) :=
  let '(pool, rec) := st in
  k ← rd keep i;
  if k : bool then Some (pool, rec) else
  '(rec, rlen) ← garry_page_get local i rec page_size;
  if decide (rlen >= GARRY_CHAIN_ENTRY_HEADER_SIZE + 4) then
    fb2 ← rd rec 13;
    let fb2 := if decide (fb2 < 0) then fb2 + 256 else fb2 in
    if decide (Z.land fb2 GARRY_CHAIN_FLAG_OVERFLOW <> 0) then
      head_id ← garry_read_le32 rec 14;
      if decide (head_id >= 0) then
        pool ← garry_overflow_free fuel pool head_id; Some (pool, rec)
      else Some (pool, rec)
    else Some (pool, rec)
  else Some (pool, rec).

Definition prune_free (fuel : nat) (pool : garry_buffer_pool) (local : list Z)
    (page_size rec_count : Z) (keep : list bool) (rec : list Z)
  : option (garry_buffer_pool * list Z) :=
  forZ 0 rec_count (prune_free_entry fuel local page_size keep) (pool, rec).

(** The third loop: the kept entries on a new page; [None] inside when an
    insertion fails and the function returns without touching the chain page. *)
Fixpoint prune_copy (n : nat) (i : Z) (tmp local : list Z) (page_size : Z) (keep : list bool)
    (rec : list Z) : option (option (list Z)) :=
  match n with
  | O => Some (Some tmp)
  | S n =>
      k ← rd keep i;
      if k : bool then
        '(rec, rlen) ← garry_page_get local i rec page_size;
        '(tmp, r) ← garry_page_insert tmp rec rlen page_size;
        if decide (r < 0) then Some None
        else prune_copy n (i + 1) tmp local page_size keep rec
      else prune_copy n (i + 1) tmp local page_size keep rec
  end.

Definition garry_chain_page_prune (mem : bool) (fuel : nat) (pool : garry_buffer_pool) (buf : list Z)
    (page_size : Z) (active : list Z) (active_count : Z)
  : option (garry_buffer_pool * list Z) :=
  if negb mem then Some (pool, buf) else
  local ← memcpy (zeros GARRY_MAX_PAGE_SIZE) 0 buf 0 page_size;
  rec_count ← garry_page_record_count local;
  if decide (rec_count <= 1) then Some (pool, buf) else
  '(rec, keep) ← prune_keep local page_size rec_count active active_count
                   (zeros GARRY_CHAIN_ENTRY_BUF_SIZE);
  '(pool, rec) ← prune_free fuel pool local page_size rec_count keep rec;
  tmp ← garry_page_init (zeros GARRY_MAX_PAGE_SIZE) GARRY_NODE_CHAIN 0 page_size;
  r ← prune_copy (Z.to_nat rec_count) 0 tmp local page_size keep rec;
  match r with
  | None => Some (pool, buf)
  | Some tmp =>
      buf ← copy_loop buf 0 tmp 0 page_size;
      Some (pool, buf)
  end.

(** * The version iterator *)

Record garry_version_iter := VersionIter {
  it_page_buf : list Z; it_page_size : Z; it_record_count : Z; it_next_slot : Z
}.

Record version_entry := VersionEntry {
  ve_txid : Z; ve_value : option (list Z); ve_vlen : Z; ve_tombstone : bool
}.

(** The result is [None] for [GARRY_FALSE]; the iterator's pool is passed along.  [mem]:
    whether [malloc] gives room for the value. *)
Definition garry_version_iter_next (mem : bool) (it : garry_version_iter) (pool : garry_buffer_pool)
  : option (garry_version_iter * garry_buffer_pool * option version_entry) :=
  if decide (it_next_slot it < 0) then Some (it, pool, None) else
  '(rec_data, rlen) ← garry_page_get (it_page_buf it) (it_next_slot it)
                        (zeros GARRY_CHAIN_ENTRY_BUF_SIZE) (it_page_size it);
  if decide (rlen < GARRY_CHAIN_ENTRY_HEADER_SIZE) then Some (it, pool, None) else
  txid ← garry_read_le32 rec_data 0;
  value_len ← garry_read_le32 rec_data 8;
  t ← rd rec_data 12;
  let is_tomb := bool_decide (t <> 0) in
  fb ← rd rec_data 13;
  let fb := if decide (fb < 0) then fb + 256 else fb in
  let is_overflow := bool_decide (Z.land fb GARRY_CHAIN_FLAG_OVERFLOW <> 0) in
  let it' := VersionIter (it_page_buf it) (it_page_size it) (it_record_count it)
               (it_next_slot it - 1) in
  if is_tomb then Some (it', pool, Some (VersionEntry txid None 0 true))
  else if is_overflow then
    head_id ← garry_read_le32 rec_data 14;
    if negb mem then Some (it, pool, None) else
    '(pool, value, read_ok) ← garry_overflow_read pool head_id value_len (zeros value_len);
    if read_ok : bool then Some (it', pool, Some (VersionEntry txid (Some value) value_len false))
    else Some (it, pool, None)
  else if negb mem then Some (it, pool, None)
  else
    value ← copy_loop (zeros value_len) 0 rec_data 14 value_len;
    Some (it', pool, Some (VersionEntry txid (Some value) value_len false)).

(** * Versions *)

Inductive version_body :=
  | Inline (value : list Z)
  | Overflow (total_len head : Z)
  | Tombstone.

Definition is_tombstone (b : version_body) : bool :=
  match b with Tombstone => true | _ => false end.

Record version := Version { v_created : Z; v_deleted : Z; v_body : version_body }.

Definition body_len (b : version_body) : Z :=
  match b with Inline v => zlen v | Overflow n _ => n | Tombstone => 0 end.
Definition body_flags (b : version_body) : list Z :=
  match b with Inline _ => [0; 0] | Overflow _ _ => [0; 1] | Tombstone => [1; 0] end.
Definition body_bytes (b : version_body) : list Z :=
  match b with Inline v => v | Overflow _ h => le32 h | Tombstone => [] end.

(** The record of a version. *)
Definition encode_version (v : version) : list Z :=
  fields [v_created v; v_deleted v; body_len (v_body v)] ++ body_flags (v_body v)
    ++ body_bytes (v_body v).

Definition version_wf (v : version) : Prop :=
  is_i32 (v_created v) /\ is_i32 (v_deleted v) /\ 0 <= body_len (v_body v) < 2 ^ 31 /\
  14 + zlen (body_bytes (v_body v)) <= GARRY_MAX_RECORD_SIZE /\
  match v_body v with Overflow _ h => is_i32 h | _ => True end.

(** [chain_rep page_size buf vs]: the page is the version chain [vs], oldest first. *)
Definition chain_rep (page_size : Z) (buf : list Z) (vs : list version) : Prop :=
  page_rep page_size buf (map encode_version vs) /\ Forall version_wf vs.

(** The snapshot rule: created no later than the snapshot, not deleted by it, and
    not by another transaction of the active list. *)
Definition visible_to (snap : Z) (act : list Z) (v : version) : Prop :=
  v_created v <= snap /\ ~ (v_deleted v <> 0 /\ v_deleted v <= snap) /\
  ~ (v_created v ∈ act /\ v_created v <> snap).
#[export] Instance visible_to_dec snap act v : Decision (visible_to snap act v) := and_dec _ _.

Fixpoint first_visible (snap : Z) (act : list Z) (vs : list version) : option version :=
  match vs with
  | [] => None
  | v :: vs => if decide (visible_to snap act v) then Some v else first_visible snap act vs
  end.

(** The version a snapshot reads: the newest visible one. *)
Definition snapshot_version (snap : Z) (act : list Z) (vs : list version) : option version :=
  first_visible snap act (rev vs).

(** * Appending refines appending to the list *)

Lemma entry_header_blit e txn len tomb flags :
  entry_header e txn len tomb flags = blit e 0 (fields [txn; 0; len] ++ [tomb; flags]).
Proof.
  unfold entry_header. rewrite !write_le32_blit. setoid_rewrite write_le32_blit.
  setoid_rewrite wr_blit. do 3 (rewrite blit_blit_k by done). by rewrite blit_blit.
Qed.

Lemma zlen_encode v : zlen (encode_version v) = 14 + zlen (body_bytes (v_body v)).
Proof.
  unfold encode_version. rewrite !zlen_app, zlen_fields. change (zlen [_; _; _]) with 3.
  assert (zlen (body_flags (v_body v)) = 2) as -> by by destruct (v_body v). lia.
Qed.

(** What every append ends with. *)
Definition chain_appended (ps : Z) (buf : list Z) (vs : list version) (v : version)
    (buf' : list Z) (ok : bool) : Prop :=
  if decide (page_fits ps (map encode_version vs) (zlen (encode_version v)))
  then ok = true /\ chain_rep ps buf' (vs ++ [v]) /\ zlen buf' = zlen buf
  else ok = false /\ buf' = buf.

Lemma chain_insert ps buf vs v entry :
  chain_rep ps buf vs -> version_wf v ->
  slice entry 0 (zlen (encode_version v)) = Some (encode_version v) ->
  exists buf' ok, ('(buf, slot_idx) ← garry_page_insert buf entry (zlen (encode_version v)) ps;
                   Some (buf, bool_decide (0 <= slot_idx))) = Some (buf', ok) /\
    chain_appended ps buf vs v buf' ok.
Proof.
  intros [Hrep Hwf] Hv Hs. unfold chain_appended.
  pose proof (zlen_nonneg (encode_version v)).
  assert (zlen (encode_version v) <= 16384) by (rewrite zlen_encode; apply Hv).
  destruct (decide (page_fits ps (map encode_version vs) (zlen (encode_version v)))) as [Hf|Hf].
  - destruct (page_insert_fits ps buf _ entry _ _ Hrep Hf Hs) as (buf' & -> & Hl & Hrep' & _).
    cbn [mbind option_bind]. exists buf', true.
    split; [by rewrite bool_decide_true by apply zlen_nonneg|].
    split; [done|]. split; [|done]. split; [by rewrite map_app|].
    apply Forall_app. split; [done|]. by constructor.
  - rewrite (page_insert_full ps buf _ entry _ Hrep) by (done || lia).
    cbn [mbind option_bind]. by exists buf, false.
Qed.

(** The entry buffer after the header has been written: writing the header again
    would not change it. *)
Lemma entry_header_ok n txn len tomb flags :
  14 <= n -> exists e, entry_header (zeros n) txn len tomb flags = Some e /\ zlen e = n /\
    blit e 0 (fields [txn; 0; len] ++ [tomb; flags]) = Some e.
Proof.
  intros. rewrite entry_header_blit. set (h := _ ++ _). assert (zlen h = 14) by done.
  destruct (blit_ok (zeros n) 0 h) as (e & He & Hl); [lia|rewrite zlen_zeros_max; lia|].
  exists e. split; [exact He|]. split; [rewrite Hl, zlen_zeros_max; lia|].
  apply slice_blit, slice_inv in He as (p & q & -> & Hp & _).
  apply blit_app; [done|]. lia.
Qed.

(** The entry buffer after the header and the body have been written. *)
Lemma entry_built v txn tomb flags entry entry' :
  v_created v = txn -> v_deleted v = 0 -> body_flags (v_body v) = [tomb; flags] ->
  blit entry 0 (fields [txn; 0; body_len (v_body v)] ++ [tomb; flags]) = Some entry ->
  blit entry 14 (body_bytes (v_body v)) = Some entry' ->
  slice entry' 0 (zlen (encode_version v)) = Some (encode_version v).
Proof.
  intros Hc Hd Hfl He Hb.
  apply (slice_blit entry). unfold encode_version. rewrite Hc, Hd, Hfl, app_assoc.
  by apply (blit_after _ _ _ _ _ _ _ He Hb).
Qed.

Ltac solve_version_wf :=
  unfold version_wf, is_i32, GARRY_MAX_RECORD_SIZE in *;
  cbn [v_created v_deleted v_body body_len body_bytes];
  try change (zlen (@nil Z)) with 0; repeat match goal with |- context [zlen (le32 ?h)] =>
    change (zlen (le32 h)) with 4 end; lia.

Lemma chain_append_spec ps buf vs txn value vlen b :
  chain_rep ps buf vs -> is_i32 txn -> slice value 0 vlen = Some b ->
  14 + vlen <= GARRY_MAX_RECORD_SIZE ->
  exists buf' ok, garry_chain_page_append buf ps txn (Some value) vlen = Some (buf', ok) /\
    if decide (vlen <= garry_chain_inline_capacity ps)
    then chain_appended ps buf vs (Version txn 0 (Inline b)) buf' ok
    else ok = false /\ buf' = buf.
Proof.
  intros Hrep Htxn Hs Hlen. pose proof (slice_is_Some _ _ _ _ Hs) as (_ & Hv & Hvl & Hb).
  unfold GARRY_MAX_RECORD_SIZE in Hlen.
  unfold garry_chain_page_append.
  destruct (decide (vlen <= garry_chain_inline_capacity ps)) as [Hc|Hc];
    [rewrite decide_False by lia|rewrite decide_True by lia; by exists buf, false].
  set (v := Version txn 0 (Inline b)).
  destruct (entry_header_ok GARRY_MAX_RECORD_SIZE txn vlen 0 0) as (e & -> & Hle & He); [done|].
  cbn [mbind option_bind]. unfold GARRY_MAX_RECORD_SIZE in Hle.
  destruct (blit_ok e 14 b) as (e' & He' & _); [lia..|].
  assert (Hstep : (if decide (vlen > 0) then entry ← copy_loop e 14 value 0 vlen; Some (entry, 14 + vlen)
                   else Some (e, 14)) = Some (e', 14 + vlen)).
  { case_decide.
    - by rewrite (copy_loop_slice e value 14 0 vlen b), He' by (done || lia).
    - assert (vlen = 0) as -> by lia. destruct b; [|rewrite zlen_cons in Hb; pose proof (zlen_nonneg b); lia].
      rewrite blit_nil in He' by lia. by injection He' as <-. }
  rewrite Hstep. cbn [mbind option_bind].
  assert (Hz : zlen (encode_version v) = 14 + vlen) by (rewrite zlen_encode; cbn; lia).
  rewrite <- Hz. apply chain_insert; [done| |].
  - subst v. solve_version_wf.
  - apply (entry_built v txn 0 0 e e'); [done|done|done| |done]. cbn. by rewrite Hb.
Qed.

(** Appending a value to a chain page adds the version (created by [txn], not
    deleted, with the value inline) after the others when it fits inline and in
    the page's free space; otherwise it reports failure and leaves the page as
    it was. *)
Theorem append_correct ps buf vs txn value vlen b :
  chain_rep ps buf vs -> is_i32 txn -> slice value 0 vlen = Some b ->
  14 + vlen <= GARRY_MAX_RECORD_SIZE ->
  exists buf' ok, garry_chain_page_append buf ps txn (Some value) vlen = Some (buf', ok) /\
    if decide (vlen <= garry_chain_inline_capacity ps)
    then chain_appended ps buf vs (Version txn 0 (Inline b)) buf' ok
    else ok = false /\ buf' = buf.
Proof. apply chain_append_spec. Qed.

Lemma append_tombstone_spec ps buf vs txn :
  chain_rep ps buf vs -> is_i32 txn ->
  exists buf' ok, garry_chain_page_append_tombstone buf ps txn = Some (buf', ok) /\
    chain_appended ps buf vs (Version txn 0 Tombstone) buf' ok.
Proof.
  intros Hrep Htxn. unfold garry_chain_page_append_tombstone.
  destruct (entry_header_ok GARRY_CHAIN_ENTRY_BUF_SIZE txn 0 1 0) as (e & -> & Hle & He); [done|].
  cbn [mbind option_bind].
  apply (chain_insert ps buf vs (Version txn 0 Tombstone) e); [done| |].
  - solve_version_wf.
  - apply (entry_built _ txn 1 0 e e); [done|done|done|exact He|].
    apply blit_nil. unfold GARRY_CHAIN_ENTRY_BUF_SIZE, GARRY_MAX_RECORD_SIZE in Hle. lia.
Qed.

(** Deleting a key appends a tombstone of [txn] under the same contract. *)
Theorem append_tombstone_correct ps buf vs txn :
  chain_rep ps buf vs -> is_i32 txn ->
  exists buf' ok, garry_chain_page_append_tombstone buf ps txn = Some (buf', ok) /\
    chain_appended ps buf vs (Version txn 0 Tombstone) buf' ok.
Proof. apply append_tombstone_spec. Qed.

Lemma append_overflow_spec ps buf vs txn total_len head :
  chain_rep ps buf vs -> is_i32 txn -> 0 <= total_len < 2 ^ 31 -> is_i32 head ->
  exists buf' ok, garry_chain_page_append_overflow buf ps txn total_len head = Some (buf', ok) /\
    chain_appended ps buf vs (Version txn 0 (Overflow total_len head)) buf' ok.
Proof.
  intros Hrep Htxn Hlen Hh. unfold garry_chain_page_append_overflow.
  destruct (entry_header_ok GARRY_CHAIN_ENTRY_BUF_SIZE txn total_len 0 GARRY_CHAIN_FLAG_OVERFLOW)
    as (e & -> & Hle & He); [done|].
  unfold GARRY_CHAIN_ENTRY_BUF_SIZE, GARRY_MAX_RECORD_SIZE in Hle.
  cbn [mbind option_bind]. rewrite write_le32_blit.
  destruct (blit_ok e 14 (le32 head)) as (e' & He' & _);
    [lia|change (zlen (le32 head)) with 4; lia|].
  rewrite He'. cbn [mbind option_bind].
  apply (chain_insert ps buf vs (Version txn 0 (Overflow total_len head)) e'); [done| |].
  - solve_version_wf.
  - by apply (entry_built (Version txn 0 (Overflow total_len head)) txn 0 1 e e').
Qed.

(** A version whose value is in overflow pages is appended with the head page's
    id and the value's length, under the same contract. *)
Theorem append_overflow_correct ps buf vs txn total_len head :
  chain_rep ps buf vs -> is_i32 txn -> 0 <= total_len < 2 ^ 31 -> is_i32 head ->
  exists buf' ok, garry_chain_page_append_overflow buf ps txn total_len head = Some (buf', ok) /\
    chain_appended ps buf vs (Version txn 0 (Overflow total_len head)) buf' ok.
Proof. apply append_overflow_spec. Qed.

(** * Reading an entry *)

(** The record buffer after [garry_page_get] of the record of a version. *)
Lemma entry_at d d' v : blit d 0 (encode_version v) = Some d' -> exists q, d' = encode_version v ++ q.
Proof.
  intros (p & g & q & _ & Hp & _ & ->)%blit_inv. destruct p; [|rewrite zlen_cons in Hp; pose proof (zlen_nonneg p); lia].
  by exists q.
Qed.

Lemma entry_fields v q :
  version_wf v ->
  garry_read_le32 (encode_version v ++ q) 0 = Some (v_created v) /\
  garry_read_le32 (encode_version v ++ q) 4 = Some (v_deleted v) /\
  garry_read_le32 (encode_version v ++ q) 8 = Some (body_len (v_body v)).
Proof.
  intros (Hc & Hd & Hl & _). unfold encode_version. rewrite <- app_assoc.
  assert (HF : Forall is_i32 [v_created v; v_deleted v; body_len (v_body v)])
    by (repeat constructor; unfold is_i32 in *; lia).
  split; [|split].
  - by apply (read_fields_id _ _ 0).
  - by apply (read_fields_id _ _ 1).
  - by apply (read_fields_id _ _ 2).
Qed.

Lemma entry_flag v q t f :
  body_flags (v_body v) = [t; f] ->
  rd (encode_version v ++ q) 12 = Some t /\ rd (encode_version v ++ q) 13 = Some f.
Proof.
  intros Hf. unfold encode_version. rewrite Hf, <- !app_assoc.
  split; by rewrite rd_app_r by (rewrite zlen_fields; done).
Qed.

Lemma entry_body v q :
  slice (encode_version v ++ q) 14 (zlen (body_bytes (v_body v))) = Some (body_bytes (v_body v)).
Proof.
  unfold encode_version. rewrite app_assoc, <- app_assoc. apply slice_app; [|done].
  rewrite zlen_app, zlen_fields. by destruct (v_body v).
Qed.

Lemma entry_head v q n h :
  v_body v = Overflow n h -> is_i32 h -> garry_read_le32 (encode_version v ++ q) 14 = Some h.
Proof.
  intros Hb Hh. pose proof (entry_body v q) as Hs. rewrite Hb in Hs. cbn [body_bytes] in Hs.
  rewrite <- (i32_id h Hh). by apply read_le32_slice.
Qed.

(** The visibility test decides the snapshot rule. *)
Lemma entry_visible_spec v snap active cnt act :
  slice active 0 cnt = Some act ->
  entry_visible (v_created v) (v_deleted v) snap active cnt = Some (bool_decide (visible_to snap act v)).
Proof.
  intros Hs. unfold entry_visible, visible_to.
  destruct (decide (v_created v > snap)); [by rewrite bool_decide_false by lia|].
  destruct (decide (v_deleted v <> 0 /\ v_deleted v <= snap));
    [by rewrite bool_decide_false by tauto|].
  rewrite (scan_exists (fun a => a = v_created v /\ a <> snap) active act cnt Hs).
  cbn [mbind option_bind]. f_equal.
  destruct (decide (Exists (fun a => a = v_created v /\ a <> snap) act)) as [He|He];
    symmetry; [apply bool_decide_false|apply bool_decide_true].
  - apply Exists_exists in He as (a & Ha & -> & Hne). tauto.
  - split; [lia|]. split; [done|]. intros [Hin Hne]. apply He, Exists_exists. eauto.
Qed.

(** The record the loops fetch at index [n]. *)
Lemma chain_get ps local vs n v rec :
  chain_rep ps local vs -> vs !! n = Some v -> zlen rec = GARRY_CHAIN_ENTRY_BUF_SIZE ->
  exists q, garry_page_get local (Z.of_nat n) rec ps =
      Some (encode_version v ++ q, zlen (encode_version v)) /\
    zlen (encode_version v ++ q) = GARRY_CHAIN_ENTRY_BUF_SIZE /\
    14 <= zlen (encode_version v) /\ version_wf v.
Proof.
  intros [Hrep Hwf] Hv Hz. pose proof (Forall_lookup_1 _ _ _ _ Hwf Hv) as Hvwf.
  pose proof (page_get_rep ps local (map encode_version vs) (Z.of_nat n) rec Hrep) as Hg.
  rewrite rd_lookup in Hg. change (map encode_version vs) with (encode_version <$> vs) in Hg.
  rewrite list_lookup_fmap, Hv in Hg. cbn [fmap option_fmap option_map] in Hg.
  destruct Hg as (d' & Hb & ->).
  { destruct Hvwf as (_ & _ & _ & Hl & _). rewrite Hz, zlen_encode. exact Hl. }
  pose proof (blit_zlen _ _ _ _ Hb) as Hzd.
  destruct (entry_at _ _ _ Hb) as [q ->]. exists q. split; [done|]. split; [congruence|].
  split; [|done]. rewrite zlen_encode. pose proof (zlen_nonneg (body_bytes (v_body v))). lia.
Qed.

Lemma take_S_rev (vs : list version) n v :
  vs !! n = Some v -> rev (take (S n) vs) = v :: rev (take n vs).
Proof. intros Hv. rewrite (take_S_r _ _ v Hv). by rewrite rev_app_distr. Qed.

(** * Snapshot reads *)

Lemma inline_copy (b q : list Z) (p : list Z) :
  (result ← copy_loop (zeros (zlen b + 1)) 0 (p ++ b ++ q) (zlen p) (zlen b);
   wr result (zlen b) 0) = Some (b ++ [0]).
Proof.
  pose proof (zlen_nonneg b).
  assert (Hz : zlen (zeros (zlen b + 1)) = zlen b + 1) by (rewrite zlen_zeros_max; lia).
  rewrite (copy_loop_slice _ _ 0 (zlen p) (zlen b) b); [|by apply slice_app|lia|lia].
  setoid_rewrite wr_blit. rewrite blit_blit by lia. apply blit_whole.
  rewrite Hz, zlen_app. done.
Qed.

(** One round of [garry_chain_page_find_visible]. *)
Lemma find_visible_step ps pool local vs n v snap active cnt act rec :
  chain_rep ps local vs -> vs !! n = Some v -> slice active 0 cnt = Some act ->
  zlen rec = GARRY_CHAIN_ENTRY_BUF_SIZE ->
  exists rec', zlen rec' = GARRY_CHAIN_ENTRY_BUF_SIZE /\
    find_visible_loop (rm_value all_reads) (S n) pool local rec ps snap active cnt =
      if decide (visible_to snap act v)
      then match v_body v with
           | Tombstone => Some (pool, None)
           | Inline b => Some (pool, Some (b ++ [0], zlen b))
           | Overflow len head =>
               '(pool', out, ok) ← garry_overflow_read pool head len (zeros (len + 1));
               if ok : bool then out ← wr out len 0; Some (pool', Some (out, len))
               else find_visible_loop (rm_value all_reads) n pool' local rec' ps snap active cnt
           end
      else find_visible_loop (rm_value all_reads) n pool local rec' ps snap active cnt.
Proof.
  intros Hrep Hv Hact Hz. cbn [find_visible_loop].
  destruct (chain_get ps local vs n v rec Hrep Hv Hz) as (q & -> & Hzq & Hlen & Hwf).
  exists (encode_version v ++ q). split; [done|]. cbn [mbind option_bind].
  rewrite decide_True by (unfold GARRY_CHAIN_ENTRY_HEADER_SIZE; lia).
  destruct (entry_fields v q Hwf) as (-> & -> & ->). cbn [mbind option_bind].
  assert (Hfl : exists t f, body_flags (v_body v) = [t; f]) by (destruct (v_body v); eauto).
  destruct Hfl as (t & f & Hfl). destruct (entry_flag v q t f Hfl) as [-> ->].
  cbn [mbind option_bind]. rewrite (entry_visible_spec v snap active cnt act Hact).
  cbn [mbind option_bind].
  destruct (decide (visible_to snap act v)) as [Hvis|Hvis];
    [rewrite bool_decide_true by done|by rewrite bool_decide_false by done].
  destruct (v_body v) as [b|len head|] eqn:Hb; cbn [body_flags] in Hfl; injection Hfl as <- <-;
    cbn [body_len]; [|..|done].
  - pose proof (entry_body v q) as Hbody. rewrite Hb in Hbody. cbn [body_bytes] in Hbody.
    apply slice_inv in Hbody as (p & r & -> & Hp & _). rewrite <- Hp.
    pose proof (inline_copy b r p) as Hcopy. revert Hcopy.
    change (bool_decide (0 <> 0)) with false.
    change (bool_decide (Z.land (if decide (0 < 0) then 0 + 256 else 0) 1 = GARRY_CHAIN_FLAG_OVERFLOW))
      with false. cbn iota.
    destruct (copy_loop (zeros (zlen b + 1)) 0 (p ++ b ++ r) (zlen p) (zlen b)); [|done].
    cbn [mbind option_bind]. by intros ->.
  - change (bool_decide (0 <> 0)) with false.
    change (bool_decide (Z.land (if decide (1 < 0) then 1 + 256 else 1) 1 = GARRY_CHAIN_FLAG_OVERFLOW))
      with true. cbn iota.
    rewrite (entry_head v q len head Hb); [done|]. destruct Hwf as (_ & _ & _ & _ & Hh).
    by rewrite Hb in Hh.
Qed.

Lemma find_visible_loop_spec ps pool local vs n snap active cnt act rec :
  chain_rep ps local vs -> (n <= length vs)%nat -> slice active 0 cnt = Some act ->
  zlen rec = GARRY_CHAIN_ENTRY_BUF_SIZE ->
  let r := find_visible_loop (rm_value all_reads) n pool local rec ps snap active cnt in
  match first_visible snap act (rev (take n vs)) with
  | None => r = Some (pool, None)
  | Some v =>
      match v_body v with
      | Tombstone => r = Some (pool, None)
      | Inline b => r = Some (pool, Some (b ++ [0], zlen b))
      | Overflow len head => forall pool' out,
          garry_overflow_read pool head len (zeros (len + 1)) = Some (pool', out ++ [0], true) ->
          zlen out = len -> r = Some (pool', Some (out ++ [0], len))
      end
  end.
Proof.
  intros Hrep Hn Hact. revert rec. induction n as [|n IH]; intros rec Hz; [done|].
  destruct (lookup_lt_is_Some_2 vs n) as [v Hv]; [lia|]. rewrite (take_S_rev vs n v Hv).
  destruct (find_visible_step ps pool local vs n v snap active cnt act rec Hrep Hv Hact Hz)
    as (rec' & Hz' & E).
  cbv zeta. rewrite E. cbn [first_visible].
  destruct (decide (visible_to snap act v)); [|apply IH; [lia|done]].
  destruct (v_body v) as [b|len head|]; [done| |done]. intros pool' out -> Hl.
  cbn [mbind option_bind]. rewrite wr_blit.
  rewrite <- (app_nil_r (out ++ [0])), <- app_assoc.
  rewrite (blit_app out [0] [] len [0]) by done. cbn [mbind option_bind].
  by rewrite app_nil_r.
Qed.

(** The functions work on a local copy of the chain page. *)
Lemma chain_copy ps buf vs :
  chain_rep ps buf vs ->
  exists local, memcpy (zeros GARRY_MAX_PAGE_SIZE) 0 buf 0 ps = Some local /\
    chain_rep ps local vs /\ garry_page_record_count local = Some (zlen vs).
Proof.
  intros [Hrep Hwf].
  destruct (page_rep_copy ps buf (zeros GARRY_MAX_PAGE_SIZE) _ Hrep) as (local & -> & _ & Hl).
  { rewrite zlen_zeros_max. pose proof (rep_size _ _ _ Hrep). unfold GARRY_MAX_PAGE_SIZE in *. lia. }
  exists local. split; [done|]. split; [done|].
  unfold garry_page_record_count, garry_read_int32. rewrite (rep_count _ _ _ Hl).
  unfold zlen. by rewrite length_map.
Qed.

Lemma zlen_entry_buf : zlen (zeros GARRY_CHAIN_ENTRY_BUF_SIZE) = GARRY_CHAIN_ENTRY_BUF_SIZE.
Proof. by rewrite zlen_zeros_max. Qed.

Lemma take_all_zlen (vs : list version) : take (Z.to_nat (zlen vs)) vs = vs.
Proof. unfold zlen. rewrite Nat2Z.id. apply firstn_all. Qed.

Lemma find_visible_spec ps pool buf vs snap active cnt act :
  chain_rep ps buf vs -> slice active 0 cnt = Some act ->
  let r := garry_chain_page_find_visible all_reads pool buf ps snap active cnt in
  match snapshot_version snap act vs with
  | None => r = Some (pool, None)
  | Some v =>
      match v_body v with
      | Tombstone => r = Some (pool, None)
      | Inline b => r = Some (pool, Some (b ++ [0], zlen b))
      | Overflow len head => forall pool' out,
          garry_overflow_read pool head len (zeros (len + 1)) = Some (pool', out ++ [0], true) ->
          zlen out = len -> r = Some (pool', Some (out ++ [0], len))
      end
  end.
Proof.
  intros Hrep Hact r. subst r. unfold garry_chain_page_find_visible. cbn [all_reads rm_page negb].
  destruct (chain_copy ps buf vs Hrep) as (local & -> & Hl & Hc). cbn [mbind option_bind].
  rewrite Hc. cbn [mbind option_bind].
  pose proof (find_visible_loop_spec ps pool local vs (Z.to_nat (zlen vs)) snap active cnt act
    (zeros GARRY_CHAIN_ENTRY_BUF_SIZE) Hl) as H.
  rewrite take_all_zlen in H. apply H; [unfold zlen; lia|done|apply zlen_entry_buf].
Qed.

(** C27: Snapshot reads: on a chain page with the versions [vs],
    [garry_chain_page_find_visible] returns the value (with a final NUL and its
    length) of the newest version visible to the snapshot, and [NULL] when there
    is none or it is a tombstone; an inline value does not touch the pool, a
    value in overflow pages is what [garry_overflow_read] assembles. *)
Theorem find_visible_correct ps pool buf vs snap active cnt act :
  chain_rep ps buf vs -> slice active 0 cnt = Some act ->
  let r := garry_chain_page_find_visible all_reads pool buf ps snap active cnt in
  match snapshot_version snap act vs with
  | None => r = Some (pool, None)
  | Some v =>
      match v_body v with
      | Tombstone => r = Some (pool, None)
      | Inline b => r = Some (pool, Some (b ++ [0], zlen b))
      | Overflow len head => forall pool' out,
          garry_overflow_read pool head len (zeros (len + 1)) = Some (pool', out ++ [0], true) ->
          zlen out = len -> r = Some (pool', Some (out ++ [0], len))
      end
  end.
Proof. apply find_visible_spec. Qed.

(** A newest visible version whose overflow pages cannot be read (a page
    cannot be pinned, or the chain of pages is short) does not make the read
    fail: the scan goes on and an older committed value is returned. *)
Theorem find_visible_stale_after_overflow_failure ps pool pool' out buf vs v len head b
    snap active cnt act :
  chain_rep ps buf (vs ++ [v; Version snap 0 (Overflow len head)]) ->
  slice active 0 cnt = Some act -> visible_to snap act v -> v_body v = Inline b ->
  garry_overflow_read pool head len (zeros (len + 1)) = Some (pool', out, false) ->
  garry_chain_page_find_visible all_reads pool buf ps snap active cnt = Some (pool', Some (b ++ [0], zlen b)).
Proof.
  intros Hrep Hact Hv Hb Hread. unfold garry_chain_page_find_visible. cbn [all_reads rm_page negb].
  destruct (chain_copy ps buf _ Hrep) as (local & -> & Hl & Hc). cbn [mbind option_bind].
  rewrite Hc. cbn [mbind option_bind].
  replace (Z.to_nat (zlen (vs ++ [v; Version snap 0 (Overflow len head)])))
    with (S (S (length vs))) by (unfold zlen; rewrite length_app; cbn; lia).
  destruct (find_visible_step ps pool local _ (S (length vs)) (Version snap 0 (Overflow len head))
    snap active cnt act (zeros GARRY_CHAIN_ENTRY_BUF_SIZE) Hl) as (rec1 & Hz1 & ->);
    [rewrite lookup_app_r by lia; by replace (S (length vs) - length vs)%nat with 1%nat by lia|
     exact Hact|apply zlen_entry_buf|].
  rewrite decide_True by (unfold visible_to; cbn; split; [lia|]; split; [tauto|]; tauto).
  cbn [v_body]. rewrite Hread. cbn [mbind option_bind].
  destruct (find_visible_step ps pool' local _ (length vs) v snap active cnt act rec1 Hl)
    as (rec2 & _ & ->);
    [rewrite lookup_app_r by lia; by rewrite Nat.sub_diag|exact Hact|exact Hz1|].
  rewrite decide_True by done. by rewrite Hb.
Qed.

Lemma has_visible_loop_spec ps local vs n snap active cnt act rec :
  chain_rep ps local vs -> (n <= length vs)%nat -> slice active 0 cnt = Some act ->
  zlen rec = GARRY_CHAIN_ENTRY_BUF_SIZE ->
  has_visible_loop n local rec ps snap active cnt =
    Some (match first_visible snap act (rev (take n vs)) with
          | Some v => negb (is_tombstone (v_body v)) | None => false end).
Proof.
  intros Hrep Hn Hact. revert rec. induction n as [|n IH]; intros rec Hz; [done|].
  destruct (lookup_lt_is_Some_2 vs n) as [v Hv]; [lia|]. rewrite (take_S_rev vs n v Hv).
  cbn [has_visible_loop].
  destruct (chain_get ps local vs n v rec Hrep Hv Hz) as (q & -> & Hzq & Hlen & Hwf).
  cbn [mbind option_bind]. rewrite decide_True by (unfold GARRY_CHAIN_ENTRY_HEADER_SIZE; lia).
  destruct (entry_fields v q Hwf) as (-> & -> & ->). cbn [mbind option_bind].
  assert (Hfl : exists t f, body_flags (v_body v) = [t; f]) by (destruct (v_body v); eauto).
  destruct Hfl as (t & f & Hfl). destruct (entry_flag v q t f Hfl) as [-> _].
  cbn [mbind option_bind]. rewrite (entry_visible_spec v snap active cnt act Hact).
  cbn [mbind option_bind first_visible].
  destruct (decide (visible_to snap act v)) as [Hvis|Hvis];
    [rewrite bool_decide_true by done|rewrite bool_decide_false by done; apply IH; [lia|done]].
  by destruct (v_body v); cbn [body_flags] in Hfl; injection Hfl as <- <-.
Qed.

Lemma has_version_loop_spec ps local vs txn :
  chain_rep ps local vs ->
  scan 0 (zlen vs) (fun i =>
    '(rec_data, rlen) ← garry_page_get local i (zeros GARRY_CHAIN_ENTRY_BUF_SIZE) ps;
    if decide (rlen >= 4) then
      txid_created ← garry_read_le32 rec_data 0;
      Some (if decide (txid_created = txn) then Some () else None)
    else Some None) =
  Some (if decide (Exists (fun a => a = txn) (map v_created vs)) then Some () else None).
Proof.
  intros Hrep. rewrite <- (scan_exists (fun a => a = txn) (map v_created vs) _ (zlen vs))
    by (apply slice_all; unfold zlen; by rewrite length_map).
  apply scan_ext. intros i Hi.
  destruct (lookup_lt_is_Some_2 vs (Z.to_nat i)) as [v Hv]; [unfold zlen in Hi; lia|].
  destruct (chain_get ps local vs (Z.to_nat i) v _ Hrep Hv zlen_entry_buf)
    as (q & E & _ & Hlen & Hwf).
  rewrite Z2Nat.id in E by lia. rewrite E. cbn [mbind option_bind].
  rewrite decide_True by lia. destruct (entry_fields v q Hwf) as (-> & _).
  unfold rd. rewrite decide_True by lia. change (map v_created vs) with (v_created <$> vs).
  by rewrite list_lookup_fmap, Hv.
Qed.

Lemma has_visible_spec ps buf vs snap active cnt act txn :
  chain_rep ps buf vs -> slice active 0 cnt = Some act ->
  garry_chain_page_has_visible true buf ps snap active cnt =
    Some (match snapshot_version snap act vs with
          | Some v => negb (is_tombstone (v_body v)) | None => false end) /\
  garry_chain_page_has_version buf ps txn = Some (bool_decide (txn ∈ map v_created vs)).
Proof.
  intros Hrep Hact. unfold garry_chain_page_has_visible, garry_chain_page_has_version. cbn [negb].
  destruct (chain_copy ps buf vs Hrep) as (local & -> & Hl & Hc). cbn [mbind option_bind].
  rewrite Hc. cbn [mbind option_bind]. split.
  - rewrite (has_visible_loop_spec ps local vs _ snap active cnt act) by
      (done || apply zlen_entry_buf || (unfold zlen; lia)).
    by rewrite take_all_zlen.
  - rewrite (has_version_loop_spec ps local vs txn Hl). cbn [mbind option_bind]. f_equal.
    case_decide as He; rewrite Exists_exists in He; symmetry;
      [apply bool_decide_true|apply bool_decide_false].
    + by destruct He as (a & Ha & ->).
    + intros Hin. apply He. eauto.
Qed.

(** [garry_chain_page_has_visible] answers whether the version a snapshot
    reads exists and is not a tombstone, and [garry_chain_page_has_version]
    whether some version was created by the transaction. *)
Theorem has_visible_correct ps buf vs snap active cnt act txn :
  chain_rep ps buf vs -> slice active 0 cnt = Some act ->
  garry_chain_page_has_visible true buf ps snap active cnt =
    Some (match snapshot_version snap act vs with
          | Some v => negb (is_tombstone (v_body v)) | None => false end) /\
  garry_chain_page_has_version buf ps txn = Some (bool_decide (txn ∈ map v_created vs)).
Proof. intros. by apply has_visible_spec. Qed.

(** * Pruning *)

(** A version some active snapshot may read, whose transaction is over. *)
Definition still_read (act : list Z) (v : version) : Prop :=
  (v_created v ∉ act) /\
  Exists (fun snap => v_created v <= snap /\ ~ (v_deleted v <> 0 /\ v_deleted v <= snap)) act.
#[export] Instance still_read_dec act v : Decision (still_read act v) := and_dec _ _.

(** The [keep] flags: the last version is kept, another one if it is still read. *)
Fixpoint keep_flags (act : list Z) (vs : list version) : list bool :=
  match vs with
  | [] => []
  | [v] => [true]
  | v :: vs => bool_decide (still_read act v) :: keep_flags act vs
  end.

Fixpoint flagged (fs : list bool) (vs : list version) : list version :=
  match fs, vs with
  | f :: fs, v :: vs => if f then v :: flagged fs vs else flagged fs vs
  | _, _ => []
  end.

(** The chain after pruning. *)
Definition pruned (act : list Z) (vs : list version) : list version := flagged (keep_flags act vs) vs.

(** The overflow chains of the discarded versions, in order. *)
Fixpoint dropped_heads (fs : list bool) (vs : list version) : list Z :=
  match fs, vs with
  | f :: fs, v :: vs =>
      (match v_body v with
       | Overflow _ h => if decide (f = false /\ 0 <= h) then [h] else []
       | _ => []
       end) ++ dropped_heads fs vs
  | _, _ => []
  end.

Fixpoint free_chains (fuel : nat) (pool : garry_buffer_pool) (hs : list Z) : option garry_buffer_pool :=
  match hs with
  | [] => Some pool
  | h :: hs => pool ← garry_overflow_free fuel pool h; free_chains fuel pool hs
  end.

Lemma free_chains_app fuel pool hs1 hs2 :
  free_chains fuel pool (hs1 ++ hs2) = (pool ← free_chains fuel pool hs1; free_chains fuel pool hs2).
Proof.
  revert pool. induction hs1 as [|h hs1 IH]; intros pool; [done|]. cbn [app free_chains].
  destruct (garry_overflow_free fuel pool h) as [p|]; [apply IH|done].
Qed.

Lemma length_keep_flags act vs : length (keep_flags act vs) = length vs.
Proof. induction vs as [|v [|w vs] IH]; [done|done|]. cbn [keep_flags length] in *. congruence. Qed.

Lemma keep_flags_lookup act vs n v :
  vs !! n = Some v ->
  keep_flags act vs !! n =
    Some (if decide (S n = length vs) then true else bool_decide (still_read act v)).
Proof.
  revert n. induction vs as [|w [|w' vs] IH]; intros n Hn; [done|..].
  - destruct n; [done|by destruct n].
  - change (keep_flags act (w :: w' :: vs)) with
      (bool_decide (still_read act w) :: keep_flags act (w' :: vs)).
    destruct n as [|n].
    + injection Hn as ->. done.
    + change (keep_flags act (w' :: vs) !! n =
        Some (if decide (S (S n) = S (length (w' :: vs))) then true else bool_decide (still_read act v))).
      rewrite (IH n Hn). f_equal. repeat case_decide; done || lia.
Qed.

Lemma prune_visible_spec v active cnt act :
  slice active 0 cnt = Some act ->
  prune_visible (v_created v) (v_deleted v) active cnt = Some (bool_decide (still_read act v)).
Proof.
  intros Hs. pose proof (slice_is_Some _ _ _ _ Hs) as (_ & Hcnt & _ & Hl). unfold prune_visible.
  set (reads := fun snap => v_created v <= snap /\ ~ (v_deleted v <> 0 /\ v_deleted v <= snap)).
  edestruct (forZ_inv (fun k vis => vis =
    bool_decide ((v_created v ∉ act) /\ Exists reads (take (Z.to_nat k) act))) 0 cnt)
    as (vis & E & Hvis); [done| | |rewrite E].
  - symmetry. apply bool_decide_false. intros [_ H]. by apply Exists_nil in H.
  - intros k vis Hk ->. destruct (rd_is_Some act k) as [snap Hsn]; [lia|].
    pose proof (rd_slice _ _ _ _ k Hs) as Hk'. rewrite Z.add_0_l in Hk'.
    rewrite <- Hk', Hsn by lia. cbn [mbind option_bind]. clear Hk'.
    unfold rd in Hsn. rewrite decide_True in Hsn by lia.
    rewrite (scan_exists (fun a => a = v_created v) active act cnt Hs). cbn [mbind option_bind].
    replace (Z.to_nat (k + 1)) with (S (Z.to_nat k)) by lia. rewrite (take_S_r _ _ _ Hsn).
    assert (Hin : Exists (fun a => a = v_created v) act <-> v_created v ∈ act).
    { rewrite Exists_exists. split; [by intros (a & ? & <-)|eauto]. }
    fold (reads snap).
    assert (Hlast : Exists reads (take (Z.to_nat k) act ++ [snap]) <->
      Exists reads (take (Z.to_nat k) act) \/ reads snap).
    { rewrite Exists_app, Exists_cons, Exists_nil. tauto. }
    destruct (decide (reads snap)) as [Hr|Hr].
    + destruct (decide (Exists (fun a => a = v_created v) act)) as [He|He];
        (eexists; split; [reflexivity|]).
      * rewrite !bool_decide_false by tauto. done.
      * rewrite bool_decide_true by tauto. done.
    + eexists. split; [reflexivity|]. apply bool_decide_ext. tauto.
  - rewrite Hvis. f_equal. apply bool_decide_ext. rewrite take_ge by (unfold zlen in *; lia). done.
Qed.

(** The three loops of the function. *)
Section PruneLoops.
Context (ps : Z) (local : list Z) (vs : list version) (active act : list Z) (cnt : Z).
Context (Hrep : chain_rep ps local vs) (Hact : slice active 0 cnt = Some act).

Lemma chain_slots : zlen vs <= 128.
Proof.
  destruct Hrep as [[_ _ H _ _ _ _] _]. unfold zlen in *. by rewrite length_map in H.
Qed.

Lemma chain_get_z i rec :
  0 <= i < zlen vs -> zlen rec = GARRY_CHAIN_ENTRY_BUF_SIZE ->
  exists v q, vs !! Z.to_nat i = Some v /\
    garry_page_get local i rec ps = Some (encode_version v ++ q, zlen (encode_version v)) /\
    zlen (encode_version v ++ q) = GARRY_CHAIN_ENTRY_BUF_SIZE /\
    14 <= zlen (encode_version v) /\ version_wf v.
Proof.
  intros Hi Hz. destruct (lookup_lt_is_Some_2 vs (Z.to_nat i)) as [v Hv]; [unfold zlen in Hi; lia|].
  destruct (chain_get ps local vs _ v rec Hrep Hv Hz) as (q & E & H).
  rewrite Z2Nat.id in E by lia. by exists v, q.
Qed.

Lemma prune_keep_spec rec :
  zlen rec = GARRY_CHAIN_ENTRY_BUF_SIZE ->
  exists rec' keep, prune_keep local ps (zlen vs) active cnt rec = Some (rec', keep) /\
    zlen rec' = GARRY_CHAIN_ENTRY_BUF_SIZE /\
    forall j, 0 <= j < zlen vs -> rd keep j = rd (keep_flags act vs) j.
Proof.
  intros Hz. unfold prune_keep. pose proof chain_slots as Hslots. pose proof (zlen_nonneg vs).
  edestruct (forZ_inv (fun i (st : list Z * list bool) => zlen st.1 = GARRY_CHAIN_ENTRY_BUF_SIZE /\ zlen st.2 = 128 /\
    forall j, 0 <= j < i -> rd st.2 j = rd (keep_flags act vs) j) 0 (zlen vs))
    as ([rec' keep] & E & Hz' & Hk & Hfl); [lia| | |by exists rec', keep].
  - split; [done|]. split; [done|]. lia.
  - intros i [rec1 keep] Hi (Hz1 & Hzk & Hfl). cbn [fst snd] in *.
    destruct (chain_get_z i rec1 Hi Hz1) as (v & q & Hv & -> & Hzq & Hlen & Hwf).
    cbn [mbind option_bind]. rewrite decide_True by (unfold GARRY_CHAIN_PRUNE_MIN_LEN; lia).
    destruct (entry_fields v q Hwf) as (-> & -> & _). cbn [mbind option_bind].
    rewrite (prune_visible_spec v active cnt act Hact).
    pose proof (keep_flags_lookup act vs _ v Hv) as Hflag.
    assert (Hlast : S (Z.to_nat i) = length vs <-> i = zlen vs - 1) by (unfold zlen in *; lia).
    assert (Hw : forall b, keep_flags act vs !! Z.to_nat i = Some b ->
      exists s', (keep ← wr keep i b; Some (encode_version v ++ q, keep)) = Some s' /\
        zlen s'.1 = GARRY_CHAIN_ENTRY_BUF_SIZE /\ zlen s'.2 = 128 /\
        forall j, 0 <= j < i + 1 -> rd s'.2 j = rd (keep_flags act vs) j).
    { intros b Hb. rewrite wr_Some by lia. cbn [mbind option_bind]. eexists. split; [done|].
      split; [done|]. split; [cbn; by rewrite zlen_insert|]. cbn [snd]. intros j Hj.
      rewrite rd_insert by lia. destruct (decide (j = i)) as [->|]; [|apply Hfl; lia].
      unfold rd. by rewrite decide_True, Hb by lia. }
    destruct (decide (i = zlen vs - 1)) as [Hl|Hl].
    + apply Hw. rewrite Hflag. by rewrite decide_True by tauto.
    + apply Hw. rewrite Hflag. by rewrite decide_False by tauto.
Qed.

Lemma prune_free_entry_spec fuel keep i v f pool rec :
  vs !! Z.to_nat i = Some v -> 0 <= i < zlen vs -> rd keep i = Some f ->
  zlen rec = GARRY_CHAIN_ENTRY_BUF_SIZE ->
  exists rec', zlen rec' = GARRY_CHAIN_ENTRY_BUF_SIZE /\
    prune_free_entry fuel local ps keep i (pool, rec) =
      pool' ← free_chains fuel pool (dropped_heads [f] [v]); Some (pool', rec').
Proof.
  intros Hv Hi Hf Hz. unfold prune_free_entry. rewrite Hf. cbn [mbind option_bind dropped_heads].
  destruct f; [exists rec; split; [done|]; by destruct (v_body v)|].
  destruct (chain_get_z i rec Hi Hz) as (v' & q & Hv' & -> & Hzq & Hlen & Hwf). simplify_eq.
  exists (encode_version v ++ q). split; [done|]. cbn [mbind option_bind].
  unfold GARRY_CHAIN_ENTRY_HEADER_SIZE, GARRY_CHAIN_FLAG_OVERFLOW.
  assert (Hplain : body_flags (v_body v) = [0; 0] \/ body_flags (v_body v) = [1; 0] ->
    (if decide (zlen (encode_version v) >= 14 + 4) then
       fb2 ← rd (encode_version v ++ q) 13;
       let fb2 := if decide (fb2 < 0) then fb2 + 256 else fb2 in
       if decide (Z.land fb2 1 <> 0) then
         head_id ← garry_read_le32 (encode_version v ++ q) 14;
         if decide (head_id >= 0) then
           pool ← garry_overflow_free fuel pool head_id; Some (pool, encode_version v ++ q)
         else Some (pool, encode_version v ++ q)
       else Some (pool, encode_version v ++ q)
     else Some (pool, encode_version v ++ q)) = Some (pool, encode_version v ++ q)).
  { intros Hfl. case_decide; [|done].
    assert (rd (encode_version v ++ q) 13 = Some 0) as ->; [|done].
    destruct Hfl as [Hfl|Hfl]; [by destruct (entry_flag v q 0 0 Hfl)|by destruct (entry_flag v q 1 0 Hfl)]. }
  destruct (v_body v) as [b|n h|] eqn:Hb; [apply Hplain; auto| |apply Hplain; auto].
  clear Hplain. rewrite decide_True by (rewrite zlen_encode, Hb; change (zlen _) with 4; lia).
  destruct (entry_flag v q 0 1) as [_ ->]; [by rewrite Hb|]. cbn [mbind option_bind].
  change (Z.land (if decide (1 < 0) then 1 + 256 else 1) 1) with 1. rewrite decide_True by done.
  rewrite (entry_head v q n h Hb); [|destruct Hwf as (_ & _ & _ & _ & Hh); by rewrite Hb in Hh].
  cbn [mbind option_bind].
  destruct (decide (h >= 0)) as [Hh|Hh].
  - rewrite decide_True by (split; [done|lia]). cbn [app free_chains].
    by destruct (garry_overflow_free fuel pool h).
  - by rewrite decide_False by lia.
Qed.

Lemma prune_free_loop fuel keep n i pool rec :
  (forall j, 0 <= j < zlen vs -> rd keep j = rd (keep_flags act vs) j) ->
  zlen rec = GARRY_CHAIN_ENTRY_BUF_SIZE -> 0 <= i -> i + Z.of_nat n = zlen vs ->
  exists rec', zlen rec' = GARRY_CHAIN_ENTRY_BUF_SIZE /\
    for_n n i (prune_free_entry fuel local ps keep) (pool, rec) =
      pool' ← free_chains fuel pool
               (dropped_heads (drop (Z.to_nat i) (keep_flags act vs)) (drop (Z.to_nat i) vs));
      Some (pool', rec').
Proof.
  intros Hk. revert i pool rec. induction n as [|n IH]; intros i pool rec Hz Hi Hn; cbn [for_n].
  { exists rec. split; [done|]. rewrite !drop_ge by
      (rewrite ?length_keep_flags; unfold zlen in Hn; lia). done. }
  destruct (lookup_lt_is_Some_2 vs (Z.to_nat i)) as [v Hv]; [unfold zlen in Hn; lia|].
  pose proof (keep_flags_lookup act vs _ v Hv) as Hf. set (f := if decide _ then _ else _) in Hf.
  destruct (prune_free_entry_spec fuel keep i v f pool rec Hv) as (rec1 & Hz1 & ->);
    [lia|rewrite Hk by lia; unfold rd; by rewrite decide_True by lia|done|].
  rewrite (drop_S _ _ _ Hv), (drop_S _ _ _ Hf).
  replace (S (Z.to_nat i)) with (Z.to_nat (i + 1)) by lia.
  set (fs := drop _ _). set (ws := drop _ _).
  assert (Hd : dropped_heads (f :: fs) (v :: ws) = dropped_heads [f] [v] ++ dropped_heads fs ws)
    by (cbn [dropped_heads]; by rewrite app_nil_r).
  rewrite Hd, free_chains_app.
  destruct (free_chains fuel pool (dropped_heads [f] [v])) as [pool1|];
    [|by exists rec1].
  cbn [mbind option_bind]. apply IH; [done|lia|lia].
Qed.

(** ** Copying the kept versions *)

Definition kept_len (ws : list version) : Z := recs_len (map encode_version ws).

Lemma prune_copy_spec keep n i tmp rec kept :
  (forall j, 0 <= j < zlen vs -> rd keep j = rd (keep_flags act vs) j) ->
  zlen rec = GARRY_CHAIN_ENTRY_BUF_SIZE -> 0 <= i -> i + Z.of_nat n = zlen vs ->
  page_rep ps tmp (map encode_version kept) ->
  zlen kept + Z.of_nat n <= 128 ->
  GARRY_PAGE_HEADER_SIZE + GARRY_SLOT_SIZE * (zlen kept + Z.of_nat n) + kept_len kept
    + kept_len (drop (Z.to_nat i) vs) <= ps ->
  exists tmp', prune_copy n i tmp local ps keep rec = Some (Some tmp') /\ zlen tmp' = zlen tmp /\
    page_rep ps tmp' (map encode_version
      (kept ++ flagged (drop (Z.to_nat i) (keep_flags act vs)) (drop (Z.to_nat i) vs))).
Proof.
  intros Hk. revert i tmp rec kept.
  induction n as [|n IH]; intros i tmp rec kept Hz Hi Hn Htmp Hcnt Hfit; cbn [prune_copy].
  { exists tmp. split; [done|]. split; [done|].
    rewrite (drop_ge vs) by (unfold zlen in Hn; lia).
    assert (Hnil : forall fs, flagged fs [] = []) by (by intros []).
    by rewrite Hnil, app_nil_r. }
  destruct (lookup_lt_is_Some_2 vs (Z.to_nat i)) as [v Hv]; [unfold zlen in Hn; lia|].
  pose proof (keep_flags_lookup act vs _ v Hv) as Hf. set (f := if decide _ then _ else _) in Hf.
  rewrite Hk by lia. unfold rd at 1. rewrite decide_True, Hf by lia. cbn [mbind option_bind].
  rewrite (drop_S _ _ _ Hv) in Hfit |- *. rewrite (drop_S _ _ _ Hf).
  replace (S (Z.to_nat i)) with (Z.to_nat (i + 1)) in * by lia. cbn [flagged].
  assert (Hkl : forall w ws, kept_len (w :: ws) = zlen (encode_version w) + kept_len ws)
    by (intros; unfold kept_len, recs_len; cbn [map concat]; apply zlen_app).
  rewrite Hkl in Hfit. unfold GARRY_SLOT_SIZE in *.
  pose proof (zlen_nonneg (encode_version v)). pose proof (zlen_nonneg kept).
  destruct f.
  - destruct (chain_get_z i rec ltac:(lia) Hz) as (v' & q & Hv' & -> & Hzq & Hlen & Hwf). simplify_eq.
    cbn [mbind option_bind].
    assert (Hpf : page_fits ps (map encode_version kept) (zlen (encode_version v))).
    { unfold page_fits, GARRY_MAX_SLOTS, GARRY_SLOT_SIZE.
      assert (zlen (map encode_version kept) = zlen kept) as -> by (unfold zlen; by rewrite length_map).
      fold (kept_len kept). pose proof (zlen_nonneg (concat (map encode_version (drop (Z.to_nat (i + 1)) vs)))).
      unfold kept_len at 2, recs_len in Hfit. lia. }
    destruct (page_insert_fits ps tmp _ (encode_version v ++ q) _ (encode_version v) Htmp Hpf)
      as (tmp1 & -> & Hz1 & Hrep1 & _); [by apply (slice_app [])|].
    cbn [mbind option_bind].
    assert (zlen (map encode_version kept) = zlen kept) as -> by (unfold zlen; by rewrite length_map).
    rewrite decide_False by lia.
    destruct (IH (i + 1) tmp1 (encode_version v ++ q) (kept ++ [v])) as (tmp2 & -> & Hz2 & Hrep2);
      [done|lia|lia|by rewrite map_app|rewrite zlen_app; change (zlen [v]) with 1; lia| |].
    { rewrite zlen_app. change (zlen [v]) with 1. unfold kept_len at 1.
      rewrite map_app. change (map encode_version [v]) with [encode_version v].
      rewrite recs_len_app. fold (kept_len kept). lia. }
    exists tmp2. split; [done|]. split; [congruence|]. by rewrite <- app_assoc in Hrep2.
  - destruct (IH (i + 1) tmp rec kept) as (tmp2 & -> & Hz2 & Hrep2); [done|lia|lia|done|lia|lia|].
    by exists tmp2.
Qed.
End PruneLoops.

Lemma pruned_snoc act vs v :
  keep_flags act (vs ++ [v]) = map (fun w => bool_decide (still_read act w)) vs ++ [true] /\
  pruned act (vs ++ [v]) = filter (still_read act) vs ++ [v].
Proof.
  unfold pruned. induction vs as [|w vs [IHf IH]]; [done|].
  assert (Hk : keep_flags act ((w :: vs) ++ [v]) =
    bool_decide (still_read act w) :: keep_flags act (vs ++ [v])) by (by destruct vs).
  rewrite Hk, IHf. split; [done|]. rewrite IHf in IH. cbn [flagged app map].
  rewrite IH, filter_cons. by case_bool_decide; rewrite ?decide_True, ?decide_False by done.
Qed.

Lemma pruned_wf act vs : Forall version_wf vs -> Forall version_wf (pruned act vs).
Proof.
  induction vs as [|v vs _] using rev_ind; [done|]. rewrite (proj2 (pruned_snoc act vs v)).
  rewrite !Forall_app. intros [Hvs ?]. split; [|done].
  apply Forall_forall. intros w [_ Hw]%list_elem_of_filter. by eapply Forall_forall in Hvs.
Qed.

Lemma prune_spec fuel ps pool buf vs active cnt act :
  chain_rep ps buf vs -> slice active 0 cnt = Some act ->
  match free_chains fuel pool (dropped_heads (keep_flags act vs) vs) with
  | Some pool' => exists buf', garry_chain_page_prune true fuel pool buf ps active cnt = Some (pool', buf') /\
      zlen buf' = zlen buf /\ chain_rep ps buf' (pruned act vs)
  | None => garry_chain_page_prune true fuel pool buf ps active cnt = None
  end.
Proof.
  intros Hrep Hact. unfold garry_chain_page_prune. cbn [negb].
  destruct (chain_copy ps buf vs Hrep) as (local & -> & Hl & Hc). cbn [mbind option_bind].
  rewrite Hc. cbn [mbind option_bind].
  destruct (decide (zlen vs <= 1)) as [Hle|Hgt].
  { assert (vs = [] \/ exists v, vs = [v]) as [->|[v ->]].
    { destruct vs as [|v [|w vs]]; [by left|right; by exists v|].
      rewrite !zlen_cons in Hle. pose proof (zlen_nonneg vs). lia. }
    - by exists buf.
    - assert (Hd : dropped_heads (keep_flags act [v]) [v] = []).
      { cbn [keep_flags dropped_heads app].
        by destruct (v_body v) as [|n h|]; [|destruct (decide (true = false /\ 0 <= h)) as [[? _]|]|]. }
      rewrite Hd. by exists buf. }
  destruct (prune_keep_spec ps local vs active act cnt Hl Hact _ zlen_entry_buf)
    as (rec1 & keep & -> & Hz1 & Hk). cbn [mbind option_bind].
  pose proof (zlen_nonneg vs).
  destruct (prune_free_loop ps local vs act Hl fuel keep (Z.to_nat (zlen vs)) 0 pool rec1 Hk Hz1)
    as (rec2 & Hz2 & E); [lia|lia|].
  unfold prune_free, forZ. rewrite Z.sub_0_r, E. rewrite !drop_0.
  destruct (free_chains fuel pool (dropped_heads (keep_flags act vs) vs)) as [pool'|]; [|done].
  cbn [mbind option_bind]. destruct Hl as [Hlrep Hlwf].
  pose proof Hlrep as [Hsz _ _ _ _ _ _]. pose proof (chain_slots ps local vs (conj Hlrep Hlwf)) as Hslots.
  assert (Hlm : zlen (map encode_version vs) = zlen vs) by (unfold zlen; by rewrite length_map).
  rewrite Hlm in Hsz. fold (kept_len vs) in Hsz.
  pose proof (zlen_nonneg (concat (map encode_version vs))) as Hkl. fold (recs_len (map encode_version vs)) in Hkl.
  fold (kept_len vs) in Hkl.
  unfold GARRY_PAGE_HEADER_SIZE, GARRY_SLOT_SIZE, GARRY_MAX_PAGE_SIZE in Hsz.
  destruct (page_init_rep (zeros GARRY_MAX_PAGE_SIZE) GARRY_NODE_CHAIN 0 ps) as (tmp & -> & Hzt & Hrt & _);
    [unfold GARRY_PAGE_HEADER_SIZE, GARRY_MAX_PAGE_SIZE; lia|
     rewrite zlen_zeros_max; unfold GARRY_MAX_PAGE_SIZE; lia|].
  cbn [mbind option_bind].
  destruct (prune_copy_spec ps local vs act (conj Hlrep Hlwf) keep (Z.to_nat (zlen vs)) 0 tmp rec2 [] Hk Hz2)
    as (tmp' & -> & Hzt' & Hrt'); [lia|lia|exact Hrt|change (zlen []) with 0; lia| |].
  { change (kept_len []) with 0. change (zlen []) with 0. rewrite drop_0.
    unfold GARRY_PAGE_HEADER_SIZE, GARRY_SLOT_SIZE. lia. }
  cbn [mbind option_bind]. rewrite !drop_0 in Hrt'. fold (pruned act vs) in Hrt'. cbn [app] in Hrt'.
  destruct (page_rep_copy ps tmp' buf _ Hrt') as (buf' & Hb & Hzb & Hrb);
    [by destruct Hrep as [[] _]|].
  unfold memcpy in Hb. pose proof Hb as Hb'. apply bind_Some in Hb' as (s & Hs & Hbl).
  pose proof (slice_is_Some _ _ _ _ Hs) as (_ & _ & _ & Hls). pose proof (zlen_nonneg s).
  assert (Hfit : 0 + ps <= zlen buf) by (by destruct Hrep as [[] _]).
  exists buf'. rewrite (copy_loop_slice buf tmp' 0 0 ps s Hs) by (done || lia). rewrite Hbl.
  cbn [mbind option_bind]. split; [done|]. split; [done|]. split; [done|]. by apply pruned_wf.
Qed.

(** [garry_chain_page_prune] rewrites the chain page to the versions that are
    the last one or that some active snapshot still reads, in their order, and
    frees the overflow chains of the discarded versions. *)
Theorem prune_correct fuel ps pool buf vs active cnt act :
  chain_rep ps buf vs -> slice active 0 cnt = Some act ->
  match free_chains fuel pool (dropped_heads (keep_flags act vs) vs) with
  | Some pool' => exists buf', garry_chain_page_prune true fuel pool buf ps active cnt = Some (pool', buf') /\
      zlen buf' = zlen buf /\ chain_rep ps buf' (pruned act vs)
  | None => garry_chain_page_prune true fuel pool buf ps active cnt = None
  end.
Proof. intros. by apply prune_spec. Qed.

(** * What pruning preserves *)

Lemma first_visible_filter snap act ws :
  (forall v, first_visible snap act ws = Some v -> still_read act v) ->
  first_visible snap act (filter (still_read act) ws) = first_visible snap act ws.
Proof.
  induction ws as [|w ws IH]; [done|]. cbn [first_visible]. intros H. rewrite filter_cons.
  destruct (decide (visible_to snap act w)) as [Hv|Hv].
  - rewrite decide_True by (by apply H). cbn [first_visible]. by rewrite decide_True.
  - case_decide; [cbn [first_visible]; rewrite decide_False by done|]; by apply IH.
Qed.

Lemma filter_rev_list (P : version -> Prop) `{!forall v, Decision (P v)} ws :
  filter P (rev ws) = rev (filter P ws).
Proof.
  induction ws as [|w ws IH]; [done|]. cbn [rev]. rewrite filter_app, IH, !filter_cons.
  case_decide; cbn [rev]; [done|]. change (filter P []) with (@nil version). by rewrite app_nil_r.
Qed.

Lemma snapshot_version_snoc snap act vs v :
  snapshot_version snap act (vs ++ [v]) =
    if decide (visible_to snap act v) then Some v else snapshot_version snap act vs.
Proof. unfold snapshot_version. by rewrite rev_app_distr. Qed.

(** What a snapshot of the active list reads survives pruning. *)
Lemma pruned_snapshot s act vs :
  s ∈ act ->
  (forall v, snapshot_version s act vs = Some v -> v_created v = s -> last vs = Some v) ->
  snapshot_version s act (pruned act vs) = snapshot_version s act vs.
Proof.
  intros Hs Hown. destruct vs as [|l vs _] using rev_ind; [done|].
  rewrite (proj2 (pruned_snoc act vs l)), !snapshot_version_snoc in *.
  destruct (decide (visible_to s act l)) as [|Hl]; [done|].
  unfold snapshot_version. rewrite <- filter_rev_list. apply first_visible_filter.
  intros v Hv. specialize (Hown v Hv). rewrite last_snoc in Hown.
  assert (Hvis : visible_to s act v).
  { revert Hv. clear. unfold snapshot_version. induction (rev vs) as [|w ws IH]; [done|].
    cbn [first_visible]. case_decide; [by intros [= ->]|done]. }
  destruct (decide (v_created v = s)) as [Hc|Hc].
  - specialize (Hown Hc) as [= <-]. done.
  - destruct Hvis as (H1 & H2 & H3). split; [tauto|]. apply Exists_exists. by exists s.
Qed.

(** A read of a page is determined by the version the snapshot reads, unless this one
    is in overflow pages. *)
Lemma find_visible_same ps q buf buf' vs vs' snap active cnt act :
  chain_rep ps buf vs -> chain_rep ps buf' vs' -> slice active 0 cnt = Some act ->
  snapshot_version snap act vs' = snapshot_version snap act vs ->
  (forall v len head, snapshot_version snap act vs = Some v -> v_body v <> Overflow len head) ->
  garry_chain_page_find_visible all_reads q buf' ps snap active cnt = garry_chain_page_find_visible all_reads q buf ps snap active cnt.
Proof.
  intros H H' Hact E Hno. pose proof (find_visible_spec ps q buf vs snap active cnt act H Hact) as R.
  pose proof (find_visible_spec ps q buf' vs' snap active cnt act H' Hact) as R'. rewrite E in R'. cbn zeta in R, R'.
  destruct (snapshot_version snap act vs) as [v|]; [|congruence]. specialize (Hno v).
  destruct (v_body v) as [b|len head|]; [congruence|by destruct (Hno len head)|congruence].
Qed.

(** C28: pruning is invisible to the transactions of the active list: each of them
    whose own write, if the page has one that it reads, is the last version of the page (which
    the exclusive lock on the key ensures until it ends) reads the same version of
    the pruned page as before, and both the read (of a version that is not in
    overflow pages) and the existence test of the page return the same. *)
Theorem prune_keeps_active_snapshots fuel ps pool pool' buf vs active cnt act :
  chain_rep ps buf vs -> slice active 0 cnt = Some act ->
  free_chains fuel pool (dropped_heads (keep_flags act vs) vs) = Some pool' ->
  exists buf' vs', garry_chain_page_prune true fuel pool buf ps active cnt = Some (pool', buf') /\
    chain_rep ps buf' vs' /\
    forall s, s ∈ act ->
      (forall v, snapshot_version s act vs = Some v -> v_created v = s -> last vs = Some v) ->
      snapshot_version s act vs' = snapshot_version s act vs /\
      garry_chain_page_has_visible true buf' ps s active cnt =
        garry_chain_page_has_visible true buf ps s active cnt /\
      ((forall v len head, snapshot_version s act vs = Some v -> v_body v <> Overflow len head) -> forall q,
        garry_chain_page_find_visible all_reads q buf' ps s active cnt = garry_chain_page_find_visible all_reads q buf ps s active cnt).
Proof.
  intros Hrep Hact Hfree. pose proof (prune_spec fuel ps pool buf vs active cnt act Hrep Hact) as H.
  rewrite Hfree in H. destruct H as (buf' & Hp & _ & Hrep'). exists buf', (pruned act vs).
  split; [done|]. split; [done|]. intros s Hs Hown. pose proof (pruned_snapshot s act vs Hs Hown) as E.
  split; [done|]. split.
  - rewrite (proj1 (has_visible_spec ps buf' _ s active cnt act 0 Hrep' Hact)).
    by rewrite (proj1 (has_visible_spec ps buf _ s active cnt act 0 Hrep Hact)), E.
  - intros Hno q. by apply (find_visible_same ps q buf buf' vs (pruned act vs) s active cnt act).
Qed.

(** A chain page built by the appends of a history. *)
Inductive chain_op := Put (txn : Z) (value : list Z) | Del (txn : Z).

Fixpoint run_chain (page_size : Z) (buf : list Z) (ops : list chain_op) : option (list Z) :=
  match ops with
  | [] => Some buf
  | op :: ops =>
      '(buf, ok) ← (match op with
                    | Put txn value =>
                        garry_chain_page_append buf page_size txn (Some value) (zlen value)
                    | Del txn => garry_chain_page_append_tombstone buf page_size txn
                    end);
      if ok : bool then run_chain page_size buf ops else None
  end.

(** Transaction 4 commits a value while the older transaction 3 is active, which
    then writes its own: the reads of a later transaction (snapshot 5) before and
    after pruning with the active list [3]. *)
Definition prune_scenario : option (option (list Z * Z) * option (list Z * Z)) :=
  page ← garry_chain_page_init (zeros 512) 512;
  page ← run_chain 512 page [Put 4 [118]; Put 3 [119]];
  '(pool, before) ← garry_chain_page_find_visible all_reads sample_pool page 512 5 [3] 1;
  '(pool, page) ← garry_chain_page_prune true 0 pool page 512 [3] 1;
  '(pool, after) ← garry_chain_page_find_visible all_reads pool page 512 5 [3] 1;
  Some (before, after).

(** Pruning compares a version with the active transactions only, so it drops a
    committed version whose transaction is younger than all of them when a
    later record is still uncommitted: a new transaction read the committed
    value before pruning and finds nothing after it. *)
Theorem prune_loses_committed_version :
  prune_scenario = Some (Some ([118; 0], 1), None).
Proof. vm_compute. reflexivity. Qed.

(** The entry buffer of [garry_chain_page_append] holds 16384 bytes, header
    included, but the only bound on an inline value is the page's capacity: on
    pages of 32 or 64 KiB a value of more than 16370 bytes that the capacity test
    lets through is written past the end of the buffer. *)
Theorem append_overruns_entry_buffer buf ps txn value vlen :
  16370 < vlen <= garry_chain_inline_capacity ps ->
  garry_chain_page_append buf ps txn (Some value) vlen = None.
Proof.
  intros Hv. unfold garry_chain_page_append. rewrite decide_False by lia.
  destruct (entry_header_ok GARRY_MAX_RECORD_SIZE txn vlen 0 0) as (e & -> & Hle & _); [done|].
  unfold GARRY_MAX_RECORD_SIZE in Hle.
  cbn [mbind option_bind]. rewrite decide_True by lia. by rewrite copy_loop_None by lia.
Qed.

(** * Witnesses *)

Definition sample_versions : list version :=
  [Version 4 0 (Inline [118]); Version 3 0 (Inline [119])].

(** A page filled with the records of a list of versions. *)
Definition chain_of (ps : Z) (vs : list version) : option (list Z) :=
  page ← garry_chain_page_init (zeros ps) ps;
  '(page, ok) ← page_fill page ps (map encode_version vs);
  if ok : bool then Some page else None.

Lemma chain_of_rep ps vs :
  GARRY_PAGE_HEADER_SIZE <= ps <= GARRY_MAX_PAGE_SIZE ->
  GARRY_PAGE_HEADER_SIZE + GARRY_SLOT_SIZE * zlen vs + kept_len vs <= ps ->
  zlen vs <= GARRY_MAX_SLOTS -> Forall version_wf vs ->
  exists page, chain_of ps vs = Some page /\ chain_rep ps page vs.
Proof.
  intros Hps Hfit Hn Hwf. unfold chain_of.
  assert (Hlm : zlen (map encode_version vs) = zlen vs) by (unfold zlen; by rewrite length_map).
  destruct (page_init_rep (zeros ps) GARRY_NODE_CHAIN 0 ps) as (b & E & _ & Hr & _);
    [done|rewrite zlen_zeros_max; lia|].
  unfold garry_chain_page_init. rewrite E. cbn [mbind option_bind].
  destruct (page_fill_rep ps b [] (map encode_version vs) Hr) as (page & -> & Hrep);
    [cbn [app]; rewrite Hlm; exact Hfit|cbn [app]; rewrite Hlm; exact Hn|].
  cbn [mbind option_bind]. exists page. split; [done|]. by split.
Qed.

Definition sample_chain : list Z := default [] (chain_of 512 sample_versions).

Lemma sample_chain_rep : chain_rep 512 sample_chain sample_versions.
Proof.
  destruct (chain_of_rep 512 sample_versions) as (page & E & H);
    [vm_compute; split; congruence|vm_compute; congruence|vm_compute; congruence| |].
  - repeat (apply Forall_cons; split; [by vm_compute|]). constructor.
  - unfold sample_chain. rewrite E. exact H.
Qed.

Lemma append_correct_witness :
  exists buf' ok, garry_chain_page_append sample_chain 512 7 (Some [1; 2; 3]) 3 = Some (buf', ok).
Proof.
  destruct (append_correct 512 sample_chain sample_versions 7 [1; 2; 3] 3 [1; 2; 3])
    as (buf' & ok & H & _);
    [exact sample_chain_rep|vm_compute; split; congruence|reflexivity|vm_compute; congruence|].
  exists buf', ok. exact H.
Defined.

Lemma append_tombstone_correct_witness :
  exists buf' ok, garry_chain_page_append_tombstone sample_chain 512 7 = Some (buf', ok).
Proof.
  destruct (append_tombstone_correct 512 sample_chain sample_versions 7) as (buf' & ok & H & _);
    [exact sample_chain_rep|vm_compute; split; congruence|].
  exists buf', ok. exact H.
Defined.

Lemma append_overflow_correct_witness :
  exists buf' ok, garry_chain_page_append_overflow sample_chain 512 7 2000 9 = Some (buf', ok).
Proof.
  destruct (append_overflow_correct 512 sample_chain sample_versions 7 2000 9) as (buf' & ok & H & _);
    [exact sample_chain_rep|vm_compute; split; congruence|vm_compute; split; congruence|
     vm_compute; split; congruence|].
  exists buf', ok. exact H.
Defined.

Lemma find_visible_correct_witness :
  garry_chain_page_find_visible all_reads sample_pool sample_chain 512 5 [3] 1
    = Some (sample_pool, Some ([118; 0], 1)).
Proof.
  exact (find_visible_correct 512 sample_pool sample_chain sample_versions 5 [3] 1 [3]
    sample_chain_rep eq_refl).
Defined.

Lemma has_visible_correct_witness :
  garry_chain_page_has_visible true sample_chain 512 5 [3] 1 = Some true.
Proof.
  exact (proj1 (has_visible_correct 512 sample_chain sample_versions 5 [3] 1 [3] 0
    sample_chain_rep eq_refl)).
Defined.

Lemma prune_correct_witness :
  exists buf', garry_chain_page_prune true 0 sample_pool sample_chain 512 [3] 1 = Some (sample_pool, buf') /\
    zlen buf' = zlen sample_chain /\ chain_rep 512 buf' [Version 3 0 (Inline [119])].
Proof.
  exact (prune_correct 0 512 sample_pool sample_chain sample_versions [3] 1 [3]
    sample_chain_rep eq_refl).
Defined.

(** Three committed versions; the second is younger than the active transactions and
    not the last, so pruning drops it. *)
Definition pruned_versions : list version :=
  [Version 1 0 (Inline [118]); Version 5 0 (Inline [119]); Version 6 0 (Inline [120])].
Definition unpruned_chain : list Z := default [] (chain_of 512 pruned_versions).

Lemma unpruned_chain_rep : chain_rep 512 unpruned_chain pruned_versions.
Proof.
  destruct (chain_of_rep 512 pruned_versions) as (page & E & H);
    [vm_compute; split; congruence|vm_compute; congruence|vm_compute; congruence| |].
  - repeat (apply Forall_cons; split; [by vm_compute|]). constructor.
  - unfold unpruned_chain. rewrite E. exact H.
Qed.

Lemma prune_keeps_active_snapshots_witness :
  exists buf' vs', garry_chain_page_prune true 0 sample_pool unpruned_chain 512 [3; 4] 2 = Some (sample_pool, buf') /\
    chain_rep 512 buf' vs' /\ buf' <> unpruned_chain /\
    garry_chain_page_find_visible all_reads sample_pool buf' 512 3 [3; 4] 2 = Some (sample_pool, Some ([118; 0], 1)).
Proof.
  destruct (prune_keeps_active_snapshots 0 512 sample_pool sample_pool unpruned_chain pruned_versions
    [3; 4] 2 [3; 4] unpruned_chain_rep eq_refl eq_refl) as (buf' & vs' & H1 & H2 & H3).
  exists buf', vs'. split; [exact H1|]. split; [exact H2|]. split.
  - intros ->. vm_compute in H1. discriminate H1.
  - destruct (H3 3) as (_ & _ & H4); [left|intros v Hv Hc; vm_compute in Hv; injection Hv as <-; discriminate Hc|].
    rewrite H4; [vm_compute; reflexivity|]. intros v len head Hv. vm_compute in Hv. injection Hv as <-. discriminate.
Defined.

(** A committed inline value followed by one whose overflow page cannot be pinned:
    the pool has no slots. *)
Definition stale_versions : list version :=
  [Version 1 0 (Inline [118]); Version 2 0 (Overflow 2000 9)].
Definition stale_chain : list Z := default [] (chain_of 512 stale_versions).
Definition no_pool : garry_buffer_pool := Pool 0 512 [] (File [] 0 true []) 2 (-1) 0.

Lemma stale_chain_rep : chain_rep 512 stale_chain stale_versions.
Proof.
  destruct (chain_of_rep 512 stale_versions) as (page & E & H);
    [vm_compute; split; congruence|vm_compute; congruence|vm_compute; congruence| |].
  - repeat (apply Forall_cons; split; [by vm_compute|]). constructor.
  - unfold stale_chain. rewrite E. exact H.
Qed.

Lemma find_visible_stale_after_overflow_failure_witness :
  garry_chain_page_find_visible all_reads no_pool stale_chain 512 2 [] 0 = Some (no_pool, Some ([118; 0], 1)).
Proof.
  apply (find_visible_stale_after_overflow_failure 512 no_pool no_pool (zeros 2001) stale_chain []
    (Version 1 0 (Inline [118])) 2000 9 [118] 2 [] 0 []).
  - exact stale_chain_rep.
  - reflexivity.
  - unfold visible_to. cbn. split; [lia|]. split; [lia|]. intros [H _]. inversion H.
  - reflexivity.
  - vm_compute. reflexivity.
Defined.

Lemma append_overruns_entry_buffer_witness :
  garry_chain_page_append [] 65536 7 (Some (zeros 16371)) 16371 = None.
Proof. apply append_overruns_entry_buffer. vm_compute. split; congruence. Defined.
