(* ===== verification/Overflow.v ===== *)
(** Overflow pages, [src/src/version_chain.c]: what [garry_overflow_write] leaves
    in the pages it allocates and what [garry_overflow_read] makes of them.

    The pages form a linked list; each holds the id of the next page (-1 at the
    end) and a chunk of the value.  The theorems are about bracketed clients of
    the pool ([PoolClient.v]) whose pages are as large as the pool's. *)

From S2P Require Import Prelude Endian FileIo BufferPool PoolClient SlottedPage VersionChain.

(** * The pages of a value *)

Record ovf_page (page : list Z) (next : Z) (chunk : list Z) : Prop := {
  op_next : garry_read_int32 page GARRY_PAGE_HEADER_SIZE = Some next;
  op_chunk : slice page (GARRY_PAGE_HEADER_SIZE + GARRY_OVERFLOW_PTR_SIZE) (zlen chunk) = Some chunk
}.

(** [ovf_chain view cap pids data]: the pages [pids] hold [data], every page but
    the last one full. *)
Fixpoint ovf_chain (view : Z -> list Z) (cap : Z) (pids : list Z) (data : list Z) : Prop :=
  match pids with
  | [] => data = []
  | pid :: rest => 0 <= pid /\ exists chunk data', data = chunk ++ data' /\ 0 < zlen chunk <= cap /\
      (rest <> [] -> zlen chunk = cap) /\ ovf_page (view pid) (default (-1) (head rest)) chunk /\
      ovf_chain view cap rest data'
  end.

Lemma ovf_chain_ext view view' cap pids data :
  (forall q, q ∈ pids -> view' q = view q) -> ovf_chain view cap pids data -> ovf_chain view' cap pids data.
Proof.
  revert data. induction pids as [|pid pids IH]; intros data Hv; [done|]. cbn [ovf_chain].
  intros (Hp & chunk & data' & -> & Hc & Hfull & Hpage & Hrest). split; [done|].
  exists chunk, data'. split; [done|]. split; [done|]. split; [done|].
  rewrite Hv by (by left). split; [done|]. apply IH; [|done]. intros. apply Hv. by right.
Qed.

Lemma ovf_chain_nonneg view cap pids data : ovf_chain view cap pids data -> Forall (fun q => 0 <= q) pids.
Proof.
  revert data. induction pids as [|pid pids IH]; intros data; [done|]. cbn [ovf_chain].
  intros (Hp & chunk & data' & _ & _ & _ & _ & Hrest). constructor; [done|by eapply IH].
Qed.

Lemma ovf_chain_last view cap pids data q :
  ovf_chain view cap pids data -> last pids = Some q -> exists c, ovf_page (view q) (-1) c.
Proof.
  revert data. induction pids as [|pid pids IH]; intros data; [done|].
  intros (Hp & c & data' & _ & _ & _ & Hpage & Hrest) Hl. destruct pids as [|x pids].
  - injection Hl as ->. by exists c.
  - by apply (IH data').
Qed.

(** One more page, linked from the last one. *)
Lemma ovf_chain_snoc view view' cap pids pid data chunk :
  ovf_chain view cap pids data -> zlen data = cap * zlen pids -> 0 < cap -> 0 <= pid ->
  (pid ∉ pids) -> NoDup pids -> 0 < zlen chunk <= cap -> ovf_page (view' pid) (-1) chunk ->
  (forall q c, last pids = Some q -> ovf_page (view q) (-1) c -> ovf_page (view' q) pid c) ->
  (forall q, q ∈ pids -> last pids <> Some q -> view' q = view q) ->
  ovf_chain view' cap (pids ++ [pid]) (data ++ chunk).
Proof.
  intros Hch Hlen Hcap Hpid Hni Hnd Hchunk Hnew. revert data Hch Hlen Hni Hnd.
  induction pids as [|x pids IH]; intros data Hch Hlen Hni Hnd Hlink Hsame.
  - cbn [ovf_chain] in Hch. subst data. cbn [app ovf_chain]. split; [done|].
    exists chunk, []. rewrite app_nil_r. done.
  - destruct Hch as (Hx & c & data' & -> & Hc & Hfull & Hpage & Hrest).
    rewrite zlen_cons, zlen_app in Hlen. apply not_elem_of_cons in Hni as [Hne Hni].
    apply NoDup_cons in Hnd as [Hxni Hnd].
    assert (Hdata : zlen data' = cap * zlen pids /\ zlen c = cap).
    { destruct pids as [|y pids].
      - cbn [ovf_chain] in Hrest. subst data'. change (zlen (@nil Z)) with 0 in *. lia.
      - specialize (Hfull ltac:(done)). lia. }
    destruct Hdata as [Hd Hcl]. cbn [app ovf_chain]. split; [done|].
    exists c, (data' ++ chunk). rewrite app_assoc. split; [done|]. split; [done|]. split; [done|].
    split.
    + destruct pids as [|y pids].
      * cbn [app head default]. by apply Hlink.
      * cbn [app head default] in *. rewrite Hsame; [done|by left|].
        intros Hl. change (last (y :: pids) = Some x) in Hl. apply Hxni. by apply last_Some_elem_of.
    + destruct pids as [|y pids]; [subst; cbn [ovf_chain] in Hrest; subst data'; cbn [app ovf_chain];
        split; [done|]; exists chunk, []; by rewrite app_nil_r|].
      apply IH; try done.
      * intros q Hq Hl. apply Hsame; [by right|exact Hl].
Qed.

(** * Writing *)

Lemma ovf_page_build page value offset chunk :
  GARRY_PAGE_HEADER_SIZE + GARRY_OVERFLOW_PTR_SIZE + zlen chunk <= zlen page ->
  slice value offset (zlen chunk) = Some chunk ->
  exists page', (page ← copy_loop page (GARRY_PAGE_HEADER_SIZE + GARRY_OVERFLOW_PTR_SIZE) value offset
                          (zlen chunk);
                 garry_write_int32 page GARRY_PAGE_HEADER_SIZE (-1)) = Some page' /\
    zlen page' = zlen page /\ ovf_page page' (-1) chunk.
Proof.
  unfold GARRY_PAGE_HEADER_SIZE, GARRY_OVERFLOW_PTR_SIZE. intros Hfit Hs. pose proof (zlen_nonneg chunk).
  rewrite (copy_loop_slice _ _ _ _ _ _ Hs) by lia.
  destruct (blit_ok page (32 + 4) chunk) as (p1 & E1 & Hz1); [lia..|]. rewrite E1.
  cbn [mbind option_bind]. unfold garry_write_int32. rewrite write_le32_blit.
  destruct (blit_ok p1 32 (le32 (-1))) as (p2 & E2 & Hz2); [lia|rewrite zlen_le32; lia|].
  exists p2. split; [done|]. split; [lia|]. split.
  - unfold garry_read_int32, GARRY_PAGE_HEADER_SIZE. by rewrite (read_le32_blit _ _ _ _ E2).
  - unfold GARRY_PAGE_HEADER_SIZE, GARRY_OVERFLOW_PTR_SIZE.
    rewrite (slice_blit_ne _ _ _ _ _ _ E2) by (rewrite zlen_le32; lia). by apply slice_blit in E1.
Qed.

Lemma ovf_page_link page next chunk pid :
  ovf_page page next chunk -> is_i32 pid ->
  exists page', garry_write_int32 page GARRY_PAGE_HEADER_SIZE pid = Some page' /\
    zlen page' = zlen page /\
    forall n c, ovf_page page n c -> ovf_page page' pid c.
Proof.
  intros [_ Hc] Hpid. apply slice_is_Some in Hc as (_ & _ & Hc & _). pose proof (zlen_nonneg chunk).
  unfold GARRY_PAGE_HEADER_SIZE, GARRY_OVERFLOW_PTR_SIZE in *. unfold garry_write_int32.
  rewrite write_le32_blit.
  destruct (blit_ok page 32 (le32 pid)) as (p2 & E2 & Hz2); [lia|rewrite zlen_le32; lia|].
  exists p2. split; [done|]. split; [done|]. intros n c [_ Hs]. split.
  - unfold garry_read_int32, GARRY_PAGE_HEADER_SIZE. by rewrite (read_le32_blit _ _ _ _ E2), i32_id.
  - unfold GARRY_PAGE_HEADER_SIZE, GARRY_OVERFLOW_PTR_SIZE in *.
    by rewrite (slice_blit_ne _ _ _ _ _ _ E2) by (rewrite zlen_le32; lia).
Qed.

Lemma overflow_link_spec n pins this p prev c :
  ready (n + 2) (this :: pins) [this] p -> 0 <= n -> zlen pins + 1 < p_capacity p ->
  prev < p_next_page p -> prev <> this -> is_i32 this ->
  (0 <= prev -> ovf_page (pool_view p prev) (-1) c) ->
  exists p', overflow_link p prev this = Some p' /\ ready n (this :: pins) [this] p' /\
    p_capacity p' = p_capacity p /\ p_page_size p' = p_page_size p /\ p_next_page p' = p_next_page p /\
    stable (this :: pins) p p' /\
    (forall q, q <> prev \/ prev < 0 -> pool_view p' q = pool_view p q) /\
    (0 <= prev -> forall d, ovf_page (pool_view p prev) (-1) d -> ovf_page (pool_view p' prev) this d).
Proof.
  intros Hr Hn Hcap Hlt Hne Hi32 Hpage. unfold overflow_link.
  destruct (decide (prev >= 0)) as [Hpos|Hneg].
  2: { exists p. split; [done|]. split; [by apply (ready_le (n + 2)); [|lia]|].
       do 3 (split; [done|]). split; [done|]. split; [done|lia]. }
  destruct (pin_page_ready n (this :: pins) [this] p prev) as (p1 & i & -> & Hr1 & Hk1 & Hs1 & Hf1 & Hpg);
    [done|done|rewrite zlen_cons; lia|lia|].
  cbn [mbind option_bind]. rewrite Hpg. cbn [mbind option_bind].
  destruct (ovf_page_link (pool_view p prev) (-1) c this) as (b & -> & Hzb & Hlink);
    [apply Hpage; lia|done|].
  cbn [mbind option_bind].
  destruct (write_mark_ready n (prev :: this :: pins) [this] p1 prev i b) as (p2 & E2 & Hr2 & Hu2 & Hf2);
    [done|by left|done| | |].
  { rewrite Hzb, (view_size _ _ _ _ _ Hr). by rewrite (kp_page_size _ _ Hk1). }
  { by intros ->%list_elem_of_singleton. }
  destruct (set_slot_page p1 i b) as [px|]; [|done]. cbn [mbind option_bind] in E2 |- *. rewrite E2.
  cbn [mbind option_bind].
  destruct (release_ready n prev (this :: pins) [this] p2 Hr2) as (p3 & -> & Hr3 & Hk3 & Hf3);
    [by intros ->%list_elem_of_singleton|].
  cbn [mbind option_bind].
  destruct (flush_page_ready n (this :: pins) [this] p3 prev Hr3) as (p4 & -> & Hr4 & Hk4 & Hf4 & _);
    [lia|by intros ->%list_elem_of_singleton|].
  cbn [mbind option_bind]. exists p4. split; [done|]. split; [done|].
  pose proof (updates_keeps _ _ _ _ _ (updates_keeps _ _ _ _ _ (keeps_updates _ _ _ _ _ Hk1 Hu2) Hk3) Hk4)
    as [U1 U2 U3 U4].
  do 3 (split; [done|]). split; [|split].
  - intros q j Hq Hj. rewrite Hf4, Hf3, Hf2. by apply Hs1.
  - intros q Hq. rewrite U4, decide_False; [done|]. intros ->. lia.
  - intros _ d Hd. rewrite U4, decide_True by done. by apply (Hlink (-1)).
Qed.

(** One round of the write loop: a page with the next chunk, linked from [prev]. *)
Definition write_round (pool : garry_buffer_pool) (value : list Z) (prev offset this_chunk : Z)
  : option (garry_buffer_pool * Z) :=
  '(pool, this_pid) ← garry_pool_allocate pool;
  '(pool, r) ← garry_pool_pin_page pool this_pid;
  idx ← r;
  page ← slot_page pool idx;
  page ← garry_page_init page GARRY_NODE_OVERFLOW 0 (p_page_size pool);
  pool ← set_slot_page pool idx page;
  pool ← overflow_link pool prev this_pid;
  page ← slot_page pool idx;
  page ← copy_loop page (GARRY_PAGE_HEADER_SIZE + GARRY_OVERFLOW_PTR_SIZE) value offset this_chunk;
  page ← garry_write_int32 page GARRY_PAGE_HEADER_SIZE (-1);
  pool ← set_slot_page pool idx page;
  pool ← garry_pool_mark_dirty pool this_pid;
  pool ← garry_pool_release_page pool this_pid;
  Some (pool, this_pid).

Lemma write_round_spec n pins p value prev offset chunk c :
  ready (n + 5) pins [] p -> 0 <= n -> zlen pins + 2 <= p_capacity p ->
  p_next_page p < 2 ^ 31 - 1 -> prev < p_next_page p ->
  slice value offset (zlen chunk) = Some chunk ->
  zlen chunk <= garry_overflow_chunk_size (p_page_size p) -> p_page_size p <= GARRY_MAX_PAGE_SIZE ->
  (0 <= prev -> ovf_page (pool_view p prev) (-1) c) ->
  exists p', write_round p value prev offset (zlen chunk) = Some (p', p_next_page p) /\
    ready n pins [] p' /\ p_capacity p' = p_capacity p /\ p_page_size p' = p_page_size p /\
    p_next_page p' = p_next_page p + 1 /\ stable pins p p' /\
    ovf_page (pool_view p' (p_next_page p)) (-1) chunk /\
    (forall q, q <> p_next_page p -> q <> prev \/ prev < 0 -> pool_view p' q = pool_view p q) /\
    (0 <= prev -> forall d, ovf_page (pool_view p prev) (-1) d ->
       ovf_page (pool_view p' prev) (p_next_page p) d).
Proof.
  intros Hr Hn Hcap Hmax Hprev Hs Hchunk Hps Hpage. unfold write_round.
  set (this := p_next_page p) in *. pose proof (rdy_next _ _ _ _ Hr) as Hnext. fold this in Hnext.
  assert (Hi32 : is_i32 this) by (unfold is_i32; lia).
  unfold garry_overflow_chunk_size, GARRY_PAGE_HEADER_SIZE, GARRY_OVERFLOW_PTR_SIZE in Hchunk.
  pose proof (zlen_nonneg chunk) as Hcn.
  destruct (allocate_pin_ready (n + 2) pins [] p) as (p1 & p2 & i & -> & Epin & Hr2 & Hc2 & Hz2 & Hx2 & Hv2 & Hs2 & Hf2 & Hpg2);
    [eapply ready_le; [exact Hr|lia]|lia|lia|done|].
  fold this in Epin, Hr2, Hx2, Hv2, Hf2 |- *. cbn [mbind option_bind]. rewrite Epin.
  cbn [mbind option_bind]. rewrite Hpg2, Hz2. cbn [mbind option_bind].
  assert (Hzz : zlen (zeros (p_page_size p)) = p_page_size p)
    by (rewrite zlen_zeros; [done|]; pose proof (wf_page_size p (rdy_wf _ _ _ _ Hr)); lia).
  destruct (page_init_rep (zeros (p_page_size p)) GARRY_NODE_OVERFLOW 0 (p_page_size p))
    as (b & -> & Hbz & _); [unfold GARRY_PAGE_HEADER_SIZE, GARRY_MAX_PAGE_SIZE in *; lia|by rewrite Hzz|].
  cbn [mbind option_bind].
  destruct (set_page_ready (n + 2) (this :: pins) [this] p2 this i b) as (p3 & -> & Hr3 & Hu3 & Hf3 & Hpg3);
    [done|by left|done|by rewrite Hbz, Hz2|]. cbn [mbind option_bind].
  apply (ready_sub _ _ _ [this]) in Hr3; [|intros q [->|Hq]%elem_of_cons; [by left|exact Hq]].
  assert (Hold : forall q, q <> this -> pool_view p3 q = pool_view p q).
  { intros q Hq. rewrite (up_view _ _ _ _ Hu3), decide_False by done. by rewrite Hv2, decide_False. }
  destruct (overflow_link_spec n pins this p3 prev c) as (p4 & -> & Hr4 & Hc4 & Hz4 & Hx4 & Hs4 & Hv4 & Hl4);
    [done|done|rewrite (up_capacity _ _ _ _ Hu3); lia|
     rewrite (up_next _ _ _ _ Hu3); lia|lia|done|
     intros Hp; rewrite Hold by lia; by apply Hpage|].
  cbn [mbind option_bind].
  assert (Hf4 : find_slot p4 this = Some i) by (apply Hs4; [by left|by rewrite Hf3]).
  rewrite (slot_page_view _ _ _ _ _ _ Hr4 Hf4). cbn [mbind option_bind].
  assert (Hv4b : zlen (pool_view p4 this) = p_page_size p).
  { rewrite (view_size _ _ _ _ _ Hr4), Hz4, (up_page_size _ _ _ _ Hu3). done. }
  destruct (ovf_page_build (pool_view p4 this) value offset chunk) as (b' & Eb & Hzb' & Hob);
    [unfold GARRY_PAGE_HEADER_SIZE, GARRY_OVERFLOW_PTR_SIZE; lia|done|].
  destruct (copy_loop (pool_view p4 this) _ value offset (zlen chunk)) as [pg|]; [|done].
  cbn [mbind option_bind] in Eb |- *. rewrite Eb. cbn [mbind option_bind].
  destruct (set_page_ready n (this :: pins) [this] p4 this i b') as (p5 & -> & Hr5 & Hu5 & Hf5 & Hpg5);
    [done|by left|done|by rewrite Hzb', (view_size _ _ _ _ _ Hr4)|]. cbn [mbind option_bind].
  destruct (mark_dirty_ready n (this :: pins) [this] p5 this Hr5) as (p6 & -> & Hr6 & Hk6 & Hf6); [by left|].
  rewrite filter_cons_False in Hr6 by tauto. cbn [mbind option_bind].
  destruct (release_ready n this pins [] p6 Hr6) as (p7 & -> & Hr7 & Hk7 & Hf7); [apply not_elem_of_nil|].
  cbn [mbind option_bind]. exists p7. split; [done|]. split; [done|].
  pose proof (updates_keeps _ _ _ _ _ (updates_keeps _ _ _ _ _ Hu5 Hk6) Hk7) as [U1 U2 U3 U4].
  rewrite U1, U2, U3, Hc4, Hz4, Hx4, (up_capacity _ _ _ _ Hu3), (up_page_size _ _ _ _ Hu3),
    (up_next _ _ _ _ Hu3), Hx2, Hc2, Hz2.
  do 3 (split; [done|]). split; [|split; [|split]].
  - intros q j Hq Hj. rewrite Hf7, Hf6, Hf5. apply Hs4; [by right|]. rewrite Hf3. by apply Hs2.
  - by rewrite U4, decide_True.
  - intros q Hq Hqp. rewrite U4, decide_False, Hv4 by done. by apply Hold.
  - intros Hp d Hd. rewrite U4, decide_False by lia. apply Hl4; [done|]. by rewrite Hold by lia.
Qed.

Lemma overflow_write_step fuel p value vlen cap head prev offset p' this k :
  offset < vlen -> k = (if decide (vlen - offset < cap) then vlen - offset else cap) ->
  write_round p value prev offset k = Some (p', this) -> 0 <= this ->
  overflow_write_loop (S fuel) p value vlen cap head prev offset =
    overflow_write_loop fuel p' value vlen cap (if decide (head = -1) then this else head) this (offset + k).
Proof.
  intros Hlt -> Hround Hthis. cbn [overflow_write_loop]. rewrite decide_True by done.
  unfold write_round in Hround.
  destruct (garry_pool_allocate p) as [[p1 t]|]; [|done]. cbn [mbind option_bind] in Hround |- *.
  destruct (garry_pool_pin_page p1 t) as [[p2 [idx|]]|] eqn:Epin; [|done..].
  cbn [mbind option_bind] in Hround.
  assert (Ht : t = this).
  { clear -Hround. inv_bind. congruence. }
  subst t. destruct (decide (this < 0)); [lia|]. cbn [mbind option_bind].
  repeat match type of Hround with
  | (?m ≫= _) = Some _ => destruct m; [cbn [mbind option_bind] in Hround |- *|done]
  end.
  by injection Hround as ->.
Qed.

(** What the loop has achieved: the pages [pids], of which those not in [done]
    are new, hold [v], and the other old pages are unchanged. *)
Record written (n : Z) (pins : list Z) (p : garry_buffer_pool) (don : list Z) (v : list Z)
    (p' : garry_buffer_pool) (pids : list Z) : Prop := {
  wt_ready : ready n pins [] p';
  wt_capacity : p_capacity p' = p_capacity p;
  wt_page_size : p_page_size p' = p_page_size p;
  wt_next : p_next_page p <= p_next_page p';
  wt_stable : stable pins p p';
  wt_chain : ovf_chain (pool_view p') (garry_overflow_chunk_size (p_page_size p)) pids v;
  wt_pids : Forall (fun q => 0 <= q < p_next_page p' /\ ((q ∈ don) \/ p_next_page p <= q)) pids;
  wt_nodup : NoDup pids;
  wt_view : forall q, q < p_next_page p -> (q ∉ don) -> pool_view p' q = pool_view p q
}.

(** Distinct pages of a range are no more than the range. *)
Lemma nodup_range a b (l : list Z) :
  NoDup l -> Forall (fun q => a <= q < b) l -> a <= b -> zlen l <= b - a.
Proof.
  intros Hd HF Hab. assert (Hsub : l ⊆+ seqZ a (b - a)).
  { apply NoDup_submseteq; [done|]. intros q Hq. rewrite Forall_forall in HF. apply elem_of_seqZ.
    specialize (HF q Hq). lia. }
  apply submseteq_length in Hsub. rewrite length_seqZ in Hsub. unfold zlen. lia.
Qed.

(** After the last chunk the last page is flushed. *)
Lemma overflow_write_end fuel n pins p value vlen cap head prev pids v :
  ready n pins [] p -> cap = garry_overflow_chunk_size (p_page_size p) ->
  NoDup pids -> Forall (fun q => 0 <= q < p_next_page p) pids -> ovf_chain (pool_view p) cap pids v ->
  exists p', overflow_write_loop fuel p value vlen cap head prev vlen = Some (p', head) /\
    written n pins p pids v p' pids /\ p_next_page p' = p_next_page p.
Proof.
  intros Hr -> Hnd HF Hch.
  assert (E : overflow_write_loop fuel p value vlen (garry_overflow_chunk_size (p_page_size p)) head prev vlen =
    (pool ← (if decide (prev >= 0) then '(pool, _) ← garry_pool_flush_page p prev; Some pool
             else Some p); Some (pool, head)))
    by (destruct fuel; cbn [overflow_write_loop]; by rewrite decide_False by lia).
  rewrite E.
  assert (Hp : exists p', (if decide (prev >= 0) then '(pool, _) ← garry_pool_flush_page p prev; Some pool
                           else Some p) = Some p' /\
    ready n pins [] p' /\ keeps p p' /\ (forall q, find_slot p' q = find_slot p q)).
  { destruct (decide (prev >= 0)) as [Hp|Hp]; [|by exists p].
    destruct (flush_page_ready n pins [] p prev Hr) as (p' & -> & Hr' & Hk & Hf & _);
      [lia|apply not_elem_of_nil|]. by exists p'. }
  destruct Hp as (p' & -> & Hr' & [K1 K2 K3 K4] & Hf). cbn [mbind option_bind].
  exists p'. split; [done|]. split; [|done]. split; try done; [lia|..].
  - intros q i _. by rewrite Hf.
  - by apply (ovf_chain_ext (pool_view p)).
  - rewrite K3. apply Forall_forall. intros q Hq. rewrite Forall_forall in HF.
    split; [by apply HF|by left].
Qed.

Lemma next_chunk (value : list Z) vlen v offset k :
  slice value 0 vlen = Some v -> 0 <= offset -> 0 <= k -> offset + k <= vlen ->
  exists chunk, slice value offset k = Some chunk /\ zlen chunk = k /\
    take (Z.to_nat (offset + k)) v = take (Z.to_nat offset) v ++ chunk.
Proof.
  intros Hv Ho Hk Hle. pose proof (slice_is_Some _ _ _ _ Hv) as (_ & _ & Hvl & Hzv).
  unfold slice in Hv. rewrite decide_True in Hv by lia. injection Hv as <-.
  rewrite slice_Some by lia. eexists. split; [done|].
  split; [rewrite zlen_take_drop; unfold zlen in *; lia|]. rewrite drop_0, !take_take.
  rewrite !Nat.min_l by lia. replace (Z.to_nat (offset + k)) with (Z.to_nat offset + Z.to_nat k)%nat by lia.
  symmetry. apply take_take_drop.
Qed.

Lemma overflow_write_loop_spec (m : nat) fuel n pins p value vlen v offset pids :
  let cap := garry_overflow_chunk_size (p_page_size p) in
  ready (n + 5 * Z.of_nat m) pins [] p -> 0 <= n -> zlen pins + 2 <= p_capacity p ->
  p_next_page p + Z.of_nat m <= 2 ^ 31 - 1 -> 0 < cap -> p_page_size p <= GARRY_MAX_PAGE_SIZE ->
  slice value 0 vlen = Some v -> 0 <= offset <= vlen ->
  vlen - offset <= Z.of_nat m * cap -> vlen - offset <= Z.of_nat fuel ->
  (offset < vlen -> offset = cap * zlen pids) ->
  NoDup pids -> Forall (fun q => 0 <= q < p_next_page p) pids ->
  ovf_chain (pool_view p) cap pids (take (Z.to_nat offset) v) ->
  exists p' pids', overflow_write_loop fuel p value vlen cap (default (-1) (head pids))
      (default (-1) (last pids)) offset = Some (p', default (-1) (head pids')) /\
    written n pins p pids v p' pids' /\ p_next_page p' <= p_next_page p + Z.of_nat m.
Proof.
  revert fuel p offset pids. induction m as [|m IH];
    intros fuel p offset pids cap Hr Hn Hcap Hmax Hcp Hps Hv Hoff Hm Hfuel Hfull Hnd HF Hch;
    pose proof (slice_is_Some _ _ _ _ Hv) as (_ & Hvl0 & Hvl & Hzv);
    (destruct (decide (offset < vlen)) as [Hlt|Hge];
     [|assert (offset = vlen) as -> by lia; rewrite take_ge in Hch by (unfold zlen in Hzv; lia);
       destruct (overflow_write_end fuel n pins p value vlen cap (default (-1) (head pids))
         (default (-1) (last pids)) pids v) as (p' & -> & Hw & Hx);
         [apply (ready_le _ n _ _ _ Hr); lia|done..|];
       exists p', pids; split; [done|]; split; [done|lia]]); [lia|].
  destruct fuel as [|fuel]; [lia|].
  set (k := if decide (vlen - offset < cap) then vlen - offset else cap).
  assert (Hk : 0 < k <= cap /\ k <= vlen - offset /\ (offset + k < vlen -> k = cap))
    by (subst k; case_decide; lia).
  destruct (next_chunk value vlen v offset k Hv) as (chunk & Hs & Hz & Htake); [lia..|].
  rewrite <- Hz in Hs. pose proof (rdy_next _ _ _ _ Hr) as Hnext.
  set (this := p_next_page p).
  assert (Hprev : forall q, last pids = Some q -> q ∈ pids /\ 0 <= q < this).
  { intros q Hl. apply last_Some_elem_of in Hl. rewrite Forall_forall in HF. auto. }
  assert (Hlast : exists c, 0 <= default (-1) (last pids) ->
    ovf_page (pool_view p (default (-1) (last pids))) (-1) c).
  { destruct (last pids) as [q|] eqn:Hl; [|exists []; cbn; lia].
    destruct (ovf_chain_last _ _ _ _ q Hch Hl) as [c Hc]. by exists c. }
  destruct Hlast as [c Hlast].
  destruct (write_round_spec (n + 5 * Z.of_nat m) pins p value (default (-1) (last pids)) offset chunk c)
    as (p1 & Hround & Hr1 & Hc1 & Hz1 & Hx1 & Hs1 & Hnew & Hv1 & Hl1); try done.
  { by replace (n + 5 * Z.of_nat m + 5) with (n + 5 * Z.of_nat (S m)) by lia. }
  1, 2: lia.
  { destruct (last pids) as [q|]; cbn; [apply (Hprev q)|]; done || lia. }
  { fold cap. lia. }
  rewrite Hz in Hround.
  rewrite (overflow_write_step fuel p value vlen cap _ _ offset p1 this k Hlt eq_refl Hround) by done.
  assert (Hni : this ∉ pids).
  { intros Hin. rewrite Forall_forall in HF. apply HF in Hin. subst this. lia. }
  assert (Hhead : (if decide (default (-1) (head pids) = -1) then this else default (-1) (head pids)) =
    default (-1) (head (pids ++ [this]))).
  { destruct pids as [|q pids]; [done|]. cbn. rewrite decide_False; [done|].
    apply Forall_cons in HF as [? _]. lia. }
  assert (Hold : forall q, q < this -> (q ∉ pids) -> pool_view p1 q = pool_view p q).
  { intros q Hq Hqn. apply Hv1; [lia|]. destruct (last pids) as [x|] eqn:Hl; [left|right; cbn; lia].
    cbn. intros ->. by apply Hqn, (Hprev x). }
  rewrite Hhead.
  destruct (IH fuel p1 (offset + k) (pids ++ [this])) as (p' & pids' & E & [W1 W2 W3 W4 W5 W6 W7 W8 W9] & Hx);
    rewrite ?Hz1; fold cap; try done; try lia.
  { rewrite zlen_app. change (zlen [this]) with 1. lia. }
  { apply NoDup_app. split; [done|]. split; [|apply NoDup_singleton].
    by intros x Hx ->%list_elem_of_singleton. }
  { rewrite Hx1. apply Forall_app. split; [|repeat constructor; lia].
    eapply Forall_impl; [exact HF|]. cbn. lia. }
  { rewrite Htake. apply (ovf_chain_snoc (pool_view p)); try done.
    - unfold zlen. rewrite length_take. specialize (Hfull Hlt). unfold zlen in *. lia.
    - lia.
    - intros q d Hl Hd. specialize (Hprev q Hl) as [Hin Hq]. rewrite Hl in Hl1. apply Hl1; [cbn; lia|done].
    - intros q Hq Hl. apply Hv1.
      + intros ->. done.
      + destruct (last pids) as [x|] eqn:Hlx; [left; cbn; congruence|]. apply last_None in Hlx as ->. by apply elem_of_nil in Hq. }
  rewrite last_snoc, Hz1 in E. exists p', pids'.
  split; [exact E|]. split; [|lia]. split; [done|congruence|congruence|lia|..|done|].
  - etransitivity; [exact Hs1|exact W5].
  - by rewrite Hz1 in W6.
  - eapply Forall_impl; [exact W7|]. cbn. intros q [Hq Hd]. split; [done|].
    rewrite elem_of_app, list_elem_of_singleton in Hd. destruct Hd as [[?| ->]|?]; [by left|right..]; lia.
  - intros q Hq Hqn. rewrite W9; [by apply Hold|lia|].
    rewrite not_elem_of_app, list_elem_of_singleton. split; [done|]. intros ->. lia.
Qed.

(** The number of pages of a value. *)
Definition ovf_pages (ps vlen : Z) : Z :=
  (vlen + garry_overflow_chunk_size ps - 1) / garry_overflow_chunk_size ps.

Lemma ovf_pages_bound ps vlen :
  0 < garry_overflow_chunk_size ps -> 0 <= vlen ->
  0 <= ovf_pages ps vlen /\ vlen <= ovf_pages ps vlen * garry_overflow_chunk_size ps.
Proof.
  unfold ovf_pages. set (cap := garry_overflow_chunk_size ps). intros Hc Hv.
  pose proof (Z.div_mod (vlen + cap - 1) cap ltac:(lia)) as Hd.
  pose proof (Z.mod_pos_bound (vlen + cap - 1) cap Hc). split; [apply Z.div_pos; lia|nia].
Qed.

Lemma overflow_write_spec n pins p value vlen v :
  ready (n + 5 * ovf_pages (p_page_size p) vlen) pins [] p -> 0 <= n -> zlen pins + 2 <= p_capacity p ->
  p_next_page p + ovf_pages (p_page_size p) vlen <= 2 ^ 31 - 1 ->
  0 < garry_overflow_chunk_size (p_page_size p) -> p_page_size p <= GARRY_MAX_PAGE_SIZE ->
  slice value 0 vlen = Some v ->
  exists p' pids, garry_overflow_write p value vlen = Some (p', default (-1) (head pids)) /\
    written n pins p [] v p' pids /\ p_next_page p' <= p_next_page p + ovf_pages (p_page_size p) vlen.
Proof.
  intros Hr Hn Hcap Hmax Hcp Hps Hv. pose proof (slice_is_Some _ _ _ _ Hv) as (_ & Hv0 & _ & _).
  destruct (ovf_pages_bound (p_page_size p) vlen Hcp Hv0) as [Hm0 Hm].
  unfold garry_overflow_write.
  destruct (overflow_write_loop_spec (Z.to_nat (ovf_pages (p_page_size p) vlen)) (Z.to_nat vlen) n pins p
    value vlen v 0 []) as (p' & pids' & E & Hw & Hx); try done; try lia.
  - by rewrite Z2Nat.id by lia.
  - intros _. change (zlen []) with 0. lia.
  - constructor.
  - exists p', pids'. split; [exact E|]. split; [done|lia].
Qed.

(** * Reading *)

Lemma overflow_read_loop_spec fuel n pins p total data pids copied out :
  let cap := garry_overflow_chunk_size (p_page_size p) in
  ready (n + 2 * zlen pids) pins [] p -> 0 <= n -> zlen pins < p_capacity p ->
  ovf_chain (pool_view p) cap pids data -> Forall (fun q => q < p_next_page p) pids ->
  copied + zlen data = total -> zlen data <= Z.of_nat fuel -> 0 <= copied -> total <= zlen out ->
  exists p' out', overflow_read_loop fuel p total cap (default (-1) (head pids)) copied out =
      Some (p', out', true) /\ blit out copied data = Some out' /\
    ready n pins [] p' /\ keeps p p' /\ stable pins p p'.
Proof.
  revert fuel p data copied out. induction pids as [|pid pids IH];
    intros fuel p data copied out cap Hr Hn Hcap Hch HF Htot Hfuel Hc Hout; pose proof (zlen_nonneg data).
  - cbn [ovf_chain] in Hch. subst data. change (zlen (@nil Z)) with 0 in *. exists p, out.
    assert (E : overflow_read_loop fuel p total cap (default (-1) (head [])) copied out = Some (p, out, true)).
    { destruct fuel; cbn [overflow_read_loop head default];
        rewrite decide_False by (cbn; lia); by rewrite bool_decide_true by lia. }
    rewrite E. split; [done|]. split; [by apply blit_nil; lia|].
    split; [by apply (ready_le _ n _ _ _ Hr); lia|]. done.
  - destruct Hch as (Hpid & chunk & data' & -> & Hck & Hfull & [Hnext Hchunk] & Hrest).
    rewrite zlen_app in *. rewrite zlen_cons in Hr. pose proof (zlen_nonneg pids) as Hpz.
    pose proof (zlen_nonneg data'). apply Forall_cons in HF as [Hlt HF].
    destruct fuel as [|fuel]; [lia|]. cbn [overflow_read_loop head default].
    change (id pid) with pid. rewrite decide_True by lia.
    destruct (pin_page_ready (n + 2 * zlen pids) pins [] p pid) as (p1 & i & -> & Hr1 & Hk1 & Hs1 & Hf1 & Hpg);
      [by replace (n + 2 * zlen pids + 2) with (n + 2 * (1 + zlen pids)) by lia|lia|done|lia|].
    cbn [mbind option_bind]. rewrite Hpg. cbn [mbind option_bind]. rewrite Hnext.
    cbn [mbind option_bind].
    assert (Hk : (if decide (total - copied < cap) then total - copied else cap) = zlen chunk).
    { destruct pids as [|x pids].
      - cbn [ovf_chain] in Hrest. subst data'. change (zlen (@nil Z)) with 0 in *. case_decide; lia.
      - specialize (Hfull ltac:(done)). case_decide; lia. }
    rewrite Hk. rewrite (copy_loop_slice _ _ _ _ _ _ Hchunk) by lia.
    destruct (blit_ok out copied chunk) as (out1 & Eb & Hz1); [lia..|]. rewrite Eb.
    cbn [mbind option_bind].
    destruct (release_ready _ pid pins [] p1 Hr1) as (p2 & -> & Hr2 & Hk2 & Hf2); [apply not_elem_of_nil|].
    cbn [mbind option_bind]. assert (Hk12 : keeps p p2) by (by transitivity p1).
    destruct Hk12 as [K1 K2 K3 K4].
    destruct (IH fuel p2 data' (copied + zlen chunk) out1) as (p3 & out' & E3 & Eb3 & Hr3 & Hk3 & Hs3);
      rewrite ?K1, ?K2, ?K3; fold cap; try done; try lia.
    { apply (ovf_chain_ext (pool_view p)); [|done]. intros. by rewrite K4. }
    rewrite K2 in E3. fold cap in E3. exists p3, out'. split; [exact E3|]. split.
    { rewrite <- (blit_blit out copied chunk (copied + zlen chunk) data') by done. rewrite Eb. exact Eb3. }
    split; [done|]. split; [transitivity p2; [by split|done]|].
    transitivity p2; [|done]. intros q j Hq Hj. rewrite Hf2. by apply Hs1.
Qed.

Lemma overflow_read_spec n pins p pids data out :
  ready (n + 2 * zlen pids) pins [] p -> 0 <= n -> zlen pins < p_capacity p ->
  ovf_chain (pool_view p) (garry_overflow_chunk_size (p_page_size p)) pids data ->
  Forall (fun q => q < p_next_page p) pids -> zlen data <= zlen out ->
  exists p' out', garry_overflow_read p (default (-1) (head pids)) (zlen data) out = Some (p', out', true) /\
    blit out 0 data = Some out' /\ ready n pins [] p' /\ keeps p p' /\ stable pins p p'.
Proof.
  intros Hr Hn Hcap Hch HF Hout. unfold garry_overflow_read. pose proof (zlen_nonneg data).
  by apply overflow_read_loop_spec; try done; lia.
Qed.

(** C26: A value written to overflow pages is read back: writing allocates pages
    that hold exactly the value, linked from the returned head, changes no page
    that existed before, and leaves the caller's pinned pages in place; a read
    of that head with that length returns the bytes, as often as it is
    repeated. *)
Theorem overflow_roundtrip n pins p value vlen v out :
  ready (n + 7 * ovf_pages (p_page_size p) vlen) pins [] p -> 0 <= n -> zlen pins + 2 <= p_capacity p ->
  p_next_page p + ovf_pages (p_page_size p) vlen <= 2 ^ 31 - 1 ->
  0 < garry_overflow_chunk_size (p_page_size p) -> p_page_size p <= GARRY_MAX_PAGE_SIZE ->
  slice value 0 vlen = Some v -> zlen out = vlen ->
  exists p1 p2 head, garry_overflow_write p value vlen = Some (p1, head) /\
    garry_overflow_read p1 head vlen out = Some (p2, v, true) /\
    (forall q, q < p_next_page p -> pool_view p1 q = pool_view p q) /\
    (forall q, pool_view p2 q = pool_view p1 q) /\ ready n pins [] p2 /\ stable pins p p2.
Proof.
  intros Hr Hn Hcap Hmax Hcp Hps Hv Hout. pose proof (slice_is_Some _ _ _ _ Hv) as (_ & Hv0 & _ & Hzv).
  destruct (ovf_pages_bound (p_page_size p) vlen Hcp Hv0) as [Hm0 _].
  set (m := ovf_pages (p_page_size p) vlen) in *.
  destruct (overflow_write_spec (n + 2 * m) pins p value vlen v) as (p1 & pids & E1 & [W1 W2 W3 W4 W5 W6 W7 W8 W9] & Hx);
    try done; try lia.
  { by replace (n + 2 * m + 5 * ovf_pages (p_page_size p) vlen) with (n + 7 * m) by lia. }
  fold m in Hx. rewrite Forall_forall in W7.
  assert (Hlen : zlen pids <= m).
  { assert (Hincl : List.incl (map Z.to_nat pids) (seq (Z.to_nat (p_next_page p)) (Z.to_nat m))).
    { intros k Hk. apply list_elem_of_In, list_elem_of_fmap in Hk as (q & -> & Hq).
      destruct (W7 q Hq) as [? [H%elem_of_nil|?]]; [done|]. pose proof (rdy_next _ _ _ _ Hr).
      apply List.in_seq. lia. }
    assert (Hnd : List.NoDup (map Z.to_nat pids)).
    { apply NoDup_ListNoDup. change (NoDup (Z.to_nat <$> pids)). apply NoDup_fmap_2_strong; [|done].
      intros x y Hx' Hy' ?. destruct (W7 x Hx'), (W7 y Hy'). lia. }
    pose proof (List.NoDup_incl_length Hnd Hincl) as Hle. rewrite length_map, length_seq in Hle.
    unfold zlen. lia. }
  destruct (overflow_read_spec n pins p1 pids v out) as (p2 & out' & E2 & Eb & Hr2 & Hk2 & Hs2).
  - by apply (ready_le _ _ _ _ _ W1); pose proof (zlen_nonneg pids); lia.
  - done.
  - lia.
  - by rewrite W3.
  - apply Forall_forall. intros q Hq. by destruct (W7 q Hq) as [[_ ?] _].
  - lia.
  - exists p1, p2, (default (-1) (head pids)). split; [done|].
    rewrite blit_whole in Eb by lia. injection Eb as <-. rewrite <- Hzv. split; [done|].
    split; [intros q Hq; apply W9; [done|apply not_elem_of_nil]|]. split; [apply Hk2|].
    split; [done|]. by transitivity p1.
Qed.

Definition sample_fresh : garry_buffer_pool :=
  Pool 2 512 (replicate 2 (Slot (zeros 512) 0 0 false false 0)) (File [] 0 true []) 2 (-1) 0.

Lemma sample_fresh_ready n : 0 <= n < 2 ^ 32 - 1 -> ready n [] [] sample_fresh.
Proof.
  intros Hn. apply (create_ready (File [] 0 true []) 2 512 2 (set_next_page sample_fresh 0));
    [reflexivity|lia| |lia|done].
  split; [done|done|]. by exists 0.
Qed.

Lemma overflow_roundtrip_witness :
  exists p1 p2 head, garry_overflow_write sample_fresh (replicate 1000 7) 1000 = Some (p1, head) /\
    garry_overflow_read p1 head 1000 (zeros 1000) = Some (p2, replicate 1000 7, true).
Proof.
  destruct (overflow_roundtrip 0 [] sample_fresh (replicate 1000 7) 1000 (replicate 1000 7) (zeros 1000))
    as (p1 & p2 & head & H1 & H2 & _).
  - apply sample_fresh_ready. vm_compute. split; congruence.
  - lia.
  - vm_compute. congruence.
  - vm_compute. congruence.
  - vm_compute. reflexivity.
  - vm_compute. congruence.
  - apply slice_all. reflexivity.
  - reflexivity.
  - exists p1, p2, head. split; [exact H1|exact H2].
Defined.
