(* ===== verification/WalLog.v ===== *)
(** The write-ahead log: records, [src/src/wal_record.c]; the log file,
    [src/src/wal_log.c]; the scan for committed transactions that recovery
    begins with, [src/src/wal_recovery.c].

    The append mutex makes an append one step.  The results of [malloc] and [realloc]
    are arguments.
    [memcpy] of a [garry_i32] stores its little-endian bytes. *)

From S2P Require Import Prelude Endian FileIo BufferPool VersionChain.

Definition GARRY_MAX_KEY_SIZE : Z := 256.
Definition GARRY_MAX_RECOVERY_COMMITTED : Z := 1024.
Definition GARRY_WAL_RECORD_SIZE : Z := 792.
Definition WAL_REC_KIND_OFF : Z := 0.
Definition WAL_REC_TXID_OFF : Z := 4.
Definition WAL_REC_KLEN_OFF : Z := 8.
Definition WAL_REC_VLEN_OFF : Z := 12.
Definition WAL_REC_KEY_OFF : Z := 16.
Definition WAL_REC_OLD_OFF : Z := 272.
Definition WAL_REC_NEW_OFF : Z := 528.
Definition WAL_REC_NEW_OVERFLOW_FLAG_OFF : Z := 784.
Definition WAL_REC_NEW_OVERFLOW_HEAD_OFF : Z := 788.

(** * Records *)

Inductive garry_wal_record_kind :=
  | GARRY_WAL_UPDATE | GARRY_WAL_COMMIT | GARRY_WAL_ABORT | GARRY_WAL_CHECKPOINT | GARRY_WAL_DELETE.
#[export] Instance garry_wal_record_kind_eq_dec : EqDecision garry_wal_record_kind.
Proof. solve_decision. Defined.

Definition wal_kind_ord (k : garry_wal_record_kind) : Z :=
  match k with
  | GARRY_WAL_UPDATE => 0 | GARRY_WAL_COMMIT => 1 | GARRY_WAL_ABORT => 2
  | GARRY_WAL_CHECKPOINT => 3 | GARRY_WAL_DELETE => 4
  end.

Record garry_wal_record := WalRecord {
  wr_kind : garry_wal_record_kind; wr_txid : Z; wr_key : list Z; wr_key_len : Z; wr_value_len : Z;
  wr_old_data : list Z; wr_new_data : list Z; wr_new_is_overflow : bool; wr_new_overflow_head : Z
}.

(** A zeroed record with its [kind] and [txid]. *)
Definition blank_record (kind : garry_wal_record_kind) (txn : Z) : garry_wal_record :=
  WalRecord kind txn (zeros GARRY_MAX_KEY_SIZE) 0 0 (zeros GARRY_MAX_KEY_SIZE)
    (zeros GARRY_MAX_KEY_SIZE) false 0.

(** The key copy: [None] when the key does not fit the field. *)
Definition record_key (key : list Z) (klen : Z) : option (list Z) :=
  if decide (klen > 0) then memcpy (zeros GARRY_MAX_KEY_SIZE) 0 key 0 klen
  else Some (zeros GARRY_MAX_KEY_SIZE).

(** [mem]: whether [malloc] gives the record.  The inner [None] is [NULL]: it does
    not, or the overflow pages could not be allocated. *)
Definition garry_make_update_record (mem : bool) (pool : garry_buffer_pool) (txn : Z) (key : list Z) (klen : Z)
    (new_val : list Z) (vlen : Z) : option (garry_buffer_pool * option garry_wal_record) :=
  if negb mem then Some (pool, None) else
  key ← record_key key klen;
  let rec := fun new_data ovf head =>
    WalRecord GARRY_WAL_UPDATE txn key klen vlen (zeros GARRY_MAX_KEY_SIZE) new_data ovf head in
  if decide (vlen > 0) then
    if decide (vlen <= GARRY_MAX_KEY_SIZE) then
      new_data ← memcpy (zeros GARRY_MAX_KEY_SIZE) 0 new_val 0 vlen;
      Some (pool, Some (rec new_data false 0))
    else
      '(pool, head) ← garry_overflow_write pool new_val vlen;
      if decide (head < 0) then Some (pool, None)
      else Some (pool, Some (rec (zeros GARRY_MAX_KEY_SIZE) true head))
  else Some (pool, Some (rec (zeros GARRY_MAX_KEY_SIZE) false 0)).

Definition garry_make_delete_record (mem : bool) (txn : Z) (key : list Z) (klen : Z) : option (option garry_wal_record) :=
  if negb mem then Some None else
  key ← record_key key klen;
  Some (Some (WalRecord GARRY_WAL_DELETE txn key klen 0 (zeros GARRY_MAX_KEY_SIZE)
                (zeros GARRY_MAX_KEY_SIZE) false 0)).

Definition commit_record (txn : Z) : garry_wal_record := blank_record GARRY_WAL_COMMIT txn.
Definition abort_record (txn : Z) : garry_wal_record := blank_record GARRY_WAL_ABORT txn.
Definition garry_make_commit_record (mem : bool) (txn : Z) : option garry_wal_record :=
  if mem then Some (commit_record txn) else None.
Definition garry_make_abort_record (mem : bool) (txn : Z) : option garry_wal_record :=
  if mem then Some (abort_record txn) else None.
Definition garry_make_checkpoint_record (mem : bool) (txn : Z) : option garry_wal_record :=
  if mem then Some (blank_record GARRY_WAL_CHECKPOINT txn) else None.

(** * The log file *)

Record garry_wal_log := WalLog { wl_fd : garry_file_descriptor; wl_last_lsn : Z }.

(** The open has succeeded with descriptor [fd]. *)
Definition garry_wal_log_init (fd : garry_file_descriptor) : option garry_wal_log :=
  if f_open fd then Some (WalLog fd 0) else None.

(** The record buffer [wal_write_record] fills. *)
Definition wal_record_buf (rec : garry_wal_record) : option (list Z) :=
  let buf := zeros GARRY_WAL_RECORD_SIZE in
  buf ← garry_write_le32 buf WAL_REC_KIND_OFF (wal_kind_ord (wr_kind rec));
  buf ← garry_write_le32 buf WAL_REC_TXID_OFF (wr_txid rec);
  buf ← garry_write_le32 buf WAL_REC_KLEN_OFF (wr_key_len rec);
  buf ← garry_write_le32 buf WAL_REC_VLEN_OFF (wr_value_len rec);
  buf ← memcpy buf WAL_REC_KEY_OFF (wr_key rec) 0 GARRY_MAX_KEY_SIZE;
  buf ← memcpy buf WAL_REC_OLD_OFF (wr_old_data rec) 0 GARRY_MAX_KEY_SIZE;
  buf ← memcpy buf WAL_REC_NEW_OFF (wr_new_data rec) 0 GARRY_MAX_KEY_SIZE;
  buf ← garry_write_le32 buf WAL_REC_NEW_OVERFLOW_FLAG_OFF (if wr_new_is_overflow rec then 1 else 0);
  garry_write_le32 buf WAL_REC_NEW_OVERFLOW_HEAD_OFF (wr_new_overflow_head rec).

Definition wal_write_record (wal : garry_wal_log) (rec : garry_wal_record)
  : option (garry_wal_log * bool) :=
  buf ← wal_record_buf rec;
  '(fd, n) ← garry_file_write_bytes (wl_fd wal) buf GARRY_WAL_RECORD_SIZE;
  Some (WalLog fd (wl_last_lsn wal), bool_decide (n = GARRY_WAL_RECORD_SIZE)).

Definition garry_wal_log_append (wal : garry_wal_log) (record : garry_wal_record)
  : option (garry_wal_log * Z) :=
  if f_open (wl_fd wal) then
    lsn ← ck (wl_last_lsn wal + 1);
    '(wal, ok) ← wal_write_record wal record;
    if ok : bool then Some (WalLog (wl_fd wal) lsn, lsn) else Some (wal, -1)
  else Some (wal, -1).

Definition garry_wal_log_flush (wal : garry_wal_log) : garry_wal_log :=
  if f_open (wl_fd wal) then WalLog (garry_file_sync (wl_fd wal)) (wl_last_lsn wal) else wal.

Definition garry_wal_log_close (wal : garry_wal_log) : garry_wal_log :=
  if f_open (wl_fd wal)
  then WalLog (garry_file_close (garry_file_sync (wl_fd wal))) (wl_last_lsn wal) else wal.

(** The log's part of [garry_wal_checkpoint]: flush, truncate, restart the
    sequence numbers. *)
Definition wal_checkpoint_log (wal : garry_wal_log) : garry_wal_log :=
  let wal := garry_wal_log_flush wal in
  WalLog (garry_file_truncate (wl_fd wal) 0).1 0.

(** * The first pass of recovery *)

(** The loop reads records until a short read; [fuel] rounds.  [commit_cap] is the
    capacity of the array of transactions, [mem n] whether it can be given room for
    [n]; without room the array is freed and the recovery fails. *)
Fixpoint collect_loop (mem : Z -> bool) (fuel : nat) (fd : garry_file_descriptor) (rec : list Z) (committed : list Z)
    (commit_cap next_txid : Z) : option (garry_file_descriptor * option (list Z) * Z) :=
  '(fd, rec, bytes_read) ← garry_file_read fd rec GARRY_WAL_RECORD_SIZE;
  if decide (bytes_read < GARRY_WAL_RECORD_SIZE) then Some (fd, Some committed, next_txid) else
  match fuel with
  | O => None
  | S fuel =>
      kind ← garry_read_int32 rec WAL_REC_KIND_OFF;
      txid ← garry_read_int32 rec WAL_REC_TXID_OFF;
      if decide (kind = 1) then
        new_cap ← (if decide (zlen committed >= commit_cap) then ck (commit_cap * 2) else Some commit_cap);
        if decide (zlen committed >= commit_cap /\ mem new_cap = false) then Some (fd, None, next_txid) else
        next ← ck (txid + 1);
        collect_loop mem fuel fd rec (committed ++ [txid]) new_cap
          (if decide (next > next_txid) then next else next_txid)
      else collect_loop mem fuel fd rec committed commit_cap next_txid
  end.

(** The committed transactions, unless memory runs out, and the next transaction id. *)
Definition collect_committed (mem : Z -> bool) (wal : garry_wal_log) (next_txid : Z)
  : option (garry_wal_log * option (list Z) * Z) :=
  if negb (mem GARRY_MAX_RECOVERY_COMMITTED) then Some (wal, None, next_txid) else
  let '(fd, _) := garry_file_seek_set (wl_fd wal) 0 in
  '(fd, committed, next_txid) ←
    collect_loop mem (Z.to_nat (zlen (f_bytes fd) / GARRY_WAL_RECORD_SIZE)) fd
      (zeros GARRY_WAL_RECORD_SIZE) [] GARRY_MAX_RECOVERY_COMMITTED next_txid;
  Some (WalLog fd (wl_last_lsn wal), committed, next_txid).

(** * The bytes of a record *)

Definition b2z (b : bool) : Z := if b then 1 else 0.

Definition encode_record (r : garry_wal_record) : list Z :=
  fields [wal_kind_ord (wr_kind r); wr_txid r; wr_key_len r; wr_value_len r]
    ++ wr_key r ++ wr_old_data r ++ wr_new_data r
    ++ fields [b2z (wr_new_is_overflow r); wr_new_overflow_head r].

Record record_ok (r : garry_wal_record) : Prop := {
  ro_txid : is_i32 (wr_txid r);
  ro_klen : is_i32 (wr_key_len r);
  ro_vlen : is_i32 (wr_value_len r);
  ro_head : is_i32 (wr_new_overflow_head r);
  ro_key : zlen (wr_key r) = 256;
  ro_old : zlen (wr_old_data r) = 256;
  ro_new : zlen (wr_new_data r) = 256
}.

Lemma zlen_encode_record r : record_ok r -> zlen (encode_record r) = 792.
Proof.
  intros [_ _ _ _ Hk Ho Hn]. unfold encode_record. rewrite !zlen_app, !zlen_fields, Hk, Ho, Hn. done.
Qed.

Lemma record_buf_eq r : record_ok r -> wal_record_buf r = Some (encode_record r).
Proof.
  intros Hok. pose proof (zlen_encode_record r Hok) as Hz. destruct Hok as [_ _ _ _ Hk Ho Hn].
  unfold wal_record_buf, memcpy, WAL_REC_KIND_OFF, WAL_REC_TXID_OFF, WAL_REC_KLEN_OFF,
    WAL_REC_VLEN_OFF, WAL_REC_KEY_OFF, WAL_REC_OLD_OFF, WAL_REC_NEW_OFF,
    WAL_REC_NEW_OVERFLOW_FLAG_OFF, WAL_REC_NEW_OVERFLOW_HEAD_OFF, GARRY_MAX_KEY_SIZE.
  rewrite !slice_all by done. cbn [mbind option_bind]. setoid_rewrite write_le32_blit.
  rewrite !blit_blit_k by (rewrite ?zlen_app; done || (rewrite ?zlen_le32; lia)).
  rewrite blit_blit by (rewrite ?zlen_app, ?zlen_le32; lia).
  rewrite <- !app_assoc.
  assert (He : encode_record r = le32 (wal_kind_ord (wr_kind r)) ++ le32 (wr_txid r) ++
    le32 (wr_key_len r) ++ le32 (wr_value_len r) ++ wr_key r ++ wr_old_data r ++ wr_new_data r ++
    le32 (b2z (wr_new_is_overflow r)) ++ le32 (wr_new_overflow_head r)).
  { unfold encode_record, fields. cbn [map concat]. by rewrite <- !app_assoc, app_nil_r. }
  unfold b2z in He. rewrite <- He. apply blit_whole. by rewrite Hz.
Qed.

(** The parts of a record, as recovery reads them; [q] is what follows it. *)
Lemma record_field r q i off v :
  record_ok r -> rd [wal_kind_ord (wr_kind r); wr_txid r; wr_key_len r; wr_value_len r] i = Some v ->
  off = 4 * i -> garry_read_int32 (encode_record r ++ q) off = Some v.
Proof.
  intros [H1 H2 H3 _ _ _ _] Hr ->. unfold garry_read_int32, encode_record. rewrite <- app_assoc.
  apply (read_fields_id _ _ i); [|done|done].
  apply Forall_cons. split; [by destruct (wr_kind r)|].
  repeat (apply Forall_cons; split; [done|]). constructor.
Qed.

Lemma record_tail r off v :
  record_ok r -> off = 784 /\ v = b2z (wr_new_is_overflow r) \/ off = 788 /\ v = wr_new_overflow_head r ->
  garry_read_int32 (encode_record r) off = Some v.
Proof.
  intros [_ _ _ H4 Hk Ho Hn] Hv. unfold garry_read_int32, encode_record.
  set (hd := fields [_; _; _; _]). assert (Hhd : zlen hd = 16) by (subst hd; by rewrite zlen_fields).
  assert (Hi : i32 v = v).
  { apply i32_id. destruct Hv as [[_ ->]|[_ ->]]; [by destruct (wr_new_is_overflow r)|done]. }
  rewrite <- Hi. destruct Hv as [[-> ->]|[-> ->]].
  - rewrite !app_assoc. unfold fields. cbn [map concat]. apply read_le32_app.
    rewrite !zlen_app. lia.
  - unfold fields. cbn [map concat]. rewrite !app_assoc, <- (app_assoc _ (le32 _) []).
    apply read_le32_app. rewrite !zlen_app, zlen_le32. lia.
Qed.

(** What recovery reads of a logged record is what was logged: kind,
    transaction, key length, value length, the key and the value bytes, the
    overflow flag and head. *)
Theorem wal_record_roundtrip r :
  record_ok r ->
  exists buf, wal_record_buf r = Some buf /\ zlen buf = GARRY_WAL_RECORD_SIZE /\
    garry_read_int32 buf WAL_REC_KIND_OFF = Some (wal_kind_ord (wr_kind r)) /\
    garry_read_int32 buf WAL_REC_TXID_OFF = Some (wr_txid r) /\
    garry_read_int32 buf WAL_REC_KLEN_OFF = Some (wr_key_len r) /\
    garry_read_int32 buf WAL_REC_VLEN_OFF = Some (wr_value_len r) /\
    slice buf WAL_REC_KEY_OFF GARRY_MAX_KEY_SIZE = Some (wr_key r) /\
    slice buf WAL_REC_NEW_OFF GARRY_MAX_KEY_SIZE = Some (wr_new_data r) /\
    garry_read_int32 buf WAL_REC_NEW_OVERFLOW_FLAG_OFF = Some (b2z (wr_new_is_overflow r)) /\
    garry_read_int32 buf WAL_REC_NEW_OVERFLOW_HEAD_OFF = Some (wr_new_overflow_head r).
Proof.
  intros Hok. exists (encode_record r). split; [by apply record_buf_eq|].
  split; [by apply zlen_encode_record|].
  pose proof (fun i => record_field r [] i) as Hf. rewrite app_nil_r in Hf.
  split; [by apply (Hf 0)|]. split; [by apply (Hf 1)|]. split; [by apply (Hf 2)|].
  split; [by apply (Hf 3)|].
  split; [|split; [|split; apply record_tail; auto]].
  - destruct Hok as [_ _ _ _ Hk _ _]. unfold encode_record. by apply slice_app.
  - destruct Hok as [_ _ _ _ Hk Ho Hn]. unfold encode_record. rewrite app_assoc, app_assoc.
    apply slice_app; [|done]. rewrite !zlen_app, zlen_fields, Hk, Ho. done.
Qed.

(** * Appending *)

(** A log at its end, on a file whose writes succeed. *)
Record log_ready (wal : garry_wal_log) : Prop := {
  lr_open : f_open (wl_fd wal) = true;
  lr_tape : f_tape (wl_fd wal) = [];
  lr_pos : f_pos (wl_fd wal) = zlen (f_bytes (wl_fd wal));
  lr_lsn : 0 <= wl_last_lsn wal < 2 ^ 31 - 1
}.

Lemma overwrite_end b s : overwrite b (zlen b) s = b ++ s.
Proof.
  unfold overwrite. pose proof (zlen_nonneg s).
  replace (zlen b + zlen s - zlen b) with (zlen s) by lia.
  assert (H1 : take (Z.to_nat (zlen b)) (b ++ zeros (zlen s)) = b).
  { unfold zlen. by rewrite Nat2Z.id, take_app_length. }
  assert (H2 : drop (Z.to_nat (zlen b + zlen s)) (b ++ zeros (zlen s)) = []).
  { apply drop_ge. rewrite length_app. unfold zeros. rewrite length_replicate. unfold zlen. lia. }
  by rewrite H1, H2, app_nil_r.
Qed.

Lemma overwrite_hole n s : 0 <= n -> overwrite [] n s = zeros n ++ s.
Proof.
  intros Hn. unfold overwrite. cbn [app]. pose proof (zlen_nonneg s). change (zlen (@nil Z)) with 0.
  assert (Hz : zeros (n + zlen s - 0) = zeros n ++ zeros (zlen s)).
  { unfold zeros. rewrite <- replicate_add. f_equal. lia. }
  assert (Hl : length (zeros n) = Z.to_nat n) by apply length_replicate.
  rewrite Hz, <- Hl, take_app_length. f_equal.
  rewrite drop_ge; [by rewrite app_nil_r|].
  rewrite length_app. unfold zeros. rewrite !length_replicate. lia.
Qed.

Lemma log_append_spec wal r :
  log_ready wal -> record_ok r ->
  exists wal', garry_wal_log_append wal r = Some (wal', wl_last_lsn wal + 1) /\
    f_bytes (wl_fd wal') = f_bytes (wl_fd wal) ++ encode_record r /\
    wl_last_lsn wal' = wl_last_lsn wal + 1 /\
    f_open (wl_fd wal') = true /\ f_tape (wl_fd wal') = [] /\
    f_pos (wl_fd wal') = zlen (f_bytes (wl_fd wal')).
Proof.
  intros [Ho Ht Hp Hl] Hok. pose proof (zlen_encode_record r Hok) as Hz.
  pose proof (zlen_nonneg (f_bytes (wl_fd wal))).
  unfold garry_wal_log_append. rewrite Ho. unfold ck. rewrite decide_True by (unfold is_i32; lia).
  cbn [mbind option_bind]. unfold wal_write_record. rewrite (record_buf_eq r Hok).
  cbn [mbind option_bind]. unfold garry_file_write_bytes. rewrite (slice_all (encode_record r)) by done.
  cbn [mbind option_bind]. unfold os_pwrite. rewrite Ho, Ht.
  rewrite decide_False by (intros [?|?]; [done|lia]). rewrite Hz, Hp, overwrite_end.
  rewrite decide_True by lia. cbn [mbind option_bind]. rewrite bool_decide_true by done.
  eexists. split; [reflexivity|]. cbn [wl_fd wl_last_lsn set_pos f_bytes f_pos f_open f_tape].
  do 4 (split; [done|]). by rewrite zlen_app, Hz.
Qed.

(** An append to a log at the end of a file whose writes succeed adds exactly
    the record's 792 bytes to the file, returns the next sequence number and
    leaves the log ready for the next one. *)
Theorem wal_append_correct wal r :
  log_ready wal -> record_ok r ->
  exists wal', garry_wal_log_append wal r = Some (wal', wl_last_lsn wal + 1) /\
    f_bytes (wl_fd wal') = f_bytes (wl_fd wal) ++ encode_record r /\
    (wl_last_lsn wal' < 2 ^ 31 - 1 -> log_ready wal').
Proof.
  intros Hr Hok. destruct (log_append_spec wal r Hr Hok) as (wal' & E & Hb & Hl & Ho & Ht & Hp).
  exists wal'. split; [exact E|]. split; [exact Hb|]. destruct Hr. split; [done..|lia].
Qed.

(** * The scan of recovery *)

Fixpoint wal_append_all (wal : garry_wal_log) (rs : list garry_wal_record) : option garry_wal_log :=
  match rs with
  | [] => Some wal
  | r :: rs => '(wal, lsn) ← garry_wal_log_append wal r;
               if decide (lsn < 0) then None else wal_append_all wal rs
  end.

(** The transactions with a COMMIT record, in the order of the log. *)
Definition commits (rs : list garry_wal_record) : list Z :=
  map wr_txid (filter (fun r => wr_kind r = GARRY_WAL_COMMIT) rs).

Definition bump_next (next txid : Z) : Z := if decide (txid + 1 > next) then txid + 1 else next.

(** Reading one whole record. *)
Lemma read_record fd rec p r q :
  f_open fd = true -> f_bytes fd = p ++ encode_record r ++ q -> f_pos fd = zlen p ->
  zlen rec = 792 -> record_ok r ->
  garry_file_read fd rec GARRY_WAL_RECORD_SIZE =
    Some (set_pos fd (zlen (p ++ encode_record r)), encode_record r, 792).
Proof.
  intros Ho Hb Hp Hrec Hok. pose proof (zlen_encode_record r Hok) as Hz. pose proof (zlen_nonneg p).
  unfold garry_file_read, os_pread. rewrite Ho, Hp. rewrite decide_False by (intros [?|?]; [done|lia]).
  assert (E : take (Z.to_nat GARRY_WAL_RECORD_SIZE) (drop (Z.to_nat (zlen p)) (f_bytes fd))
    = encode_record r).
  { rewrite Hb. unfold zlen. rewrite Nat2Z.id, drop_app_length.
    replace (Z.to_nat GARRY_WAL_RECORD_SIZE) with (length (encode_record r)) by (unfold zlen, GARRY_WAL_RECORD_SIZE in *; lia).
    apply take_app_length. }
  rewrite E, blit_whole by lia. cbn [mbind option_bind]. by rewrite zlen_app, Hz.
Qed.

Lemma collect_loop_spec mem rs : forall fuel fd rec p tail committed cap next,
  (forall n, mem n = true) -> zlen committed + zlen rs < 2 ^ 30 -> 0 < cap -> cap <= 2 ^ 10 \/ cap <= 2 * zlen committed ->
  Forall record_ok rs -> Forall (fun r => is_i32 (wr_txid r + 1)) rs ->
  f_open fd = true -> f_bytes fd = p ++ concat (map encode_record rs) ++ tail ->
  f_pos fd = zlen p -> zlen rec = 792 -> zlen tail < 792 -> (length rs <= fuel)%nat ->
  collect_loop mem fuel fd rec committed cap next =
    Some (set_pos fd (zlen (f_bytes fd)), Some (committed ++ commits rs),
          fold_left bump_next (commits rs) next).
Proof.
  induction rs as [|r rs IH]; intros fuel fd rec p tail committed cap next Hmem Hlen Hpos Hcap Hok Hi Ho Hb Hp Hrec Htl Hfuel.
  - cbn [map concat app] in Hb. pose proof (zlen_nonneg p).
    assert (E : garry_file_read fd rec GARRY_WAL_RECORD_SIZE =
      rec ← blit rec 0 tail; Some (set_pos fd (zlen (f_bytes fd)), rec, zlen tail)).
    { unfold garry_file_read, os_pread. rewrite Ho, Hp.
      rewrite decide_False by (intros [?|?]; [done|lia]).
      assert (Et : take (Z.to_nat GARRY_WAL_RECORD_SIZE) (drop (Z.to_nat (zlen p)) (f_bytes fd)) = tail).
      { rewrite Hb. unfold zlen. rewrite Nat2Z.id, drop_app_length. apply take_ge.
        unfold zlen in Htl. unfold GARRY_WAL_RECORD_SIZE. lia. }
      rewrite Et, Hb, zlen_app. done. }
    destruct (blit_ok rec 0 tail) as (rec' & Hbl & _); [lia..|]. rewrite Hbl in E.
    cbn [mbind option_bind] in E.
    destruct fuel; cbn [collect_loop]; rewrite E; cbn [mbind option_bind];
      rewrite decide_True by done; by rewrite app_nil_r.
  - apply Forall_cons in Hok as [Hr Hok]. apply Forall_cons in Hi as [Hir Hi].
    cbn [map concat] in Hb. rewrite <- app_assoc in Hb.
    destruct fuel as [|fuel]; [cbn in Hfuel; lia|]. cbn [collect_loop].
    rewrite (read_record fd rec p r _ Ho Hb Hp Hrec Hr). cbn [mbind option_bind].
    rewrite decide_False by (unfold GARRY_WAL_RECORD_SIZE; lia).
    pose proof (record_field r [] 0 WAL_REC_KIND_OFF _ Hr eq_refl eq_refl) as Hk.
    pose proof (record_field r [] 1 WAL_REC_TXID_OFF _ Hr eq_refl eq_refl) as Ht.
    rewrite app_nil_r in Hk, Ht. rewrite Hk, Ht. cbn [mbind option_bind].
    rewrite zlen_cons in Hlen.
    assert (Hgo : forall committed cap next, zlen committed + zlen rs < 2 ^ 30 -> 0 < cap -> cap <= 2 ^ 10 \/ cap <= 2 * zlen committed ->
      collect_loop mem fuel (set_pos fd (zlen (p ++ encode_record r)))
      (encode_record r) committed cap next =
      Some (set_pos fd (zlen (f_bytes fd)), Some (committed ++ commits rs), fold_left bump_next (commits rs) next)).
    { intros c cp nx Hc1 Hc2 Hc3. rewrite (IH fuel _ (encode_record r) (p ++ encode_record r) tail c cp nx);
        [done|done|done|done|done|done|done|done|by rewrite <- app_assoc|done|by apply zlen_encode_record|done|].
      cbn in Hfuel. lia. }
    unfold commits. rewrite filter_cons.
    destruct (decide (wr_kind r = GARRY_WAL_COMMIT)) as [Hc|Hc].
    + rewrite Hc. cbn [wal_kind_ord]. rewrite decide_True by done. pose proof (zlen_nonneg rs).
      assert (Hnew : exists new_cap, (if decide (zlen committed >= cap) then ck (cap * 2) else Some cap) = Some new_cap /\
        0 < new_cap /\ (new_cap <= 2 ^ 10 \/ new_cap <= 2 * zlen (committed ++ [wr_txid r]))).
      { rewrite zlen_app. change (zlen [wr_txid r]) with 1. case_decide; [|exists cap; split; [done|lia]].
        exists (cap * 2). unfold ck. rewrite decide_True by (unfold is_i32; lia). split; [done|lia]. }
      destruct Hnew as (new_cap & -> & Hn1 & Hn2). cbn [mbind option_bind].
      rewrite decide_False by (intros [_ Hm]; by rewrite Hmem in Hm). unfold ck.
      rewrite decide_True by done. cbn [mbind option_bind].
      rewrite Hgo; [|rewrite zlen_app; change (zlen [wr_txid r]) with 1; lia|exact Hn1|exact Hn2].
      cbn [map fold_left]. by rewrite <- app_assoc.
    + rewrite decide_False by (destruct (wr_kind r); done || congruence). apply Hgo; [lia|exact Hpos|exact Hcap].
Qed.

Lemma append_all_spec rs : forall wal,
  log_ready wal -> Forall record_ok rs -> wl_last_lsn wal + zlen rs < 2 ^ 31 ->
  exists wal', wal_append_all wal rs = Some wal' /\
    f_open (wl_fd wal') = true /\
    f_bytes (wl_fd wal') = f_bytes (wl_fd wal) ++ concat (map encode_record rs) /\
    wl_last_lsn wal' = wl_last_lsn wal + zlen rs.
Proof.
  induction rs as [|r rs IH]; intros wal Hr Hok Hn.
  - exists wal. split; [done|]. split; [apply Hr|]. cbn. rewrite app_nil_r. split; [done|].
    change (zlen []) with 0. lia.
  - apply Forall_cons in Hok as [Hrok Hok]. rewrite zlen_cons in Hn. pose proof (zlen_nonneg rs).
    destruct (log_append_spec wal r Hr Hrok) as (w1 & E & Hb & Hl & Ho & Ht & Hp).
    pose proof (lr_lsn _ Hr).
    cbn [wal_append_all]. rewrite E. cbn [mbind option_bind]. rewrite decide_False by lia.
    destruct rs as [|r2 rs'].
    + exists w1. split; [done|]. split; [done|]. rewrite Hb. cbn. rewrite app_nil_r. split; [done|].
      change (zlen [r]) with 1. lia.
    + rewrite zlen_cons in *. pose proof (zlen_nonneg rs').
      destruct (IH w1) as (w2 & -> & Ho2 & Hb2 & Hl2); [split; [done..|lia]|done|lia|].
      exists w2. split; [done|]. split; [done|]. rewrite Hb2, Hb, Hl2, Hl, <- app_assoc.
      split; [done|]. rewrite !zlen_cons. lia.
Qed.

Lemma zlen_log rs :
  Forall record_ok rs -> zlen (concat (map encode_record rs)) = 792 * zlen rs.
Proof.
  induction 1 as [|r rs Hr _ IH]; [done|]. cbn [map concat].
  rewrite zlen_app, IH, (zlen_encode_record r Hr), zlen_cons. lia.
Qed.

Lemma bump_next_spec ts : forall next,
  next <= fold_left bump_next ts next /\ Forall (fun t => t < fold_left bump_next ts next) ts.
Proof.
  induction ts as [|t ts IH]; intros next; cbn [fold_left]; [split; [lia|constructor]|].
  destruct (IH (bump_next next t)) as [Hle Hall].
  assert (next <= bump_next next t /\ t < bump_next next t) by (unfold bump_next; case_decide; lia).
  split; [lia|]. constructor; [lia|done].
Qed.

(** The scan of a log file. *)
Lemma collect_spec mem wal rs tail next :
  (forall n, mem n = true) -> zlen rs < 2 ^ 30 ->
  Forall record_ok rs -> Forall (fun r => is_i32 (wr_txid r + 1)) rs ->
  f_open (wl_fd wal) = true -> f_bytes (wl_fd wal) = concat (map encode_record rs) ++ tail ->
  zlen tail < 792 ->
  collect_committed mem wal next =
    Some (WalLog (set_pos (wl_fd wal) (zlen (f_bytes (wl_fd wal)))) (wl_last_lsn wal), Some (commits rs),
          fold_left bump_next (commits rs) next).
Proof.
  intros Hmem Hlen Hok Hi Ho Hb Htl. unfold collect_committed, garry_file_seek_set. rewrite Hmem, Ho. cbn [negb].
  rewrite decide_False by (intros [?|?]; [done|lia]).
  rewrite (collect_loop_spec mem rs _ (set_pos (wl_fd wal) 0) _ [] tail [] GARRY_MAX_RECOVERY_COMMITTED next Hmem);
    [done|exact Hlen|done|by left|exact Hok|exact Hi|done|done|done|done|done|].
  cbn [set_pos f_bytes]. rewrite Hb, zlen_app, (zlen_log rs Hok).
  pose proof (zlen_nonneg tail). unfold GARRY_WAL_RECORD_SIZE, zlen in *.
  Z.div_mod_to_equations. lia.
Qed.

(** Crash recovery sees what was appended: whatever records are appended to an
    empty log, and whatever part of a further record a crash left at the end,
    the first pass of recovery ends, finds exactly the transactions with a
    COMMIT record, in log order, and a next transaction id above all of them. *)
Theorem wal_recovery_finds_commits rs tail next :
  Forall record_ok rs -> Forall (fun r => is_i32 (wr_txid r + 1)) rs ->
  zlen rs < 2 ^ 30 -> zlen tail < 792 ->
  exists wal, wal_append_all (WalLog (File [] 0 true []) 0) rs = Some wal /\
    let crashed := WalLog (set_bytes (wl_fd wal) (f_bytes (wl_fd wal) ++ tail)) 0 in
    exists wal' next', collect_committed (fun _ => true) crashed next = Some (wal', Some (commits rs), next') /\
      next <= next' /\ Forall (fun t => t < next') (commits rs).
Proof.
  intros Hok Hi Hn Htl.
  destruct (append_all_spec rs (WalLog (File [] 0 true []) 0)) as (wal & -> & Ho & Hb & _);
    [split; cbn; done || lia|done|cbn; lia|].
  exists wal. split; [done|]. cbv zeta. do 2 eexists. split.
  - apply (collect_spec _ _ rs tail next); [done|exact Hn|exact Hok|exact Hi|exact Ho|cbn; by rewrite Hb|exact Htl].
  - apply bump_next_spec.
Qed.

(** * After a crash, a failed write, a checkpoint *)

(** The scan leaves the position at the end of the file, so a record appended
    after a torn one is not at a multiple of the record size. *)
Definition torn_tail_scenario (tail : list Z) (r : garry_wal_record) : option (list Z * list Z) :=
  '(wal, before, _) ← collect_committed (fun _ => true) (WalLog (File tail 0 true []) 0) 1;
  '(wal, _) ← garry_wal_log_append wal r;
  '(wal, after, _) ← collect_committed (fun _ => true) wal 1;
  before ← before; after ← after; Some (before, after).

(** Recovery does not truncate a log that ends in a torn record: the first
    commit logged after it returned success is not found by the next recovery. *)
Theorem torn_tail_loses_commit :
  torn_tail_scenario (zeros 100) (commit_record 7) = Some ([], []).
Proof. vm_compute. reflexivity. Qed.

(** A write that transfers only part of a record makes the append fail, yet the
    part stays in the file and the position moves past it: the next append
    succeeds at an offset that recovery does not read. *)
Theorem short_write_misaligns wal r k :
  f_open (wl_fd wal) = true -> f_tape (wl_fd wal) = [k] -> 0 < k < 792 ->
  f_pos (wl_fd wal) = zlen (f_bytes (wl_fd wal)) -> record_ok r ->
  0 <= wl_last_lsn wal < 2 ^ 31 - 1 ->
  exists wal', garry_wal_log_append wal r = Some (wal', -1) /\
    wl_last_lsn wal' = wl_last_lsn wal /\
    f_bytes (wl_fd wal') = f_bytes (wl_fd wal) ++ take (Z.to_nat k) (encode_record r) /\
    f_pos (wl_fd wal') = f_pos (wl_fd wal) + k.
Proof.
  intros Ho Ht Hk Hp Hok Hl. pose proof (zlen_encode_record r Hok) as Hz.
  pose proof (zlen_nonneg (f_bytes (wl_fd wal))).
  unfold garry_wal_log_append. rewrite Ho. unfold ck. rewrite decide_True by (unfold is_i32; lia).
  cbn [mbind option_bind]. unfold wal_write_record. rewrite (record_buf_eq r Hok).
  cbn [mbind option_bind]. unfold garry_file_write_bytes. rewrite (slice_all (encode_record r)) by done.
  cbn [mbind option_bind]. unfold os_pwrite. rewrite Ho, Ht.
  rewrite decide_False by (intros [?|?]; [done|lia]). rewrite Hz, Z.min_l by lia.
  rewrite decide_False by lia. rewrite Hp, overwrite_end. rewrite decide_True by lia.
  cbn [mbind option_bind]. rewrite bool_decide_false by (unfold GARRY_WAL_RECORD_SIZE; lia).
  eexists. split; [reflexivity|]. cbn [wl_fd wl_last_lsn set_pos f_bytes f_pos]. by rewrite ?Hp.
Qed.

(** A checkpoint empties the log file but not the descriptor's position: the
    next record is written at the old offset, after a hole of zeros, so the log
    is longer than before the checkpoint. *)
Theorem checkpoint_keeps_offset wal r :
  log_ready wal -> record_ok r ->
  exists wal', garry_wal_log_append (wal_checkpoint_log wal) r = Some (wal', 1) /\
    f_bytes (wl_fd (wal_checkpoint_log wal)) = [] /\
    f_bytes (wl_fd wal') = zeros (zlen (f_bytes (wl_fd wal))) ++ encode_record r.
Proof.
  intros [Ho Ht Hp Hl] Hok. pose proof (zlen_encode_record r Hok) as Hz.
  pose proof (zlen_nonneg (f_bytes (wl_fd wal))).
  assert (Hck : wal_checkpoint_log wal = WalLog (File [] (f_pos (wl_fd wal)) true []) 0).
  { unfold wal_checkpoint_log, garry_wal_log_flush, garry_file_sync. rewrite Ho. cbn [wl_fd].
    unfold garry_file_truncate. rewrite decide_False by (rewrite Ho; intros [?|?]; [done|lia]).
    cbn [fst]. unfold set_bytes. rewrite Ho, Ht. f_equal. f_equal. cbn [take Z.to_nat].
    unfold zeros. by replace (Z.to_nat (0 - zlen (f_bytes (wl_fd wal)))) with O by lia. }
  rewrite Hck. unfold garry_wal_log_append. cbn [wl_fd f_open wl_last_lsn].
  unfold ck. rewrite decide_True by (unfold is_i32; lia).
  cbn [mbind option_bind]. unfold wal_write_record. rewrite (record_buf_eq r Hok).
  cbn [mbind option_bind]. unfold garry_file_write_bytes. rewrite (slice_all (encode_record r)) by done.
  cbn [mbind option_bind wl_fd]. unfold os_pwrite. cbn [f_open f_tape f_pos f_bytes].
  rewrite decide_False by (intros [?|?]; [done|lia]). rewrite Hz.
  rewrite decide_True by lia. cbn [mbind option_bind]. rewrite bool_decide_true by done.
  eexists. split; [reflexivity|]. split; [done|].
  cbn [wl_fd wl_last_lsn set_pos f_bytes f_pos]. rewrite Hp. by apply overwrite_hole.
Qed.

(** * Witnesses *)

Definition sample_log : garry_wal_log := WalLog (File [] 0 true []) 0.

Lemma sample_log_ready : log_ready sample_log.
Proof. split; [reflexivity|reflexivity|reflexivity|cbn; lia]. Qed.

Lemma commit_record_ok txn : is_i32 txn -> record_ok (commit_record txn).
Proof. intros H. split; [exact H|..]; vm_compute; done. Qed.

Lemma sample_commit_ok : record_ok (commit_record 7).
Proof. apply commit_record_ok. vm_compute. split; congruence. Qed.

Lemma wal_record_roundtrip_witness :
  exists buf, wal_record_buf (commit_record 7) = Some buf /\
    zlen buf = GARRY_WAL_RECORD_SIZE.
Proof.
  destruct (wal_record_roundtrip (commit_record 7) sample_commit_ok) as (buf & H1 & H2 & _).
  exists buf. split; [exact H1|exact H2].
Defined.

Lemma wal_append_correct_witness :
  exists wal', garry_wal_log_append sample_log (commit_record 7) = Some (wal', 1).
Proof.
  destruct (wal_append_correct sample_log _ sample_log_ready sample_commit_ok) as (wal' & H & _).
  exists wal'. exact H.
Defined.

Lemma wal_recovery_finds_commits_witness :
  exists wal, wal_append_all (WalLog (File [] 0 true []) 0) [commit_record 7] = Some wal.
Proof.
  destruct (wal_recovery_finds_commits [commit_record 7] [1; 2; 3] 1) as (wal & H & _).
  - constructor; [exact sample_commit_ok|constructor].
  - constructor; [vm_compute; split; congruence|constructor].
  - reflexivity.
  - reflexivity.
  - exists wal. exact H.
Defined.

Lemma short_write_misaligns_witness :
  exists wal', garry_wal_log_append (WalLog (File [] 0 true [100]) 0) (commit_record 7)
    = Some (wal', -1).
Proof.
  destruct (short_write_misaligns (WalLog (File [] 0 true [100]) 0) (commit_record 7) 100)
    as (wal' & H & _);
    [reflexivity|reflexivity|split; reflexivity|reflexivity|exact sample_commit_ok|
     split; [vm_compute; congruence|reflexivity]|].
  exists wal'. exact H.
Defined.

Lemma checkpoint_keeps_offset_witness :
  exists wal', garry_wal_log_append (wal_checkpoint_log sample_log) (commit_record 7)
    = Some (wal', 1).
Proof.
  destruct (checkpoint_keeps_offset sample_log _ sample_log_ready sample_commit_ok) as (wal' & H & _).
  exists wal'. exact H.
Defined.
