(* ===== verification/Transaction.v ===== *)
(** Transactions, [src/src/transaction.c], with their storage-layer wrappers
    [storage_txn.c], garbage collection [gc.c], the checkpoint
    [wal_checkpoint.c] and the shutdown of the engine.

    The engine handle is a record; [txn_slot_mutex] and [root_lock] serialise the
    operations they guard, so an operation is one step.  The arrays
    [active_txns] and [txn_states] have the capacity [garry_engine_init] gives
    them, and a write past it is [None]. *)

From S2P Require Import Prelude Endian FileIo BufferPool PoolClient SlottedPage VersionChain.
From S2P Require Import Overflow LockTable DbHeader WalLog.
From Stdlib Require Import Sorted.

Definition GARRY_MAX_MODIFIED_PAGES : Z := 16.
Definition GARRY_CHAIN_MAX_ACTIVE : Z := 4.
Definition GARRY_HEADER_PAGE : Z := 0.

(** * State *)

Inductive garry_txn_state := GARRY_TXN_ACTIVE | GARRY_TXN_COMMITTED | GARRY_TXN_ROLLED_BACK.
#[export] Instance garry_txn_state_eq_dec : EqDecision garry_txn_state.
Proof. solve_decision. Defined.

Record garry_txn_info := TxnInfo {
  ti_txid : Z; ti_state : garry_txn_state; ti_modified_count : Z; ti_modified_pages : list Z
}.

Record garry_engine_handle := Engine {
  e_page_size : Z; e_compression : Z; e_btree_root : Z; e_pool : garry_buffer_pool;
  e_next_txid : Z; e_max_txns : Z; e_active_txns : list Z; e_active_count : Z;
  e_txn_states : list garry_txn_info; e_wal : garry_wal_log; e_lock_mgr : garry_lock_manager;
  e_settings : garry_engine_settings; e_header : garry_db_header; e_key_count : Z
}.

Definition set_pool (e : garry_engine_handle) (p : garry_buffer_pool) : garry_engine_handle :=
  Engine (e_page_size e) (e_compression e) (e_btree_root e) p (e_next_txid e) (e_max_txns e)
    (e_active_txns e) (e_active_count e) (e_txn_states e) (e_wal e) (e_lock_mgr e) (e_settings e)
    (e_header e) (e_key_count e).
Definition set_txns (e : garry_engine_handle) (act : list Z) (count : Z) (states : list garry_txn_info)
  : garry_engine_handle :=
  Engine (e_page_size e) (e_compression e) (e_btree_root e) (e_pool e) (e_next_txid e) (e_max_txns e)
    act count states (e_wal e) (e_lock_mgr e) (e_settings e) (e_header e) (e_key_count e).
Definition set_next_txid (e : garry_engine_handle) (n : Z) : garry_engine_handle :=
  Engine (e_page_size e) (e_compression e) (e_btree_root e) (e_pool e) n (e_max_txns e)
    (e_active_txns e) (e_active_count e) (e_txn_states e) (e_wal e) (e_lock_mgr e) (e_settings e)
    (e_header e) (e_key_count e).
Definition set_wal (e : garry_engine_handle) (w : garry_wal_log) : garry_engine_handle :=
  Engine (e_page_size e) (e_compression e) (e_btree_root e) (e_pool e) (e_next_txid e) (e_max_txns e)
    (e_active_txns e) (e_active_count e) (e_txn_states e) w (e_lock_mgr e) (e_settings e)
    (e_header e) (e_key_count e).
Definition set_lock_mgr (e : garry_engine_handle) (m : garry_lock_manager) : garry_engine_handle :=
  Engine (e_page_size e) (e_compression e) (e_btree_root e) (e_pool e) (e_next_txid e) (e_max_txns e)
    (e_active_txns e) (e_active_count e) (e_txn_states e) (e_wal e) m (e_settings e)
    (e_header e) (e_key_count e).
Definition set_header (e : garry_engine_handle) (h : garry_db_header) : garry_engine_handle :=
  Engine (e_page_size e) (e_compression e) (e_btree_root e) (e_pool e) (e_next_txid e) (e_max_txns e)
    (e_active_txns e) (e_active_count e) (e_txn_states e) (e_wal e) (e_lock_mgr e) (e_settings e)
    h (e_key_count e).

(** * The list of active transactions *)

Definition remove_active_txn (eng : garry_engine_handle) (txn : Z) : option garry_engine_handle :=
  slot ← scan 0 (e_active_count eng) (fun i =>
    a ← rd (e_active_txns eng) i; Some (if decide (a = txn) then Some i else None));
  match slot with
  | None => Some eng
  | Some i =>
      '(act, states) ← forZ i (e_active_count eng - 1) (fun j (st : list Z * list garry_txn_info) =>
        let '(act, states) := st in
        a ← rd act (j + 1); act ← wr act j a;
        s ← rd states (j + 1); states ← wr states j s;
        Some (act, states)) (e_active_txns eng, e_txn_states eng);
      Some (set_txns eng act (e_active_count eng - 1) states)
  end.

Definition find_txn_slot (eng : garry_engine_handle) (txn : Z) : option Z :=
  slot ← scan 0 (e_active_count eng) (fun i =>
    a ← rd (e_active_txns eng) i; Some (if decide (a = txn) then Some i else None));
  Some (default (-1) slot).

Definition garry_mvcc_begin (eng : garry_engine_handle) : option (garry_engine_handle * Z) :=
  active_non_rb ← forZ 0 (e_active_count eng) (fun i n =>
    s ← rd (e_txn_states eng) i;
    Some (if decide (ti_state s <> GARRY_TXN_ROLLED_BACK) then n + 1 else n)) 0;
  if decide (active_non_rb >= e_max_txns eng) then Some (eng, -1) else
  capacity ← ck (e_max_txns eng * 64);
  if decide (e_active_count eng >= capacity) then Some (eng, -1) else
  let txn := e_next_txid eng in
  next ← ck (e_next_txid eng + 1);
  let slot := e_active_count eng in
  act ← wr (e_active_txns eng) slot txn;
  s ← rd (e_txn_states eng) slot;
  states ← wr (e_txn_states eng) slot (TxnInfo txn GARRY_TXN_ACTIVE 0 (ti_modified_pages s));
  Some (set_next_txid (set_txns eng act (e_active_count eng + 1) states) next, txn).

(** The pages of the transaction are copied out of its slot, which is then
    removed; they are flushed after the locks have been released. *)
Definition garry_mvcc_commit (eng : garry_engine_handle) (txn : Z) : option garry_engine_handle :=
  slot ← find_txn_slot eng txn;
  '(eng, pages, count) ←
    (if decide (slot >= 0) then
       s ← rd (e_txn_states eng) slot;
       let count := if decide (ti_modified_count s > GARRY_MAX_MODIFIED_PAGES)
                    then GARRY_MAX_MODIFIED_PAGES else ti_modified_count s in
       pages ← forZ 0 count (fun i pages =>
         p ← rd (ti_modified_pages s) i; wr pages i p) (zeros GARRY_MAX_MODIFIED_PAGES);
       states ← wr (e_txn_states eng) slot
         (TxnInfo (ti_txid s) GARRY_TXN_COMMITTED 0 (ti_modified_pages s));
       eng ← remove_active_txn (set_txns eng (e_active_txns eng) (e_active_count eng) states) txn;
       Some (eng, pages, count)
     else Some (eng, zeros GARRY_MAX_MODIFIED_PAGES, 0));
  let eng := set_lock_mgr eng (garry_lock_release (e_lock_mgr eng) txn) in
  pool ← forZ 0 count (fun i pool =>
    p ← rd pages i; '(pool, _) ← garry_pool_flush_page pool p; Some pool) (e_pool eng);
  Some (set_pool eng pool).

Definition garry_mvcc_rollback (eng : garry_engine_handle) (txn : Z) : option garry_engine_handle :=
  slot ← find_txn_slot eng txn;
  eng ← (if decide (slot >= 0) then
           s ← rd (e_txn_states eng) slot;
           states ← wr (e_txn_states eng) slot
             (TxnInfo (ti_txid s) GARRY_TXN_ROLLED_BACK 0 (ti_modified_pages s));
           Some (set_txns eng (e_active_txns eng) (e_active_count eng) states)
         else Some eng);
  Some (set_lock_mgr eng (garry_lock_release (e_lock_mgr eng) txn)).

Definition garry_txn_is_active (txn : Z) (eng : garry_engine_handle) : option bool :=
  slot ← find_txn_slot eng txn;
  if decide (slot >= 0) then
    s ← rd (e_txn_states eng) slot;
    Some (bool_decide (ti_state s <> GARRY_TXN_ROLLED_BACK))
  else Some false.

(** * Versions *)

(** The inner result is the page id, -1 on failure. *)
Definition garry_chain_allocate (eng : garry_engine_handle) : option (garry_engine_handle * Z) :=
  '(pool, pid) ← garry_pool_allocate (e_pool eng);
  if decide (pid < 0) then Some (set_pool eng pool, -1) else
  '(pool, r) ← garry_pool_pin_page pool pid;
  match r with
  | None => Some (set_pool eng pool, -1)
  | Some idx =>
      page ← slot_page pool idx;
      page ← garry_chain_page_init page (e_page_size eng);
      pool ← set_slot_page pool idx page;
      pool ← garry_pool_mark_dirty pool pid;
      pool ← garry_pool_release_page pool pid;
      Some (set_pool eng pool, pid)
  end.

(** The inner [None] is [NULL]. *)
Definition garry_mvcc_get (mem : read_mem) (eng : garry_engine_handle) (txn chain_page_id : Z)
  : option (garry_engine_handle * option (list Z * Z)) :=
  '(pool, r) ← garry_pool_pin_page (e_pool eng) chain_page_id;
  match r with
  | None => Some (set_pool eng pool, None)
  | Some idx =>
      buf ← slot_page pool idx;
      '(pool, result) ← garry_chain_page_find_visible mem pool buf (e_page_size eng) txn
                          (e_active_txns eng) (e_active_count eng);
      pool ← garry_pool_release_page pool chain_page_id;
      Some (set_pool eng pool, result)
  end.

Definition garry_mvcc_exists (mem : bool) (eng : garry_engine_handle) (txn chain_page_id : Z)
  : option (garry_engine_handle * bool) :=
  '(pool, r) ← garry_pool_pin_page (e_pool eng) chain_page_id;
  match r with
  | None => Some (set_pool eng pool, false)
  | Some idx =>
      buf ← slot_page pool idx;
      result ← garry_chain_page_has_visible mem buf (e_page_size eng) txn
                 (e_active_txns eng) (e_active_count eng);
      pool ← garry_pool_release_page pool chain_page_id;
      Some (set_pool eng pool, result)
  end.

(** The end of [garry_mvcc_set] and [garry_mvcc_delete]: the page is marked dirty
    and entered into the list of the transaction's pages, while there is room. *)
Definition note_modified (eng : garry_engine_handle) (txn chain_page_id : Z)
  : option garry_engine_handle :=
  pool ← garry_pool_mark_dirty (e_pool eng) chain_page_id;
  let eng := set_pool eng pool in
  slot ← find_txn_slot eng txn;
  if decide (slot >= 0) then
    s ← rd (e_txn_states eng) slot;
    let mc := ti_modified_count s in
    if decide (mc < GARRY_MAX_MODIFIED_PAGES) then
      pages ← wr (ti_modified_pages s) mc chain_page_id;
      states ← wr (e_txn_states eng) slot (TxnInfo (ti_txid s) (ti_state s) (mc + 1) pages);
      Some (set_txns eng (e_active_txns eng) (e_active_count eng) states)
    else Some eng
  else Some eng.

Definition garry_mvcc_set (eng : garry_engine_handle) (txn chain_page_id : Z)
    (value : option (list Z)) (vlen : Z) : option (garry_engine_handle * bool) :=
  '(pool, r) ← garry_pool_pin_page (e_pool eng) chain_page_id;
  match r with
  | None => Some (set_pool eng pool, false)
  | Some idx =>
      let inline_cap := garry_chain_inline_capacity (e_page_size eng) in
      '(pool, appended) ←
        (if decide (vlen > inline_cap) then
           value ← value;
           '(pool, head) ← garry_overflow_write pool value vlen;
           if decide (head < 0) then Some (pool, None)
           else
             buf ← slot_page pool idx;
             '(buf, ok) ← garry_chain_page_append_overflow buf (e_page_size eng) txn vlen head;
             Some (pool, Some (buf, ok))
         else
           buf ← slot_page pool idx;
           '(buf, ok) ← garry_chain_page_append buf (e_page_size eng) txn value vlen;
           Some (pool, Some (buf, ok)));
      match appended with
      | None =>
          pool ← garry_pool_release_page pool chain_page_id;
          Some (set_pool eng pool, false)
      | Some (buf, ok) =>
          pool ← set_slot_page pool idx buf;
          let eng := set_pool eng pool in
          eng ← (if ok : bool then note_modified eng txn chain_page_id else Some eng);
          pool ← garry_pool_release_page (e_pool eng) chain_page_id;
          Some (set_pool eng pool, ok)
      end
  end.

Definition garry_mvcc_delete (eng : garry_engine_handle) (txn chain_page_id : Z)
  : option (garry_engine_handle * bool) :=
  '(pool, r) ← garry_pool_pin_page (e_pool eng) chain_page_id;
  match r with
  | None => Some (set_pool eng pool, false)
  | Some idx =>
      buf ← slot_page pool idx;
      '(buf, ok) ← garry_chain_page_append_tombstone buf (e_page_size eng) txn;
      pool ← set_slot_page pool idx buf;
      let eng := set_pool eng pool in
      eng ← (if ok : bool then note_modified eng txn chain_page_id else Some eng);
      pool ← garry_pool_release_page (e_pool eng) chain_page_id;
      Some (set_pool eng pool, ok)
  end.

Definition garry_mvcc_chain_overflow (eng : garry_engine_handle) (txn : Z) (value : list Z) (vlen : Z)
  : option (garry_engine_handle * Z) :=
  '(pool, head) ← garry_overflow_write (e_pool eng) value vlen;
  Some (set_pool eng pool, head).

Definition garry_mvcc_recovery_apply (eng : garry_engine_handle) (chain_page_id txn : Z)
    (value : option (list Z)) (vlen : Z) : option (garry_engine_handle * bool) :=
  garry_mvcc_set eng txn chain_page_id value vlen.

(** * Garbage collection and checkpoints *)

(** One page of the collection; the page type is the first field of the header. *)
Definition gc_page (mem : Z -> bool) (fuel : nat) (eng : garry_engine_handle) (snapshot : list Z) (snapshot_count : Z)
    (pid : Z) (pool : garry_buffer_pool) : option garry_buffer_pool :=
  '(pool, r) ← garry_pool_try_pin pool pid;
  match r with
  | None => Some pool
  | Some idx =>
      buf ← slot_page pool idx;
      pt ← garry_read_int32 buf GARRY_PAGE_HDR_OFF_TYPE;
      pool ← (if decide (pt = node_kind_ord GARRY_NODE_CHAIN) then
                '(pool, buf) ← garry_chain_page_prune (mem pid) fuel pool buf (e_page_size eng) snapshot
                                 snapshot_count;
                pool ← set_slot_page pool idx buf;
                garry_pool_mark_dirty pool pid
              else Some pool);
      garry_pool_release_page pool pid
  end.

(** [snapshot] is a local array of [GARRY_CHAIN_MAX_ACTIVE] elements; [fuel]
    bounds the overflow pages of one version; [mem pid]: whether [malloc] gives the
    pruning of the page its buffer. *)
Definition garry_mvcc_gc (mem : Z -> bool) (fuel : nat) (eng : garry_engine_handle) : option garry_engine_handle :=
  let snapshot_count := e_active_count eng in
  snapshot ← forZ 0 snapshot_count (fun i snapshot =>
    a ← rd (e_active_txns eng) i; wr snapshot i a) (zeros GARRY_CHAIN_MAX_ACTIVE);
  pool ← forZ 1 (total_pages (e_header eng)) (gc_page mem fuel eng snapshot snapshot_count) (e_pool eng);
  Some (set_pool eng pool).

(** The log is the engine's.  The result is the engine, the outcome and
    [*checkpoint_lsn], which is written on success. *)
Definition garry_wal_checkpoint (mem : Z -> bool) (fuel : nat) (eng : garry_engine_handle)
  : option (garry_engine_handle * option Z) :=
  if f_open (wl_fd (e_wal eng)) then
    let checkpoint_lsn := wl_last_lsn (e_wal eng) in
    eng ← garry_mvcc_gc mem fuel eng;
    pool ← garry_pool_flush_all (e_pool eng);
    let eng := set_pool eng pool in
    Some (set_wal eng (wal_checkpoint_log (e_wal eng)), Some checkpoint_lsn)
  else Some (eng, None).

(** * Shutdown *)

Definition close_header (h : garry_db_header) (root free_head pages next : Z) : garry_db_header :=
  DbHeader (magic h) (version h) (page_size h) (db_compression h) root free_head pages (max_txns h)
    (max_versions h) (max_key_size h) (max_subscripts h) (btree_flags h) next (db_checksum h).

(** Writing the header page, as init, close and the storage layer do. *)
Definition write_header_page (pool : garry_buffer_pool) (h : garry_db_header)
  : option garry_buffer_pool :=
  '(pool, r) ← garry_pool_pin_page pool GARRY_HEADER_PAGE;
  match r with
  | None => Some pool
  | Some idx =>
      page ← slot_page pool idx;
      page ← garry_write_db_header page h;
      pool ← set_slot_page pool idx page;
      pool ← garry_pool_mark_dirty pool GARRY_HEADER_PAGE;
      garry_pool_release_page pool GARRY_HEADER_PAGE
  end.

(** The engine is freed; what remains are the two files. *)
Definition garry_engine_close (eng : garry_engine_handle)
  : option (garry_file_descriptor * garry_wal_log) :=
  let h := close_header (e_header eng) (root_page (e_header eng)) (p_free_list_head (e_pool eng))
             (p_next_page (e_pool eng)) (e_next_txid eng) in
  pool ← write_header_page (e_pool eng) h;
  pool ← garry_pool_flush_all pool;
  let wal := garry_wal_log_close (e_wal eng) in
  fd ← garry_pool_close pool;
  Some (fd, wal).

Definition garry_storage_close (eng : garry_engine_handle)
  : option (garry_file_descriptor * garry_wal_log) :=
  let h := close_header (e_header eng) (e_btree_root eng) (free_list_head (e_header eng))
             (p_next_page (e_pool eng)) (e_next_txid eng) in
  pool ← write_header_page (e_pool eng) h;
  let eng := set_wal (set_header (set_pool eng pool) h) (garry_wal_log_flush (e_wal eng)) in
  garry_engine_close eng.

(** * The storage layer *)

Definition garry_storage_begin (eng : garry_engine_handle) : option (garry_engine_handle * Z) :=
  garry_mvcc_begin eng.

(** [mem]: whether [malloc] gives the record; the result of the append is ignored. *)
Definition garry_storage_commit (mem : bool) (eng : garry_engine_handle) (txn : Z) : option garry_engine_handle :=
  eng ← match garry_make_commit_record mem txn with
        | None => Some eng
        | Some rec =>
            '(wal, _) ← garry_wal_log_append (e_wal eng) rec;
            Some (set_wal eng (garry_wal_log_flush wal))
        end;
  let eng := set_lock_mgr eng (garry_lock_release (e_lock_mgr eng) txn) in
  garry_mvcc_commit eng txn.

Definition garry_storage_rollback (mem : bool) (eng : garry_engine_handle) (txn : Z) : option garry_engine_handle :=
  eng ← match garry_make_abort_record mem txn with
        | None => Some eng
        | Some rec => '(wal, _) ← garry_wal_log_append (e_wal eng) rec; Some (set_wal eng wal)
        end;
  let eng := set_lock_mgr eng (garry_lock_release (e_lock_mgr eng) txn) in
  garry_mvcc_rollback eng txn.

(** * The transaction table as a list *)

(** [txns_rep eng ts]: the arrays hold the transactions [ts], oldest first. *)
Record txns_rep (eng : garry_engine_handle) (ts : list garry_txn_info) : Prop := {
  tr_act : slice (e_active_txns eng) 0 (e_active_count eng) = Some (map ti_txid ts);
  tr_states : slice (e_txn_states eng) 0 (e_active_count eng) = Some ts;
  tr_act_cap : zlen (e_active_txns eng) = e_max_txns eng * 64;
  tr_states_cap : zlen (e_txn_states eng) = e_max_txns eng * 64;
  tr_max : is_i32 (e_max_txns eng * 64);
  tr_sorted : StronglySorted Z.lt (map ti_txid ts ++ [e_next_txid eng]);
  tr_info : Forall (fun t => 0 <= ti_modified_count t <= GARRY_MAX_MODIFIED_PAGES /\
    zlen (ti_modified_pages t) = GARRY_MAX_MODIFIED_PAGES /\
    Forall (fun q => 0 <= q) (take (Z.to_nat (ti_modified_count t)) (ti_modified_pages t))) ts;
  tr_next : is_i32 (e_next_txid eng);
  tr_pages : Forall (fun s => zlen (ti_modified_pages s) = GARRY_MAX_MODIFIED_PAGES) (e_txn_states eng)
}.

Definition rolled_back (t : garry_txn_info) : Prop := ti_state t = GARRY_TXN_ROLLED_BACK.
#[export] Instance rolled_back_dec t : Decision (rolled_back t).
Proof. unfold rolled_back. apply _. Defined.
#[global] Typeclasses Opaque rolled_back.

Definition live_count (ts : list garry_txn_info) : Z := zlen (filter (fun t => ~ rolled_back t) ts).

Lemma txns_len eng ts : txns_rep eng ts -> e_active_count eng = zlen ts.
Proof. intros Hr. by pose proof (slice_is_Some _ _ _ _ (tr_states _ _ Hr)) as (_ & _ & _ & ->). Qed.

Lemma txns_rd_act eng ts i :
  txns_rep eng ts -> 0 <= i < zlen ts -> rd (e_active_txns eng) i = rd (map ti_txid ts) i.
Proof.
  intros Hr Hi. pose proof (txns_len _ _ Hr) as Hl.
  rewrite (rd_slice _ _ _ _ i (tr_act _ _ Hr)) by lia. by rewrite Z.add_0_l.
Qed.

Lemma txns_rd_states eng ts i :
  txns_rep eng ts -> 0 <= i < zlen ts -> rd (e_txn_states eng) i = rd ts i.
Proof.
  intros Hr Hi. pose proof (txns_len _ _ Hr) as Hl.
  rewrite (rd_slice _ _ _ _ i (tr_states _ _ Hr)) by lia. by rewrite Z.add_0_l.
Qed.

Lemma txns_nodup eng ts : txns_rep eng ts -> NoDup (map ti_txid ts).
Proof.
  intros Hr. pose proof (tr_sorted _ _ Hr) as H. revert H.
  induction (map ti_txid ts) as [|x l IH]; [constructor|]. cbn [app].
  intros H. apply StronglySorted_inv in H as [Hs HF]. constructor; [|by apply IH].
  intros Hx. rewrite Forall_forall in HF. specialize (HF x). rewrite elem_of_app in HF.
  specialize (HF (or_introl Hx)). lia.
Qed.

(** Where a transaction is in the table. *)
Fixpoint slot_of (ts : list garry_txn_info) (txn : Z) : option nat :=
  match ts with
  | [] => None
  | t :: ts => if decide (ti_txid t = txn) then Some O else S <$> slot_of ts txn
  end.

Lemma slot_of_spec ts txn :
  match slot_of ts txn with
  | Some k => exists t, ts !! k = Some t /\ ti_txid t = txn /\
      forall j u, (j < k)%nat -> ts !! j = Some u -> ti_txid u <> txn
  | None => (txn ∉ map ti_txid ts)
  end.
Proof.
  induction ts as [|t ts IH]; cbn [slot_of map].
  - apply not_elem_of_nil.
  - case_decide as Hd.
    + exists t. split; [done|]. split; [done|]. intros j u Hj. lia.
    + destruct (slot_of ts txn) as [k|]; cbn [fmap option_fmap option_map].
      * destruct IH as (t' & Hk & Ht & Hb). exists t'. split; [done|]. split; [done|].
        intros [|j] u Hj Hu; [by injection Hu as <-|]. apply (Hb j u); [lia|done].
      * apply not_elem_of_cons. split; [congruence|done].
Qed.

Lemma scan_slot eng ts txn :
  txns_rep eng ts ->
  scan 0 (e_active_count eng) (fun i =>
    a ← rd (e_active_txns eng) i; Some (if decide (a = txn) then Some i else None)) =
  Some (Z.of_nat <$> slot_of ts txn).
Proof.
  intros Hr. pose proof (txns_len _ _ Hr) as Hl. rewrite Hl.
  assert (Hrd : forall (j : nat) t, ts !! j = Some t -> rd (e_active_txns eng) (Z.of_nat j) = Some (ti_txid t)).
  { intros j t Hj. pose proof (lookup_lt_Some _ _ _ Hj). rewrite (txns_rd_act eng ts) by (unfold zlen; done || lia).
    rewrite rd_lookup. change (map ti_txid ts) with (ti_txid <$> ts). by rewrite list_lookup_fmap, Hj. }
  pose proof (slot_of_spec ts txn) as Hs. destruct (slot_of ts txn) as [k|]; cbn [fmap option_fmap option_map].
  - destruct Hs as (t & Hk & Ht & Hb). pose proof (lookup_lt_Some _ _ _ Hk).
    apply (scan_Some _ _ (Z.of_nat k)); [unfold zlen; lia| |by rewrite (Hrd k t Hk), Ht; cbn; rewrite decide_True].
    intros i Hi. destruct (lookup_lt_is_Some_2 ts (Z.to_nat i)) as [u Hu]; [lia|].
    rewrite <- (Z2Nat.id i), (Hrd _ u Hu) by lia. cbn. rewrite decide_False; [done|].
    apply (Hb (Z.to_nat i)); [lia|done].
  - apply scan_None. intros i Hi. destruct (lookup_lt_is_Some_2 ts (Z.to_nat i)) as [u Hu]; [unfold zlen in Hi; lia|].
    rewrite <- (Z2Nat.id i), (Hrd _ u Hu) by lia. cbn. rewrite decide_False; [done|].
    intros E. apply Hs. rewrite <- E. apply list_elem_of_fmap. exists u. split; [done|].
    by eapply list_elem_of_lookup_2.
Qed.

Lemma find_txn_slot_spec eng ts txn :
  txns_rep eng ts ->
  find_txn_slot eng txn = Some (default (-1) (Z.of_nat <$> slot_of ts txn)).
Proof. intros Hr. unfold find_txn_slot. by rewrite (scan_slot eng ts txn Hr). Qed.

(** Replacing one transaction's entry. *)
Lemma states_update eng ts k t t' :
  txns_rep eng ts -> ts !! k = Some t -> ti_txid t' = ti_txid t ->
  (0 <= ti_modified_count t' <= GARRY_MAX_MODIFIED_PAGES /\
    zlen (ti_modified_pages t') = GARRY_MAX_MODIFIED_PAGES /\
    Forall (fun q => 0 <= q) (take (Z.to_nat (ti_modified_count t')) (ti_modified_pages t'))) ->
  exists states, wr (e_txn_states eng) (Z.of_nat k) t' = Some states /\
    txns_rep (set_txns eng (e_active_txns eng) (e_active_count eng) states) (<[k:=t']> ts).
Proof.
  intros Hr Hk Hid Hinfo. pose proof (txns_len _ _ Hr) as Hl. pose proof (lookup_lt_Some _ _ _ Hk) as Hlt.
  pose proof (slice_is_Some _ _ _ _ (tr_states _ _ Hr)) as (_ & _ & Hcap & _).
  assert (Hmap : map ti_txid (<[k:=t']> ts) = map ti_txid ts).
  { change (ti_txid <$> <[k:=t']> ts = ti_txid <$> ts). rewrite list_fmap_insert, list_insert_id; [done|].
    rewrite list_lookup_fmap, Hk. cbn. by rewrite Hid. }
  rewrite wr_Some by (unfold zlen in *; lia). rewrite Nat2Z.id. eexists. split; [done|].
  destruct Hr as [R1 R2 R3 R4 R5 R6 R7 R8 R9].
  split; cbn [e_active_txns e_active_count e_txn_states e_max_txns e_next_txid set_txns]; rewrite ?Hmap; try done.
  - unfold slice in R2 |- *. rewrite zlen_insert. case_decide; [|done]. injection R2 as R2. f_equal.
    rewrite drop_0 in R2 |- *. rewrite <- R2. rewrite take_insert_lt by (unfold zlen in Hl; lia). done.
  - by rewrite zlen_insert.
  - by apply Forall_insert.
  - apply Forall_insert; [done|]. apply Hinfo.
Qed.

(** * The operations on the table *)

Lemma sorted_delete k (l : list Z) (x : Z) :
  StronglySorted Z.lt (l ++ [x]) -> StronglySorted Z.lt (delete k l ++ [x]).
Proof.
  revert k. induction l as [|y l IH]; intros k H; [by destruct k|].
  cbn [app] in H. apply StronglySorted_inv in H as [Hs HF].
  destruct k as [|k]; [done|]. change (delete (S k) (y :: l)) with (y :: delete k l). cbn [app].
  constructor; [by apply IH|]. apply Forall_app in HF as [HF Hx]. apply Forall_app. split; [|done].
  by apply Forall_delete.
Qed.

(** The deletion of a transaction keeps the others in order. *)
Lemma delete_slot ts txn k :
  slot_of ts txn = Some k -> NoDup (map ti_txid ts) ->
  delete k ts = filter (fun t => ti_txid t <> txn) ts.
Proof.
  revert k. induction ts as [|t ts IH]; intros k; [done|]. cbn [slot_of map].
  intros Hk [Hni Hnd]%NoDup_cons. case_decide as Hd.
  - injection Hk as <-. change (delete 0%nat (t :: ts)) with ts. rewrite filter_cons_False by tauto. symmetry.
    apply filter_all. intros u Hu E. apply Hni. rewrite Hd, <- E.
    apply list_elem_of_fmap. by exists u.
  - destruct (slot_of ts txn) as [j|]; [|done]. injection Hk as <-.
    rewrite filter_cons_True by done. change (delete (S j) (t :: ts)) with (t :: delete j ts).
    f_equal. by apply IH.
Qed.

Lemma remove_spec eng ts txn :
  txns_rep eng ts ->
  exists eng', remove_active_txn eng txn = Some eng' /\
    txns_rep eng' (filter (fun t => ti_txid t <> txn) ts) /\
    eng' = set_txns eng (e_active_txns eng') (e_active_count eng') (e_txn_states eng').
Proof.
  intros Hr. unfold remove_active_txn. rewrite (scan_slot eng ts txn Hr). cbn [mbind option_bind].
  pose proof (slot_of_spec ts txn) as Hs. destruct (slot_of ts txn) as [k|] eqn:Ek;
    cbn [fmap option_fmap option_map].
  - destruct Hs as (t & Hk & Ht & _). pose proof (lookup_lt_Some _ _ _ Hk) as Hlt.
    pose proof (txns_len _ _ Hr) as Hl. pose proof (delete_slot _ _ _ Ek (txns_nodup _ _ Hr)) as Hdel.
    destruct Hr as [R1 R2 R3 R4 R5 R6 R7 R8 R9].
    pose proof (slice_is_Some _ _ _ _ R1) as (_ & _ & Hc1 & _).
    pose proof (slice_is_Some _ _ _ _ R2) as (_ & _ & Hc2 & _). unfold zlen in Hl.
    edestruct (forZ_inv (fun j (st : list Z * list garry_txn_info) =>
      shifted (Z.of_nat k) j (e_active_txns eng) st.1 /\
      shifted (Z.of_nat k) j (e_txn_states eng) st.2) (Z.of_nat k) (e_active_count eng - 1))
      as ([act states] & -> & Ha & Hst); [lia|split; apply shifted_start| |].
    { intros j [act states] Hj [Ha Hst]. cbn [fst snd] in *.
      destruct (shifted_step _ _ _ _ Ha) as (a & act' & -> & E1 & Ha'); [lia..|].
      destruct (shifted_step _ _ _ _ Hst) as (s & st' & E2 & E3 & Hst'); [lia..|].
      cbn [mbind option_bind]. rewrite E1. cbn [mbind option_bind]. rewrite E2. cbn [mbind option_bind].
      rewrite E3. by eexists. }
    cbn [mbind option_bind fst snd] in *. eexists. split; [done|].
    pose proof (shifted_delete _ _ _ _ _ Ha R1 ltac:(lia)) as D1.
    pose proof (shifted_delete _ _ _ _ _ Hst R2 ltac:(lia)) as D2. rewrite Nat2Z.id in D1, D2.
    rewrite <- Hdel. split; [|done].
    assert (Hmap : map ti_txid (delete k ts) = delete k (map ti_txid ts)) by apply list_fmap_delete.
    split; cbn [e_active_txns e_active_count e_txn_states e_max_txns e_next_txid set_txns]; rewrite ?Hmap; try done.
    + destruct Ha as [-> _]. done.
    + destruct Hst as [-> _]. done.
    + by apply sorted_delete.
    + by apply Forall_delete.
    + by apply (shifted_Forall _ _ _ _ _ Hst).
  - exists eng. split; [done|]. rewrite filter_all; [split; [done|by destruct eng]|].
    intros u Hu E. apply Hs. rewrite <- E. apply list_elem_of_fmap. by exists u.
Qed.

Lemma count_live eng ts :
  txns_rep eng ts ->
  forZ 0 (e_active_count eng) (fun i n =>
    s ← rd (e_txn_states eng) i;
    Some (if decide (ti_state s <> GARRY_TXN_ROLLED_BACK) then n + 1 else n)) 0 = Some (live_count ts).
Proof.
  intros Hr. pose proof (txns_len _ _ Hr) as Hl. pose proof (zlen_nonneg ts).
  edestruct (forZ_inv (fun i n => n = live_count (take (Z.to_nat i) ts)) 0 (e_active_count eng))
    as (n & -> & ->); [lia|done| |].
  - intros i n Hi ->. destruct (lookup_lt_is_Some_2 ts (Z.to_nat i)) as [t Ht]; [unfold zlen in *; lia|].
    rewrite (txns_rd_states eng ts) by (done || lia).
    unfold rd at 1. rewrite decide_True, Ht by lia. eexists. split; [done|].
    replace (Z.to_nat (i + 1)) with (S (Z.to_nat i)) by lia. rewrite (take_S_r _ _ _ Ht).
    unfold live_count. rewrite filter_app, zlen_app.
    destruct (decide (ti_state t <> GARRY_TXN_ROLLED_BACK)) as [Hd|Hd].
    + rewrite filter_cons_True by done. done.
    + rewrite filter_cons_False by (unfold rolled_back; tauto).
      change (zlen (filter (fun t => ~ rolled_back t) [])) with 0. lia.
  - f_equal. rewrite take_ge; [done|]. unfold zlen in *. lia.
Qed.

(** Whether [garry_mvcc_begin] admits another transaction. *)
Definition can_begin (eng : garry_engine_handle) (ts : list garry_txn_info) : Prop :=
  live_count ts < e_max_txns eng /\ zlen ts < e_max_txns eng * 64.
#[export] Instance can_begin_dec eng ts : Decision (can_begin eng ts) := and_dec _ _.

Lemma sorted_snoc (l : list Z) x y : StronglySorted Z.lt (l ++ [x]) -> x < y -> StronglySorted Z.lt ((l ++ [x]) ++ [y]).
Proof.
  intros H Hxy. induction l as [|z l IH]; cbn [app] in *.
  - repeat constructor. lia.
  - apply StronglySorted_inv in H as [Hs HF]. constructor; [by apply IH|].
    apply Forall_app. split; [done|]. apply Forall_app in HF as [_ HF]. apply Forall_cons in HF as [? _].
    repeat constructor. lia.
Qed.

Lemma begin_spec eng ts :
  txns_rep eng ts -> e_next_txid eng < 2 ^ 31 - 1 ->
  exists eng' r, garry_mvcc_begin eng = Some (eng', r) /\
    if decide (can_begin eng ts) then
      r = e_next_txid eng /\ e_pool eng' = e_pool eng /\ e_next_txid eng' = r + 1 /\
      e_max_txns eng' = e_max_txns eng /\
      exists pages, txns_rep eng' (ts ++ [TxnInfo r GARRY_TXN_ACTIVE 0 pages])
    else r = -1 /\ eng' = eng.
Proof.
  intros Hr Hnext. pose proof (txns_len _ _ Hr) as Hl. unfold garry_mvcc_begin.
  rewrite (count_live eng ts Hr). cbn [mbind option_bind].
  pose proof Hr as [R1 R2 R3 R4 R5 R6 R7 R8 R9]. pose proof (zlen_nonneg ts) as Hts.
  destruct (decide (live_count ts >= e_max_txns eng)) as [Hlim|Hlim].
  { destruct (decide (can_begin eng ts)) as [[? _]|_]; [lia|]. by exists eng, (-1). }
  unfold ck. rewrite (decide_True _ _ R5). cbn [mbind option_bind]. rewrite Hl.
  destruct (decide (zlen ts >= e_max_txns eng * 64)) as [Hcap|Hcap].
  { destruct (decide (can_begin eng ts)) as [[_ ?]|_]; [lia|]. by exists eng, (-1). }
  destruct (decide (can_begin eng ts)) as [_|Hn]; [|destruct Hn; split; lia].
  rewrite decide_True by (unfold is_i32 in *; lia). cbn [mbind option_bind].
  rewrite wr_Some by lia. cbn [mbind option_bind]. destruct (rd_is_Some (e_txn_states eng) (zlen ts)) as [s Hs]; [lia|].
  assert (Hsp : zlen (ti_modified_pages s) = GARRY_MAX_MODIFIED_PAGES).
  { unfold rd in Hs. case_decide; [|done]. exact (Forall_lookup_1 _ _ _ _ R9 Hs). }
  rewrite Hs. cbn [mbind option_bind]. rewrite wr_Some by lia. cbn [mbind option_bind].
  do 2 eexists. split; [done|]. split; [done|]. split; [done|].
  split; [done|]. split; [done|]. exists (ti_modified_pages s).
  assert (Hmap : map ti_txid (ts ++ [TxnInfo (e_next_txid eng) GARRY_TXN_ACTIVE 0 (ti_modified_pages s)]) =
    map ti_txid ts ++ [e_next_txid eng]) by apply map_app.
  assert (Happ : forall {A} (l : list A) (p : list A) x, slice l 0 (zlen ts) = Some p -> zlen ts < zlen l ->
    slice (<[Z.to_nat (zlen ts):=x]> l) 0 (zlen ts + 1) = Some (p ++ [x])).
  { intros A l p x Hp Hlt. rewrite slice_Some by (rewrite ?zlen_insert; lia). f_equal. rewrite drop_0.
    unfold slice in Hp. rewrite decide_True in Hp by lia. injection Hp as <-. rewrite drop_0.
    replace (Z.to_nat (zlen ts + 1)) with (S (Z.to_nat (zlen ts))) by lia.
    rewrite (take_S_r _ _ x) by (apply list_lookup_insert_eq; unfold zlen in *; lia).
    by rewrite take_insert_ge. }
  split; cbn [e_active_txns e_active_count e_txn_states e_max_txns e_next_txid set_txns set_next_txid];
    rewrite ?Hmap, ?zlen_insert; try done.
  - rewrite Hl in R1. apply Happ; [done|lia].
  - rewrite Hl in R2. apply Happ; [done|lia].
  - apply sorted_snoc; [done|lia].
  - apply Forall_app. split; [done|]. constructor; [|constructor].
    split; [done|]. split; [done|constructor].
  - unfold is_i32 in *. lia.
  - by apply Forall_insert.
Qed.

(** Flushing a list of pages. *)
Lemma flush_loop n pins p pages ps count :
  ready n pins [] p -> slice pages 0 count = Some ps -> Forall (fun q => 0 <= q) ps ->
  exists p', forZ 0 count (fun i pool =>
      p ← rd pages i; '(pool, _) ← garry_pool_flush_page pool p; Some pool) p = Some p' /\
    ready n pins [] p' /\ keeps p p' /\ (forall q, find_slot p' q = find_slot p q) /\
    Forall (on_disk p') ps.
Proof.
  intros Hr Hs HF. pose proof (slice_is_Some _ _ _ _ Hs) as (_ & Hc & _ & Hl).
  edestruct (forZ_inv (fun i q => ready n pins [] q /\ keeps p q /\
    (forall x, find_slot q x = find_slot p x) /\ Forall (on_disk q) (take (Z.to_nat i) ps)) 0 count)
    as (p' & E & Hr' & Hk & Hf & Hd); [done| | |exists p'; rewrite E].
  - split; [done|]. split; [done|]. split; [done|constructor].
  - intros i q Hi (Hrq & Hkq & Hfq & Hdq).
    destruct (lookup_lt_is_Some_2 ps (Z.to_nat i)) as [x Hx]; [unfold zlen in Hl; lia|].
    pose proof (rd_slice _ _ _ _ i Hs Hi) as Hri. rewrite Z.add_0_l in Hri.
    rewrite <- Hri. unfold rd. rewrite decide_True, Hx by lia. cbn [mbind option_bind].
    pose proof (Forall_lookup_1 _ _ _ _ HF Hx) as Hx0.
    destruct (flush_page_ready n pins [] q x Hrq Hx0) as (q' & -> & Hr' & Hk' & Hf' & Hx' & Hkeep);
      [apply not_elem_of_nil|].
    cbn [mbind option_bind]. eexists. split; [done|]. split; [done|]. split; [by transitivity q|].
    split; [intros; by rewrite Hf'|]. replace (Z.to_nat (i + 1)) with (S (Z.to_nat i)) by lia.
    rewrite (take_S_r _ _ _ Hx). apply Forall_app. split; [|by constructor].
    rewrite Forall_forall in Hdq |- *. intros y Hy. apply Hkeep; [|by apply Hdq].
    rewrite Forall_forall in HF. apply HF. by eapply elem_of_take in Hy as (? & ? & _); eapply list_elem_of_lookup_2.
  - split; [done|]. split; [done|]. split; [done|]. split; [done|].
    by rewrite take_ge in Hd by (unfold zlen in Hl; lia).
Qed.

Lemma fetch_slot eng ts txn k t :
  txns_rep eng ts -> slot_of ts txn = Some k -> ts !! k = Some t ->
  rd (e_txn_states eng) (Z.of_nat k) = Some t.
Proof.
  intros Hr Hk Ht. pose proof (lookup_lt_Some _ _ _ Ht).
  rewrite (txns_rd_states eng ts) by (done || unfold zlen; lia). by rewrite rd_lookup.
Qed.

(** The entry of a transaction in the table. *)
Definition txn_entry (ts : list garry_txn_info) (txn : Z) : option garry_txn_info :=
  slot_of ts txn ≫= fun k => ts !! k.

Lemma copy_pages (src : list Z) count :
  0 <= count <= GARRY_MAX_MODIFIED_PAGES -> zlen src = GARRY_MAX_MODIFIED_PAGES ->
  exists pages, forZ 0 count (fun i pages => p ← rd src i; wr pages i p) (zeros GARRY_MAX_MODIFIED_PAGES)
      = Some pages /\ slice pages 0 count = Some (take (Z.to_nat count) src).
Proof.
  unfold GARRY_MAX_MODIFIED_PAGES. intros Hc Hz.
  assert (Hs : slice src 0 count = Some (take (Z.to_nat count) src)) by (rewrite slice_Some by lia; done).
  pose proof (slice_is_Some _ _ _ _ Hs) as (_ & _ & _ & Hl).
  assert (Hz0 : zlen (zeros 16) = 16) by done.
  pose proof (copy_loop_slice (zeros 16) src 0 0 count _ Hs) as E.
  unfold copy_loop in E.
  rewrite (forZ_ext _ _ (fun i pages => p ← rd src i; wr pages i p)
    (fun j d => x ← rd src (0 + j); wr d (0 + j) x)) by (intros; by rewrite !Z.add_0_l).
  rewrite E by lia. destruct (blit_ok (zeros 16) 0 (take (Z.to_nat count) src)) as (b & Hb & _); [lia..|].
  exists b. split; [done|]. apply slice_blit in Hb. by rewrite Hl in Hb.
Qed.

(** The fields that the transaction table, the locks and the pool leave alone. *)
Definition same_but_txns (e e' : garry_engine_handle) : Prop :=
  e' = set_pool (set_lock_mgr (set_txns e (e_active_txns e') (e_active_count e') (e_txn_states e'))
         (e_lock_mgr e')) (e_pool e').

(** What the table invariant depends on. *)
Lemma txns_rep_fields e e' ts :
  txns_rep e ts -> e_active_txns e' = e_active_txns e -> e_active_count e' = e_active_count e ->
  e_txn_states e' = e_txn_states e -> e_max_txns e' = e_max_txns e -> e_next_txid e' = e_next_txid e ->
  txns_rep e' ts.
Proof. intros [] E1 E2 E3 E4 E5. split; rewrite ?E1, ?E2, ?E3, ?E4, ?E5; done. Qed.

Lemma filter_replaced (ts : list garry_txn_info) (k : nat) t t' txn :
  ts !! k = Some t -> ti_txid t = txn -> ti_txid t' = txn ->
  filter (fun u => ti_txid u <> txn) (<[k:=t']> ts) = filter (fun u => ti_txid u <> txn) ts.
Proof.
  intros Hk Ht Ht'. revert k Hk. induction ts as [|u ts IH]; intros [|k] Hk; [done..| |].
  - injection Hk as ->. change (<[0%nat:=t']> (t :: ts)) with (t' :: ts).
    by rewrite !filter_cons_False by tauto.
  - change (<[S k:=t']> (u :: ts)) with (u :: <[k:=t']> ts). rewrite !filter_cons, (IH k Hk). done.
Qed.

Lemma commit_spec n pins eng ts txn :
  txns_rep eng ts -> ready n pins [] (e_pool eng) ->
  exists eng', garry_mvcc_commit eng txn = Some eng' /\
    txns_rep eng' (filter (fun t => ti_txid t <> txn) ts) /\ same_but_txns eng eng' /\
    e_lock_mgr eng' = garry_lock_release (e_lock_mgr eng) txn /\
    ready n pins [] (e_pool eng') /\ keeps (e_pool eng) (e_pool eng') /\
    (forall q, find_slot (e_pool eng') q = find_slot (e_pool eng) q) /\
    forall t, txn_entry ts txn = Some t ->
      Forall (on_disk (e_pool eng')) (take (Z.to_nat (ti_modified_count t)) (ti_modified_pages t)).
Proof.
  intros Hr Hp. unfold garry_mvcc_commit. rewrite (find_txn_slot_spec eng ts txn Hr). cbn [mbind option_bind].
  unfold txn_entry. pose proof (slot_of_spec ts txn) as Hs.
  destruct (slot_of ts txn) as [k|] eqn:Ek; cbn [fmap option_fmap option_map default mbind option_bind];
    unfold id.
  - destruct Hs as (t & Hk & Ht & _). rewrite decide_True by lia.
    rewrite (fetch_slot eng ts txn k t Hr Ek Hk). cbn [mbind option_bind].
    pose proof (Forall_lookup_1 _ _ _ _ (tr_info _ _ Hr) Hk) as (Hmc & Hz & HF).
    rewrite decide_False by lia.
    destruct (copy_pages (ti_modified_pages t) (ti_modified_count t) Hmc Hz) as (pages & -> & Hpages).
    cbn [mbind option_bind].
    pose proof (slice_is_Some _ _ _ _ (tr_states _ _ Hr)) as (_ & _ & Hcap & _).
    pose proof (lookup_lt_Some _ _ _ Hk) as Hlt. pose proof (txns_len _ _ Hr) as Hl.
    destruct (states_update eng ts k t (TxnInfo (ti_txid t) GARRY_TXN_COMMITTED 0 (ti_modified_pages t)) Hr Hk)
      as (states & -> & Hr1); [done|split; [done|split; [done|constructor]]|]. cbn [mbind option_bind].
    destruct (remove_spec _ _ txn Hr1) as (eng' & -> & Hr' & E1). cbn [mbind option_bind].
    rewrite (filter_replaced ts k t) in Hr' by (cbn; congruence).
    destruct (flush_loop n pins (e_pool eng) pages _ _ Hp Hpages HF) as (p' & E & Hp' & Hkeep & Hf & Hd).
    assert (e_pool eng' = e_pool eng) as Hpool by (by rewrite E1).
    cbn [e_pool set_lock_mgr]. rewrite Hpool, E. cbn [mbind option_bind]. eexists. split; [done|].
    split; [by apply (txns_rep_fields eng')|].
    split; [rewrite E1; by destruct eng|]. split; [by rewrite E1|]. split; [done|]. split; [done|].
    split; [done|]. intros t'. cbn. rewrite Hk. by intros [= <-].
  - rewrite decide_False by lia. cbn [mbind option_bind].
    destruct (flush_loop n pins (e_pool eng) (zeros GARRY_MAX_MODIFIED_PAGES) [] 0) as (p' & E & Hp' & Hk & Hf & _);
      [done|vm_compute; reflexivity|constructor|].
    cbn [e_pool set_lock_mgr]. rewrite E. cbn [mbind option_bind]. eexists. split; [done|].
    rewrite filter_all.
    + split; [by apply (txns_rep_fields eng)|]. split; [by destruct eng|]. done.
    + intros u Hu E'. apply Hs. rewrite <- E'. apply list_elem_of_fmap. by exists u.
Qed.

Lemma is_active_spec eng ts txn :
  txns_rep eng ts ->
  garry_txn_is_active txn eng =
    Some (match txn_entry ts txn with Some t => bool_decide (~ rolled_back t) | None => false end).
Proof.
  intros Hr. unfold garry_txn_is_active, txn_entry. rewrite (find_txn_slot_spec eng ts txn Hr).
  cbn [mbind option_bind].
  pose proof (slot_of_spec ts txn) as Hs. destruct (slot_of ts txn) as [k|] eqn:Ek;
    cbn [fmap option_fmap option_map default mbind option_bind]; unfold id.
  - destruct Hs as (t & Hk & Ht & _). rewrite decide_True by lia.
    by rewrite (fetch_slot eng ts txn k t Hr Ek Hk), Hk.
  - by rewrite decide_False by lia.
Qed.

(** A transaction begins unless [e_max_txns] transactions are running or the
    table is full: it gets an id greater than the id of every transaction in the
    table and is entered last, with no modified pages; the pool, the locks and the
    log are left alone.  A refused begin returns -1 and changes nothing. *)
Theorem begin_correct eng ts :
  txns_rep eng ts -> e_next_txid eng < 2 ^ 31 - 1 ->
  exists eng' r, garry_mvcc_begin eng = Some (eng', r) /\
    if decide (can_begin eng ts) then
      (exists pages, txns_rep eng' (ts ++ [TxnInfo r GARRY_TXN_ACTIVE 0 pages])) /\
      Forall (fun t => ti_txid t < r) ts /\ garry_txn_is_active r eng' = Some true /\
      e_pool eng' = e_pool eng
    else r = -1 /\ eng' = eng.
Proof.
  intros Hr Hnext. destruct (begin_spec eng ts Hr Hnext) as (eng' & r & E & H). exists eng', r. split; [done|].
  destruct (decide (can_begin eng ts)); [|done]. destruct H as (-> & Hpool & _ & _ & pages & Hr').
  split; [by exists pages|]. pose proof (tr_sorted _ _ Hr) as Hs.
  assert (Hlt : Forall (fun t => ti_txid t < e_next_txid eng) ts).
  { clear -Hs. induction ts as [|t ts IH]; [constructor|]. cbn [map app] in Hs.
    apply StronglySorted_inv in Hs as [Hs HF]. constructor; [|by apply IH].
    apply Forall_app in HF as [_ HF]. by apply Forall_cons in HF as [? _]. }
  split; [done|]. split; [|done]. rewrite (is_active_spec _ _ _ Hr').
  pose proof (slot_of_spec (ts ++ [TxnInfo (e_next_txid eng) GARRY_TXN_ACTIVE 0 pages]) (e_next_txid eng)) as Hs'.
  unfold txn_entry. destruct (slot_of _ _) as [k|]; cbn [mbind option_bind].
  - destruct Hs' as (t & Hk & Ht & _). rewrite Hk. f_equal. apply bool_decide_eq_true.
    apply lookup_app_Some in Hk as [Hk|[_ Hk]].
    + pose proof (Forall_lookup_1 _ _ _ _ Hlt Hk). cbn in *. lia.
    + apply list_elem_of_lookup_2, list_elem_of_singleton in Hk as ->. by unfold rolled_back.
  - destruct Hs'. rewrite map_app. apply elem_of_app. right. by left.
Qed.
