(* ===== verification/MvccStore.v ===== *)
(** The transactions as a multi-version store: the chain pages in the buffer
    pool are lists of cells (who wrote what), a set or a delete appends a cell, a
    get reads the newest visible one, and the theorems of snapshot isolation
    follow from the lists.  Properties of [src/src/transaction.c] over the
    definitions of [Transaction]. *)

From S2P Require Import Prelude Endian FileIo BufferPool PoolClient SlottedPage VersionChain.
From S2P Require Import Overflow LockTable DbHeader WalLog Transaction.
From Stdlib Require Import Sorted.

(** * The table: rollback and the lists of modified pages *)

Definition with_state (s : garry_txn_state) (t : garry_txn_info) : garry_txn_info :=
  TxnInfo (ti_txid t) s 0 (ti_modified_pages t).

(** [alter] at the transaction's slot. *)
Definition alter_txn (f : garry_txn_info -> garry_txn_info) (ts : list garry_txn_info) (txn : Z)
  : list garry_txn_info :=
  match slot_of ts txn with Some k => alter f k ts | None => ts end.

Definition noted (pid : Z) (t : garry_txn_info) : garry_txn_info :=
  if decide (ti_modified_count t < GARRY_MAX_MODIFIED_PAGES)
  then TxnInfo (ti_txid t) (ti_state t) (ti_modified_count t + 1)
         (<[Z.to_nat (ti_modified_count t):=pid]> (ti_modified_pages t))
  else t.

Lemma noted_txid pid t : ti_txid (noted pid t) = ti_txid t.
Proof. unfold noted. by case_decide. Qed.

Lemma alter_txn_lookup f ts txn k t :
  slot_of ts txn = Some k -> ts !! k = Some t -> alter_txn f ts txn = <[k:=f t]> ts.
Proof.
  unfold alter_txn. intros -> Ht. revert k Ht. induction ts as [|u ts IH]; intros [|k] Ht; [done..| |].
  - by injection Ht as ->.
  - change (u :: alter f k ts = u :: <[k:=f t]> ts). by rewrite (IH k Ht).
Qed.

Lemma alter_txn_map f ts txn :
  (forall t, ti_txid (f t) = ti_txid t) -> map ti_txid (alter_txn f ts txn) = map ti_txid ts.
Proof.
  intros Hf. unfold alter_txn. destruct (slot_of ts txn) as [k|]; [|done].
  revert k. induction ts as [|u ts IH]; intros [|k]; [done..| |]; cbn.
  - by rewrite Hf.
  - f_equal. apply IH.
Qed.

Lemma alter_txn_entry f ts txn t :
  (forall t, ti_txid (f t) = ti_txid t) -> txn_entry ts txn = Some t ->
  txn_entry (alter_txn f ts txn) txn = Some (f t).
Proof.
  intros Hf. unfold txn_entry, alter_txn. destruct (slot_of ts txn) as [k|] eqn:Ek; [|done].
  cbn. revert k Ek. induction ts as [|u ts IH]; intros k Ek Ht; [done|]. cbn [slot_of] in Ek.
  destruct (decide (ti_txid u = txn)) as [Hd|Hd].
  - injection Ek as <-. injection Ht as ->. cbn. rewrite decide_True by (by rewrite Hf). done.
  - destruct (slot_of ts txn) as [j|]; [|done]. injection Ek as <-.
    change (alter f (S j) (u :: ts)) with (u :: alter f j ts). cbn [slot_of]. rewrite decide_False by done.
    specialize (IH j eq_refl Ht). by destruct (slot_of (alter f j ts) txn).
Qed.

(** The pages a transaction has entered. *)
Definition noted_pages (t : garry_txn_info) : list Z :=
  take (Z.to_nat (ti_modified_count t)) (ti_modified_pages t).

Lemma noted_in pid t :
  0 <= ti_modified_count t < GARRY_MAX_MODIFIED_PAGES ->
  zlen (ti_modified_pages t) = GARRY_MAX_MODIFIED_PAGES ->
  noted_pages (noted pid t) = noted_pages t ++ [pid].
Proof.
  intros Hc Hz. unfold noted_pages, noted. rewrite decide_True by lia. cbn.
  replace (Z.to_nat (ti_modified_count t + 1)) with (S (Z.to_nat (ti_modified_count t))) by lia.
  rewrite (take_S_r _ _ pid) by (apply list_lookup_insert_eq; unfold zlen in *; lia).
  by rewrite take_insert_ge.
Qed.

(** A page is entered while there is room for it. *)
Lemma noted_ok pid t :
  0 <= pid -> 0 <= ti_modified_count t <= GARRY_MAX_MODIFIED_PAGES ->
  zlen (ti_modified_pages t) = GARRY_MAX_MODIFIED_PAGES ->
  Forall (fun q => 0 <= q) (noted_pages t) ->
  0 <= ti_modified_count (noted pid t) <= GARRY_MAX_MODIFIED_PAGES /\
  zlen (ti_modified_pages (noted pid t)) = GARRY_MAX_MODIFIED_PAGES /\
  Forall (fun q => 0 <= q) (noted_pages (noted pid t)).
Proof.
  intros Hp Hc Hz HF. destruct (decide (ti_modified_count t < GARRY_MAX_MODIFIED_PAGES)) as [Hd|Hd].
  - rewrite noted_in by lia. split; [|split].
    + unfold noted. rewrite decide_True by done. cbn. lia.
    + unfold noted. rewrite decide_True by done. cbn. by rewrite zlen_insert.
    + apply Forall_app. by repeat constructor.
  - unfold noted. by rewrite decide_False by done.
Qed.

Lemma rollback_spec eng ts txn :
  txns_rep eng ts ->
  exists eng', garry_mvcc_rollback eng txn = Some eng' /\
    txns_rep eng' (alter_txn (with_state GARRY_TXN_ROLLED_BACK) ts txn) /\ same_but_txns eng eng' /\
    e_pool eng' = e_pool eng /\ e_lock_mgr eng' = garry_lock_release (e_lock_mgr eng) txn.
Proof.
  intros Hr. unfold garry_mvcc_rollback. rewrite (find_txn_slot_spec eng ts txn Hr). cbn [mbind option_bind].
  pose proof (slot_of_spec ts txn) as Hs. destruct (slot_of ts txn) as [k|] eqn:Ek;
    cbn [fmap option_fmap option_map default]; unfold id.
  - destruct Hs as (t & Hk & Ht & _). rewrite decide_True by lia.
    rewrite (fetch_slot eng ts txn k t Hr Ek Hk). cbn [mbind option_bind].
    pose proof (Forall_lookup_1 _ _ _ _ (tr_info _ _ Hr) Hk) as (Hmc & Hz & HF).
    destruct (states_update eng ts k t (with_state GARRY_TXN_ROLLED_BACK t) Hr Hk) as (states & E & Hr');
      [done|by repeat (split || constructor)|].
    unfold with_state at 1 in E. rewrite E. cbn [mbind option_bind]. eexists. split; [done|].
    rewrite (alter_txn_lookup _ ts txn k t Ek Hk).
    split; [by eapply txns_rep_fields|]. split; [by destruct eng|]. done.
  - rewrite decide_False by lia. cbn [mbind option_bind]. eexists. split; [done|].
    unfold alter_txn. rewrite Ek. split; [by apply (txns_rep_fields eng)|]. split; [by destruct eng|]. done.
Qed.

Lemma note_modified_spec n pins eng ts txn pid :
  txns_rep eng ts -> ready n pins [pid] (e_pool eng) -> pid ∈ pins -> 0 <= pid ->
  exists eng', note_modified eng txn pid = Some eng' /\ txns_rep eng' (alter_txn (noted pid) ts txn) /\
    same_but_txns eng eng' /\ e_lock_mgr eng' = e_lock_mgr eng /\ ready n pins [] (e_pool eng') /\
    keeps (e_pool eng) (e_pool eng') /\ stable pins (e_pool eng) (e_pool eng').
Proof.
  intros Hr Hp Hin Hpid. unfold note_modified.
  destruct (mark_dirty_ready n pins [] (e_pool eng) pid Hp Hin) as (p' & -> & Hp' & Hk & Hf).
  change (filter (fun q => q <> pid) []) with (@nil Z) in Hp'. cbn [mbind option_bind].
  assert (Hst : stable pins (e_pool eng) p') by (intros q i _ Hq; by rewrite Hf).
  assert (Hr1 : txns_rep (set_pool eng p') ts) by (by apply (txns_rep_fields eng)).
  rewrite (find_txn_slot_spec _ ts txn Hr1). cbn [mbind option_bind].
  pose proof (slot_of_spec ts txn) as Hs. destruct (slot_of ts txn) as [k|] eqn:Ek;
    cbn [fmap option_fmap option_map default]; unfold id.
  - destruct Hs as (t & Hlk & Ht & _). rewrite decide_True by lia.
    rewrite (fetch_slot _ ts txn k t Hr1 Ek Hlk). cbn [mbind option_bind].
    pose proof (Forall_lookup_1 _ _ _ _ (tr_info _ _ Hr) Hlk) as (Hmc & Hz & HF).
    rewrite (alter_txn_lookup _ ts txn k t Ek Hlk).
    destruct (decide (ti_modified_count t < GARRY_MAX_MODIFIED_PAGES)) as [Hd|Hd].
    + rewrite wr_Some by lia. cbn [mbind option_bind].
      destruct (states_update _ ts k t (noted pid t) Hr1 Hlk) as (states & E & Hr');
        [unfold noted; by case_decide|by apply noted_ok|].
      assert (En : noted pid t = TxnInfo (ti_txid t) (ti_state t) (ti_modified_count t + 1)
         (<[Z.to_nat (ti_modified_count t):=pid]> (ti_modified_pages t)))
        by (unfold noted; by rewrite decide_True).
      rewrite <- En, E. cbn [mbind option_bind]. eexists. split; [done|].
      split; [done|]. split; [by destruct eng|]. done.
    + eexists. split; [done|]. replace (noted pid t) with t by (unfold noted; by rewrite decide_False).
      rewrite list_insert_id by done. split; [done|]. split; [by destruct eng|]. done.
  - rewrite decide_False by lia. eexists. split; [done|]. unfold alter_txn. rewrite Ek.
    split; [done|]. split; [by destruct eng|]. done.
Qed.

(** * Chains as lists of cells *)

(** A cell: the writing transaction, its value ([None] for a deletion) and the
    overflow pages that hold the value, none when it is inline. *)
Record cell := Cell { c_txn : Z; c_value : option (list Z); c_pages : list Z }.

Definition cell_of (view : Z -> list Z) (cap : Z) (v : VersionChain.version) (c : cell) : Prop :=
  v_created v = c_txn c /\ v_deleted v = 0 /\
  match v_body v with
  | Tombstone => c_value c = None /\ c_pages c = []
  | Inline b => c_value c = Some b /\ c_pages c = []
  | Overflow len h => h = default (-1) (head (c_pages c)) /\ c_pages c <> [] /\
      exists data, c_value c = Some data /\ len = zlen data /\ ovf_chain view cap (c_pages c) data
  end.

Definition chain_pages (cells : list cell) : list Z := concat (map c_pages cells).

(** [chain_at p pid cells]: the page [pid] of the pool's page map is a chain page
    with these cells, oldest first; the overflow pages are other pages. *)
Record chain_at (p : garry_buffer_pool) (pid : Z) (cells : list cell) : Prop := {
  ch_range : 0 <= pid < p_next_page p;
  ch_pages : Forall (fun q => q < p_next_page p /\ q <> pid) (chain_pages cells);
  ch_rep : exists vs, chain_rep (p_page_size p) (pool_view p pid) vs /\
    Forall2 (cell_of (pool_view p) (garry_overflow_chunk_size (p_page_size p))) vs cells
}.

Definition cell_visible (snap : Z) (act : list Z) (c : cell) : Prop :=
  c_txn c <= snap /\ ~ (c_txn c ∈ act /\ c_txn c <> snap).
#[export] Instance cell_visible_dec snap act c : Decision (cell_visible snap act c) := and_dec _ _.
#[global] Typeclasses Opaque cell_visible.

(** What a transaction reads in a chain: the newest visible cell. *)
Definition read_cells (snap : Z) (act : list Z) (cells : list cell) : option (list Z) :=
  last (filter (cell_visible snap act) cells) ≫= c_value.

Definition cell_size (c : cell) : Z :=
  14 + match c_value c, c_pages c with
       | None, _ => 0
       | Some b, [] => zlen b
       | Some _, _ => 4
       end.

(** Whether a chain page has room for a record of [n] bytes. *)
Definition chain_fits (ps : Z) (cells : list cell) (n : Z) : Prop :=
  zlen cells < GARRY_MAX_SLOTS /\
  GARRY_PAGE_HEADER_SIZE + GARRY_SLOT_SIZE * (zlen cells + 1) + foldr Z.add 0 (map cell_size cells) + n
    <= ps.
#[export] Instance chain_fits_dec ps cells n : Decision (chain_fits ps cells n) := and_dec _ _.

Lemma cell_tombstone view cap txn : cell_of view cap (Version txn 0 Tombstone) (Cell txn None []).
Proof. by repeat split. Qed.

Lemma cell_inline view cap txn b : cell_of view cap (Version txn 0 (Inline b)) (Cell txn (Some b) []).
Proof. by repeat split. Qed.

Lemma cell_overflow view cap txn data pids :
  pids <> [] -> ovf_chain view cap pids data ->
  cell_of view cap (Version txn 0 (Overflow (zlen data) (default (-1) (head pids)))) (Cell txn (Some data) pids).
Proof. intros Hp Hd. split; [done|]. split; [done|]. split; [done|]. split; [done|]. by exists data. Qed.

Lemma cell_of_visible view cap v c snap act :
  cell_of view cap v c -> visible_to snap act v <-> cell_visible snap act c.
Proof. intros (E1 & E2 & _). unfold visible_to, cell_visible. rewrite E1, E2. split; [tauto|].
  intros [? ?]. split; [done|]. split; [intros [[] _]; done|done]. Qed.

Lemma cell_of_ext view view' cap v c :
  (forall q, q ∈ c_pages c -> view' q = view q) -> cell_of view cap v c -> cell_of view' cap v c.
Proof.
  intros H (? & ? & Hb). split; [done|]. split; [done|].
  destruct (v_body v) as [b|len h|]; [exact Hb| |exact Hb].
  destruct Hb as (? & ? & data & ? & ? & Hd). split; [done|]. split; [done|]. exists data.
  split; [done|]. split; [done|]. by apply (ovf_chain_ext view).
Qed.

Lemma cell_of_size view cap v c : cell_of view cap v c -> zlen (encode_version v) = cell_size c.
Proof.
  intros (_ & _ & Hb). rewrite zlen_encode. unfold cell_size. destruct (v_body v) as [b|len h|]; cbn [body_bytes].
  - destruct Hb as [E1 E2]. by rewrite ?E1, ?E2.
  - destruct Hb as (_ & Hne & data & -> & _). by destruct (c_pages c).
  - destruct Hb as [E1 E2]. by rewrite ?E1, ?E2.
Qed.

Lemma chain_pages_snoc cells c : chain_pages (cells ++ [c]) = chain_pages cells ++ c_pages c.
Proof. unfold chain_pages. rewrite map_app, concat_app. cbn [map concat]. by rewrite app_nil_r. Qed.

Lemma elem_of_chain_pages cells c q : c ∈ cells -> q ∈ c_pages c -> q ∈ chain_pages cells.
Proof.
  unfold chain_pages. intros Hc Hq. apply list_elem_of_In, in_concat.
  exists (c_pages c). split; [apply in_map; by apply list_elem_of_In|by apply list_elem_of_In].
Qed.

Lemma chain_fits_rep view cap ps vs cells n :
  Forall2 (cell_of view cap) vs cells -> page_fits ps (map encode_version vs) n <-> chain_fits ps cells n.
Proof.
  intros HF. unfold page_fits, chain_fits.
  assert (Hl : zlen (map encode_version vs) = zlen cells)
    by (unfold zlen; rewrite length_map; f_equal; by eapply Forall2_length).
  assert (Hs : recs_len (map encode_version vs) = foldr Z.add 0 (map cell_size cells)).
  { clear Hl. induction HF as [|v c vs cells Hc HF IH]; [done|].
    change (zlen (encode_version v ++ concat (map encode_version vs)) =
      cell_size c + foldr Z.add 0 (map cell_size cells)). unfold recs_len in IH.
    by rewrite zlen_app, IH, (cell_of_size _ _ _ _ Hc). }
  rewrite Hl, Hs. done.
Qed.

Lemma cells_ext view view' cap vs cells :
  (forall q, q ∈ chain_pages cells -> view' q = view q) -> Forall2 (cell_of view cap) vs cells ->
  Forall2 (cell_of view' cap) vs cells.
Proof.
  intros H HF. assert (Hin : forall c q, c ∈ cells -> q ∈ c_pages c -> view' q = view q).
  { intros c q Hc Hq. by apply H, (elem_of_chain_pages cells c). }
  clear H. induction HF as [|v c vs cells Hc HF IH]; [constructor|]. constructor.
  - eapply cell_of_ext; [|done]. intros q Hq. by apply (Hin c q); [left|].
  - apply IH. intros c' q ? ?. by apply (Hin c' q); [right|].
Qed.

(** A chain is kept by an operation that keeps its pages. *)
Lemma chain_at_frame p p' pid cells :
  chain_at p pid cells -> p_page_size p' = p_page_size p -> p_next_page p <= p_next_page p' ->
  (forall q, q = pid \/ q ∈ chain_pages cells -> pool_view p' q = pool_view p q) -> chain_at p' pid cells.
Proof.
  intros [Hr Hp (vs & Hrep & HF)] Hps Hn Hv. split; [lia| |].
  - eapply Forall_impl; [done|]. cbn. lia.
  - exists vs. rewrite Hps, Hv by tauto. split; [done|].
    apply (cells_ext (pool_view p)); [|done]. intros q Hq. apply Hv. by right.
Qed.

(** * Reading *)

Lemma newest_visible view cap vs cells snap act :
  Forall2 (cell_of view cap) vs cells ->
  match last (filter (cell_visible snap act) cells) with
  | None => snapshot_version snap act vs = None
  | Some c => c ∈ cells /\ exists v, snapshot_version snap act vs = Some v /\ cell_of view cap v c
  end.
Proof.
  revert cells. induction vs as [|v vs IH] using rev_ind; intros cells HF.
  - by apply Forall2_nil_inv_l in HF as ->.
  - apply Forall2_app_inv_l in HF as (cells' & cs & HF & Hc & ->).
    apply Forall2_cons_inv_l in Hc as (c & ? & Hc & ->%Forall2_nil_inv_l & ->).
    rewrite filter_app, filter_cons, snapshot_version_snoc. change (filter _ []) with (@nil cell).
    pose proof (cell_of_visible _ _ _ _ snap act Hc) as Hv.
    destruct (decide (cell_visible snap act c)) as [Hd|Hd].
    + rewrite last_snoc, decide_True by tauto. split; [apply elem_of_app; right; by left|]. by exists v.
    + rewrite app_nil_r, decide_False by tauto. specialize (IH _ HF).
      destruct (last _) as [c'|]; [|done]. destruct IH as [Hin ?].
      split; [apply elem_of_app; by left|done].
Qed.

Lemma zeros_snoc n : 0 <= n -> zeros (n + 1) = zeros n ++ [0].
Proof. intros Hn. unfold zeros. rewrite Z2Nat.inj_add, replicate_add by lia. done. Qed.

Lemma chain_pages_budget cells c : c ∈ cells -> zlen (c_pages c) <= zlen (chain_pages cells).
Proof.
  intros (l1 & l2 & ->)%list_elem_of_split. unfold chain_pages. rewrite map_app, concat_app. cbn [map concat].
  rewrite !zlen_app. pose proof (zlen_nonneg (concat (map c_pages l1))).
  pose proof (zlen_nonneg (concat (map c_pages l2))). lia.
Qed.

(** The bytes of a result: the value and a final NUL, with the length. *)
Definition c_string (b : list Z) : list Z * Z := (b ++ [0], zlen b).

Lemma find_visible_cells n pins p pid cells snap active cnt act :
  ready (n + 2 * zlen (chain_pages cells)) pins [] p -> 0 <= n -> zlen pins < p_capacity p ->
  chain_at p pid cells -> slice active 0 cnt = Some act ->
  exists p', garry_chain_page_find_visible all_reads p (pool_view p pid) (p_page_size p) snap active cnt =
      Some (p', c_string <$> read_cells snap act cells) /\
    ready n pins [] p' /\ keeps p p' /\ stable pins p p'.
Proof.
  intros Hr Hn Hc [Hrg Hpg (vs & Hrep & HF)] Hact.
  pose proof (find_visible_spec _ p _ vs snap active cnt act Hrep Hact) as Hfv. cbn zeta in Hfv.
  pose proof (newest_visible _ _ _ _ snap act HF) as Hnv. unfold read_cells.
  assert (Hr0 : ready n pins [] p) by (eapply ready_le; [done|]; pose proof (zlen_nonneg (chain_pages cells)); lia).
  destruct (last (filter (cell_visible snap act) cells)) as [c|]; cbn [mbind option_bind];
    [|rewrite Hnv in Hfv; exists p; split; [exact Hfv|]; by (split; [|split])].
  destruct Hnv as (Hin & v & Ev & (_ & _ & Hb)). rewrite Ev in Hfv.
  destruct (v_body v) as [b|len h|].
  - destruct Hb as [-> _]. exists p. split; [exact Hfv|]. by (split; [|split]).
  - destruct Hb as (-> & _ & data & -> & -> & Hch). pose proof (chain_pages_budget _ _ Hin).
    pose proof (zlen_nonneg data).
    destruct (overflow_read_spec n pins p (c_pages c) data (zeros (zlen data + 1)))
      as (p' & out' & E & Hbl & Hr' & Hk & Hst); [eapply ready_le; [exact Hr|];
        pose proof (zlen_nonneg (c_pages c)); lia|done|done|done| |rewrite zlen_zeros by lia; lia|].
    { rewrite Forall_forall in Hpg |- *. intros q Hq. apply Hpg. by apply (elem_of_chain_pages cells c). }
    rewrite zeros_snoc in Hbl by done.
    pose proof (blit_app [] (zeros (zlen data)) [0] 0 data eq_refl) as Hba. cbn [app] in Hba.
    rewrite Hba in Hbl by (by rewrite zlen_zeros). injection Hbl as <-.
    rewrite (Hfv p' data E eq_refl). exists p'. done.
  - destruct Hb as [-> _]. exists p. split; [exact Hfv|]. by (split; [|split]).
Qed.

Lemma mvcc_get_spec n pins eng txn pid cells act :
  ready (n + 2 + 2 * zlen (chain_pages cells)) pins [] (e_pool eng) -> 0 <= n ->
  zlen pins + 1 < p_capacity (e_pool eng) -> e_page_size eng = p_page_size (e_pool eng) ->
  slice (e_active_txns eng) 0 (e_active_count eng) = Some act -> chain_at (e_pool eng) pid cells ->
  exists p', garry_mvcc_get all_reads eng txn pid = Some (set_pool eng p', c_string <$> read_cells txn act cells) /\
    ready n pins [] p' /\ keeps (e_pool eng) p' /\ stable pins (e_pool eng) p'.
Proof.
  intros Hr Hn Hc Hps Hact Hch. unfold garry_mvcc_get. pose proof (zlen_nonneg (chain_pages cells)).
  destruct (pin_page_ready (n + 2 * zlen (chain_pages cells)) pins [] (e_pool eng) pid)
    as (p1 & i & -> & Hr1 & Hk1 & Hst1 & Hf1 & Hsp1);
    [by replace (n + 2 * zlen (chain_pages cells) + 2) with (n + 2 + 2 * zlen (chain_pages cells)) by lia
    |lia|lia|apply Hch|].
  cbn [mbind option_bind]. rewrite Hsp1. cbn [mbind option_bind].
  assert (Hch1 : chain_at p1 pid cells).
  { apply (chain_at_frame (e_pool eng)); [done|apply Hk1|by rewrite (kp_next _ _ Hk1)|].
    intros q _. apply Hk1. }
  rewrite <- (kp_view _ _ Hk1), Hps, <- (kp_page_size _ _ Hk1).
  destruct (find_visible_cells n (pid :: pins) p1 pid cells txn (e_active_txns eng) (e_active_count eng) act)
    as (p2 & -> & Hr2 & Hk2 & Hst2); [done|done|rewrite zlen_cons, (kp_capacity _ _ Hk1); lia|done|done|].
  cbn [mbind option_bind].
  destruct (release_ready n pid pins [] p2 Hr2) as (p3 & -> & Hr3 & Hk3 & Hf3); [apply not_elem_of_nil|].
  cbn [mbind option_bind]. exists p3. split; [done|]. split; [done|]. split; [by rewrite Hk1, Hk2|].
  rewrite Hst1. rewrite (stable_cons _ _ _ _ Hst2). intros q j _ Hq. by rewrite Hf3.
Qed.

(** * Writing *)

(** What a write of [c] does to the store: the chain gets the cell when its page
    has room for a record of [size] bytes; every other chain is kept. *)
Record written_cell (p : garry_buffer_pool) (pid : Z) (cells : list cell) (c : cell) (size : Z)
    (p' : garry_buffer_pool) (ok : bool) : Prop := {
  wc_ok : ok = bool_decide (chain_fits (p_page_size p) cells size);
  wc_chain : chain_at p' pid (if ok then cells ++ [c] else cells);
  wc_fresh : Forall (fun q => p_next_page p <= q) (c_pages c);
  wc_capacity : p_capacity p' = p_capacity p;
  wc_page_size : p_page_size p' = p_page_size p;
  wc_next : p_next_page p <= p_next_page p';
  wc_view : forall q, q < p_next_page p -> q <> pid -> pool_view p' q = pool_view p q
}.

Lemma written_cell_others p pid cells c size p' ok pid' cells' :
  written_cell p pid cells c size p' ok -> chain_at p pid' cells' -> pid' <> pid ->
  (pid ∉ chain_pages cells') -> chain_at p' pid' cells'.
Proof.
  intros [_ _ _ _ Hps Hn Hv] Hch Hne Hni. apply (chain_at_frame p); [done..|].
  pose proof (ch_pages _ _ _ Hch) as Hp. rewrite Forall_forall in Hp.
  intros q [->|Hq]; apply Hv; [apply Hch|done|by apply Hp|by intros ->].
Qed.

(** Writing a page with its own content changes nothing. *)
Lemma set_same_page p i b : slot_page p i = Some b -> set_slot_page p i b = Some p.
Proof.
  unfold slot_page, set_slot_page, upd_slot. destruct (rd (p_slots p) i) as [s|] eqn:E; [|done].
  cbn. intros [= <-]. pose proof (rd_Some_range _ _ _ E) as Hrg.
  rewrite wr_Some by done. cbn. f_equal. destruct p. unfold set_slots. cbn in *. f_equal.
  apply list_insert_id. unfold rd in E. rewrite decide_True in E by lia. by destruct s.
Qed.

(** The end of a set or a delete: the page of the slot is replaced by [buf], and
    noted when the append succeeded. *)
Definition finish_write (eng : garry_engine_handle) (pool : garry_buffer_pool) (txn pid idx : Z)
    (buf : list Z) (ok : bool) : option (garry_engine_handle * bool) :=
  pool ← set_slot_page pool idx buf;
  let eng := set_pool eng pool in
  eng ← (if ok : bool then note_modified eng txn pid else Some eng);
  pool ← garry_pool_release_page (e_pool eng) pid;
  Some (set_pool eng pool, ok).

Lemma finish_write_spec n pins eng p ts txn pid idx buf ok :
  txns_rep eng ts -> ready n (pid :: pins) [] p -> 0 <= pid -> find_slot p pid = Some idx ->
  zlen buf = p_page_size p -> (ok = false -> buf = pool_view p pid) ->
  exists eng', finish_write eng p txn pid idx buf ok = Some (eng', ok) /\
    txns_rep eng' (if ok then alter_txn (noted pid) ts txn else ts) /\ same_but_txns eng eng' /\
    e_lock_mgr eng' = e_lock_mgr eng /\ ready n pins [] (e_pool eng') /\
    updates pid buf p (e_pool eng') /\ stable pins p (e_pool eng').
Proof.
  intros Hr Hp Hpid Hf Hz Hb. unfold finish_write.
  assert (Hni : pid ∉ @nil Z) by apply not_elem_of_nil. destruct ok.
  - destruct (set_page_ready n (pid :: pins) [] p pid idx buf Hp) as (p1 & -> & Hp1 & Hu1 & Hf1 & _);
      [by left|done|done|]. cbn [mbind option_bind].
    destruct (note_modified_spec n (pid :: pins) (set_pool eng p1) ts txn pid)
      as (eng2 & -> & Hr2 & Hs2 & Hl2 & Hp2 & Hk2 & Hst2);
      [by apply (txns_rep_fields eng)|done|by left|done|]. cbn [mbind option_bind].
    destruct (release_ready n pid pins [] _ Hp2 Hni) as (p3 & -> & Hp3 & Hk3 & Hf3).
    cbn [mbind option_bind]. eexists. split; [done|]. split; [by apply (txns_rep_fields eng2)|].
    split; [rewrite Hs2; by destruct eng|]. split; [done|]. split; [done|].
    split; [eapply updates_keeps; [eapply updates_keeps; [done|exact Hk2]|done]|].
    intros q j Hq Hfq. cbn. rewrite Hf3. apply Hst2; [by right|]. cbn. by rewrite Hf1.
  - rewrite (Hb eq_refl) in Hz |- *. rewrite set_same_page by (by eapply slot_page_view).
    cbn [mbind option_bind]. cbn [e_pool set_pool].
    destruct (release_ready n pid pins [] _ Hp Hni) as (p3 & -> & Hp3 & Hk3 & Hf3).
    cbn [mbind option_bind]. eexists. split; [done|]. split; [by apply (txns_rep_fields eng)|].
    split; [by destruct eng|]. split; [done|]. split; [done|]. split.
    + destruct Hk3 as [K1 K2 K3 K4]. split; [done..|]. intros q. cbn. rewrite K4. by case_decide; subst.
    + intros q j _ Hq. cbn. by rewrite Hf3.
Qed.

Lemma appended_page ps b vs v buf ok :
  chain_appended ps b vs v buf ok -> zlen buf = zlen b /\ (ok = false -> buf = b).
Proof.
  unfold chain_appended. case_decide; intros Ha.
  - by destruct Ha as (-> & _ & ->).
  - by destruct Ha as (-> & ->).
Qed.

Lemma append_cell p p' pid cells vs v c buf ok :
  chain_at p pid cells -> chain_rep (p_page_size p) (pool_view p pid) vs ->
  Forall2 (cell_of (pool_view p) (garry_overflow_chunk_size (p_page_size p))) vs cells ->
  chain_appended (p_page_size p) (pool_view p pid) vs v buf ok ->
  cell_of (pool_view p) (garry_overflow_chunk_size (p_page_size p)) v c ->
  Forall (fun q => q < p_next_page p /\ q <> pid) (c_pages c) -> updates pid buf p p' ->
  ok = bool_decide (chain_fits (p_page_size p) cells (cell_size c)) /\
  chain_at p' pid (if ok then cells ++ [c] else cells).
Proof.
  intros Hch Hrep HF Happ Hc Hpg [U1 U2 U3 U4]. unfold chain_appended in Happ.
  rewrite (cell_of_size _ _ _ _ Hc) in Happ. pose proof (chain_fits_rep _ _ (p_page_size p) _ _ (cell_size c) HF) as Hfit.
  destruct (decide (page_fits (p_page_size p) (map encode_version vs) (cell_size c))) as [Hd|Hd].
  - destruct Happ as (-> & Hrep' & Hz). split; [symmetry; apply bool_decide_eq_true; tauto|].
    assert (Hext : forall q, q ∈ chain_pages (cells ++ [c]) -> pool_view p' q = pool_view p q).
    { intros q Hq. rewrite U4. rewrite decide_False; [done|]. intros ->.
      rewrite chain_pages_snoc, elem_of_app in Hq. pose proof (ch_pages _ _ _ Hch) as H2.
      rewrite Forall_forall in Hpg, H2. destruct Hq as [Hq|Hq]; [destruct (H2 _ Hq)|destruct (Hpg _ Hq)]; done. }
    split; [rewrite U3; apply Hch| |].
    + rewrite chain_pages_snoc, U3. apply Forall_app. split; [apply Hch|done].
    + exists (vs ++ [v]). rewrite U2, U4, decide_True by done. split; [done|].
      apply (cells_ext (pool_view p)); [done|]. apply Forall2_app; [done|].
      constructor; [done|constructor].
  - destruct Happ as (-> & ->). split; [symmetry; apply bool_decide_eq_false; tauto|].
    apply (chain_at_frame p); [done..|lia|]. intros q _. rewrite U4. by case_decide; subst.
Qed.

(** [grown p p']: pages may have been allocated, the others are kept. *)
Record grown (p p' : garry_buffer_pool) : Prop := {
  gr_capacity : p_capacity p' = p_capacity p;
  gr_page_size : p_page_size p' = p_page_size p;
  gr_next : p_next_page p <= p_next_page p';
  gr_view : forall q, q < p_next_page p -> pool_view p' q = pool_view p q
}.

#[export] Instance grown_preorder : PreOrder grown.
Proof.
  split.
  - intros p. by split.
  - intros p q r [H1 H2 H3 H4] [G1 G2 G3 G4]. split; [congruence..|lia|].
    intros x Hx. rewrite G4 by lia. by apply H4.
Qed.

Lemma keeps_grown p p' : keeps p p' -> grown p p'.
Proof. intros [H1 H2 H3 H4]. split; [done|done|lia|done]. Qed.

Lemma chain_at_grown p p' pid cells : grown p p' -> chain_at p pid cells -> chain_at p' pid cells.
Proof.
  intros [_ H2 H3 H4] Hch. apply (chain_at_frame p); [done..|].
  pose proof (ch_pages _ _ _ Hch) as Hp. rewrite Forall_forall in Hp.
  intros q [->|Hq]; apply H4; [apply Hch|by apply Hp].
Qed.

(** The state after a set or a delete. *)
Record wrote (n : Z) (pins : list Z) (eng : garry_engine_handle) (ts : list garry_txn_info)
    (pid : Z) (cells : list cell) (c : cell) (eng' : garry_engine_handle) (ok : bool) : Prop := {
  wr_cell : written_cell (e_pool eng) pid cells c (cell_size c) (e_pool eng') ok;
  wr_txns : txns_rep eng' (if ok then alter_txn (noted pid) ts (c_txn c) else ts);
  wr_same : same_but_txns eng eng';
  wr_locks : e_lock_mgr eng' = e_lock_mgr eng;
  wr_ready : ready n pins [] (e_pool eng');
  wr_stable : stable pins (e_pool eng) (e_pool eng')
}.

Lemma write_cell_spec n pins eng ts pid cells c v p vs idx buf ok :
  txns_rep eng ts -> chain_at (e_pool eng) pid cells -> grown (e_pool eng) p ->
  stable pins (e_pool eng) p -> ready n (pid :: pins) [] p -> find_slot p pid = Some idx ->
  chain_rep (p_page_size p) (pool_view p pid) vs ->
  Forall2 (cell_of (pool_view p) (garry_overflow_chunk_size (p_page_size p))) vs cells ->
  chain_appended (p_page_size p) (pool_view p pid) vs v buf ok ->
  cell_of (pool_view p) (garry_overflow_chunk_size (p_page_size p)) v c ->
  Forall (fun q => p_next_page (e_pool eng) <= q < p_next_page p) (c_pages c) ->
  exists eng', finish_write eng p (c_txn c) pid idx buf ok = Some (eng', ok) /\
    wrote n pins eng ts pid cells c eng' ok /\ p_next_page (e_pool eng') = p_next_page p.
Proof.
  intros Hr Hch Hg Hst Hp Hf Hrep HF Happ Hc Hpg.
  destruct (appended_page _ _ _ _ _ _ Happ) as [Hz Hsame]. rewrite (view_size _ _ _ _ pid Hp) in Hz.
  pose proof (ch_range _ _ _ Hch) as Hrg.
  destruct (finish_write_spec n pins eng p ts (c_txn c) pid idx buf ok Hr Hp (proj1 Hrg) Hf Hz Hsame)
    as (eng' & E' & Hr' & Hs' & Hl' & Hp' & Hu & Hst').
  destruct (append_cell p (e_pool eng') pid cells vs v c buf ok) as (Hok & Hch');
    [by apply (chain_at_grown (e_pool eng))|exact Hrep|exact HF|exact Happ|exact Hc| |exact Hu|].
  { eapply Forall_impl; [exact Hpg|]. cbn. lia. }
  exists eng'. split; [exact E'|]. split; [|by rewrite (up_next _ _ _ _ Hu)]. destruct Hg as [G1 G2 G3 G4]. split.
  - split.
    + by rewrite <- G2.
    + exact Hch'.
    + eapply Forall_impl; [exact Hpg|]. cbn. lia.
    + by rewrite (up_capacity _ _ _ _ Hu).
    + by rewrite (up_page_size _ _ _ _ Hu).
    + by rewrite (up_next _ _ _ _ Hu).
    + intros q Hq Hne. rewrite (up_view _ _ _ _ Hu), decide_False by done. by apply G4.
  - exact Hr'.
  - exact Hs'.
  - exact Hl'.
  - exact Hp'.
  - transitivity p; [exact Hst|exact Hst'].
Qed.

(** Pinning the chain page. *)
Lemma pin_chain n pins p pid cells :
  ready (n + 2) pins [] p -> 0 <= n -> zlen pins < p_capacity p -> chain_at p pid cells ->
  exists p' i, garry_pool_pin_page p pid = Some (p', Some i) /\ ready n (pid :: pins) [] p' /\
    keeps p p' /\ stable pins p p' /\ find_slot p' pid = Some i /\
    slot_page p' i = Some (pool_view p' pid) /\ chain_at p' pid cells.
Proof.
  intros Hp Hn Hc Hch.
  destruct (pin_page_ready n pins [] p pid Hp Hn Hc (ch_range _ _ _ Hch))
    as (p1 & i & E & Hr1 & Hk1 & Hst1 & Hf1 & Hsp1).
  exists p1, i. rewrite (kp_view _ _ Hk1). split; [exact E|]. split; [done|]. split; [done|]. split; [done|].
  split; [done|]. split; [done|]. by apply (chain_at_grown p); [apply keeps_grown|].
Qed.

Lemma mvcc_delete_spec n pins eng ts txn pid cells :
  txns_rep eng ts -> ready (n + 2) pins [] (e_pool eng) -> 0 <= n ->
  zlen pins < p_capacity (e_pool eng) -> e_page_size eng = p_page_size (e_pool eng) ->
  chain_at (e_pool eng) pid cells -> is_i32 txn ->
  exists eng' ok, garry_mvcc_delete eng txn pid = Some (eng', ok) /\
    wrote n pins eng ts pid cells (Cell txn None []) eng' ok /\
    p_next_page (e_pool eng') = p_next_page (e_pool eng).
Proof.
  intros Hr Hp Hn Hc Hps Hch Htx. unfold garry_mvcc_delete.
  destruct (pin_chain n pins (e_pool eng) pid cells Hp Hn Hc Hch)
    as (p1 & i & -> & Hr1 & Hk1 & Hst1 & Hf1 & Hsp1 & Hch1). cbn [mbind option_bind].
  rewrite Hsp1. cbn [mbind option_bind]. pose proof Hch1 as [_ _ (vs & Hrep & HF)].
  destruct (append_tombstone_spec _ _ vs txn Hrep Htx) as (buf & ok & E & Happ).
  rewrite Hps, <- (kp_page_size _ _ Hk1), E. cbn [mbind option_bind].
  destruct (write_cell_spec n pins eng ts pid cells (Cell txn None []) _ p1 vs i buf ok Hr Hch
    (keeps_grown _ _ Hk1) Hst1 Hr1 Hf1 Hrep HF Happ (cell_tombstone _ _ _)) as (eng' & E' & Hw & Hx);
    [constructor|]. exists eng', ok. split; [exact E'|]. split; [exact Hw|]. by rewrite Hx, (kp_next _ _ Hk1).
Qed.

(** The cell of a set: long values go to overflow pages. *)
Definition set_pages (ps vlen : Z) : Z :=
  if decide (vlen > garry_chain_inline_capacity ps) then ovf_pages ps vlen else 0.

(** The resources of a set: room for the pins, page ids and accesses to spare. *)
Record can_set (n : Z) (pins : list Z) (eng : garry_engine_handle) (ts : list garry_txn_info)
    (pid : Z) (cells : list cell) (txn : Z) (value : list Z) (vlen : Z) (b : list Z) : Prop := {
  cs_txns : txns_rep eng ts;
  cs_ready : ready (n + 2 + 5 * set_pages (e_page_size eng) vlen) pins [] (e_pool eng);
  cs_budget : 0 <= n;
  cs_capacity : zlen pins + 3 <= p_capacity (e_pool eng);
  cs_page_size : e_page_size eng = p_page_size (e_pool eng);
  cs_inline : 0 <= garry_chain_inline_capacity (e_page_size eng) <= 16370;
  cs_next : p_next_page (e_pool eng) + set_pages (e_page_size eng) vlen <= 2 ^ 31 - 1;
  cs_chain : chain_at (e_pool eng) pid cells;
  cs_txn : is_i32 txn;
  cs_value : slice value 0 vlen = Some b;
  cs_vlen : vlen < 2 ^ 31
}.

Lemma set_pages_nonneg ps vlen :
  0 <= garry_chain_inline_capacity ps -> 0 <= vlen -> 0 <= set_pages ps vlen.
Proof.
  intros Hc Hv. unfold set_pages. case_decide; [|done]. apply ovf_pages_bound; [|done].
  unfold garry_chain_inline_capacity, GARRY_CHAIN_ENTRY_HEADER_SIZE, garry_overflow_chunk_size in *. lia.
Qed.

Lemma mvcc_set_spec n pins eng ts txn pid cells value vlen b :
  can_set n pins eng ts pid cells txn value vlen b ->
  exists eng' ok pages, garry_mvcc_set eng txn pid (Some value) vlen = Some (eng', ok) /\
    wrote n pins eng ts pid cells (Cell txn (Some b) pages) eng' ok /\
    (pages = [] <-> vlen <= garry_chain_inline_capacity (e_page_size eng)) /\
    zlen pages <= set_pages (e_page_size eng) vlen /\
    p_next_page (e_pool eng') <= p_next_page (e_pool eng) + set_pages (e_page_size eng) vlen.
Proof.
  intros [Hr Hp Hn Hc Hps Hcap Hnx Hch Htx Hs Hv]. unfold garry_mvcc_set.
  remember (e_page_size eng) as ps eqn:Eps. symmetry in Hps.
  pose proof (slice_is_Some _ _ _ _ Hs) as (_ & Hv0 & _ & Hb).
  pose proof (set_pages_nonneg ps vlen ltac:(lia) Hv0) as Hsp.
  destruct (pin_chain (n + 5 * set_pages ps vlen) pins (e_pool eng) pid cells)
    as (p1 & i & -> & Hr1 & Hk1 & Hst1 & Hf1 & Hsp1 & Hch1);
    [by replace (n + 5 * set_pages ps vlen + 2) with (n + 2 + 5 * set_pages ps vlen) by lia|lia|lia|done|].
  cbn [mbind option_bind]. unfold set_pages in *.
  pose proof (kp_page_size _ _ Hk1) as Hps1. rewrite Hps in Hps1.
  destruct (decide (vlen > garry_chain_inline_capacity ps)) as [Hd|Hd].
  - cbn [mbind option_bind].
    destruct (overflow_write_spec n (pid :: pins) p1 value vlen b) as (p2 & pids & E2 & Hw2 & Hnx2).
    + by rewrite Hps1.
    + done.
    + rewrite zlen_cons, (kp_capacity _ _ Hk1). lia.
    + rewrite Hps1, (kp_next _ _ Hk1). lia.
    + rewrite Hps1. unfold garry_chain_inline_capacity, GARRY_CHAIN_ENTRY_HEADER_SIZE, garry_overflow_chunk_size in *. lia.
    + rewrite Hps1. unfold garry_chain_inline_capacity, GARRY_CHAIN_ENTRY_HEADER_SIZE, GARRY_PAGE_HEADER_SIZE,
        GARRY_OVERFLOW_PTR_SIZE, GARRY_MAX_PAGE_SIZE in *. lia.
    + done.
    + destruct Hw2 as [W1 W2 W3 W4 W5 W6 W7 W8 W9]. rewrite Hps1 in *.
      destruct pids as [|h pids]; [cbn in W6; subst b; change (zlen (@nil Z)) with 0 in Hb; lia|].
      pose proof (proj1 (Forall_cons _ _ _) W7) as [[Hh _] _].
      assert (Hg : grown p1 p2).
      { split; [done|by rewrite Hps1|done|]. intros q Hq. apply W9; [done|apply not_elem_of_nil]. }
      assert (Hf2 : find_slot p2 pid = Some i) by (apply W5; [by left|done]).
      rewrite E2. cbn [mbind option_bind default head]. unfold id. rewrite decide_False by lia.
      rewrite (slot_page_view _ _ _ _ _ _ W1 Hf2). cbn [mbind option_bind].
      pose proof (chain_at_grown _ _ _ _ Hg Hch1) as [_ _ (vs & Hrep & HF)].
      destruct (append_overflow_spec _ _ vs txn vlen h Hrep Htx) as (buf & ok & E & Happ);
        [lia|pose proof (kp_next _ _ Hk1); unfold is_i32; lia|]. rewrite W3 in *. rewrite E. cbn [mbind option_bind].
      destruct (write_cell_spec n pins eng ts pid cells (Cell txn (Some b) (h :: pids))
        (Version txn 0 (Overflow (zlen b) h)) p2 vs i buf ok) as (eng' & E' & Hw & Hx);
        rewrite ?W3, ?Hb; [exact Hr|exact Hch|transitivity p1; [apply keeps_grown; exact Hk1|exact Hg]| |exact W1|exact Hf2|exact Hrep
          |exact HF|exact Happ|rewrite <- Hb; by apply (cell_overflow _ _ _ _ (h :: pids))| |].
      * transitivity p1; [exact Hst1|]. apply (stable_cons pid). exact W5.
      * rewrite <- (kp_next _ _ Hk1). eapply Forall_impl; [exact W7|]. cbn. intros q [Hq [Hin|Hge]]; [|lia].
        destruct (not_elem_of_nil q Hin).
      * exists eng', ok, (h :: pids). split; [exact E'|]. split; [exact Hw|]. split; [split; [done|lia]|].
        split; [|rewrite Hx, <- (kp_next _ _ Hk1); exact Hnx2].
        etransitivity; [apply (nodup_range (p_next_page p1) (p_next_page p2)); [exact W8| |lia]|lia].
        eapply Forall_impl; [exact W7|]. cbn. intros q [Hq [Hin|Hge]]; [|lia]. destruct (not_elem_of_nil q Hin).
  - cbn [mbind option_bind]. replace (n + 5 * 0) with n in Hr1 by lia. rewrite Hsp1. cbn [mbind option_bind].
    pose proof Hch1 as [_ _ (vs & Hrep & HF)].
    destruct (chain_append_spec _ _ vs txn value vlen b Hrep Htx Hs) as (buf & ok & E & Happ);
      [unfold GARRY_MAX_RECORD_SIZE; lia|]. rewrite Hps1 in Happ, E. rewrite decide_True in Happ by lia.
    rewrite E. cbn [mbind option_bind]. rewrite <- Hps1 in Happ.
    destruct (write_cell_spec n pins eng ts pid cells (Cell txn (Some b) []) _ p1 vs i buf ok Hr Hch
      (keeps_grown _ _ Hk1) Hst1 Hr1 Hf1 Hrep HF Happ (cell_inline _ _ _ _)) as (eng' & E' & Hw & Hx);
      [constructor|]. exists eng', ok, []. split; [exact E'|]. split; [exact Hw|]. split; [split; [lia|done]|].
    split; [done|]. rewrite Hx, (kp_next _ _ Hk1). lia.
Qed.

(** * Snapshot isolation *)

Lemma read_cells_snoc snap act cells c :
  read_cells snap act (cells ++ [c]) =
    if decide (cell_visible snap act c) then c_value c else read_cells snap act cells.
Proof.
  unfold read_cells. rewrite filter_app, filter_cons. change (filter _ []) with (@nil cell).
  destruct (decide (cell_visible snap act c)); [by rewrite last_snoc|by rewrite app_nil_r].
Qed.

(** The accesses of a get. *)
Definition get_cost (cells : list cell) : Z := 2 + 2 * zlen (chain_pages cells).

Lemma get_spec n pins eng ts txn pid cells :
  txns_rep eng ts -> ready (n + get_cost cells) pins [] (e_pool eng) -> 0 <= n ->
  zlen pins + 1 < p_capacity (e_pool eng) -> e_page_size eng = p_page_size (e_pool eng) ->
  chain_at (e_pool eng) pid cells ->
  exists p', garry_mvcc_get all_reads eng txn pid =
      Some (set_pool eng p', c_string <$> read_cells txn (map ti_txid ts) cells) /\
    ready n pins [] p' /\ keeps (e_pool eng) p' /\ stable pins (e_pool eng) p'.
Proof.
  intros Hr Hp Hn Hc Hps Hch. apply (mvcc_get_spec n pins eng txn pid cells); try done; [|apply Hr].
  by replace (n + 2 + 2 * zlen (chain_pages cells)) with (n + get_cost cells) by (unfold get_cost; lia).
Qed.

Section Isolation.
  Context (n : Z) (pins : list Z) (eng : garry_engine_handle) (ts : list garry_txn_info) (pid : Z).
  Context (cells : list cell) (txn : Z) (value : list Z) (vlen : Z) (b : list Z).
  Hypothesis Hset : can_set n pins eng ts pid cells txn value vlen b.
  Hypothesis Hcost : get_cost cells + 2 * set_pages (e_page_size eng) vlen <= n.

Lemma set_cells eng1 ok :
  garry_mvcc_set eng txn pid (Some value) vlen = Some (eng1, ok) ->
  exists pages, let c := Cell txn (Some b) pages in
    wrote n pins eng ts pid cells c eng1 ok /\
    get_cost (cells ++ [c]) <= n /\ e_page_size eng1 = p_page_size (e_pool eng1) /\
    zlen pins + 1 < p_capacity (e_pool eng1).
Proof.
  intros E. destruct (mvcc_set_spec _ _ _ _ _ _ _ _ _ _ Hset) as (eng' & ok' & pages & E' & Hw & _ & Hl & _).
  rewrite E in E'. injection E' as <- <-. exists pages. split; [exact Hw|].
  pose proof (wr_cell _ _ _ _ _ _ _ _ _ Hw) as Hc. pose proof (cs_capacity _ _ _ _ _ _ _ _ _ _ Hset). split.
  - unfold get_cost in *. rewrite chain_pages_snoc, zlen_app. cbn [c_pages]. lia.
  - rewrite (wc_page_size _ _ _ _ _ _ _ Hc), (wc_capacity _ _ _ _ _ _ _ Hc). split; [|lia].
    rewrite <- (cs_page_size _ _ _ _ _ _ _ _ _ _ Hset).
    pose proof (wr_same _ _ _ _ _ _ _ _ _ Hw) as Hs. by rewrite Hs.
Qed.

(** A get after the set, from any state that keeps the pages. *)
Lemma get_after_set eng1 eng2 ts2 r :
  garry_mvcc_set eng txn pid (Some value) vlen = Some (eng1, true) ->
  txns_rep eng2 ts2 -> (ready n pins [] (e_pool eng1) -> ready n pins [] (e_pool eng2)) ->
  keeps (e_pool eng1) (e_pool eng2) -> e_page_size eng2 = e_page_size eng1 ->
  exists eng3, garry_mvcc_get all_reads eng2 r pid =
    Some (eng3, c_string <$>
      if decide (r = txn \/ txn < r /\ (txn ∉ map ti_txid ts2)) then Some b
      else read_cells r (map ti_txid ts2) cells).
Proof.
  intros E Hr2 Hp2 Hk Hps. destruct (set_cells _ _ E) as (pages & Hw & Hg & Hps1 & Hcap). cbn zeta in *.
  pose proof (wc_chain _ _ _ _ _ _ _ (wr_cell _ _ _ _ _ _ _ _ _ Hw)) as Hch. cbn in Hch.
  pose proof (wr_ready _ _ _ _ _ _ _ _ _ Hw) as Hp.
  destruct (get_spec 0 pins eng2 ts2 r pid (cells ++ [Cell txn (Some b) pages])) as (p' & E3 & _).
  - done.
  - eapply ready_le; [by apply Hp2|]. unfold get_cost in *. pose proof (zlen_nonneg (chain_pages (cells ++ [Cell txn (Some b) pages]))). lia.
  - done.
  - by rewrite (kp_capacity _ _ Hk).
  - by rewrite Hps, (kp_page_size _ _ Hk).
  - apply (chain_at_grown (e_pool eng1)); [by apply keeps_grown|done].
  - exists (set_pool eng2 p'). rewrite E3, read_cells_snoc. repeat f_equal. cbn [c_value].
    destruct (decide (r = txn \/ txn < r /\ txn ∉ map ti_txid ts2)) as [Hd|Hd].
    + rewrite decide_True; [done|]. unfold cell_visible. cbn [c_txn]. destruct Hd as [->|[? ?]]; [split; [lia|tauto]|].
      split; [lia|tauto].
    + rewrite decide_False; [done|]. unfold cell_visible. cbn [c_txn]. intros [H1 H2]. apply Hd.
      destruct (decide (r = txn)) as [|Hne]; [by left|]. right. split; [lia|]. intros H3. apply H2. split; [done|congruence].
Qed.

(** What a get returns before the set. *)
Lemma get_before r eng0 v :
  garry_mvcc_get all_reads eng r pid = Some (eng0, v) -> v = c_string <$> read_cells r (map ti_txid ts) cells.
Proof.
  intros E0. pose proof (set_pages_nonneg (e_page_size eng) vlen (proj1 (cs_inline _ _ _ _ _ _ _ _ _ _ Hset))) as Hsp.
  pose proof (slice_is_Some _ _ _ _ (cs_value _ _ _ _ _ _ _ _ _ _ Hset)) as (_ & Hv0 & _).
  specialize (Hsp Hv0).
  destruct (get_spec 0 pins eng ts r pid cells) as (p' & E0' & _); try apply Hset; [|done| |].
  - eapply ready_le; [apply Hset|]. unfold get_cost in *. pose proof (zlen_nonneg (chain_pages cells)). lia.
  - pose proof (cs_capacity _ _ _ _ _ _ _ _ _ _ Hset). lia.
  - rewrite E0 in E0'. by injection E0' as _ ->.
Qed.

(** The state after a set and a commit. *)
Lemma commit_after_set eng1 :
  garry_mvcc_set eng txn pid (Some value) vlen = Some (eng1, true) ->
  exists eng2, garry_mvcc_commit eng1 txn = Some eng2 /\
    txns_rep eng2 (filter (fun t => ti_txid t <> txn) (alter_txn (noted pid) ts txn)) /\
    e_page_size eng2 = e_page_size eng1 /\ keeps (e_pool eng1) (e_pool eng2) /\
    (ready n pins [] (e_pool eng1) -> ready n pins [] (e_pool eng2)) /\
    e_lock_mgr eng2 = garry_lock_release (e_lock_mgr eng) txn /\
    forall t, txn_entry ts txn = Some t -> ti_modified_count t < GARRY_MAX_MODIFIED_PAGES ->
      Forall (on_disk (e_pool eng2)) (noted_pages t ++ [pid]).
Proof.
  intros E. destruct (set_cells _ _ E) as (pages & Hw & _). cbn zeta in *.
  destruct (commit_spec n pins eng1 _ txn (wr_txns _ _ _ _ _ _ _ _ _ Hw) (wr_ready _ _ _ _ _ _ _ _ _ Hw))
    as (eng2 & E2 & Hr2 & Hs2 & Hl2 & Hp2 & Hk2 & _ & Hd).
  exists eng2. split; [done|]. split; [exact Hr2|]. split; [by rewrite Hs2|]. split; [done|]. split; [done|].
  split; [by rewrite Hl2, (wr_locks _ _ _ _ _ _ _ _ _ Hw)|]. intros t Ht Hm.
  pose proof (cs_txns _ _ _ _ _ _ _ _ _ _ Hset) as Hr. cbn [c_txn] in Hd.
  assert (Hi : 0 <= ti_modified_count t <= GARRY_MAX_MODIFIED_PAGES /\
    zlen (ti_modified_pages t) = GARRY_MAX_MODIFIED_PAGES).
  { unfold txn_entry in Ht. destruct (slot_of ts txn) as [k|]; [|done].
    destruct (Forall_lookup_1 _ _ _ _ (tr_info _ _ Hr) Ht) as (? & ? & _). done. }
  rewrite <- noted_in by lia. apply Hd. apply alter_txn_entry; [apply noted_txid|done].
Qed.
End Isolation.
#[local] Arguments set_cells {n pins eng ts pid cells txn value vlen b}.
#[local] Arguments get_after_set {n pins eng ts pid cells txn value vlen b}.
#[local] Arguments get_before {n pins eng ts pid cells txn value vlen b}.
#[local] Arguments commit_after_set {n pins eng ts pid cells txn value vlen b}.

(** A transaction reads its own writes: after a successful set, a get by the
    same transaction returns the value, with a final NUL and its length, whether
    it is stored inline or in overflow pages. *)
Theorem read_own_write n pins eng ts pid cells txn value vlen b eng1 :
  can_set n pins eng ts pid cells txn value vlen b ->
  get_cost cells + 2 * set_pages (e_page_size eng) vlen <= n ->
  garry_mvcc_set eng txn pid (Some value) vlen = Some (eng1, true) ->
  exists eng2, garry_mvcc_get all_reads eng1 txn pid = Some (eng2, Some (b ++ [0], zlen b)).
Proof.
  intros Hset Hcost E. destruct (set_cells Hset Hcost _ _ E) as (pages & Hw & _). cbn zeta in *.
  destruct (get_after_set Hset Hcost eng1 eng1 _ txn E (wr_txns _ _ _ _ _ _ _ _ _ Hw)) as (eng2 & E2); [done..|].
  rewrite decide_True in E2 by tauto. by exists eng2.
Qed.

(** The writes of a running transaction are isolated: as long as it is in the
    table of active transactions, a get by any other transaction returns what it
    returned before the set, whether the set succeeded or failed for lack of
    room. *)
Theorem uncommitted_write_hidden n pins eng ts pid cells txn value vlen b eng0 eng1 ok r v :
  can_set n pins eng ts pid cells txn value vlen b ->
  get_cost cells + 2 * set_pages (e_page_size eng) vlen <= n ->
  garry_mvcc_set eng txn pid (Some value) vlen = Some (eng1, ok) ->
  txn ∈ map ti_txid ts -> r <> txn -> garry_mvcc_get all_reads eng r pid = Some (eng0, v) ->
  exists eng2, garry_mvcc_get all_reads eng1 r pid = Some (eng2, v).
Proof.
  intros Hset Hcost E Hin Hne E0. destruct (set_cells Hset Hcost _ _ E) as (pages & Hw & Hg & Hps & Hcap). cbn zeta in *.
  rewrite (get_before Hset Hcost r eng0 v E0). destruct ok.
  - destruct (get_after_set Hset Hcost eng1 eng1 _ r E (wr_txns _ _ _ _ _ _ _ _ _ Hw)) as (eng2 & E2); [done..|].
    rewrite alter_txn_map, decide_False in E2; [by exists eng2| |apply noted_txid].
    intros [?|[_ Hn]]; [done|]. exact (Hn Hin).
  - pose proof (wc_chain _ _ _ _ _ _ _ (wr_cell _ _ _ _ _ _ _ _ _ Hw)) as Hch. cbn in Hch.
    destruct (get_spec 0 pins eng1 ts r pid cells) as (p2 & E2 & _); [apply Hw| |done|done|done|done|by eexists].
    eapply ready_le; [apply Hw|]. unfold get_cost in *. pose proof (zlen_nonneg (chain_pages cells)).
    rewrite chain_pages_snoc, zlen_app in Hg. pose proof (zlen_nonneg pages). cbn [c_pages] in Hg. lia.
Qed.

(** A committed write is durable and visible: after a set and the commit of its
    transaction every younger transaction, running or not, reads the value; the
    transaction has left the table; and if its list of modified pages had room
    for the page, the page's copy on disk is its content. *)
Theorem committed_write_read n pins eng ts pid cells txn value vlen b eng1 r :
  can_set n pins eng ts pid cells txn value vlen b ->
  get_cost cells + 2 * set_pages (e_page_size eng) vlen <= n ->
  garry_mvcc_set eng txn pid (Some value) vlen = Some (eng1, true) -> txn < r ->
  exists eng2 eng3, garry_mvcc_commit eng1 txn = Some eng2 /\
    garry_mvcc_get all_reads eng2 r pid = Some (eng3, Some (b ++ [0], zlen b)) /\
    garry_txn_is_active txn eng2 = Some false /\
    forall t, txn_entry ts txn = Some t -> ti_modified_count t < GARRY_MAX_MODIFIED_PAGES ->
      Forall (on_disk (e_pool eng2)) (noted_pages t ++ [pid]).
Proof.
  intros Hset Hcost E Hlt. destruct (commit_after_set Hset Hcost _ E) as (eng2 & E2 & Hr2 & Hps & Hk & Hp & _ & Hd).
  destruct (get_after_set Hset Hcost eng1 eng2 _ r E Hr2 Hp Hk Hps) as (eng3 & E3).
  assert (Hgone : (txn ∉ map ti_txid (filter (fun t => ti_txid t <> txn) (alter_txn (noted pid) ts txn)))).
  { intros (t & Ht & [Hn _]%list_elem_of_filter)%list_elem_of_fmap. congruence. }
  rewrite decide_True in E3 by (right; split; [done|exact Hgone]).
  exists eng2, eng3. split; [done|]. split; [exact E3|]. split; [|exact Hd].
  rewrite (is_active_spec _ _ txn Hr2). unfold txn_entry.
  pose proof (slot_of_spec (filter (fun t => ti_txid t <> txn) (alter_txn (noted pid) ts txn)) txn) as Hs.
  destruct (slot_of _ txn) as [k|]; [|done]. destruct Hs as (t & Hk' & Ht & _). destruct Hgone.
  apply list_elem_of_fmap. exists t. split; [done|]. by eapply list_elem_of_lookup_2.
Qed.

(** A rolled back write is never read by others: after a set and the rollback
    of its transaction, a get by any other transaction returns what it returned
    before the set (the entry stays in the table, so its id stays hidden). *)
Theorem rolled_back_write_hidden n pins eng ts pid cells txn value vlen b eng0 eng1 r v :
  can_set n pins eng ts pid cells txn value vlen b ->
  get_cost cells + 2 * set_pages (e_page_size eng) vlen <= n ->
  garry_mvcc_set eng txn pid (Some value) vlen = Some (eng1, true) ->
  txn ∈ map ti_txid ts -> r <> txn -> garry_mvcc_get all_reads eng r pid = Some (eng0, v) ->
  exists eng2 eng3, garry_mvcc_rollback eng1 txn = Some eng2 /\
    garry_txn_is_active txn eng2 = Some false /\ garry_mvcc_get all_reads eng2 r pid = Some (eng3, v).
Proof.
  intros Hset Hcost E Hin Hne E0. destruct (set_cells Hset Hcost _ _ E) as (pages & Hw & Hg & Hps & Hcap). cbn zeta in *.
  destruct (rollback_spec eng1 _ txn (wr_txns _ _ _ _ _ _ _ _ _ Hw)) as (eng2 & E2 & Hr2 & Hs2 & Hp2 & _).
  cbn [c_txn] in Hr2.
  destruct (get_after_set Hset Hcost eng1 eng2 _ r E Hr2) as (eng3 & E3);
    [by rewrite Hp2|by rewrite Hp2|by rewrite Hs2|].
  rewrite !alter_txn_map in E3 by (done || apply noted_txid).
  rewrite decide_False in E3 by (intros [?|[_ Hn]]; [done|exact (Hn Hin)]).
  rewrite (get_before Hset Hcost r eng0 v E0). exists eng2, eng3. split; [done|]. split; [|exact E3].
  rewrite (is_active_spec _ _ txn Hr2).
  assert (He : exists t, txn_entry ts txn = Some t).
  { unfold txn_entry. pose proof (slot_of_spec ts txn) as Hs. destruct (slot_of ts txn) as [k|]; [|done].
    destruct Hs as (t & Hk & _). by exists t. }
  destruct He as [t Ht].
  rewrite (alter_txn_entry (with_state GARRY_TXN_ROLLED_BACK) _ txn (noted pid t));
    [|done|by apply alter_txn_entry; [apply noted_txid|]].
  done.
Qed.

(** C39: Reads are not repeatable: a transaction [r] that began after [txn] and runs
    beside it reads the old value before [txn] commits and the new one after,
    since visibility is decided with the list of transactions active at the time
    of the read, not at the time [r] began. *)
Theorem read_not_repeatable n pins eng ts pid cells txn value vlen b eng0 eng1 r v :
  can_set n pins eng ts pid cells txn value vlen b ->
  get_cost cells + 2 * set_pages (e_page_size eng) vlen <= n ->
  garry_mvcc_set eng txn pid (Some value) vlen = Some (eng1, true) ->
  txn ∈ map ti_txid ts -> r ∈ map ti_txid ts -> txn < r -> garry_mvcc_get all_reads eng r pid = Some (eng0, v) ->
  exists eng2 eng3 eng4, garry_mvcc_get all_reads eng1 r pid = Some (eng2, v) /\
    garry_mvcc_commit eng1 txn = Some eng3 /\
    garry_mvcc_get all_reads eng3 r pid = Some (eng4, Some (b ++ [0], zlen b)).
Proof.
  intros Hset Hcost E Hin _ Hlt E0. destruct (set_cells Hset Hcost _ _ E) as (pages & Hw & _). cbn zeta in *.
  destruct (get_after_set Hset Hcost eng1 eng1 _ r E (wr_txns _ _ _ _ _ _ _ _ _ Hw)) as (eng2 & E2); [done..|].
  rewrite alter_txn_map, decide_False in E2; [| |apply noted_txid];
    [|intros [?|[_ Hn]]; [lia|exact (Hn Hin)]].
  rewrite <- (get_before Hset Hcost r eng0 v E0) in E2.
  destruct (commit_after_set Hset Hcost _ E) as (eng3 & E3 & Hr3 & Hps & Hk & Hp & _).
  destruct (get_after_set Hset Hcost eng1 eng3 _ r E Hr3 Hp Hk Hps) as (eng4 & E4).
  rewrite decide_True in E4; [exists eng2, eng3, eng4; split; [exact E2|split; [exact E3|exact E4]]|].
  right. split; [done|]. intros (t & Ht & [Hn _]%list_elem_of_filter)%list_elem_of_fmap. congruence.
Qed.

(** * New chains and new transactions *)

Lemma chain_allocate_spec n pins eng :
  ready (n + 3) pins [] (e_pool eng) -> 0 <= n -> zlen pins < p_capacity (e_pool eng) ->
  p_next_page (e_pool eng) < 2 ^ 31 - 1 -> e_page_size eng = p_page_size (e_pool eng) ->
  GARRY_PAGE_HEADER_SIZE <= e_page_size eng <= GARRY_MAX_PAGE_SIZE ->
  let pid := p_next_page (e_pool eng) in
  exists p', garry_chain_allocate eng = Some (set_pool eng p', pid) /\ ready n pins [] p' /\
    p_next_page p' = pid + 1 /\ grown (e_pool eng) p' /\ stable pins (e_pool eng) p' /\
    chain_at p' pid [].
Proof.
  intros Hp Hn Hc Hnx Hps Hsz pid. pose proof (rdy_next _ _ _ _ Hp) as Hpid. fold pid in Hpid.
  unfold garry_chain_allocate.
  apply (ready_le _ (n + 2)) in Hp; [|lia].
  destruct (allocate_pin_ready n pins [] (e_pool eng) Hp Hn Hc Hnx)
    as (p1 & p2 & i & -> & Epin & Hp2 & C2 & S2 & N2 & V2 & St2 & F2 & Sp2).
  fold pid in Epin, Hp2, N2, V2, F2 |- *. cbn [mbind option_bind]. rewrite decide_False by lia. rewrite Epin.
  cbn [mbind option_bind]. rewrite Sp2. cbn [mbind option_bind].
  assert (Hz : zlen (zeros (p_page_size (e_pool eng))) = e_page_size eng)
    by (rewrite zlen_zeros, Hps; unfold GARRY_PAGE_HEADER_SIZE in *; lia).
  destruct (page_init_rep (zeros (p_page_size (e_pool eng))) GARRY_NODE_CHAIN 0 (e_page_size eng)) as (b & Eb & Hbz & Hrep & _);
    [lia|by rewrite Hz|].
  unfold garry_chain_page_init. rewrite Eb. cbn [mbind option_bind].
  destruct (set_page_ready n (pid :: pins) [pid] p2 pid i b Hp2) as (p3 & -> & Hp3 & U3 & F3 & _);
    [by left|done|rewrite Hbz, Hz, S2; exact Hps|].
  cbn [mbind option_bind].
  destruct (mark_dirty_ready n (pid :: pins) [pid] p3 pid Hp3) as (p4 & -> & Hp4 & K4 & F4); [by left|].
  rewrite filter_cons_False in Hp4 by tauto. cbn [mbind option_bind].
  destruct (release_ready n pid pins [] p4 Hp4) as (p5 & -> & Hp5 & K5 & F5); [apply not_elem_of_nil|].
  cbn [mbind option_bind]. exists p5. split; [done|]. split; [done|].
  pose proof (updates_keeps _ _ _ _ _ (updates_keeps _ _ _ _ _ U3 K4) K5) as [U1' U2' U3' U4'].
  rewrite N2 in U3'. split; [lia|]. split; [|split].
  - split; [by rewrite U1'|by rewrite U2'|lia|].
    intros q Hq. rewrite U4', decide_False by (fold pid in Hq; lia). by rewrite V2, decide_False by (fold pid in Hq; lia).
  - intros q j Hq Hj. rewrite F5, F4, F3. by apply St2.
  - split; [lia|constructor|]. exists []. split; [|constructor]. rewrite U4', decide_True by done.
    split; [|constructor]. by rewrite U2', S2, <- Hps.
Qed.

(** * The table as a state machine *)

(** The operations that change the table, with the id they are called with or, for
    begin, return; between them the pool may change. *)
Inductive table_event :=
  | Begin (r : Z) | Commit (txn : Z) | Rollback (txn : Z) | Write (txn pid : Z) | Pages.

Inductive table_step : table_event -> garry_engine_handle -> garry_engine_handle -> Prop :=
  | step_begin e e' r : e_next_txid e < 2 ^ 31 - 1 -> garry_mvcc_begin e = Some (e', r) -> table_step (Begin r) e e'
  | step_commit e e' txn n pins : ready n pins [] (e_pool e) -> garry_mvcc_commit e txn = Some e' ->
      table_step (Commit txn) e e'
  | step_rollback e e' txn : garry_mvcc_rollback e txn = Some e' -> table_step (Rollback txn) e e'
  | step_write e e' txn pid n pins : ready n pins [pid] (e_pool e) -> pid ∈ pins -> 0 <= pid ->
      note_modified e txn pid = Some e' -> table_step (Write txn pid) e e'
  | step_pool e p : table_step Pages e (set_pool e p).

Inductive table_run : list table_event -> garry_engine_handle -> garry_engine_handle -> Prop :=
  | run_nil e : table_run [] e e
  | run_cons ev evs e e1 e2 : table_step ev e e1 -> table_run evs e1 e2 -> table_run (ev :: evs) e e2.

(** The ids handed out: begin returns -1 when it admits no transaction. *)
Definition handed_out (ev : table_event) : list Z :=
  match ev with Begin r => if decide (r = -1) then [] else [r] | _ => [] end.

Definition granted (evs : list table_event) : list Z := concat (map handed_out evs).

(** The table of [e] represents [ts], of which no more than [e_max_txns] are live and
    none is committed. *)
Definition table_of (e : garry_engine_handle) (ts : list garry_txn_info) : Prop :=
  txns_rep e ts /\ live_count ts <= e_max_txns e /\ Forall (fun t => ti_state t <> GARRY_TXN_COMMITTED) ts.

Definition table_ok (e : garry_engine_handle) : Prop := exists ts, table_of e ts.

Lemma live_count_filter P `{!forall t, Decision (P t)} ts : live_count (filter P ts) <= live_count ts.
Proof.
  unfold live_count. induction ts as [|t ts IH]; [done|]. rewrite filter_cons.
  destruct (decide (P t)); rewrite !filter_cons; case_decide; rewrite ?zlen_cons; lia.
Qed.

Lemma live_count_alter f ts txn :
  (forall t, rolled_back t -> rolled_back (f t)) -> live_count (alter_txn f ts txn) <= live_count ts.
Proof.
  intros Hf. unfold live_count, alter_txn. destruct (slot_of ts txn) as [k|]; [|done].
  revert k. induction ts as [|t ts IH]; intros k; [done|]. destruct k as [|k].
  - change (alter f 0%nat (t :: ts)) with (f t :: ts). rewrite !filter_cons.
    destruct (decide (~ rolled_back (f t))), (decide (~ rolled_back t)); rewrite ?zlen_cons; try lia.
    exfalso. naive_solver.
  - change (alter f (S k) (t :: ts)) with (t :: alter f k ts). specialize (IH k). rewrite !filter_cons.
    case_decide; rewrite ?zlen_cons; lia.
Qed.

Lemma Forall_alter_txn (P : garry_txn_info -> Prop) f ts txn :
  (forall t, P t -> P (f t)) -> Forall P ts -> Forall P (alter_txn f ts txn).
Proof.
  intros Hf HF. unfold alter_txn. destruct (slot_of ts txn) as [k|]; [|done]. revert k.
  induction HF as [|t ts Ht HF IH]; intros k; [done|]. destruct k as [|k].
  - constructor; [by apply Hf|done].
  - constructor; [done|apply IH].
Qed.

(** One operation: a begin hands out the next id, which enters the table, or none;
    nothing else moves the next id, and only a commit takes an id out. *)
Record step_done (ev : table_event) (e : garry_engine_handle) (ts : list garry_txn_info) (e' : garry_engine_handle)
    (ts' : list garry_txn_info) : Prop := {
  tb_table : table_of e' ts';
  tb_granted : handed_out ev = [] /\ e_next_txid e' = e_next_txid e \/
    handed_out ev = [e_next_txid e] /\ e_next_txid e' = e_next_txid e + 1;
  tb_enters : forall r, r ∈ handed_out ev -> r ∈ map ti_txid ts';
  tb_stays : forall r, r ∈ map ti_txid ts -> ev <> Commit r -> r ∈ map ti_txid ts'
}.

Lemma table_step_begin e e' r ts :
  e_next_txid e < 2 ^ 31 - 1 -> 0 <= e_next_txid e -> garry_mvcc_begin e = Some (e', r) -> table_of e ts ->
  exists ts', step_done (Begin r) e ts e' ts'.
Proof.
  intros Hn H0 E (Hr & Hl & HF). destruct (begin_spec e ts Hr Hn) as (e1 & r1 & E1 & H). rewrite E in E1. injection E1 as <- <-.
  destruct (decide (can_begin e ts)) as [[Hc _]|_].
  - destruct H as (-> & _ & Hnx & Hm & pages & Hr'). eexists. split.
    + split; [exact Hr'|]. rewrite Hm. split; [|apply Forall_app; by repeat constructor].
      unfold live_count in *. rewrite filter_app, zlen_app.
      pose proof (length_filter (fun t => ~ rolled_back t) [TxnInfo (e_next_txid e) GARRY_TXN_ACTIVE 0 pages]) as Hf.
      cbn [length] in Hf. unfold zlen in *. lia.
    + right. cbn [handed_out]. rewrite decide_False by lia. by split.
    + intros r. cbn [handed_out]. rewrite decide_False by lia. intros ->%list_elem_of_singleton.
      rewrite map_app. apply elem_of_app. right. by left.
    + intros r Hin _. rewrite map_app. apply elem_of_app. by left.
  - destruct H as [-> ->]. exists ts. split; [by split| |by intros r Hr0%elem_of_nil|done]. left. by split.
Qed.

Lemma table_step_commit e e' txn n pins ts :
  ready n pins [] (e_pool e) -> garry_mvcc_commit e txn = Some e' -> table_of e ts ->
  exists ts', step_done (Commit txn) e ts e' ts'.
Proof.
  intros Hp E (Hr & Hl & HF). destruct (commit_spec n pins e ts txn Hr Hp) as (e1 & E1 & Hr' & Hs & _). rewrite E in E1. injection E1 as <-.
  eexists. split.
  - split; [exact Hr'|]. rewrite Hs. cbn [e_max_txns set_pool set_lock_mgr set_txns].
    split; [etransitivity; [apply live_count_filter|done]|]. rewrite Forall_forall in HF |- *.
    intros t [_ Ht]%list_elem_of_filter. by apply HF.
  - left. by rewrite Hs.
  - by intros r Hin%elem_of_nil.
  - intros r (t & -> & Ht)%list_elem_of_fmap Hne. apply list_elem_of_fmap. exists t. split; [done|].
    apply list_elem_of_filter. split; [|exact Ht]. by intros <-.
Qed.

Lemma table_step_altered f e e' txn ev ts :
  handed_out ev = [] -> (forall t, ti_txid (f t) = ti_txid t) -> (forall t, rolled_back t -> rolled_back (f t)) ->
  (forall t, ti_state t <> GARRY_TXN_COMMITTED -> ti_state (f t) <> GARRY_TXN_COMMITTED) ->
  txns_rep e' (alter_txn f ts txn) -> same_but_txns e e' -> table_of e ts ->
  step_done ev e ts e' (alter_txn f ts txn).
Proof.
  intros Hev Ht Hrb Hst Hr' Hs (_ & Hl & HF). split.
  - split; [exact Hr'|]. rewrite Hs. cbn [e_max_txns set_pool set_lock_mgr set_txns].
    split; [etransitivity; [by apply live_count_alter|done]|by apply Forall_alter_txn].
  - left. split; [exact Hev|]. by rewrite Hs.
  - intros r. by rewrite Hev, elem_of_nil.
  - intros r Hin _. by rewrite (alter_txn_map f).
Qed.

Lemma table_step_ok ev e e' ts :
  table_step ev e e' -> 0 <= e_next_txid e -> table_of e ts -> exists ts', step_done ev e ts e' ts'.
Proof.
  intros Hstep H0 Ht. destruct Hstep as [e e' r Hn E|e e' txn n pins Hp E|e e' txn E|e e' txn pid n pins Hp Hin Hpid E|e p].
  - by eapply table_step_begin.
  - by eapply table_step_commit.
  - pose proof Ht as (Hr & _). destruct (rollback_spec e ts txn Hr) as (e1 & E1 & Hr' & Hs & _). rewrite E in E1. injection E1 as <-.
    eexists. by apply (table_step_altered (with_state GARRY_TXN_ROLLED_BACK) e e' txn).
  - pose proof Ht as (Hr & _). destruct (note_modified_spec n pins e ts txn pid Hr Hp Hin Hpid) as (e1 & E1 & Hr' & Hs & _).
    rewrite E in E1. injection E1 as <-. eexists. apply (table_step_altered (noted pid) e e' txn); [done|apply noted_txid| | |exact Hr'|exact Hs|exact Ht].
    + unfold rolled_back, noted. intros t Hrb. by case_decide.
    + intros t Hst. unfold noted. by case_decide.
  - destruct Ht as (Hr & Hl & HF). exists ts. split; [|by left|by intros r Hr0%elem_of_nil|done].
    split; [by apply (txns_rep_fields e)|by split].
Qed.

Lemma table_run_spec evs e e' : table_run evs e e' -> forall ts, 0 <= e_next_txid e -> table_of e ts ->
  exists ts', table_of e' ts' /\ e_next_txid e <= e_next_txid e' /\ StronglySorted Z.lt (granted evs) /\
    Forall (fun r => e_next_txid e <= r < e_next_txid e') (granted evs) /\
    forall r, r ∈ granted evs \/ r ∈ map ti_txid ts -> (Commit r ∉ evs) -> r ∈ map ti_txid ts'.
Proof.
  induction 1 as [e|ev evs e e1 e2 Hs _ IH]; intros ts H0 Ht.
  { exists ts. split; [exact Ht|]. split; [lia|]. split; [constructor|]. split; [constructor|]. by intros r [Hr%elem_of_nil|Hr] _. }
  destruct (table_step_ok ev e e1 ts Hs H0 Ht) as (ts1 & [D1 D2 D3 D4]).
  destruct (IH ts1) as (ts2 & I1 & I2 & I3 & I4 & I5); [destruct D2 as [[_ ->]|[_ ->]]; lia|exact D1|].
  exists ts2. split; [exact I1|]. split; [destruct D2 as [[_ ?]|[_ ?]]; lia|].
  unfold granted in *. cbn [map concat]. split; [|split].
  - destruct D2 as [[-> _]|[-> Hn]]; [exact I3|]. constructor; [exact I3|]. eapply Forall_impl; [exact I4|]. cbn. lia.
  - destruct D2 as [[-> Hn]|[-> Hn]].
    + eapply Forall_impl; [exact I4|]. cbn. lia.
    + constructor; [lia|]. eapply Forall_impl; [exact I4|]. cbn. lia.
  - intros r Hr [Hc1 Hc2]%not_elem_of_cons. apply I5; [|exact Hc2]. rewrite elem_of_app in Hr.
    destruct Hr as [[Hr|Hr]|Hr]; [right; by apply D3|by left|right; apply D4; [exact Hr|congruence]].
Qed.

(** C25: From a state with a well-formed table, every sequence of begins, commits,
    rollbacks and writes keeps it well-formed: ids strictly increase along the
    table and stay below the next id, at most [e_max_txns] transactions are live,
    and no committed transaction is in the table.  The ids the begins of the sequence
    return (other than the -1 of a refusal) strictly increase, so that none is handed
    out twice, and lie between the next id before and the one after; each of them,
    and each id of the table before, is in the table afterwards unless the sequence
    commits it. *)
Theorem table_invariant evs e e' ts (Hrun : table_run evs e e') (H0 : 0 <= e_next_txid e) (Ht : table_of e ts) :
  exists ts', table_of e' ts' /\ e_next_txid e <= e_next_txid e' /\ StronglySorted Z.lt (granted evs) /\
    Forall (fun r => e_next_txid e <= r < e_next_txid e') (granted evs) /\
    forall r, r ∈ granted evs \/ r ∈ map ti_txid ts -> (Commit r ∉ evs) -> r ∈ map ti_txid ts'.
Proof. by apply (table_run_spec evs e). Qed.

(** * Witnesses *)

Definition sample_base : garry_engine_handle :=
  Engine 512 0 0 (Pool 4 512 (replicate 4 (Slot (zeros 512) 0 0 false false 0)) (File [] 0 true []) 2 (-1) 0)
    5 2 (zeros 128) 0 (replicate 128 (TxnInfo 0 GARRY_TXN_ROLLED_BACK 0 (zeros 16)))
    (WalLog (File [] 0 true []) 0) garry_create_lock_manager garry_default_engine_settings
    (garry_create_db_header garry_default_engine_settings) 0.

Definition sample_txn : garry_txn_info := TxnInfo 5 GARRY_TXN_ACTIVE 0 (zeros 16).

(** Transaction 5 runs and page 2 is an empty chain. *)
Definition sample_engine : garry_engine_handle :=
  default sample_base ('(e, _) ← garry_mvcc_begin sample_base; '(e, _) ← garry_chain_allocate e; Some e).

Lemma sample_base_rep : txns_rep sample_base [].
Proof.
  split; try reflexivity; [vm_compute; split; congruence|repeat constructor|constructor|vm_compute; split; congruence|].
  by apply Forall_replicate.
Qed.

Lemma sample_base_ready n : 0 <= n < 2 ^ 32 - 1 -> ready n [] [] (e_pool sample_base).
Proof.
  intros Hn. apply (create_ready (File [] 0 true []) 4 512 2 (set_next_page (e_pool sample_base) 0));
    [reflexivity|lia| |lia|done].
  split; [done|done|]. by exists 0.
Qed.

Lemma sample_state :
  txns_rep sample_engine [sample_txn] /\ ready 1000000 [] [] (e_pool sample_engine) /\
  chain_at (e_pool sample_engine) 2 [] /\ p_next_page (e_pool sample_engine) = 3 /\
  p_capacity (e_pool sample_engine) = 4 /\ e_page_size sample_engine = 512 /\
  p_page_size (e_pool sample_engine) = 512.
Proof.
  destruct (begin_spec sample_base [] sample_base_rep) as (e1 & r & E1 & H); [vm_compute; reflexivity|].
  rewrite decide_True in H by (vm_compute; split; reflexivity).
  destruct H as (-> & Hp1 & _ & _ & pages & Hr1).
  assert (Hpg : pages = zeros 16).
  { pose proof (tr_states _ _ Hr1) as Hs. vm_compute in E1. injection E1 as <-. vm_compute in Hs. by injection Hs as <-. }
  assert (Hps : e_page_size e1 = 512) by (vm_compute in E1; by injection E1 as <-).
  destruct (chain_allocate_spec 1000000 [] e1) as (p' & E2 & Hp' & Hn' & Hg & _ & Hch);
    rewrite ?Hp1, ?Hps; [by apply sample_base_ready|lia|vm_compute; reflexivity..|vm_compute; split; congruence|].
  assert (Hs : sample_engine = set_pool e1 p').
  { unfold sample_engine. rewrite E1. cbn [mbind option_bind]. by rewrite E2. }
  rewrite Hs. cbn [e_pool set_pool e_page_size]. rewrite Hp1 in Hch, Hn', Hg.
  split; [apply (txns_rep_fields e1); [|done..]; by rewrite Hpg in Hr1|].
  split; [done|]. split; [exact Hch|]. split; [rewrite Hn'; reflexivity|].
  split; [rewrite (gr_capacity _ _ Hg); reflexivity|]. split; [exact Hps|]. rewrite (gr_page_size _ _ Hg). reflexivity.
Qed.

Lemma sample_can_set_at eng ts value vlen b :
  txns_rep eng ts -> e_pool eng = e_pool sample_engine -> e_page_size eng = 512 ->
  0 <= vlen <= 1000 -> slice value 0 vlen = Some b ->
  can_set 100 [] eng ts 2 [] 5 value vlen b.
Proof.
  intros H1 Hpool H6 Hv Hs. destruct sample_state as (_ & H2 & H3 & H4 & H5 & _ & H7).
  rewrite <- Hpool in H2, H3, H4, H5, H7.
  assert (Hsp : 0 <= set_pages 512 vlen <= 10).
  { split; [apply set_pages_nonneg; [vm_compute; congruence|lia]|]. unfold set_pages. case_decide; [|lia].
    unfold ovf_pages. change (garry_overflow_chunk_size 512) with 476.
    change 10 with (4760 / 476). apply Z.div_le_mono; lia. }
  split; rewrite ?H4, ?H5, ?H6, ?H7.
  - exact H1.
  - eapply ready_le; [exact H2|lia].
  - lia.
  - vm_compute. congruence.
  - reflexivity.
  - vm_compute. split; congruence.
  - lia.
  - exact H3.
  - vm_compute. split; congruence.
  - exact Hs.
  - lia.
Qed.

Lemma sample_can_set value vlen b :
  0 <= vlen <= 1000 -> slice value 0 vlen = Some b ->
  can_set 100 [] sample_engine [sample_txn] 2 [] 5 value vlen b.
Proof.
  intros Hv Hs. destruct sample_state as (H1 & _ & _ & _ & _ & H6 & _).
  by apply sample_can_set_at.
Qed.

Lemma sample_cost vlen : 0 <= vlen <= 1000 -> get_cost [] + 2 * set_pages (e_page_size sample_engine) vlen <= 100.
Proof.
  intros Hv. destruct sample_state as (_ & _ & _ & _ & _ & -> & _). unfold set_pages.
  change (get_cost []) with 2. case_decide; [|lia]. unfold ovf_pages.
  change (garry_overflow_chunk_size 512) with 476. assert ((vlen + 476 - 1) / 476 <= 10); [|lia].
  change 10 with (4760 / 476). apply Z.div_le_mono; lia.
Qed.

Definition sample_after_set : garry_engine_handle :=
  default sample_base (fst <$> garry_mvcc_set sample_engine 5 2 (Some (replicate 600 7)) 600).

Lemma sample_set_ok :
  garry_mvcc_set sample_engine 5 2 (Some (replicate 600 7)) 600 = Some (sample_after_set, true).
Proof. unfold sample_after_set. vm_compute. reflexivity. Qed.

Lemma read_own_write_witness :
  exists eng2, garry_mvcc_get all_reads sample_after_set 5 2 = Some (eng2, Some (replicate 600 7 ++ [0], 600)).
Proof.
  apply (read_own_write 100 [] sample_engine [sample_txn] 2 [] 5 (replicate 600 7) 600 (replicate 600 7) _
    (sample_can_set (replicate 600 7) 600 (replicate 600 7) ltac:(lia) eq_refl) (sample_cost 600 ltac:(lia)) sample_set_ok).
Defined.

Lemma committed_write_read_witness :
  exists eng2 eng3, garry_mvcc_commit sample_after_set 5 = Some eng2 /\
    garry_mvcc_get all_reads eng2 9 2 = Some (eng3, Some (replicate 600 7 ++ [0], 600)).
Proof.
  destruct (committed_write_read 100 [] sample_engine [sample_txn] 2 [] 5 (replicate 600 7) 600 (replicate 600 7) _ 9
    (sample_can_set (replicate 600 7) 600 (replicate 600 7) ltac:(lia) eq_refl) (sample_cost 600 ltac:(lia)) sample_set_ok ltac:(lia))
    as (eng2 & eng3 & H1 & H2 & _). exists eng2, eng3. split; [exact H1|exact H2].
Defined.

Lemma sample_get_none r : exists eng0, garry_mvcc_get all_reads sample_engine r 2 = Some (eng0, None).
Proof.
  destruct sample_state as (H1 & H2 & H3 & H4 & H5 & H6 & H7).
  destruct (get_spec 0 [] sample_engine [sample_txn] r 2 []) as (p' & E & _);
    [exact H1|eapply ready_le; [exact H2|change (get_cost []) with 2; lia]|lia|rewrite H5; vm_compute; reflexivity
    |by rewrite H6, H7|exact H3|]. by eexists.
Qed.

Lemma uncommitted_write_hidden_witness :
  exists eng2, garry_mvcc_get all_reads sample_after_set 9 2 = Some (eng2, None).
Proof.
  destruct (sample_get_none 9) as [eng0 E0].
  apply (uncommitted_write_hidden 100 [] sample_engine [sample_txn] 2 [] 5 (replicate 600 7) 600 (replicate 600 7) eng0 _ true 9 None
    (sample_can_set (replicate 600 7) 600 (replicate 600 7) ltac:(lia) eq_refl) (sample_cost 600 ltac:(lia)) sample_set_ok);
    [by left|lia|exact E0].
Defined.

Lemma rolled_back_write_hidden_witness :
  exists eng2 eng3, garry_mvcc_rollback sample_after_set 5 = Some eng2 /\
    garry_txn_is_active 5 eng2 = Some false /\ garry_mvcc_get all_reads eng2 9 2 = Some (eng3, None).
Proof.
  destruct (sample_get_none 9) as [eng0 E0].
  apply (rolled_back_write_hidden 100 [] sample_engine [sample_txn] 2 [] 5 (replicate 600 7) 600 (replicate 600 7) eng0 _ 9 None
    (sample_can_set (replicate 600 7) 600 (replicate 600 7) ltac:(lia) eq_refl) (sample_cost 600 ltac:(lia)) sample_set_ok);
    [by left|lia|exact E0].
Defined.

Lemma begin_correct_witness :
  exists eng', garry_mvcc_begin sample_base = Some (eng', 5) /\ garry_txn_is_active 5 eng' = Some true.
Proof.
  destruct (begin_correct sample_base [] sample_base_rep ltac:(vm_compute; reflexivity)) as (eng' & r & E & H).
  rewrite decide_True in H by (vm_compute; split; reflexivity). destruct H as (_ & _ & H & _).
  assert (Hr : r = 5) by (vm_compute in E; by injection E as _ <-). subst r. exists eng'. split; [exact E|exact H].
Defined.

(** Two begins, the commit of the first transaction, a rollback of the second, and a
    third begin. *)
Lemma sample_run : exists e', table_run [Begin 5; Begin 6; Commit 5; Rollback 6; Begin 7] sample_base e'.
Proof.
  assert (H : exists e1 e2 e3 e4 e5, garry_mvcc_begin sample_base = Some (e1, 5) /\ garry_mvcc_begin e1 = Some (e2, 6) /\
    garry_mvcc_commit e2 5 = Some e3 /\ garry_mvcc_rollback e3 6 = Some e4 /\ garry_mvcc_begin e4 = Some (e5, 7) /\
    e_pool e2 = e_pool sample_base /\ e_next_txid e1 = 6 /\ e_next_txid e4 = 7).
  { do 5 eexists. split; [vm_compute; reflexivity|]. split; [vm_compute; reflexivity|]. split; [vm_compute; reflexivity|].
    split; [vm_compute; reflexivity|]. split; [vm_compute; reflexivity|]. split; [vm_compute; reflexivity|]. split; reflexivity. }
  destruct H as (a & b & c & d & f & Ea & Eb & Ec & Ed & Ef & Hp & Hn1 & Hn4). exists f.
  eapply run_cons; [eapply step_begin; [|exact Ea]; reflexivity|].
  eapply run_cons; [eapply step_begin; [|exact Eb]; rewrite Hn1; reflexivity|].
  eapply run_cons; [eapply (step_commit _ _ _ 100 []); [|exact Ec]; rewrite Hp; by apply sample_base_ready|].
  eapply run_cons; [eapply step_rollback; exact Ed|].
  eapply run_cons; [eapply step_begin; [|exact Ef]; rewrite Hn4; reflexivity|]. apply run_nil.
Qed.

Lemma table_invariant_witness : exists e' ts',
  table_run [Begin 5; Begin 6; Commit 5; Rollback 6; Begin 7] sample_base e' /\ table_of e' ts' /\
  6 ∈ map ti_txid ts' /\ 7 ∈ map ti_txid ts' /\ 7 < e_next_txid e'.
Proof.
  destruct sample_run as [e' Hrun].
  destruct (table_invariant _ sample_base e' [] Hrun) as (ts' & H1 & _ & _ & H4 & H5).
  - vm_compute. discriminate.
  - split; [exact sample_base_rep|]. split; [vm_compute; congruence|constructor].
  - exists e', ts'. split; [exact Hrun|]. split; [exact H1|]. split; [|split].
    + apply H5; [left; vm_compute; right; left|]. intros H. vm_compute in H. repeat (apply elem_of_cons in H as [H|H]; [discriminate H|]). by apply elem_of_nil in H.
    + apply H5; [left; vm_compute; right; right; left|]. intros H. vm_compute in H. repeat (apply elem_of_cons in H as [H|H]; [discriminate H|]). by apply elem_of_nil in H.
    + rewrite Forall_forall in H4. apply (H4 7). vm_compute. right. right. left.
Defined.

(** Two running transactions, 5 and 6. *)
Definition sample_two : garry_engine_handle := default sample_base (fst <$> garry_mvcc_begin sample_engine).
Definition sample_txn2 : garry_txn_info := TxnInfo 6 GARRY_TXN_ACTIVE 0 (zeros 16).

Lemma sample_two_state :
  txns_rep sample_two [sample_txn; sample_txn2] /\ e_pool sample_two = e_pool sample_engine /\
  e_page_size sample_two = 512.
Proof.
  destruct sample_state as (H1 & _ & _ & _ & _ & H6 & _).
  destruct (begin_spec sample_engine [sample_txn] H1) as (e & r & E & H); [vm_compute; reflexivity|].
  rewrite decide_True in H by (vm_compute; split; reflexivity). destruct H as (-> & Hp & _ & _ & pages & Hr).
  assert (Hs : sample_two = e) by (unfold sample_two; by rewrite E). rewrite Hs.
  assert (Hc : e_next_txid sample_engine = 6 /\
    slice (e_txn_states sample_two) 0 (e_active_count sample_two) = Some [sample_txn; sample_txn2] /\
    e_page_size sample_two = 512) by (split; [vm_compute; reflexivity|split; vm_compute; reflexivity]).
  destruct Hc as (Hn & Hc & Hps). rewrite Hs in Hc, Hps. rewrite Hn in Hr.
  rewrite (tr_states _ _ Hr) in Hc. injection Hc as ->. split; [exact Hr|]. split; [exact Hp|exact Hps].
Qed.

Definition sample_two_set : garry_engine_handle :=
  default sample_base (fst <$> garry_mvcc_set sample_two 5 2 (Some [118; 119]) 2).

Lemma read_not_repeatable_witness :
  exists eng2 eng3 eng4, garry_mvcc_get all_reads sample_two_set 6 2 = Some (eng2, None) /\
    garry_mvcc_commit sample_two_set 5 = Some eng3 /\
    garry_mvcc_get all_reads eng3 6 2 = Some (eng4, Some ([118; 119; 0], 2)).
Proof.
  destruct sample_two_state as (Hr & Hp & Hps).
  assert (E : garry_mvcc_set sample_two 5 2 (Some [118; 119]) 2 = Some (sample_two_set, true))
    by (unfold sample_two_set; vm_compute; reflexivity).
  assert (E0 : exists eng0, garry_mvcc_get all_reads sample_two 6 2 = Some (eng0, None))
    by (eexists; vm_compute; reflexivity).
  destruct E0 as [eng0 E0].
  apply (read_not_repeatable 100 [] sample_two [sample_txn; sample_txn2] 2 [] 5 [118; 119] 2 [118; 119] eng0 _ 6 None
    (sample_can_set_at sample_two _ [118; 119] 2 [118; 119] Hr Hp Hps ltac:(lia) eq_refl)
    ltac:(rewrite Hps, <- (proj1 (proj2 (proj2 (proj2 (proj2 (proj2 sample_state)))))); apply sample_cost; lia)
    E); [by left|by right; left|lia|exact E0].
Defined.
