(* ===== verification/StorageOps.v ===== *)
(** The storage operations, [src/src/storage_ops.c]: get, set, delete and their
    variants, which compose the B-tree, the version chains, the lock table, the log
    and compression. *)

From stdpp Require Import gmap.
From S2P Require Import Prelude Endian KeyEncoding BtreeCompression RecordCodec SlottedPage LockTable DbHeader Lz4.
From S2P Require Import FileIo BufferPool PoolClient BtreeNode NodeView BtreeSearch BtreeModify BtreeInsert.
From S2P Require Import VersionChain Overflow WalLog Transaction MvccStore.

Definition GARRY_LOOKUP_BUF_SIZE : Z := 512.
Definition GARRY_DESC_BUF_SIZE : Z := 64.
Definition GARRY_DATA_NOT_FOUND : Z := 0.
Definition GARRY_DATA_HAS_CHILDREN : Z := 1.
Definition GARRY_DATA_HAS_VALUE : Z := 10.
Definition GARRY_DATA_HAS_BOTH : Z := 11.

(** * The code *)

(** What the environment decides in an operation: the results of [malloc] for the
    splits of the tree, for the node of a lock, and for the output buffer and the
    table of a compression; and the bound of the descents into the tree. *)
Record outcomes := Outcomes {
  oc_split : Z -> bool; oc_lock : option (list Z); oc_buf : Z -> option (list Z); oc_table : bool;
  oc_record : bool; oc_read : Z -> read_mem; oc_fuel : nat
}.

(** Every [malloc] of a read succeeds. *)
Definition reads_ok (oc : outcomes) : Prop := forall cid, oc_read oc cid = all_reads.

Definition set_root (e : garry_engine_handle) (root : Z) : garry_engine_handle :=
  Engine (e_page_size e) (e_compression e) root (e_pool e) (e_next_txid e) (e_max_txns e)
    (e_active_txns e) (e_active_count e) (e_txn_states e) (e_wal e) (e_lock_mgr e) (e_settings e)
    (e_header e) (e_key_count e).
Definition set_key_count (e : garry_engine_handle) (n : Z) : garry_engine_handle :=
  Engine (e_page_size e) (e_compression e) (e_btree_root e) (e_pool e) (e_next_txid e) (e_max_txns e)
    (e_active_txns e) (e_active_count e) (e_txn_states e) (e_wal e) (e_lock_mgr e) (e_settings e)
    (e_header e) n.

Definition garry_decode_cid_from_descriptor (lookup_result : list Z) : option Z :=
  b ← rd lookup_result 0;
  if decide (b = GARRY_CBOR_MAP_BASE + 2) then
    '(chain_id, _) ← garry_decode_descriptor lookup_result GARRY_LOOKUP_BUF_SIZE;
    Some chain_id
  else Some b.

(** The search of the tree with the zeroed local buffer. *)
Definition lookup_key (fuel : nat) (eng : garry_engine_handle) (key : list Z) (klen : Z)
  : option (garry_engine_handle * option (list Z)) :=
  '(pool, r) ← garry_leaf_find_search fuel (e_pool eng) (e_btree_root eng) key klen (zeros GARRY_LOOKUP_BUF_SIZE);
  Some (set_pool eng pool, match r with Some (lookup, _) => Some lookup | None => None end).

(** The end of a get: the value is decompressed if the engine compresses, and
    copied to the result buffer, when one is given.  The inner [None] is the
    result 0; otherwise the buffer and [*result_len]. *)
Definition copy_out (result : option (list Z)) (src : list Z) (len : Z) : option (option (list Z)) :=
  match result with
  | None => Some None
  | Some out => out ← memcpy out 0 src 0 len; Some (Some out)
  end.
Definition deliver (oc : outcomes) (compression : Z) (val : list Z) (vlen : Z) (result : option (list Z))
  : option (option (option (list Z) * Z)) :=
  if decide (compression = GARRY_COMPRESS_LZ4) then
    '(d, decompressed_len) ← lz4_decompress val vlen GARRY_MAX_RECORD_SIZE (oc_buf oc);
    match d with
    | None => Some None
    | Some decompressed =>
        if decide (decompressed_len > GARRY_MAX_RECORD_SIZE) then Some None else
        result ← copy_out result decompressed decompressed_len;
        Some (Some (result, decompressed_len))
    end
  else
    result ← copy_out result val vlen;
    Some (Some (result, vlen)).

Definition garry_storage_get (oc : outcomes) (eng : garry_engine_handle) (txn : Z) (key : list Z) (klen : Z)
    (result : option (list Z)) : option (garry_engine_handle * option (option (list Z) * Z)) :=
  if decide (klen <= 0) then Some (eng, None) else
  if decide (klen > GARRY_MAX_KEY_SIZE) then Some (eng, None) else
  active ← garry_txn_is_active txn eng;
  if negb active then Some (eng, None) else
  '(eng, r) ← lookup_key (oc_fuel oc) eng key klen;
  match r with
  | None => Some (eng, None)
  | Some lookup =>
      cid ← garry_decode_cid_from_descriptor lookup;
      if decide (cid < 0) then Some (eng, None) else
      '(eng, v) ← garry_mvcc_get (oc_read oc cid) eng txn cid;
      match v with
      | None => Some (eng, None)
      | Some (val, vlen) => r ← deliver oc (e_compression eng) val vlen result; Some (eng, r)
      end
  end.

(** A key that is not in the tree gets a chain page and an entry with its
    descriptor; the inner [None] is the return of 0. *)
Definition create_key (oc : outcomes) (eng : garry_engine_handle) (key : list Z) (klen : Z)
  : option (garry_engine_handle * option (Z * bool)) :=
  '(eng, cid) ← garry_chain_allocate eng;
  if decide (cid < 0) then Some (eng, None) else
  '(desc, desc_len) ← garry_encode_descriptor cid false (zeros GARRY_DESC_BUF_SIZE);
  '(pool, root, ok) ← garry_btree_insert (oc_split oc) (oc_fuel oc) (e_pool eng) (e_btree_root eng)
                        key klen desc desc_len;
  let eng := set_root (set_pool eng pool) root in
  if ok : bool then Some (eng, Some (cid, true))
  else
    pool ← garry_pool_free_page (e_pool eng) cid;
    Some (set_pool eng pool, None).

(** The chain of the key, and whether the key is new. *)
Definition find_or_create (oc : outcomes) (eng : garry_engine_handle) (key : list Z) (klen : Z)
  : option (garry_engine_handle * option (Z * bool)) :=
  '(eng, r) ← lookup_key (oc_fuel oc) eng key klen;
  match r with
  | Some lookup =>
      cid ← garry_decode_cid_from_descriptor lookup;
      Some (eng, Some (cid, false))
  | None => create_key oc eng key klen
  end.

(** The record is appended when it could be made; the result of the append is
    ignored. *)
Definition log_update (oc : outcomes) (eng : garry_engine_handle) (txn : Z) (key : list Z) (klen : Z) (value : list Z) (vlen : Z)
  : option garry_engine_handle :=
  '(pool, rec) ← garry_make_update_record (oc_record oc) (e_pool eng) txn key klen value vlen;
  let eng := set_pool eng pool in
  match rec with
  | None => Some eng
  | Some rec => '(wal, _) ← garry_wal_log_append (e_wal eng) rec; Some (set_wal eng wal)
  end.

(** Writing the value to the chain, compressed if the engine compresses. *)
Definition store_value (oc : outcomes) (eng : garry_engine_handle) (txn cid : Z) (value : option (list Z)) (vlen : Z)
  : option (garry_engine_handle * bool) :=
  if decide (e_compression eng = GARRY_COMPRESS_LZ4) then
    '(c, compressed_len) ← lz4_compress (default [] value) vlen (oc_buf oc) (oc_table oc);
    match c with
    | None => Some (eng, false)
    | Some compressed => garry_mvcc_set eng txn cid (Some compressed) compressed_len
    end
  else garry_mvcc_set eng txn cid value vlen.

(** [value] is [None] when the caller passes [NULL], which is accepted with the
    length 0 and then not read. *)
Definition garry_storage_set (oc : outcomes) (eng : garry_engine_handle) (txn : Z) (key : list Z) (klen : Z)
    (value : option (list Z)) (vlen : Z) : option (garry_engine_handle * bool) :=
  if decide (klen <= 0) then Some (eng, false) else
  if decide (klen > GARRY_MAX_KEY_SIZE) then Some (eng, false) else
  if decide (vlen < 0 \/ (vlen > 0 /\ value = None)) then Some (eng, false) else
  active ← garry_txn_is_active txn eng;
  if negb active then Some (eng, false) else
  '(mgr, ok) ← garry_lock_acquire (e_lock_mgr eng) txn key klen GARRY_LOCK_EXCLUSIVE (oc_lock oc);
  let eng := set_lock_mgr eng mgr in
  if negb ok then Some (eng, false) else
  '(eng, r) ← find_or_create oc eng key klen;
  match r with
  | None => Some (eng, false)
  | Some (cid, new_key) =>
      eng ← log_update oc eng txn key klen (default [] value) vlen;
      '(eng, ok) ← store_value oc eng txn cid value vlen;
      if negb ok then Some (eng, false) else
      Some (if new_key : bool then set_key_count eng (e_key_count eng + 1) else eng, true)
  end.

Definition garry_storage_delete (oc : outcomes) (eng : garry_engine_handle) (txn : Z) (key : list Z) (klen : Z)
  : option (garry_engine_handle * bool) :=
  if decide (klen <= 0) then Some (eng, false) else
  active ← garry_txn_is_active txn eng;
  if negb active then Some (eng, false) else
  '(mgr, ok) ← garry_lock_acquire (e_lock_mgr eng) txn key klen GARRY_LOCK_EXCLUSIVE (oc_lock oc);
  let eng := set_lock_mgr eng mgr in
  if negb ok then Some (eng, false) else
  '(eng, r) ← lookup_key (oc_fuel oc) eng key klen;
  match r with
  | None => Some (eng, false)
  | Some lookup =>
      cid ← garry_decode_cid_from_descriptor lookup;
      if decide (cid < 0) then Some (eng, false) else
      rec ← garry_make_delete_record (oc_record oc) txn key klen;
      eng ← match rec with
            | None => Some eng
            | Some rec => '(wal, _) ← garry_wal_log_append (e_wal eng) rec; Some (set_wal eng wal)
            end;
      garry_mvcc_delete eng txn cid
  end.

(** The result buffer is not [NULL] here; the inner [None] is the result 0. *)
Definition garry_storage_get_default (oc : outcomes) (eng : garry_engine_handle) (txn : Z) (key : list Z) (klen : Z)
    (def : list Z) (dlen : Z) (result : list Z) : option (garry_engine_handle * option (list Z * Z)) :=
  '(eng, r) ← garry_storage_get oc eng txn key klen (Some result);
  match r with
  | Some (out, len) => Some (eng, Some (default result out, len))
  | None =>
      active ← garry_txn_is_active txn eng;
      if negb active then Some (eng, None) else
      if decide (dlen > GARRY_MAX_RECORD_SIZE) then Some (eng, None) else
      out ← memcpy result 0 def 0 dlen;
      Some (eng, Some (out, dlen))
  end.

Definition garry_storage_data (oc : outcomes) (eng : garry_engine_handle) (txn : Z) (key : list Z) (klen : Z)
  : option (garry_engine_handle * Z) :=
  if decide (klen <= 0) then Some (eng, 0) else
  '(eng, r) ← lookup_key (oc_fuel oc) eng key klen;
  match r with
  | None => Some (eng, 0)
  | Some lookup =>
      cid ← garry_decode_cid_from_descriptor lookup;
      if decide (cid < 0) then Some (eng, GARRY_DATA_NOT_FOUND) else
      b ← rd lookup 0;
      has_children ← (if decide (b = GARRY_CBOR_MAP_BASE + 2) then
                        snd <$> garry_decode_descriptor lookup GARRY_LOOKUP_BUF_SIZE
                      else Some false);
      '(eng, val) ← garry_mvcc_get (oc_read oc cid) eng txn cid;
      Some (eng, match val, has_children with
                 | Some _, true => GARRY_DATA_HAS_BOTH
                 | Some _, false => GARRY_DATA_HAS_VALUE
                 | None, true => GARRY_DATA_HAS_CHILDREN
                 | None, false => GARRY_DATA_NOT_FOUND
                 end)
  end.
