(* ===== verification/KeyStore.v ===== *)
(** The storage layer as a map: every key has a version chain, the tree maps the key
    to the descriptor of its chain, and get, set and delete of
    [src/src/storage_ops.c] read and extend the chain of one key and leave the
    others alone. *)

From stdpp Require Import gmap.
From S2P Require Import Prelude Endian KeyEncoding BtreeCompression RecordCodec SlottedPage LockTable DbHeader Lz4.
From S2P Require Import FileIo BufferPool PoolClient BtreeNode NodeView BtreeSearch BtreeModify BtreeInsert.
From S2P Require Import VersionChain Overflow WalLog Transaction MvccStore StorageOps.

(** * The store *)

(** The chains of the keys: the page of the chain and its cells. *)
Abbreviation chain := (Z * list cell)%type (only parsing).
Abbreviation chains := (gmap (list Z) (Z * list cell)) (only parsing).

Definition pages_of (c : chain) : list Z := c.1 :: chain_pages c.2.
Definition descriptor_of (c : chain) : list Z := enc_descriptor c.1 false.

(** Page 0 is the header's: it is in no chain and not in the tree. *)
Definition header_apart (C : chains) (fp : list Z) : Prop :=
  (GARRY_HEADER_PAGE ∉ fp) /\ forall k c, C !! k = Some c -> GARRY_HEADER_PAGE ∉ pages_of c.

(** [stored h eng ts C m fp]: the tree of height [h] on the pages [fp] maps the keys
    of [C] to the descriptors of their chains, no page belongs to two of these
    structures, and [ts] are the transactions in the table. *)
Record stored (h : nat) (eng : garry_engine_handle) (ts : list garry_txn_info) (C : chains)
    (m : list entry) (fp : list Z) : Prop := {
  sd_txns : txns_rep eng ts;
  sd_tree : btree h (e_pool eng) (e_btree_root eng) m fp;
  sd_entries : contents m = descriptor_of <$> C;
  sd_chain : forall k c, C !! k = Some c -> chain_at (e_pool eng) c.1 c.2;
  sd_apart : forall k c q, C !! k = Some c -> q ∈ pages_of c -> (q ∉ fp);
  sd_separate : forall k1 k2 c1 c2 q, k1 <> k2 -> C !! k1 = Some c1 -> C !! k2 = Some c2 ->
    q ∈ pages_of c1 -> (q ∉ pages_of c2);
  sd_page_size : e_page_size eng = p_page_size (e_pool eng);
  sd_ids : p_next_page (e_pool eng) <= id_limit;
  sd_header : header_apart C fp
}.

Definition store (h : nat) (eng : garry_engine_handle) (ts : list garry_txn_info) (C : chains) : Prop :=
  exists m fp, stored h eng ts C m fp.

(** What a transaction reads under a key. *)
Definition visible_value (ts : list garry_txn_info) (C : chains) (txn : Z) (k : list Z) : option (list Z) :=
  c ← C !! k; read_cells txn (map ti_txid ts) c.2.

Definition running (ts : list garry_txn_info) (txn : Z) : Prop :=
  exists t, txn_entry ts txn = Some t /\ ~ rolled_back t.

(** The key of an operation, as the caller's buffer holds it. *)
Record key_arg (ps : Z) (key : list Z) (klen : Z) (k : list Z) : Prop := {
  ka_slice : slice key 0 klen = Some k;
  ka_some : 0 < klen;
  ka_short : zlen k <= 255;
  ka_bytes : Forall is_byte k;
  ka_fits : entry_fits ps (k, zeros 14)
}.

(** * Frames *)

Lemma pages_of_range p c q : chain_at p c.1 c.2 -> q ∈ pages_of c -> q < p_next_page p.
Proof.
  intros [Hr Hp _] [->|Hq]%elem_of_cons; [lia|]. rewrite Forall_forall in Hp. by apply Hp.
Qed.

Lemma chain_at_writes W p p' c :
  writes W p p' -> chain_at p c.1 c.2 -> (forall q, q ∈ pages_of c -> (q ∉ W)) -> chain_at p' c.1 c.2.
Proof.
  intros [_ H2 H3 H4] Hc HW. apply (chain_at_frame p); [done..|]. intros q Hq.
  assert (Hin : q ∈ pages_of c) by (unfold pages_of; rewrite elem_of_cons; exact Hq).
  apply H4; [by eapply pages_of_range|by apply HW].
Qed.

Lemma btree_writes W h p p' root m fp :
  writes W p p' -> btree h p root m fp -> (forall q, q ∈ fp -> (q ∉ W)) -> btree h p' root m fp.
Proof.
  intros [_ H2 H3 H4] [T1 T2 T3 T4] HW. rewrite Forall_forall in T3.
  assert (Hv : forall q, q ∈ fp -> pool_view p' q = pool_view p q) by (intros q Hq; apply H4; [by apply T3|by apply HW]).
  split; [|done| |]; rewrite ?H2.
  - by apply (tree_frame _ (pool_view p)).
  - rewrite Forall_forall. intros q Hq. specialize (T3 q Hq). lia.
  - by rewrite (leaf_seq_view _ (pool_view p)).
Qed.

Lemma grown_writes p p' : grown p p' -> writes [] p p'.
Proof. intros [G1 G2 G3 G4]. split; [done|done|done|]. intros q Hq _. by apply G4. Qed.

Lemma empty_apart root : 0 < root -> header_apart ∅ [root].
Proof.
  intros H. split; [|intros k c; by rewrite lookup_empty]. unfold GARRY_HEADER_PAGE. rewrite list_elem_of_singleton. lia.
Qed.

Lemma btree_next h p root m fp : btree h p root m fp -> 0 < p_next_page p.
Proof.
  intros [T1 _ T3 _]. destruct (tree_root _ _ _ _ _ _ T1) as (f & ->). apply Forall_cons in T3 as [? _]. lia.
Qed.

(** The root is not page 0. *)
Lemma stored_next h eng ts C m fp : stored h eng ts C m fp -> 2 <= p_next_page (e_pool eng).
Proof.
  intros Hs. pose proof (sd_tree _ _ _ _ _ _ Hs) as [T1 _ T3 _]. destruct (sd_header _ _ _ _ _ _ Hs) as [Hh _].
  destruct (tree_root _ _ _ _ _ _ T1) as (f & ->). apply Forall_cons in T3 as [? _].
  apply not_elem_of_cons in Hh as [Hh _]. unfold GARRY_HEADER_PAGE in Hh. lia.
Qed.

(** One chain is rewritten, with new pages at most; the rest of the store stays. *)
Lemma stored_update h eng eng' ts ts' C m fp k c cells' :
  stored h eng ts C m fp -> C !! k = Some c -> writes [c.1] (e_pool eng) (e_pool eng') ->
  chain_at (e_pool eng') c.1 cells' ->
  (forall q, q ∈ chain_pages cells' -> q ∈ chain_pages c.2 \/ p_next_page (e_pool eng) <= q) ->
  txns_rep eng' ts' -> e_btree_root eng' = e_btree_root eng -> e_page_size eng' = e_page_size eng ->
  p_next_page (e_pool eng') <= id_limit ->
  stored h eng' ts' (<[k := (c.1, cells')]> C) m fp.
Proof.
  intros [S1 S2 S3 S4 S5 S6 S7 S8 S9] Hk Hw Hch Hpg Ht Hroot Hps Hid.
  pose proof (bt_pages _ _ _ _ _ S2) as Hfp. rewrite Forall_forall in Hfp.
  assert (Hnew : forall q, q ∈ pages_of (c.1, cells') -> q ∈ pages_of c \/ p_next_page (e_pool eng) <= q).
  { unfold pages_of. cbn [fst snd]. intros q [->|Hq]%elem_of_cons; [left; by left|].
    destruct (Hpg q Hq) as [?|?]; [left; by right|by right]. }
  assert (Hself : c.1 ∈ pages_of c) by by left.
  split.
  - exact Ht.
  - rewrite Hroot. apply (btree_writes _ _ _ _ _ _ _ Hw S2). intros q Hq ->%list_elem_of_singleton.
    exact (S5 k c c.1 Hk Hself Hq).
  - rewrite S3, fmap_insert. apply map_eq. intros k'. destruct (decide (k' = k)) as [->|Hne].
    + by rewrite lookup_insert_eq, lookup_fmap, Hk.
    + by rewrite lookup_insert_ne by done.
  - intros k' c'. rewrite lookup_insert_Some. intros [[<- <-]|[Hne Hc']]; [exact Hch|].
    apply (chain_at_writes [c.1] (e_pool eng)); [exact Hw|by eapply S4|].
    intros q Hq ->%list_elem_of_singleton. exact (S6 k k' c c' c.1 Hne Hk Hc' Hself Hq).
  - intros k' c' q. rewrite lookup_insert_Some. intros [[<- <-]|[Hne Hc']] Hq; [|by eapply S5].
    destruct (Hnew q Hq) as [Hin|Hge]; [by eapply S5|]. intros Hin. specialize (Hfp q Hin). lia.
  - assert (Hold : forall k' c' q, k <> k' -> C !! k' = Some c' -> q ∈ pages_of c' ->
      (q ∉ pages_of (c.1, cells'))).
    { intros k' c' q Hne Hc' Hq Hin. destruct (Hnew q Hin) as [Hin'|Hge].
      - exact (S6 k k' c c' q Hne Hk Hc' Hin' Hq).
      - pose proof (pages_of_range _ _ q (S4 k' c' Hc') Hq). lia. }
    intros k1 k2 c1 c2 q Hne. rewrite !lookup_insert_Some.
    intros [[<- <-]|[Hn1 H1]] [[<- <-]|[Hn2 H2]] Hq; [done| | |].
    + intros Hq2. by apply (Hold k2 c2 q).
    + by apply (Hold k1 c1 q).
    + by apply (S6 k1 k2 c1 c2).
  - rewrite Hps, S7. symmetry. apply Hw.
  - exact Hid.
  - destruct S9 as [A1 A2]. split; [exact A1|]. intros k' c'. rewrite lookup_insert_Some.
    intros [[<- <-]|[_ Hc']]; [|by eapply A2]. intros Hin. pose proof (btree_next _ _ _ _ _ S2).
    destruct (Hnew _ Hin) as [Hq|Hq]; [by eapply A2|]. unfold GARRY_HEADER_PAGE in Hq. lia.
Qed.

(** Nothing but new pages. *)
Lemma stored_grown h eng eng' ts ts' C m fp :
  stored h eng ts C m fp -> writes [] (e_pool eng) (e_pool eng') -> txns_rep eng' ts' ->
  e_btree_root eng' = e_btree_root eng -> e_page_size eng' = e_page_size eng ->
  p_next_page (e_pool eng') <= id_limit -> stored h eng' ts' C m fp.
Proof.
  intros [S1 S2 S3 S4 S5 S6 S7 S8 S9] Hw Ht Hroot Hps Hid. split; try done.
  - rewrite Hroot. apply (btree_writes _ _ _ _ _ _ _ Hw S2). intros q _. apply not_elem_of_nil.
  - intros k c Hc. apply (chain_at_writes [] (e_pool eng)); [exact Hw|by eapply S4|]. intros q _. apply not_elem_of_nil.
  - rewrite Hps, S7. symmetry. apply Hw.
Qed.

(** * Lookup and get *)

Lemma zlen_descriptor cid hc : 10 <= zlen (enc_descriptor cid hc) <= 14.
Proof.
  unfold enc_descriptor. fold (enc_cid cid). rewrite !zlen_app. pose proof (zlen_enc_cid cid).
  change (zlen [162; 99; 99; 105; 100]) with 5. change (zlen [98; 104; 99; if hc then 245 else 244]) with 4. lia.
Qed.

(** The chain id read back from the buffer of a lookup. *)
Lemma decode_cid_spec lookup cid :
  is_i32 cid -> slice lookup 0 (zlen (enc_descriptor cid false)) = Some (enc_descriptor cid false) ->
  garry_decode_cid_from_descriptor lookup = Some cid.
Proof.
  intros Hc (p & q & -> & Hp & _)%slice_inv. destruct p; [|rewrite zlen_cons in Hp; pose proof (zlen_nonneg p); lia].
  pose proof (zlen_descriptor cid false). unfold garry_decode_cid_from_descriptor.
  change (rd ([] ++ enc_descriptor cid false ++ q) 0) with (Some 162). cbn [mbind option_bind].
  rewrite decide_True by done. cbn [app].
  rewrite (decode_descriptor_enc cid false q GARRY_LOOKUP_BUF_SIZE Hc) by (unfold GARRY_LOOKUP_BUF_SIZE; lia). done.
Qed.

Lemma chain_id_ok h eng ts C m fp k c : stored h eng ts C m fp -> C !! k = Some c -> is_i32 c.1 /\ 0 <= c.1.
Proof.
  intros Hs Hc. pose proof (ch_range _ _ _ (sd_chain _ _ _ _ _ _ Hs k c Hc)). pose proof (sd_ids _ _ _ _ _ _ Hs).
  unfold is_i32, id_limit, GARRY_PAGE_ID_BIAS in *. lia.
Qed.

Lemma lookup_key_spec h eng ts C m fp fuel n pins key klen k :
  stored h eng ts C m fp -> ready (n + 2 * (Z.of_nat h + 1)) pins [] (e_pool eng) -> 0 <= n ->
  zlen pins < p_capacity (e_pool eng) -> key_arg (p_page_size (e_pool eng)) key klen k -> (h < fuel)%nat ->
  exists p' r, lookup_key fuel eng key klen = Some (set_pool eng p', r) /\ ready n pins [] p' /\
    keeps (e_pool eng) p' /\ stable pins (e_pool eng) p' /\
    match C !! k with
    | Some c => exists lookup, r = Some lookup /\ garry_decode_cid_from_descriptor lookup = Some c.1 /\
        slice lookup 0 (zlen (descriptor_of c)) = Some (descriptor_of c)
    | None => r = None
    end.
Proof.
  intros Hs Hr Hn Hc [K1 K2 K3 K4 K5] Hf. pose proof (sd_tree _ _ _ _ _ _ Hs) as [T1 T2 T3 T4].
  destruct (search_spec _ h (e_pool eng) (e_btree_root eng) m fp fuel n pins key klen k (zeros GARRY_LOOKUP_BUF_SIZE)
    T1 T3 Hr Hn Hc eq_refl K1 K4) as (p' & r & E & Hr' & Hk & Hst & Hm); [vm_compute; discriminate|exact Hf|].
  unfold lookup_key. rewrite E. cbn [mbind option_bind].
  rewrite (sd_entries _ _ _ _ _ _ Hs), lookup_fmap in Hm.
  destruct (C !! k) as [c|] eqn:Ec; cbn [fmap option_fmap option_map] in Hm.
  - destruct Hm as (res & -> & Hsl & _). do 2 eexists. split; [reflexivity|]. split; [exact Hr'|].
    split; [exact Hk|]. split; [exact Hst|]. exists res. split; [done|]. split; [|exact Hsl].
    apply decode_cid_spec; [by eapply chain_id_ok|exact Hsl].
  - rewrite Hm. do 2 eexists. split; [reflexivity|]. by split; [|split].
Qed.

(** The accesses of a get. *)
Definition read_cost (h : nat) (C : chains) (k : list Z) : Z :=
  2 * (Z.of_nat h + 1) + match C !! k with Some c => get_cost c.2 | None => 0 end.

Lemma get_cost_pos cells : 2 <= get_cost cells.
Proof. unfold get_cost. pose proof (zlen_nonneg (chain_pages cells)). lia. Qed.

Lemma running_active eng ts txn : txns_rep eng ts -> running ts txn -> garry_txn_is_active txn eng = Some true.
Proof. intros Ht (t & E & Hn). rewrite (is_active_spec _ _ _ Ht), E. f_equal. by apply bool_decide_eq_true. Qed.

Lemma storage_get_spec h eng ts C m fp oc n pins key klen k txn result :
  stored h eng ts C m fp -> ready (n + read_cost h C k) pins [] (e_pool eng) -> 0 <= n ->
  zlen pins + 1 < p_capacity (e_pool eng) -> key_arg (p_page_size (e_pool eng)) key klen k -> (h < oc_fuel oc)%nat -> reads_ok oc ->
  running ts txn ->
  exists p', ready n pins [] p' /\ keeps (e_pool eng) p' /\
    garry_storage_get oc eng txn key klen result =
      (r ← match visible_value ts C txn k with
           | None => Some None
           | Some b => deliver oc (e_compression eng) (b ++ [0]) (zlen b) result
           end; Some (set_pool eng p', r)).
Proof.
  intros Hs Hr Hn Hc Hk Hf Hm Hrun. pose proof (ka_slice _ _ _ _ Hk) as Hsl.
  pose proof (slice_is_Some _ _ _ _ Hsl) as (_ & _ & _ & Hkl). unfold read_cost in Hr.
  unfold garry_storage_get, visible_value. pose proof (ka_some _ _ _ _ Hk). pose proof (ka_short _ _ _ _ Hk).
  rewrite decide_False by lia. rewrite decide_False by (unfold GARRY_MAX_KEY_SIZE; lia).
  rewrite (running_active _ _ _ (sd_txns _ _ _ _ _ _ Hs) Hrun). cbn [mbind option_bind negb].
  set (cost := match C !! k with Some c => get_cost c.2 | None => 0 end) in *.
  assert (Hcost : 0 <= cost) by (subst cost; destruct (C !! k) as [c|]; [pose proof (get_cost_pos c.2)|]; lia).
  destruct (lookup_key_spec h eng ts C m fp (oc_fuel oc) (n + cost) pins key klen k Hs) as (p1 & r & -> & Hr1 & Hk1 & _ & Hlk);
    [by replace (n + cost + 2 * (Z.of_nat h + 1)) with (n + (2 * (Z.of_nat h + 1) + cost)) by lia|lia|lia|exact Hk|exact Hf|].
  cbn [mbind option_bind]. destruct (C !! k) as [c|] eqn:Ec.
  - destruct Hlk as (lookup & -> & -> & _). cbn [mbind option_bind].
    pose proof (chain_id_ok _ _ _ _ _ _ _ _ Hs Ec) as [_ Hc0]. rewrite decide_False by lia.
    rewrite Hm. destruct (get_spec n pins (set_pool eng p1) ts txn c.1 c.2) as (p2 & -> & Hr2 & Hk2 & _).
    + by apply (txns_rep_fields eng); [apply Hs|..].
    + exact Hr1.
    + exact Hn.
    + cbn. by rewrite (kp_capacity _ _ Hk1).
    + cbn. by rewrite (kp_page_size _ _ Hk1), (sd_page_size _ _ _ _ _ _ Hs).
    + apply (chain_at_grown (e_pool eng)); [by apply keeps_grown|]. by apply (sd_chain _ _ _ _ _ _ Hs k).
    + exists p2. split; [exact Hr2|]. split; [transitivity p1; [exact Hk1|exact Hk2]|]. cbn [mbind option_bind].
      by destruct (read_cells txn (map ti_txid ts) c.2) as [b|].
  - subst r. exists p1. split; [eapply ready_le; [exact Hr1|lia]|]. by split.
Qed.

(** * Find or create *)

Lemma new_descriptor ps key klen k cid desc :
  key_arg ps key klen k -> slice desc 0 (zlen (enc_descriptor cid false)) = Some (enc_descriptor cid false) ->
  new_entry ps key klen desc (zlen (enc_descriptor cid false)) k (enc_descriptor cid false).
Proof.
  intros [K1 K2 K3 K4 K5] Hd. pose proof (zlen_descriptor cid false). split; [exact K1|exact Hd|]. split.
  - exact K3.
  - unfold short. cbn [snd]. lia.
  - exact K4.
  - unfold entry_fits in *. cbn [fst snd] in *. change (zlen (zeros 14)) with 14 in K5. lia.
Qed.

(** The accesses of the find-or-create step, beyond the lookup. *)
Definition create_cost (h : nat) : Z := 3 + insert_cost h.

(** The new key: a new chain page, entered into the tree. *)
Lemma create_spec h eng ts C m fp oc n pins key klen k :
  stored h eng ts C m fp -> C !! k = None -> ready (n + create_cost h) pins [] (e_pool eng) -> 0 <= n ->
  zlen pins < p_capacity (e_pool eng) -> key_arg (p_page_size (e_pool eng)) key klen k -> (h < oc_fuel oc)%nat ->
  page_size_ok (p_page_size (e_pool eng)) -> (forall q, oc_split oc q = true) ->
  p_next_page (e_pool eng) + Z.of_nat h + 3 <= id_limit ->
  exists h' eng' fp', (h' = h \/ h' = S h) /\
    create_key oc eng key klen = Some (eng', Some (p_next_page (e_pool eng), true)) /\
    stored h' eng' ts (<[k := (p_next_page (e_pool eng), [])]> C)
      (upsert k (enc_descriptor (p_next_page (e_pool eng)) false) m) fp' /\
    eng' = set_root (set_pool eng (e_pool eng')) (e_btree_root eng') /\
    ready n pins [] (e_pool eng') /\ stable pins (e_pool eng) (e_pool eng') /\ writes fp (e_pool eng) (e_pool eng') /\
    p_next_page (e_pool eng') <= p_next_page (e_pool eng) + Z.of_nat h + 3.
Proof.
  intros Hs Hnone Hr Hn Hcap Hk Hf Hps Hsplit Hid. unfold create_key. unfold create_cost in Hr. set (cid := p_next_page (e_pool eng)) in *.
  pose proof Hs as [S1 S2 S3 S4 S5 S6 S7 S8 S9]. pose proof (rdy_next _ _ _ _ Hr) as H0. fold cid in H0.
  assert (Hcost : 0 <= insert_cost h) by (unfold insert_cost, level_cost; lia). pose proof Hps as [Hps1 Hps2].
  assert (Hid2 : cid < 2 ^ 31 - 1) by (unfold id_limit, GARRY_PAGE_ID_BIAS in *; lia).
  destruct (chain_allocate_spec (n + insert_cost h) pins eng) as (p1 & -> & Hr1 & Hx1 & Hg1 & Hst1 & Hch1);
    [by replace (n + insert_cost h + 3) with (n + (3 + insert_cost h)) by lia|lia|exact Hcap|exact Hid2|exact S7|
     rewrite S7; unfold GARRY_PAGE_HEADER_SIZE, GARRY_SLOT_SIZE in *; lia|].
  fold cid in Hx1, Hch1 |- *. cbn [mbind option_bind]. rewrite decide_False by lia.
  pose proof (zlen_descriptor cid false) as Hdl.
  destruct (blit_ok (zeros GARRY_DESC_BUF_SIZE) 0 (enc_descriptor cid false)) as (desc & Ed & _);
    [lia|change (zlen (zeros GARRY_DESC_BUF_SIZE)) with 64; lia|].
  rewrite encode_descriptor_blit by (unfold is_i32; lia). rewrite Ed. cbn [fmap option_fmap option_map mbind option_bind].
  pose proof (grown_writes _ _ Hg1) as Hw1. pose proof (gr_page_size _ _ Hg1) as Hps'.
  assert (Hid3 : p_next_page p1 + Z.of_nat h + 2 <= id_limit) by lia.
  destruct (btree_insert_spec (oc_split oc) h p1 (e_btree_root eng) m fp (oc_fuel oc) n pins key klen desc
    (zlen (enc_descriptor cid false)) k (enc_descriptor cid false)) as
    (p2 & root' & h' & fp' & E2 & T2 & Hh & Hr2 & Hst2 & Hw2 & Hx2 & Hfp2).
  - exact Hsplit.
  - apply (btree_writes [] _ (e_pool eng)); [exact Hw1|exact S2|]. intros q _. apply not_elem_of_nil.
  - exact Hr1.
  - exact Hn.
  - by rewrite (gr_capacity _ _ Hg1).
  - exact Hid3.
  - by rewrite Hps'.
  - rewrite Hps'. apply new_descriptor; [exact Hk|exact (slice_blit _ _ _ _ Ed)].
  - exact Hf.
  - cbn [e_pool set_pool e_btree_root]. rewrite E2. cbn [mbind option_bind].
    exists h', (set_root (set_pool (set_pool eng p1) p2) root'), fp'. split; [exact Hh|]. split; [reflexivity|].
    assert (Hw : writes fp (e_pool eng) p2).
    { apply (writes_trans fp fp _ p1); [|exact Hw2|intros q Hq; by left].
      apply (writes_weaken []); [exact Hw1|]. intros q Hq. by apply not_elem_of_nil in Hq. }
    pose proof (bt_pages _ _ _ _ _ S2) as Hfp. rewrite Forall_forall in Hfp.
    assert (Hout : forall q, q < p_next_page p1 -> (q ∉ fp) -> (q ∉ fp')).
    { intros q Hq Hni Hin. destruct (Hfp2 q Hin) as [?|?]; [done|lia]. }
    assert (Hcid : cid ∉ fp) by (intros Hin; specialize (Hfp cid Hin); unfold cid in Hfp; lia).
    assert (Hold : forall k' c, C !! k' = Some c -> k' <> k /\ chain_at p2 c.1 c.2 /\
      forall q, q ∈ pages_of c -> q < cid /\ (q ∉ fp)).
    { intros k' c Hc. split; [congruence|]. split.
      - apply (chain_at_writes fp (e_pool eng)); [exact Hw|by eapply S4|]. intros q Hq. by eapply S5.
      - intros q Hq. split; [by eapply pages_of_range; [by eapply S4|]|by eapply S5]. }
    split; [|split; [by destruct eng|split; [exact Hr2|split; [transitivity p1; [exact Hst1|exact Hst2]|split; [exact Hw|cbn; lia]]]]].
    split.
    + by apply (txns_rep_fields eng).
    + exact T2.
    + rewrite contents_upsert, S3, fmap_insert. done.
    + intros k' c. rewrite lookup_insert_Some. intros [[<- <-]|[Hne Hc]]; [|by apply Hold in Hc as (_ & ? & _)].
      apply (chain_at_writes fp p1); [exact Hw2|exact Hch1|]. intros q [->|Hq]%elem_of_cons; [exact Hcid|].
      by apply not_elem_of_nil in Hq.
    + intros k' c q. rewrite lookup_insert_Some. intros [[<- <-]|[Hne Hc]] Hq.
      * apply elem_of_cons in Hq as [->|Hq]; [|by apply not_elem_of_nil in Hq]. apply Hout; [cbn; lia|exact Hcid].
      * destruct (Hold k' c Hc) as (_ & _ & Hp). destruct (Hp q Hq) as [Hlt Hni]. apply Hout; [lia|exact Hni].
    + intros k1 k2 c1 c2 q Hne. rewrite !lookup_insert_Some.
      intros [[<- <-]|[Hn1 H1]] [[<- <-]|[Hn2 H2]] Hq; [done| | |by apply (S6 k1 k2 c1 c2)].
      * apply elem_of_cons in Hq as [->|Hq]; [|by apply not_elem_of_nil in Hq].
        intros Hin. destruct (Hold k2 c2 H2) as (_ & _ & Hp). destruct (Hp _ Hin). cbn in *. lia.
      * intros [->|Hq2]%elem_of_cons; [|by apply not_elem_of_nil in Hq2].
        destruct (Hold k1 c1 H1) as (_ & _ & Hp). destruct (Hp _ Hq). cbn in *. lia.
    + cbn. rewrite S7, (ws_page_size _ _ _ Hw). done.
    + cbn. lia.
    + destruct S9 as [A1 A2]. pose proof (btree_next _ _ _ _ _ S2) as Hpos. fold cid in Hpos. split.
      * unfold GARRY_HEADER_PAGE in *. apply Hout; [lia|exact A1].
      * intros k' c. rewrite lookup_insert_Some. intros [[<- <-]|[_ Hc]]; [|by eapply A2].
        intros [Hq|Hq]%elem_of_cons; [unfold GARRY_HEADER_PAGE in Hq; cbn in Hq; lia|by apply not_elem_of_nil in Hq].
Qed.

(** The fields a change of the tree leaves alone. *)
Definition same_but_tree (e e' : garry_engine_handle) : Prop :=
  e' = set_root (set_pool e (e_pool e')) (e_btree_root e').

Lemma find_or_create_spec h eng ts C m fp oc n pins key klen k :
  stored h eng ts C m fp -> ready (n + 2 * (Z.of_nat h + 1) + create_cost h) pins [] (e_pool eng) -> 0 <= n ->
  zlen pins < p_capacity (e_pool eng) -> key_arg (p_page_size (e_pool eng)) key klen k -> (h < oc_fuel oc)%nat ->
  page_size_ok (p_page_size (e_pool eng)) -> (forall q, oc_split oc q = true) ->
  p_next_page (e_pool eng) + Z.of_nat h + 3 <= id_limit ->
  exists h' eng' m' fp' c, find_or_create oc eng key klen = Some (eng', Some (c.1, bool_decide (C !! k = None))) /\
    (h' = h \/ h' = S h) /\ stored h' eng' ts (<[k:=c]> C) m' fp' /\
    (C !! k = Some c \/ C !! k = None /\ c.2 = []) /\ same_but_tree eng eng' /\ ready n pins [] (e_pool eng') /\
    p_capacity (e_pool eng') = p_capacity (e_pool eng) /\ p_page_size (e_pool eng') = p_page_size (e_pool eng) /\
    p_next_page (e_pool eng) <= p_next_page (e_pool eng') <= p_next_page (e_pool eng) + Z.of_nat h + 3.
Proof.
  intros Hs Hr Hn Hcap Hk Hf Hps Hsplit Hid. unfold find_or_create.
  assert (Hcost : 0 <= create_cost h) by (unfold create_cost, insert_cost, level_cost; lia).
  destruct (lookup_key_spec h eng ts C m fp (oc_fuel oc) (n + create_cost h) pins key klen k Hs) as (p1 & r & -> & Hr1 & Hk1 & _ & Hm);
    [by replace (n + create_cost h + 2 * (Z.of_nat h + 1)) with (n + 2 * (Z.of_nat h + 1) + create_cost h) by lia|lia|exact Hcap|exact Hk|exact Hf|].
  cbn [mbind option_bind]. pose proof Hk1 as [K1 K2 K3 K4].
  assert (Hs1 : stored h (set_pool eng p1) ts C m fp).
  { apply (stored_grown h eng _ ts); [exact Hs|by apply keeps_writes|by apply (txns_rep_fields eng); [apply Hs|..]|done|done|].
    cbn. rewrite K3. apply Hs. }
  destruct (C !! k) as [c|] eqn:Ec.
  - destruct Hm as (lookup & -> & -> & _). cbn [mbind option_bind]. rewrite bool_decide_false by done.
    exists h, (set_pool eng p1), m, fp, c. split; [reflexivity|]. split; [by left|]. rewrite insert_id by done.
    split; [exact Hs1|]. split; [by left|]. split; [by destruct eng|]. split; [eapply ready_le; [exact Hr1|lia]|].
    split; [exact K1|]. split; [exact K2|]. cbn. lia.
  - subst r. rewrite bool_decide_true by done.
    destruct (create_spec h (set_pool eng p1) ts C m fp oc n pins key klen k Hs1 Ec Hr1 Hn) as
      (h' & eng' & fp' & Hh & E & Hs' & He & Hr' & _ & Hw & Hx); cbn; rewrite ?K1, ?K2, ?K3; try done.
    cbn [e_pool set_pool] in *. pose proof Hw as [W1 W2 W3 _]. rewrite K1 in W1. rewrite K2 in W2. rewrite K3 in W3, E, Hs', Hx.
    eexists h', eng', _, fp', (p_next_page (e_pool eng), []). split; [exact E|]. split; [exact Hh|].
    split; [exact Hs'|]. split; [by right|]. split; [rewrite He; by destruct eng|]. split; [exact Hr'|].
    split; [exact W1|]. split; [exact W2|]. lia.
Qed.

(** * The log record of a set *)

Definition log_pages (ps vlen : Z) : Z := if decide (vlen > WalLog.GARRY_MAX_KEY_SIZE) then ovf_pages ps vlen else 0.

(** What the record of an update says. *)
Record update_record (rec : garry_wal_record) (txn : Z) (k v : list Z) : Prop := {
  ur_kind : wr_kind rec = GARRY_WAL_UPDATE;
  ur_txid : wr_txid rec = txn;
  ur_key : wr_key_len rec = zlen k /\ slice (wr_key rec) 0 (zlen k) = Some k;
  ur_vlen : wr_value_len rec = zlen v;
  ur_inline : zlen v <= 256 -> wr_new_is_overflow rec = false /\ slice (wr_new_data rec) 0 (zlen v) = Some v;
  ur_overflow : 256 < zlen v -> wr_new_is_overflow rec = true
}.

Lemma field_copy src len s :
  slice src 0 len = Some s -> len <= 256 ->
  exists f, memcpy (zeros WalLog.GARRY_MAX_KEY_SIZE) 0 src 0 len = Some f /\ zlen f = 256 /\ slice f 0 (zlen s) = Some s.
Proof.
  intros Hs Hl. pose proof (slice_is_Some _ _ _ _ Hs) as (_ & _ & _ & Hz). unfold memcpy. rewrite Hs. cbn [mbind option_bind].
  destruct (blit_ok (zeros WalLog.GARRY_MAX_KEY_SIZE) 0 s) as (f & E & Hf); [lia|change (zlen (zeros WalLog.GARRY_MAX_KEY_SIZE)) with 256; lia|].
  exists f. split; [exact E|]. split; [exact Hf|exact (slice_blit _ _ _ _ E)].
Qed.

Lemma update_record_spec n pins p txn key klen k value vlen v :
  ready (n + 5 * log_pages (p_page_size p) vlen) pins [] p -> 0 <= n -> zlen pins + 2 <= p_capacity p ->
  p_next_page p + log_pages (p_page_size p) vlen <= 2 ^ 31 - 1 -> 0 < garry_overflow_chunk_size (p_page_size p) ->
  p_page_size p <= GARRY_MAX_PAGE_SIZE -> is_i32 txn ->
  slice key 0 klen = Some k -> 0 < klen <= 256 -> slice value 0 vlen = Some v -> vlen < 2 ^ 31 ->
  exists p' rec, garry_make_update_record true p txn key klen value vlen = Some (p', Some rec) /\
    record_ok rec /\ update_record rec txn k v /\ ready n pins [] p' /\ writes [] p p' /\ stable pins p p' /\
    p_next_page p' <= p_next_page p + log_pages (p_page_size p) vlen.
Proof.
  intros Hr Hn Hcap Hid Hch Hps Htx Hk Hkl Hv Hvl. unfold garry_make_update_record, record_key. cbn [negb].
  pose proof (slice_is_Some _ _ _ _ Hk) as (_ & _ & _ & Hkz). pose proof (slice_is_Some _ _ _ _ Hv) as (_ & Hv0 & _ & Hvz).
  destruct (field_copy key klen k Hk) as (kf & Ek & Hkf & Hks); [lia|]. rewrite decide_True, Ek by lia. cbn [mbind option_bind].
  assert (Hrec : forall data ovf head, zlen data = 256 -> is_i32 head ->
    record_ok (WalRecord GARRY_WAL_UPDATE txn kf klen vlen (zeros WalLog.GARRY_MAX_KEY_SIZE) data ovf head)).
  { intros data ovf head Hd Hh. split; cbn; [exact Htx|unfold is_i32; lia|unfold is_i32; lia|exact Hh|exact Hkf|done|exact Hd]. }
  assert (Hkey : klen = zlen k /\ slice kf 0 (zlen k) = Some k) by (split; [lia|exact Hks]).
  unfold log_pages, WalLog.GARRY_MAX_KEY_SIZE in *. destruct (decide (vlen > 0)) as [Hd|Hd].
  - destruct (decide (vlen <= 256)) as [Hl|Hl].
    + rewrite (decide_False (P := vlen > 256)) in * by lia. rewrite Z.mul_0_r, Z.add_0_r in Hr.
      destruct (field_copy value vlen v Hv Hl) as (vf & Ev & Hvf & Hvs). unfold WalLog.GARRY_MAX_KEY_SIZE in Ev. rewrite Ev. cbn [mbind option_bind].
      do 2 eexists. split; [reflexivity|]. split; [apply Hrec; [exact Hvf|unfold is_i32; lia]|].
      split; [split; cbn; [done|done|exact Hkey|lia|done|lia]|]. split; [exact Hr|].
      split; [apply keeps_writes; reflexivity|]. split; [reflexivity|lia].
    + rewrite (decide_True (P := vlen > 256)) in * by lia.
      destruct (overflow_write_spec n pins p value vlen v Hr Hn Hcap Hid Hch Hps Hv) as (p' & pids & -> & W & Hx).
      destruct W as [W1 W2 W3 W4 W5 W6 W7 W8 W9]. cbn [mbind option_bind].
      destruct pids as [|q pids]; [cbn in W6; subst v; change (zlen (@nil Z)) with 0 in Hvz; lia|]. cbn [head default].
      unfold id. apply Forall_cons in W7 as [[Hq _] _]. rewrite decide_False by lia.
      do 2 eexists. split; [reflexivity|]. split; [apply Hrec; [done|unfold is_i32; lia]|].
      split; [split; cbn; [done|done|exact Hkey|lia|lia|done]|]. split; [exact W1|].
      split; [split; [exact W2|exact W3|exact W4|intros x Hx' _; apply W9; [exact Hx'|apply not_elem_of_nil]]|].
      split; [exact W5|exact Hx].
  - rewrite (decide_False (P := vlen > 256)) in * by lia. rewrite Z.mul_0_r, Z.add_0_r in Hr.
    assert (v = []) as -> by (destruct v; [done|rewrite zlen_cons in Hvz; pose proof (zlen_nonneg v); lia]).
    do 2 eexists. split; [reflexivity|]. split; [apply Hrec; [done|unfold is_i32; lia]|].
    split; [split; cbn; [done|done|exact Hkey|done|by intros _; split|done]|]. split; [exact Hr|].
    split; [apply keeps_writes; reflexivity|]. split; [reflexivity|lia].
Qed.

(** One more record in the log. *)
Definition log_grown (wal wal' : garry_wal_log) : Prop :=
  wl_last_lsn wal' = wl_last_lsn wal + 1 /\ (wl_last_lsn wal' < 2 ^ 31 - 1 -> log_ready wal').

Lemma append_grown wal r :
  log_ready wal -> record_ok r ->
  exists wal', garry_wal_log_append wal r = Some (wal', wl_last_lsn wal + 1) /\
    f_bytes (wl_fd wal') = f_bytes (wl_fd wal) ++ encode_record r /\ log_grown wal wal'.
Proof.
  intros Hr Hok. destruct (log_append_spec wal r Hr Hok) as (wal' & E & Hb & Hl & Ho & Ht & Hp).
  exists wal'. split; [exact E|]. split; [exact Hb|]. split; [exact Hl|]. destruct Hr. split; [done..|lia].
Qed.

Lemma log_update_spec oc n pins eng txn key klen k value vlen v :
  ready (n + 5 * log_pages (p_page_size (e_pool eng)) vlen) pins [] (e_pool eng) -> 0 <= n ->
  zlen pins + 2 <= p_capacity (e_pool eng) ->
  p_next_page (e_pool eng) + log_pages (p_page_size (e_pool eng)) vlen <= 2 ^ 31 - 1 ->
  0 < garry_overflow_chunk_size (p_page_size (e_pool eng)) -> p_page_size (e_pool eng) <= GARRY_MAX_PAGE_SIZE ->
  is_i32 txn -> slice key 0 klen = Some k -> 0 < klen <= 256 -> slice value 0 vlen = Some v -> vlen < 2 ^ 31 ->
  log_ready (e_wal eng) -> oc_record oc = true ->
  exists p' wal' rec, log_update oc eng txn key klen value vlen = Some (set_wal (set_pool eng p') wal') /\
    f_bytes (wl_fd wal') = f_bytes (wl_fd (e_wal eng)) ++ encode_record rec /\ log_grown (e_wal eng) wal' /\
    record_ok rec /\ update_record rec txn k v /\ ready n pins [] p' /\ writes [] (e_pool eng) p' /\ stable pins (e_pool eng) p' /\
    p_next_page p' <= p_next_page (e_pool eng) + log_pages (p_page_size (e_pool eng)) vlen.
Proof.
  intros Hr Hn Hcap Hid Hch Hps Htx Hk Hkl Hv Hvl Hlog Hm. unfold log_update. rewrite Hm.
  destruct (update_record_spec n pins (e_pool eng) txn key klen k value vlen v Hr Hn Hcap Hid Hch Hps Htx Hk Hkl Hv Hvl)
    as (p' & rec & -> & Hok & Hrec & H1 & H2 & H3 & H4). cbn [mbind option_bind].
  destruct (append_grown (e_wal eng) rec Hlog Hok) as (wal' & E & Hb & Hg). cbn [e_wal set_pool]. rewrite E.
  cbn [mbind option_bind]. exists p', wal', rec. split; [reflexivity|]. split; [exact Hb|]. split; [exact Hg|].
  split; [exact Hok|]. split; [exact Hrec|]. split; [exact H1|]. split; [exact H2|]. split; [exact H3|exact H4].
Qed.

(** What the header and the limits of the engine say. *)
Record same_identity (e e' : garry_engine_handle) : Prop := {
  si_header : e_header e' = e_header e;
  si_max_txns : e_max_txns e' = e_max_txns e;
  si_next_txid : e_next_txid e' = e_next_txid e
}.

(** * Set *)

(** What is written to the chain: the value, or its compressed form. *)
Record payload (oc : outcomes) (compression : Z) (value : list Z) (vlen : Z) (src : list Z) (len : Z) (b : list Z) : Prop := {
  pl_packed : compression = GARRY_COMPRESS_LZ4 ->
    lz4_compress value vlen (oc_buf oc) (oc_table oc) = Some (Some src, len);
  pl_plain : compression <> GARRY_COMPRESS_LZ4 -> src = value /\ len = vlen;
  pl_bytes : slice src 0 len = Some b;
  pl_len : len < 2 ^ 31
}.

Definition set_cost (h : nat) (ps vlen len : Z) : Z :=
  2 * (Z.of_nat h + 1) + create_cost h + 5 * log_pages ps vlen + (2 + 5 * set_pages ps len).

(** The conditions of a set: the arguments, the lock, room in the pool, page ids to
    spare, a working log, and memory. *)
Record can_store (oc : outcomes) (h : nat) (n : Z) (pins : list Z) (eng : garry_engine_handle) (ts : list garry_txn_info)
    (C : chains) (txn : Z) (key : list Z) (klen : Z) (k value : list Z) (vlen : Z) (v src : list Z) (len : Z) (b : list Z)
    (mgr : garry_lock_manager) : Prop := {
  cn_store : store h eng ts C;
  cn_running : running ts txn;
  cn_txn : is_i32 txn;
  cn_key : key_arg (e_page_size eng) key klen k;
  cn_value : slice value 0 vlen = Some v;
  cn_vlen : vlen < 2 ^ 31;
  cn_payload : payload oc (e_compression eng) value vlen src len b;
  cn_lock : garry_lock_acquire (e_lock_mgr eng) txn key klen GARRY_LOCK_EXCLUSIVE (oc_lock oc) = Some (mgr, true);
  cn_ready : ready (n + set_cost h (e_page_size eng) vlen len) pins [] (e_pool eng);
  cn_budget : 0 <= n;
  cn_capacity : zlen pins + 3 <= p_capacity (e_pool eng);
  cn_ids : p_next_page (e_pool eng) + Z.of_nat h + 3 + log_pages (e_page_size eng) vlen
             + set_pages (e_page_size eng) len <= id_limit;
  cn_page_size : page_size_ok (e_page_size eng);
  cn_inline : 0 <= garry_chain_inline_capacity (e_page_size eng) <= 16370;
  cn_log : log_ready (e_wal eng);
  cn_memory : forall q, oc_split oc q = true;
  cn_fuel : (S h < oc_fuel oc)%nat;
  cn_malloc : oc_record oc = true /\ reads_ok oc
}.

(** What a set leaves: the chain [c] of the key, old or new and empty, gets a cell
    if its page has room ([ok]); the other chains stay; the log gets the record. *)
Record set_done (h : nat) (n : Z) (pins : list Z) (eng : garry_engine_handle) (ts : list garry_txn_info) (C : chains)
    (txn : Z) (k v b : list Z) (len : Z) (mgr : garry_lock_manager)
    (eng' : garry_engine_handle) (ok : bool) (h' : nat) (c : chain) (pages : list Z) : Prop := {
  dn_height : h' = h \/ h' = S h;
  dn_chain : C !! k = Some c \/ C !! k = None /\ c.2 = [];
  dn_ok : ok = bool_decide (chain_fits (e_page_size eng) c.2 (cell_size (Cell txn (Some b) pages)));
  dn_pages : zlen pages <= set_pages (e_page_size eng) len;
  dn_store : store h' eng' (if ok then alter_txn (noted c.1) ts txn else ts)
    (<[k := (c.1, if ok then c.2 ++ [Cell txn (Some b) pages] else c.2)]> C);
  dn_ready : ready n pins [] (e_pool eng');
  dn_capacity : p_capacity (e_pool eng') = p_capacity (e_pool eng);
  dn_locks : e_lock_mgr eng' = mgr;
  dn_compression : e_compression eng' = e_compression eng;
  dn_page_size : e_page_size eng' = e_page_size eng;
  dn_log : exists rec, record_ok rec /\ update_record rec txn k v /\
    f_bytes (wl_fd (e_wal eng')) = f_bytes (wl_fd (e_wal eng)) ++ encode_record rec;
  dn_wal : log_grown (e_wal eng) (e_wal eng');
  dn_identity : same_identity eng eng';
  dn_pool : p_next_page (e_pool eng') <=
    p_next_page (e_pool eng) + Z.of_nat h + 3 + log_pages (e_page_size eng) (zlen v) + set_pages (e_page_size eng) len;
  dn_inline : pages = [] <-> len <= garry_chain_inline_capacity (e_page_size eng)
}.

Lemma inline_chunk ps : page_size_ok ps -> 0 <= garry_chain_inline_capacity ps -> 0 < garry_overflow_chunk_size ps.
Proof. unfold garry_chain_inline_capacity, GARRY_CHAIN_ENTRY_HEADER_SIZE, garry_overflow_chunk_size. lia. Qed.

(** Writing the value to its chain. *)
Lemma store_value_spec h eng ts C m fp oc n pins txn k c value vlen src len b :
  stored h eng ts C m fp -> C !! k = Some c -> payload oc (e_compression eng) value vlen src len b ->
  ready (n + (2 + 5 * set_pages (e_page_size eng) len)) pins [] (e_pool eng) -> 0 <= n ->
  zlen pins + 3 <= p_capacity (e_pool eng) -> is_i32 txn ->
  0 <= garry_chain_inline_capacity (e_page_size eng) <= 16370 ->
  p_next_page (e_pool eng) + set_pages (e_page_size eng) len <= id_limit ->
  exists eng' ok pages, store_value oc eng txn c.1 (Some value) vlen = Some (eng', ok) /\
    ok = bool_decide (chain_fits (e_page_size eng) c.2 (cell_size (Cell txn (Some b) pages))) /\
    (zlen pages <= set_pages (e_page_size eng) len /\ (pages = [] <-> len <= garry_chain_inline_capacity (e_page_size eng))) /\
    stored h eng' (if ok then alter_txn (noted c.1) ts txn else ts)
      (<[k := (c.1, if ok then c.2 ++ [Cell txn (Some b) pages] else c.2)]> C) m fp /\
    ready n pins [] (e_pool eng') /\ p_capacity (e_pool eng') = p_capacity (e_pool eng) /\
    same_but_txns eng eng' /\ e_lock_mgr eng' = e_lock_mgr eng /\
    p_next_page (e_pool eng') <= p_next_page (e_pool eng) + set_pages (e_page_size eng) len.
Proof.
  intros Hs Hc [P1 P2 P3 P4] Hr Hn Hcap Htx Hin Hid. pose proof Hs as [S1 S2 S3 S4 S5 S6 S7 S8 S9].
  assert (E : store_value oc eng txn c.1 (Some value) vlen = garry_mvcc_set eng txn c.1 (Some src) len).
  { unfold store_value. destruct (decide (e_compression eng = GARRY_COMPRESS_LZ4)) as [Hd|Hd].
    - change (default [] (Some value)) with value. by rewrite (P1 Hd).
    - by destruct (P2 Hd) as [-> ->]. }
  rewrite E. clear E P1 P2. pose proof (slice_is_Some _ _ _ _ P3) as (_ & Hl0 & _ & _).
  pose proof (set_pages_nonneg (e_page_size eng) len (proj1 Hin) Hl0) as Hsp.
  destruct (mvcc_set_spec n pins eng ts txn c.1 c.2 src len b) as (eng' & ok & pages & E & Hw & Hil & Hpl & Hx).
  { split; try done; [by replace (n + 2 + 5 * set_pages (e_page_size eng) len) with
      (n + (2 + 5 * set_pages (e_page_size eng) len)) by lia|unfold id_limit, GARRY_PAGE_ID_BIAS in *; lia|by apply (S4 k)]. }
  destruct Hw as [W1 W2 W3 W4 W5 W6]. destruct W1 as [V1 V2 V3 V4 V5 V6 V7].
  exists eng', ok, pages. split; [exact E|]. rewrite <- S7 in V1. split; [exact V1|]. split; [split; [exact Hpl|exact Hil]|].
  split; [|split; [exact W5|split; [exact V4|split; [exact W3|split; [exact W4|exact Hx]]]]].
  apply (stored_update h eng eng' ts _ C m fp k c); try done.
  - split; [exact V4|exact V5|exact V6|]. intros q Hq Hne. apply V7; [exact Hq|]. by intros ->; apply Hne; left.
  - intros q Hq. destruct ok; [|by left]. rewrite chain_pages_snoc, elem_of_app in Hq. destruct Hq as [Hq|Hq]; [by left|right].
    cbn [c_pages] in *. rewrite Forall_forall in V3. by apply V3.
  - by rewrite W3.
  - by rewrite W3.
  - lia.
Qed.

Lemma storage_set_spec oc h n pins eng ts C txn key klen k value vlen v src len b mgr :
  can_store oc h n pins eng ts C txn key klen k value vlen v src len b mgr ->
  exists eng' ok h' c pages, garry_storage_set oc eng txn key klen (Some value) vlen = Some (eng', ok) /\
    set_done h n pins eng ts C txn k v b len mgr eng' ok h' c pages.
Proof.
  intros [(m & fp & Hs) Hrun Htx Hkey Hv Hvl Hpay Hlock Hr Hn Hcap Hids Hps Hin Hlog Hmem Hfuel [Hrecm _]].
  pose proof (sd_page_size _ _ _ _ _ _ Hs) as Heq. pose proof (ka_slice _ _ _ _ Hkey) as Hsl.
  pose proof (slice_is_Some _ _ _ _ Hsl) as (_ & _ & _ & Hkl). pose proof (ka_some _ _ _ _ Hkey). pose proof (ka_short _ _ _ _ Hkey).
  pose proof (slice_is_Some _ _ _ _ Hv) as (_ & Hv0 & _ & _).
  pose proof (slice_is_Some _ _ _ _ (pl_bytes _ _ _ _ _ _ _ Hpay)) as (_ & Hl0 & _ & _).
  pose proof (set_pages_nonneg (e_page_size eng) len (proj1 Hin) Hl0) as Hsp.
  pose proof (inline_chunk _ Hps (proj1 Hin)) as Hchunk.
  assert (Hlp : 0 <= log_pages (e_page_size eng) vlen) by (unfold log_pages; case_decide; [by apply ovf_pages_bound|done]).
  assert (Hcc : 0 <= create_cost h) by (unfold create_cost, insert_cost, level_cost; lia).
  pose proof (running_active _ _ _ (sd_txns _ _ _ _ _ _ Hs) Hrun) as Hact. unfold set_cost in Hr.
  unfold garry_storage_set. rewrite decide_False by lia. rewrite decide_False by (unfold GARRY_MAX_KEY_SIZE; lia).
  rewrite decide_False by (intros [?|[_ ?]]; [lia|done]). rewrite Hact. cbn [mbind option_bind negb].
  rewrite Hlock. cbn [mbind option_bind negb]. set (eng0 := set_lock_mgr eng mgr).
  assert (Hs0 : stored h eng0 ts C m fp).
  { destruct Hs as [S1 S2 S3 S4 S5 S6 S7 S8 S9]. split; try done. by apply (txns_rep_fields eng). }
  set (ps := e_page_size eng) in *. set (lp := log_pages ps vlen) in *. set (sp := set_pages ps len) in *.
  destruct (find_or_create_spec h eng0 ts C m fp oc (n + (5 * lp + (2 + 5 * sp))) pins key klen k Hs0)
    as (h' & eng1 & m1 & fp1 & c & -> & Hh & Hs1 & Hc & He1 & Hr1 & Hcap1 & Hps1 & Hx1); cbn [e_pool eng0 set_lock_mgr];
    [eapply ready_le; [exact Hr|lia]|lia|lia|by rewrite <- Heq|lia|by rewrite <- Heq|exact Hmem|lia|].
  cbn [mbind option_bind]. cbn [e_pool eng0 set_lock_mgr] in Hcap1, Hps1, Hx1. rewrite <- Heq in Hps1.
  destruct (log_update_spec oc (n + (2 + 5 * sp)) pins eng1 txn key klen k value vlen v)
    as (p2 & wal2 & rec & E2 & Hb2 & Hg2 & Hro & Hrec & Hr2 & Hw2 & _ & Hx2); rewrite ?Hps1; try done.
  - eapply ready_le; [exact Hr1|fold lp; lia].
  - lia.
  - lia.
  - fold lp. unfold id_limit, GARRY_PAGE_ID_BIAS in *. lia.
  - apply Hps.
  - lia.
  - by rewrite He1.
  - change (default [] (Some value)) with value. rewrite E2. cbn [mbind option_bind]. fold lp in Hx2. rewrite Hps1 in Hx2. fold lp in Hx2.
    set (eng2 := set_wal (set_pool eng1 p2) wal2).
    assert (Hs2 : stored h' eng2 ts (<[k:=c]> C) m1 fp1).
    { apply (stored_grown h' eng1 _ ts); [exact Hs1|exact Hw2|by apply (txns_rep_fields eng1); [apply Hs1|..]|done|done|].
      cbn. lia. }
    assert (Hps2 : e_page_size eng2 = ps) by (cbn; by rewrite He1).
    assert (Hcomp : e_compression eng2 = e_compression eng) by (cbn; by rewrite He1).
    destruct (store_value_spec h' eng2 ts _ m1 fp1 oc n pins txn k c value vlen src len b Hs2 (lookup_insert_eq _ _ _))
      as (eng3 & ok & pages & E3 & Hok & [Hpl Hil] & Hs3 & Hr3 & Hcap3 & He3 & Hl3 & Hx3); rewrite ?Hps2, ?Hcomp; try done.
    + cbn [e_pool eng2 set_wal set_pool]. rewrite (ws_capacity _ _ _ Hw2). lia.
    + fold sp. cbn [e_pool eng2 set_wal set_pool]. lia.
    + rewrite E3. cbn [mbind option_bind]. rewrite Hps2 in Hok, Hpl, Hil. rewrite insert_insert_eq in Hs3.
      set (eng4 := if bool_decide (C !! k = None) then set_key_count eng3 (e_key_count eng3 + 1) else eng3).
      assert (H4 : stored h' eng4 (if ok then alter_txn (noted c.1) ts txn else ts)
        (<[k:=(c.1, if ok then c.2 ++ [Cell txn (Some b) pages] else c.2)]> C) m1 fp1).
      { subst eng4. destruct (bool_decide (C !! k = None)); [|exact Hs3]. destruct Hs3 as [S1 S2 S3 S4 S5 S6 S7 S8 S9]. split; try done.
        by apply (txns_rep_fields eng3). }
      exists (if ok then eng4 else eng3), ok, h', c, pages. split; [by destruct ok|].
      assert (Hf : forall A (f : garry_engine_handle -> A), (forall x e, f (set_key_count e x) = f e) ->
        f (if ok then eng4 else eng3) = f eng3) by (intros A f Hx; subst eng4; destruct ok, (bool_decide (C !! k = None)); done).
      split.
      * exact Hh.
      * exact Hc.
      * exact Hok.
      * exact Hpl.
      * exists m1, fp1. destruct ok; [exact H4|exact Hs3].
      * by rewrite (Hf _ e_pool).
      * rewrite (Hf _ e_pool) by done. cbn [e_pool eng2 set_wal set_pool] in Hcap3. by rewrite Hcap3, (ws_capacity _ _ _ Hw2), Hcap1.
      * rewrite (Hf _ e_lock_mgr) by done. rewrite Hl3. cbn. by rewrite He1.
      * rewrite (Hf _ e_compression) by done. rewrite He3. exact Hcomp.
      * rewrite (Hf _ e_page_size) by done. rewrite He3. exact Hps2.
      * exists rec. split; [exact Hro|]. split; [exact Hrec|]. rewrite (Hf _ e_wal) by done. rewrite He3. cbn [e_wal eng2 set_wal set_txns set_pool set_lock_mgr].
        rewrite Hb2, He1. done.
      * rewrite (Hf _ e_wal) by done. rewrite He3. cbn [e_wal eng2 set_wal set_txns set_pool set_lock_mgr].
        rewrite He1 in Hg2. exact Hg2.
      * split; [rewrite (Hf _ e_header) by done|rewrite (Hf _ e_max_txns) by done|rewrite (Hf _ e_next_txid) by done]; rewrite He3; cbn; by rewrite He1.
      * rewrite (Hf _ e_pool) by done. cbn [e_pool eng2 set_wal set_pool] in Hx3. rewrite Hps2 in Hx3. fold sp in Hx3.
        fold ps lp sp. pose proof (slice_is_Some _ _ _ _ Hv) as (_ & _ & _ & Hzv). rewrite Hzv. fold lp. lia.
      * exact Hil.
Qed.

(** * Delivery of a value *)

(** The value a payload stands for is what a get delivers. *)
Definition delivers (oc : outcomes) (compression : Z) (b : list Z) (result : list Z) (v : list Z) : Prop :=
  exists out, deliver oc compression (b ++ [0]) (zlen b) (Some result) = Some (Some (Some out, zlen v)) /\
    slice out 0 (zlen v) = Some v.

Lemma copy_out_spec result src v :
  slice src 0 (zlen v) = Some v -> zlen v <= zlen result ->
  exists out, copy_out (Some result) src (zlen v) = Some (Some out) /\ slice out 0 (zlen v) = Some v.
Proof.
  intros Hs Hr. unfold copy_out, memcpy. rewrite Hs. cbn [mbind option_bind].
  destruct (blit_ok result 0 v) as (out & E & _); [lia|lia|]. exists out. rewrite E. split; [done|exact (slice_blit _ _ _ _ E)].
Qed.

(** The bytes [b] of a cell stand for the value [v]: they are the value, or, when the
    engine compresses, the decoder makes the value of them, of 16384 bytes at most. *)
Definition decodes (oc : outcomes) (compression : Z) (b v : list Z) : Prop :=
  if decide (compression = GARRY_COMPRESS_LZ4) then
    zlen v <= GARRY_MAX_RECORD_SIZE /\ exists out,
      lz4_decompress (b ++ [0]) (zlen b) GARRY_MAX_RECORD_SIZE (oc_buf oc) = Some (Some out, zlen v) /\ slice out 0 (zlen v) = Some v
  else b = v.

Lemma decodes_fun oc compression b v w : decodes oc compression b v -> decodes oc compression b w -> v = w.
Proof.
  unfold decodes. case_decide; [|congruence]. intros (_ & out & E & Hv) (_ & out' & E' & Hw).
  rewrite E in E'. injection E' as <- Hz. rewrite <- Hz, Hv in Hw. by injection Hw.
Qed.

Lemma decodes_delivers oc compression b v result :
  decodes oc compression b v -> zlen v <= zlen result -> delivers oc compression b result v.
Proof.
  unfold decodes, delivers, deliver. case_decide.
  - intros (Hm & out & -> & Hout) Hr. cbn [mbind option_bind]. rewrite decide_False by lia.
    destruct (copy_out_spec result out v Hout Hr) as (out' & -> & Ho). by exists out'.
  - intros -> Hr. destruct (copy_out_spec result (v ++ [0]) v) as (out' & E' & Ho); [by apply (slice_app [])|lia|].
    rewrite E'. cbn [mbind option_bind]. by exists out'.
Qed.

(** Uncompressed values of any length; compressed ones of 1 to 16384 bytes. *)
Lemma payload_decodes oc compression value vlen src len b v :
  payload oc compression value vlen src len b -> slice value 0 vlen = Some v ->
  (compression = GARRY_COMPRESS_LZ4 -> 0 < vlen <= GARRY_MAX_RECORD_SIZE /\ oc_table oc = true /\
    forall n, exists buf, oc_buf oc n = Some buf /\ zlen buf = n) ->
  decodes oc compression b v.
Proof.
  intros [P1 P2 P3 P4] Hv Hz. pose proof (slice_is_Some _ _ _ _ Hv) as (_ & Hv0 & Hvl & Hvz).
  unfold decodes. destruct (decide (compression = GARRY_COMPRESS_LZ4)) as [Hd|Hd].
  - destruct (Hz Hd) as (Hb & Htab & Hbuf). specialize (P1 Hd). rewrite Htab in P1.
    destruct (Hbuf (lz4_compress_bound vlen + 1)) as (bc & Ebc & Lbc).
    destruct (Hbuf (GARRY_MAX_RECORD_SIZE + 1)) as (bd & Ebd & Lbd).
    destruct (lz4_roundtrip_spec value vlen (oc_buf oc) bc) as (b0 & rest & E & Hb0 & Hdec);
      [unfold LZ4_MAX_INPUT_SIZE, GARRY_MAX_RECORD_SIZE in *; lia|done|done|done|].
    rewrite E in P1. injection P1 as <- <-.
    assert (b = b0) as -> by (rewrite (slice_app [] b0 rest) in P3 by done; by injection P3).
    destruct (Hdec [0] (oc_buf oc) bd GARRY_MAX_RECORD_SIZE Ebd Lbd) as (out & -> & Hout); [lia|].
    rewrite Hv in Hout. split; [lia|]. exists out. by rewrite Hvz.
  - destruct (P2 Hd) as [-> ->]. rewrite Hv in P3. by injection P3.
Qed.

Lemma payload_delivers oc compression value vlen src len b v result :
  payload oc compression value vlen src len b -> slice value 0 vlen = Some v -> vlen <= zlen result ->
  (compression = GARRY_COMPRESS_LZ4 -> 0 < vlen <= GARRY_MAX_RECORD_SIZE /\ oc_table oc = true /\
    forall n, exists buf, oc_buf oc n = Some buf /\ zlen buf = n) ->
  delivers oc compression b result v.
Proof.
  intros Hp Hv Hr Hz. pose proof (slice_is_Some _ _ _ _ Hv) as (_ & _ & _ & Hvz).
  apply decodes_delivers; [by eapply payload_decodes|lia].
Qed.

(** * What a set changes for the readers *)

Lemma running_in ts txn : running ts txn -> txn ∈ map ti_txid ts.
Proof.
  intros (t & Ht & _). unfold txn_entry in Ht. pose proof (slot_of_spec ts txn) as Hs.
  destruct (slot_of ts txn) as [j|]; [|done]. destruct Hs as (u & Hj & <- & _). cbn in Ht.
  apply list_elem_of_fmap. exists u. split; [done|]. by eapply list_elem_of_lookup_2.
Qed.

(** The entry of a transaction, found from the front. *)
Lemma txn_entry_cons t ts txn :
  txn_entry (t :: ts) txn = if decide (ti_txid t = txn) then Some t else txn_entry ts txn.
Proof. unfold txn_entry. cbn [slot_of]. case_decide; [done|]. by destruct (slot_of ts txn). Qed.

Lemma alter_txn_cons f t ts txn :
  alter_txn f (t :: ts) txn = if decide (ti_txid t = txn) then f t :: ts else t :: alter_txn f ts txn.
Proof. unfold alter_txn. cbn [slot_of]. case_decide; [done|]. by destruct (slot_of ts txn). Qed.

Lemma txn_entry_noted pid ts txn r :
  txn_entry (alter_txn (noted pid) ts txn) r = (if decide (r = txn) then noted pid else id) <$> txn_entry ts r.
Proof.
  induction ts as [|t ts IH]; [done|]. rewrite alter_txn_cons, txn_entry_cons.
  destruct (decide (ti_txid t = txn)) as [Ht|Ht]; rewrite txn_entry_cons, ?noted_txid.
  - destruct (decide (ti_txid t = r)) as [Hr|Hr]; [by rewrite decide_True by congruence|].
    rewrite decide_False by congruence. by destruct (txn_entry ts r).
  - destruct (decide (ti_txid t = r)) as [Hr|Hr]; [by rewrite decide_False by congruence|exact IH].
Qed.

Lemma running_noted (ok : bool) pid ts txn r :
  running ts r -> running (if ok then alter_txn (noted pid) ts txn else ts) r.
Proof.
  destruct ok; [|done]. intros (t & Ht & Hn). unfold running. rewrite txn_entry_noted, Ht.
  eexists. split; [reflexivity|]. case_decide; [|done]. unfold rolled_back, noted in *. by case_decide.
Qed.

Lemma map_noted (ok : bool) pid ts txn :
  map ti_txid (if ok then alter_txn (noted pid) ts txn else ts) = map ti_txid ts.
Proof. destruct ok; [|done]. apply alter_txn_map, noted_txid. Qed.

(** Other keys, and other transactions while the writer is in the table, see no
    difference. *)
Lemma visible_value_frame (C : chains) ts ts' k c (ok : bool) txn b pages r k' :
  C !! k = Some c \/ C !! k = None /\ c.2 = [] -> map ti_txid ts' = map ti_txid ts -> txn ∈ map ti_txid ts ->
  k' <> k \/ r <> txn ->
  visible_value ts' (<[k := (c.1, if ok then c.2 ++ [Cell txn b pages] else c.2)]> C) r k' = visible_value ts C r k'.
Proof.
  intros Hc Hm Hin Hne. unfold visible_value. rewrite Hm.
  destruct (decide (k' = k)) as [->|Hk]; [|by rewrite lookup_insert_ne by done]. rewrite lookup_insert_eq. cbn [mbind option_bind snd].
  destruct Hne as [?|Hr]; [done|].
  assert (E : read_cells r (map ti_txid ts) (if ok then c.2 ++ [Cell txn b pages] else c.2) = read_cells r (map ti_txid ts) c.2).
  { destruct ok; [|done]. rewrite read_cells_snoc, decide_False; [done|]. unfold cell_visible. cbn. intros [_ Hn]. apply Hn. split; [done|congruence]. }
  rewrite E. by destruct Hc as [->|[-> ->]].
Qed.

Lemma visible_value_own (C : chains) ts k c txn b pages :
  visible_value ts (<[k := (c.1, c.2 ++ [Cell txn b pages])]> C) txn k = b.
Proof.
  unfold visible_value. rewrite lookup_insert_eq. cbn [mbind option_bind snd]. rewrite read_cells_snoc, decide_True; [done|].
  unfold cell_visible. cbn. split; [lia|tauto].
Qed.
