(* ===== verification/StorageProps.v ===== *)
(** The guarantees of the storage layer: what set, get, delete, commit and the rest
    of [src/src/storage_ops.c] and [storage_txn.c] mean for the values of the keys. *)

From stdpp Require Import gmap.
From S2P Require Import Prelude Endian KeyEncoding BtreeCompression RecordCodec SlottedPage LockTable DbHeader Lz4.
From S2P Require Import FileIo BufferPool PoolClient BtreeNode NodeView BtreeSearch BtreeModify BtreeInsert.
From S2P Require Import VersionChain Overflow WalLog Transaction MvccStore StorageOps KeyStore.

(** * Reading after a write *)

(** The accesses left for a get of [k] after a set of [len] bytes. *)
Definition read_after (h : nat) (C : chains) (k : list Z) (ps len : Z) : Z :=
  read_cost h C k + 4 + 2 * set_pages ps len.

Lemma read_cost_nonneg h C k : 0 <= read_cost h C k.
Proof. unfold read_cost. destruct (C !! k) as [c|]; [pose proof (get_cost_pos c.2)|]; lia. Qed.

Lemma read_cost_after (h h' : nat) (C : chains) k c (ok : bool) x pages ps len k' :
  h' = h \/ h' = S h -> C !! k = Some c \/ C !! k = None /\ c.2 = [] -> zlen pages <= set_pages ps len ->
  0 <= set_pages ps len -> c_pages x = pages ->
  read_cost h' (<[k := (c.1, if ok then c.2 ++ [x] else c.2)]> C) k' <= read_after h C k' ps len.
Proof.
  intros Hh Hc Hp Hsp Hx. unfold read_after, read_cost. assert (Z.of_nat h' <= Z.of_nat h + 1) by (destruct Hh; lia).
  destruct (decide (k' = k)) as [->|Hk].
  - rewrite lookup_insert_eq. cbn [snd].
    assert (Hg : get_cost (if ok then c.2 ++ [x] else c.2) <= get_cost c.2 + 2 * set_pages ps len).
    { destruct ok; [|lia]. unfold get_cost. rewrite chain_pages_snoc, zlen_app, Hx. lia. }
    destruct Hc as [->|[-> Hn]]; [lia|].
    assert (get_cost c.2 = 2) by (by rewrite Hn). lia.
  - rewrite lookup_insert_ne by done. lia.
Qed.

Section AfterSet.
  Context (oc : outcomes) (h : nat) (n : Z) (pins : list Z) (eng : garry_engine_handle) (ts : list garry_txn_info).
  Context (C : chains) (txn : Z) (key : list Z) (klen : Z) (k value : list Z) (vlen : Z) (v src : list Z) (len : Z).
  Context (b : list Z) (mgr : garry_lock_manager).
  Hypothesis Hset : can_store oc h n pins eng ts C txn key klen k value vlen v src len b mgr.

Lemma set_result eng' ok :
  garry_storage_set oc eng txn key klen (Some value) vlen = Some (eng', ok) ->
  exists h' c pages, set_done h n pins eng ts C txn k v b len mgr eng' ok h' c pages.
Proof.
  intros E. destruct (storage_set_spec _ _ _ _ _ _ _ _ _ _ _ _ _ _ _ _ _ _ Hset) as (eng1 & ok1 & h' & c & pages & E' & Hd).
  rewrite E in E'. injection E' as <- <-. by exists h', c, pages.
Qed.

(** A get in a state [eng2] with the store the set left. *)
Lemma get_after eng' ok h' c pages eng2 ts2 r key' klen' k' result :
  set_done h n pins eng ts C txn k v b len mgr eng' ok h' c pages ->
  store h' eng2 ts2 (<[k := (c.1, if ok then c.2 ++ [Cell txn (Some b) pages] else c.2)]> C) ->
  ready n pins [] (e_pool eng2) -> p_capacity (e_pool eng2) = p_capacity (e_pool eng') ->
  e_compression eng2 = e_compression eng' -> e_page_size eng2 = e_page_size eng' ->
  running ts2 r -> key_arg (e_page_size eng) key' klen' k' -> read_after h C k' (e_page_size eng) len <= n ->
  exists eng3, garry_storage_get oc eng2 r key' klen' result =
    (x ← match visible_value ts2 (<[k := (c.1, if ok then c.2 ++ [Cell txn (Some b) pages] else c.2)]> C) r k' with
         | None => Some None
         | Some y => deliver oc (e_compression eng) (y ++ [0]) (zlen y) result
         end; Some (eng3, x)).
Proof.
  intros [D1 D2 D3 D4 D5 D6 D7 D8 D9 D10 D11 D12 _ _ _] (m & fp & Hs) Hr Hcap Hcomp Hps Hrun Hk Hcost.
  pose proof (slice_is_Some _ _ _ _ (pl_bytes _ _ _ _ _ _ _ (cn_payload _ _ _ _ _ _ _ _ _ _ _ _ _ _ _ _ _ _ Hset))) as (_ & Hl0 & _).
  pose proof (set_pages_nonneg _ len (proj1 (cn_inline _ _ _ _ _ _ _ _ _ _ _ _ _ _ _ _ _ _ Hset)) Hl0) as Hsp.
  pose proof (read_cost_after h h' C k c ok (Cell txn (Some b) pages) pages _ len k' D1 D2 D4 Hsp eq_refl) as Hrc.
  set (C' := <[k := _]> C) in *. pose proof (read_cost_nonneg h' C' k') as Hpos.
  pose proof (cn_capacity _ _ _ _ _ _ _ _ _ _ _ _ _ _ _ _ _ _ Hset) as Hc3.
  pose proof (cn_fuel _ _ _ _ _ _ _ _ _ _ _ _ _ _ _ _ _ _ Hset) as Hf.
  pose proof (proj2 (cn_malloc _ _ _ _ _ _ _ _ _ _ _ _ _ _ _ _ _ _ Hset)) as Hmr.
  destruct (storage_get_spec h' eng2 ts2 C' m fp oc 0 pins key' klen' k' r result Hs) as (p' & _ & _ & E).
  - eapply ready_le; [exact Hr|lia].
  - lia.
  - rewrite Hcap, D7. lia.
  - rewrite <- (sd_page_size _ _ _ _ _ _ Hs), Hps, D10. exact Hk.
  - destruct D1; lia.
  - exact Hmr.
  - exact Hrun.
  - exists (set_pool eng2 p'). by rewrite E, Hcomp, D9.
Qed.

(** What a get returned before the set. *)
Lemma get_before_set eng0 r key' klen' k' result x :
  garry_storage_get oc eng r key' klen' result = Some (eng0, x) -> running ts r ->
  key_arg (e_page_size eng) key' klen' k' -> read_after h C k' (e_page_size eng) len <= n ->
  match visible_value ts C r k' with
  | None => Some None
  | Some y => deliver oc (e_compression eng) (y ++ [0]) (zlen y) result
  end = Some x.
Proof.
  intros E Hrun Hk Hcost. pose proof Hset as [(m & fp & Hs) _ _ _ _ _ Hpay _ Hr Hn Hc3 _ Hps Hin _ _ Hf [_ Hmr]].
  pose proof (slice_is_Some _ _ _ _ (pl_bytes _ _ _ _ _ _ _ Hpay)) as (_ & Hl0 & _).
  pose proof (set_pages_nonneg _ len (proj1 Hin) Hl0) as Hsp. pose proof (read_cost_nonneg h C k') as Hpos.
  unfold read_after in Hcost. pose proof (inline_chunk _ Hps (proj1 Hin)) as Hchunk.
  pose proof (slice_is_Some _ _ _ _ (cn_value _ _ _ _ _ _ _ _ _ _ _ _ _ _ _ _ _ _ Hset)) as (_ & Hv0 & _).
  assert (Hlp : 0 <= log_pages (e_page_size eng) vlen) by (unfold log_pages; case_decide; [by apply ovf_pages_bound|done]).
  destruct (storage_get_spec h eng ts C m fp oc 0 pins key' klen' k' r result Hs) as (p' & _ & _ & E').
  - eapply ready_le; [exact Hr|unfold set_cost, create_cost, insert_cost, level_cost; lia].
  - lia.
  - lia.
  - by rewrite <- (sd_page_size _ _ _ _ _ _ Hs).
  - lia.
  - exact Hmr.
  - exact Hrun.
  - rewrite E in E'. destruct (match visible_value ts C r k' with Some _ => _ | None => _ end) as [y|]; [|done].
    cbn [mbind option_bind] in E'. by injection E' as _ ->.
Qed.
End AfterSet.
#[local] Arguments set_result {oc h n pins eng ts C txn key klen k value vlen v src len b mgr}.
#[local] Arguments get_after {oc h n pins eng ts C txn key klen k value vlen v src len b mgr}.
#[local] Arguments get_before_set {oc h n pins eng ts C txn key klen k value vlen v src len b mgr}.

(** The conditions under which the value comes back: a result buffer for it and,
    when the engine compresses, memory and a length the decoder accepts. *)
Record can_deliver (oc : outcomes) (eng : garry_engine_handle) (vlen : Z) (result : list Z) : Prop := {
  cd_room : vlen <= zlen result;
  cd_lz4 : e_compression eng = GARRY_COMPRESS_LZ4 -> 0 < vlen <= GARRY_MAX_RECORD_SIZE /\ oc_table oc = true /\
    forall n, exists buf, oc_buf oc n = Some buf /\ zlen buf = n
}.

(** * Properties *)

(** C2: a set refines extending the chain of one key: it returns, with memory for
    the splits and a working log, and leaves a store in which the key has its old
    chain, or a new one, with the value (compressed if the engine compresses) as
    the newest cell, every other chain is unchanged, no page is shared, and the log
    file has exactly the record of the update more; it returns 0 only when the
    chain page has no room for the cell. *)
Theorem storage_set_refines oc h n pins eng ts C txn key klen k value vlen v src len b mgr
  (Hset : can_store oc h n pins eng ts C txn key klen k value vlen v src len b mgr) :
  exists eng' ok h' c pages, garry_storage_set oc eng txn key klen (Some value) vlen = Some (eng', ok) /\
    set_done h n pins eng ts C txn k v b len mgr eng' ok h' c pages /\
    visible_value ts (<[k := (c.1, c.2 ++ [Cell txn (Some b) pages])]> C) txn k = Some b.
Proof.
  destruct (storage_set_spec _ _ _ _ _ _ _ _ _ _ _ _ _ _ _ _ _ _ Hset) as (eng' & ok & h' & c & pages & E & Hd).
  exists eng', ok, h', c, pages. split; [exact E|]. split; [exact Hd|apply visible_value_own].
Qed.

(** A transaction reads its own set. *)
Lemma reads_own_spec oc h n pins eng ts C txn key klen k value vlen v src len b mgr eng' result
  (Hset : can_store oc h n pins eng ts C txn key klen k value vlen v src len b mgr)
  (Hcost : read_after h C k (e_page_size eng) len <= n) (Hdel : can_deliver oc eng vlen result)
  (E : garry_storage_set oc eng txn key klen (Some value) vlen = Some (eng', true)) :
  exists eng2 out, garry_storage_get oc eng' txn key klen (Some result) = Some (eng2, Some (Some out, vlen)) /\
    slice out 0 vlen = Some v.
Proof.
  destruct (set_result Hset eng' true E) as (h' & c & pages & Hd).
  destruct (get_after Hset eng' true h' c pages eng' _ txn key klen k (Some result) Hd (dn_store _ _ _ _ _ _ _ _ _ _ _ _ _ _ _ _ _ Hd))
    as (eng3 & E3); try done; [apply Hd|by apply running_noted with (ok := true), Hset|apply Hset|].
  rewrite visible_value_own in E3. pose proof (cn_value _ _ _ _ _ _ _ _ _ _ _ _ _ _ _ _ _ _ Hset) as Hv.
  pose proof (slice_is_Some _ _ _ _ Hv) as (_ & _ & _ & Hvz). destruct Hdel as [Hroom Hlz].
  destruct (payload_delivers oc (e_compression eng) value vlen src len b v result
    (cn_payload _ _ _ _ _ _ _ _ _ _ _ _ _ _ _ _ _ _ Hset) Hv Hroom Hlz) as (out & Eout & Hout).
  rewrite Hvz in Eout, Hout. rewrite Eout in E3. by exists eng3, out.
Qed.

(** C4: a transaction reads its own set: after a successful set, a get by the same
    transaction, with a result buffer of the size of the value, returns exactly the
    bytes of the value and their number, inline or in overflow pages, for values of
    any length when the engine does not compress and of 1 to 16384 bytes when it
    compresses (a longer one is stored, but the decoder is given too small a buffer
    and the get fails). *)
Theorem storage_reads_own_set oc h n pins eng ts C txn key klen k value vlen v src len b mgr eng' result
  (Hset : can_store oc h n pins eng ts C txn key klen k value vlen v src len b mgr)
  (Hcost : read_after h C k (e_page_size eng) len <= n) (Hdel : can_deliver oc eng vlen result)
  (E : garry_storage_set oc eng txn key klen (Some value) vlen = Some (eng', true)) :
  exists eng2 out, garry_storage_get oc eng' txn key klen (Some result) = Some (eng2, Some (Some out, vlen)) /\
    slice out 0 vlen = Some v.
Proof. exact (reads_own_spec oc h n pins eng ts C txn key klen k value vlen v src len b mgr eng' result Hset Hcost Hdel E). Qed.

(** A set the storage layer turns away before it changes anything: a bad length, a
    transaction that is not running, or a lock another transaction holds or for
    which there is no memory. *)
Definition set_refused (oc : outcomes) (eng : garry_engine_handle) (txn : Z) (key : list Z) (klen vlen : Z) : Prop :=
  klen <= 0 \/ klen > GARRY_MAX_KEY_SIZE \/ vlen < 0 \/ garry_txn_is_active txn eng = Some false \/
  exists mgr, garry_lock_acquire (e_lock_mgr eng) txn key klen GARRY_LOCK_EXCLUSIVE (oc_lock oc) = Some (mgr, false).

Lemma set_lock_mgr_same eng : set_lock_mgr eng (e_lock_mgr eng) = eng.
Proof. by destruct eng. Qed.

Lemma set_refused_spec oc eng txn key klen value vlen eng' ok :
  set_refused oc eng txn key klen vlen ->
  garry_storage_set oc eng txn key klen (Some value) vlen = Some (eng', ok) -> eng' = eng /\ ok = false.
Proof.
  unfold garry_storage_set. intros H E.
  case_decide as H1; [by injection E as <- <-|]. case_decide as H2; [by injection E as <- <-|].
  case_decide as H3; [by injection E as <- <-|].
  destruct H as [?|[?|[?|[Ha|[mgr Hl]]]]]; [lia|lia|exfalso; apply H3; by left| |].
  - rewrite Ha in E. cbn [mbind option_bind negb] in E. by injection E as <- <-.
  - destruct (garry_txn_is_active txn eng) as [[]|]; cbn [mbind option_bind negb] in E; [|by injection E as <- <-|discriminate E].
    rewrite Hl in E. cbn [mbind option_bind negb] in E. injection E as <- <-.
    by rewrite (acquire_refused _ _ _ _ _ _ _ Hl), set_lock_mgr_same.
Qed.

(** C5: isolation of sets: whether a set is turned away (a bad length, a transaction
    that is not running, a lock somebody else holds or memory for the lock missing),
    finds the chain page full, or succeeds (the memory for splits and compression
    and the log working, when it is not turned away), a get of another key, and
    every get by another transaction while the writer is running, returns what it
    returned before. *)
Theorem storage_set_isolated oc h n pins eng ts C txn key klen k value vlen v src len b mgr eng' ok r key' klen' k' result eng0 x
  (Hset : set_refused oc eng txn key klen vlen \/
          can_store oc h n pins eng ts C txn key klen k value vlen v src len b mgr)
  (Hcost : read_after h C k' (e_page_size eng) len <= n) (Hrun : running ts r)
  (Hkey : key_arg (e_page_size eng) key' klen' k') (Hne : k' <> k \/ r <> txn)
  (E0 : garry_storage_get oc eng r key' klen' result = Some (eng0, x))
  (E : garry_storage_set oc eng txn key klen (Some value) vlen = Some (eng', ok)) :
  exists eng2, garry_storage_get oc eng' r key' klen' result = Some (eng2, x).
Proof.
  destruct Hset as [Href|Hset].
  { destruct (set_refused_spec _ _ _ _ _ _ _ _ _ Href E) as [-> _]. by exists eng0. }
  destruct (set_result Hset eng' ok E) as (h' & c & pages & Hd).
  destruct (get_after Hset eng' ok h' c pages eng' _ r key' klen' k' result Hd (dn_store _ _ _ _ _ _ _ _ _ _ _ _ _ _ _ _ _ Hd))
    as (eng3 & E3); try done; [apply Hd|by apply running_noted|].
  pose proof (running_in _ _ (cn_running _ _ _ _ _ _ _ _ _ _ _ _ _ _ _ _ _ _ Hset)) as Hin.
  rewrite (visible_value_frame C ts _ k c ok txn (Some b) pages r k') in E3;
    [|by apply Hd|apply map_noted|exact Hin|exact Hne].
  rewrite (get_before_set Hset eng0 r key' klen' k' result x E0 Hrun Hkey Hcost) in E3. by exists eng3.
Qed.

(** * Commit and rollback *)

Lemma blank_record_ok kind txn : is_i32 txn -> record_ok (blank_record kind txn).
Proof. intros H. split; cbn; try done; unfold is_i32; lia. Qed.

Lemma stored_table h eng eng' ts ts' C m fp :
  stored h eng ts C m fp -> txns_rep eng' ts' -> keeps (e_pool eng) (e_pool eng') ->
  e_btree_root eng' = e_btree_root eng -> e_page_size eng' = e_page_size eng -> stored h eng' ts' C m fp.
Proof.
  intros Hs Ht Hk Hroot Hps. apply (stored_grown h eng _ ts); try done; [by apply keeps_writes|].
  rewrite (kp_next _ _ Hk). apply Hs.
Qed.

(** The end of a transaction: its record is logged, its locks are released, and the
    table, but no chain, changes. *)
Record ended (h : nat) (n : Z) (pins : list Z) (eng : garry_engine_handle) (ts' : list garry_txn_info) (C : chains)
    (rec : garry_wal_record) (eng' : garry_engine_handle) : Prop := {
  en_store : store h eng' ts' C;
  en_ready : ready n pins [] (e_pool eng');
  en_keeps : keeps (e_pool eng) (e_pool eng');
  en_log : f_bytes (wl_fd (e_wal eng')) = f_bytes (wl_fd (e_wal eng)) ++ encode_record rec;
  en_wal : log_grown (e_wal eng) (e_wal eng');
  en_compression : e_compression eng' = e_compression eng;
  en_page_size : e_page_size eng' = e_page_size eng;
  en_identity : same_identity eng eng'
}.

Lemma flush_log wal : log_ready wal -> garry_wal_log_flush wal = wal.
Proof. intros [Ho _ _ _]. unfold garry_wal_log_flush. rewrite Ho. by destruct wal. Qed.

Lemma flush_log_fields wal :
  wl_fd (garry_wal_log_flush wal) = wl_fd wal /\ wl_last_lsn (garry_wal_log_flush wal) = wl_last_lsn wal.
Proof. unfold garry_wal_log_flush. by destruct (f_open (wl_fd wal)). Qed.

Lemma flush_grown wal wal' : log_grown wal wal' -> log_grown wal (garry_wal_log_flush wal').
Proof.
  intros [Hl Hr]. destruct (flush_log_fields wal') as [_ El]. split; [by rewrite El|].
  intros Hlt. rewrite El in Hlt. rewrite flush_log; by apply Hr.
Qed.

Lemma storage_commit_spec h n pins eng ts C txn :
  store h eng ts C -> ready n pins [] (e_pool eng) -> log_ready (e_wal eng) -> is_i32 txn ->
  exists eng', garry_storage_commit true eng txn = Some eng' /\
    ended h n pins eng (filter (fun t => ti_txid t <> txn) ts) C (commit_record txn) eng' /\
    e_lock_mgr eng' = garry_lock_release (garry_lock_release (e_lock_mgr eng) txn) txn.
Proof.
  intros (m & fp & Hs) Hr Hlog Htx. unfold garry_storage_commit. cbn [garry_make_commit_record].
  destruct (append_grown (e_wal eng) (commit_record txn) Hlog (blank_record_ok _ _ Htx)) as (wal' & -> & Hb & Hg).
  cbn [mbind option_bind].
  set (eng1 := set_lock_mgr (set_wal eng (garry_wal_log_flush wal')) _).
  destruct (commit_spec n pins eng1 ts txn) as (eng' & -> & Hr' & He & Hl & Hp & Hk & _ & _);
    [by apply (txns_rep_fields eng); [apply Hs|..]|exact Hr|].
  exists eng'. split; [done|]. destruct (flush_log_fields wal') as [Efd Elsn].
  split; [|by rewrite Hl]. split.
  - exists m, fp. apply (stored_table h eng _ ts); [exact Hs|exact Hr'|exact Hk|by rewrite He|by rewrite He].
  - exact Hp.
  - exact Hk.
  - rewrite He. cbn [e_wal set_pool set_lock_mgr set_txns eng1 set_wal]. by rewrite Efd.
  - rewrite He. cbn [e_wal set_pool set_lock_mgr set_txns eng1 set_wal]. by apply flush_grown.
  - by rewrite He.
  - by rewrite He.
  - by split; rewrite He.
Qed.

Lemma storage_rollback_spec h n pins eng ts C txn :
  store h eng ts C -> ready n pins [] (e_pool eng) -> log_ready (e_wal eng) -> is_i32 txn ->
  exists eng', garry_storage_rollback true eng txn = Some eng' /\
    ended h n pins eng (alter_txn (with_state GARRY_TXN_ROLLED_BACK) ts txn) C (abort_record txn) eng' /\
    e_lock_mgr eng' = garry_lock_release (garry_lock_release (e_lock_mgr eng) txn) txn.
Proof.
  intros (m & fp & Hs) Hr Hlog Htx. unfold garry_storage_rollback. cbn [garry_make_abort_record].
  destruct (append_grown (e_wal eng) (abort_record txn) Hlog (blank_record_ok _ _ Htx)) as (wal' & -> & Hb & Hg).
  cbn [mbind option_bind]. set (eng1 := set_lock_mgr (set_wal eng wal') _).
  destruct (rollback_spec eng1 ts txn) as (eng' & -> & Hr' & He & Hp & Hl);
    [by apply (txns_rep_fields eng); [apply Hs|..]|].
  exists eng'. split; [done|]. assert (Hk : keeps (e_pool eng) (e_pool eng')) by (rewrite Hp; reflexivity).
  split; [|by rewrite Hl]. split.
  - exists m, fp. apply (stored_table h eng _ ts); [exact Hs|exact Hr'|exact Hk|by rewrite He|by rewrite He].
  - by rewrite Hp.
  - exact Hk.
  - rewrite He. exact Hb.
  - rewrite He. exact Hg.
  - by rewrite He.
  - by rewrite He.
  - by split; rewrite He.
Qed.

Lemma txn_entry_filter ts txn r :
  r <> txn -> txn_entry (filter (fun t => ti_txid t <> txn) ts) r = txn_entry ts r.
Proof.
  intros Hne. induction ts as [|t ts IH]; [done|]. rewrite filter_cons, txn_entry_cons.
  destruct (decide (ti_txid t <> txn)) as [Hd|Hd]; [rewrite txn_entry_cons; by case_decide|].
  rewrite decide_False; [exact IH|]. intros Heq. apply Hd. congruence.
Qed.

Lemma running_altered f ts txn r :
  (forall t, ti_txid (f t) = ti_txid t) -> r <> txn -> running ts r -> running (alter_txn f ts txn) r.
Proof.
  intros Hf Hne (t & Ht & Hn). exists t. split; [|exact Hn]. rewrite <- Ht. clear t Ht Hn.
  induction ts as [|t ts IH]; [done|]. rewrite alter_txn_cons.
  destruct (decide (ti_txid t = txn)) as [Hd|Hd]; rewrite !txn_entry_cons, ?Hf.
  - by rewrite !decide_False by congruence.
  - case_decide; [done|exact IH].
Qed.

Lemma visible_value_later (C : chains) ts k c txn b pages r :
  txn < r -> (txn ∉ map ti_txid ts) ->
  visible_value ts (<[k := (c.1, c.2 ++ [Cell txn b pages])]> C) r k = b.
Proof.
  intros Hlt Hni. unfold visible_value. rewrite lookup_insert_eq. cbn [mbind option_bind snd].
  rewrite read_cells_snoc, decide_True; [done|]. unfold cell_visible. cbn. split; [lia|tauto].
Qed.

Lemma committed_gone (ts : list garry_txn_info) txn : txn ∉ map ti_txid (filter (fun t => ti_txid t <> txn) ts).
Proof. intros (t & Ht & [Hn _]%list_elem_of_filter)%list_elem_of_fmap. congruence. Qed.


(** C6: a rolled back set leaves no trace for other transactions: after a set and
    the rollback of its transaction, a get of any key by any other running
    transaction returns what it returned before the set. *)
Theorem storage_rollback_hidden oc h n pins eng ts C txn key klen k value vlen v src len b mgr eng' ok r key' klen' k' result eng0 x
  (Hset : can_store oc h n pins eng ts C txn key klen k value vlen v src len b mgr)
  (Hcost : read_after h C k' (e_page_size eng) len <= n) (Hlsn : wl_last_lsn (e_wal eng) + 2 < 2 ^ 31)
  (Hrun : running ts r) (Hkey : key_arg (e_page_size eng) key' klen' k') (Hne : r <> txn)
  (E0 : garry_storage_get oc eng r key' klen' result = Some (eng0, x))
  (E : garry_storage_set oc eng txn key klen (Some value) vlen = Some (eng', ok)) :
  exists eng2 eng3, garry_storage_rollback true eng' txn = Some eng2 /\
    garry_storage_get oc eng2 r key' klen' result = Some (eng3, x).
Proof.
  destruct (set_result Hset eng' ok E) as (h' & c & pages & Hd).
  pose proof Hd as [D1 D2 D3 D4 D5 D6 D7 D8 D9 D10 _ [Dl Dr] _ _ _].
  destruct (storage_rollback_spec h' n pins eng' _ _ txn D5 D6) as (eng2 & E2 & [N1 N2 N3 N4 N5 N6 N7 _] & _);
    [apply Dr; lia|apply Hset|].
  destruct (get_after Hset eng' ok h' c pages eng2 _ r key' klen' k' result Hd N1 N2) as (eng3 & E3);
    [by apply N3|done|done| |exact Hkey|exact Hcost|].
  { apply running_altered; [done|exact Hne|]. by apply running_noted. }
  pose proof (running_in _ _ (cn_running _ _ _ _ _ _ _ _ _ _ _ _ _ _ _ _ _ _ Hset)) as Hin.
  rewrite (visible_value_frame C ts _ k c ok txn (Some b) pages r k') in E3;
    [|exact D2|rewrite alter_txn_map by reflexivity; apply map_noted|exact Hin|by right].
  rewrite (get_before_set Hset eng0 r key' klen' k' result x E0 Hrun Hkey Hcost) in E3. by exists eng2, eng3.
Qed.

(** * Delete *)

Record can_delete (oc : outcomes) (h : nat) (n : Z) (pins : list Z) (eng : garry_engine_handle) (ts : list garry_txn_info)
    (C : chains) (txn : Z) (key : list Z) (klen : Z) (k : list Z) (mgr : garry_lock_manager) : Prop := {
  cx_store : store h eng ts C;
  cx_running : running ts txn;
  cx_txn : is_i32 txn;
  cx_key : key_arg (e_page_size eng) key klen k;
  cx_lock : garry_lock_acquire (e_lock_mgr eng) txn key klen GARRY_LOCK_EXCLUSIVE (oc_lock oc) = Some (mgr, true);
  cx_ready : ready (n + 2 + 2 * (Z.of_nat h + 1)) pins [] (e_pool eng);
  cx_budget : read_cost h C k <= n;
  cx_capacity : zlen pins + 1 < p_capacity (e_pool eng);
  cx_log : log_ready (e_wal eng);
  cx_fuel : (h < oc_fuel oc)%nat;
  cx_malloc : oc_record oc = true /\ reads_ok oc
}.

(** What the record of a deletion says. *)
Record delete_record (rec : garry_wal_record) (txn : Z) (k : list Z) : Prop := {
  dr_kind : wr_kind rec = GARRY_WAL_DELETE;
  dr_txid : wr_txid rec = txn;
  dr_key : wr_key_len rec = zlen k /\ slice (wr_key rec) 0 (zlen k) = Some k
}.

Lemma delete_record_spec txn key klen k :
  is_i32 txn -> slice key 0 klen = Some k -> 0 < klen <= 256 ->
  exists rec, garry_make_delete_record true txn key klen = Some (Some rec) /\ record_ok rec /\ delete_record rec txn k.
Proof.
  intros Htx Hk Hkl. unfold garry_make_delete_record, record_key. cbn [negb]. rewrite decide_True by lia.
  pose proof (slice_is_Some _ _ _ _ Hk) as (_ & _ & _ & Hkz).
  destruct (field_copy key klen k Hk) as (kf & -> & Hkf & Hks); [lia|]. cbn [mbind option_bind].
  eexists. split; [reflexivity|]. split.
  - split; cbn; try done; unfold is_i32; lia.
  - split; cbn; [done|done|]. split; [lia|exact Hks].
Qed.

(** A deletion appends a tombstone to the chain, if its page has room. *)
Lemma chain_delete_spec h n pins eng ts C m fp txn k c :
  stored h eng ts C m fp -> C !! k = Some c -> ready (n + 2) pins [] (e_pool eng) -> 0 <= n ->
  zlen pins < p_capacity (e_pool eng) -> is_i32 txn ->
  exists eng' ok, garry_mvcc_delete eng txn c.1 = Some (eng', ok) /\
    ok = bool_decide (chain_fits (e_page_size eng) c.2 14) /\
    stored h eng' (if ok then alter_txn (noted c.1) ts txn else ts)
      (<[k := (c.1, if ok then c.2 ++ [Cell txn None []] else c.2)]> C) m fp /\
    ready n pins [] (e_pool eng') /\ p_capacity (e_pool eng') = p_capacity (e_pool eng) /\
    same_but_txns eng eng' /\ p_next_page (e_pool eng') = p_next_page (e_pool eng) /\
    e_lock_mgr eng' = e_lock_mgr eng.
Proof.
  intros Hs Hc Hr Hn Hcap Htx. pose proof Hs as [S1 S2 S3 S4 S5 S6 S7 S8 S9].
  destruct (mvcc_delete_spec n pins eng ts txn c.1 c.2 S1 Hr Hn Hcap S7 (S4 k c Hc) Htx) as (eng' & ok & E2 & Hw & Hx).
  destruct Hw as [W1 W2 W3 W4 W5 W6]. destruct W1 as [V1 V2 V3 V4 V5 V6 V7].
  exists eng', ok. split; [exact E2|]. split; [by rewrite V1, S7|].
  split; [|split; [exact W5|split; [exact V4|split; [exact W3|split; [exact Hx|exact W4]]]]].
  apply (stored_update h eng eng' ts _ C m fp k c); try done.
  - split; [exact V4|exact V5|exact V6|]. intros q Hq Hne. apply V7; [exact Hq|]. by intros ->; apply Hne; left.
  - intros q Hq. left. destruct ok; [|exact Hq]. rewrite chain_pages_snoc, app_nil_r in Hq. exact Hq.
  - by rewrite W3.
  - by rewrite W3.
  - by rewrite Hx.
Qed.

(** What a deletion leaves: nothing changes for a key without a chain; otherwise the
    record is in the log, and the chain has a tombstone more if its page has room. *)
Record delete_done (h : nat) (n : Z) (pins : list Z) (eng : garry_engine_handle) (ts : list garry_txn_info) (C : chains)
    (txn : Z) (k : list Z) (mgr : garry_lock_manager)
    (eng' : garry_engine_handle) (ok : bool) (ts' : list garry_txn_info) (C' : chains) : Prop := {
  dd_key : match C !! k with
           | None => ok = false /\ ts' = ts /\ C' = C /\ e_wal eng' = e_wal eng
           | Some c => ok = bool_decide (chain_fits (e_page_size eng) c.2 14) /\
               ts' = (if ok then alter_txn (noted c.1) ts txn else ts) /\
               C' = <[k := (c.1, if ok then c.2 ++ [Cell txn None []] else c.2)]> C /\
               log_grown (e_wal eng) (e_wal eng') /\
               exists rec, delete_record rec txn k /\
                 f_bytes (wl_fd (e_wal eng')) = f_bytes (wl_fd (e_wal eng)) ++ encode_record rec
           end;
  dd_store : store h eng' ts' C';
  dd_ready : ready n pins [] (e_pool eng');
  dd_capacity : p_capacity (e_pool eng') = p_capacity (e_pool eng);
  dd_locks : e_lock_mgr eng' = mgr;
  dd_compression : e_compression eng' = e_compression eng;
  dd_page_size : e_page_size eng' = e_page_size eng;
  dd_identity : same_identity eng eng';
  dd_next : p_next_page (e_pool eng') = p_next_page (e_pool eng)
}.

Lemma storage_delete_spec oc h n pins eng ts C txn key klen k mgr :
  can_delete oc h n pins eng ts C txn key klen k mgr ->
  exists eng' ok ts' C', garry_storage_delete oc eng txn key klen = Some (eng', ok) /\
    delete_done h n pins eng ts C txn k mgr eng' ok ts' C'.
Proof.
  intros [(m & fp & Hs) Hrun Htx Hkey Hlock Hr Hn Hcap Hlog Hfuel [Hrecm _]]. pose proof (read_cost_nonneg h C k) as Hpos.
  pose proof (ka_slice _ _ _ _ Hkey) as Hsl. pose proof (slice_is_Some _ _ _ _ Hsl) as (_ & _ & _ & Hkl).
  pose proof (ka_some _ _ _ _ Hkey). pose proof (ka_short _ _ _ _ Hkey).
  unfold garry_storage_delete. rewrite decide_False by lia.
  rewrite (running_active _ _ _ (sd_txns _ _ _ _ _ _ Hs) Hrun). cbn [mbind option_bind negb].
  rewrite Hlock. cbn [mbind option_bind negb]. set (eng0 := set_lock_mgr eng mgr).
  assert (Hs0 : stored h eng0 ts C m fp).
  { destruct Hs as [S1 S2 S3 S4 S5 S6 S7 S8 S9]. split; try done. by apply (txns_rep_fields eng). }
  destruct (lookup_key_spec h eng0 ts C m fp (oc_fuel oc) (n + 2) pins key klen k Hs0) as (p1 & r & -> & Hr1 & Hk1 & _ & Hm);
    [exact Hr|lia|cbn; lia|by rewrite <- (sd_page_size _ _ _ _ _ _ Hs0)|exact Hfuel|].
  cbn [mbind option_bind]. set (eng1 := set_pool eng0 p1).
  assert (Hs1 : stored h eng1 ts C m fp).
  { apply (stored_table h eng0 _ ts); try done. by apply (txns_rep_fields eng0); [apply Hs0|..]. }
  destruct (C !! k) as [c|] eqn:Ec.
  - destruct Hm as (lookup & -> & -> & _). cbn [mbind option_bind].
    pose proof (chain_id_ok _ _ _ _ _ _ _ _ Hs Ec) as [_ Hc0]. rewrite decide_False by lia.
    rewrite Hrecm. destruct (delete_record_spec txn key klen k Htx Hsl) as (rec & -> & Hok & Hrec); [lia|]. cbn [mbind option_bind].
    destruct (append_grown (e_wal eng) rec Hlog Hok) as (wal' & E & Hb & Hg). cbn [e_wal eng1 eng0 set_pool set_lock_mgr].
    rewrite E. cbn [mbind option_bind]. set (eng2 := set_wal _ wal').
    assert (Hs2 : stored h eng2 ts C m fp).
    { apply (stored_table h eng1 _ ts); [exact Hs1|by apply (txns_rep_fields eng1); [apply Hs1|..]|reflexivity|done|done]. }
    destruct (chain_delete_spec h n pins eng2 ts C m fp txn k c Hs2 Ec) as (eng' & ok & E2 & Hfits & Hs3 & Hr3 & Hc3 & He3 & Hx3 & Hl3); try done;
      [lia|cbn; rewrite (kp_capacity _ _ Hk1); cbn; lia|].
    rewrite E2. exists eng', ok. do 2 eexists. split; [reflexivity|]. split.
    + rewrite Ec. split; [exact Hfits|]. split; [reflexivity|]. split; [reflexivity|].
      rewrite He3. cbn [e_wal eng2 set_wal set_txns set_pool set_lock_mgr]. split; [exact Hg|]. exists rec. by split.
    + by exists m, fp.
    + exact Hr3.
    + rewrite Hc3. exact (kp_capacity _ _ Hk1).
    + by rewrite Hl3.
    + by rewrite He3.
    + by rewrite He3.
    + by split; rewrite He3.
    + rewrite Hx3. exact (kp_next _ _ Hk1).
  - subst r. exists eng1, false, ts, C. split; [reflexivity|]. split; try done.
    + by rewrite Ec.
    + by exists m, fp.
    + eapply ready_le; [exact Hr1|lia].
    + exact (kp_capacity _ _ Hk1).
    + exact (kp_next _ _ Hk1).
Qed.

(** What the chains and the table are after a deletion, whatever was there before:
    only the transaction itself, and only when it succeeded, reads differently. *)
Lemma delete_frame h n pins eng ts C txn k mgr eng' ok ts' C' r k' :
  delete_done h n pins eng ts C txn k mgr eng' ok ts' C' -> running ts txn -> running ts r ->
  k' <> k \/ r <> txn \/ ok = false ->
  visible_value ts' C' r k' = visible_value ts C r k' /\ running ts' r /\ read_cost h C' k' <= read_cost h C k'.
Proof.
  intros Hd Hrun Hr Hne. pose proof (dd_key _ _ _ _ _ _ _ _ _ _ _ _ _ Hd) as Hk.
  destruct (C !! k) as [c|] eqn:Ec; [|by destruct Hk as (_ & -> & -> & _)]. destruct Hk as (_ & -> & -> & _).
  assert (Hcost : read_cost h (<[k := (c.1, if ok then c.2 ++ [Cell txn None []] else c.2)]> C) k' <= read_cost h C k').
  { unfold read_cost. destruct (decide (k' = k)) as [->|Hk']; [|by rewrite lookup_insert_ne].
    rewrite lookup_insert_eq, Ec. cbn [snd]. destruct ok; [|lia]. unfold get_cost. rewrite chain_pages_snoc, app_nil_r. lia. }
  split; [|split; [by apply running_noted|exact Hcost]].
  destruct ok.
  - apply (visible_value_frame C ts _ k c true); [by left|apply (map_noted true)|by apply running_in|].
    by destruct Hne as [?|[?|?]]; [left|right|].
  - f_equal. apply insert_id. rewrite Ec. by destruct c.
Qed.

(** C7: deleting a key. A key that was never set is refused without a change. A key
    with a chain, also one deleted before, gets the record of the deletion in the log
    and, if its chain page has room for it, a tombstone as the newest cell of the
    chain, and then the call returns 1 and the transaction finds no value under the
    key; if the page is full the call returns 0 after the record was logged, and the
    chains are the old ones. In every case a get of another key, by another running
    transaction, or after a refusal by anybody, returns what it returned before. *)
Theorem storage_delete_correct oc h n pins eng ts C txn key klen k mgr result
  (Hdel : can_delete oc h n pins eng ts C txn key klen k mgr) :
  exists eng' ok ts' C', garry_storage_delete oc eng txn key klen = Some (eng', ok) /\
    delete_done h n pins eng ts C txn k mgr eng' ok ts' C' /\
    (ok = true -> exists eng2, garry_storage_get oc eng' txn key klen result = Some (eng2, None)) /\
    forall r key' klen' k' result' eng0 x, k' <> k \/ r <> txn \/ ok = false -> running ts r ->
      key_arg (e_page_size eng) key' klen' k' -> read_cost h C k' <= n ->
      garry_storage_get oc eng r key' klen' result' = Some (eng0, x) ->
      exists eng2, garry_storage_get oc eng' r key' klen' result' = Some (eng2, x).
Proof.
  destruct (storage_delete_spec _ _ _ _ _ _ _ _ _ _ _ _ Hdel) as (eng' & ok & ts' & C' & E & Hd).
  exists eng', ok, ts', C'. split; [exact E|]. split; [exact Hd|].
  pose proof Hdel as [(m0 & fp0 & Hs0) Hrun _ Hkey _ Hr0 Hn Hc1 _ Hfuel [_ Hmr]]. pose proof Hd as [Hk (m & fp & Hs) Hr Hcap _ Hcomp Hps _ _].
  assert (Hget : forall r key' klen' k' result', running ts' r -> key_arg (e_page_size eng) key' klen' k' -> read_cost h C' k' <= n ->
    exists p', garry_storage_get oc eng' r key' klen' result' =
      (x ← match visible_value ts' C' r k' with
           | None => Some None
           | Some y => deliver oc (e_compression eng) (y ++ [0]) (zlen y) result'
           end; Some (set_pool eng' p', x))).
  { intros r key' klen' k' result' Hrun' Hkey' Hle. pose proof (read_cost_nonneg h C' k') as Hpos.
    destruct (storage_get_spec h eng' ts' C' m fp oc 0 pins key' klen' k' r result' Hs) as (p' & _ & _ & E2).
    - eapply ready_le; [exact Hr|lia].
    - lia.
    - by rewrite Hcap.
    - by rewrite <- (sd_page_size _ _ _ _ _ _ Hs), Hps.
    - exact Hfuel.
    - exact Hmr.
    - exact Hrun'.
    - exists p'. by rewrite E2, Hcomp. }
  split.
  - intros ->. destruct (C !! k) as [c|] eqn:Ec; [|destruct Hk as [Hk _]; discriminate Hk]. destruct Hk as (_ & Ets & EC & _).
    destruct (Hget txn key klen k result) as (p' & E2); [rewrite Ets; by apply (running_noted true)|exact Hkey| |].
    + rewrite EC. revert Hn. unfold read_cost. rewrite lookup_insert_eq, Ec. cbn [snd]. unfold get_cost.
      rewrite chain_pages_snoc, app_nil_r. lia.
    + rewrite E2, EC, visible_value_own. by eexists.
  - intros r key' klen' k' result' eng0 x Hne Hrun' Hkey' Hle E0.
    destruct (delete_frame _ _ _ _ _ _ _ _ _ _ _ _ _ r k' Hd Hrun Hrun' Hne) as (Hv & Hrun2 & Hcost).
    destruct (Hget r key' klen' k' result' Hrun2 Hkey') as (p' & E2); [lia|].
    pose proof (read_cost_nonneg h C k') as Hpos.
    destruct (storage_get_spec h eng ts C m0 fp0 oc 0 pins key' klen' k' r result' Hs0) as (p0 & _ & _ & E1).
    + eapply ready_le; [exact Hr0|lia].
    + lia.
    + exact Hc1.
    + by rewrite <- (sd_page_size _ _ _ _ _ _ Hs0).
    + exact Hfuel.
    + exact Hmr.
    + exact Hrun'.
    + rewrite E0 in E1. rewrite E2, Hv. destruct (match visible_value ts C r k' with Some _ => _ | None => _ end) as [y|]; [|discriminate E1].
      cbn [mbind option_bind] in *. injection E1 as _ ->. by eexists.
Qed.

(** * Inspecting a key, and defaults *)

Lemma lookup_descriptor lookup c :
  is_i32 c.1 -> slice lookup 0 (zlen (descriptor_of c)) = Some (descriptor_of c) ->
  rd lookup 0 = Some (GARRY_CBOR_MAP_BASE + 2) /\
  garry_decode_descriptor lookup GARRY_LOOKUP_BUF_SIZE = Some (c.1, false).
Proof.
  intros Hc (p & q & -> & Hp & _)%slice_inv. destruct p; [|rewrite zlen_cons in Hp; pose proof (zlen_nonneg p); lia].
  split; [done|]. pose proof (zlen_descriptor c.1 false). apply decode_descriptor_enc; [exact Hc|].
  unfold GARRY_LOOKUP_BUF_SIZE. lia.
Qed.

(** The status of a key is 10 when the transaction reads a value under it and 0
    otherwise; the statuses for keys with children are never returned, since no
    descriptor is ever written with the flag. *)
Theorem storage_data_correct oc h n pins eng ts C txn key klen k
  (Hs : store h eng ts C) (Hr : ready (n + read_cost h C k) pins [] (e_pool eng)) (Hn : 0 <= n)
  (Hc : zlen pins + 1 < p_capacity (e_pool eng)) (Hk : key_arg (e_page_size eng) key klen k) (Hf : (h < oc_fuel oc)%nat) (Hmr : reads_ok oc) :
  exists eng', garry_storage_data oc eng txn key klen =
    Some (eng', match visible_value ts C txn k with Some _ => GARRY_DATA_HAS_VALUE | None => GARRY_DATA_NOT_FOUND end).
Proof.
  destruct Hs as (m & fp & Hs). unfold garry_storage_data, visible_value. pose proof (ka_some _ _ _ _ Hk).
  rewrite decide_False by lia. unfold read_cost in Hr.
  set (cost := match C !! k with Some c => get_cost c.2 | None => 0 end) in *.
  assert (Hcost : 0 <= cost) by (subst cost; destruct (C !! k) as [c|]; [pose proof (get_cost_pos c.2)|]; lia).
  destruct (lookup_key_spec h eng ts C m fp (oc_fuel oc) (n + cost) pins key klen k Hs) as (p1 & r & -> & Hr1 & Hk1 & _ & Hm);
    [by replace (n + cost + 2 * (Z.of_nat h + 1)) with (n + (2 * (Z.of_nat h + 1) + cost)) by lia|lia|lia|
     by rewrite <- (sd_page_size _ _ _ _ _ _ Hs)|exact Hf|].
  cbn [mbind option_bind]. destruct (C !! k) as [c|] eqn:Ec; [|subst r; by eexists].
  destruct Hm as (lookup & -> & -> & Hsl). cbn [mbind option_bind].
  pose proof (chain_id_ok _ _ _ _ _ _ _ _ Hs Ec) as [Hi Hc0]. rewrite decide_False by lia.
  destruct (lookup_descriptor lookup c Hi Hsl) as [-> Hd]. cbn [mbind option_bind]. rewrite decide_True by done. rewrite Hd.
  cbn [fmap option_fmap option_map snd mbind option_bind].
  rewrite Hmr. destruct (get_spec n pins (set_pool eng p1) ts txn c.1 c.2) as (p2 & -> & _).
  - by apply (txns_rep_fields eng); [apply Hs|..].
  - exact Hr1.
  - exact Hn.
  - cbn. by rewrite (kp_capacity _ _ Hk1).
  - cbn. by rewrite (kp_page_size _ _ Hk1), (sd_page_size _ _ _ _ _ _ Hs).
  - apply (chain_at_grown (e_pool eng)); [by apply keeps_grown|]. by apply (sd_chain _ _ _ _ _ _ Hs k).
  - cbn [mbind option_bind]. eexists. by destruct (read_cells txn (map ti_txid ts) c.2).
Qed.

(** The get with a default delivers the stored value if the transaction reads
    one, and the default's bytes otherwise. *)
Theorem storage_get_default_correct oc h n pins eng ts C txn key klen k def dlen d result
  (Hs : store h eng ts C) (Hr : ready (n + read_cost h C k) pins [] (e_pool eng)) (Hn : 0 <= n)
  (Hc : zlen pins + 1 < p_capacity (e_pool eng)) (Hk : key_arg (e_page_size eng) key klen k) (Hf : (h < oc_fuel oc)%nat) (Hmr : reads_ok oc)
  (Hrun : running ts txn) (Hd : slice def 0 dlen = Some d) (Hres : dlen <= zlen result) (Hmax : dlen <= GARRY_MAX_RECORD_SIZE)
  (Hval : forall b, visible_value ts C txn k = Some b -> exists v, delivers oc (e_compression eng) b result v) :
  exists eng' out v, garry_storage_get_default oc eng txn key klen def dlen result = Some (eng', Some (out, zlen v)) /\
    slice out 0 (zlen v) = Some v /\
    match visible_value ts C txn k with Some b => delivers oc (e_compression eng) b result v | None => v = d end.
Proof.
  destruct Hs as (m & fp & Hs). unfold garry_storage_get_default.
  destruct (storage_get_spec h eng ts C m fp oc n pins key klen k txn (Some result) Hs Hr Hn Hc) as (p' & _ & _ & ->);
    [by rewrite <- (sd_page_size _ _ _ _ _ _ Hs)|exact Hf|exact Hmr|exact Hrun|].
  destruct (visible_value ts C txn k) as [b|].
  - destruct (Hval b eq_refl) as (v & out & E & Ho). rewrite E. cbn [mbind option_bind]. eexists _, out, v.
    split; [reflexivity|]. split; [exact Ho|]. exists out. by split.
  - cbn [mbind option_bind].
    assert (Ht : txns_rep (set_pool eng p') ts) by (by apply (txns_rep_fields eng); [apply Hs|..]).
    rewrite (running_active _ _ _ Ht Hrun). cbn [mbind option_bind negb]. rewrite decide_False by lia.
    pose proof (slice_is_Some _ _ _ _ Hd) as (_ & ? & _ & Hdz).
    unfold memcpy. rewrite Hd. cbn [mbind option_bind].
    destruct (blit_ok result 0 d) as (out & E & _); [lia|lia|]. rewrite E. cbn [mbind option_bind].
    eexists _, out, d. rewrite Hdz. split; [reflexivity|]. split; [|done]. rewrite <- Hdz. exact (slice_blit _ _ _ _ E).
Qed.

(** * Witnesses *)

Definition sample_oc : outcomes := Outcomes (fun _ => true) (Some (zeros 256)) malloc_zeros true true (fun _ => all_reads) 8.
Lemma sample_malloc : oc_record sample_oc = true /\ reads_ok sample_oc.
Proof. by split. Qed.

(** The transactions 5 and 6 run, and page 3 is the root of an empty tree. *)
Definition sample_storage : garry_engine_handle :=
  default sample_two ('(p, root) ← garry_allocate_leaf (e_pool sample_two); Some (set_root (set_pool sample_two p) root)).

Lemma txns_rep_root eng ts p root : txns_rep eng ts -> txns_rep (set_root (set_pool eng p) root) ts.
Proof. intros H. by apply (txns_rep_fields eng). Qed.

Lemma sample_storage_ok :
  store 0 sample_storage [sample_txn; sample_txn2] ∅ /\ ready 1000 [] [] (e_pool sample_storage) /\
  p_capacity (e_pool sample_storage) = 4 /\ p_next_page (e_pool sample_storage) = 4 /\ e_page_size sample_storage = 512 /\
  e_compression sample_storage = 0 /\ e_lock_mgr sample_storage = garry_create_lock_manager /\
  e_wal sample_storage = WalLog (File [] 0 true []) 0.
Proof.
  destruct sample_two_state as (H1 & Hp & Hps). destruct sample_state as (_ & H2 & _ & H4 & H5 & _ & H7).
  rewrite <- Hp in H2, H4, H5, H7.
  destruct (empty_tree 1000 [] (e_pool sample_two)) as (p' & E & Hr' & _ & Hx & Hw & Ht).
  - eapply ready_le; [exact H2|lia].
  - lia.
  - rewrite H5. reflexivity.
  - rewrite H4. reflexivity.
  - rewrite H7. vm_compute. split; congruence.
  - assert (Hs : sample_storage = set_root (set_pool sample_two p') (p_next_page (e_pool sample_two)))
      by (unfold sample_storage; by rewrite E).
    assert (Hf : e_compression sample_two = 0 /\ e_lock_mgr sample_two = garry_create_lock_manager /\
      e_wal sample_two = WalLog (File [] 0 true []) 0) by (split; [|split]; vm_compute; reflexivity).
    rewrite Hs. cbn [e_pool set_root set_pool e_page_size e_compression e_lock_mgr e_wal].
    split; [|split; [exact Hr'|split; [by rewrite (ws_capacity _ _ _ Hw)|split; [by rewrite Hx, H4|split; [exact Hps|exact Hf]]]]].
    exists [], [p_next_page (e_pool sample_two)]. split.
    + apply txns_rep_root. exact H1.
    + exact Ht.
    + reflexivity.
    + intros k c. by rewrite lookup_empty.
    + intros k c q. by rewrite lookup_empty.
    + intros k1 k2 c1 c2 q _. by rewrite lookup_empty.
    + cbn. by rewrite (ws_page_size _ _ _ Hw), H7.
    + cbn. rewrite Hx, H4. vm_compute. discriminate.
    + apply empty_apart. rewrite H4. reflexivity.
Qed.

Lemma sample_key ps c : 512 <= ps -> is_byte c -> key_arg ps [c] 1 [c].
Proof.
  intros Hp Hc. split; [reflexivity|lia|vm_compute; discriminate|apply Forall_singleton; exact Hc|].
  unfold entry_fits, GARRY_PAGE_HEADER_SIZE, GARRY_SLOT_SIZE. cbn [fst snd]. change (zlen [c]) with 1.
  change (zlen (zeros 14)) with 14. lia.
Qed.

Lemma sample_running txn : txn = 5 \/ txn = 6 -> running [sample_txn; sample_txn2] txn.
Proof.
  intros [-> | ->]; eexists; (split; [reflexivity|]); unfold rolled_back; cbn; discriminate.
Qed.

(** Setting the key [107] to 600 bytes: they go to overflow pages, also for the log. *)
Definition sample_value : list Z := replicate 600 7.
Definition sample_locked : garry_lock_manager :=
  LockManager [LockNode (107 :: zeros 255) 1 5 GARRY_LOCK_EXCLUSIVE] 1.

Lemma sample_can_store n :
  0 <= n <= 100 ->
  can_store sample_oc 0 n [] sample_storage [sample_txn; sample_txn2] ∅ 5 [107] 1 [107] sample_value 600 sample_value
    sample_value 600 sample_value sample_locked.
Proof.
  intros Hn. destruct sample_storage_ok as (H1 & H2 & H3 & H4 & H5 & H6 & H7 & H8).
  split; rewrite ?H3, ?H4, ?H5, ?H6, ?H7, ?H8.
  - exact H1.
  - apply sample_running. by left.
  - vm_compute. split; congruence.
  - apply sample_key; [lia|unfold is_byte; lia].
  - reflexivity.
  - lia.
  - split; [intros Hd; discriminate Hd|intros _; by split|reflexivity|lia].
  - reflexivity.
  - eapply ready_le; [exact H2|]. change (set_cost 0 512 600 600) with 49. lia.
  - lia.
  - vm_compute. discriminate.
  - vm_compute. discriminate.
  - vm_compute. split; congruence.
  - vm_compute. split; congruence.
  - split; [done|done|done|vm_compute; split; congruence].
  - done.
  - cbn. lia.
  - exact sample_malloc.
Qed.

Lemma sample_read_after ps : ps = 512 -> read_after 0 ∅ [107] ps 600 <= 100.
Proof. intros ->. vm_compute. discriminate. Qed.

Lemma sample_deliver result : 600 <= zlen result -> can_deliver sample_oc sample_storage 600 result.
Proof.
  intros Hz. destruct sample_storage_ok as (_ & _ & _ & _ & _ & H6 & _). split; [exact Hz|]. rewrite H6. discriminate.
Qed.

Definition sample_stored : garry_engine_handle :=
  default sample_storage (fst <$> garry_storage_set sample_oc sample_storage 5 [107] 1 (Some sample_value) 600).

Lemma sample_set_succeeds : garry_storage_set sample_oc sample_storage 5 [107] 1 (Some sample_value) 600 = Some (sample_stored, true).
Proof. unfold sample_stored. vm_compute. reflexivity. Qed.

Lemma storage_set_refines_witness : exists eng' ok h' c pages,
  garry_storage_set sample_oc sample_storage 5 [107] 1 (Some sample_value) 600 = Some (eng', ok) /\
  set_done 0 100 [] sample_storage [sample_txn; sample_txn2] ∅ 5 [107] sample_value sample_value 600 sample_locked
    eng' ok h' c pages.
Proof.
  destruct (storage_set_refines sample_oc 0 100 [] sample_storage _ ∅ 5 [107] 1 [107] sample_value 600 sample_value
    sample_value 600 sample_value sample_locked (sample_can_store 100 ltac:(lia))) as (eng' & ok & h' & c & pages & E & H & _).
  exists eng', ok, h', c, pages. split; [exact E|exact H].
Defined.

Lemma storage_reads_own_set_witness : exists eng2 out,
  garry_storage_get sample_oc sample_stored 5 [107] 1 (Some (zeros 1000)) = Some (eng2, Some (Some out, 600)) /\
  slice out 0 600 = Some sample_value.
Proof.
  destruct sample_storage_ok as (_ & _ & _ & _ & H5 & _).
  apply (storage_reads_own_set sample_oc 0 100 [] sample_storage [sample_txn; sample_txn2] ∅ 5 [107] 1 [107] sample_value 600 sample_value
    sample_value 600 sample_value sample_locked sample_stored (zeros 1000)).
  - apply sample_can_store. lia.
  - by apply sample_read_after.
  - apply sample_deliver. vm_compute. discriminate.
  - exact sample_set_succeeds.
Defined.

Lemma sample_get_before r : r = 5 \/ r = 6 ->
  exists eng0, garry_storage_get sample_oc sample_storage r [107] 1 None = Some (eng0, None).
Proof. intros [-> | ->]; (eexists; vm_compute; reflexivity). Qed.

Lemma storage_set_isolated_witness :
  (exists eng2, garry_storage_get sample_oc sample_stored 6 [107] 1 None = Some (eng2, None)) /\
  exists eng2, garry_storage_get sample_oc sample_storage 6 [107] 1 None = Some (eng2, None).
Proof.
  destruct sample_storage_ok as (_ & _ & _ & _ & H5 & _). destruct (sample_get_before 6 (or_intror eq_refl)) as [eng0 E0].
  assert (Hkey : key_arg (e_page_size sample_storage) [107] 1 [107]) by (rewrite H5; apply sample_key; [lia|unfold is_byte; lia]).
  split.
  - apply (storage_set_isolated sample_oc 0 100 [] sample_storage [sample_txn; sample_txn2] ∅ 5 [107] 1 [107] sample_value 600 sample_value
      sample_value 600 sample_value sample_locked sample_stored true 6 [107] 1 [107] None eng0 None).
    + right. apply sample_can_store. lia.
    + by apply sample_read_after.
    + apply sample_running. by right.
    + exact Hkey.
    + by right.
    + exact E0.
    + exact sample_set_succeeds.
  - apply (storage_set_isolated sample_oc 0 100 [] sample_storage [sample_txn; sample_txn2] ∅ 7 [107] 1 [107] sample_value 600 sample_value
      sample_value 600 sample_value sample_locked sample_storage false 6 [107] 1 [107] None eng0 None).
    + left. right. right. right. left. vm_compute. reflexivity.
    + by apply sample_read_after.
    + apply sample_running. by right.
    + exact Hkey.
    + right. discriminate.
    + exact E0.
    + vm_compute. reflexivity.
Defined.


Lemma storage_rollback_hidden_witness : exists eng2 eng3,
  garry_storage_rollback true sample_stored 5 = Some eng2 /\
  garry_storage_get sample_oc eng2 6 [107] 1 None = Some (eng3, None).
Proof.
  destruct sample_storage_ok as (_ & _ & _ & _ & H5 & _ & _ & H8).
  destruct (sample_get_before 6 (or_intror eq_refl)) as [eng0 E0].
  apply (storage_rollback_hidden sample_oc 0 100 [] sample_storage [sample_txn; sample_txn2] ∅ 5 [107] 1 [107] sample_value 600 sample_value
    sample_value 600 sample_value sample_locked sample_stored true 6 [107] 1 [107] None eng0 None).
  - apply sample_can_store. lia.
  - by apply sample_read_after.
  - rewrite H8. reflexivity.
  - apply sample_running. by right.
  - rewrite H5. apply sample_key; [lia|unfold is_byte; lia].
  - lia.
  - exact E0.
  - exact sample_set_succeeds.
Defined.

(** The state after the set. *)
Lemma sample_stored_done : exists h' c pages,
  set_done 0 100 [] sample_storage [sample_txn; sample_txn2] ∅ 5 [107] sample_value sample_value 600 sample_locked
    sample_stored true h' c pages.
Proof. exact (set_result (sample_can_store 100 ltac:(lia)) sample_stored true sample_set_succeeds). Qed.

Lemma sample_stored_facts : exists h' ts' c pages,
  store h' sample_stored ts' (<[ [107] := (c, [Cell 5 (Some sample_value) pages])]> ∅) /\ (h' <= 1)%nat /\ zlen pages <= 2 /\
  running ts' 5 /\ ready 100 [] [] (e_pool sample_stored) /\ p_capacity (e_pool sample_stored) = 4 /\
  e_page_size sample_stored = 512 /\ e_lock_mgr sample_stored = sample_locked /\ log_ready (e_wal sample_stored).
Proof.
  destruct sample_stored_done as (h' & c & pages & [D1 D2 D3 D4 D5 D6 D7 D8 D9 D10 D11 [D12 D13] _ _ _]).
  destruct sample_storage_ok as (_ & _ & H3 & _ & H5 & _ & _ & H8).
  destruct D2 as [D2|[_ D2]]; [rewrite lookup_empty in D2; discriminate D2|]. rewrite D2 in D5. cbn [app] in D5.
  exists h', (alter_txn (noted c.1) [sample_txn; sample_txn2] 5), c.1, pages.
  split; [exact D5|]. split; [destruct D1; lia|].
  split; [rewrite H5 in D4; change (set_pages 512 600) with 2 in D4; exact D4|].
  split; [apply (running_noted true), sample_running; by left|]. split; [exact D6|]. split; [rewrite D7; exact H3|].
  split; [rewrite D10; exact H5|]. split; [exact D8|]. apply D13. rewrite D12, H8. reflexivity.
Qed.

Lemma sample_read_cost h' c pages : (h' <= 1)%nat -> zlen pages <= 2 ->
  0 <= read_cost h' (<[ [107] := (c, [Cell 5 (Some sample_value) pages])]> ∅) [107] <= 20.
Proof.
  intros Hh Hp. split; [apply read_cost_nonneg|]. unfold read_cost. rewrite lookup_insert_eq. cbn [snd].
  unfold get_cost, chain_pages. cbn [map concat c_pages]. rewrite app_nil_r. lia.
Qed.

Lemma sample_can_delete h' ts' c pages :
  store h' sample_stored ts' (<[ [107] := (c, [Cell 5 (Some sample_value) pages])]> ∅) -> (h' <= 1)%nat -> zlen pages <= 2 ->
  running ts' 5 -> ready 100 [] [] (e_pool sample_stored) -> p_capacity (e_pool sample_stored) = 4 ->
  e_page_size sample_stored = 512 -> e_lock_mgr sample_stored = sample_locked -> log_ready (e_wal sample_stored) ->
  can_delete sample_oc h' 50 [] sample_stored ts' (<[ [107] := (c, [Cell 5 (Some sample_value) pages])]> ∅) 5 [107] 1 [107] sample_locked.
Proof.
  intros H1 H2 H3 H4 H5 H6 H7 H8 H9. pose proof (sample_read_cost h' c pages H2 H3) as Hrc. split.
  - exact H1.
  - exact H4.
  - vm_compute. split; congruence.
  - rewrite H7. apply sample_key; [lia|unfold is_byte; lia].
  - rewrite H8. reflexivity.
  - eapply ready_le; [exact H5|lia].
  - lia.
  - rewrite H6. reflexivity.
  - exact H9.
  - cbn. lia.
  - exact sample_malloc.
Qed.

Lemma storage_delete_correct_witness : exists eng' eng2,
  garry_storage_delete sample_oc sample_stored 5 [107] 1 = Some (eng', true) /\
  garry_storage_get sample_oc eng' 5 [107] 1 None = Some (eng2, None).
Proof.
  destruct sample_stored_facts as (h' & ts' & c & pages & H1 & H2 & H3 & H4 & H5 & H6 & H7 & H8 & H9).
  assert (E2 : exists e, garry_storage_delete sample_oc sample_stored 5 [107] 1 = Some (e, true))
    by (eexists; vm_compute; reflexivity).
  destruct E2 as [e E2].
  destruct (storage_delete_correct sample_oc h' 50 [] sample_stored ts' _ 5 [107] 1 [107] sample_locked None
    (sample_can_delete h' ts' c pages H1 H2 H3 H4 H5 H6 H7 H8 H9))
    as (eng' & ok & ts2 & C' & E & _ & Hget & _).
  rewrite E2 in E. injection E as <- <-. destruct (Hget eq_refl) as [eng2 E3]. exists e, eng2. split; [exact E2|exact E3].
Defined.

Lemma storage_data_correct_witness : exists eng',
  garry_storage_data sample_oc sample_stored 5 [107] 1 = Some (eng', GARRY_DATA_HAS_VALUE).
Proof.
  destruct sample_stored_facts as (h' & ts' & c & pages & H1 & H2 & H3 & H4 & H5 & H6 & H7 & H8 & H9).
  pose proof (sample_read_cost h' c pages H2 H3) as Hrc.
  destruct (storage_data_correct sample_oc h' 0 [] sample_stored ts' _ 5 [107] 1 [107] H1) as [eng' E].
  - eapply ready_le; [exact H5|lia].
  - lia.
  - rewrite H6. reflexivity.
  - rewrite H7. apply sample_key; [lia|unfold is_byte; lia].
  - cbn. lia.
  - apply sample_malloc.
  - exists eng'. rewrite E. rewrite (visible_value_own ∅ ts' [107] (c, []) 5 (Some sample_value) pages). reflexivity.
Defined.

Lemma storage_get_default_correct_witness : exists eng' out,
  garry_storage_get_default sample_oc sample_storage 5 [107] 1 [1; 2; 3] 2 (zeros 4) = Some (eng', Some (out, 2)) /\
  slice out 0 2 = Some [1; 2].
Proof.
  destruct sample_storage_ok as (H1 & H2 & H3 & H4 & H5 & H6 & H7 & H8).
  destruct (storage_get_default_correct sample_oc 0 0 [] sample_storage _ ∅ 5 [107] 1 [107] [1; 2; 3] 2 [1; 2] (zeros 4) H1)
    as (eng' & out & v & E & Ho & Hv).
  - eapply ready_le; [exact H2|unfold read_cost; rewrite lookup_empty; lia].
  - lia.
  - rewrite H3. reflexivity.
  - rewrite H5. apply sample_key; [lia|unfold is_byte; lia].
  - cbn. lia.
  - apply sample_malloc.
  - apply sample_running. by left.
  - reflexivity.
  - vm_compute. discriminate.
  - vm_compute. discriminate.
  - intros b Hb. unfold visible_value in Hb. rewrite lookup_empty in Hb. discriminate Hb.
  - unfold visible_value in Hv. rewrite lookup_empty in Hv. cbn in Hv. subst v. exists eng', out. split; [exact E|exact Ho].
Defined.
