(* ===== verification/VersionIter.v ===== *)
(** The history of a key, the iterator at the end of [src/src/version_chain.c]: it
    copies the chain page of the key and returns its versions from the newest to the
    oldest, committed or not. *)

From stdpp Require Import gmap.
From S2P Require Import Prelude Endian KeyEncoding BtreeCompression RecordCodec SlottedPage LockTable DbHeader Lz4.
From S2P Require Import FileIo BufferPool PoolClient BtreeNode NodeView BtreeSearch BtreeModify BtreeInsert.
From S2P Require Import VersionChain Overflow WalLog Transaction MvccStore StorageOps KeyStore StorageProps.

(** * The code *)

(** [mem_it] and [mem_buf] are the results of the two allocations; the inner [None] is
    [NULL].  Closing the iterator frees them. *)
Definition garry_version_iter_open (mem_it mem_buf : bool) (fuel : nat) (eng : garry_engine_handle) (key : option (list Z))
    (klen : Z) : option (garry_engine_handle * option garry_version_iter) :=
  match key with
  | None => Some (eng, None)
  | Some key =>
      if decide (klen <= 0) then Some (eng, None) else
      '(eng, r) ← lookup_key fuel eng key klen;
      match r with
      | None => Some (eng, None)
      | Some lookup =>
          cid ← garry_decode_cid_from_descriptor lookup;
          if decide (cid < 0) then Some (eng, None) else
          '(pool, r) ← garry_pool_pin_page (e_pool eng) cid;
          match r with
          | None => Some (set_pool eng pool, None)
          | Some idx =>
              if negb (mem_it && mem_buf) then
                pool ← garry_pool_release_page pool cid; Some (set_pool eng pool, None)
              else
                chain_buf ← slot_page pool idx;
                page_buf ← memcpy (zeros (p_page_size pool)) 0 chain_buf 0 (p_page_size pool);
                pool ← garry_pool_release_page pool cid;
                record_count ← garry_page_record_count page_buf;
                Some (set_pool eng pool, Some (VersionIter page_buf (i32 (p_page_size pool)) record_count (record_count - 1)))
          end
      end
  end.

(** * What a caller does: drain the iterator *)

(** [mem]: whether the allocation of each call succeeds. *)
Fixpoint versions (mem : nat -> bool) (calls : nat) (it : garry_version_iter) (pool : garry_buffer_pool)
  : option (garry_buffer_pool * list version_entry) :=
  match calls with
  | O => None
  | S calls =>
      '(it, pool, v) ← garry_version_iter_next (mem calls) it pool;
      match v with
      | None => Some (pool, [])
      | Some v => '(pool, vs) ← versions mem calls it pool; Some (pool, v :: vs)
      end
  end.

(** * One version *)

(** What the iterator returns for a version. *)
Definition cell_entry (c : cell) : version_entry :=
  match c_value c with
  | Some b => VersionEntry (c_txn c) (Some b) (zlen b) false
  | None => VersionEntry (c_txn c) None 0 true
  end.

Lemma copy_value_out (b p q : list Z) : copy_loop (zeros (zlen b)) 0 (p ++ b ++ q) (zlen p) (zlen b) = Some b.
Proof.
  pose proof (zlen_nonneg b). rewrite (copy_loop_slice _ _ 0 (zlen p) (zlen b) b); [|by apply slice_app|lia|rewrite zlen_zeros by lia; lia].
  apply blit_whole. by rewrite zlen_zeros by lia.
Qed.

Lemma iter_next_spec n pins p local vs cnt i v c :
  chain_rep (p_page_size p) local vs -> vs !! i = Some v ->
  cell_of (pool_view p) (garry_overflow_chunk_size (p_page_size p)) v c ->
  Forall (fun q => q < p_next_page p) (c_pages c) ->
  ready (n + 2 * zlen (c_pages c)) pins [] p -> 0 <= n -> zlen pins < p_capacity p ->
  exists p', garry_version_iter_next true (VersionIter local (p_page_size p) cnt (Z.of_nat i)) p =
      Some (VersionIter local (p_page_size p) cnt (Z.of_nat i - 1), p', Some (cell_entry c)) /\
    ready n pins [] p' /\ keeps p p'.
Proof.
  intros Hrep Hv (Hct & _ & Hb) HF Hr Hn Hc. unfold garry_version_iter_next. cbn [it_next_slot it_page_buf it_page_size it_record_count].
  rewrite decide_False by lia.
  destruct (chain_get _ local vs i v _ Hrep Hv zlen_entry_buf) as (q & -> & Hzq & Hlen & Hwf). cbn [mbind option_bind].
  rewrite decide_False by (unfold GARRY_CHAIN_ENTRY_HEADER_SIZE; lia).
  destruct (entry_fields v q Hwf) as (-> & _ & ->). cbn [mbind option_bind].
  assert (Hfl : exists t f, body_flags (v_body v) = [t; f]) by (destruct (v_body v); eauto).
  destruct Hfl as (t & f & Hfl). destruct (entry_flag v q t f Hfl) as [-> ->]. cbn [mbind option_bind]. rewrite Hct.
  assert (Hr0 : ready n pins [] p) by (eapply ready_le; [exact Hr|]; pose proof (zlen_nonneg (c_pages c)); lia).
  unfold cell_entry. destruct (v_body v) as [b|len hd|] eqn:Hbd; cbn [body_flags] in Hfl; injection Hfl as <- <-; cbn [body_len].
  - destruct Hb as [-> _]. change (bool_decide (0 <> 0)) with false.
    change (bool_decide (Z.land (if decide (0 < 0) then 0 + 256 else 0) GARRY_CHAIN_FLAG_OVERFLOW <> 0)) with false. cbn iota.
    pose proof (entry_body v q) as Hbody. rewrite Hbd in Hbody. cbn [body_bytes] in Hbody.
    apply slice_inv in Hbody as (pre & r & -> & Hp & _). rewrite <- Hp, copy_value_out. cbn [mbind option_bind].
    exists p. split; [reflexivity|]. by split.
  - destruct Hb as (-> & _ & data & -> & -> & Hch). change (bool_decide (0 <> 0)) with false.
    change (bool_decide (Z.land (if decide (1 < 0) then 1 + 256 else 1) GARRY_CHAIN_FLAG_OVERFLOW <> 0)) with true. cbn iota.
    rewrite (entry_head v q _ _ Hbd) by (destruct Hwf as (_ & _ & _ & _ & Hh); by rewrite Hbd in Hh). cbn [mbind option_bind].
    pose proof (zlen_nonneg data).
    destruct (overflow_read_spec n pins p (c_pages c) data (zeros (zlen data)) Hr Hn Hc Hch HF)
      as (p' & out' & -> & Hbl & Hr' & Hk & _); [rewrite zlen_zeros by lia; lia|]. cbn [mbind option_bind].
    rewrite blit_whole in Hbl by (by rewrite zlen_zeros by lia). injection Hbl as <-. exists p'. by split.
  - destruct Hb as [-> _]. change (bool_decide (1 <> 0)) with true. cbn iota. exists p. by split.
Qed.

(** * All versions *)

Lemma chain_pages_take (cells : list cell) i c :
  cells !! i = Some c -> chain_pages (take (S i) cells) = chain_pages (take i cells) ++ c_pages c.
Proof. intros Hc. by rewrite (take_S_r _ _ _ Hc), chain_pages_snoc. Qed.

Lemma versions_spec i : forall calls n pins p local vs cells cnt,
  chain_rep (p_page_size p) local vs ->
  Forall2 (cell_of (pool_view p) (garry_overflow_chunk_size (p_page_size p))) vs cells ->
  Forall (fun q => q < p_next_page p) (chain_pages cells) -> (i <= length cells)%nat -> (i < calls)%nat ->
  ready (n + 2 * zlen (chain_pages (take i cells))) pins [] p -> 0 <= n -> zlen pins < p_capacity p ->
  exists p', versions (fun _ => true) calls (VersionIter local (p_page_size p) cnt (Z.of_nat i - 1)) p =
      Some (p', map cell_entry (rev (take i cells))) /\ ready n pins [] p' /\ keeps p p'.
Proof.
  induction i as [|i IH]; intros calls n pins p local vs cells cnt Hrep HF Hpages Hi Hcalls Hr Hn Hc;
    (destruct calls as [|calls]; [lia|]); cbn [versions].
  - unfold garry_version_iter_next. cbn [it_next_slot]. rewrite decide_True by lia. cbn [mbind option_bind].
    exists p. split; [reflexivity|]. split; [|reflexivity]. eapply ready_le; [exact Hr|].
    pose proof (zlen_nonneg (chain_pages (take 0 cells))). lia.
  - destruct (lookup_lt_is_Some_2 cells i) as [c Hci]; [lia|].
    destruct (Forall2_lookup_r _ _ _ _ _ HF Hci) as (v & Hv & Hcell).
    rewrite (chain_pages_take _ _ _ Hci), zlen_app in Hr.
    replace (Z.of_nat (S i) - 1) with (Z.of_nat i) by lia.
    assert (Hcp : Forall (fun q => q < p_next_page p) (c_pages c)).
    { rewrite Forall_forall in Hpages |- *. intros q Hq. apply Hpages. apply (elem_of_chain_pages cells c); [|exact Hq].
      by apply list_elem_of_lookup_2 in Hci. }
    destruct (iter_next_spec (n + 2 * zlen (chain_pages (take i cells))) pins p local vs cnt i v c Hrep Hv Hcell Hcp)
      as (p1 & -> & Hr1 & Hk1); [eapply ready_le; [exact Hr|]; pose proof (zlen_nonneg (c_pages c)); pose proof (zlen_nonneg (chain_pages (take i cells))); lia|
        pose proof (zlen_nonneg (chain_pages (take i cells))); lia|exact Hc|]. cbn [mbind option_bind].
    pose proof Hk1 as [K1 K2 K3 K4]. rewrite <- K2.
    destruct (IH calls n pins p1 local vs cells cnt) as (p2 & E & Hr2 & Hk2); [by rewrite K2| |by rewrite K3|lia|lia|exact Hr1|exact Hn|by rewrite K1|].
    { rewrite K2. eapply Forall2_impl; [exact HF|]. intros v' c' Hvc. eapply cell_of_ext; [|exact Hvc]. intros q _. apply K4. }
    rewrite E. cbn [mbind option_bind]. exists p2. split; [|split; [exact Hr2|by transitivity p1]].
    rewrite (take_S_r _ _ _ Hci). change (rev (take i cells ++ [c])) with (rev (take i cells ++ [c])). rewrite rev_app_distr. reflexivity.
Qed.

(** * Properties *)

Lemma iter_open_spec h eng ts C m fp fuel n key klen k c :
  stored h eng ts C m fp -> ready (n + 2 * (Z.of_nat h + 1) + 2) [] [] (e_pool eng) -> 0 <= n -> 0 < p_capacity (e_pool eng) ->
  key_arg (e_page_size eng) key klen k -> (h < fuel)%nat -> C !! k = Some c ->
  exists p' local vs, garry_version_iter_open true true fuel eng (Some key) klen =
      Some (set_pool eng p', Some (VersionIter local (p_page_size p') (zlen c.2) (zlen c.2 - 1))) /\
    ready n [] [] p' /\ keeps (e_pool eng) p' /\ chain_rep (p_page_size p') local vs /\
    Forall2 (cell_of (pool_view p') (garry_overflow_chunk_size (p_page_size p'))) vs c.2 /\
    Forall (fun q => q < p_next_page p') (chain_pages c.2).
Proof.
  intros Hs Hr Hn Hc Hk Hf Ec. unfold garry_version_iter_open. rewrite (sd_page_size _ _ _ _ _ _ Hs) in Hk.
  pose proof (ka_some _ _ _ _ Hk). rewrite decide_False by lia.
  destruct (lookup_key_spec h eng ts C m fp fuel (n + 2) [] key klen k Hs) as (p1 & r & -> & Hr1 & Hk1 & _ & Hm);
    [eapply ready_le; [exact Hr|lia]|lia|exact Hc|exact Hk|exact Hf|]. rewrite Ec in Hm. destruct Hm as (lookup & -> & Hcid & _).
  cbn [mbind option_bind]. rewrite Hcid. cbn [mbind option_bind].
  pose proof (chain_id_ok _ _ _ _ _ _ _ _ Hs Ec) as [_ Hc0]. rewrite decide_False by lia. cbn [e_pool set_pool].
  assert (Hs1 : stored h (set_pool eng p1) ts C m fp).
  { apply (stored_grown h eng _ ts); [exact Hs|by apply keeps_writes|by apply (txns_rep_fields eng); [apply Hs|..]|done|done|].
    cbn. rewrite (kp_next _ _ Hk1). apply Hs. }
  destruct (sd_chain _ _ _ _ _ _ Hs1 k c Ec) as [Hrange Hpages (vs & Hrep & HF)]. cbn [e_pool set_pool] in *.
  destruct (pin_page_ready n [] [] p1 c.1) as (p2 & i & -> & Hr2 & Hk2 & _ & _ & Hsp); [exact Hr1|exact Hn|by rewrite (kp_capacity _ _ Hk1)|exact Hrange|].
  cbn [mbind option_bind negb andb]. rewrite Hsp. cbn [mbind option_bind]. rewrite (kp_page_size _ _ Hk2).
  pose proof Hrep as [Hpr Hwf]. pose proof (rep_size _ _ _ Hpr) as Hsz. unfold GARRY_MAX_PAGE_SIZE in Hsz.
  destruct (page_rep_copy (p_page_size p1) (pool_view p1 c.1) (zeros (p_page_size p1)) _ Hpr) as (local & -> & _ & Hl).
  { rewrite zlen_zeros_max. lia. }
  cbn [mbind option_bind]. destruct (release_ready n c.1 [] [] p2 Hr2) as (p3 & -> & Hr3 & Hk3 & _); [apply not_elem_of_nil|].
  cbn [mbind option_bind]. unfold garry_page_record_count, garry_read_int32. rewrite (rep_count _ _ _ Hl). cbn [mbind option_bind].
  assert (Hcnt : zlen (map encode_version vs) = zlen c.2) by (unfold zlen; rewrite length_map; f_equal; by eapply Forall2_length).
  pose proof (kp_page_size _ _ Hk2) as P2. pose proof (kp_page_size _ _ Hk3) as P3.
  pose proof (zlen_nonneg (map encode_version vs)). pose proof (zlen_nonneg (concat (map encode_version vs))).
  unfold GARRY_PAGE_HEADER_SIZE, GARRY_SLOT_SIZE, recs_len in Hsz.
  exists p3, local, vs. rewrite P3, P2. rewrite i32_id by (unfold is_i32; lia). rewrite Hcnt. split; [reflexivity|]. split; [exact Hr3|]. split; [by transitivity p1; [|transitivity p2]|].
  split; [by split|]. split.
  - eapply Forall2_impl; [exact HF|]. intros v' c' Hvc. eapply cell_of_ext; [|exact Hvc]. intros q _.
    by rewrite (kp_view _ _ Hk3), (kp_view _ _ Hk2).
  - rewrite (kp_next _ _ Hk3), (kp_next _ _ Hk2). eapply Forall_impl; [exact Hpages|]. cbn. tauto.
Qed.

(** C19: the history of a key: for a key that was never set opening the iterator gives
    [NULL]; otherwise it opens and returns every version of the chain once, from the
    newest to the oldest, with its transaction and value or tombstone, whether the
    transaction committed or not, and then ends; the store is as before. *)
Theorem versions_newest_first h eng ts C m fp fuel n key klen k calls
  (Hs : stored h eng ts C m fp) (Hr : ready (n + read_cost h C k + 2) [] [] (e_pool eng)) (Hn : 0 <= n)
  (Hc : 0 < p_capacity (e_pool eng)) (Hk : key_arg (e_page_size eng) key klen k) (Hf : (h < fuel)%nat)
  (Hcalls : forall c, C !! k = Some c -> (length c.2 < calls)%nat) :
  exists eng1 r, garry_version_iter_open true true fuel eng (Some key) klen = Some (eng1, r) /\ stored h eng1 ts C m fp /\
    match C !! k with
    | None => r = None
    | Some c => exists it p', r = Some it /\ versions (fun _ => true) calls it (e_pool eng1) = Some (p', map cell_entry (rev c.2)) /\
        stored h (set_pool eng1 p') ts C m fp
    end.
Proof.
  pose proof (read_cost_nonneg h C k) as Hrc. unfold read_cost in *. destruct (C !! k) as [c|] eqn:Ec.
  - unfold get_cost in *. pose proof (zlen_nonneg (chain_pages c.2)).
    destruct (iter_open_spec h eng ts C m fp fuel (n + 2 * zlen (chain_pages c.2)) key klen k c Hs)
      as (p1 & local & vs & E & Hr1 & Hk1 & Hrep & HF & Hpages); [eapply ready_le; [exact Hr|lia]|lia|exact Hc|exact Hk|exact Hf|exact Ec|].
    destruct (versions_spec (length c.2) calls n [] p1 local vs c.2 (zlen c.2) Hrep HF Hpages) as (p2 & E2 & _ & Hk2);
      [lia|by apply Hcalls|by rewrite firstn_all|exact Hn|by rewrite (kp_capacity _ _ Hk1)|].
    rewrite firstn_all in E2.
    assert (Hst : forall p', keeps (e_pool eng) p' -> stored h (set_pool eng p') ts C m fp).
    { intros p' Hk'. apply (stored_grown h eng _ ts); [exact Hs|by apply keeps_writes|by apply (txns_rep_fields eng); [apply Hs|..]|done|done|].
      cbn. rewrite (kp_next _ _ Hk'). apply Hs. }
    do 2 eexists. split; [exact E|]. split; [by apply Hst|]. do 2 eexists. split; [reflexivity|]. split; [exact E2|].
    change (set_pool (set_pool eng p1) p2) with (set_pool eng p2). apply Hst. by transitivity p1.
  - unfold garry_version_iter_open. rewrite (sd_page_size _ _ _ _ _ _ Hs) in Hk. pose proof (ka_some _ _ _ _ Hk). rewrite decide_False by lia.
    destruct (lookup_key_spec h eng ts C m fp fuel 0 [] key klen k Hs) as (p1 & r & -> & Hr1 & Hk1 & _ & Hm);
      [eapply ready_le; [exact Hr|lia]|lia|exact Hc|exact Hk|exact Hf|]. rewrite Ec in Hm. subst r. cbn [mbind option_bind].
    do 2 eexists. split; [reflexivity|]. split; [|reflexivity].
    apply (stored_grown h eng _ ts); [exact Hs|by apply keeps_writes|by apply (txns_rep_fields eng); [apply Hs|..]|done|done|].
    cbn. rewrite (kp_next _ _ Hk1). apply Hs.
Qed.

(** * Witnesses *)

Lemma versions_newest_first_witness : exists eng1 it p' vs,
  garry_version_iter_open true true 8 sample_stored (Some [107]) 1 = Some (eng1, Some it) /\
  versions (fun _ => true) 2 it (e_pool eng1) = Some (p', vs) /\ vs = [VersionEntry 5 (Some sample_value) 600 false].
Proof.
  destruct sample_stored_facts as (h & ts & c & pages & (m & fp & Hs) & H1 & H2 & H3 & H4 & H5 & H6 & _).
  pose proof (sample_read_cost h c pages H1 H2) as Hrc.
  destruct (versions_newest_first h sample_stored ts _ m fp 8 0 [107] 1 [107] 2 Hs) as (eng1 & r & E & _ & Hm).
  - eapply ready_le; [exact H4|lia].
  - lia.
  - rewrite H5. reflexivity.
  - rewrite H6. apply sample_key; [lia|unfold is_byte; lia].
  - lia.
  - intros c' Hc. rewrite lookup_insert_eq in Hc. injection Hc as <-. cbn. lia.
  - rewrite lookup_insert_eq in Hm. destruct Hm as (it & p' & -> & Ev & _). exists eng1, it, p'. eexists. split; [exact E|].
    split; [exact Ev|]. reflexivity.
Defined.
