(* ===== verification/WalRecovery.v ===== *)
(** Crash recovery, [src/src/wal_recovery.c]: the replay of the committed updates
    and deletions of the log into the tree and the chains.

    The first pass is [collect_committed] of WalLog.v.  The log is the engine's
    ([garry_engine_open] passes [&eng->wal]).  [malloc] and [realloc] of the list of
    committed transactions succeed; what the other allocations return is an argument,
    for each round of the second pass. *)

From stdpp Require Import gmap.
From S2P Require Import Prelude Endian KeyEncoding BtreeCompression RecordCodec SlottedPage LockTable DbHeader Lz4.
From S2P Require Import FileIo BufferPool PoolClient BtreeNode NodeView BtreeSearch BtreeModify BtreeInsert.
From S2P Require Import VersionChain Overflow WalLog Transaction MvccStore StorageOps KeyStore StorageProps.

(** * The code *)

(** The local buffers that live through the loop. *)
Record replay_bufs := Bufs { b_key : list Z; b_val : list Z; b_lookup : list Z }.
Definition replay_locals : replay_bufs :=
  Bufs (zeros GARRY_MAX_RECORD_SIZE) (zeros GARRY_MAX_RECORD_SIZE) (zeros GARRY_MAX_RECORD_SIZE).
Definition set_b_key (b : replay_bufs) (k : list Z) : replay_bufs := Bufs k (b_val b) (b_lookup b).
Definition set_b_val (b : replay_bufs) (v : list Z) : replay_bufs := Bufs (b_key b) v (b_lookup b).
Definition set_b_lookup (b : replay_bufs) (l : list Z) : replay_bufs := Bufs (b_key b) (b_val b) l.

(** The search for the key in the buffers: the chain of the key, if it is there. *)
Definition replay_lookup (oc : outcomes) (eng : garry_engine_handle) (b : replay_bufs) (klen : Z)
  : option (garry_engine_handle * replay_bufs * option Z) :=
  '(pool, r) ← garry_leaf_find_search (oc_fuel oc) (e_pool eng) (e_btree_root eng) (b_key b) klen (b_lookup b);
  let eng := set_pool eng pool in
  match r with
  | None => Some (eng, b, None)
  | Some (lookup, lookup_len) =>
      '(chain_id, _) ← garry_decode_descriptor lookup lookup_len;
      Some (eng, set_b_lookup b lookup, Some chain_id)
  end.

Definition replay_delete (oc : outcomes) (eng : garry_engine_handle) (b : replay_bufs) (txid klen : Z)
  : option (garry_engine_handle * replay_bufs) :=
  '(eng, b, r) ← replay_lookup oc eng b klen;
  match r with
  | None => Some (eng, b)
  | Some chain_id => '(eng, _) ← garry_mvcc_delete eng txid chain_id; Some (eng, b)
  end.

(** The value of an update record, in the value buffer; [false] for the [continue]s. *)
Definition replay_value (eng : garry_engine_handle) (b : replay_bufs) (rec : list Z) (vlen : Z)
  : option (garry_engine_handle * replay_bufs * bool) :=
  new_is_overflow ← garry_read_int32 rec WAL_REC_NEW_OVERFLOW_FLAG_OFF;
  if decide (new_is_overflow <> 0) then
    overflow_head ← garry_read_int32 rec WAL_REC_NEW_OVERFLOW_HEAD_OFF;
    '(pool, val, ok) ← garry_overflow_read (e_pool eng) overflow_head vlen (b_val b);
    Some (set_pool eng pool, set_b_val b val, ok)
  else if decide (WAL_REC_NEW_OFF + vlen > GARRY_WAL_RECORD_SIZE) then Some (eng, b, false)
  else
    val ← memcpy (b_val b) 0 rec WAL_REC_NEW_OFF vlen;
    Some (eng, set_b_val b val, true).

(** The key is new: its chain page, its entry in the tree (the result of the
    insertion is ignored) and its value; [false] ends the recovery with an error. *)
Definition replay_create (oc : outcomes) (eng : garry_engine_handle) (b : replay_bufs) (txid klen vlen : Z)
  : option (garry_engine_handle * bool) :=
  '(eng, cid) ← garry_chain_allocate eng;
  if decide (cid < 0) then Some (eng, false) else
  '(desc, desc_len) ← garry_encode_descriptor cid false (zeros GARRY_DESC_BUF_SIZE);
  '(pool, root, _) ← garry_btree_insert (oc_split oc) (oc_fuel oc) (e_pool eng) (e_btree_root eng)
                       (b_key b) klen desc desc_len;
  let eng := set_root (set_pool eng pool) root in
  if decide (e_compression eng = GARRY_COMPRESS_LZ4) then
    '(c, compressed_len) ← lz4_compress (b_val b) vlen (oc_buf oc) (oc_table oc);
    match c with
    | None => Some (eng, false)
    | Some compressed => garry_mvcc_recovery_apply eng cid txid (Some compressed) compressed_len
    end
  else garry_mvcc_recovery_apply eng cid txid (Some (b_val b)) vlen.

Definition replay_update (oc : outcomes) (eng : garry_engine_handle) (b : replay_bufs) (rec : list Z) (txid klen : Z)
  : option (garry_engine_handle * replay_bufs * bool) :=
  vlen ← garry_read_int32 rec WAL_REC_VLEN_OFF;
  if decide (vlen < 0 \/ vlen > GARRY_MAX_RECORD_SIZE) then Some (eng, b, true) else
  '(eng, b, ok) ← replay_value eng b rec vlen;
  if negb ok then Some (eng, b, true) else
  '(eng, b, r) ← replay_lookup oc eng b klen;
  match r with
  | Some chain_id =>
      next ← ck (chain_id + 1);
      Some (if decide (next > p_next_page (e_pool eng))
            then set_pool eng (set_next_page (e_pool eng) next) else eng, b, true)
  | None => '(eng, ok) ← replay_create oc eng b txid klen vlen; Some (eng, b, ok)
  end.

(** One round of the second pass, after the read; [false] is [return GARRY_FALSE]. *)
Definition replay_record (oc : outcomes) (committed : list Z) (eng : garry_engine_handle) (b : replay_bufs) (rec : list Z)
  : option (garry_engine_handle * replay_bufs * bool) :=
  kind ← garry_read_int32 rec WAL_REC_KIND_OFF;
  txid ← garry_read_int32 rec WAL_REC_TXID_OFF;
  if decide (kind <> wal_kind_ord GARRY_WAL_UPDATE /\ kind <> wal_kind_ord GARRY_WAL_DELETE) then Some (eng, b, true) else
  if decide (txid ∉ committed) then Some (eng, b, true) else
  klen ← garry_read_int32 rec WAL_REC_KLEN_OFF;
  if decide (klen < 0 \/ klen > GARRY_MAX_RECORD_SIZE) then Some (eng, b, true) else
  if decide (WAL_REC_KEY_OFF + klen > GARRY_WAL_RECORD_SIZE) then Some (eng, b, true) else
  key ← memcpy (b_key b) 0 rec WAL_REC_KEY_OFF klen;
  let b := set_b_key b key in
  if decide (kind = wal_kind_ord GARRY_WAL_DELETE) then
    '(eng, b) ← replay_delete oc eng b txid klen; Some (eng, b, true)
  else replay_update oc eng b rec txid klen.

(** The loop, [fuel] rounds; [ocs i] are the outcomes of the round with [i] rounds
    of fuel left. *)
Fixpoint replay_loop (ocs : nat -> outcomes) (fuel : nat) (committed : list Z) (eng : garry_engine_handle)
    (b : replay_bufs) (rec : list Z) : option (garry_engine_handle * bool) :=
  '(fd, rec, bytes_read) ← garry_file_read (wl_fd (e_wal eng)) rec GARRY_WAL_RECORD_SIZE;
  let eng := set_wal eng (WalLog fd (wl_last_lsn (e_wal eng))) in
  if decide (bytes_read < GARRY_WAL_RECORD_SIZE) then Some (eng, true) else
  match fuel with
  | O => None
  | S fuel =>
      '(eng, b, ok) ← replay_record (ocs fuel) committed eng b rec;
      if ok : bool then replay_loop ocs fuel committed eng b rec else Some (eng, false)
  end.

(** The memory for the committed transactions, and the outcomes of the rounds. *)
Record recovery_outcomes := RecoveryOutcomes { rc_commits : Z -> bool; rc_round :> nat -> outcomes }.

Definition garry_wal_recover (ocs : recovery_outcomes) (eng : garry_engine_handle) : option (garry_engine_handle * bool) :=
  if f_open (wl_fd (e_wal eng)) then
    '(wal, committed, next) ← collect_committed (rc_commits ocs) (e_wal eng) (e_next_txid eng);
    let eng := set_next_txid (set_wal eng wal) next in
    match committed with None => Some (eng, false) | Some committed =>
    let '(fd, _) := garry_file_seek_set (wl_fd wal) 0 in
    let eng := set_wal eng (WalLog fd (wl_last_lsn wal)) in
    replay_loop ocs (Z.to_nat (zlen (f_bytes fd) / GARRY_WAL_RECORD_SIZE)) committed eng replay_locals
      (zeros GARRY_WAL_RECORD_SIZE)
    end
  else Some (eng, false).

(** * What the log asks for *)

(** The part of a record that recovery acts on. *)
Inductive log_op :=
  | Put (txid : Z) (k v : list Z)
  | Del (txid : Z) (k : list Z)
  | Skip.

(** [logged ps r op]: the record [r] asks for [op]; values are in the record, not in
    overflow pages. *)
Inductive logged (ps : Z) (r : garry_wal_record) : log_op -> Prop :=
  | logged_put txid k v : update_record r txid k v -> zlen v <= 256 -> key_arg ps k (zlen k) k -> logged ps r (Put txid k v)
  | logged_del txid k : delete_record r txid k -> key_arg ps k (zlen k) k -> logged ps r (Del txid k)
  | logged_skip : wr_kind r <> GARRY_WAL_UPDATE -> wr_kind r <> GARRY_WAL_DELETE -> logged ps r Skip.

(** [replayed ps committed op C C']: what recovery makes of [op]. *)
Inductive replayed (ps : Z) (committed : list Z) : log_op -> chains -> chains -> Prop :=
  | rp_skip C : replayed ps committed Skip C C
  | rp_put_foreign t k v C : (t ∉ committed) -> replayed ps committed (Put t k v) C C
  | rp_put_old t k v c C : C !! k = Some c -> replayed ps committed (Put t k v) C C
  | rp_put_new t k v q C : t ∈ committed -> C !! k = None ->
      replayed ps committed (Put t k v) C (<[k := (q, [Cell t (Some v) []])]> C)
  | rp_del_foreign t k C : (t ∉ committed) -> replayed ps committed (Del t k) C C
  | rp_del_none t k C : C !! k = None -> replayed ps committed (Del t k) C C
  | rp_del t k c C : t ∈ committed -> C !! k = Some c -> chain_fits ps c.2 14 ->
      replayed ps committed (Del t k) C (<[k := (c.1, c.2 ++ [Cell t None []])]> C)
  | rp_del_full t k c C : C !! k = Some c -> ~ chain_fits ps c.2 14 -> replayed ps committed (Del t k) C C.

Inductive replayed_all (ps : Z) (committed : list Z) : list log_op -> chains -> chains -> Prop :=
  | rpa_nil C : replayed_all ps committed [] C C
  | rpa_cons op ops C1 C2 C3 : replayed ps committed op C1 C2 -> replayed_all ps committed ops C2 C3 ->
      replayed_all ps committed (op :: ops) C1 C3.

(** * One record *)

Definition bufs_ok (b : replay_bufs) : Prop :=
  zlen (b_key b) = GARRY_MAX_RECORD_SIZE /\ zlen (b_val b) = GARRY_MAX_RECORD_SIZE /\
  zlen (b_lookup b) = GARRY_MAX_RECORD_SIZE.

(** The fields of the engine that the replay leaves alone. *)
Record same_setup (e e' : garry_engine_handle) : Prop := {
  ss_page_size : e_page_size e' = e_page_size e;
  ss_compression : e_compression e' = e_compression e;
  ss_next_txid : e_next_txid e' = e_next_txid e;
  ss_max_txns : e_max_txns e' = e_max_txns e;
  ss_wal : e_wal e' = e_wal e;
  ss_capacity : p_capacity (e_pool e') = p_capacity (e_pool e)
}.
#[export] Instance same_setup_preorder : PreOrder same_setup.
Proof. split; [by split|]. intros x y z [] []. split; congruence. Qed.

Lemma slice_head {A} (b : list A) off n s m t :
  slice b off n = Some s -> slice s 0 m = Some t -> slice b off m = Some t.
Proof.
  intros Hs Ht. pose proof (slice_is_Some _ _ _ _ Hs) as (_ & _ & _ & Hz).
  pose proof (slice_is_Some _ _ _ _ Ht) as (_ & ? & ? & _).
  rewrite (slice_prefix b off n m s Hs) by lia. rewrite (slice_prefix s 0 (zlen s) m s) in Ht; [done|by apply slice_all|lia].
Qed.

Lemma memcpy_front {A} (dst src : list A) off n s :
  slice src off n = Some s -> n <= zlen dst ->
  exists out, memcpy dst 0 src off n = Some out /\ zlen out = zlen dst /\ slice out 0 n = Some s.
Proof.
  intros Hs Hn. pose proof (slice_is_Some _ _ _ _ Hs) as (_ & _ & _ & Hz). unfold memcpy. rewrite Hs. cbn [mbind option_bind].
  destruct (blit_ok dst 0 s) as (out & E & Hl); [lia|lia|]. exists out. split; [exact E|]. split; [exact Hl|].
  rewrite <- Hz. exact (slice_blit _ _ _ _ E).
Qed.

Lemma replay_lookup_spec h eng C m fp oc n b klen k :
  stored h eng [] C m fp -> ready (n + 2 * (Z.of_nat h + 1)) [] [] (e_pool eng) -> 0 <= n ->
  0 < p_capacity (e_pool eng) -> key_arg (e_page_size eng) (b_key b) klen k -> bufs_ok b -> (h < oc_fuel oc)%nat ->
  exists p' l, replay_lookup oc eng b klen = Some (set_pool eng p', set_b_lookup b l, fst <$> C !! k) /\
    bufs_ok (set_b_lookup b l) /\ ready n [] [] p' /\ keeps (e_pool eng) p'.
Proof.
  intros Hs Hr Hn Hc [K1 K2 K3 K4 K5] (B1 & B2 & B3) Hf. pose proof (sd_tree _ _ _ _ _ _ Hs) as [T1 T2 T3 T4].
  destruct (search_spec _ h (e_pool eng) (e_btree_root eng) m fp (oc_fuel oc) n [] (b_key b) klen k (b_lookup b)
    T1 T3 Hr Hn Hc eq_refl K1 K4) as (p' & r & E & Hr' & Hk & _ & Hm);
    [rewrite B3; vm_compute; discriminate|exact Hf|].
  unfold replay_lookup. rewrite E. cbn [mbind option_bind].
  rewrite (sd_entries _ _ _ _ _ _ Hs), lookup_fmap in Hm.
  destruct (C !! k) as [c|] eqn:Ec; cbn [fmap option_fmap option_map] in Hm |- *.
  - destruct Hm as (res & -> & Hsl & Hz). destruct (slice_inv _ _ _ _ Hsl) as (p & q & -> & Hp & _).
    destruct p; [|rewrite zlen_cons in Hp; pose proof (zlen_nonneg p); lia]. cbn [app] in *. unfold descriptor_of.
    pose proof (chain_id_ok _ _ _ _ _ _ _ _ Hs Ec) as [Hi _].
    rewrite (decode_descriptor_enc c.1 false q _ Hi) by lia. cbn [mbind option_bind].
    do 2 eexists. split; [reflexivity|]. split; [split; [exact B1|split; [exact B2|by rewrite <- B3]]|by split].
  - rewrite Hm. exists p', (b_lookup b). split; [by destruct b|]. split; [by split|by split].
Qed.

(** A search changes nothing of the store. *)
Lemma stored_looked h eng ts C m fp p' :
  stored h eng ts C m fp -> keeps (e_pool eng) p' -> stored h (set_pool eng p') ts C m fp.
Proof. intros Hs Hk. apply (stored_table h eng _ ts); try done. by apply (txns_rep_fields eng); [apply Hs|..]. Qed.

(** A creation is the one of a set, followed by the write of the value. *)
Lemma replay_create_eq oc eng b txid klen vlen eng' cid :
  create_key oc eng (b_key b) klen = Some (eng', Some (cid, true)) ->
  replay_create oc eng b txid klen vlen = store_value oc eng' txid cid (Some (b_val b)) vlen.
Proof.
  unfold create_key, replay_create. destruct (garry_chain_allocate eng) as [[e1 c]|]; [|discriminate]. cbn [mbind option_bind].
  destruct (decide (c < 0)); [discriminate|].
  destruct (garry_encode_descriptor c false (zeros GARRY_DESC_BUF_SIZE)) as [[desc dl]|]; [|discriminate]. cbn [mbind option_bind].
  destruct (garry_btree_insert _ _ _ _ _ _ _ _) as [[[p root] ok]|]; [|discriminate]. cbn [mbind option_bind].
  destruct ok.
  - intros [= <- <-]. reflexivity.
  - destruct (garry_pool_free_page _ _); discriminate.
Qed.

(** The accesses of a round. *)
Definition round_cost (h : nat) : Z := 2 * (Z.of_nat h + 1) + create_cost h + 2.

(** Resources of a round besides the accesses: page ids and memory. *)
Record can_replay (oc : outcomes) (h : nat) (eng : garry_engine_handle) : Prop := {
  cr_capacity : 3 <= p_capacity (e_pool eng);
  cr_ids : p_next_page (e_pool eng) + Z.of_nat h + 3 <= id_limit;
  cr_page_size : 512 <= e_page_size eng <= GARRY_MAX_PAGE_SIZE;
  cr_inline : garry_chain_inline_capacity (e_page_size eng) <= 16370;
  cr_plain : e_compression eng <> GARRY_COMPRESS_LZ4;
  cr_memory : forall q, oc_split oc q = true;
  cr_fuel : (h < oc_fuel oc)%nat
}.

(** What a round leaves. *)
Record round_done (h : nat) (n : Z) (eng : garry_engine_handle) (committed : list Z) (op : log_op) (C : chains)
    (eng' : garry_engine_handle) (b' : replay_bufs) (h' : nat) (C' : chains) : Prop := {
  rd_height : h' = h \/ h' = S h;
  rd_store : store h' eng' [] C';
  rd_op : replayed (e_page_size eng) committed op C C';
  rd_bufs : bufs_ok b';
  rd_ready : ready n [] [] (e_pool eng');
  rd_setup : same_setup eng eng';
  rd_next : p_next_page (e_pool eng') <= p_next_page (e_pool eng) + Z.of_nat h + 3
}.

Lemma create_cost_pos h : 0 <= create_cost h.
Proof. unfold create_cost, insert_cost, level_cost. lia. Qed.

Lemma same_txns_setup e e' : same_but_txns e e' -> p_capacity (e_pool e') = p_capacity (e_pool e) -> same_setup e e'.
Proof. intros He Hc. split; [by rewrite He..|exact Hc]. Qed.

Lemma looked_setup e p' : keeps (e_pool e) p' -> same_setup e (set_pool e p').
Proof. intros []. by split. Qed.

(** No change but of the buffers. *)
Lemma round_idle h n eng committed op C b p' :
  store h (set_pool eng p') [] C -> replayed (e_page_size eng) committed op C C -> bufs_ok b ->
  ready n [] [] p' -> keeps (e_pool eng) p' -> round_done h n eng committed op C (set_pool eng p') b h C.
Proof.
  intros Hs Hop Hb Hr Hk. split; [by left|exact Hs|exact Hop|exact Hb|exact Hr|by apply looked_setup|].
  cbn. rewrite (kp_next _ _ Hk). lia.
Qed.

Lemma replay_delete_spec oc h n eng C b txid klen k committed :
  store h eng [] C -> can_replay oc h eng -> ready (n + round_cost h) [] [] (e_pool eng) -> 0 <= n -> bufs_ok b -> key_arg (e_page_size eng) (b_key b) klen k ->
  is_i32 txid -> txid ∈ committed ->
  exists eng' b' C', replay_delete oc eng b txid klen = Some (eng', b') /\
    round_done h n eng committed (Del txid k) C eng' b' h C'.
Proof.
  intros (m & fp & Hs) Hcr R1 R2 Hb Hk Htx Hin. pose proof Hcr as [R3 R4 R5 R6 R7 R8 R9]. pose proof (create_cost_pos h) as Hcp.
  unfold round_cost in R1. unfold replay_delete.
  destruct (replay_lookup_spec h eng C m fp oc (n + 2) b klen k Hs) as (p' & l & -> & Hb' & Hr' & Hkp);
    [eapply ready_le; [exact R1|lia]|lia|lia|exact Hk|exact Hb|exact R9|]. cbn [mbind option_bind].
  pose proof (stored_looked _ _ _ _ _ _ p' Hs Hkp) as Hs1.
  destruct (C !! k) as [c|] eqn:Ec; cbn [fmap option_fmap option_map].
  - destruct (chain_delete_spec h n [] (set_pool eng p') [] C m fp txid k c Hs1 Ec) as
      (eng' & ok & -> & Hok & Hs2 & Hr2 & Hc2 & He2 & Hx2 & _);
      [exact Hr'|lia|cbn; rewrite (kp_capacity _ _ Hkp); change (zlen (@nil Z)) with 0; lia|exact Htx|].
    cbn [mbind option_bind]. eexists eng', _, (<[k := (c.1, if ok then c.2 ++ [Cell txid None []] else c.2)]> C).
    split; [reflexivity|]. split.
    + by left.
    + exists m, fp. destruct ok; exact Hs2.
    + cbn [e_page_size set_pool] in Hok. subst ok. case_bool_decide as Hfit; [by apply rp_del|].
      rewrite insert_id by (rewrite Ec; by destruct c). by eapply rp_del_full.
    + exact Hb'.
    + exact Hr2.
    + transitivity (set_pool eng p'); [by apply looked_setup|by apply same_txns_setup].
    + rewrite Hx2. cbn. rewrite (kp_next _ _ Hkp). lia.
  - eexists _, _, C. split; [reflexivity|]. apply round_idle; try done.
    + by exists m, fp.
    + by apply rp_del_none.
    + eapply ready_le; [exact Hr'|lia].
Qed.

(** The value of a record that holds it. *)
Lemma replay_value_spec eng b r txid k v :
  update_record r txid k v -> zlen v <= 256 -> record_ok r -> bufs_ok b ->
  exists val, replay_value eng b (encode_record r) (zlen v) = Some (eng, set_b_val b val, true) /\
    slice val 0 (zlen v) = Some v /\ bufs_ok (set_b_val b val).
Proof.
  intros [U1 U2 U3 U4 U5 U6] Hv Hok (B1 & B2 & B3). destruct (U5 Hv) as [Hovf Hdata].
  destruct (wal_record_roundtrip r Hok) as (buf & E & _ & _ & _ & _ & _ & _ & Hnew & Hflag & _).
  rewrite (record_buf_eq r Hok) in E. injection E as <-. unfold replay_value. rewrite Hflag, Hovf. cbn [mbind option_bind].
  rewrite decide_False by (intros H; by apply H). rewrite decide_False by (unfold WAL_REC_NEW_OFF, GARRY_WAL_RECORD_SIZE; lia).
  destruct (memcpy_front (b_val b) _ _ _ _ (slice_head _ _ _ _ _ _ Hnew Hdata)) as (val & -> & Hz & Hs);
    [rewrite B2; unfold GARRY_MAX_RECORD_SIZE; lia|]. cbn [mbind option_bind].
  exists val. split; [reflexivity|]. split; [exact Hs|]. split; [exact B1|]. split; [by rewrite <- B2|exact B3].
Qed.

(** A small value fits a new chain page. *)
Lemma new_cell_fits ps txid v : 512 <= ps -> zlen v <= 256 -> chain_fits ps [] (cell_size (Cell txid (Some v) [])).
Proof.
  intros Hp Hv. split; [vm_compute; reflexivity|]. unfold cell_size, GARRY_PAGE_HEADER_SIZE, GARRY_SLOT_SIZE.
  cbn [c_value c_pages map foldr]. change (zlen (@nil cell)) with 0. lia.
Qed.

Lemma small_inline ps len : 512 <= ps -> len <= 256 -> set_pages ps len = 0.
Proof.
  intros Hp Hl. unfold set_pages. rewrite decide_False; [done|].
  unfold garry_chain_inline_capacity, GARRY_PAGE_HEADER_SIZE, GARRY_OVERFLOW_PTR_SIZE, GARRY_CHAIN_ENTRY_HEADER_SIZE. lia.
Qed.

(** The creation of a key, and the write of its first value. *)
Lemma replay_create_spec oc h n eng C m fp b txid klen k v :
  stored h eng [] C m fp -> C !! k = None -> ready (n + create_cost h + 2) [] [] (e_pool eng) -> 0 <= n -> can_replay oc h eng ->
  key_arg (e_page_size eng) (b_key b) klen k -> slice (b_val b) 0 (zlen v) = Some v -> zlen v <= 256 -> is_i32 txid ->
  exists eng' h' q, replay_create oc eng b txid klen (zlen v) = Some (eng', true) /\ (h' = h \/ h' = S h) /\
    store h' eng' [] (<[k := (q, [Cell txid (Some v) []])]> C) /\ ready n [] [] (e_pool eng') /\ same_setup eng eng' /\
    p_next_page (e_pool eng') <= p_next_page (e_pool eng) + Z.of_nat h + 3.
Proof.
  intros Hs Hnone Hr Hn [Hcap Hids [Hps1 Hps2] Hinl Hplain Hmem Hf] Hk Hv Hvl Htx.
  pose proof (sd_page_size _ _ _ _ _ _ Hs) as Heq. pose proof (zlen_nonneg v) as Hv0.
  assert (Hpok : page_size_ok (p_page_size (e_pool eng)))
    by (rewrite <- Heq; unfold page_size_ok, GARRY_PAGE_HEADER_SIZE, GARRY_SLOT_SIZE; lia).
  destruct (create_spec h eng [] C m fp oc (n + 2) [] (b_key b) klen k Hs Hnone) as
    (h1 & e1 & fp1 & Hh1 & E1 & Hs1 & He1 & Hr1 & _ & Hw1 & Hx1); try done;
    [eapply ready_le; [exact Hr|pose proof (create_cost_pos h); lia]|lia|change (zlen (@nil Z)) with 0; lia|by rewrite <- Heq|].
  rewrite (replay_create_eq _ _ _ _ _ _ _ _ E1). set (cid := p_next_page (e_pool eng)) in *.
  assert (Hsz : e_page_size e1 = e_page_size eng) by (by rewrite He1).
  assert (Hcomp : e_compression e1 = e_compression eng) by (by rewrite He1).
  pose proof (small_inline _ (zlen v) Hps1 Hvl) as Hsp.
  destruct (store_value_spec h1 e1 [] _ _ fp1 oc n [] txid k (cid, []) (b_val b) (zlen v) (b_val b) (zlen v) v Hs1 (lookup_insert_eq _ _ _))
    as (e2 & ok & pages & E2 & Hok & Hpl & Hs2 & Hr2 & Hcap2 & He2 & _ & Hx2).
  - split; [intros Hd; rewrite Hcomp in Hd; done|by split|exact Hv|lia].
  - rewrite Hsz, Hsp. eapply ready_le; [exact Hr1|lia].
  - exact Hn.
  - rewrite (ws_capacity _ _ _ Hw1). change (zlen (@nil Z)) with 0. lia.
  - exact Htx.
  - rewrite Hsz. unfold garry_chain_inline_capacity, GARRY_PAGE_HEADER_SIZE, GARRY_OVERFLOW_PTR_SIZE, GARRY_CHAIN_ENTRY_HEADER_SIZE in *. lia.
  - rewrite Hsz, Hsp. lia.
  - rewrite Hsz, Hsp in Hpl. destruct pages as [|q pages]; [|rewrite zlen_cons in Hpl; pose proof (zlen_nonneg pages); lia].
    cbn [fst snd] in *. rewrite bool_decide_true in Hok by (rewrite Hsz; by apply new_cell_fits). subst ok.
    rewrite insert_insert_eq in Hs2. exists e2, h1, cid. split; [exact E2|]. split; [exact Hh1|].
    split; [by eexists _, _|]. split; [exact Hr2|]. split.
    + transitivity e1; [|by apply same_txns_setup]. split; [done|done|by rewrite He1..|exact (ws_capacity _ _ _ Hw1)].
    + rewrite Hsz, Hsp in Hx2. lia.
Qed.

(** The fields of a logged record, as recovery reads them. *)
Record record_read (r : garry_wal_record) : Prop := {
  rr_kind : garry_read_int32 (encode_record r) WAL_REC_KIND_OFF = Some (wal_kind_ord (wr_kind r));
  rr_txid : garry_read_int32 (encode_record r) WAL_REC_TXID_OFF = Some (wr_txid r);
  rr_klen : garry_read_int32 (encode_record r) WAL_REC_KLEN_OFF = Some (wr_key_len r);
  rr_vlen : garry_read_int32 (encode_record r) WAL_REC_VLEN_OFF = Some (wr_value_len r);
  rr_key : slice (encode_record r) WAL_REC_KEY_OFF WalLog.GARRY_MAX_KEY_SIZE = Some (wr_key r)
}.

Lemma record_reads r : record_ok r -> record_read r.
Proof.
  intros Hok. destruct (wal_record_roundtrip r Hok) as (buf & E & _ & H1 & H2 & H3 & H4 & H5 & _).
  rewrite (record_buf_eq r Hok) in E. injection E as <-. by split.
Qed.

(** The key of a record, copied into the buffer. *)
Lemma replay_key ps b r k :
  record_ok r -> bufs_ok b -> wr_key_len r = zlen k /\ slice (wr_key r) 0 (zlen k) = Some k -> key_arg ps k (zlen k) k ->
  exists key, memcpy (b_key b) 0 (encode_record r) WAL_REC_KEY_OFF (zlen k) = Some key /\
    key_arg ps key (zlen k) k /\ bufs_ok (set_b_key b key).
Proof.
  intros Hok (B1 & B2 & B3) [Hl Hs] [K1 K2 K3 K4 K5].
  destruct (memcpy_front (b_key b) _ _ _ _ (slice_head _ _ _ _ _ _ (rr_key _ (record_reads r Hok)) Hs)) as (key & E & Hz & Hk);
    [rewrite B1; unfold GARRY_MAX_RECORD_SIZE; lia|].
  exists key. split; [exact E|]. split; [by split|]. split; [by rewrite <- B1|by split].
Qed.

Lemma replay_update_spec oc h n eng C b r txid klen k v committed :
  store h eng [] C -> can_replay oc h eng -> ready (n + round_cost h) [] [] (e_pool eng) -> 0 <= n -> bufs_ok b -> key_arg (e_page_size eng) (b_key b) klen k ->
  update_record r txid k v -> zlen v <= 256 -> record_ok r -> txid ∈ committed ->
  exists eng' b' h' C', replay_update oc eng b (encode_record r) txid klen = Some (eng', b', true) /\
    round_done h n eng committed (Put txid k v) C eng' b' h' C'.
Proof.
  intros (m & fp & Hs) Hcr R1 R2 Hb Hk Hu Hvl Hok Hin. pose proof (zlen_nonneg v) as Hv0.
  unfold replay_update. rewrite (rr_vlen _ (record_reads r Hok)). cbn [mbind option_bind].
  rewrite (ur_vlen _ _ _ _ Hu), decide_False by (unfold GARRY_MAX_RECORD_SIZE; lia).
  destruct (replay_value_spec eng b r txid k v Hu Hvl Hok Hb) as (val & -> & Hval & Hb1). cbn [mbind option_bind negb].
  pose proof Hcr as [R3 R4 R5 R6 R7 R8 R9]. pose proof (create_cost_pos h) as Hcp. unfold round_cost in R1.
  destruct (replay_lookup_spec h eng C m fp oc (n + create_cost h + 2) (set_b_val b val) klen k Hs) as (p' & l & -> & Hb2 & Hr' & Hkp);
    [eapply ready_le; [exact R1|lia]|lia|lia|exact Hk|exact Hb1|exact R9|]. cbn [mbind option_bind].
  pose proof (stored_looked _ _ _ _ _ _ p' Hs Hkp) as Hs1.
  destruct (C !! k) as [c|] eqn:Ec; cbn [fmap option_fmap option_map].
  - pose proof (ch_range _ _ _ (sd_chain _ _ _ _ _ _ Hs1 k c Ec)) as Hc. cbn [e_pool set_pool] in Hc.
    rewrite (kp_next _ _ Hkp) in Hc. pose proof (sd_ids _ _ _ _ _ _ Hs) as Hid.
    unfold ck. rewrite decide_True by (unfold is_i32, id_limit, GARRY_PAGE_ID_BIAS in *; lia). cbn [mbind option_bind].
    cbn [e_pool set_pool]. rewrite (kp_next _ _ Hkp), decide_False by lia.
    eexists _, _, h, C. split; [reflexivity|]. apply round_idle; try done.
    + by exists m, fp.
    + by eapply rp_put_old.
    + eapply ready_le; [exact Hr'|lia].
  - destruct (replay_create_spec oc h n (set_pool eng p') C m fp (set_b_lookup (set_b_val b val) l) txid klen k v Hs1 Ec Hr' R2)
      as (eng' & h' & q & -> & Hh & Hs2 & Hr2 & Hss & Hx); [|exact Hk|exact Hval|exact Hvl|..].
    + split; cbn [e_pool set_pool]; rewrite ?(kp_next _ _ Hkp), ?(kp_capacity _ _ Hkp); done.
    + pose proof (ro_txid _ Hok) as Ht. by rewrite (ur_txid _ _ _ _ Hu) in Ht.
    + cbn [mbind option_bind]. eexists eng', _, h', _. split; [reflexivity|]. split.
      * exact Hh.
      * exact Hs2.
      * by apply rp_put_new.
      * exact Hb2.
      * exact Hr2.
      * transitivity (set_pool eng p'); [by apply looked_setup|exact Hss].
      * cbn [e_pool set_pool] in Hx. by rewrite (kp_next _ _ Hkp) in Hx.
Qed.

Lemma replay_record_spec oc h n eng C b r op committed :
  store h eng [] C -> can_replay oc h eng -> ready (n + round_cost h) [] [] (e_pool eng) -> 0 <= n -> bufs_ok b -> logged (e_page_size eng) r op -> record_ok r ->
  exists eng' b' h' C', replay_record oc committed eng b (encode_record r) = Some (eng', b', true) /\
    round_done h n eng committed op C eng' b' h' C'.
Proof.
  intros Hs Hcr R1 R2 Hb Hl Hok. pose proof (record_reads r Hok) as [E1 E2 E3 E4 E5]. pose proof (create_cost_pos h) as Hcp.
  assert (Hidle : forall b1, bufs_ok b1 -> replayed (e_page_size eng) committed op C C ->
    exists eng' b' h' C', Some (eng, b1, true) = Some (eng', b', true) /\ round_done h n eng committed op C eng' b' h' C').
  { intros b1 Hb1 Hop. exists eng, b1, h, C. split; [done|].
    assert (Hid : set_pool eng (e_pool eng) = eng) by (by destruct eng).
    unfold round_cost in R1. pose proof (round_idle h n eng committed op C b1 (e_pool eng)) as Hd. rewrite Hid in Hd.
    apply Hd; [done|done|done|eapply ready_le; [exact R1|lia]|reflexivity]. }
  unfold replay_record. rewrite E1, E2. cbn [mbind option_bind]. destruct Hl as [txid k v Hu Hv Hk|txid k Hd Hk|Hn1 Hn2].
  - pose proof Hu as [U1 U2 U3 U4 _ _]. rewrite U1. rewrite decide_False by (intros [H _]; by apply H).
    destruct (decide (wr_txid r ∉ committed)) as [Hni|Hin]; [apply Hidle; [done|apply rp_put_foreign; by rewrite <- U2]|].
    apply dec_stable in Hin. rewrite E3. cbn [mbind option_bind]. rewrite (proj1 U3). pose proof (ka_some _ _ _ _ Hk). pose proof (ka_short _ _ _ _ Hk).
    rewrite decide_False by (unfold GARRY_MAX_RECORD_SIZE; lia). rewrite decide_False by (unfold WAL_REC_KEY_OFF, GARRY_WAL_RECORD_SIZE; lia).
    destruct (replay_key _ b r k Hok Hb U3 Hk) as (key & -> & Hk2 & Hb2). cbn [mbind option_bind].
    rewrite decide_False by done. rewrite U2 in Hin |- *. by apply replay_update_spec.
  - pose proof Hd as [U1 U2 U3]. rewrite U1. rewrite decide_False by (intros [_ H]; by apply H).
    destruct (decide (wr_txid r ∉ committed)) as [Hni|Hin]; [apply Hidle; [done|apply rp_del_foreign; by rewrite <- U2]|].
    apply dec_stable in Hin. rewrite E3. cbn [mbind option_bind]. rewrite (proj1 U3). pose proof (ka_some _ _ _ _ Hk). pose proof (ka_short _ _ _ _ Hk).
    rewrite decide_False by (unfold GARRY_MAX_RECORD_SIZE; lia). rewrite decide_False by (unfold WAL_REC_KEY_OFF, GARRY_WAL_RECORD_SIZE; lia).
    destruct (replay_key _ b r k Hok Hb U3 Hk) as (key & -> & Hk2 & Hb2). cbn [mbind option_bind].
    rewrite decide_True by done. rewrite U2 in Hin |- *.
    destruct (replay_delete_spec oc h n eng C (set_b_key b key) txid (zlen k) k committed Hs Hcr R1 R2 Hb2 Hk2) as (eng' & b' & C' & -> & Hd');
      [rewrite <- U2; apply (ro_txid _ Hok)|done|]. cbn [mbind option_bind]. by exists eng', b', h, C'.
  - rewrite decide_True; [apply Hidle; [done|constructor]|]. split; intros H; [apply Hn1|apply Hn2]; by destruct (wr_kind r).
Qed.

(** * The second pass *)

Lemma round_cost_mono h1 h2 : (h1 <= h2)%nat -> 0 <= round_cost h1 <= round_cost h2.
Proof. intros H. unfold round_cost, create_cost, insert_cost, level_cost. lia. Qed.

(** Resources of [N] rounds that start with a tree of height [h]: each may add a
    level. *)
Record can_recover (ocs : recovery_outcomes) (h : nat) (n : Z) (N : nat) (eng : garry_engine_handle) : Prop := {
  cv_ready : ready (n + Z.of_nat N * round_cost (h + N)) [] [] (e_pool eng);
  cv_budget : 0 <= n;
  cv_capacity : 3 <= p_capacity (e_pool eng);
  cv_ids : p_next_page (e_pool eng) + Z.of_nat N * (Z.of_nat h + Z.of_nat N + 3) <= id_limit;
  cv_page_size : 512 <= e_page_size eng <= GARRY_MAX_PAGE_SIZE;
  cv_inline : garry_chain_inline_capacity (e_page_size eng) <= 16370;
  cv_plain : e_compression eng <> GARRY_COMPRESS_LZ4;
  cv_memory : forall i q, oc_split (ocs i) q = true;
  cv_fuel : forall i, (h + N < oc_fuel (ocs i))%nat;
  cv_commits : forall c, rc_commits ocs c = true
}.

(** A log with more records would exhaust the accesses of the pool. *)
Lemma can_recover_short ocs h n rs eng : can_recover ocs h n (length rs) eng -> zlen (rs : list garry_wal_record) < 2 ^ 30.
Proof.
  intros [V1 V2 _ _ _ _ _ _ _ _]. destruct (rdy_counter _ _ _ _ V1) as (_ & H1 & H2).
  assert (4 <= round_cost (h + length rs)) by (unfold round_cost; pose proof (create_cost_pos (h + length rs)); lia).
  unfold zlen in *. nia.
Qed.

(** The rest of the rounds. *)
Lemma can_recover_round ocs h n N eng i :
  can_recover ocs h n (S N) eng ->
  can_replay (ocs i) h eng /\ ready (n + Z.of_nat N * round_cost (h + S N) + round_cost h) [] [] (e_pool eng) /\
  forall eng' h' w, h' = h \/ h' = S h -> ready (n + Z.of_nat N * round_cost (h + S N)) [] [] (e_pool eng') ->
    same_setup (set_wal eng w) eng' -> p_next_page (e_pool eng') <= p_next_page (e_pool eng) + Z.of_nat h + 3 ->
    can_recover ocs h' n N eng'.
Proof.
  intros [V1 V2 V3 V4 V5 V6 V7 V8 V9 V10]. pose proof (round_cost_mono h (h + S N)) as Hm. split; [|split].
  - split; try done; [nia|specialize (V9 i); lia].
  - eapply ready_le; [exact V1|]. specialize (Hm ltac:(lia)). nia.
  - intros eng' h' w Hh Hr [E1 E2 E3 E4 E5 E6] Hx. cbn [e_page_size e_compression e_pool set_wal] in *. pose proof (round_cost_mono (h' + N) (h + S N)) as Hm'.
    split; rewrite ?E1, ?E2, ?E6; try done.
    + eapply ready_le; [exact Hr|]. specialize (Hm' ltac:(lia)). nia.
    + assert (Z.of_nat h' <= Z.of_nat h + 1) by lia. nia.
    + intros j. specialize (V9 j). lia.
Qed.

Lemma store_set_wal h eng ts C w : store h eng ts C -> store h (set_wal eng w) ts C.
Proof.
  intros (m & fp & Hs). exists m, fp. apply (stored_table h eng _ ts); [exact Hs| |reflexivity|done|done].
  by apply (txns_rep_fields eng); [apply Hs|..].
Qed.

(** The state after the pass: the log is at its end. *)
Record recovered (h : nat) (n : Z) (eng : garry_engine_handle) (committed : list Z) (ops : list log_op) (C : chains)
    (eng' : garry_engine_handle) (h' : nat) (C' : chains) : Prop := {
  rv_store : store h' eng' [] C';
  rv_height : (h' <= h + length ops)%nat;
  rv_ops : replayed_all (e_page_size eng) committed ops C C';
  rv_ready : ready n [] [] (e_pool eng');
  rv_setup : same_setup (set_wal eng (WalLog (set_pos (wl_fd (e_wal eng)) (zlen (f_bytes (wl_fd (e_wal eng)))))
                                        (wl_last_lsn (e_wal eng)))) eng'
}.

(** The read that ends a pass. *)
Lemma read_tail fd rec p tail :
  f_open fd = true -> f_bytes fd = p ++ tail -> f_pos fd = zlen p -> zlen rec = 792 -> zlen tail < 792 ->
  exists rec', garry_file_read fd rec GARRY_WAL_RECORD_SIZE = Some (set_pos fd (zlen (f_bytes fd)), rec', zlen tail).
Proof.
  intros Ho Hb Hp Hrec Htl. pose proof (zlen_nonneg p). unfold garry_file_read, os_pread. rewrite Ho, Hp.
  rewrite decide_False by (intros [?|?]; [done|lia]).
  assert (Et : take (Z.to_nat GARRY_WAL_RECORD_SIZE) (drop (Z.to_nat (zlen p)) (f_bytes fd)) = tail).
  { rewrite Hb. unfold zlen. rewrite Nat2Z.id, drop_app_length. apply take_ge. unfold zlen in Htl. unfold GARRY_WAL_RECORD_SIZE. lia. }
  rewrite Et. destruct (blit_ok rec 0 tail) as (rec' & -> & _); [lia..|]. cbn [mbind option_bind].
  exists rec'. by rewrite Hb, zlen_app.
Qed.

Lemma replay_loop_spec ocs n committed rs ops : forall fuel h eng C b rec p tail,
  Forall2 (logged (e_page_size eng)) rs ops -> Forall record_ok rs ->
  f_open (wl_fd (e_wal eng)) = true -> f_bytes (wl_fd (e_wal eng)) = p ++ concat (map encode_record rs) ++ tail ->
  f_pos (wl_fd (e_wal eng)) = zlen p -> zlen rec = 792 -> zlen tail < 792 -> (length rs <= fuel)%nat ->
  store h eng [] C -> bufs_ok b -> can_recover ocs h n (length rs) eng ->
  exists eng' h' C', replay_loop ocs fuel committed eng b rec = Some (eng', true) /\
    recovered h n eng committed ops C eng' h' C'.
Proof.
  induction rs as [|r rs IH] in ops |- *; intros fuel h eng C b rec p tail Hl Hok Ho Hb Hp Hrec Htl Hfuel Hs Hbufs Hcv.
  - apply Forall2_nil_inv_l in Hl as ->. cbn [map concat app] in Hb.
    destruct (read_tail _ rec p tail Ho Hb Hp Hrec Htl) as (rec' & E).
    eexists _, h, C. split.
    + destruct fuel; cbn [replay_loop]; rewrite E; cbn [mbind option_bind]; by rewrite decide_True by done.
    + split; [by apply store_set_wal|lia|constructor| |done]. eapply ready_le; [apply (cv_ready _ _ _ _ _ Hcv)|].
      pose proof (cv_budget _ _ _ _ _ Hcv). cbn [length]. lia.
  - apply Forall2_cons_inv_l in Hl as (op & ops' & Hop & Hl & ->). apply Forall_cons in Hok as [Hr Hok].
    cbn [map concat] in Hb. rewrite <- app_assoc in Hb.
    destruct fuel as [|fuel]; [cbn in Hfuel; lia|]. cbn [replay_loop].
    rewrite (read_record _ rec p r _ Ho Hb Hp Hrec Hr). cbn [mbind option_bind].
    rewrite decide_False by (unfold GARRY_WAL_RECORD_SIZE; lia).
    set (wal1 := WalLog _ _). set (eng1 := set_wal eng wal1).
    destruct (can_recover_round ocs h n (length rs) eng fuel Hcv) as (Hcr & Hrdy & Hnext).
    pose proof (cv_budget _ _ _ _ _ Hcv) as Hn. pose proof (round_cost_mono (h + S (length rs)) (h + S (length rs)) (le_n _)) as Hrc.
    assert (Hcr1 : can_replay (ocs fuel) h eng1) by (destruct Hcr; by split).
    destruct (replay_record_spec (ocs fuel) h (n + Z.of_nat (length rs) * round_cost (h + S (length rs))) eng1 C b r op committed
      (store_set_wal _ _ _ _ _ Hs) Hcr1 Hrdy) as (eng2 & b2 & h2 & C2 & -> & [D1 D2 D3 D4 D5 D6 D7]); [nia|done|exact Hop|done|].
    cbn [mbind option_bind].
    assert (Hw2 : e_wal eng2 = wal1) by (by rewrite (ss_wal _ _ D6)).
    destruct (IH ops' fuel h2 eng2 C2 b2 (encode_record r) (p ++ encode_record r) tail) as (eng3 & h3 & C3 & -> & [F1 F2 F3 F4 F5]);
      rewrite ?Hw2; try done.
    + by rewrite (ss_page_size _ _ D6).
    + by rewrite <- app_assoc.
    + by apply zlen_encode_record.
    + cbn in Hfuel. lia.
    + by apply (Hnext eng2 h2 wal1).
    + exists eng3, h3, C3. split; [done|]. split.
      * exact F1.
      * cbn [length]. destruct D1; lia.
      * econstructor; [exact D3|]. by rewrite (ss_page_size _ _ D6) in F3.
      * exact F4.
      * destruct D6 as [E1 E2 E3 E4 E5 E6], F5 as [G1 G2 G3 G4 G5 G6]. rewrite Hw2 in G5.
        split; [cbn in *; congruence..|rewrite G5; reflexivity|cbn in *; congruence].
Qed.

(** * What the replay leaves under a key *)

Section Replayed.
  Context (ps : Z) (committed : list Z).

(** A key that is present changes only by a deletion. *)
Lemma replayed_kept op C C' k c :
  replayed ps committed op C C' -> C !! k = Some c -> (forall t, op = Del t k -> (t ∉ committed)) -> C' !! k = Some c.
Proof.
  intros Hr Hk Hd. destruct Hr; try done.
  - destruct (decide (k0 = k)) as [->|Hne]; [congruence|by rewrite lookup_insert_ne].
  - destruct (decide (k0 = k)) as [->|Hne]; [by destruct (Hd t)|by rewrite lookup_insert_ne].
Qed.

Lemma replayed_all_kept ops C C' k c :
  replayed_all ps committed ops C C' -> C !! k = Some c -> (forall t, Del t k ∈ ops -> (t ∉ committed)) -> C' !! k = Some c.
Proof.
  intros Hr. induction Hr as [C|op ops C1 C2 C3 H1 Hr IH]; [done|]. intros Hk Hd. apply IH.
  - apply (replayed_kept op C1); [done|done|]. intros t ->. apply Hd. by left.
  - intros t Ht. apply Hd. by right.
Qed.

(** A key that is absent appears only by an update. *)
Lemma replayed_absent op C C' k :
  replayed ps committed op C C' -> C !! k = None -> (forall t v, op = Put t k v -> (t ∉ committed)) -> C' !! k = None.
Proof.
  intros Hr Hk Hd. destruct Hr; try done.
  - destruct (decide (k0 = k)) as [->|Hne]; [by destruct (Hd t v)|by rewrite lookup_insert_ne].
  - destruct (decide (k0 = k)) as [->|Hne]; [congruence|by rewrite lookup_insert_ne].
Qed.

Lemma replayed_all_absent ops C C' k :
  replayed_all ps committed ops C C' -> C !! k = None -> (forall t v, Put t k v ∈ ops -> (t ∉ committed)) -> C' !! k = None.
Proof.
  intros Hr. induction Hr as [C|op ops C1 C2 C3 H1 Hr IH]; [done|]. intros Hk Hd. apply IH.
  - apply (replayed_absent op C1); [done|done|]. intros t v ->. apply (Hd t v). by left.
  - intros t v Ht. apply (Hd t v). by right.
Qed.

Lemma replayed_all_app ops1 ops2 C C' :
  replayed_all ps committed (ops1 ++ ops2) C C' ->
  exists C1, replayed_all ps committed ops1 C C1 /\ replayed_all ps committed ops2 C1 C'.
Proof.
  revert C. induction ops1 as [|op ops1 IH]; intros C Hr; [exists C; split; [constructor|done]|].
  inversion Hr as [|? ? ? C2 ? H1 H2]; subst. destruct (IH C2 H2) as (C1 & Ha & Hb).
  exists C1. split; [by econstructor|done].
Qed.

(** The first committed update of a new key is what it holds, unless it is deleted
    later. *)
Lemma first_update_kept pre post C C' t k v :
  replayed_all ps committed (pre ++ Put t k v :: post) C C' -> C !! k = None -> t ∈ committed ->
  (forall t' v', Put t' k v' ∈ pre -> (t' ∉ committed)) -> (forall t', Del t' k ∈ post -> (t' ∉ committed)) ->
  exists q, C' !! k = Some (q, [Cell t (Some v) []]).
Proof.
  intros Hr Hk Ht Hpre Hpost. apply replayed_all_app in Hr as (C1 & H1 & H2).
  pose proof (replayed_all_absent _ _ _ k H1 Hk Hpre) as Hk1. inversion H2 as [|? ? ? C2 ? Hop H3]; subst.
  inversion Hop; subst; try done; [congruence|]. exists q.
  apply (replayed_all_kept post (<[k:=(q, [Cell t (Some v) []])]> C1)); [done|apply lookup_insert_eq|done].
Qed.

(** A deletion in the log is applied to the chain the key has now. *)
Lemma delete_applied pre post C C' t k c :
  replayed_all ps committed (pre ++ Del t k :: post) C C' -> C !! k = Some c -> t ∈ committed -> chain_fits ps c.2 14 ->
  (forall t', Del t' k ∈ pre ++ post -> (t' ∉ committed)) ->
  C' !! k = Some (c.1, c.2 ++ [Cell t None []]).
Proof.
  intros Hr Hk Ht Hfit Hd. apply replayed_all_app in Hr as (C1 & H1 & H2).
  assert (Hk1 : C1 !! k = Some c) by (apply (replayed_all_kept pre C); [done|done|]; intros t' Hin; apply Hd, elem_of_app; by left).
  inversion H2 as [|? ? ? C2 ? Hop H3]; subst. inversion Hop; subst; try done; try congruence.
  assert (c0 = c) as -> by congruence.
  apply (replayed_all_kept post (<[k:=(c.1, c.2 ++ [Cell t None []])]> C1)); [done|apply lookup_insert_eq|].
  intros t' Hin. apply Hd, elem_of_app. by right.
Qed.
End Replayed.

(** * Recovery *)

Lemma bump_i32 ts : forall next, is_i32 next -> Forall (fun t => is_i32 (t + 1)) ts -> is_i32 (fold_left bump_next ts next).
Proof.
  induction ts as [|t ts IH]; intros next Hn HF; [done|]. apply Forall_cons in HF as [Ht HF]. cbn [fold_left].
  apply IH; [|done]. unfold bump_next. by case_decide.
Qed.

Lemma commits_i32 rs : Forall (fun r => is_i32 (wr_txid r + 1)) rs -> Forall (fun t => is_i32 (t + 1)) (commits rs).
Proof.
  rewrite !Forall_forall. intros H t (r & -> & [_ Hr]%list_elem_of_filter)%list_elem_of_fmap. by apply H.
Qed.

(** No transaction is open: the next id may be raised. *)
Lemma store_set_next h eng C next : store h eng [] C -> is_i32 next -> store h (set_next_txid eng next) [] C.
Proof.
  intros (m & fp & Hs) Hn. exists m, fp. apply (stored_table h eng _ []); [exact Hs| |reflexivity|done|done].
  destruct (sd_txns _ _ _ _ _ _ Hs) as [T1 T2 T3 T4 T5 T6 T7 T8 T9]. split; try done. by constructor; constructor.
Qed.

(** The next transaction id after the first pass. *)
Definition next_after (eng : garry_engine_handle) (rs : list garry_wal_record) : Z :=
  fold_left bump_next (commits rs) (e_next_txid eng).

(** A log of [rs], and what a crash left of a further record. *)
Record log_holds (eng : garry_engine_handle) (rs : list garry_wal_record) (ops : list log_op) : Prop := {
  lh_logged : Forall2 (logged (e_page_size eng)) rs ops;
  lh_ok : Forall record_ok rs;
  lh_txids : Forall (fun r => is_i32 (wr_txid r + 1)) rs;
  lh_open : f_open (wl_fd (e_wal eng)) = true;
  lh_bytes : exists tail, f_bytes (wl_fd (e_wal eng)) = concat (map encode_record rs) ++ tail /\ zlen tail < 792
}.

Lemma wal_recover_spec ocs h n eng C rs ops :
  store h eng [] C -> log_holds eng rs ops -> can_recover ocs h n (length rs) eng ->
  exists eng' h' C', garry_wal_recover ocs eng = Some (eng', true) /\
    recovered h n (set_next_txid eng (next_after eng rs)) (commits rs) ops C eng' h' C'.
Proof.
  intros Hs [Hl Hok Hi Ho (tail & Hb & Htl)] Hcv. unfold garry_wal_recover. rewrite Ho.
  rewrite (collect_spec _ (e_wal eng) rs tail (e_next_txid eng) (cv_commits _ _ _ _ _ Hcv) (can_recover_short _ _ _ _ _ Hcv) Hok Hi Ho Hb Htl). cbn [mbind option_bind wl_fd].
  unfold garry_file_seek_set. cbn [f_open set_pos]. rewrite Ho. rewrite decide_False by (intros [?|?]; [done|lia]).
  cbn [wl_last_lsn]. fold (next_after eng rs). 
  match goal with |- context [replay_loop _ ?f _ ?e _ _] => set (fuel := f); set (eng1 := e) end.
  assert (Hnx : is_i32 (next_after eng rs)).
  { apply bump_i32; [|by apply commits_i32]. destruct Hs as (m & fp & Hs). apply (tr_next _ _ (sd_txns _ _ _ _ _ _ Hs)). }
  destruct (replay_loop_spec ocs n (commits rs) rs ops fuel
    h eng1 C replay_locals (zeros GARRY_WAL_RECORD_SIZE) [] tail) as (eng' & h' & C' & E & [F1 F2 F3 F4 F5]); try done.
  - unfold fuel. cbn [set_pos f_bytes]. rewrite Hb, zlen_app, (zlen_log rs Hok).
    pose proof (zlen_nonneg tail). unfold GARRY_WAL_RECORD_SIZE, zlen in *. Z.div_mod_to_equations. lia.
  - apply store_set_wal. by apply (store_set_next h (set_wal eng _)), Hnx; apply store_set_wal.
  - destruct Hcv. by split.
  - exists eng', h', C'. split; [exact E|]. by split.
Qed.

(** * Properties *)

(** C21: recovery refines the replay of the log, for a log whose updates have values of
    at most 256 bytes (these are in the records) and a database that does not
    compress: on a database of which no transaction
    is open, whatever such records are in the log and whatever part of a further record a
    crash left, recovery returns success; every key's chain is the one the replay of
    the committed records, in their order, gives; the store is well formed; and the
    next transaction id is above every committed one. *)
Theorem wal_recover_refines ocs h n eng C rs ops
  (Hs : store h eng [] C) (Hlog : log_holds eng rs ops) (Hcv : can_recover ocs h n (length rs) eng) :
  exists eng' h' C', garry_wal_recover ocs eng = Some (eng', true) /\ store h' eng' [] C' /\
    replayed_all (e_page_size eng) (commits rs) ops C C' /\ ready n [] [] (e_pool eng') /\
    Forall (fun t => t < e_next_txid eng') (commits rs) /\ e_next_txid eng <= e_next_txid eng'.
Proof.
  destruct (wal_recover_spec ocs h n eng C rs ops Hs Hlog Hcv) as (eng' & h' & C' & E & [F1 F2 F3 F4 F5]).
  exists eng', h', C'. split; [exact E|]. split; [exact F1|]. split; [exact F3|]. split; [exact F4|].
  rewrite (ss_next_txid _ _ F5). cbn [e_next_txid set_wal set_next_txid]. unfold next_after.
  destruct (bump_next_spec (commits rs) (e_next_txid eng)). by split.
Qed.

Lemma begin_fields eng eng' r :
  garry_mvcc_begin eng = Some (eng', r) ->
  e_page_size eng' = e_page_size eng /\ e_compression eng' = e_compression eng /\ e_btree_root eng' = e_btree_root eng.
Proof.
  unfold garry_mvcc_begin. destruct (forZ _ _ _ _) as [live|]; [|discriminate]. cbn [mbind option_bind].
  case_decide; [by intros [= <- _]|]. destruct (ck (e_max_txns eng * 64)) as [cap|]; [|discriminate]. cbn [mbind option_bind].
  case_decide; [by intros [= <- _]|]. intros E. inv_bind. by split.
Qed.

(** A transaction begun on a database that was just recovered. *)
Lemma begin_recovered h' eng C' :
  store h' eng [] C' -> 0 < e_max_txns eng -> e_next_txid eng < 2 ^ 31 - 1 ->
  exists eng' r ts, garry_mvcc_begin eng = Some (eng', r) /\ r = e_next_txid eng /\ store h' eng' ts C' /\ running ts r /\
    map ti_txid ts = [r] /\ e_pool eng' = e_pool eng /\ e_compression eng' = e_compression eng /\ e_page_size eng' = e_page_size eng.
Proof.
  intros (m & fp & Hs) Hmax Hnx. destruct (begin_spec eng [] (sd_txns _ _ _ _ _ _ Hs) Hnx) as (eng' & r & E & H).
  rewrite decide_True in H by (split; [exact Hmax|change (zlen (@nil garry_txn_info)) with 0; lia]).
  destruct H as (-> & Hp & _ & _ & pages & Ht). cbn [app] in Ht.
  destruct (begin_fields _ _ _ E) as (Hps & Hc & Hroot).
  eexists eng', _, _. split; [exact E|]. split; [done|]. split; [|split; [|split; [|by split]]].
  - exists m, fp. apply (stored_table h' eng _ []); [exact Hs|exact Ht|by rewrite Hp|exact Hroot|exact Hps].
  - eexists. split; [unfold txn_entry; cbn [slot_of ti_txid]; by rewrite decide_True|]. unfold rolled_back. cbn. discriminate.
  - done.
Qed.

(** What a transaction that begins after recovery gets for a key. *)
Lemma get_recovered ocs oc h n eng C rs ops key klen k result :
  store h eng [] C -> log_holds eng rs ops -> can_recover ocs h n (length rs) eng ->
  0 < e_max_txns eng -> next_after eng rs < 2 ^ 31 - 1 -> key_arg (e_page_size eng) key klen k ->
  (h + length rs < oc_fuel oc)%nat -> reads_ok oc ->
  exists eng' eng1 r h' C', garry_wal_recover ocs eng = Some (eng', true) /\ garry_mvcc_begin eng' = Some (eng1, r) /\
    r = next_after eng rs /\ replayed_all (e_page_size eng) (commits rs) ops C C' /\ (h' <= h + length rs)%nat /\
    (read_cost h' C' k <= n -> exists eng2, garry_storage_get oc eng1 r key klen result =
      (x ← match visible_value [TxnInfo r GARRY_TXN_ACTIVE 0 []] C' r k with
           | None => Some None
           | Some b => deliver oc (e_compression eng) (b ++ [0]) (zlen b) result
           end; Some (eng2, x))).
Proof.
  intros Hs Hlog Hcv Hmax Hnx Hk Hf Hmr.
  destruct (wal_recover_spec ocs h n eng C rs ops Hs Hlog Hcv) as (eng' & h' & C' & E & [F1 F2 F3 F4 F5]).
  pose proof F5 as [G1 G2 G3 G4 G5 G6]. cbn in G1, G2, G3, G4, G6. cbn [e_page_size set_next_txid] in F3.
  destruct (begin_recovered h' eng' C' F1) as (eng1 & r & ts & E1 & -> & (m & fp & Hs1) & Hrun & Hm & Hp & Hc & Hps);
    [by rewrite G4|by rewrite G3|].
  pose proof (Forall2_length _ _ _ (lh_logged _ _ _ Hlog)) as Hlen.
  exists eng', eng1, (e_next_txid eng'), h', C'. split; [exact E|]. split; [exact E1|]. split; [exact G3|]. split; [exact F3|].
  split; [lia|]. intros Hcost.
  destruct (storage_get_spec h' eng1 ts C' m fp oc 0 [] key klen k (e_next_txid eng') result Hs1) as (p' & _ & _ & E2).
  - rewrite Hp. eapply ready_le; [exact F4|]. pose proof (read_cost_nonneg h' C' k). lia.
  - lia.
  - rewrite Hp, G6. pose proof (cv_capacity _ _ _ _ _ Hcv). change (zlen (@nil Z)) with 0. lia.
  - rewrite <- (sd_page_size _ _ _ _ _ _ Hs1), Hps, G1. exact Hk.
  - lia.
  - exact Hmr.
  - exact Hrun.
  - exists (set_pool eng1 p'). rewrite E2, Hc, G2. unfold visible_value. rewrite Hm. reflexivity.
Qed.

Lemma plain_delivers oc compression v result :
  compression <> GARRY_COMPRESS_LZ4 -> zlen v < 2 ^ 31 -> zlen v <= zlen result -> delivers oc compression v result v.
Proof.
  intros Hc Hv Hr. apply (payload_delivers oc compression v (zlen v) v (zlen v)); [|by apply slice_all|done|done].
  split; [done|by split|by apply slice_all|done].
Qed.

Lemma committed_below eng rs t : t ∈ commits rs -> t < next_after eng rs.
Proof.
  intros Ht. destruct (bump_next_spec (commits rs) (e_next_txid eng)) as [_ HF]. rewrite Forall_forall in HF. by apply HF.
Qed.

Lemma last_cell_visible t r b pages (cells : list cell) :
  t < r -> read_cells r [r] (cells ++ [Cell t b pages]) = b.
Proof.
  intros Ht. rewrite read_cells_snoc, decide_True; [done|]. unfold cell_visible. cbn [c_txn]. split; [lia|].
  intros [->%list_elem_of_singleton Hne]. by apply Hne.
Qed.

(** C22: the first committed update of a key is recovered, and only the first: on a
    database that does not have the key (its tree page was not written before the
    crash) and does not compress, with a log whose updates have values of at most 256
    bytes and in which no committed deletion of the key follows, a transaction begun
    after recovery reads exactly the value of the first
    committed update of the key in the log;
    later committed updates of the key are not recovered. *)
Theorem recovery_keeps_first_update ocs oc h n eng C rs pre post t k v key klen result
  (Hs : store h eng [] C) (Hlog : log_holds eng rs (pre ++ Put t k v :: post)) (Hcv : can_recover ocs h n (length rs) eng)
  (Hnew : C !! k = None) (Ht : t ∈ commits rs)
  (Hpre : forall t' v', Put t' k v' ∈ pre -> (t' ∉ commits rs)) (Hpost : forall t', Del t' k ∈ post -> (t' ∉ commits rs))
  (Hmax : 0 < e_max_txns eng) (Hnx : next_after eng rs < 2 ^ 31 - 1) (Hk : key_arg (e_page_size eng) key klen k)
  (Hf : (h + length rs < oc_fuel oc)%nat) (Hmr : reads_ok oc) (Hn : 2 * (Z.of_nat h + Z.of_nat (length rs) + 2) <= n)
  (Hv : zlen v < 2 ^ 31) (Hres : zlen v <= zlen result) :
  exists eng' eng1 r eng2 out, garry_wal_recover ocs eng = Some (eng', true) /\ garry_mvcc_begin eng' = Some (eng1, r) /\
    garry_storage_get oc eng1 r key klen (Some result) = Some (eng2, Some (Some out, zlen v)) /\ slice out 0 (zlen v) = Some v.
Proof.
  destruct (get_recovered ocs oc h n eng C rs _ key klen k (Some result) Hs Hlog Hcv Hmax Hnx Hk Hf Hmr)
    as (eng' & eng1 & r & h' & C' & E & E1 & Hr & Hops & Hh & Hget).
  destruct (first_update_kept _ _ pre post C C' t k v Hops Hnew Ht Hpre Hpost) as (q & Hq).
  destruct Hget as (eng2 & E2); [unfold read_cost; rewrite Hq; change (get_cost (q, [Cell t (Some v) []]).2) with 2; lia|].
  unfold visible_value in E2. rewrite Hq in E2. cbn [mbind option_bind snd map ti_txid] in E2.
  assert (Hvis : read_cells r [r] [Cell t (Some v) []] = Some v)
    by (apply (last_cell_visible t r (Some v) [] []); rewrite Hr; by apply committed_below).
  rewrite Hvis in E2.
  destruct (plain_delivers oc (e_compression eng) v result (cv_plain _ _ _ _ _ Hcv) Hv Hres) as (out & Ed & Ho).
  rewrite Ed in E2. exists eng', eng1, r, eng2, out. by split.
Qed.

(** C23: what did not commit is not recovered: in a database that does not compress,
    with a log whose updates have values of at most 256 bytes, a key that the database
    does not have and that no committed transaction updates in the log is not found
    after recovery. *)
Theorem uncommitted_not_recovered ocs oc h n eng C rs ops k key klen result
  (Hs : store h eng [] C) (Hlog : log_holds eng rs ops) (Hcv : can_recover ocs h n (length rs) eng)
  (Hnew : C !! k = None) (Hops : forall t v, Put t k v ∈ ops -> (t ∉ commits rs))
  (Hmax : 0 < e_max_txns eng) (Hnx : next_after eng rs < 2 ^ 31 - 1) (Hk : key_arg (e_page_size eng) key klen k)
  (Hf : (h + length rs < oc_fuel oc)%nat) (Hmr : reads_ok oc) (Hn : 2 * (Z.of_nat h + Z.of_nat (length rs) + 2) <= n) :
  exists eng' eng1 r eng2, garry_wal_recover ocs eng = Some (eng', true) /\ garry_mvcc_begin eng' = Some (eng1, r) /\
    garry_storage_get oc eng1 r key klen result = Some (eng2, None).
Proof.
  destruct (get_recovered ocs oc h n eng C rs _ key klen k result Hs Hlog Hcv Hmax Hnx Hk Hf Hmr)
    as (eng' & eng1 & r & h' & C' & E & E1 & Hr & Hrep & Hh & Hget).
  pose proof (replayed_all_absent _ _ _ _ _ k Hrep Hnew Hops) as Hq.
  destruct Hget as (eng2 & E2); [unfold read_cost; rewrite Hq; lia|].
  unfold visible_value in E2. rewrite Hq in E2. by exists eng', eng1, r, eng2.
Qed.

(** C24: recovery applies a deletion of the log to the chain the key has by then,
    whatever committed values were set after the deletion: reopening a database that
    was closed with the log in place deletes a key that had been set again. *)
Theorem recovery_reapplies_delete ocs oc h n eng C rs pre post t k c key klen result
  (Hs : store h eng [] C) (Hlog : log_holds eng rs (pre ++ Del t k :: post)) (Hcv : can_recover ocs h n (length rs) eng)
  (Hc : C !! k = Some c) (Ht : t ∈ commits rs) (Hfit : chain_fits (e_page_size eng) c.2 14)
  (Hd : forall t', Del t' k ∈ pre ++ post -> (t' ∉ commits rs))
  (Hmax : 0 < e_max_txns eng) (Hnx : next_after eng rs < 2 ^ 31 - 1) (Hk : key_arg (e_page_size eng) key klen k)
  (Hf : (h + length rs < oc_fuel oc)%nat) (Hmr : reads_ok oc) (Hn : 2 * (Z.of_nat h + Z.of_nat (length rs) + 1) + get_cost c.2 <= n) :
  exists eng' eng1 r eng2, garry_wal_recover ocs eng = Some (eng', true) /\ garry_mvcc_begin eng' = Some (eng1, r) /\
    garry_storage_get oc eng1 r key klen result = Some (eng2, None).
Proof.
  destruct (get_recovered ocs oc h n eng C rs _ key klen k result Hs Hlog Hcv Hmax Hnx Hk Hf Hmr)
    as (eng' & eng1 & r & h' & C' & E & E1 & Hr & Hrep & Hh & Hget).
  pose proof (delete_applied _ _ pre post C C' t k c Hrep Hc Ht Hfit Hd) as Hq.
  destruct Hget as (eng2 & E2).
  { unfold read_cost. rewrite Hq. cbn [snd]. unfold get_cost in *. rewrite chain_pages_snoc. cbn [c_pages].
    rewrite app_nil_r. lia. }
  unfold visible_value in E2. rewrite Hq in E2. cbn [mbind option_bind snd map ti_txid] in E2.
  rewrite last_cell_visible in E2 by (rewrite Hr; by apply committed_below). by exists eng', eng1, r, eng2.
Qed.

(** * Witnesses *)

(** Records on the key [107], with values of one byte. *)
Definition sample_update (t v : Z) : garry_wal_record :=
  WalRecord GARRY_WAL_UPDATE t (107 :: zeros 255) 1 1 (zeros 256) (v :: zeros 255) false 0.
Definition sample_deletion (t : Z) : garry_wal_record :=
  WalRecord GARRY_WAL_DELETE t (107 :: zeros 255) 1 0 (zeros 256) (zeros 256) false 0.

Definition sample_wal (rs : list garry_wal_record) : garry_wal_log :=
  WalLog (File (concat (map encode_record rs)) 0 true []) 0.
Definition sample_ocs : recovery_outcomes :=
  RecoveryOutcomes (fun _ => true) (fun _ => Outcomes (fun _ => true) None malloc_zeros true true (fun _ => all_reads) 20).

(** A database with an empty tree in page 2, opened with a log. *)
Definition sample_root : garry_engine_handle :=
  default sample_base ('(p, root) ← garry_allocate_leaf (e_pool sample_base); Some (set_root (set_pool sample_base p) root)).
Definition sample_opened (rs : list garry_wal_record) : garry_engine_handle := set_wal sample_root (sample_wal rs).

Lemma sample_update_ok t v : is_i32 t -> record_ok (sample_update t v) /\ update_record (sample_update t v) t [107] [v].
Proof. intros Ht. split; split; try done; vm_compute; split; congruence. Qed.

Lemma sample_deletion_ok t : is_i32 t -> record_ok (sample_deletion t) /\ delete_record (sample_deletion t) t [107].
Proof. intros Ht. split; split; try done; vm_compute; split; congruence. Qed.

Lemma sample_logged_put ps t v : 512 <= ps -> is_i32 t -> logged ps (sample_update t v) (Put t [107] [v]).
Proof.
  intros Hp Ht. apply logged_put; [by apply sample_update_ok|vm_compute; discriminate|].
  apply sample_key; [done|unfold is_byte; lia].
Qed.

Lemma sample_logged_del ps t : 512 <= ps -> is_i32 t -> logged ps (sample_deletion t) (Del t [107]).
Proof. intros Hp Ht. apply logged_del; [by apply sample_deletion_ok|]. apply sample_key; [done|unfold is_byte; lia]. Qed.

Lemma sample_logged_commit ps t : logged ps (commit_record t) Skip.
Proof. by apply logged_skip. Qed.

Lemma sample_root_ok :
  store 0 sample_root [] ∅ /\ ready 100000 [] [] (e_pool sample_root) /\ p_capacity (e_pool sample_root) = 4 /\
  p_next_page (e_pool sample_root) = 3 /\ e_page_size sample_root = 512 /\ e_compression sample_root = 0 /\
  e_next_txid sample_root = 5 /\ e_max_txns sample_root = 2.
Proof.
  destruct (empty_tree 100000 [] (e_pool sample_base)) as (p' & E & Hr' & _ & Hx & Hw & Ht);
    [apply sample_base_ready; lia|lia|reflexivity|reflexivity|vm_compute; split; congruence|].
  assert (Hs : sample_root = set_root (set_pool sample_base p') (p_next_page (e_pool sample_base)))
    by (unfold sample_root; by rewrite E).
  rewrite Hs. cbn [e_pool set_root set_pool e_page_size e_compression e_next_txid e_max_txns].
  split; [|split; [exact Hr'|split; [by rewrite (ws_capacity _ _ _ Hw)|split; [by rewrite Hx|by repeat split]]]].
  exists [], [p_next_page (e_pool sample_base)]. split.
  - apply txns_rep_root. exact sample_base_rep.
  - exact Ht.
  - reflexivity.
  - intros k c. by rewrite lookup_empty.
  - intros k c q. by rewrite lookup_empty.
  - intros k1 k2 c1 c2 q _. by rewrite lookup_empty.
  - cbn. by rewrite (ws_page_size _ _ _ Hw).
  - cbn. rewrite Hx. vm_compute. discriminate.
  - apply empty_apart. reflexivity.
Qed.

Lemma sample_can_recover n eng h N rs :
  0 <= n -> ready (n + 9000) [] [] (e_pool eng) -> p_capacity (e_pool eng) = 4 -> 0 <= p_next_page (e_pool eng) <= 10 -> e_page_size eng = 512 ->
  e_compression eng = 0 -> (h <= 3)%nat -> (N <= 6)%nat -> can_recover sample_ocs h n N (set_wal eng (sample_wal rs)).
Proof.
  intros Hn H1 H2 H3 H4 H5 Hh HN. split; cbn [e_pool e_page_size e_compression set_wal]; rewrite ?H2, ?H4, ?H5; try done; try lia.
  - eapply ready_le; [exact H1|]. pose proof (round_cost_mono (h + N) 9 ltac:(lia)) as Hm.
    assert (round_cost 9 <= 400) by (vm_compute; discriminate). nia.
  - unfold id_limit, GARRY_PAGE_ID_BIAS. nia.
  - intros i. cbn. lia.
Qed.

Definition sample_log : list garry_wal_record :=
  [sample_update 7 1; sample_update 8 2; commit_record 7; commit_record 8].

Lemma sample_log_holds eng rs ops :
  e_page_size eng = 512 -> Forall2 (logged 512) rs ops -> Forall record_ok rs ->
  Forall (fun r => is_i32 (wr_txid r + 1)) rs -> log_holds (set_wal eng (sample_wal rs)) rs ops.
Proof.
  intros Hps Hl Hok Hi. split; [by cbn; rewrite Hps|done|done|done|]. exists []. by rewrite app_nil_r.
Qed.

Lemma small_i32 t : 0 <= t <= 100 -> is_i32 t /\ is_i32 (t + 1).
Proof. unfold is_i32. lia. Qed.

(** The facts of a small log, by cases on its records. *)
Ltac sample_records :=
  repeat match goal with
  | |- Forall2 _ [] [] => constructor
  | |- Forall2 _ (_ :: _) (_ :: _) => constructor
  | |- Forall _ [] => constructor
  | |- Forall _ (_ :: _) => constructor
  | |- logged _ (sample_update _ _) _ => apply sample_logged_put; [lia|apply small_i32; lia]
  | |- logged _ (sample_deletion _) _ => apply sample_logged_del; [lia|apply small_i32; lia]
  | |- logged _ _ Skip => apply sample_logged_commit
  | |- record_ok (sample_update _ _) => apply sample_update_ok, small_i32; lia
  | |- record_ok (sample_deletion _) => apply sample_deletion_ok, small_i32; lia
  | |- record_ok (commit_record _) => apply blank_record_ok, small_i32; lia
  | |- is_i32 (wr_txid _ + 1) => apply small_i32; cbn; lia
  end.

Lemma sample_log_ok : log_holds (sample_opened sample_log) sample_log ([] ++ Put 7 [107] [1] :: [Put 8 [107] [2]; Skip; Skip]).
Proof.
  destruct sample_root_ok as (_ & _ & _ & _ & H5 & _). apply sample_log_holds; [exact H5|..]; unfold sample_log; cbn [app]; sample_records.
Qed.

(** Stated for every engine, so that no step unfolds a sample. *)
Lemma set_wal_fields eng w :
  e_page_size (set_wal eng w) = e_page_size eng /\ e_max_txns (set_wal eng w) = e_max_txns eng /\
  e_next_txid (set_wal eng w) = e_next_txid eng.
Proof. done. Qed.

Lemma sample_opened_fields rs :
  e_page_size (sample_opened rs) = 512 /\ e_max_txns (sample_opened rs) = 2 /\ e_next_txid (sample_opened rs) = 5.
Proof.
  destruct sample_root_ok as (_ & _ & _ & _ & H5 & _ & H7 & H8). unfold sample_opened.
  destruct (set_wal_fields sample_root (sample_wal rs)) as (-> & -> & ->). split; [exact H5|split; [exact H8|exact H7]].
Qed.

Lemma sample_opened_ok rs : store 0 (sample_opened rs) [] ∅ /\ (forall n, 0 <= n <= 10000 -> (length rs <= 6)%nat -> can_recover sample_ocs 0 n (length rs) (sample_opened rs)).
Proof.
  destruct sample_root_ok as (H1 & H2 & H3 & H4 & H5 & H6 & _). split; [by apply store_set_wal|]. intros n Hn Hrs.
  apply sample_can_recover; [lia|eapply ready_le; [exact H2|lia]|exact H3|lia|exact H5|exact H6|lia|exact Hrs].
Qed.

Lemma wal_recover_refines_witness : exists eng' C', garry_wal_recover sample_ocs (sample_opened sample_log) = Some (eng', true) /\
  replayed_all 512 [7; 8] [Put 7 [107] [1]; Put 8 [107] [2]; Skip; Skip] ∅ C'.
Proof.
  destruct (sample_opened_ok sample_log) as [H1 H2].
  destruct (wal_recover_refines sample_ocs 0 100 (sample_opened sample_log) ∅ sample_log _ H1 sample_log_ok (H2 100 ltac:(lia) ltac:(cbn; lia)))
    as (eng' & h' & C' & E & _ & Hr & _).
  destruct (sample_opened_fields sample_log) as (H5 & _). rewrite H5 in Hr.
  assert (Ec : commits sample_log = [7; 8]) by (vm_compute; reflexivity). rewrite Ec in Hr. cbn [app] in Hr.
  exists eng', C'. split; [exact E|exact Hr].
Defined.

Lemma recovery_keeps_first_update_witness : exists eng' eng1 r eng2 out,
  garry_wal_recover sample_ocs (sample_opened sample_log) = Some (eng', true) /\ garry_mvcc_begin eng' = Some (eng1, r) /\
  garry_storage_get sample_oc eng1 r [107] 1 (Some [0]) = Some (eng2, Some (Some out, 1)) /\ slice out 0 1 = Some [1].
Proof.
  destruct (sample_opened_ok sample_log) as [H1 H2]. destruct (sample_opened_fields sample_log) as (H5 & H8 & H7).
  apply (recovery_keeps_first_update sample_ocs sample_oc 0 100 (sample_opened sample_log) ∅ sample_log [] [Put 8 [107] [2]; Skip; Skip]
    7 [107] [1] [107] 1 [0] H1 sample_log_ok).
  - apply H2; [lia|cbn; lia].
  - reflexivity.
  - left.
  - intros t' v' Hin. exfalso; exact (not_elem_of_nil _ Hin).
  - intros t' Hin. repeat (apply elem_of_cons in Hin as [Hin|Hin]; [discriminate Hin|]). exfalso; exact (not_elem_of_nil _ Hin).
  - rewrite H8. lia.
  - unfold next_after. rewrite H7. reflexivity.
  - rewrite H5. apply sample_key; [lia|unfold is_byte; lia].
  - cbn. lia.
  - apply sample_malloc.
  - cbn. lia.
  - vm_compute. reflexivity.
  - vm_compute. discriminate.
Defined.

Lemma uncommitted_not_recovered_witness : exists eng' eng1 r eng2,
  garry_wal_recover sample_ocs (sample_opened [sample_update 7 1]) = Some (eng', true) /\ garry_mvcc_begin eng' = Some (eng1, r) /\
  garry_storage_get sample_oc eng1 r [107] 1 None = Some (eng2, None).
Proof.
  destruct (sample_opened_ok [sample_update 7 1]) as [H1 H2]. destruct (sample_opened_fields [sample_update 7 1]) as (H5 & H8 & H7). destruct sample_root_ok as (_ & _ & _ & _ & H5r & _).
  apply (uncommitted_not_recovered sample_ocs sample_oc 0 100 (sample_opened [sample_update 7 1]) ∅ [sample_update 7 1] [Put 7 [107] [1]]
    [107] [107] 1 None H1).
  - apply sample_log_holds; [exact H5r|..]; sample_records.
  - apply H2; [lia|cbn; lia].
  - reflexivity.
  - intros t v _ Hin. exfalso; exact (not_elem_of_nil _ Hin).
  - rewrite H8. lia.
  - unfold next_after. rewrite H7. reflexivity.
  - rewrite H5. apply sample_key; [lia|unfold is_byte; lia].
  - cbn. lia.
  - apply sample_malloc.
  - cbn. lia.
Defined.

(** The key is set by 7, deleted by 8 and set again by 9; the database was closed
    with the last value under the key and the log in place. *)
Definition sample_closed : garry_engine_handle :=
  default sample_root (fst <$> garry_wal_recover sample_ocs (sample_opened [sample_update 9 3; commit_record 9])).
Definition sample_history : list garry_wal_record :=
  [sample_update 7 1; commit_record 7; sample_deletion 8; commit_record 8; sample_update 9 3; commit_record 9].

Lemma sample_closed_ok : exists h C q,
  store h sample_closed [] C /\ (h <= 2)%nat /\ C !! [107] = Some (q, [Cell 9 (Some [3]) []]) /\
  can_recover sample_ocs h 100 6 (set_wal sample_closed (sample_wal sample_history)) /\
  e_page_size sample_closed = 512 /\ e_max_txns sample_closed = 2 /\ e_next_txid sample_closed = 10.
Proof.
  set (rs := [sample_update 9 3; commit_record 9]). destruct (sample_opened_ok rs) as [H1 H2].
  destruct sample_root_ok as (_ & _ & H3 & _ & H5 & H6 & _). destruct (sample_opened_fields rs) as (O5 & O8 & O7).
  assert (Hl : log_holds (sample_opened rs) rs ([] ++ Put 9 [107] [3] :: [Skip]))
    by (apply sample_log_holds; [exact H5|..]; unfold rs; cbn [app]; sample_records).
  pose proof (H2 10000 ltac:(lia) ltac:(cbn; lia)) as Hcv.
  destruct (wal_recover_spec sample_ocs 0 10000 (sample_opened rs) ∅ rs _ H1 Hl Hcv) as (eng' & h' & C' & E & [F1 F2 F3 F4 F5]).
  assert (Hs : sample_closed = eng') by (unfold sample_closed; fold rs; by rewrite E). rewrite Hs.
  destruct (first_update_kept _ _ [] [Skip] ∅ C' 9 [107] [3] F3) as (q & Hq);
    [reflexivity|left|intros t' v' Hin; exfalso; exact (not_elem_of_nil _ Hin)|
     intros t' Hin; apply elem_of_cons in Hin as [Hin|Hin]; [discriminate Hin|exfalso; exact (not_elem_of_nil _ Hin)]|].
  assert (Hset : e_page_size eng' = 512 /\ e_compression eng' = 0 /\ e_max_txns eng' = 2 /\ e_next_txid eng' = 10 /\
    p_capacity (e_pool eng') = 4).
  { unfold sample_opened in *. destruct F5 as [G1 G2 G3 G4 _ G6]. generalize dependent sample_root. intros e. intros.
    cbn in G1, G2, G3, G4, G6, O5, O8, O7. rewrite G1, G2, G3, G4, G6. unfold next_after. cbn. rewrite O7. by repeat split. }
  destruct Hset as (G1 & G2 & G4 & G3 & G6).
  assert (Hnp : 0 <= p_next_page (e_pool eng') <= 10) by (rewrite <- Hs; vm_compute; split; discriminate).
  exists h', C', q. split; [exact F1|]. split; [exact F2|]. split; [exact Hq|]. split.
  - apply sample_can_recover; [lia|eapply ready_le; [exact F4|lia]|exact G6|exact Hnp|exact G1|exact G2|cbn in F2; lia|lia].
  - split; [exact G1|]. split; [exact G4|exact G3].
Qed.

Lemma recovery_reapplies_delete_witness : exists eng' eng1 r eng2,
  garry_wal_recover sample_ocs (set_wal sample_closed (sample_wal sample_history)) = Some (eng', true) /\
  garry_mvcc_begin eng' = Some (eng1, r) /\ garry_storage_get (sample_ocs 0%nat) eng1 r [107] 1 None = Some (eng2, None).
Proof.
  destruct sample_closed_ok as (h & C & q & H1 & Hh & Hq & Hcv & H5 & H8 & H7).
  destruct (set_wal_fields sample_closed (sample_wal sample_history)) as (E5 & E8 & E7).
  apply (recovery_reapplies_delete sample_ocs (sample_ocs 0%nat) h 100 (set_wal sample_closed (sample_wal sample_history)) C sample_history
    [Put 7 [107] [1]; Skip] [Skip; Put 9 [107] [3]; Skip] 8 [107] (q, [Cell 9 (Some [3]) []]) [107] 1 None).
  - by apply store_set_wal.
  - apply sample_log_holds; [exact H5|..]; unfold sample_history; cbn [app]; sample_records.
  - exact Hcv.
  - exact Hq.
  - right. left.
  - rewrite E5, H5. split; vm_compute; congruence.
  - intros t' Hin. cbn [app] in Hin. repeat (apply elem_of_cons in Hin as [Hin|Hin]; [discriminate Hin|]). exfalso; exact (not_elem_of_nil _ Hin).
  - rewrite E8, H8. lia.
  - unfold next_after. rewrite E7, H7. vm_compute. reflexivity.
  - rewrite E5, H5. apply sample_key; [lia|unfold is_byte; lia].
  - cbn. lia.
  - intros cid. reflexivity.
  - change (get_cost (q, [Cell 9 (Some [3]) []]).2) with 2. change (length sample_history) with 6%nat. lia.
Defined.
