(* ===== verification/Engine.v ===== *)
(** Creating and opening a database, [garry_engine_init] and [garry_engine_open] of
    [src/src/transaction.c] and the wrappers of [storage_engine.c].

    What [open] gives for a path and its flags is the argument [os]: the file system
    is not part of the code.  The results of [malloc] are the argument [m], for the
    arrays of the transaction table with what the memory holds, of which the code
    clears the first [max_txns] elements only; a negative number of elements is a
    request that [malloc] refuses.  The lock manager's allocation succeeds. *)

From stdpp Require Import gmap.
From S2P Require Import Prelude Endian FileIo BufferPool PoolClient SlottedPage BtreeNode NodeView BtreeSearch BtreeModify BtreeInsert.
From S2P Require Import VersionChain Overflow LockTable DbHeader WalLog Transaction MvccStore StorageOps KeyStore StorageProps WalRecovery.
Definition GARRY_FIRST_PAGE_ID : Z := 2.
Definition GARRY_DEFAULT_PAGE_SIZE : Z := 4096.
Definition GARRY_O_RDONLY : Z := 0.
Definition GARRY_O_RDWR : Z := 2.
Definition GARRY_O_CREAT : Z := 64.

(** [PATH_MAX] of [linux/limits.h]. *)
Definition PATH_MAX : Z := 4096.

(** * The code *)

(** [om_active n] and [om_states n] are what [malloc] gives for [n] elements. *)
Record open_mem := OpenMem {
  om_engine : bool; om_active : Z -> option (list Z); om_states : Z -> option (list garry_txn_info); om_pool : bool
}.

Definition malloc_array {A} (mem : Z -> option (list A)) (n : Z) : option (list A) :=
  if decide (0 <= n) then mem n else None.

(** [memset] of the first [n] elements of an array; [x] is the element of zero bytes. *)
Definition clear_array {A} (a : list A) (x : A) (n : Z) : option (list A) :=
  blit a 0 (replicate (Z.to_nat n) x).

(** A null pointer is returned, with the files that the call has closed, or an engine. *)
Inductive open_result :=
  | NoEngine (closed : list garry_file_descriptor)
  | Opened (eng : garry_engine_handle).

(** The name of the log file: the path, without its terminating zero, and [-wal]. *)
Definition wal_path (path : list Z) : list Z :=
  let path_len := if decide (zlen path > PATH_MAX - 6) then PATH_MAX - 6 else zlen path in
  take (Z.to_nat path_len) path ++ [45; 119; 97; 108].

(** The root page of a new database: an empty leaf, unless the page holds entries. *)
Definition init_root (pool : garry_buffer_pool) (root : Z) : option garry_buffer_pool :=
  '(pool, r) ← garry_pool_pin_page pool root;
  match r with
  | None => Some pool
  | Some _ =>
      '(pool, root_node) ← garry_load_node pool root;
      pool ← (if decide (nd_count root_node = 0 /\ nd_kind root_node <> GARRY_NODE_LEAF) then
                let root_node := set_kind root_node GARRY_NODE_LEAF (garry_create_header GARRY_NODE_LEAF 0) in
                let root_node := set_links (set_count root_node 0) (-1) (-1) in
                pool ← garry_store_node pool root root_node;
                garry_pool_mark_dirty pool root
              else Some pool);
      garry_pool_release_page pool root
  end.

Definition new_txn_info : garry_txn_info :=
  TxnInfo 0 GARRY_TXN_ACTIVE 0 (zeros GARRY_MAX_MODIFIED_PAGES).

Definition garry_engine_init (os : list Z -> Z -> garry_file_descriptor) (m : open_mem) (path : list Z)
    (settings : garry_engine_settings) : option open_result :=
  if negb (om_engine m) then Some (NoEngine []) else
  match malloc_array (om_active m) (es_max_txns settings * 64),
        malloc_array (om_states m) (es_max_txns settings * 64) with
  | Some active_txns, Some txn_states =>
      active_txns ← clear_array active_txns 0 (es_max_txns settings);
      txn_states ← clear_array txn_states new_txn_info (es_max_txns settings);
      match (if om_pool m then garry_pool_create (os path (GARRY_O_RDWR + GARRY_O_CREAT))
                                 (u32 (es_pool_size settings)) (u32 (es_page_size settings)) else None) with
      | None => Some (NoEngine [])
      | Some pool =>
          let pool := set_free_list_head (set_next_page pool GARRY_FIRST_PAGE_ID) (-1) in
          match garry_wal_log_init (os (wal_path path) (GARRY_O_RDWR + GARRY_O_CREAT)) with
          | None => fd ← garry_pool_close pool; Some (NoEngine [fd])
          | Some wal =>
              let header := garry_create_db_header settings in
              let btree_root := root_page header in
              pool ← write_header_page pool header;
              pool ← init_root pool btree_root;
              let header := close_header header btree_root (p_free_list_head pool) (p_next_page pool)
                              (next_txid header) in
              pool ← write_header_page pool header;
              pool ← garry_pool_flush_all pool;
              Some (Opened (Engine (es_page_size settings) (es_compression settings) btree_root pool 1
                (es_max_txns settings) active_txns 0 txn_states wal garry_create_lock_manager settings header 0))
          end
      end
  | _, _ => Some (NoEngine [])
  end.

(** The page size of a file, by the header at its start; the buffer has the size of
    the largest page. *)
Definition file_page_size (fd : garry_file_descriptor) : option Z :=
  hdr_raw ← garry_file_read_page fd 0 (zeros GARRY_MAX_PAGE_SIZE) GARRY_MAX_PAGE_SIZE;
  tmp_hdr ← garry_read_db_header hdr_raw;
  let ps := page_size tmp_hdr in
  Some (if decide (ps < GARRY_MIN_PAGE_SIZE \/ ps > GARRY_MAX_PAGE_SIZE) then GARRY_DEFAULT_PAGE_SIZE else ps).

Definition header_settings (header : garry_db_header) : garry_engine_settings :=
  EngineSettings (page_size header) (db_compression header) (max_txns header) (max_versions header)
    (max_key_size header) (max_subscripts header) (btree_flags header) 0 0.

(** The engine as the header describes it, before recovery. *)
Definition opened_engine (header : garry_db_header) (pool : garry_buffer_pool) (active_txns : list Z)
    (txn_states : list garry_txn_info) (wal : garry_wal_log) : garry_engine_handle :=
  Engine (page_size header) (db_compression header) (root_page header) pool (next_txid header) (max_txns header)
    active_txns 0 txn_states wal garry_create_lock_manager (header_settings header) header 0.

Definition garry_engine_open (os : list Z -> Z -> garry_file_descriptor) (m : open_mem) (ocs : recovery_outcomes)
    (path : list Z) : option open_result :=
  if negb (om_engine m) then Some (NoEngine []) else
  let raw_fd := os path GARRY_O_RDONLY in
  if negb (f_open raw_fd) then Some (NoEngine []) else
  page_size ← file_page_size raw_fd;
  match (if om_pool m then garry_pool_create (os path (GARRY_O_RDWR + GARRY_O_CREAT))
                             (u32 (es_pool_size garry_default_engine_settings)) (u32 page_size) else None) with
  | None => Some (NoEngine [garry_file_close raw_fd])
  | Some pool =>
      let pool := set_free_list_head (set_next_page pool GARRY_FIRST_PAGE_ID) (-1) in
      '(pool, r) ← garry_pool_pin_page pool GARRY_HEADER_PAGE;
      match r with
      | None => fd ← garry_pool_close pool; Some (NoEngine [garry_file_close raw_fd; fd])
      | Some idx =>
          page ← slot_page pool idx;
          header ← garry_read_db_header page;
          let pool := set_next_page (set_free_list_head pool (free_list_head header)) (total_pages header) in
          pool ← garry_pool_release_page pool GARRY_HEADER_PAGE;
          match malloc_array (om_active m) (max_txns header * 64),
                malloc_array (om_states m) (max_txns header * 64) with
          | Some active_txns, Some txn_states =>
              active_txns ← clear_array active_txns 0 (max_txns header);
              txn_states ← clear_array txn_states new_txn_info (max_txns header);
              match garry_wal_log_init (os (wal_path path) (GARRY_O_RDWR + GARRY_O_CREAT)) with
              | None => fd ← garry_pool_close pool; Some (NoEngine [garry_file_close raw_fd; fd])
              | Some wal =>
                  '(eng, ok) ← garry_wal_recover ocs (opened_engine header pool active_txns txn_states wal);
                  if ok : bool then Some (Opened eng) else
                  let wal := garry_wal_log_close (e_wal eng) in
                  fd ← garry_pool_close (e_pool eng);
                  Some (NoEngine [garry_file_close raw_fd; fd; wl_fd wal])
              end
          | _, _ => fd ← garry_pool_close pool; Some (NoEngine [garry_file_close raw_fd; fd])
          end
      end
  end.

(** A null path is refused. *)
Definition garry_storage_init (os : list Z -> Z -> garry_file_descriptor) (m : open_mem) (path : option (list Z))
    (settings : garry_engine_settings) : option open_result :=
  match path with None => Some (NoEngine []) | Some path => garry_engine_init os m path settings end.

Definition garry_storage_open (os : list Z -> Z -> garry_file_descriptor) (m : open_mem) (ocs : recovery_outcomes)
    (path : option (list Z)) : option open_result :=
  match path with None => Some (NoEngine []) | Some path => garry_engine_open os m ocs path end.

(** * The page of the header *)

Lemma write_header_ready n pins p h :
  ready (n + 2) pins [] p -> 0 <= n -> zlen pins < p_capacity p -> 0 < p_next_page p -> hdr_i32 h ->
  GARRY_HEADER_SIZE <= p_page_size p ->
  exists p' b c, write_header_page p h = Some p' /\ ready n pins [] p' /\ updates GARRY_HEADER_PAGE b p p' /\
    garry_read_db_header b = Some (set_checksum h c) /\ is_i32 c.
Proof.
  intros Hr Hn Hc Hnx Hh Hps. unfold write_header_page, GARRY_HEADER_PAGE.
  destruct (pin_page_ready n pins [] p 0 Hr Hn Hc) as (p1 & i & -> & Hr1 & Hk1 & _ & Hf1 & Hp1); [lia|].
  cbn [mbind option_bind]. rewrite Hp1. cbn [mbind option_bind].
  pose proof (view_size _ _ _ _ 0 Hr) as Hz.
  destruct (db_header_spec (pool_view p 0) h) as (b & c & -> & Hbz & Hcs & Hrd & _); [by rewrite Hz|exact Hh|].
  cbn [mbind option_bind].
  destruct (write_mark_ready n (0 :: pins) [] p1 0 i b Hr1) as (p2 & E2 & Hr2 & Hu2 & Hf2);
    [by left|exact Hf1|by rewrite Hbz, Hz, (kp_page_size _ _ Hk1)|apply not_elem_of_nil|].
  destruct (set_slot_page p1 i b) as [p1'|]; [|discriminate]. cbn [mbind option_bind] in E2 |- *. rewrite E2.
  cbn [mbind option_bind].
  destruct (release_ready n 0 pins [] p2 Hr2 (not_elem_of_nil _)) as (p3 & -> & Hr3 & Hk3 & _).
  exists p3, b, c. split; [reflexivity|]. split; [exact Hr3|]. split; [|split; [exact Hrd|]].
  - eapply updates_keeps; [eapply keeps_updates; [exact Hk1|exact Hu2]|exact Hk3].
  - unfold garry_compute_header_checksum in Hcs. destruct (forZ _ _ _ _) as [x|]; [|discriminate].
    cbn [mbind option_bind] in Hcs. injection Hcs as <-. apply i32_range.
Qed.

(** * The root of a new database *)

Lemma read_le32_zeros n off : 0 <= off -> off + 4 <= n -> garry_read_le32 (zeros n) off = Some 0.
Proof.
  intros H1 H2. unfold garry_read_le32. rewrite !rd_zeros by lia. reflexivity.
Qed.

Lemma load_page_zeros ps :
  GARRY_PAGE_HEADER_SIZE <= ps ->
  exists hdr, load_page (zeros ps) ps = Some (set_kind blank_node GARRY_NODE_INTERNAL hdr).
Proof.
  unfold GARRY_PAGE_HEADER_SIZE. intros Hps. unfold load_page, garry_page_record_count, garry_read_int32,
    GARRY_PAGE_HDR_OFF_COUNT, GARRY_PAGE_HDR_OFF_TYPE, GARRY_PAGE_HDR_OFF_LEVEL.
  rewrite !read_le32_zeros by lia. cbn [mbind option_bind]. rewrite (decide_False (P := 0 > 0)) by lia.
  cbn [mbind option_bind]. rewrite (decide_False (P := 0 > 1)) by lia. by eexists.
Qed.

Lemma init_root_ready n p root :
  ready (n + 6) [] [] p -> 0 <= n -> 2 <= p_capacity p -> 0 <= root < p_next_page p ->
  page_size_ok (p_page_size p) -> pool_view p root = zeros (p_page_size p) ->
  exists p' b, init_root p root = Some p' /\ ready n [] [] p' /\ updates root b p p' /\
    node_at (p_page_size p) (pool_view p') root (ALeaf (-1) (-1) []).
Proof.
  intros Hr Hn Hc Hroot Hps Hz. unfold init_root.
  destruct (pin_page_ready (n + 4) [] [] p root) as (p1 & i & -> & Hr1 & Hk1 & _ & Hf1 & Hp1);
    [by replace (n + 4 + 2) with (n + 6) by lia|lia|change (zlen (@nil Z)) with 0; lia|exact Hroot|].
  cbn [mbind option_bind]. unfold garry_load_node.
  destruct (load_pin_ready (n + 2) [root] [] p1 root) as (p2 & j & E & Hr2 & Hk2 & _ & Hp2);
    [by replace (n + 2 + 2) with (n + 4) by lia|lia|rewrite (kp_capacity _ _ Hk1); change (zlen [root]) with 1; lia|
     by rewrite (kp_next _ _ Hk1)|].
  destruct (garry_pool_try_pin p1 root) as [[q r]|]; [|discriminate]. cbn [mbind option_bind] in E |- *.
  rewrite E. cbn [mbind option_bind]. rewrite Hp2. cbn [mbind option_bind].
  rewrite (kp_page_size _ _ Hk2), (kp_page_size _ _ Hk1), (kp_view _ _ Hk1), Hz.
  destruct (load_page_zeros (p_page_size p)) as [hdr ->]; [unfold page_size_ok, GARRY_SLOT_SIZE in Hps; lia|].
  cbn [mbind option_bind].
  destruct (release_ready _ root [root] [] p2 Hr2 (not_elem_of_nil _)) as (p3 & -> & Hr3 & Hk3 & Hf3).
  cbn [mbind option_bind]. assert (Hk : keeps p p3) by (transitivity p1; [done|by transitivity p2]).
  rewrite decide_True by (split; [reflexivity|discriminate]).
  set (nd := set_links _ _ _).
  assert (Hnd : node_rep nd (ALeaf (-1) (-1) [])).
  { exact (empty_leaf_rep (garry_create_header GARRY_NODE_LEAF 0)). }
  assert (Hok : node_ok (p_page_size p3) (ALeaf (-1) (-1) [])).
  { rewrite (kp_page_size _ _ Hk). apply node_ok_leaf; [done|done|constructor|done]. }
  destruct (store_node_ready n [root] p3 root nd (ALeaf (-1) (-1) [])) as (p4 & b & E4 & Hr4 & Hu4 & Hb4 & _);
    [exact Hr3|exact Hn|rewrite (kp_capacity _ _ Hk); change (zlen [root]) with 1; lia|by rewrite (kp_next _ _ Hk)|
     exact Hnd|by eapply node_ok_wf|apply node_ok_fits; [exact Hok|rewrite (kp_page_size _ _ Hk); apply Hps]|
     rewrite (kp_page_size _ _ Hk); apply Hps|].
  rewrite E4. cbn [mbind option_bind].
  destruct (mark_dirty_any n [root] [] p4 root Hr4) as (p5 & -> & Hr5 & Hk5 & _); [lia|apply not_elem_of_nil|].
  cbn [mbind option_bind].
  destruct (release_ready _ root [] [] p5 Hr5 (not_elem_of_nil _)) as (p6 & -> & Hr6 & Hk6 & _).
  assert (Hu : updates root b p p6).
  { eapply updates_keeps; [|exact Hk6]. eapply updates_keeps; [|exact Hk5]. eapply keeps_updates; [exact Hk|exact Hu4]. }
  exists p6, b. split; [reflexivity|]. split; [exact Hr6|]. split; [exact Hu|].
  rewrite (kp_page_size _ _ Hk) in Hb4, Hok. split; [|exact Hok]. by rewrite (up_view _ _ _ _ Hu), decide_True.
Qed.

(** * The page size of a file *)

Lemma read_le32_prefix (l q : list Z) off :
  0 <= off -> off + 4 <= zlen l -> garry_read_le32 (l ++ q) off = garry_read_le32 l off.
Proof. intros H1 H2. unfold garry_read_le32. by rewrite !rd_app_l by lia. Qed.

(** The header is in the first 56 bytes. *)
Lemma read_db_header_prefix (l q : list Z) :
  zlen l = GARRY_HEADER_SIZE -> garry_read_db_header (l ++ q) = garry_read_db_header l.
Proof.
  unfold GARRY_HEADER_SIZE. intros Hl. unfold garry_read_db_header, garry_read_int32.
  rewrite !read_le32_prefix by lia.
  assert (Hc : garry_compute_header_checksum (l ++ q) = garry_compute_header_checksum l).
  { destruct (split_at l 52) as (l1 & l2 & -> & H1); [lia|].
    rewrite <- app_assoc. by rewrite !compute_checksum_fnv by exact H1. }
  by rewrite Hc.
Qed.

Lemma header_same_bytes (a b : list Z) :
  GARRY_HEADER_SIZE <= zlen a -> GARRY_HEADER_SIZE <= zlen b ->
  take (Z.to_nat GARRY_HEADER_SIZE) a = take (Z.to_nat GARRY_HEADER_SIZE) b ->
  garry_read_db_header a = garry_read_db_header b.
Proof.
  intros Ha Hb E. rewrite <- (take_drop (Z.to_nat GARRY_HEADER_SIZE) a), <- (take_drop (Z.to_nat GARRY_HEADER_SIZE) b), E.
  rewrite !read_db_header_prefix; [done|..]; unfold zlen, GARRY_HEADER_SIZE in *; rewrite length_take; lia.
Qed.

(** The beginning of page 0. *)
Lemma disk_page_head fd ps k :
  0 <= k <= ps -> k <= zlen (f_bytes fd) ->
  take (Z.to_nat k) (disk_page fd ps 0) = take (Z.to_nat k) (f_bytes fd).
Proof.
  intros Hk Hl. pose proof (zlen_disk_page fd ps 0 ltac:(lia)) as Hz.
  apply list_eq_rd; [unfold zlen in *; rewrite !length_take; lia|].
  intros i Hi. assert (i < k) by (unfold zlen in Hi; rewrite length_take in Hi; lia).
  assert (Ht : forall l : list Z, rd (take (Z.to_nat k) l) i = rd l i).
  { intros l. unfold rd. case_decide; [|done]. apply lookup_take_lt. lia. }
  rewrite !Ht, rd_disk_page by lia. unfold byte_at. rewrite Z.mul_0_l, Z.add_0_l.
  destruct (rd_is_Some (f_bytes fd) i) as [x Hx]; [lia|]. by rewrite Hx.
Qed.

Lemma header_of_zeros n :
  GARRY_HEADER_SIZE <= n -> garry_read_db_header (replicate (Z.to_nat n) 0) = garry_read_db_header (zeros GARRY_HEADER_SIZE).
Proof.
  intros Hn. apply header_same_bytes.
  - rewrite zlen_replicate. unfold GARRY_HEADER_SIZE in *. lia.
  - vm_compute. discriminate.
  - unfold zeros. rewrite !take_replicate. f_equal. lia.
Qed.

(** A short read zeroes the buffer, and a header of zeros has no page size. *)
Lemma small_file_spec fd : zlen (f_bytes fd) < GARRY_MAX_PAGE_SIZE -> file_page_size fd = Some GARRY_DEFAULT_PAGE_SIZE.
Proof.
  intros Hl. unfold file_page_size, garry_file_read_page. set (s := os_pread fd _ _).
  assert (Hs : zlen s < GARRY_MAX_PAGE_SIZE).
  { subst s. unfold os_pread. case_decide; [done|]. unfold zlen in *. rewrite length_take, length_drop.
    unfold GARRY_MAX_PAGE_SIZE in *. lia. }
  assert (Hz : zlen (zeros GARRY_MAX_PAGE_SIZE) = GARRY_MAX_PAGE_SIZE) by (rewrite zlen_zeros_max; done).
  destruct (blit_ok (zeros GARRY_MAX_PAGE_SIZE) 0 s) as (b & -> & Eb); [lia|rewrite Hz; lia|]. cbn [mbind option_bind].
  rewrite (decide_True (P := zlen s < GARRY_MAX_PAGE_SIZE)) by exact Hs. unfold memset.
  rewrite blit_whole by (rewrite Eb, Hz, zlen_replicate; done). cbn [mbind option_bind].
  rewrite (header_of_zeros GARRY_MAX_PAGE_SIZE) by (vm_compute; discriminate). reflexivity.
Qed.

(** Otherwise the header is read. *)
Lemma read_first_page fd m :
  f_open fd = true -> 0 <= m <= zlen (f_bytes fd) ->
  garry_file_read_page fd 0 (zeros m) m = Some (take (Z.to_nat m) (f_bytes fd)).
Proof.
  intros Ho Hm. unfold garry_file_read_page, os_pread.
  rewrite Ho, (decide_False (P := true = false \/ 0 * m < 0)) by (intros [?|?]; [discriminate|lia]).
  rewrite Z.mul_0_l. change (Z.to_nat 0) with 0%nat. rewrite drop_0. set (s := take _ _).
  assert (Hs : zlen s = m) by (subst s; unfold zlen in *; rewrite length_take; lia).
  rewrite blit_whole by (rewrite Hs, zlen_zeros_max; lia). cbn [mbind option_bind]. by rewrite decide_False by lia.
Qed.

Lemma head_header fd m ps :
  GARRY_HEADER_SIZE <= m <= zlen (f_bytes fd) -> GARRY_HEADER_SIZE <= ps ->
  garry_read_db_header (take (Z.to_nat m) (f_bytes fd)) = garry_read_db_header (disk_page fd ps 0).
Proof.
  intros Hm Hps. assert (0 <= GARRY_HEADER_SIZE) by (unfold GARRY_HEADER_SIZE; lia). apply header_same_bytes.
  - unfold zlen in *. rewrite length_take. lia.
  - rewrite zlen_disk_page; lia.
  - rewrite disk_page_head by lia. rewrite take_take. f_equal. lia.
Qed.

Lemma read_page_size fd m ps h (K : Z -> Z) :
  f_open fd = true -> GARRY_HEADER_SIZE <= m <= zlen (f_bytes fd) -> GARRY_HEADER_SIZE <= ps ->
  garry_read_db_header (disk_page fd ps 0) = Some h ->
  (hdr_raw ← garry_file_read_page fd 0 (zeros m) m;
   tmp_hdr ← garry_read_db_header hdr_raw; Some (K (page_size tmp_hdr))) = Some (K (page_size h)).
Proof.
  intros Ho Hm Hps Hh. assert (0 <= GARRY_HEADER_SIZE) by discriminate.
  rewrite (read_first_page fd m Ho) by lia. cbn [mbind option_bind].
  rewrite (head_header fd m ps) by lia. by rewrite Hh.
Qed.

Lemma large_file_spec fd ps h :
  f_open fd = true -> GARRY_MAX_PAGE_SIZE <= zlen (f_bytes fd) -> GARRY_HEADER_SIZE <= ps ->
  garry_read_db_header (disk_page fd ps 0) = Some h -> GARRY_MIN_PAGE_SIZE <= page_size h <= GARRY_MAX_PAGE_SIZE ->
  file_page_size fd = Some (page_size h).
Proof.
  intros Ho Hl Hps Hh Hp.
  pose (K x := if decide (x < GARRY_MIN_PAGE_SIZE \/ x > GARRY_MAX_PAGE_SIZE) then GARRY_DEFAULT_PAGE_SIZE else x).
  assert (H56 : GARRY_HEADER_SIZE <= GARRY_MAX_PAGE_SIZE) by discriminate.
  pose proof (read_page_size fd GARRY_MAX_PAGE_SIZE ps h K Ho (conj H56 Hl) Hps Hh) as E.
  assert (EK : K (page_size h) = page_size h) by (unfold K; rewrite decide_False by lia; reflexivity).
  rewrite EK in E. exact E.
Qed.

(** * A new pool *)

Lemma created_pool fd capacity ps p next :
  garry_pool_create fd capacity ps = Some p -> 0 <= capacity -> file_ok ps fd ->
  set_free_list_head (set_next_page p next) (-1) = set_next_page p next /\
  p_capacity p = capacity /\ p_page_size p = ps /\ (forall q, pool_view (set_next_page p next) q = disk_page fd ps q).
Proof.
  intros E Hc Hfd. destruct (pool_create_wf fd capacity ps p E Hc Hfd) as [_ Hnone].
  unfold garry_pool_create in E. repeat case_decide; try discriminate. injection E as <-.
  split; [reflexivity|]. split; [reflexivity|]. split; [reflexivity|]. intros q.
  exact (view_absent _ q (Hnone q)).
Qed.

Lemma create_some fd capacity ps :
  0 < capacity <= GARRY_MAX_POOL_SIZE -> 512 <= ps <= 65536 -> exists p, garry_pool_create fd capacity ps = Some p.
Proof.
  intros Hc Hps. unfold garry_pool_create. rewrite !decide_False by lia. by eexists.
Qed.

(** The next page of a pool of which only the header page is loaded. *)
Lemma ready_seed n pins w p next :
  ready n pins w p -> p_next_page p <= next -> ready n pins w (set_next_page (set_free_list_head p (-1)) next).
Proof.
  intros [[A1 A2 A3 A4 A5 A6] R2 R3 R4 R5 R6 R7 R8 R9 R10] Hn.
  split; cbn [p_slots p_capacity p_page_size p_fd p_next_page p_access_counter p_free_list_head set_next_page set_free_list_head];
    try done; [lia|].
  intros i s Hi Hl. specialize (R9 i s Hi Hl). lia.
Qed.

(** Arrays of [n] elements; the pages of an entry of the table are an array of the
    struct. *)
Definition txn_arrays (n : Z) (act : list Z) (st : list garry_txn_info) : Prop :=
  zlen act = n /\ zlen st = n /\ Forall (fun s => zlen (ti_modified_pages s) = GARRY_MAX_MODIFIED_PAGES) st.

(** Every allocation succeeds, whatever the memory holds. *)
Definition mem_ok (m : open_mem) : Prop :=
  om_engine m = true /\ om_pool m = true /\
  forall n, 0 <= n -> exists act st, om_active m n = Some act /\ om_states m n = Some st /\ txn_arrays n act st.

Lemma txn_arrays_clear n k act st :
  txn_arrays n act st -> 0 <= k <= n ->
  exists act' st', clear_array act 0 k = Some act' /\ clear_array st new_txn_info k = Some st' /\ txn_arrays n act' st'.
Proof.
  intros (Ha & Hs & HF) Hk. unfold clear_array.
  destruct (blit_ok act 0 (replicate (Z.to_nat k) 0)) as (act' & Ea & La); [lia|rewrite zlen_replicate; lia|].
  destruct (blit_split st 0 (replicate (Z.to_nat k) new_txn_info)) as (p & g & q & -> & Hp & Hg & Es); [lia|rewrite zlen_replicate; lia|].
  exists act', (p ++ replicate (Z.to_nat k) new_txn_info ++ q). split; [exact Ea|]. split; [exact Es|].
  split; [lia|]. split; [rewrite !zlen_app in *; lia|]. rewrite !Forall_app in *. destruct HF as (H1 & _ & H2).
  split; [exact H1|]. split; [|exact H2]. apply Forall_replicate. reflexivity.
Qed.

(** The table of a new engine: [malloc], then [memset]. *)
Lemma mem_arrays m k :
  mem_ok m -> 0 <= k ->
  exists act st act' st', malloc_array (om_active m) (k * 64) = Some act /\ malloc_array (om_states m) (k * 64) = Some st /\
    clear_array act 0 k = Some act' /\ clear_array st new_txn_info k = Some st' /\ txn_arrays (k * 64) act' st'.
Proof.
  intros (_ & _ & Hm) Hk. destruct (Hm (k * 64)) as (act & st & Ea & Es & Hl); [lia|].
  destruct (txn_arrays_clear _ k _ _ Hl) as (act' & st' & H); [lia|].
  exists act, st, act', st'. unfold malloc_array. rewrite !decide_True by lia. by split; [|split].
Qed.

(** The table of a new engine is empty. *)
Lemma new_table eng :
  txn_arrays (e_max_txns eng * 64) (e_active_txns eng) (e_txn_states eng) ->
  e_active_count eng = 0 -> 0 <= e_max_txns eng -> is_i32 (e_max_txns eng * 64) -> is_i32 (e_next_txid eng) -> txns_rep eng [].
Proof.
  intros (Ha & Hs & HF) Hc H0 Hm Hn. split; rewrite ?Hc; try assumption.
  - unfold slice. rewrite decide_True by lia. reflexivity.
  - unfold slice. rewrite decide_True by lia. reflexivity.
  - repeat constructor.
  - constructor.
Qed.

(** * Creating a database *)

Record settings_ok (s : garry_engine_settings) : Prop := {
  so_page_size : 512 <= es_page_size s <= 65536;
  so_multiple : Z.rem (es_page_size s) GARRY_MIN_PAGE_SIZE = 0;
  so_pool : 2 <= es_pool_size s <= GARRY_MAX_POOL_SIZE;
  so_max_txns : 0 <= es_max_txns s /\ is_i32 (es_max_txns s * 64);
  so_i32 : Forall is_i32 [es_compression s; es_max_versions s; es_max_key_size s; es_max_subscripts s]
}.

(** The header of the engine describes it. *)
Record header_agrees (eng : garry_engine_handle) : Prop := {
  ha_page_size : page_size (e_header eng) = e_page_size eng;
  ha_compression : db_compression (e_header eng) = e_compression eng;
  ha_max_txns : max_txns (e_header eng) = e_max_txns eng;
  ha_i32 : hdr_i32 (e_header eng)
}.

Lemma created_header s :
  settings_ok s ->
  garry_create_db_header s = DbHeader GARRY_DB_MAGIC GARRY_DB_VERSION (es_page_size s) (es_compression s) 1 (-1) 1
    (es_max_txns s) (es_max_versions s) (es_max_key_size s) (es_max_subscripts s) 0 1 0.
Proof.
  intros [H1 H2 _ _ _]. unfold garry_create_db_header. rewrite decide_True; [done|].
  unfold GARRY_MIN_PAGE_SIZE, GARRY_MAX_PAGE_SIZE in *. split; [lia|]. split; [lia|exact H2].
Qed.

Lemma close_header_i32 h root fl pages next :
  hdr_i32 h -> is_i32 root -> is_i32 fl -> is_i32 pages -> is_i32 next -> hdr_i32 (close_header h root fl pages next).
Proof.
  unfold hdr_i32, hdr_fields, close_header. intros H R F P N. cbn [magic version page_size db_compression root_page
    free_list_head total_pages max_txns max_versions max_key_size max_subscripts btree_flags next_txid] in *.
  repeat match goal with H : Forall _ (_ :: _) |- _ => apply Forall_cons in H as [? H] end.
  repeat (apply Forall_cons; split; [assumption|]). constructor.
Qed.

Lemma created_header_i32 s : settings_ok s -> hdr_i32 (garry_create_db_header s).
Proof.
  intros Hs. rewrite (created_header s Hs). destruct Hs as [H1 _ _ [H4 H5] H6]. unfold hdr_i32, hdr_fields.
  cbn [magic version page_size db_compression root_page
    free_list_head total_pages max_txns max_versions max_key_size max_subscripts btree_flags next_txid].
  repeat match goal with H : Forall _ (_ :: _) |- _ => apply Forall_cons in H as [? H] end.
  assert (is_i32 (es_max_txns s)) by (unfold is_i32 in *; lia).
  repeat (apply Forall_cons; split; [first [assumption|unfold is_i32, GARRY_DB_MAGIC, GARRY_DB_VERSION; lia]|]). constructor.
Qed.

(** What [garry_engine_init] leaves. *)
Record created (n : Z) (s : garry_engine_settings) (wfd : garry_file_descriptor) (eng : garry_engine_handle) : Prop := {
  ce_stored : stored 0 eng [] ∅ [] [1];
  ce_ready : ready n [] [] (e_pool eng);
  ce_header : header_agrees eng;
  ce_page : exists c, garry_read_db_header (pool_view (e_pool eng) GARRY_HEADER_PAGE) = Some (set_checksum (e_header eng) c);
  ce_fields : e_header eng = close_header (garry_create_db_header s) 1 (-1) 2 1;
  ce_disk : forall q, on_disk (e_pool eng) q;
  ce_wal : e_wal eng = WalLog wfd 0;
  ce_capacity : p_capacity (e_pool eng) = es_pool_size s;
  ce_next : p_next_page (e_pool eng) = 2;
  ce_settings : e_page_size eng = es_page_size s /\ e_compression eng = es_compression s /\
    e_max_txns eng = es_max_txns s /\ e_next_txid eng = 1;
  ce_locks : e_lock_mgr eng = garry_create_lock_manager
}.

Lemma engine_init_spec os m path s fd wfd n :
  mem_ok m -> os path (GARRY_O_RDWR + GARRY_O_CREAT) = fd -> os (wal_path path) (GARRY_O_RDWR + GARRY_O_CREAT) = wfd ->
  f_open fd = true -> f_tape fd = [] -> f_bytes fd = [] -> f_open wfd = true -> settings_ok s -> 0 <= n < 2 ^ 32 - 20 ->
  exists eng, garry_engine_init os m path s = Some (Opened eng) /\ created n s wfd eng.
Proof.
  intros Hm Hfd Hwfd Ho Ht Hb Hwo Hs Hn. pose proof Hs as [S1 S2 S3 [S4 S5] S6]. unfold garry_engine_init.
  destruct (mem_arrays m _ Hm S4) as (act0 & st0 & act & st & -> & -> & -> & -> & Harr). destruct Hm as (-> & -> & _).
  cbn [negb mbind option_bind]. rewrite Hfd, Hwfd.
  unfold GARRY_MAX_POOL_SIZE in S3.
  assert (Hu : u32 (es_pool_size s) = es_pool_size s /\ u32 (es_page_size s) = es_page_size s).
  { unfold u32. rewrite !Z.mod_small by lia. done. }
  destruct Hu as [-> ->]. set (ps := es_page_size s) in *.
  assert (Hok : file_ok ps fd) by (split; [exact Ho|exact Ht|rewrite Hb; apply Z.divide_0_r]).
  destruct (create_some fd (es_pool_size s) ps) as (p0 & Ep); [unfold GARRY_MAX_POOL_SIZE; lia|lia|]. rewrite Ep.
  destruct (created_pool fd _ ps p0 GARRY_FIRST_PAGE_ID Ep ltac:(lia) Hok) as (-> & Hcap & Hps & Hv).
  pose proof (create_ready fd _ ps GARRY_FIRST_PAGE_ID p0 (n + 2 + 6 + 2) Ep ltac:(lia) Hok ltac:(done) ltac:(lia)) as Hr.
  set (p1 := set_next_page p0 GARRY_FIRST_PAGE_ID) in *.
  assert (Hp1 : p_capacity p1 = es_pool_size s /\ p_page_size p1 = ps /\ p_next_page p1 = 2) by (by split).
  destruct Hp1 as (C1 & P1 & N1). unfold garry_wal_log_init. rewrite Hwo.
  pose proof (created_header s Hs) as Eh. pose proof (created_header_i32 s Hs) as Hi.
  assert (Hroot : root_page (garry_create_db_header s) = 1) by (by rewrite Eh).
  destruct (write_header_ready (n + 2 + 6) [] p1 (garry_create_db_header s) Hr) as (p2 & b2 & c2 & -> & Hr2 & Hu2 & _ & _);
    [lia|rewrite C1; change (zlen (@nil Z)) with 0; lia|lia|exact Hi|rewrite P1; unfold GARRY_HEADER_SIZE; lia|].
  cbn [mbind option_bind]. rewrite Hroot.
  pose proof Hu2 as [C2 P2 N2 V2]. rewrite C1 in C2. rewrite P1 in P2. rewrite N1 in N2.
  destruct (init_root_ready (n + 2) p2 1) as (p3 & b3 & -> & Hr3 & Hu3 & Ha3); try lia; [exact Hr2|
    unfold page_size_ok, GARRY_PAGE_HEADER_SIZE, GARRY_SLOT_SIZE, GARRY_MAX_PAGE_SIZE; lia| |].
  { rewrite V2, decide_False by discriminate. rewrite Hv, P2. apply disk_page_past_end; [lia|]. rewrite Hb.
    change (zlen (@nil Z)) with 0. lia. }
  cbn [mbind option_bind]. pose proof Hu3 as [C3 P3 N3 V3]. rewrite C2 in C3. rewrite P2 in P3. rewrite N2 in N3.
  rewrite (rdy_free _ _ _ _ Hr3), N3.
  assert (Hnx : next_txid (garry_create_db_header s) = 1) by (by rewrite Eh). rewrite Hnx.
  set (h := close_header _ _ _ _ _).
  assert (Hh : hdr_i32 h) by (apply close_header_i32; [exact Hi|unfold is_i32; lia..]).
  destruct (write_header_ready n [] p3 h Hr3) as (p4 & b4 & c4 & -> & Hr4 & Hu4 & Hrd4 & _);
    [lia|rewrite C3; change (zlen (@nil Z)) with 0; lia|lia|exact Hh|rewrite P3; unfold GARRY_HEADER_SIZE; lia|].
  cbn [mbind option_bind]. pose proof Hu4 as [C4 P4 N4 V4]. rewrite C3 in C4. rewrite P3 in P4. rewrite N3 in N4.
  destruct (flush_all_ready n [] p4 Hr4) as (p5 & -> & Hr5 & [C5 P5 N5 V5] & Hd5). cbn [mbind option_bind].
  rewrite C4 in C5. rewrite P4 in P5. rewrite N4 in N5.
  eexists. split; [reflexivity|]. split; cbn [e_pool e_header e_wal e_page_size e_compression e_max_txns e_next_txid].
  - split; cbn [e_pool e_btree_root e_page_size].
    + apply new_table; try reflexivity; [exact Harr|exact S4|exact S5|unfold is_i32; cbn; lia].
    + apply empty_leaf_tree; [|lia]. rewrite P5, <- P2.
      eapply node_at_view; [|exact Ha3]. rewrite V5, V4, decide_False by discriminate. reflexivity.
    + reflexivity.
    + intros k c. by rewrite lookup_empty.
    + intros k c q. by rewrite lookup_empty.
    + intros k1 k2 c1 d2 q _. by rewrite lookup_empty.
    + by rewrite P5.
    + rewrite N5. unfold id_limit, GARRY_PAGE_ID_BIAS. lia.
    + apply empty_apart. lia.
  - exact Hr5.
  - split; cbn [e_header e_page_size e_compression e_max_txns]; [..|exact Hh]; unfold h; cbn; by rewrite Eh.
  - exists c4. rewrite V5, V4, decide_True by done. exact Hrd4.
  - reflexivity.
  - exact Hd5.
  - reflexivity.
  - exact C5.
  - exact N5.
  - done.
  - reflexivity.
Qed.

(** * Opening a database *)

(** The files that a path stands for, and the header on them. *)
Record openable (os : list Z -> Z -> garry_file_descriptor) (path : list Z) (fd wfd : garry_file_descriptor)
    (ps : Z) (h : garry_db_header) : Prop := {
  ob_raw : os path GARRY_O_RDONLY = fd;
  ob_file : os path (GARRY_O_RDWR + GARRY_O_CREAT) = fd;
  ob_log : os (wal_path path) (GARRY_O_RDWR + GARRY_O_CREAT) = wfd;
  ob_log_open : f_open wfd = true;
  ob_ok : file_ok ps fd;
  ob_page_size : 512 <= ps <= 65536;
  ob_header : garry_read_db_header (disk_page fd ps 0) = Some h;
  ob_total : 2 <= total_pages h;
  ob_free : free_list_head h = -1;
  ob_max : 0 <= max_txns h /\ is_i32 (max_txns h * 64);
  ob_next : is_i32 (next_txid h)
}.

(** What is handed to the recovery. *)
Definition engine_from (act : list Z) (st : list garry_txn_info) (h : garry_db_header) (pool : garry_buffer_pool)
  (wfd : garry_file_descriptor) : garry_engine_handle := opened_engine h pool act st (WalLog wfd 0).

Lemma engine_open_eq os m ocs path fd wfd ps h n :
  mem_ok m -> openable os path fd wfd ps h -> file_page_size fd = Some ps -> 0 <= n < 2 ^ 32 - 20 ->
  exists act st pool eng_result, txn_arrays (max_txns h * 64) act st /\
    garry_wal_recover ocs (engine_from act st h pool wfd) = eng_result /\
    garry_engine_open os m ocs path =
      ('(eng, ok) ← eng_result;
       if ok : bool then Some (Opened eng) else
       fd' ← garry_pool_close (e_pool eng);
       Some (NoEngine [garry_file_close fd; fd'; wl_fd (garry_wal_log_close (e_wal eng))])) /\
    ready n [] [] pool /\ p_capacity pool = 256 /\ p_page_size pool = ps /\ p_next_page pool = total_pages h /\
    forall q, pool_view pool q = disk_page fd ps q.
Proof.
  intros Hm [O1 O2 O3 O4 O5 O6 O8 O9 O10 O11 O12] O7 Hn. unfold garry_engine_open.
  destruct (mem_arrays m _ Hm (proj1 O11)) as (act0 & st0 & act & st & E1 & E2 & E3 & E4' & Harr). destruct Hm as (-> & -> & _).
  cbn [negb]. rewrite O1, O2, O3, (fo_open _ _ O5). cbn [negb].
  rewrite O7. cbn [mbind option_bind].
  assert (Hu : u32 (es_pool_size garry_default_engine_settings) = 256 /\ u32 ps = ps).
  { unfold u32. split; [reflexivity|]. rewrite Z.mod_small by lia. done. }
  destruct Hu as [-> ->]. destruct (create_some fd 256 ps) as (p0 & Ep); [unfold GARRY_MAX_POOL_SIZE; lia|lia|]. rewrite Ep.
  destruct (created_pool fd 256 ps p0 GARRY_FIRST_PAGE_ID Ep ltac:(lia) O5) as (-> & Hcap & Hps & Hv).
  pose proof (create_ready fd 256 ps GARRY_FIRST_PAGE_ID p0 (n + 2) Ep ltac:(lia) O5 ltac:(done) ltac:(lia)) as Hr.
  set (p1 := set_next_page p0 GARRY_FIRST_PAGE_ID) in *.
  assert (Hp1 : p_capacity p1 = 256 /\ p_page_size p1 = ps /\ p_next_page p1 = 2) by (by split).
  destruct Hp1 as (C1 & P1 & N1).
  destruct (pin_page_ready n [] [] p1 GARRY_HEADER_PAGE Hr) as (p2 & i & -> & Hr2 & [C2 P2 N2 V2] & _ & Hf2 & Hp2);
    [lia|rewrite C1; change (zlen (@nil Z)) with 0; lia|unfold GARRY_HEADER_PAGE; lia|].
  cbn [mbind option_bind]. rewrite Hp2. cbn [mbind option_bind]. rewrite Hv. unfold GARRY_HEADER_PAGE in *. rewrite O8.
  cbn [mbind option_bind]. rewrite O10.
  pose proof (ready_seed n [0] [] p2 (total_pages h) Hr2) as Hr3. rewrite N2, N1 in Hr3. specialize (Hr3 O9).
  set (p3 := set_next_page (set_free_list_head p2 (-1)) (total_pages h)) in *.
  assert (Hp3 : p_capacity p3 = 256 /\ p_page_size p3 = ps /\ p_next_page p3 = total_pages h /\ forall q, pool_view p3 q = disk_page fd ps q).
  { split; [exact (eq_trans C2 C1)|]. split; [exact (eq_trans P2 P1)|]. split; [reflexivity|].
    intros q. exact (eq_trans (V2 q) (Hv q)). }
  destruct Hp3 as (C3 & P3 & N3 & V3).
  destruct (release_ready n 0 [] [] p3 Hr3 (not_elem_of_nil _)) as (p4 & E4 & Hr4 & [C4 P4 N4 V4] & _).
  rewrite E4. cbn [mbind option_bind]. rewrite E1, E2, E3. cbn [mbind option_bind]. rewrite E4'. cbn [mbind option_bind].
  unfold garry_wal_log_init. rewrite O4.
  exists act, st, p4, (garry_wal_recover ocs (engine_from act st h p4 wfd)). split; [exact Harr|]. split; [reflexivity|]. split; [reflexivity|].
  split; [exact Hr4|]. split; [by rewrite C4|]. split; [by rewrite P4|]. split; [by rewrite N4|].
  intros q. by rewrite V4.
Qed.

(** * Closing and opening again *)

(** The header that a clean shutdown writes. *)
Definition closing_header (eng : garry_engine_handle) : garry_db_header :=
  close_header (e_header eng) (e_btree_root eng) (-1) (p_next_page (e_pool eng)) (e_next_txid eng).

(** A descriptor of the file that was closed. *)
Definition reopened (fd : garry_file_descriptor) : garry_file_descriptor := File (f_bytes fd) 0 true [].

Lemma storage_close_spec eng n :
  ready (n + 4) [] [] (e_pool eng) -> 0 <= n -> 0 < p_capacity (e_pool eng) -> header_agrees eng ->
  0 < p_next_page (e_pool eng) <= id_limit -> is_i32 (e_btree_root eng) -> is_i32 (e_next_txid eng) ->
  GARRY_HEADER_SIZE <= p_page_size (e_pool eng) ->
  exists fd wal c, garry_storage_close eng = Some (fd, wal) /\ f_bytes (wl_fd wal) = f_bytes (wl_fd (e_wal eng)) /\
    (p_page_size (e_pool eng) | zlen (f_bytes fd)) /\
    garry_read_db_header (disk_page fd (p_page_size (e_pool eng)) 0) = Some (set_checksum (closing_header eng) c) /\
    forall q, q <> 0 -> disk_page fd (p_page_size (e_pool eng)) q = pool_view (e_pool eng) q.
Proof.
  intros Hr Hn Hc Hag Hnx Hroot Htx Hps. unfold garry_storage_close, garry_engine_close.
  set (p := e_pool eng) in *. unfold id_limit, GARRY_PAGE_ID_BIAS in Hnx.
  pose proof (ha_i32 _ Hag) as Hi.
  assert (Hfl : is_i32 (free_list_head (e_header eng))).
  { unfold hdr_i32, hdr_fields in Hi. rewrite Forall_forall in Hi. apply Hi. do 5 right. left. }
  set (h1 := close_header (e_header eng) (e_btree_root eng) (free_list_head (e_header eng)) (p_next_page p) (e_next_txid eng)).
  assert (H1 : hdr_i32 h1) by (apply close_header_i32; try assumption; unfold is_i32; lia).
  destruct (write_header_ready (n + 2) [] p h1) as (p1 & b1 & c1 & -> & Hr1 & [C1 P1 N1 V1] & _ & _);
    [by replace (n + 2 + 2) with (n + 4) by lia|lia|exact Hc|lia|exact H1|exact Hps|].
  cbn [mbind option_bind e_header e_pool e_next_txid e_wal set_wal set_header set_pool].
  rewrite (rdy_free _ _ _ _ Hr1), N1.
  assert (Eh : close_header h1 (root_page h1) (-1) (p_next_page p) (e_next_txid eng) = closing_header eng) by reflexivity.
  rewrite Eh. assert (H2 : hdr_i32 (closing_header eng)) by (apply close_header_i32; fold p; try assumption; unfold is_i32; lia).
  destruct (write_header_ready n [] p1 (closing_header eng)) as (p2 & b2 & c2 & -> & Hr2 & [C2 P2 N2 V2] & Hrd & _);
    [exact Hr1|lia|by rewrite C1|by rewrite N1; lia|exact H2|by rewrite P1|].
  cbn [mbind option_bind]. destruct (flush_all_ready n [] p2 Hr2) as (p3 & -> & Hr3 & [C3 P3 N3 V3] & _).
  cbn [mbind option_bind].
  destruct (close_spec p3 (rdy_wf _ _ _ _ Hr3) (ready_settled _ _ _ Hr3)) as (fd & -> & _ & Hal & Hd).
  cbn [mbind option_bind]. rewrite P3, P2, P1 in Hal, Hd.
  exists fd, (garry_wal_log_close (garry_wal_log_flush (e_wal eng))), c2. split; [reflexivity|]. split.
  { unfold garry_wal_log_close, garry_wal_log_flush. destruct (e_wal eng) as [w l]. cbn [wl_fd]. destruct (f_open w) eqn:Ew; cbn [wl_fd];
      unfold garry_file_sync; rewrite Ew; reflexivity. }
  split; [exact Hal|]. split.
  - rewrite Hd, V3, V2, decide_True by done. exact Hrd.
  - intros q Hq. rewrite Hd, V3, V2, decide_False by exact Hq. by rewrite V1, decide_False by exact Hq.
Qed.

(** The pages of the store are the same on the disk. *)
Lemma stored_from_disk h eng ts C m fp act st h0 pool wfd :
  stored h eng ts C m fp ->
  p_page_size pool = p_page_size (e_pool eng) -> p_next_page pool = p_next_page (e_pool eng) ->
  (forall q, q <> 0 -> pool_view pool q = pool_view (e_pool eng) q) ->
  page_size h0 = e_page_size eng -> root_page h0 = e_btree_root eng ->
  0 <= max_txns h0 -> is_i32 (max_txns h0 * 64) -> is_i32 (next_txid h0) ->
  txn_arrays (max_txns h0 * 64) act st -> stored h (engine_from act st h0 pool wfd) [] C m fp.
Proof.
  intros [S1 [T1 T2 T3 T4] S3 S4 S5 S6 S7 S8 [Hfp HC]] Hps Hnx Hv Hsz Hroot Hm0 Hm Htx Harr.
  split; cbn [e_pool e_btree_root e_page_size engine_from opened_engine].
  - apply new_table; try reflexivity; [exact Harr|exact Hm0|exact Hm|exact Htx].
  - assert (Hv' : forall q, q ∈ fp -> pool_view pool q = pool_view (e_pool eng) q)
      by (intros q Hq; apply Hv; intros ->; by apply Hfp).
    rewrite Hroot. split; [|exact T2|by rewrite Hnx|]; rewrite Hps; [by eapply tree_frame|by rewrite (leaf_seq_view _ (pool_view (e_pool eng)))].
  - exact S3.
  - intros k c Hc. specialize (S4 k c Hc). eapply chain_at_frame; [exact S4|exact Hps|rewrite Hnx; lia|].
    intros q Hq. apply Hv. intros ->. apply (HC k c Hc). unfold pages_of. by rewrite elem_of_cons.
  - exact S5.
  - exact S6.
  - by rewrite Hsz, Hps.
  - by rewrite Hnx.
  - by split.
Qed.

(** The three calls of [open] find the files that were closed. *)
Definition finds (os : list Z -> Z -> garry_file_descriptor) (path : list Z) (fd wfd : garry_file_descriptor) : Prop :=
  os path GARRY_O_RDONLY = reopened fd /\ os path (GARRY_O_RDWR + GARRY_O_CREAT) = reopened fd /\
  os (wal_path path) (GARRY_O_RDWR + GARRY_O_CREAT) = reopened wfd.

(** Opening chooses the page size of the database. *)
Definition size_found (ps : Z) (fd : garry_file_descriptor) : Prop :=
  ps = GARRY_DEFAULT_PAGE_SIZE \/ GARRY_MAX_PAGE_SIZE <= zlen (f_bytes fd).

Lemma found_page_size fd ps h :
  size_found ps fd -> 512 <= ps <= GARRY_MAX_PAGE_SIZE -> garry_read_db_header (disk_page (reopened fd) ps 0) = Some h ->
  page_size h = ps -> file_page_size (reopened fd) = Some ps.
Proof.
  intros Hf Hps Hh He. destruct (decide (GARRY_MAX_PAGE_SIZE <= zlen (f_bytes fd))) as [Hl|Hl].
  - rewrite <- He. apply (large_file_spec (reopened fd) ps h); [reflexivity|exact Hl|unfold GARRY_HEADER_SIZE; lia|exact Hh|].
    rewrite He. unfold GARRY_MIN_PAGE_SIZE. exact Hps.
  - destruct Hf as [->|Hf]; [|contradiction]. apply small_file_spec. cbn [reopened f_bytes]. lia.
Qed.

(** Opening has the memory, the fuel and the page ids for the [N] records of the log. *)
Record can_reopen (ocs : recovery_outcomes) (h : nat) (n : Z) (N : nat) (eng : garry_engine_handle) : Prop := {
  cp_budget : 0 <= n /\ n + Z.of_nat N * round_cost (h + N) < 2 ^ 32 - 20;
  cp_ids : p_next_page (e_pool eng) + Z.of_nat N * (Z.of_nat h + Z.of_nat N + 3) <= id_limit;
  cp_page_size : 512 <= e_page_size eng <= GARRY_MAX_PAGE_SIZE;
  cp_inline : garry_chain_inline_capacity (e_page_size eng) <= 16370;
  cp_plain : e_compression eng <> GARRY_COMPRESS_LZ4;
  cp_memory : forall i q, oc_split (ocs i) q = true;
  cp_fuel : forall i, (h + N < oc_fuel (ocs i))%nat;
  cp_max_txns : 0 <= e_max_txns eng;
  cp_header : header_agrees eng;
  cp_commits : forall c, rc_commits ocs c = true
}.

(** Files that hold the pages and the log of [eng] under a header that describes it. *)
Record on_files (eng : garry_engine_handle) (fd wfd : garry_file_descriptor) : Prop := {
  of_aligned : (e_page_size eng | zlen (f_bytes fd));
  of_header : exists c, garry_read_db_header (disk_page fd (e_page_size eng) 0) = Some (set_checksum (closing_header eng) c);
  of_pages : forall q, q <> 0 -> disk_page fd (e_page_size eng) q = pool_view (e_pool eng) q;
  of_log : f_bytes wfd = f_bytes (wl_fd (e_wal eng))
}.

Lemma reopen_spec os m ocs path h eng ts C mm fp fd wfd rs ops n :
  stored h eng ts C mm fp -> on_files eng fd wfd -> size_found (e_page_size eng) fd ->
  finds os path fd wfd -> mem_ok m -> can_reopen ocs h n (length rs) eng -> log_holds eng rs ops ->
  exists eng0, garry_engine_open os m ocs path =
      ('(eng', ok) ← garry_wal_recover ocs eng0;
       if ok : bool then Some (Opened eng') else
       fd' ← garry_pool_close (e_pool eng');
       Some (NoEngine [garry_file_close (reopened fd); fd'; wl_fd (garry_wal_log_close (e_wal eng'))])) /\
    store h eng0 [] C /\ log_holds eng0 rs ops /\ can_recover ocs h n (length rs) eng0 /\
    e_page_size eng0 = e_page_size eng /\ e_compression eng0 = e_compression eng /\ e_next_txid eng0 = e_next_txid eng /\
    e_max_txns eng0 = e_max_txns eng.
Proof.
  intros Hs [F1 [c F2] F3 F4] Hsz (O1 & O2 & O3) Hm [P0 P2 P3 P4 P5 P6 P7 P8 [A1 A2 A3 A4] P9] [L1 L2 L3 L4 L5].
  set (h0 := set_checksum (closing_header eng) c) in *.
  assert (Hh0 : page_size h0 = e_page_size eng /\ db_compression h0 = e_compression eng /\ max_txns h0 = e_max_txns eng /\
    root_page h0 = e_btree_root eng /\ total_pages h0 = p_next_page (e_pool eng) /\ next_txid h0 = e_next_txid eng /\ free_list_head h0 = -1).
  { split; [exact A1|]. split; [exact A2|]. split; [exact A3|]. done. }
  destruct Hh0 as (B1 & B2 & B3 & B4 & B5 & B6 & B7).
  pose proof (sd_page_size _ _ _ _ _ _ Hs) as Eps. pose proof (sd_txns _ _ _ _ _ _ Hs) as Ht. pose proof (stored_next _ _ _ _ _ _ Hs) as P1.
  assert (Hd : forall q, disk_page (reopened fd) (e_page_size eng) q = disk_page fd (e_page_size eng) q) by done.
  destruct (engine_open_eq os m ocs path (reopened fd) (reopened wfd) (e_page_size eng) h0
    (n + Z.of_nat (length rs) * round_cost (h + length rs)) Hm) as (act & st & pool & r & Harr & Er & E & Hr & Hc & Hps & Hnx & Hv).
  - split; try assumption; try reflexivity.
    + split; [reflexivity|reflexivity|exact F1].
    + rewrite B3. split; [exact P8|exact (tr_max _ _ Ht)].
    + rewrite B6. exact (tr_next _ _ Ht).
  - apply (found_page_size fd (e_page_size eng) h0); [exact Hsz|exact P3|by rewrite Hd|exact B1].
  - pose proof (round_cost_mono (h + length rs) (h + length rs) ltac:(lia)). nia.
  - exists (engine_from act st h0 pool (reopened wfd)). rewrite Er, E. split; [reflexivity|].
    cbn [e_page_size e_compression e_next_txid e_max_txns e_pool e_wal engine_from opened_engine].
    split; [|split; [|split; [|by split; [|split; [|split]]]]].
    + exists mm, fp. apply (stored_from_disk h eng ts); try assumption.
      * by rewrite Hps.
      * intros q Hq. by rewrite Hv, Hd, F3.
      * by rewrite B3.
      * rewrite B3. exact (tr_max _ _ Ht).
      * rewrite B6. exact (tr_next _ _ Ht).
    + split; cbn [e_page_size e_wal engine_from opened_engine wl_fd reopened f_open f_bytes]; try assumption; try reflexivity.
      * by rewrite B1.
      * by rewrite F4.
    + split; cbn [e_page_size e_pool e_compression engine_from opened_engine]; rewrite ?B1, ?B2, ?Hc, ?Hnx, ?B5; try assumption; lia.
Qed.

(** Closing leaves such files. *)
Lemma close_files h eng ts C mm fp n :
  stored h eng ts C mm fp -> ready (n + 4) [] [] (e_pool eng) -> 0 <= n -> 0 < p_capacity (e_pool eng) ->
  header_agrees eng -> 512 <= e_page_size eng ->
  exists fd wal, garry_storage_close eng = Some (fd, wal) /\ on_files eng fd (wl_fd wal).
Proof.
  intros Hs Hr Hn Hc Hag Hps. pose proof (sd_page_size _ _ _ _ _ _ Hs) as Eps. pose proof (stored_next _ _ _ _ _ _ Hs) as Hnx.
  pose proof (sd_ids _ _ _ _ _ _ Hs) as Hids. pose proof (sd_tree _ _ _ _ _ _ Hs) as [T1 T2 T3 T4].
  destruct (tree_root _ _ _ _ _ _ T1) as (f & Ef). rewrite Ef in T3. apply Forall_cons in T3 as [Hroot _].
  destruct (storage_close_spec eng n Hr Hn Hc Hag) as (fd & wal & c & E & Hb & Hal & Hh & Hd).
  - lia.
  - unfold id_limit, GARRY_PAGE_ID_BIAS in Hids. unfold is_i32. lia.
  - exact (tr_next _ _ (sd_txns _ _ _ _ _ _ Hs)).
  - rewrite <- Eps. unfold GARRY_HEADER_SIZE. lia.
  - exists fd, wal. split; [exact E|]. rewrite <- Eps in Hal, Hh, Hd. split; [exact Hal|by exists c|exact Hd|exact Hb].
Qed.

(** What a transaction reads after the database was closed and opened again is the
    newest version of the key's chain, whatever became of the transaction that wrote
    it, if the log has no committed deletion of the key. *)
Lemma reopen_reads m ocs oc h eng ts C rs ops n k q cells t v pages key klen result
  (Hs : store h eng ts C) (Hr : ready 4 [] [] (e_pool eng)) (Hc : 0 < p_capacity (e_pool eng))
  (Hm : mem_ok m) (Hcp : can_reopen ocs h n (length rs) eng) (Hlog : log_holds eng rs ops)
  (Hk : C !! k = Some (q, cells ++ [Cell t (Some v) pages])) (Ht : t < e_next_txid eng)
  (Hd : forall t', Del t' k ∈ ops -> (t' ∉ commits rs))
  (Hmax : 0 < e_max_txns eng) (Hnx : next_after eng rs < 2 ^ 31 - 1) (Hkey : key_arg (e_page_size eng) key klen k)
  (Hf : (h + length rs < oc_fuel oc)%nat) (Hmr : reads_ok oc)
  (Hn : 2 * (Z.of_nat h + Z.of_nat (length rs) + 1) + get_cost (cells ++ [Cell t (Some v) pages]) <= n)
  (Hv : zlen v < 2 ^ 31) (Hres : zlen v <= zlen result) :
  exists fd wal, garry_storage_close eng = Some (fd, wal) /\ forall os path,
    finds os path fd (wl_fd wal) -> size_found (e_page_size eng) fd ->
    exists eng' eng1 r eng2 out, garry_storage_open os m ocs (Some path) = Some (Opened eng') /\
      garry_storage_begin eng' = Some (eng1, r) /\
      garry_storage_get oc eng1 r key klen (Some result) = Some (eng2, Some (Some out, zlen v)) /\ slice out 0 (zlen v) = Some v.
Proof.
  destruct Hs as (mm & fp & Hs). pose proof Hcp as [P0 P2 P3 P4 P5 P6 P7 P8 P9].
  destruct (close_files h eng ts C mm fp 0 Hs Hr ltac:(lia) Hc P9 ltac:(lia)) as (fd & wal & E & Hfi).
  exists fd, wal. split; [exact E|]. intros os path Hfo Hsz. unfold garry_storage_open, garry_storage_begin.
  destruct (reopen_spec os m ocs path h eng ts C mm fp fd (wl_fd wal) rs ops n) as (eng0 & -> & Hs0 & Hl0 & Hc0 & Eps & Eco & Enx & Emx);
    try assumption.
  assert (Hna : next_after eng0 rs = next_after eng rs) by (unfold next_after; by rewrite Enx).
  destruct (get_recovered ocs oc h n eng0 C rs ops key klen k (Some result) Hs0 Hl0 Hc0)
    as (eng' & eng1 & r & h' & C' & E' & E1 & Er & Hrep & Hh & Hget); [by rewrite Emx|by rewrite Hna|by rewrite Eps|exact Hf|exact Hmr|].
  rewrite E'. cbn [mbind option_bind].
  pose proof (replayed_all_kept _ _ ops C C' k _ Hrep Hk Hd) as Hk'.
  destruct Hget as (eng2 & E2); [unfold read_cost; rewrite Hk'; cbn [snd]; lia|].
  unfold visible_value in E2. rewrite Hk' in E2. cbn [mbind option_bind snd map ti_txid] in E2.
  rewrite last_cell_visible in E2.
  2: { rewrite Er, Hna. destruct (bump_next_spec (commits rs) (e_next_txid eng)) as [Hle _]. unfold next_after. lia. }
  destruct (plain_delivers oc (e_compression eng0) v result) as (out & Ed & Ho); [by rewrite Eco|exact Hv|exact Hres|].
  rewrite Ed in E2. exists eng', eng1, r, eng2, out. by split.
Qed.

(** * A set, the end of its transaction, and a reopen *)

(** The conditions on an engine for a small value set in it, and ended by a commit or
    a rollback, to be read after closing and opening: room, memory and fuel, and no
    committed deletion of the key in the log. *)
Record can_survive (ocs : recovery_outcomes) (oc : outcomes) (h : nat) (n : Z) (eng : garry_engine_handle) (C : chains)
    (txn : Z) (k : list Z) (vlen : Z) (rs : list garry_wal_record) (ops : list log_op) (result : list Z) : Prop := {
  cx_log : log_holds eng rs ops;
  cx_whole : f_bytes (wl_fd (e_wal eng)) = concat (map encode_record rs);
  cx_lsn : wl_last_lsn (e_wal eng) + 3 < 2 ^ 31;
  cx_small : vlen <= 256 /\ vlen <= zlen result;
  cx_plain : e_compression eng <> GARRY_COMPRESS_LZ4;
  cx_txn : txn < e_next_txid eng;
  cx_deleted : forall t, Del t k ∈ ops -> t ∉ commits rs ++ [txn];
  cx_next : next_after eng rs < 2 ^ 31 - 1;
  cx_max : 0 < e_max_txns eng;
  cx_budget : 0 <= n /\ n + Z.of_nat (length rs + 2) * round_cost (S h + (length rs + 2)) < 2 ^ 32 - 20;
  cx_ids : p_next_page (e_pool eng) + Z.of_nat h + 3
    + Z.of_nat (length rs + 2) * (Z.of_nat (S h) + Z.of_nat (length rs + 2) + 3) <= id_limit;
  cx_page_size : 512 <= e_page_size eng <= GARRY_MAX_PAGE_SIZE;
  cx_memory : forall i q, oc_split (ocs i) q = true;
  cx_fuel : (forall i, (S h + (length rs + 2) < oc_fuel (ocs i))%nat) /\ (S h + (length rs + 2) < oc_fuel oc)%nat;
  cx_read : 2 * (Z.of_nat (S h) + Z.of_nat (length rs + 2) + 1)
    + match C !! k with Some c => get_cost c.2 | None => 2 end <= n;
  cx_header : header_agrees eng;
  cx_commits : forall c, rc_commits ocs c = true
}.

Lemma commits_snoc2 rs r1 r2 : commits (rs ++ [r1; r2]) = commits rs ++ commits [r1; r2].
Proof. unfold commits. by rewrite filter_app, map_app. Qed.

Lemma key_arg_self ps key klen k : key_arg ps key klen k -> key_arg ps k (zlen k) k.
Proof.
  intros [K1 K2 K3 K4 K5]. pose proof (slice_is_Some _ _ _ _ K1) as (_ & _ & _ & Hz).
  split; [by apply slice_all|lia|exact K3|exact K4|exact K5].
Qed.

Lemma bump_below next ts : Forall (fun t => t < next) ts -> fold_left bump_next ts next = next.
Proof.
  induction 1 as [|t ts Ht _ IH]; [done|]. cbn [fold_left]. unfold bump_next at 2. rewrite decide_False by lia. exact IH.
Qed.

Section Ended.
Context (m : open_mem) (ocs : recovery_outcomes) (oc : outcomes) (h : nat) (n n' : Z) (eng : garry_engine_handle)
  (ts : list garry_txn_info) (C : chains) (txn : Z) (key : list Z) (klen : Z) (k value : list Z) (vlen : Z)
  (v src : list Z) (len : Z) (b : list Z) (mgr : garry_lock_manager) (rs : list garry_wal_record) (ops : list log_op)
  (result : list Z).
Hypothesis Hset : can_store oc h n [] eng ts C txn key klen k value vlen v src len b mgr.
Hypothesis Hcx : can_survive ocs oc h n' eng C txn k vlen rs ops result.
Hypothesis Hm : mem_ok m.
Hypothesis Hn4 : 4 <= n.

Lemma ended_log eng' h' c pages ts2 rend eng2 :
  set_done h n [] eng ts C txn k v b len mgr eng' true h' c pages ->
  ended h' n [] eng' ts2 (<[k := (c.1, c.2 ++ [Cell txn (Some b) pages])]> C) rend eng2 ->
  rend = commit_record txn \/ rend = abort_record txn ->
  exists rec, log_holds eng2 (rs ++ [rec; rend]) (ops ++ [Put txn k v; Skip]) /\
    next_after eng2 (rs ++ [rec; rend]) = next_after eng rs /\
    commits (rs ++ [rec; rend]) = commits rs ++ commits [rec; rend] /\ Forall (fun t => t = txn) (commits [rec; rend]).
Proof.
  intros [D1 D2 D3 D4 D5 D6 D7 D8 D9 D10 (rec & Hro & Hrec & D11) [Dl Dr] [I1 I2 I3] Dp _] [N1 N2 N3 N4 [Nl Nr] N6 N7 [J1 J2 J3]] Hend.
  destruct Hset as [S1 S2 S3 S4 S5 S6 S7 S8 S9 S10 S11 S12 S13 S14 S15 S16 S17 [_ S18]].
  destruct Hcx as [[L1 L2 L3 L4 (tail & L5 & L6)] X2 X3 [X4 X4'] X5 X6 X7 X8 X9 [X10 X10'] X11 X12 X13 [X14 X14'] X15 [A1 A2 A3 A4] X16].
  destruct (pl_plain _ _ _ _ _ _ _ S7 X5) as [-> ->]. pose proof (pl_bytes _ _ _ _ _ _ _ S7) as Hb. rewrite S5 in Hb. injection Hb as <-.
  pose proof (slice_is_Some _ _ _ _ S5) as (_ & Hv0 & _ & Hvz).
  assert (Hrend : record_ok rend /\ wr_txid rend = txn /\ wr_kind rend <> GARRY_WAL_UPDATE /\ wr_kind rend <> GARRY_WAL_DELETE)
    by (destruct Hend as [-> | ->]; (split; [by apply blank_record_ok|by split])).
  destruct Hrend as (Re1 & Re2 & Re3 & Re4).
  assert (Eps : e_page_size eng2 = e_page_size eng) by (by rewrite N7).
  assert (Hlog : log_holds eng2 (rs ++ [rec; rend]) (ops ++ [Put txn k v; Skip])).
  { split.
    - rewrite Eps. apply Forall2_app; [exact L1|]. constructor; [|constructor; [|constructor]].
      + apply logged_put; [exact Hrec|lia|by eapply key_arg_self].
      + by apply logged_skip.
    - apply Forall_app. split; [exact L2|]. constructor; [exact Hro|]. constructor; [exact Re1|constructor].
    - apply Forall_app. split; [exact L3|].
      assert (Ht : is_i32 (txn + 1)).
      { destruct (bump_next_spec (commits rs) (e_next_txid eng)) as [Hle _]. unfold next_after in X8. unfold is_i32 in *. lia. }
      constructor; [by rewrite (ur_txid _ _ _ _ Hrec)|]. constructor; [by rewrite Re2|constructor].
    - apply Nr. rewrite Nl, Dl. lia.
    - exists []. split; [|done]. rewrite N4, D11, X2, app_nil_r, map_app, concat_app. cbn [map concat].
      by rewrite app_nil_r, <- app_assoc. }
  assert (Hcom : commits (rs ++ [rec; rend]) = commits rs ++ commits [rec; rend] /\ Forall (fun t => t = txn) (commits [rec; rend])).
  { split; [apply commits_snoc2|]. apply Forall_forall. intros t (r & -> & [_ Hin]%list_elem_of_filter)%list_elem_of_fmap.
    apply elem_of_cons in Hin as [->|Hin]; [apply Hrec|]. apply list_elem_of_singleton in Hin as ->. exact Re2. }
  destruct Hcom as [Ecom Hcom].
  assert (Enx : next_after eng2 (rs ++ [rec; rend]) = next_after eng rs).
  { unfold next_after. rewrite Ecom, fold_left_app, J3, I3. apply bump_below. eapply Forall_impl; [exact Hcom|].
    intros t ->. destruct (bump_next_spec (commits rs) (e_next_txid eng)) as [Hle _]. lia. }
  exists rec. by split.
Qed.

Lemma ended_reopen eng' h' c pages ts2 rend eng2 :
  set_done h n [] eng ts C txn k v b len mgr eng' true h' c pages ->
  ended h' n [] eng' ts2 (<[k := (c.1, c.2 ++ [Cell txn (Some b) pages])]> C) rend eng2 ->
  rend = commit_record txn \/ rend = abort_record txn ->
  exists fd wal, garry_storage_close eng2 = Some (fd, wal) /\ forall os path,
    finds os path fd (wl_fd wal) -> size_found (e_page_size eng) fd ->
    exists engr eng1 r eng3 out, garry_storage_open os m ocs (Some path) = Some (Opened engr) /\
      garry_storage_begin engr = Some (eng1, r) /\
      garry_storage_get oc eng1 r key klen (Some result) = Some (eng3, Some (Some out, vlen)) /\ slice out 0 vlen = Some v.
Proof.
  intros Hd He Hend. destruct (ended_log eng' h' c pages ts2 rend eng2 Hd He Hend) as (rec & Hlog & Enx & Ecom & Hcom).
  destruct Hd as [D1 D2 D3 D4 D5 D6 D7 D8 D9 D10 _ _ [I1 I2 I3] Dp _]. destruct He as [N1 N2 N3 N4 _ N6 N7 [J1 J2 J3]].
  destruct Hset as [S1 S2 S3 S4 S5 S6 S7 S8 S9 S10 S11 S12 S13 S14 S15 S16 S17 [_ S18]].
  destruct Hcx as [[L1 L2 L3 L4 (tail & L5 & L6)] X2 X3 [X4 X4'] X5 X6 X7 X8 X9 [X10 X10'] X11 X12 X13 [X14 X14'] X15 [A1 A2 A3 A4] X16].
  destruct (pl_plain _ _ _ _ _ _ _ S7 X5) as [-> ->]. pose proof (pl_bytes _ _ _ _ _ _ _ S7) as Hb. rewrite S5 in Hb. injection Hb as <-.
  pose proof (slice_is_Some _ _ _ _ S5) as (_ & Hv0 & _ & Hvz).
  assert (Hsp : set_pages (e_page_size eng) vlen = 0) by (apply small_inline; lia).
  assert (Hlp : log_pages (e_page_size eng) (zlen v) = 0) by (unfold log_pages, WalLog.GARRY_MAX_KEY_SIZE; rewrite decide_False by lia; done).
  assert (Hpg : pages = []) by (destruct pages as [|x pages]; [done|]; rewrite zlen_cons in D4; pose proof (zlen_nonneg pages); lia).
  subst pages.
  assert (Elen : length (rs ++ [rec; rend]) = (length rs + 2)%nat) by (rewrite length_app; reflexivity).
  assert (Eps : e_page_size eng2 = e_page_size eng) by (by rewrite N7).
  destruct N3 as [K1 K2 K3 K4].
  assert (Hcp : can_reopen ocs h' n' (length (rs ++ [rec; rend])) eng2).
  { rewrite Elen. split; rewrite ?Eps, ?N6, ?D9, ?K3.
    - pose proof (round_cost_mono (h' + (length rs + 2)) (S h + (length rs + 2)) ltac:(destruct D1; lia)). nia.
    - rewrite Hsp, Hlp in Dp. destruct D1; nia.
    - exact X12.
    - exact (proj2 S14).
    - exact X5.
    - exact X13.
    - intros i. pose proof (X14 i). destruct D1; lia.
    - rewrite J2, I2. lia.
    - split; rewrite ?J1, ?J2, ?I1, ?I2, ?Eps, ?N6, ?D9; assumption.
    - exact X16. }
  destruct (reopen_reads m ocs oc h' eng2 ts2 _ (rs ++ [rec; rend]) (ops ++ [Put txn k v; Skip]) n' k c.1 c.2 txn v [] key klen result
    N1) as (fd & wal & E & H); try assumption.
  - eapply ready_le; [exact N2|lia].
  - rewrite K1, D7. change (zlen (@nil Z)) with 0 in S11. lia.
  - apply lookup_insert_eq.
  - by rewrite J3, I3.
  - intros t' Hin. rewrite Ecom. intros Hin2. apply elem_of_app in Hin as [Hin|Hin].
    + apply (X7 t' Hin). apply elem_of_app in Hin2 as [?|Hin2]; apply elem_of_app; [by left|right].
      rewrite Forall_forall in Hcom. rewrite (Hcom _ Hin2). by left.
    + repeat (apply elem_of_cons in Hin as [Hin|Hin]; [discriminate Hin|]). exact (not_elem_of_nil _ Hin).
  - rewrite J2, I2. exact X9.
  - by rewrite Enx.
  - by rewrite Eps.
  - rewrite Elen. destruct D1; lia.
  - rewrite Elen. assert (Hg : get_cost (c.2 ++ [Cell txn (Some v) []]) = get_cost c.2)
      by (unfold get_cost; rewrite chain_pages_snoc; cbn [c_pages]; by rewrite app_nil_r).
    rewrite Hg. destruct D2 as [Hc|[Hc Hc2]]; rewrite Hc in X15; [destruct D1; lia|].
    rewrite Hc2. change (get_cost []) with 2. destruct D1; lia.
  - lia.
  - lia.
  - exists fd, wal. split; [exact E|]. intros os path Hf Hsz. rewrite <- Hvz. apply H; [exact Hf|by rewrite Eps].
Qed.
End Ended.

(** * Properties *)

(** C35: creating a database on empty files returns an engine with an empty tree in
    page 1 and an empty table; every page, the header with it, is on the disk
    already; and the header describes the engine. *)
Theorem engine_init_correct os m path s fd wfd n
  (Hm : mem_ok m) (Hfd : os path (GARRY_O_RDWR + GARRY_O_CREAT) = fd)
  (Hwfd : os (wal_path path) (GARRY_O_RDWR + GARRY_O_CREAT) = wfd)
  (Ho : f_open fd = true) (Ht : f_tape fd = []) (Hb : f_bytes fd = []) (Hw : f_open wfd = true)
  (Hs : settings_ok s) (Hn : 0 <= n < 2 ^ 32 - 20) :
  exists eng, garry_storage_init os m (Some path) s = Some (Opened eng) /\ created n s wfd eng.
Proof. by apply (engine_init_spec os m path s fd wfd n). Qed.

(** C11: closing and opening again keeps the store, in a database that does not
    compress and whose log holds values of at most 256 bytes, with no page in
    the middle of a write, whatever its transactions did: the close writes files
    from which the open succeeds; every key's chain is the one that the replay of
    the log's committed records on the old chains gives, and the next transaction id
    is above the old ones.  The pages must have 4096 bytes or the file at least 64
    KiB for the open to find the page size; see [small_database_lost]. *)
Theorem close_open_refines m ocs h eng ts C rs ops n
  (Hs : store h eng ts C) (Hr : ready 4 [] [] (e_pool eng))
  (Hc : 0 < p_capacity (e_pool eng)) (Hm : mem_ok m) (Hcp : can_reopen ocs h n (length rs) eng) (Hlog : log_holds eng rs ops) :
  exists fd wal, garry_storage_close eng = Some (fd, wal) /\ forall os path,
    finds os path fd (wl_fd wal) -> size_found (e_page_size eng) fd ->
    exists eng' h' C', garry_storage_open os m ocs (Some path) = Some (Opened eng') /\ store h' eng' [] C' /\
      replayed_all (e_page_size eng) (commits rs) ops C C' /\ ready n [] [] (e_pool eng') /\
      Forall (fun t => t < e_next_txid eng') (commits rs) /\ e_next_txid eng <= e_next_txid eng'.
Proof.
  destruct Hs as (mm & fp & Hs). pose proof Hcp as [P0 P2 P3 P4 P5 P6 P7 P8 P9].
  destruct (close_files h eng ts C mm fp 0 Hs Hr ltac:(lia) Hc P9 ltac:(lia)) as (fd & wal & E & Hf).
  exists fd, wal. split; [exact E|]. intros os path Hfi Hsz. unfold garry_storage_open.
  destruct (reopen_spec os m ocs path h eng ts C mm fp fd (wl_fd wal) rs ops n) as (eng0 & -> & Hs0 & Hl0 & Hc0 & Eps & _ & Enx & _);
    try assumption.
  destruct (wal_recover_spec ocs h n eng0 C rs ops Hs0 Hl0 Hc0) as (eng' & h' & C' & -> & [F1 F2 F3 F4 F5]).
  cbn [mbind option_bind]. exists eng', h', C'. split; [reflexivity|]. split; [exact F1|].
  cbn [e_page_size set_next_txid] in F3. rewrite Eps in F3. split; [exact F3|]. split; [exact F4|].
  rewrite (ss_next_txid _ _ F5). cbn [e_next_txid set_wal set_next_txid]. unfold next_after. rewrite Enx.
  destruct (bump_next_spec (commits rs) (e_next_txid eng)). by split.
Qed.

(** A database is durable from its creation, but the log is not new: if the
    process ends right after [garry_engine_init], with nothing closed, opening the
    files as they are then succeeds, and the chains of the database are those that
    the committed records already in the log file give on an empty store.  With an
    empty log file the database is empty; a log left behind by an earlier database of
    the same name is replayed into the new one.  (The page size is the default.) *)
Theorem created_then_crashed os m m' (ocs : recovery_outcomes) path s fd wfd rs ops tail n
  (Hm : mem_ok m) (Hm' : mem_ok m') (Hfd : os path (GARRY_O_RDWR + GARRY_O_CREAT) = fd)
  (Hwfd : os (wal_path path) (GARRY_O_RDWR + GARRY_O_CREAT) = wfd)
  (Ho : f_open fd = true) (Ht : f_tape fd = []) (Hb : f_bytes fd = []) (Hw : f_open wfd = true)
  (Hwb : f_bytes wfd = concat (map encode_record rs) ++ tail) (Htl : zlen tail < 792)
  (Hl : Forall2 (logged GARRY_DEFAULT_PAGE_SIZE) rs ops) (Hrs : Forall record_ok rs)
  (Hti : Forall (fun r => is_i32 (wr_txid r + 1)) rs)
  (Hs : settings_ok s) (Hps : es_page_size s = GARRY_DEFAULT_PAGE_SIZE) (Hc : es_compression s <> GARRY_COMPRESS_LZ4)
  (Hcom : forall c, rc_commits ocs c = true)
  (Hmem : forall i q, oc_split (ocs i) q = true) (Hfuel : forall i, (length rs < oc_fuel (ocs i))%nat)
  (Hn : 0 <= n) (Hbud : n + Z.of_nat (length rs) * round_cost (length rs) < 2 ^ 32 - 20)
  (Hids : 2 + Z.of_nat (length rs) * (Z.of_nat (length rs) + 3) <= id_limit) :
  exists eng, garry_storage_init os m (Some path) s = Some (Opened eng) /\ forall os',
    finds os' path (p_fd (e_pool eng)) (wl_fd (e_wal eng)) ->
    exists eng' h' C', garry_storage_open os' m' ocs (Some path) = Some (Opened eng') /\ store h' eng' [] C' /\
      replayed_all GARRY_DEFAULT_PAGE_SIZE (commits rs) ops ∅ C' /\ Forall (fun t => t < e_next_txid eng') (commits rs).
Proof.
  destruct (engine_init_spec os m path s fd wfd 0 Hm Hfd Hwfd Ho Ht Hb Hw Hs ltac:(lia)) as (eng & E & [C1 C2 C3 [c C4] C5 C6 C7 C8 C9 (D1 & D2 & D3 & D4) C10]).
  exists eng. split; [exact E|]. intros os' Hf. unfold garry_storage_open.
  pose proof (sd_page_size _ _ _ _ _ _ C1) as Eps. rewrite D1, Hps in Eps.
  assert (Hhdr : closing_header eng = e_header eng).
  { unfold closing_header. rewrite C9, D4. rewrite C5 at 1. rewrite C5. f_equal.
    pose proof (bt_tree _ _ _ _ _ (sd_tree _ _ _ _ _ _ C1)) as T. destruct (tree_root _ _ _ _ _ _ T) as (f & [= <- _]). done. }
  assert (Hon : on_files eng (p_fd (e_pool eng)) (wl_fd (e_wal eng))).
  { split; rewrite ?D1, ?Hps, ?Eps; [exact (fo_aligned _ _ (wf_file _ (rdy_wf _ _ _ _ C2)))| |intros q _; apply C6|done].
    exists c. rewrite Hhdr, <- C4. by rewrite <- (C6 GARRY_HEADER_PAGE). }
  assert (Hlog : log_holds eng rs ops).
  { split; [by rewrite D1, Hps|exact Hrs|exact Hti| |]; rewrite C7; [exact Hw|]. by exists tail. }
  assert (Hcp : can_reopen ocs 0 n (length rs) eng).
  { split; rewrite ?D1, ?D2, ?D3, ?C9, ?Hps; try done; unfold GARRY_DEFAULT_PAGE_SIZE, GARRY_MAX_PAGE_SIZE; try lia; apply Hs. }
  destruct (reopen_spec os' m' ocs path 0 eng [] ∅ [] [1] _ _ rs ops n C1 Hon) as (eng0 & -> & Hs0 & Hl0 & Hc0 & Eps0 & _);
    try assumption; [left; by rewrite D1|].
  destruct (wal_recover_spec ocs 0 n eng0 ∅ rs ops Hs0 Hl0 Hc0) as (eng' & h' & C' & -> & [F1 F2 F3 F4 F5]).
  cbn [mbind option_bind]. exists eng', h', C'. split; [reflexivity|]. split; [exact F1|].
  cbn [e_page_size set_next_txid] in F3. rewrite Eps0, D1, Hps in F3. split; [exact F3|].
  rewrite (ss_next_txid _ _ F5). cbn [e_next_txid set_wal set_next_txid]. unfold next_after.
  apply (bump_next_spec (commits rs) (e_next_txid eng0)).
Qed.

(** C10: a committed value of at most 256 bytes outlives the process that wrote it, in a
    database that does not compress, whose log holds values of at most 256 bytes and
    no committed deletion of the key: after a set, the commit of its transaction, and
    the close of the database, opening it again (from a file in which the page size
    is found) succeeds, and the first transaction begun gets exactly the bytes that
    were set.  See [recovery_reapplies_delete] for a log with a deletion. *)
Theorem committed_set_outlives_close m ocs oc h n n' eng ts C txn key klen k value vlen v src len b mgr rs ops result eng'
  (Hset : can_store oc h n [] eng ts C txn key klen k value vlen v src len b mgr)
  (Hcx : can_survive ocs oc h n' eng C txn k vlen rs ops result) (Hm : mem_ok m) (Hn : 4 <= n)
  (E : garry_storage_set oc eng txn key klen (Some value) vlen = Some (eng', true)) :
  exists eng2 fd wal, garry_storage_commit true eng' txn = Some eng2 /\ garry_storage_close eng2 = Some (fd, wal) /\
    forall os path, finds os path fd (wl_fd wal) -> size_found (e_page_size eng) fd ->
    exists engr eng1 r eng3 out, garry_storage_open os m ocs (Some path) = Some (Opened engr) /\
      garry_storage_begin engr = Some (eng1, r) /\
      garry_storage_get oc eng1 r key klen (Some result) = Some (eng3, Some (Some out, vlen)) /\ slice out 0 vlen = Some v.
Proof.
  eapply set_result in E as (h' & c & pages & Hd); [|exact Hset]. pose proof Hd as [_ _ _ _ D5 D6 _ _ _ _ _ [Dl Dr] _ _ _].
  destruct (storage_commit_spec h' n [] eng' _ _ txn D5 D6) as (eng2 & E2 & He & _);
    [apply Dr; pose proof (cx_lsn _ _ _ _ _ _ _ _ _ _ _ _ Hcx); lia|apply Hset|].
  destruct (ended_reopen m ocs oc h n n' eng ts C txn key klen k value vlen v src len b mgr rs ops result Hset Hcx Hm Hn
    eng' h' c pages _ _ eng2 Hd He (or_introl eq_refl)) as (fd & wal & E3 & H).
  exists eng2, fd, wal. split; [exact E2|]. split; [exact E3|exact H].
Qed.

(** C36: closing and opening undoes a rollback: after a set, the rollback of its
    transaction, and the close of the database, the first transaction begun after
    opening it again gets the bytes that were rolled back.  The rollback is only
    recorded in the table of the running process. *)
Theorem reopen_undoes_rollback m ocs oc h n n' eng ts C txn key klen k value vlen v src len b mgr rs ops result eng'
  (Hset : can_store oc h n [] eng ts C txn key klen k value vlen v src len b mgr)
  (Hcx : can_survive ocs oc h n' eng C txn k vlen rs ops result) (Hm : mem_ok m) (Hn : 4 <= n)
  (E : garry_storage_set oc eng txn key klen (Some value) vlen = Some (eng', true)) :
  exists eng2 fd wal, garry_storage_rollback true eng' txn = Some eng2 /\ garry_storage_close eng2 = Some (fd, wal) /\
    forall os path, finds os path fd (wl_fd wal) -> size_found (e_page_size eng) fd ->
    exists engr eng1 r eng3 out, garry_storage_open os m ocs (Some path) = Some (Opened engr) /\
      garry_storage_begin engr = Some (eng1, r) /\
      garry_storage_get oc eng1 r key klen (Some result) = Some (eng3, Some (Some out, vlen)) /\ slice out 0 vlen = Some v.
Proof.
  eapply set_result in E as (h' & c & pages & Hd); [|exact Hset]. pose proof Hd as [_ _ _ _ D5 D6 _ _ _ _ _ [Dl Dr] _ _ _].
  destruct (storage_rollback_spec h' n [] eng' _ _ txn D5 D6) as (eng2 & E2 & He & _);
    [apply Dr; pose proof (cx_lsn _ _ _ _ _ _ _ _ _ _ _ _ Hcx); lia|apply Hset|].
  destruct (ended_reopen m ocs oc h n n' eng ts C txn key klen k value vlen v src len b mgr rs ops result Hset Hcx Hm Hn
    eng' h' c pages _ _ eng2 Hd He (or_intror eq_refl)) as (fd & wal & E3 & H).
  exists eng2, fd, wal. split; [exact E2|]. split; [exact E3|exact H].
Qed.

(** Recovery from an empty log does nothing. *)
Lemma read_empty fd buf n :
  f_open fd = true -> f_bytes fd = [] -> 0 <= f_pos fd -> garry_file_read fd buf n = Some (fd, buf, 0).
Proof.
  intros Ho Hb Hp. unfold garry_file_read, os_pread. rewrite Ho, (decide_False (P := true = false \/ f_pos fd < 0)) by (intros [?|?]; [done|lia]).
  rewrite Hb, drop_nil, take_nil. unfold blit. rewrite decide_True by (split; [lia|apply zlen_nonneg]).
  cbn [mbind option_bind]. change (Z.to_nat 0) with 0%nat. cbn [take app length Nat.add drop].
  change (zlen (@nil Z)) with 0. rewrite Z.add_0_r. unfold set_pos. by destruct fd.
Qed.

Lemma recover_empty ocs eng :
  rc_commits ocs GARRY_MAX_RECOVERY_COMMITTED = true ->
  f_open (wl_fd (e_wal eng)) = true -> f_bytes (wl_fd (e_wal eng)) = [] ->
  exists w, garry_wal_recover ocs eng = Some (set_wal eng w, true).
Proof.
  intros Hcm Ho Hb. unfold garry_wal_recover, collect_committed, garry_file_seek_set. rewrite Hcm, Ho. cbn [negb].
  rewrite (decide_False (P := true = false \/ 0 < 0)) by (intros [?|?]; [done|lia]).
  set (fd := set_pos (wl_fd (e_wal eng)) 0). assert (Hfd : f_open fd = true /\ f_bytes fd = [] /\ 0 <= f_pos fd) by done.
  destruct Hfd as (H1 & H2 & H3). rewrite H2. change (zlen (@nil Z) / GARRY_WAL_RECORD_SIZE) with 0. change (Z.to_nat 0) with 0%nat.
  cbn [collect_loop]. rewrite read_empty by assumption. cbn [mbind option_bind].
  rewrite (decide_True (P := 0 < GARRY_WAL_RECORD_SIZE)) by done. cbn [mbind option_bind wl_fd]. rewrite H1.
  rewrite (decide_False (P := true = false \/ 0 < 0)) by (intros [?|?]; [done|lia]).
  set (fd2 := set_pos fd 0). change (f_bytes fd2) with (f_bytes fd). rewrite H2.
  change (zlen (@nil Z) / GARRY_WAL_RECORD_SIZE) with 0. change (Z.to_nat 0) with 0%nat. cbn [replay_loop wl_fd e_wal set_wal].
  rewrite read_empty by assumption. cbn [mbind option_bind]. rewrite (decide_True (P := 0 < GARRY_WAL_RECORD_SIZE)) by done.
  eexists. by destruct eng.
Qed.

(** A root page of zeros is an internal node without keys: nothing is found. *)
Lemma search_zeros fuel n p root key klen result :
  ready (n + 2) [] [] p -> 0 <= n -> 0 < p_capacity p -> 0 <= root < p_next_page p -> GARRY_PAGE_HEADER_SIZE <= p_page_size p ->
  pool_view p root = zeros (p_page_size p) -> (0 < fuel)%nat ->
  exists p', garry_leaf_find_search fuel p root key klen result = Some (p', None).
Proof.
  intros Hr Hn Hc Hroot Hps Hz Hf. destruct fuel as [|fuel]; [lia|]. cbn [garry_leaf_find_search]. unfold garry_load_node.
  destruct (load_pin_ready n [] [] p root Hr Hn Hc Hroot) as (p1 & i & E & Hr1 & Hk1 & _ & Hp1).
  destruct (garry_pool_try_pin p root) as [[q r]|]; [|discriminate]. cbn [mbind option_bind] in E |- *.
  rewrite E. cbn [mbind option_bind]. rewrite Hp1. cbn [mbind option_bind]. rewrite (kp_page_size _ _ Hk1), Hz.
  destruct (load_page_zeros (p_page_size p) Hps) as [hdr ->]. cbn [mbind option_bind].
  destruct (release_ready n root [] [] p1 Hr1 (not_elem_of_nil _)) as (p2 & -> & _). cbn [mbind option_bind].
  rewrite decide_False by discriminate. rewrite decide_False by (intros H; by apply H). rewrite decide_True by reflexivity. by eexists.
Qed.

(** Opening a file shorter than the largest page (65536 bytes) takes 4096 for the
    page size, whatever its header says, since the short read of the header is
    zeroed: the pages are then read at the wrong offsets.  A database of pages of
    8192 bytes, say, whose root is then the unused second half of its header page,
    opens without an error, and every get fails. *)
Theorem small_database_lost os m ocs path fd wfd h
  (Hm : mem_ok m) (Hcm : rc_commits ocs GARRY_MAX_RECOVERY_COMMITTED = true) (Hop : openable os path fd wfd GARRY_DEFAULT_PAGE_SIZE h)
  (Hl : zlen (f_bytes fd) < GARRY_MAX_PAGE_SIZE) (Hne : page_size h <> GARRY_DEFAULT_PAGE_SIZE)
  (Hroot : 0 <= root_page h < total_pages h)
  (Hz : disk_page fd GARRY_DEFAULT_PAGE_SIZE (root_page h) = zeros GARRY_DEFAULT_PAGE_SIZE)
  (Hw : f_bytes wfd = []) (Hmax : 0 < max_txns h) (Hnx : next_txid h < 2 ^ 31 - 1) :
  exists eng eng1 r, garry_storage_open os m ocs (Some path) = Some (Opened eng) /\
    p_page_size (e_pool eng) = GARRY_DEFAULT_PAGE_SIZE /\ p_page_size (e_pool eng) <> e_page_size eng /\
    garry_storage_begin eng = Some (eng1, r) /\
    forall oc key klen result, (0 < oc_fuel oc)%nat ->
      exists eng2, garry_storage_get oc eng1 r key klen result = Some (eng2, None).
Proof.
  destruct (engine_open_eq os m ocs path fd wfd GARRY_DEFAULT_PAGE_SIZE h 2 Hm Hop (small_file_spec fd Hl) ltac:(lia))
    as (act & st & pool & er & Harr & Er & E & Hr & Hc & Hps & Hnp & Hv).
  unfold garry_storage_open, garry_storage_begin. rewrite E. clear E.
  destruct (recover_empty ocs (engine_from act st h pool wfd)) as (w & Ew);
    [exact Hcm|exact (ob_log_open _ _ _ _ _ _ Hop)|exact Hw|].
  rewrite Ew in Er. subst er. cbn [mbind option_bind]. set (eng := set_wal (engine_from act st h pool wfd) w).
  pose proof (ob_max _ _ _ _ _ _ Hop) as [Hm0 Hmi]. pose proof (ob_next _ _ _ _ _ _ Hop) as Hni.
  assert (Ht : txns_rep eng []) by (apply new_table; try reflexivity; assumption).
  destruct (begin_spec eng [] Ht Hnx) as (eng1 & r & E1 & H1).
  rewrite decide_True in H1 by (split; [exact Hmax|change (zlen (@nil garry_txn_info)) with 0; cbn; lia]).
  destruct H1 as (-> & Hp & _ & _ & pages & Ht1). destruct (begin_fields _ _ _ E1) as (_ & _ & Hroot1). cbn [app] in Ht1.
  exists eng, eng1, (e_next_txid eng). split; [reflexivity|]. split; [exact Hps|].
  split; [intros Heq; apply Hne; exact (eq_trans (eq_sym Heq) Hps)|]. split; [exact E1|].
  intros oc key klen result Hf. unfold garry_storage_get. case_decide; [by eexists|]. case_decide; [by eexists|].
  rewrite (running_active eng1 _ (e_next_txid eng) Ht1).
  2: { eexists. split; [unfold txn_entry; cbn [slot_of ti_txid]; by rewrite decide_True|]. unfold rolled_back. cbn. discriminate. }
  cbn [mbind option_bind negb]. unfold lookup_key. rewrite Hp, Hroot1. cbn [e_pool eng set_wal e_btree_root engine_from opened_engine].
  destruct (search_zeros (oc_fuel oc) 0 pool (root_page h) key klen (zeros GARRY_LOOKUP_BUF_SIZE)) as (p' & ->);
    [exact Hr|lia|lia|by rewrite Hnp|rewrite Hps; done|by rewrite Hv, Hps|exact Hf|].
  cbn [mbind option_bind]. by eexists.
Qed.

(** * Witnesses *)

Definition sample_path : list Z := [100; 98].
Definition sample_os (fd wfd : garry_file_descriptor) (path : list Z) (flags : Z) : garry_file_descriptor :=
  if decide (path = wal_path sample_path) then wfd else fd.
(** Memory that is not clear. *)
Definition sample_mem : open_mem :=
  OpenMem true (fun n => Some (replicate (Z.to_nat n) 90))
    (fun n => Some (replicate (Z.to_nat n) (TxnInfo 90 GARRY_TXN_COMMITTED 90 (replicate 16 90)))) true.

Lemma sample_mem_ok : mem_ok sample_mem.
Proof.
  split; [reflexivity|]. split; [reflexivity|]. intros n Hn. eexists _, _. split; [reflexivity|]. split; [reflexivity|].
  split; [rewrite zlen_replicate; lia|]. split; [rewrite zlen_replicate; lia|]. apply Forall_replicate. reflexivity.
Qed.

Definition sample_settings : garry_engine_settings := EngineSettings 4096 0 4 64 256 16 0 8 16384.
Definition new_file : garry_file_descriptor := File [] 0 true [].

Lemma sample_settings_ok : settings_ok sample_settings.
Proof.
  split; cbn; try reflexivity; try (unfold GARRY_MAX_POOL_SIZE, is_i32; lia).
  repeat (constructor; [unfold is_i32; lia|]). constructor.
Qed.

Lemma engine_init_correct_witness : exists eng,
  garry_storage_init (sample_os new_file new_file) sample_mem (Some sample_path) sample_settings = Some (Opened eng) /\
  created 1000000 sample_settings new_file eng.
Proof.
  apply (engine_init_correct (sample_os new_file new_file) sample_mem sample_path sample_settings new_file new_file 1000000);
    try reflexivity; [exact sample_mem_ok|exact sample_settings_ok|lia].
Defined.

Lemma sample_finds fd wfd : finds (sample_os (reopened fd) (reopened wfd)) sample_path fd wfd.
Proof. by split; [|split]. Qed.

(** The log of an earlier database is still there. *)
Lemma created_then_crashed_witness : exists eng os' eng' h' C' q,
  garry_storage_init (sample_os new_file (wl_fd (sample_wal sample_log))) sample_mem (Some sample_path) sample_settings = Some (Opened eng) /\
  garry_storage_open os' sample_mem sample_ocs (Some sample_path) = Some (Opened eng') /\ store h' eng' [] C' /\
  C' !! [107] = Some (q, [Cell 7 (Some [1]) []]).
Proof.
  destruct (created_then_crashed (sample_os new_file (wl_fd (sample_wal sample_log))) sample_mem sample_mem sample_ocs sample_path
    sample_settings new_file (wl_fd (sample_wal sample_log)) sample_log ([] ++ Put 7 [107] [1] :: [Put 8 [107] [2]; Skip; Skip]) [] 100)
    as (eng & E & H); try reflexivity; [exact sample_mem_ok..| | | | | | | | |].
  - constructor; [apply sample_logged_put; [unfold GARRY_DEFAULT_PAGE_SIZE; lia|unfold is_i32; lia]|].
    constructor; [apply sample_logged_put; [unfold GARRY_DEFAULT_PAGE_SIZE; lia|unfold is_i32; lia]|].
    repeat (constructor; [apply sample_logged_commit|]). constructor.
  - apply (lh_ok _ _ _ sample_log_ok).
  - apply (lh_txids _ _ _ sample_log_ok).
  - exact sample_settings_ok.
  - discriminate.
  - intros i. cbn. lia.
  - lia.
  - vm_compute. discriminate.
  - destruct (H _ (sample_finds _ _)) as (eng' & h' & C' & E' & Hs & Hr & _).
    destruct (first_update_kept _ _ [] [Put 8 [107] [2]; Skip; Skip] ∅ C' 7 [107] [1] Hr) as (q & Hq).
    + reflexivity.
    + vm_compute. left.
    + intros t' v' Hin. exfalso; exact (not_elem_of_nil _ Hin).
    + intros t' Hin. repeat (apply elem_of_cons in Hin as [Hin|Hin]; [discriminate Hin|]). exfalso; exact (not_elem_of_nil _ Hin).
    + exists eng, (sample_os (reopened (p_fd (e_pool eng))) (reopened (wl_fd (e_wal eng)))), eng', h', C', q.
      split; [exact E|]. split; [exact E'|]. split; [exact Hs|exact Hq].
Defined.

(** A new database, with a transaction begun in it. *)
Lemma sample_new : exists eng,
  garry_storage_init (sample_os new_file new_file) sample_mem (Some sample_path) sample_settings = Some (Opened eng) /\
  created 1000000 sample_settings new_file eng.
Proof. apply (engine_init_spec (sample_os new_file new_file) sample_mem sample_path sample_settings new_file new_file); try reflexivity; [exact sample_mem_ok|exact sample_settings_ok|lia]. Qed.

Lemma created_log n s wfd eng :
  created n s wfd eng -> f_open wfd = true -> f_bytes wfd = [] -> log_holds eng [] [].
Proof.
  intros [_ _ _ _ _ _ C7 _ _ _ _] Ho Hb. split; [constructor..| |]; rewrite C7; [exact Ho|]. exists []. by split.
Qed.

Lemma close_open_refines_witness : exists eng fd wal os eng' h',
  garry_storage_close eng = Some (fd, wal) /\ garry_storage_open os sample_mem sample_ocs (Some sample_path) = Some (Opened eng') /\
  store h' eng' [] ∅.
Proof.
  destruct sample_new as (eng & _ & Hc). pose proof Hc as [C1 C2 C3 C4 C5 C6 C7 C8 C9 (D1 & D2 & D3 & D4) C10].
  destruct (close_open_refines sample_mem sample_ocs 0 eng [] ∅ [] [] 100) as (fd & wal & E & H).
  - by exists [], [1].
  - eapply ready_le; [exact C2|lia].
  - rewrite C8. reflexivity.
  - exact sample_mem_ok.
  - split; rewrite ?D1, ?D2, ?D3, ?C9; cbn; try lia; try done; unfold GARRY_COMPRESS_LZ4; try lia;
      unfold GARRY_MAX_PAGE_SIZE, id_limit, GARRY_PAGE_ID_BIAS, garry_chain_inline_capacity, GARRY_PAGE_HEADER_SIZE,
        GARRY_OVERFLOW_PTR_SIZE, GARRY_CHAIN_ENTRY_HEADER_SIZE; try lia.
  - by apply (created_log _ _ _ _ Hc).
  - destruct (H _ _ (sample_finds fd (wl_fd wal))) as (eng' & h' & C' & E' & Hs & Hr & _); [left; by rewrite D1|].
    assert (HC : C' = ∅) by (by inversion Hr). rewrite HC in Hs. exists eng, fd, wal, (sample_os (reopened fd) (reopened (wl_fd wal))), eng', h'.
    split; [exact E|]. split; [exact E'|exact Hs].
Defined.

Lemma begin_keeps eng eng' r :
  garry_mvcc_begin eng = Some (eng', r) ->
  e_wal eng' = e_wal eng /\ e_lock_mgr eng' = e_lock_mgr eng /\ e_header eng' = e_header eng /\ e_max_txns eng' = e_max_txns eng /\
  (r = -1 \/ e_next_txid eng' = r + 1).
Proof.
  unfold garry_mvcc_begin. destruct (forZ _ _ _ _) as [live|]; [|discriminate]. cbn [mbind option_bind].
  case_decide; [intros [= <- <-]; by repeat split; left|]. destruct (ck (e_max_txns eng * 64)) as [cap|]; [|discriminate]. cbn [mbind option_bind].
  case_decide; [intros [= <- <-]; by repeat split; left|].
  unfold ck. case_decide; [|discriminate]. cbn [mbind option_bind]. intros E. inv_bind. repeat split. by right.
Qed.

Definition sample_lock1 : garry_lock_manager :=
  default garry_create_lock_manager
    (fst <$> garry_lock_acquire garry_create_lock_manager 1 [107] 1 GARRY_LOCK_EXCLUSIVE (oc_lock sample_oc)).

(** A value is set in a new database. *)
Lemma sample_durable : exists eng ts eng',
  can_store sample_oc 0 100 [] eng ts ∅ 1 [107] 1 [107] [9] 1 [9] [9] 1 [9] sample_lock1 /\
  can_survive sample_ocs sample_oc 0 100 eng ∅ 1 [107] 1 [] [] [0] /\
  garry_storage_set sample_oc eng 1 [107] 1 (Some [9]) 1 = Some (eng', true) /\ e_page_size eng = 4096.
Proof.
  destruct sample_new as (eng0 & _ & Hc). pose proof Hc as [C1 C2 C3 C4 C5 C6 C7 C8 C9 (D1 & D2 & D3 & D4) C10].
  destruct (begin_recovered 0 eng0 ∅) as (eng & r & ts & E & -> & Hs & Hrun & Hts & Hp & Hco & Hps);
    [by exists [], [1]|rewrite D3; reflexivity|rewrite D4; reflexivity|].
  destruct (begin_keeps _ _ _ E) as (B1 & B2 & B3 & B4 & B5). rewrite D4 in *.
  assert (Hnx : e_next_txid eng = 2) by (destruct B5 as [B5|B5]; [discriminate B5|exact B5]). clear B5.
  assert (Hset : can_store sample_oc 0 100 [] eng ts ∅ 1 [107] 1 [107] [9] 1 [9] [9] 1 [9] sample_lock1).
  { split; rewrite ?Hp, ?Hps, ?Hco, ?D1, ?D2, ?C8, ?C9, ?B1, ?B2, ?C7, ?C10.
    - exact Hs.
    - exact Hrun.
    - unfold is_i32. lia.
    - apply sample_key; [cbn; lia|unfold is_byte; lia].
    - reflexivity.
    - lia.
    - split; [intros Hd; discriminate Hd|intros _; by split|reflexivity|lia].
    - vm_compute. reflexivity.
    - eapply ready_le; [exact C2|vm_compute; split; discriminate].
    - lia.
    - vm_compute. discriminate.
    - vm_compute. discriminate.
    - vm_compute. split; discriminate.
    - vm_compute. split; discriminate.
    - split; [done|done|done|vm_compute; split; congruence].
    - done.
    - cbn. lia.
    - exact sample_malloc. }
  destruct (storage_set_spec _ _ _ _ _ _ _ _ _ _ _ _ _ _ _ _ _ _ Hset) as (eng' & ok & h' & c & pages & Eset & Hd).
  exists eng, ts, eng'. split; [exact Hset|]. split; [|split; [|rewrite Hps; exact D1]].
  - split; rewrite ?Hp, ?Hps, ?Hco, ?D1, ?D2, ?B1, ?C7, ?C9, ?B4, ?D3.
    + destruct (created_log _ _ _ _ Hc eq_refl eq_refl) as [L1 L2 L3 L4 L5]. split; rewrite ?B1; try assumption. constructor.
    + reflexivity.
    + vm_compute. reflexivity.
    + split; [lia|vm_compute; discriminate].
    + discriminate.
    + rewrite Hnx. lia.
    + intros t Hin. exfalso; exact (not_elem_of_nil _ Hin).
    + unfold next_after. cbn. rewrite Hnx. reflexivity.
    + reflexivity.
    + vm_compute. split; [discriminate|reflexivity].
    + vm_compute. discriminate.
    + vm_compute. split; discriminate.
    + done.
    + split; [intros i; cbn; lia|cbn; lia].
    + vm_compute. discriminate.
    + destruct C3 as [A1 A2 A3 A4]. split; rewrite ?B3, ?B4, ?Hps, ?Hco; assumption.
    + reflexivity.
  - assert (Hc2 : c.2 = []) by (destruct Hd as [_ [Hx|[_ Hx]] _ _ _ _ _ _ _ _ _ _ _ _ _]; [inversion Hx|exact Hx]).
    assert (Hpg : pages = []).
    { pose proof (dn_pages _ _ _ _ _ _ _ _ _ _ _ _ _ _ _ _ _ Hd) as Hz. rewrite Hps, D1 in Hz.
      change (set_pages (es_page_size sample_settings) 1) with 0 in Hz.
      destruct pages as [|q pages]; [reflexivity|]. rewrite zlen_cons in Hz. pose proof (zlen_nonneg pages). lia. }
    rewrite Eset, (dn_ok _ _ _ _ _ _ _ _ _ _ _ _ _ _ _ _ _ Hd), Hc2, Hpg, Hps, D1. reflexivity.
Qed.

Lemma committed_set_outlives_close_witness : exists eng eng' eng2 fd wal os engr eng1 r eng3 out,
  garry_storage_set sample_oc eng 1 [107] 1 (Some [9]) 1 = Some (eng', true) /\ garry_storage_commit true eng' 1 = Some eng2 /\
  garry_storage_close eng2 = Some (fd, wal) /\ garry_storage_open os sample_mem sample_ocs (Some sample_path) = Some (Opened engr) /\
  garry_storage_begin engr = Some (eng1, r) /\
  garry_storage_get sample_oc eng1 r [107] 1 (Some [0]) = Some (eng3, Some (Some out, 1)) /\ slice out 0 1 = Some [9].
Proof.
  destruct sample_durable as (eng & ts & eng' & Hset & Hcx & E & Hps).
  destruct (committed_set_outlives_close sample_mem sample_ocs sample_oc 0 100 100 eng ts ∅ 1 [107] 1 [107] [9] 1 [9] [9] 1 [9] sample_lock1
    [] [] [0] eng' Hset Hcx) as (eng2 & fd & wal & E2 & E3 & H); [exact sample_mem_ok|lia|exact E|].
  destruct (H _ _ (sample_finds fd (wl_fd wal))) as (engr & eng1 & r & eng3 & out & F1 & F2 & F3 & F4); [left; exact Hps|].
  exists eng, eng', eng2, fd, wal, (sample_os (reopened fd) (reopened (wl_fd wal))), engr, eng1, r, eng3, out.
  split; [exact E|]. split; [exact E2|]. split; [exact E3|]. split; [exact F1|]. split; [exact F2|]. split; [exact F3|exact F4].
Defined.

Lemma reopen_undoes_rollback_witness : exists eng eng' eng2 fd wal os engr eng1 r eng3 out,
  garry_storage_set sample_oc eng 1 [107] 1 (Some [9]) 1 = Some (eng', true) /\ garry_storage_rollback true eng' 1 = Some eng2 /\
  garry_storage_close eng2 = Some (fd, wal) /\ garry_storage_open os sample_mem sample_ocs (Some sample_path) = Some (Opened engr) /\
  garry_storage_begin engr = Some (eng1, r) /\
  garry_storage_get sample_oc eng1 r [107] 1 (Some [0]) = Some (eng3, Some (Some out, 1)) /\ slice out 0 1 = Some [9].
Proof.
  destruct sample_durable as (eng & ts & eng' & Hset & Hcx & E & Hps).
  destruct (reopen_undoes_rollback sample_mem sample_ocs sample_oc 0 100 100 eng ts ∅ 1 [107] 1 [107] [9] 1 [9] [9] 1 [9] sample_lock1
    [] [] [0] eng' Hset Hcx) as (eng2 & fd & wal & E2 & E3 & H); [exact sample_mem_ok|lia|exact E|].
  destruct (H _ _ (sample_finds fd (wl_fd wal))) as (engr & eng1 & r & eng3 & out & F1 & F2 & F3 & F4); [left; exact Hps|].
  exists eng, eng', eng2, fd, wal, (sample_os (reopened fd) (reopened (wl_fd wal))), engr, eng1, r, eng3, out.
  split; [exact E|]. split; [exact E2|]. split; [exact E3|]. split; [exact F1|]. split; [exact F2|]. split; [exact F3|exact F4].
Defined.

(** A database file of two pages of 8192 bytes: the header, and an empty root. *)
Definition wide_header : garry_db_header :=
  DbHeader GARRY_DB_MAGIC GARRY_DB_VERSION 8192 0 1 (-1) 2 4 64 256 16 0 1 0.
Definition wide_bytes : list Z := default [] (garry_write_db_header (zeros 16384) wide_header).
Definition wide_file : garry_file_descriptor := File wide_bytes 0 true [].

Lemma small_database_lost_witness : exists eng eng1 r,
  garry_storage_open (sample_os wide_file new_file) sample_mem sample_ocs (Some sample_path) = Some (Opened eng) /\
  p_page_size (e_pool eng) = GARRY_DEFAULT_PAGE_SIZE /\ p_page_size (e_pool eng) <> e_page_size eng /\
  garry_storage_begin eng = Some (eng1, r) /\
  exists eng2, garry_storage_get sample_oc eng1 r [107] 1 (Some [0]) = Some (eng2, None).
Proof.
  set (h := default wide_header (garry_read_db_header (disk_page wide_file 4096 0))).
  assert (Eh : garry_read_db_header (disk_page wide_file 4096 0) = Some h) by (vm_compute; reflexivity).
  assert (Fh : page_size h = 8192 /\ root_page h = 1 /\ total_pages h = 2 /\ max_txns h = 4 /\ next_txid h = 1 /\ free_list_head h = -1)
    by (vm_compute; repeat split).
  destruct Fh as (F1 & F2 & F3 & F4 & F5 & F6). clearbody h.
  destruct (small_database_lost (sample_os wide_file new_file) sample_mem sample_ocs sample_path wide_file new_file h)
    as (eng & eng1 & r & E1 & E2 & E3 & E4 & H).
  - exact sample_mem_ok.
  - reflexivity.
  - split; [reflexivity|reflexivity|reflexivity|reflexivity| |unfold GARRY_DEFAULT_PAGE_SIZE; lia|exact Eh|lia|exact F6| |].
    + split; [reflexivity|reflexivity|exists 4; vm_compute; reflexivity].
    + rewrite F4. unfold is_i32. lia.
    + rewrite F5. unfold is_i32. lia.
  - vm_compute. reflexivity.
  - rewrite F1. discriminate.
  - lia.
  - rewrite F2. vm_compute. reflexivity.
  - reflexivity.
  - lia.
  - lia.
  - destruct (H sample_oc [107] 1 (Some [0])) as (eng2 & E5); [cbn; lia|].
    exists eng, eng1, r. split; [exact E1|]. split; [exact E2|]. split; [exact E3|]. split; [exact E4|]. exists eng2. exact E5.
Defined.
