(* ===== verification/Sessions.v ===== *)
(** Sessions: what a client sees of any interleaving of transactions.  The storage
    layer refines a small database of versions: its calls, [garry_storage_begin],
    [garry_storage_get], [garry_storage_set], [garry_storage_delete],
    [garry_storage_commit] and [garry_storage_rollback] of [src/src/storage_ops.c] and
    [storage_txn.c], made in any order by any transactions, give the answers the
    database gives. *)

From stdpp Require Import gmap.
From S2P Require Import Prelude Endian KeyEncoding BtreeCompression RecordCodec SlottedPage LockTable DbHeader Lz4.
From S2P Require Import FileIo BufferPool PoolClient BtreeNode NodeView BtreeSearch BtreeModify BtreeInsert.
From S2P Require Import VersionChain Overflow WalLog Transaction MvccStore StorageOps KeyStore StorageProps WalRecovery Engine.

(** * The database of versions *)

(** A version of a key: its author, and its value unless it deletes the key. *)
Abbreviation db_version := (Z * option (list Z))%type (only parsing).

(** The transactions of the table with the mark of those that were rolled back, the
    locks, newest first, and the versions of each key that was ever set, oldest
    first. *)
Record database := Database {
  db_next : Z;
  db_txns : list (Z * bool);
  db_locks : list (Z * list Z);
  db_history : gmap (list Z) (list (Z * option (list Z)))
}.

Definition new_database : database := Database 1 [] [] ∅.

Inductive call :=
| BeginTxn | GetKey (txn : Z) (k : list Z) | SetKey (txn : Z) (k v : list Z) | DeleteKey (txn : Z) (k : list Z)
| CommitTxn (txn : Z) | RollbackTxn (txn : Z).

Inductive answer := AnswerId (txn : Z) | AnswerValue (v : option (list Z)) | AnswerStatus (ok : bool) | AnswerDone.

(** A transaction sees its own versions and those of older transactions that are no
    longer in the table. *)
Definition version_visible (txn : Z) (ids : list Z) (w : db_version) : Prop :=
  w.1 = txn \/ (w.1 < txn /\ (w.1 ∉ ids)).
#[export] Instance version_visible_dec txn ids w : Decision (version_visible txn ids w) := or_dec _ _.

Definition read_versions (txn : Z) (ids : list Z) (vs : list db_version) : option (list Z) :=
  last (filter (version_visible txn ids) vs) ≫= snd.

Definition db_running (D : database) (txn : Z) : bool := bool_decide ((txn, false) ∈ db_txns D).

Definition db_read (D : database) (txn : Z) (k : list Z) : option (list Z) :=
  read_versions txn (map fst (db_txns D)) (default [] (db_history D !! k)).

(** Locks are exclusive and kept; [None]: somebody else has the key. *)
Definition take_lock (L : list (Z * list Z)) (txn : Z) (k : list Z) : option (list (Z * list Z)) :=
  if decide ((txn, k) ∈ L) then Some L else
  if decide (k ∈ map snd L) then None else Some ((txn, k) :: L).

Definition with_locks (D : database) (L : list (Z * list Z)) : database :=
  Database (db_next D) (db_txns D) L (db_history D).
Definition with_versions (D : database) (k : list Z) (vs : list db_version) : database :=
  Database (db_next D) (db_txns D) (db_locks D) (<[k := vs]> (db_history D)).

(** The end of a transaction. *)
Definition ended_txn (D : database) (txn : Z) (txns : list (Z * bool)) : database :=
  Database (db_next D) txns (filter (fun l => l.1 <> txn) (db_locks D)) (db_history D).
Definition mark_rolled_back (txn : Z) (t : Z * bool) : Z * bool := if decide (t.1 = txn) then (t.1, true) else t.

Section Specification.
  (** The number of transactions that may run, and whether the versions of a key
      leave room for one more. *)
  Context (limit : Z) (room : list db_version -> option (list Z) -> bool).

(** A new version of a key, when there is room. *)
Definition db_write (D : database) (txn : Z) (k : list Z) (w : option (list Z)) : database * answer :=
  let vs := default [] (db_history D !! k) in
  (with_versions D k (if room vs w then vs ++ [(txn, w)] else vs), AnswerStatus (room vs w)).

(** The start of a write: a running transaction that gets the lock goes on. *)
Definition db_locked (D : database) (txn : Z) (k : list Z) (go : database -> database * answer) : database * answer :=
  if db_running D txn then
    match take_lock (db_locks D) txn k with
    | Some L => go (with_locks D L)
    | None => (D, AnswerStatus false)
    end
  else (D, AnswerStatus false).

Definition db_step (D : database) (c : call) : database * answer :=
  match c with
  | BeginTxn =>
      if decide (zlen (filter (fun t => t.2 = false) (db_txns D)) < limit /\ zlen (db_txns D) < limit * 64)
      then (Database (db_next D + 1) (db_txns D ++ [(db_next D, false)]) (db_locks D) (db_history D), AnswerId (db_next D))
      else (D, AnswerId (-1))
  | GetKey txn k => (D, AnswerValue (if db_running D txn then db_read D txn k else None))
  | SetKey txn k v => db_locked D txn k (fun D => db_write D txn k (Some v))
  | DeleteKey txn k => db_locked D txn k (fun D =>
      match db_history D !! k with
      | Some _ => db_write D txn k None
      | None => (D, AnswerStatus false)
      end)
  | CommitTxn txn => (ended_txn D txn (filter (fun t => t.1 <> txn) (db_txns D)), AnswerDone)
  | RollbackTxn txn => (ended_txn D txn (map (mark_rolled_back txn) (db_txns D)), AnswerDone)
  end.

Fixpoint db_run (D : database) (cs : list call) : database * list answer :=
  match cs with
  | [] => (D, [])
  | c :: cs => let '(D, a) := db_step D c in let '(D, rest) := db_run D cs in (D, a :: rest)
  end.
End Specification.

(** * The client of the storage layer *)

(** A call of the storage layer; a get passes a buffer of [len] bytes. *)
Definition exec (oc : outcomes) (len : Z) (eng : garry_engine_handle) (c : call) : option (garry_engine_handle * answer) :=
  match c with
  | BeginTxn => '(eng, r) ← garry_storage_begin eng; Some (eng, AnswerId r)
  | GetKey txn k =>
      '(eng, r) ← garry_storage_get oc eng txn k (zlen k) (Some (zeros len));
      match r with
      | Some (Some out, n) => v ← slice out 0 n; Some (eng, AnswerValue (Some v))
      | _ => Some (eng, AnswerValue None)
      end
  | SetKey txn k v => '(eng, ok) ← garry_storage_set oc eng txn k (zlen k) (Some v) (zlen v); Some (eng, AnswerStatus ok)
  | DeleteKey txn k => '(eng, ok) ← garry_storage_delete oc eng txn k (zlen k); Some (eng, AnswerStatus ok)
  | CommitTxn txn => eng ← garry_storage_commit true eng txn; Some (eng, AnswerDone)
  | RollbackTxn txn => eng ← garry_storage_rollback true eng txn; Some (eng, AnswerDone)
  end.

Fixpoint run (oc : outcomes) (len : Z) (eng : garry_engine_handle) (cs : list call) : option (garry_engine_handle * list answer) :=
  match cs with
  | [] => Some (eng, [])
  | c :: cs =>
      '(eng, a) ← exec oc len eng c;
      '(eng, rest) ← run oc len eng cs;
      Some (eng, a :: rest)
  end.

(** * The transaction table and the locks *)

Definition txn_view (t : garry_txn_info) : Z * bool := (ti_txid t, bool_decide (rolled_back t)).
Definition lock_view (n : garry_lock_node) : Z * list Z := (lk_txn n, LockTable.node_key n).

Lemma fst_txn_view ts : map fst (map txn_view ts) = map ti_txid ts.
Proof. rewrite map_map. reflexivity. Qed.

Lemma running_view ts txn : NoDup (map ti_txid ts) -> running ts txn <-> (txn, false) ∈ map txn_view ts.
Proof.
  unfold running. induction ts as [|t ts IH]; intros Hnd.
  - cbn. split; [by intros (t & Ht & _)|intros H; by apply not_elem_of_nil in H].
  - cbn [map] in Hnd. apply NoDup_cons in Hnd as [Hni Hnd]. rewrite txn_entry_cons. change (map txn_view (t :: ts)) with (txn_view t :: map txn_view ts).
    rewrite elem_of_cons. case_decide as Ht.
    + unfold txn_view at 1. rewrite Ht. split.
      * intros (u & [= <-] & Hn). left. by rewrite bool_decide_false.
      * intros [[= Hb]|Hin]; [exists t; split; [done|by symmetry in Hb; apply bool_decide_eq_false in Hb]|].
        destruct Hni. rewrite <- (fst_txn_view ts). apply list_elem_of_fmap. by exists (txn, false).
    + rewrite (IH Hnd). unfold txn_view at 2. split; [by right|]. intros [[= E _]|?]; [by destruct Ht|done].
Qed.

Lemma active_view eng ts txn :
  txns_rep eng ts -> garry_txn_is_active txn eng = Some (bool_decide ((txn, false) ∈ map txn_view ts)).
Proof.
  intros Ht. rewrite (is_active_spec _ _ _ Ht). f_equal. pose proof (running_view ts txn (txns_nodup _ _ Ht)) as Hv.
  unfold running in Hv. symmetry. destruct (txn_entry ts txn) as [t|].
  - apply bool_decide_ext. rewrite <- Hv. split; [by intros (u & [= <-] & Hn)|by exists t].
  - apply bool_decide_eq_false. rewrite <- Hv. by intros (u & Hu & _).
Qed.

Lemma live_view ts : zlen (filter (fun t => t.2 = false) (map txn_view ts)) = live_count ts.
Proof.
  unfold live_count. induction ts as [|t ts IH]; [done|]. change (map txn_view (t :: ts)) with (txn_view t :: map txn_view ts).
  assert (Hv : (txn_view t).2 = false <-> ~ rolled_back t) by apply bool_decide_eq_false.
  destruct (decide (rolled_back t)) as [Hd|Hd].
  - rewrite !filter_cons_False by tauto. exact IH.
  - rewrite !filter_cons_True by tauto. by rewrite !zlen_cons, IH.
Qed.

Lemma committed_view ts txn :
  map txn_view (filter (fun t => ti_txid t <> txn) ts) = filter (fun t => t.1 <> txn) (map txn_view ts).
Proof.
  induction ts as [|t ts IH]; [done|]. change (map txn_view (t :: ts)) with (txn_view t :: map txn_view ts).
  rewrite !filter_cons. cbn [txn_view fst]. case_decide; [|exact IH]. cbn [map]. by rewrite IH.
Qed.

Lemma marked_absent ts txn : txn ∉ map ti_txid ts -> map (mark_rolled_back txn) (map txn_view ts) = map txn_view ts.
Proof.
  induction ts as [|t ts IH]; [done|]. cbn [map]. rewrite not_elem_of_cons. intros [Hne Hni].
  rewrite IH by done. unfold mark_rolled_back. rewrite decide_False; [done|]. cbn. congruence.
Qed.

Lemma rolled_back_view ts txn :
  NoDup (map ti_txid ts) ->
  map txn_view (alter_txn (with_state GARRY_TXN_ROLLED_BACK) ts txn) = map (mark_rolled_back txn) (map txn_view ts).
Proof.
  induction ts as [|t ts IH]; [done|]. cbn [map]. intros [Hni Hnd]%NoDup_cons. rewrite alter_txn_cons.
  unfold mark_rolled_back at 1. cbn [txn_view fst]. case_decide as Hd; cbn [map].
  - rewrite marked_absent by congruence. done.
  - by rewrite IH.
Qed.

Lemma noted_view (ok : bool) pid ts txn : map txn_view (if ok then alter_txn (noted pid) ts txn else ts) = map txn_view ts.
Proof.
  destruct ok; [|done]. induction ts as [|t ts IH]; [done|]. rewrite alter_txn_cons. case_decide; cbn [map]; [|by rewrite IH].
  f_equal. unfold noted. by case_decide.
Qed.

Lemma lock_acquire_view m txn k g :
  lm_wf m -> zlen g = KeyEncoding.GARRY_MAX_KEY_SIZE -> zlen k <= KeyEncoding.GARRY_MAX_KEY_SIZE ->
  match take_lock (map lock_view (lm_head m)) txn k with
  | Some L => exists m', garry_lock_acquire m txn k (zlen k) GARRY_LOCK_EXCLUSIVE (Some g) = Some (m', true) /\
      lm_wf m' /\ map lock_view (lm_head m') = L
  | None => garry_lock_acquire m txn k (zlen k) GARRY_LOCK_EXCLUSIVE (Some g) = Some (m, false)
  end.
Proof.
  intros Hwf Hg Hk.
  destruct (acquire_spec m txn k (zlen k) GARRY_LOCK_EXCLUSIVE (Some g) k (wf_nodes _ Hwf) (slice_all k _ eq_refl)) as (m' & ok & E & H);
    [by intros ? [= <-]|].
  assert (Hh : (txn, k) ∈ map lock_view (lm_head m) <-> Exists (LockTable.holds txn k) (lm_head m)).
  { rewrite list_elem_of_fmap, Exists_exists. unfold LockTable.holds, lock_view. split.
    - intros (n & [= -> ->] & Hin). by exists n.
    - intros (n & Hin & <- & <-). by exists n. }
  assert (Hc : ~ Exists (LockTable.holds txn k) (lm_head m) ->
    k ∈ map snd (map lock_view (lm_head m)) <-> Exists (clashes txn k GARRY_LOCK_EXCLUSIVE) (lm_head m)).
  { intros Hno. rewrite map_map, list_elem_of_fmap, Exists_exists. unfold clashes. split.
    - intros (n & -> & Hin). exists n. split; [done|]. split; [done|]. split; [|by right]. intros Ht. apply Hno, Exists_exists. by exists n.
    - intros (n & Hin & <- & _). by exists n. }
  unfold take_lock. destruct H as [(Hex & -> & ->)|[(Hno & -> & -> & Hw)|(Hno & Hnc & -> & n & -> & Hn & Hnk & Hnt & Hm)]].
  - rewrite decide_True by tauto. by exists m.
  - rewrite decide_False by tauto. destruct Hw as [Hw|[Hw|Hw]]; [|discriminate|lia]. rewrite decide_True by tauto. exact E.
  - rewrite !decide_False by tauto. eexists. split; [exact E|]. split; [by eapply push_wf|]. cbn [lm_head map]. unfold lock_view at 1. congruence.
Qed.

Lemma lock_release_view m txn :
  lm_wf m -> lm_wf (garry_lock_release m txn) /\
    map lock_view (lm_head (garry_lock_release m txn)) = filter (fun l => l.1 <> txn) (map lock_view (lm_head m)).
Proof.
  intros Hwf. destruct (release_spec m txn Hwf) as [H ->]. split; [exact H|]. clear H Hwf. induction (lm_head m) as [|n ns IH]; [done|].
  change (map lock_view (n :: ns)) with (lock_view n :: map lock_view ns). rewrite !filter_cons. cbn [lock_view fst].
  case_decide; [|exact IH]. cbn [map]. by rewrite IH.
Qed.

(** * What the calls need *)

(** The bounds of a session: the page size, the compression and the number of
    transactions of the engine; the length of the values; how high the tree and how
    long the chains of overflow pages may get. *)
Record limits := Limits {
  li_page_size : Z; li_compression : Z; li_max_txns : Z; li_value : Z; li_height : Z; li_pages : Z
}.

(** The longest form a value is stored in. *)
Definition stored_max (l : limits) : Z := li_value l + Z.quot (li_value l) 255 + 16.

(** The overflow pages of one value, and the accesses and page ids of one call. *)
Definition value_pages (l : limits) : Z := ovf_pages (li_page_size l) (stored_max l).
Definition call_cost (l : limits) : Z :=
  4 * (li_height l + 1) + (3 + (level_cost * (li_height l + 1) + 9)) + 10 * value_pages l + 2 * li_pages l + 4.
Definition call_ids (l : limits) : Z := li_height l + 3 + 2 * value_pages l.

(** The memory is there, and the settings are in range. *)
Record limits_ok (oc : outcomes) (l : limits) : Prop := {
  lo_page_size : page_size_ok (li_page_size l);
  lo_inline : 0 <= garry_chain_inline_capacity (li_page_size l) <= 16370;
  lo_value : 0 <= li_value l /\ stored_max l < 2 ^ 31;
  lo_split : forall q, oc_split oc q = true;
  lo_lock : exists g, oc_lock oc = Some g /\ zlen g = KeyEncoding.GARRY_MAX_KEY_SIZE;
  lo_record : oc_record oc = true;
  lo_reads : reads_ok oc;
  lo_lz4 : li_compression l = GARRY_COMPRESS_LZ4 -> oc_table oc = true /\
    forall n, exists buf, oc_buf oc n = Some buf /\ zlen buf = n;
  lo_fuel : li_height l < Z.of_nat (oc_fuel oc);
  lo_pages : 0 <= li_pages l
}.

(** Keys of 1 to 255 bytes that fit a page; values up to the bound, of 1 to 16384
    bytes when the engine compresses. *)
Definition key_ok (l : limits) (k : list Z) : Prop :=
  0 < zlen k <= 255 /\ Forall is_byte k /\ entry_fits (li_page_size l) (k, zeros 14).
Definition value_ok (l : limits) (v : list Z) : Prop :=
  zlen v <= li_value l /\ (li_compression l = GARRY_COMPRESS_LZ4 -> 0 < zlen v <= GARRY_MAX_RECORD_SIZE).

Definition call_ok (l : limits) (c : call) : Prop :=
  match c with
  | BeginTxn => True
  | GetKey txn k => key_ok l k
  | SetKey txn k v => is_i32 txn /\ key_ok l k /\ value_ok l v
  | DeleteKey txn k => is_i32 txn /\ key_ok l k
  | CommitTxn txn | RollbackTxn txn => is_i32 txn
  end.

(** * Versions and cells *)

(** The bytes a value is stored as. *)
Definition stored_form (oc : outcomes) (l : limits) (v : list Z) : list Z :=
  if decide (li_compression l = GARRY_COMPRESS_LZ4) then
    match lz4_compress v (zlen v) (oc_buf oc) (oc_table oc) with
    | Some (Some c, len) => take (Z.to_nat len) c
    | _ => []
    end
  else v.

(** The bytes a version takes on the chain page, and whether one more fits. *)
Definition version_size (oc : outcomes) (l : limits) (w : option (list Z)) : Z :=
  14 + match w with
       | None => 0
       | Some v =>
           if decide (zlen (stored_form oc l v) <= garry_chain_inline_capacity (li_page_size l))
           then zlen (stored_form oc l v) else 4
       end.
Definition page_room (oc : outcomes) (l : limits) (vs : list db_version) (w : option (list Z)) : bool :=
  bool_decide (zlen vs < GARRY_MAX_SLOTS /\
    GARRY_PAGE_HEADER_SIZE + GARRY_SLOT_SIZE * (zlen vs + 1) + foldr Z.add 0 (map (fun w => version_size oc l w.2) vs)
      + version_size oc l w <= li_page_size l).

Record cell_is (oc : outcomes) (l : limits) (c : cell) (w : db_version) : Prop := {
  ci_txn : c_txn c = w.1;
  ci_bytes : c_value c = stored_form oc l <$> w.2;
  ci_pages : forall v, w.2 = Some v ->
    (c_pages c = [] <-> zlen (stored_form oc l v) <= garry_chain_inline_capacity (li_page_size l));
  ci_value : forall v, w.2 = Some v -> value_ok l v
}.

Section Cells.
  Context (oc : outcomes) (l : limits).
  Hypothesis Hl : limits_ok oc l.

(** A value is written in its stored form, which decodes to it. *)
Lemma stored_payload v : value_ok l v ->
  exists src, payload oc (li_compression l) v (zlen v) src (zlen (stored_form oc l v)) (stored_form oc l v) /\
    zlen (stored_form oc l v) <= stored_max l /\ decodes oc (li_compression l) (stored_form oc l v) v.
Proof.
  intros [Hm Hz]. destruct Hl as [_ _ [Hv0 Hmax] _ _ _ _ Hlz _ _]. pose proof (zlen_nonneg v) as Hv.
  assert (Hq : 0 <= Z.quot (zlen v) 255 <= Z.quot (li_value l) 255) by (split; [apply Z.quot_pos|apply Z.quot_le_mono]; lia).
  unfold stored_max in *. enough (exists src, payload oc (li_compression l) v (zlen v) src (zlen (stored_form oc l v)) (stored_form oc l v) /\
    zlen (stored_form oc l v) <= li_value l + Z.quot (li_value l) 255 + 16) as (src & Hp & Hlen).
  { exists src. split; [exact Hp|]. split; [exact Hlen|]. eapply payload_decodes; [exact Hp|by apply slice_all|].
    intros Hd. destruct (Hlz Hd) as [H1 H2]. split; [by apply Hz|]. split; [exact H1|exact H2]. }
  unfold stored_form. destruct (decide (li_compression l = GARRY_COMPRESS_LZ4)) as [Hd|Hd].
  - destruct (Hlz Hd) as [Htab Hbuf]. specialize (Hz Hd). destruct (Hbuf (lz4_compress_bound (zlen v) + 1)) as (bc & Ebc & Lbc).
    destruct (lz4_roundtrip_spec v (zlen v) (oc_buf oc) bc) as (b & rest & E & Hb & _);
      [unfold LZ4_MAX_INPUT_SIZE, GARRY_MAX_RECORD_SIZE in *; lia|done|done|done|].
    rewrite Htab, E. assert (Ht : take (Z.to_nat (zlen b)) (b ++ rest) = b) by (unfold zlen; by rewrite Nat2Z.id, take_app_length).
    rewrite Ht. unfold lz4_compress_bound in Hb. rewrite decide_False in Hb by (unfold LZ4_MAX_INPUT_SIZE, GARRY_MAX_RECORD_SIZE in *; lia).
    exists (b ++ rest). split; [|lia]. split; [intros _; by rewrite Htab|done|by apply (slice_app [])|lia].
  - exists v. split; [|lia]. split; [done|done|by apply slice_all|lia].
Qed.

Lemma cell_is_size c w : cell_is oc l c w -> cell_size c = version_size oc l w.2.
Proof.
  intros [_ Hb Hp _]. unfold cell_size, version_size. rewrite Hb. destruct w.2 as [v|]; cbn; [|done].
  specialize (Hp v eq_refl). destruct (c_pages c) as [|q qs].
  - by rewrite decide_True by tauto.
  - rewrite decide_False; [done|]. intros Hle. apply Hp in Hle. discriminate Hle.
Qed.

Lemma room_fits cells vs w n :
  Forall2 (cell_is oc l) cells vs -> n = version_size oc l w ->
  bool_decide (chain_fits (li_page_size l) cells n) = page_room oc l vs w.
Proof.
  intros HF ->. unfold page_room, chain_fits.
  assert (Hz : zlen vs = zlen cells) by (unfold zlen; f_equal; symmetry; by eapply Forall2_length).
  assert (Hs : foldr Z.add 0 (map (fun w => version_size oc l w.2) vs) = foldr Z.add 0 (map cell_size cells)).
  { clear Hz. induction HF as [|c w' cells vs Hc HF IH]; [done|]. cbn [map foldr]. by rewrite IH, (cell_is_size _ _ Hc). }
  by rewrite Hz, Hs.
Qed.

Lemma visible_same txn ids c w : cell_is oc l c w -> cell_visible txn ids c <-> version_visible txn ids w.
Proof.
  intros [Ht _ _ _]. unfold cell_visible, version_visible. rewrite Ht. destruct (decide (w.1 ∈ ids)); split; intros; try tauto.
  - left. destruct (decide (w.1 = txn)); [done|tauto].
  - destruct H as [->|[_ H]]; [split; [lia|tauto]|tauto].
  - destruct (decide (w.1 = txn)); [by left|right; split; [lia|done]].
  - split; [lia|tauto].
Qed.

(** A read of the cells gives the stored form of what a read of the versions gives. *)
Lemma read_view txn ids cells vs :
  Forall2 (cell_is oc l) cells vs ->
  read_cells txn ids cells = stored_form oc l <$> read_versions txn ids vs /\
  forall v, read_versions txn ids vs = Some v -> value_ok l v.
Proof.
  revert cells. induction vs as [|w vs IH] using rev_ind; intros cells HF.
  - apply Forall2_nil_inv_r in HF as ->. done.
  - apply Forall2_app_inv_r in HF as (cells' & cs & HF & Hc & ->). apply Forall2_cons_inv_r in Hc as (c & cs' & Hc & Hn & ->).
    apply Forall2_nil_inv_r in Hn as ->. rewrite read_cells_snoc. unfold read_versions. rewrite filter_app.
    pose proof (visible_same txn ids _ _ Hc) as Hv. destruct (IH _ HF) as [IH1 IH2]. case_decide as Hd.
    + rewrite filter_cons_True by tauto. change (filter _ []) with (@nil db_version). rewrite last_snoc. cbn [mbind option_bind].
      split; [exact (ci_bytes _ _ _ _ Hc)|exact (ci_value _ _ _ _ Hc)].
    + rewrite filter_cons_False by tauto. change (filter _ []) with (@nil db_version). rewrite app_nil_r. split; [exact IH1|exact IH2].
Qed.
End Cells.

(** * The refinement *)

(** [session oc l n eng D]: the engine stands for the database [D], and has what [n]
    more calls need. *)
Record session_at (oc : outcomes) (l : limits) (n : Z) (eng : garry_engine_handle) (D : database)
    (h : nat) (ts : list garry_txn_info) (C : chains) : Prop := {
  se_calls : 0 <= n /\ n * value_pages l <= li_pages l;
  se_store : store h eng ts C;
  se_height : Z.of_nat h + n <= li_height l;
  se_txns : db_txns D = map txn_view ts;
  se_next : db_next D = e_next_txid eng /\ e_next_txid eng + n < 2 ^ 31;
  se_locks : lm_wf (e_lock_mgr eng) /\ db_locks D = map lock_view (lm_head (e_lock_mgr eng));
  se_history : map_Forall2 (fun _ (c : chain) vs => Forall2 (cell_is oc l) c.2 vs) C (db_history D);
  se_pages : forall k c, C !! k = Some c -> zlen (chain_pages c.2) + n * value_pages l <= li_pages l;
  se_ready : ready (n * call_cost l + call_cost l) [] [] (e_pool eng);
  se_ids : p_next_page (e_pool eng) + n * call_ids l <= id_limit;
  se_log : wl_last_lsn (e_wal eng) + n < 2 ^ 31 /\ (wl_last_lsn (e_wal eng) < 2 ^ 31 - 1 -> log_ready (e_wal eng));
  se_settings : e_page_size eng = li_page_size l /\ e_compression eng = li_compression l /\ e_max_txns eng = li_max_txns l;
  se_capacity : 3 <= p_capacity (e_pool eng)
}.

Definition session (oc : outcomes) (l : limits) (n : Z) (eng : garry_engine_handle) (D : database) : Prop :=
  exists h ts C, session_at oc l n eng D h ts C.

Section Refinement.
  Context (oc : outcomes) (l : limits).
  Hypothesis Hl : limits_ok oc l.

Abbreviation step := (db_step (li_max_txns l) (page_room oc l)) (only parsing).

Lemma value_pages_nonneg : 0 <= value_pages l.
Proof.
  destruct Hl as [Hps [Hi _] [Hv Hm] _ _ _ _ _ _ _]. apply ovf_pages_bound; [by apply inline_chunk|].
  unfold stored_max. assert (0 <= Z.quot (li_value l) 255) by (apply Z.quot_pos; lia). lia.
Qed.

Lemma value_pages_le x : 0 <= x <= stored_max l -> ovf_pages (li_page_size l) x <= value_pages l.
Proof.
  destruct Hl as [Hps [Hi _] _ _ _ _ _ _ _ _]. intros Hx. unfold value_pages, ovf_pages.
  pose proof (inline_chunk _ Hps Hi). apply Z.div_le_mono; lia.
Qed.

Lemma set_pages_le x : 0 <= x <= stored_max l -> 0 <= set_pages (li_page_size l) x <= value_pages l.
Proof.
  intros Hx. destruct Hl as [_ [Hi _] _ _ _ _ _ _ _ _]. split; [apply set_pages_nonneg; lia|].
  unfold set_pages. case_decide; [by apply value_pages_le|apply value_pages_nonneg].
Qed.

Lemma log_pages_le x : 0 <= x <= stored_max l -> 0 <= log_pages (li_page_size l) x <= value_pages l.
Proof.
  intros Hx. destruct Hl as [Hps [Hi _] _ _ _ _ _ _ _ _]. pose proof value_pages_nonneg. unfold log_pages.
  case_decide; [|lia]. split; [apply ovf_pages_bound; [by apply inline_chunk|lia]|by apply value_pages_le].
Qed.

Lemma value_ok_max v : value_ok l v -> 0 <= zlen v <= stored_max l.
Proof.
  intros [Hv _]. destruct Hl as [_ _ [Hm _] _ _ _ _ _ _ _]. pose proof (zlen_nonneg v). unfold stored_max.
  assert (0 <= Z.quot (li_value l) 255) by (apply Z.quot_pos; lia). lia.
Qed.

Lemma key_ok_arg k : key_ok l k -> key_arg (li_page_size l) k (zlen k) k.
Proof. intros (Hz & Hb & Hf). split; [by apply slice_all|lia|lia|exact Hb|exact Hf]. Qed.

Lemma read_cost_le n eng D h ts C k : session_at oc l n eng D h ts C -> read_cost h C k + 4 + 2 * (Z.of_nat h + 1) <= call_cost l.
Proof.
  intros Hs. pose proof value_pages_nonneg as Hv. pose proof (se_height _ _ _ _ _ _ _ _ Hs). pose proof (se_calls _ _ _ _ _ _ _ _ Hs).
  assert (Hp : match C !! k with Some c => get_cost c.2 | None => 0 end <= 2 + 2 * li_pages l \/ C !! k = None).
  { destruct (C !! k) as [c|] eqn:Ec; [|by right]. left. pose proof (se_pages _ _ _ _ _ _ _ _ Hs k c Ec). unfold get_cost. nia. }
  pose proof (lo_pages _ _ Hl). unfold read_cost, call_cost, level_cost in *. destruct (C !! k) as [c|] eqn:Ec; [destruct Hp as [Hp|Hp]; [lia|discriminate Hp]|].
  lia.
Qed.

Lemma call_cost_nonneg : 0 <= li_height l -> 0 <= call_cost l.
Proof. intros Hh. pose proof value_pages_nonneg. pose proof (lo_pages _ _ Hl). unfold call_cost, level_cost. lia. Qed.

(** Fewer calls need less. *)
Lemma session_le n m eng D h ts C : session_at oc l n eng D h ts C -> 0 <= m <= n -> session_at oc l m eng D h ts C.
Proof.
  intros [S1 S2 S3 S4 [S5 S5'] S6 S7 S8 S9 S10 [S11 S11'] S12 S13] Hm. pose proof value_pages_nonneg as Hv.
  assert (Hc : 0 <= call_cost l) by (apply call_cost_nonneg; lia). unfold call_ids in *. split; try done.
  - nia.
  - lia.
  - split; [exact S5|lia].
  - intros k c Hk. specialize (S8 k c Hk). nia.
  - eapply ready_le; [exact S9|nia].
  - unfold call_ids. nia.
  - split; [lia|exact S11'].
Qed.

(** A call that changes no page content and nothing else but the pool. *)
Lemma session_keeps n eng D h ts C p' :
  session_at oc l n eng D h ts C -> keeps (e_pool eng) p' -> ready (n * call_cost l + call_cost l) [] [] p' ->
  session_at oc l n (set_pool eng p') D h ts C.
Proof.
  intros [S1 (m & fp & S2) S3 S4 S5 S6 S7 S8 S9 S10 S11 S12 S13] [K1 K2 K3 K4] Hr. split; try done.
  - exists m, fp. apply (stored_table h eng _ ts); try done. by apply (txns_rep_fields eng); [apply S2|..].
  - cbn. by rewrite K3.
  - cbn. by rewrite K1.
Qed.

Lemma session_running n eng D h ts C txn :
  session_at oc l n eng D h ts C -> garry_txn_is_active txn eng = Some (db_running D txn) /\
    (db_running D txn = true <-> running ts txn).
Proof.
  intros Hs. destruct (se_store _ _ _ _ _ _ _ _ Hs) as (m & fp & Hst). pose proof (sd_txns _ _ _ _ _ _ Hst) as Ht.
  unfold db_running. rewrite (se_txns _ _ _ _ _ _ _ _ Hs), bool_decide_eq_true, (running_view _ _ (txns_nodup _ _ Ht)).
  split; [by apply active_view|done].
Qed.

Lemma history_at n eng D h ts C k :
  session_at oc l n eng D h ts C ->
  match C !! k with
  | Some c => exists vs, db_history D !! k = Some vs /\ Forall2 (cell_is oc l) c.2 vs
  | None => db_history D !! k = None
  end.
Proof.
  intros Hs. pose proof (se_history _ _ _ _ _ _ _ _ Hs k) as Hk. cbv beta in Hk.
  destruct (C !! k) as [c|]; inversion Hk; [by eexists|done].
Qed.

Lemma session_read n eng D h ts C txn k :
  session_at oc l n eng D h ts C ->
  visible_value ts C txn k = stored_form oc l <$> db_read D txn k /\ forall v, db_read D txn k = Some v -> value_ok l v.
Proof.
  intros Hs. pose proof (history_at n eng D h ts C k Hs) as Hk. unfold db_read, visible_value.
  rewrite (se_txns _ _ _ _ _ _ _ _ Hs), fst_txn_view. destruct (C !! k) as [c|].
  - destruct Hk as (vs & -> & HF). cbn [mbind option_bind default]. by apply read_view.
  - by rewrite Hk.
Qed.

Lemma step_begin n eng D :
  session oc l (n + 1) eng D -> 0 <= n ->
  exists eng', exec oc (li_value l) eng BeginTxn = Some (eng', (step D BeginTxn).2) /\ session oc l n eng' (step D BeginTxn).1.
Proof.
  intros (h & ts & C & Hs) Hn. pose proof Hs as [S1 (m & fp & S2) S3 S4 [S5 S5'] S6 S7 S8 S9 S10 S11 (S12 & S12' & Smax) S13].
  destruct (begin_spec eng ts (sd_txns _ _ _ _ _ _ S2)) as (eng' & r & E & H); [lia|].
  unfold exec, garry_storage_begin. rewrite E. cbn [mbind option_bind db_step]. exists eng'.
  assert (Hz : zlen (db_txns D) = zlen ts) by (rewrite S4; unfold zlen; by rewrite length_map).
  rewrite Hz, S4, live_view, <- Smax. fold (can_begin eng ts). destruct (decide (can_begin eng ts)) as [Hd|Hd].
  - destruct H as (-> & Hp & Hnx & Hmx & pages & Ht). rewrite <- S5. split; [done|].
    destruct (begin_keeps _ _ _ E) as (B1 & B2 & _). destruct (begin_fields _ _ _ E) as (B3 & B4 & B5).
    exists h, (ts ++ [TxnInfo (e_next_txid eng) GARRY_TXN_ACTIVE 0 pages]), C.
    pose proof (session_le _ n _ _ _ _ _ Hs ltac:(lia)) as [U1 U2 U3 U4 U5 U6 U7 U8 U9 U10 U11 U12 U13].
    split; cbn [fst db_next db_txns db_locks db_history]; rewrite ?Hp, ?B1, ?B2, ?B3, ?B4; try done.
    + exists m, fp. apply (stored_table h eng _ ts); try done. by rewrite Hp.
    + rewrite map_app, S5. reflexivity.
    + rewrite Hnx, S5. split; [done|lia].
    + by rewrite Hmx.
  - destruct H as (-> & ->). split; [done|]. exists h, ts, C. apply (session_le (n + 1)); [exact Hs|lia].
Qed.

Lemma step_get n eng D txn k :
  session oc l (n + 1) eng D -> 0 <= n -> key_ok l k ->
  exists eng', exec oc (li_value l) eng (GetKey txn k) = Some (eng', (step D (GetKey txn k)).2) /\
    session oc l n eng' (step D (GetKey txn k)).1.
Proof.
  intros (h & ts & C & Hs) Hn Hk. pose proof (session_le _ n _ _ _ _ _ Hs ltac:(lia)) as Hs'.
  destruct (session_running _ _ _ _ _ _ txn Hs) as [Hact Hrun]. cbn [db_step fst snd exec].
  destruct (db_running D txn) eqn:Er.
  - pose proof Hs as [S1 (m & fp & S2) S3 S4 S5 S6 S7 S8 S9 S10 S11 (S12 & S12' & Smax) S13].
    pose proof (read_cost_le _ _ _ _ _ _ k Hs) as Hcost. pose proof (read_cost_nonneg h C k).
    pose proof (sd_page_size _ _ _ _ _ _ S2) as Hps. destruct Hl as [_ _ [Hv0 _] _ _ _ Hmr _ Hf _].
    destruct (storage_get_spec h eng ts C m fp oc (n * call_cost l + call_cost l) [] k (zlen k) k txn (Some (zeros (li_value l))) S2)
      as (p' & Hr & Hkeep & E).
    + eapply ready_le; [exact S9|nia].
    + nia.
    + change (zlen (@nil Z)) with 0. lia.
    + rewrite <- Hps, S12. by apply key_ok_arg.
    + lia.
    + exact Hmr.
    + by apply Hrun.
    + rewrite E. destruct (session_read _ _ _ _ _ _ txn k Hs) as [-> Hval]. exists (set_pool eng p').
      split; [|exists h, ts, C; by apply session_keeps].
      destruct (db_read D txn k) as [v|]; cbn [fmap option_fmap option_map mbind option_bind]; [|done].
      specialize (Hval v eq_refl). destruct (stored_payload oc l Hl v Hval) as (src & _ & _ & Hdec). rewrite S12'.
      destruct (decodes_delivers oc _ _ v (zeros (li_value l)) Hdec) as (out & -> & Hout);
        [rewrite zlen_zeros by lia; apply Hval|]. cbn [mbind option_bind]. rewrite Hout. reflexivity.
  - exists eng. split; [|by exists h, ts, C]. destruct Hk as (Hz & _). unfold garry_storage_get.
    rewrite decide_False by lia. rewrite decide_False by (unfold WalLog.GARRY_MAX_KEY_SIZE; lia). rewrite Hact. reflexivity.
Qed.
(** The end of a transaction. *)
Lemma session_ended n eng D h ts C ts' rec eng' txn :
  session_at oc l (n + 1) eng D h ts C -> 0 <= n -> ended h (n * call_cost l + call_cost l) [] eng ts' C rec eng' ->
  e_lock_mgr eng' = garry_lock_release (garry_lock_release (e_lock_mgr eng) txn) txn ->
  session oc l n eng' (ended_txn D txn (map txn_view ts')).
Proof.
  intros Hs Hn [E1 E2 E3 E4 [El Er] E6 E7 [I1 I2 I3]] Hlk.
  pose proof (session_le _ n _ _ _ _ _ Hs ltac:(lia)) as [U1 U2 U3 U4 U5 [U6 U6'] U7 U8 U9 U10 U11 (U12 & U12' & U12'') U13].
  pose proof (se_log _ _ _ _ _ _ _ _ Hs) as [Hlsn _]. destruct E3 as [K1 K2 K3 K4].
  destruct (lock_release_view (e_lock_mgr eng) txn U6) as [Hw1 Hv1]. destruct (lock_release_view _ txn Hw1) as [Hw2 Hv2].
  exists h, ts', C. split; cbn [ended_txn db_next db_txns db_locks db_history]; try done.
  - by rewrite I3.
  - rewrite Hlk. split; [exact Hw2|]. rewrite Hv2, Hv1, U6'. symmetry. apply filter_all. by intros x [Hx _]%list_elem_of_filter.
  - by rewrite K3.
  - split; [lia|exact Er].
  - by rewrite E6, E7, I2.
  - by rewrite K1.
Qed.

Lemma session_log n eng D h ts C : session_at oc l (n + 1) eng D h ts C -> 0 <= n -> log_ready (e_wal eng).
Proof. intros Hs Hn. destruct (se_log _ _ _ _ _ _ _ _ Hs) as [Hlsn Hr]. apply Hr. lia. Qed.

Lemma step_commit n eng D txn :
  session oc l (n + 1) eng D -> 0 <= n -> is_i32 txn ->
  exists eng', exec oc (li_value l) eng (CommitTxn txn) = Some (eng', (step D (CommitTxn txn)).2) /\
    session oc l n eng' (step D (CommitTxn txn)).1.
Proof.
  intros (h & ts & C & Hs) Hn Htx. pose proof (session_le _ n _ _ _ _ _ Hs ltac:(lia)) as Hs'.
  destruct (storage_commit_spec h (n * call_cost l + call_cost l) [] eng ts C txn (se_store _ _ _ _ _ _ _ _ Hs) (se_ready _ _ _ _ _ _ _ _ Hs')
    (session_log _ _ _ _ _ _ Hs Hn) Htx) as (eng' & E & He & Hlk).
  cbn [exec db_step fst snd]. rewrite E. exists eng'. split; [reflexivity|].
  rewrite (se_txns _ _ _ _ _ _ _ _ Hs), <- committed_view. by eapply session_ended.
Qed.

Lemma step_rollback n eng D txn :
  session oc l (n + 1) eng D -> 0 <= n -> is_i32 txn ->
  exists eng', exec oc (li_value l) eng (RollbackTxn txn) = Some (eng', (step D (RollbackTxn txn)).2) /\
    session oc l n eng' (step D (RollbackTxn txn)).1.
Proof.
  intros (h & ts & C & Hs) Hn Htx. pose proof (session_le _ n _ _ _ _ _ Hs ltac:(lia)) as Hs'.
  destruct (storage_rollback_spec h (n * call_cost l + call_cost l) [] eng ts C txn (se_store _ _ _ _ _ _ _ _ Hs) (se_ready _ _ _ _ _ _ _ _ Hs')
    (session_log _ _ _ _ _ _ Hs Hn) Htx) as (eng' & E & He & Hlk).
  destruct (se_store _ _ _ _ _ _ _ _ Hs) as (m & fp & Hst).
  cbn [exec db_step fst snd]. rewrite E. exists eng'. split; [reflexivity|].
  rewrite (se_txns _ _ _ _ _ _ _ _ Hs), <- rolled_back_view by (eapply txns_nodup, Hst). by eapply session_ended.
Qed.

(** A write: the lock table is [mgr], and the chain [c] of the key, old or new, got the
    cell [x] if its page had room. *)
Lemma session_wrote n eng D h ts C txn k w L mgr c x eng' (ok : bool) h' :
  session_at oc l (n + 1) eng D h ts C -> 0 <= n -> lm_wf mgr -> map lock_view (lm_head mgr) = L ->
  C !! k = Some c \/ C !! k = None /\ c.2 = [] -> cell_is oc l x (txn, w) -> zlen (c_pages x) <= value_pages l ->
  ok = bool_decide (chain_fits (li_page_size l) c.2 (cell_size x)) -> h' = h \/ h' = S h ->
  store h' eng' (if ok then alter_txn (noted c.1) ts txn else ts)
    (<[k := (c.1, if ok then c.2 ++ [x] else c.2)]> C) ->
  ready (n * call_cost l + call_cost l) [] [] (e_pool eng') -> p_capacity (e_pool eng') = p_capacity (e_pool eng) ->
  e_lock_mgr eng' = mgr -> log_grown (e_wal eng) (e_wal eng') -> same_identity eng eng' ->
  e_compression eng' = e_compression eng -> e_page_size eng' = e_page_size eng ->
  p_next_page (e_pool eng') <= p_next_page (e_pool eng) + call_ids l ->
  exists D', db_write (page_room oc l) (with_locks D L) txn k w = (D', AnswerStatus ok) /\ session oc l n eng' D'.
Proof.
  intros Hs Hn Hwf HL Hc Hx Hpg Hok Hh Hst Hr Hcap Hlk [Gl Gr] [I1 I2 I3] Hcomp Hps Hid.
  set (vs := default [] (db_history D !! k)).
  assert (HF : Forall2 (cell_is oc l) c.2 vs).
  { pose proof (history_at _ _ _ _ _ _ k Hs) as Hk. subst vs. destruct Hc as [Hc|[Hc Hc2]]; rewrite Hc in Hk.
    - by destruct Hk as (vs & -> & HF).
    - rewrite Hk, Hc2. constructor. }
  assert (Eok : page_room oc l vs w = ok) by (rewrite Hok; symmetry; apply room_fits; [exact HF|exact (cell_is_size oc l x _ Hx)]).
  unfold db_write. cbn [with_locks db_history]. fold vs. rewrite Eok. eexists. split; [reflexivity|].
  pose proof Hs as [S1 S2 S3 S4 [S5 S5'] S6 S7 S8 S9 S10 [S11 S11'] (S12 & S12' & S12'') S13].
  exists h', (if ok then alter_txn (noted c.1) ts txn else ts), (<[k := (c.1, if ok then c.2 ++ [x] else c.2)]> C).
  split; cbn [with_versions with_locks db_next db_txns db_locks db_history]; try done.
  - pose proof value_pages_nonneg. nia.
  - destruct Hh as [-> | ->]; lia.
  - by rewrite noted_view.
  - rewrite I3. split; [exact S5|lia].
  - by rewrite Hlk.
  - apply map_Forall2_insert_2; [|exact S7]. cbn [snd]. destruct ok; [|exact HF].
    apply Forall2_app; [exact HF|]. constructor; [exact Hx|constructor].
  - pose proof value_pages_nonneg as Hv. intros k' c'. rewrite lookup_insert_Some. intros [[<- <-]|[_ Hc']]; [|specialize (S8 k' c' Hc'); nia].
    cbn [snd]. assert (Hold : zlen (chain_pages c.2) + (n + 1) * value_pages l <= li_pages l).
    { destruct Hc as [Hc|[Hc ->]]; [by eapply S8|]. exact (proj2 S1). }
    destruct ok; [rewrite chain_pages_snoc, zlen_app|]; nia.
  - nia.
  - split; [lia|exact Gr].
  - by rewrite Hps, Hcomp, I2.
  - lia.
Qed.

(** What turns a write away: the transaction, or somebody else's lock. *)
Lemma set_turned_away eng txn k v :
  0 < zlen k <= 255 -> garry_txn_is_active txn eng = Some false \/
    (garry_txn_is_active txn eng = Some true /\
     garry_lock_acquire (e_lock_mgr eng) txn k (zlen k) GARRY_LOCK_EXCLUSIVE (oc_lock oc) = Some (e_lock_mgr eng, false)) ->
  garry_storage_set oc eng txn k (zlen k) (Some v) (zlen v) = Some (eng, false).
Proof.
  intros Hz H. pose proof (zlen_nonneg v). unfold garry_storage_set. rewrite decide_False by lia.
  rewrite decide_False by (unfold WalLog.GARRY_MAX_KEY_SIZE; lia). rewrite decide_False by (intros [?|[_ ?]]; [lia|done]).
  destruct H as [-> |[-> H]]; cbn [mbind option_bind negb]; [reflexivity|]. rewrite H. cbn [mbind option_bind negb].
  by rewrite set_lock_mgr_same.
Qed.

Lemma delete_turned_away eng txn k :
  0 < zlen k <= 255 -> garry_txn_is_active txn eng = Some false \/
    (garry_txn_is_active txn eng = Some true /\
     garry_lock_acquire (e_lock_mgr eng) txn k (zlen k) GARRY_LOCK_EXCLUSIVE (oc_lock oc) = Some (e_lock_mgr eng, false)) ->
  garry_storage_delete oc eng txn k (zlen k) = Some (eng, false).
Proof.
  intros Hz H. unfold garry_storage_delete. rewrite decide_False by lia.
  destruct H as [-> |[-> H]]; cbn [mbind option_bind negb]; [reflexivity|]. rewrite H. cbn [mbind option_bind negb].
  by rewrite set_lock_mgr_same.
Qed.

(** The start of a write, in the engine and in the database. *)
Lemma write_start n eng D h ts C txn k go :
  session_at oc l n eng D h ts C -> key_ok l k ->
  (db_locked D txn k go = (D, AnswerStatus false) /\
   (garry_txn_is_active txn eng = Some false \/ garry_txn_is_active txn eng = Some true /\
    garry_lock_acquire (e_lock_mgr eng) txn k (zlen k) GARRY_LOCK_EXCLUSIVE (oc_lock oc) = Some (e_lock_mgr eng, false))) \/
  exists L mgr, db_locked D txn k go = go (with_locks D L) /\ running ts txn /\
    garry_lock_acquire (e_lock_mgr eng) txn k (zlen k) GARRY_LOCK_EXCLUSIVE (oc_lock oc) = Some (mgr, true) /\
    lm_wf mgr /\ map lock_view (lm_head mgr) = L.
Proof.
  intros Hs (Hz & _). destruct (session_running _ _ _ _ _ _ txn Hs) as [Hact Hrun]. unfold db_locked.
  destruct (db_running D txn); [|left; split; [done|by left]].
  destruct (se_locks _ _ _ _ _ _ _ _ Hs) as [Hwf HL]. destruct (lo_lock _ _ Hl) as (g & Hg & Hgz). rewrite HL, Hg.
  pose proof (lock_acquire_view (e_lock_mgr eng) txn k g Hwf Hgz) as Ha. specialize (Ha ltac:(unfold KeyEncoding.GARRY_MAX_KEY_SIZE; lia)).
  destruct (take_lock _ txn k) as [L|]; [|left; split; [done|by right]].
  destruct Ha as (mgr & Ea & Hw & Hv). right. exists L, mgr. split; [done|]. split; [by apply Hrun|]. by split.
Qed.

Lemma step_set n eng D txn k v :
  session oc l (n + 1) eng D -> 0 <= n -> is_i32 txn -> key_ok l k -> value_ok l v ->
  exists eng', exec oc (li_value l) eng (SetKey txn k v) = Some (eng', (step D (SetKey txn k v)).2) /\
    session oc l n eng' (step D (SetKey txn k v)).1.
Proof.
  intros (h & ts & C & Hs) Hn Htx Hk Hv. cbn [db_step exec].
  destruct (write_start _ _ _ _ _ _ txn k (fun D => db_write (page_room oc l) D txn k (Some v)) Hs Hk) as [[-> Hno]|(L & mgr & -> & Hrun & Hlk & Hwf & HL)].
  { rewrite (set_turned_away eng txn k v (proj1 Hk) Hno). exists eng. split; [reflexivity|]. exists h, ts, C. apply (session_le (n + 1)); [exact Hs|lia]. }
  destruct (stored_payload oc l Hl v Hv) as (src & Hpay & Hlen & Hdec). pose proof (zlen_nonneg (stored_form oc l v)) as Hlen0.
  pose proof (value_ok_max v Hv) as Hvm. pose proof (set_pages_le _ (conj Hlen0 Hlen)) as Hsp. pose proof (log_pages_le _ Hvm) as Hlp.
  pose proof Hs as [S1 S2 S3 S4 [S5 S5'] S6 S7 S8 S9 S10 [S11 S11'] (S12 & S12' & S12'') S13].
  assert (Hcall : set_cost h (li_page_size l) (zlen v) (zlen (stored_form oc l v)) <= call_cost l).
  { unfold set_cost, create_cost, insert_cost, call_cost, level_cost. pose proof (lo_pages _ _ Hl). lia. }
  assert (Hset : can_store oc h (n * call_cost l + call_cost l) [] eng ts C txn k (zlen k) k v (zlen v) v src (zlen (stored_form oc l v)) (stored_form oc l v) mgr).
  { pose proof call_cost_nonneg as Hcc. destruct Hl as [L1 L2 L3 L4 L5 L6 L7 L8 L9 L10]. split; rewrite ?S12, ?S12'; try done.
    - by apply key_ok_arg.
    - by apply slice_all.
    - unfold stored_max in *. lia.
    - eapply ready_le; [exact S9|]. unfold set_cost, create_cost, insert_cost, level_cost in *. nia.
    - nia.
    - unfold call_ids in *. nia.
    - apply (session_log _ _ _ _ _ _ Hs Hn).
    - lia. }
  destruct (storage_set_spec _ _ _ _ _ _ _ _ _ _ _ _ _ _ _ _ _ _ Hset) as (eng' & ok & h' & c & pages & E & [D1 D2 D3 D4 D5 D6 D7 D8 D9 D10 _ D12 D13 D14 D15]).
  rewrite S12 in D3, D4, D14, D15. rewrite E. cbn [mbind option_bind].
  destruct (session_wrote n eng D h ts C txn k (Some v) L mgr c (Cell txn (Some (stored_form oc l v)) pages) eng' ok h') as (D' & -> & HD); try done.
  - split; cbn [c_txn c_value c_pages fst snd fmap option_fmap option_map]; [done|done|by intros ? [= <-]|by intros ? [= <-]].
  - cbn [c_pages]. lia.
  - unfold call_ids. lia.
  - exists eng'. by split.
Qed.

Lemma step_delete n eng D txn k :
  session oc l (n + 1) eng D -> 0 <= n -> is_i32 txn -> key_ok l k ->
  exists eng', exec oc (li_value l) eng (DeleteKey txn k) = Some (eng', (step D (DeleteKey txn k)).2) /\
    session oc l n eng' (step D (DeleteKey txn k)).1.
Proof.
  intros (h & ts & C & Hs) Hn Htx Hk. cbn [db_step exec].
  match goal with |- context [db_locked D txn k ?go] =>
    destruct (write_start _ _ _ _ _ _ txn k go Hs Hk) as [[-> Hno]|(L & mgr & -> & Hrun & Hlk & Hwf & HL)] end.
  { rewrite (delete_turned_away eng txn k (proj1 Hk) Hno). exists eng. split; [reflexivity|]. exists h, ts, C. apply (session_le (n + 1)); [exact Hs|lia]. }
  pose proof (session_le _ n _ _ _ _ _ Hs ltac:(lia)) as [U1 U2 U3 U4 U5 U6 U7 U8 U9 U10 U11 (U12 & U12' & U12'') U13].
  pose proof (read_cost_le _ _ _ _ _ _ k Hs) as Hcost. pose proof (read_cost_nonneg h C k) as Hrc. pose proof (session_log _ _ _ _ _ _ Hs Hn) as Hlog.
  assert (Hdel : can_delete oc h (n * call_cost l + call_cost l) [] eng ts C txn k (zlen k) k mgr).
  { pose proof Hs as [_ _ S3 _ _ _ _ _ S9 _ _ _ _]. destruct Hl as [L1 L2 L3 L4 L5 L6 L7 L8 L9 L10]. split; rewrite ?U12; try done.
    - by apply key_ok_arg.
    - eapply ready_le; [exact S9|nia].
    - nia.
    - change (zlen (@nil Z)) with 0. lia.
    - lia. }
  destruct (storage_delete_spec _ _ _ _ _ _ _ _ _ _ _ _ Hdel) as (eng' & ok & ts' & C' & E & [D1 D2 D3 D4 D5 D6 D7 [I1 I2 I3] D9]).
  rewrite E. cbn [mbind option_bind with_locks db_history]. pose proof (history_at _ _ _ _ _ _ k Hs) as Hh. rewrite U12 in D1.
  destruct (C !! k) as [c|] eqn:Ec.
  - destruct Hh as (vs & -> & _). destruct D1 as (Hok & -> & -> & Hgrow & _). pose proof value_pages_nonneg as Hvp.
    destruct (session_wrote n eng D h ts C txn k None L mgr c (Cell txn None []) eng' ok h) as (D' & -> & HD); try done.
    + by left.
    + by left.
    + unfold call_ids. lia.
    + exists eng'. by split.
  - rewrite Hh. destruct D1 as (-> & -> & -> & Hw). exists eng'. split; [reflexivity|]. exists h, ts, C.
    split; cbn [with_locks db_next db_txns db_locks db_history]; rewrite ?D9, ?D4, ?D5, ?Hw, ?I2, ?I3, ?D6, ?D7; try done.
Qed.

Lemma step_refines n eng D c :
  session oc l (n + 1) eng D -> 0 <= n -> call_ok l c ->
  exists eng', exec oc (li_value l) eng c = Some (eng', (step D c).2) /\ session oc l n eng' (step D c).1.
Proof.
  intros Hs Hn Hc. destruct c as [|txn k|txn k v|txn k|txn|txn]; cbn [call_ok] in Hc.
  - by apply step_begin.
  - by apply step_get.
  - destruct Hc as (? & ? & ?). by apply step_set.
  - destruct Hc. by apply step_delete.
  - by apply step_commit.
  - by apply step_rollback.
Qed.

(** Any sequence of calls gives the answers of the database. *)
Lemma run_refines n eng D cs :
  session oc l (n + zlen cs) eng D -> 0 <= n -> Forall (call_ok l) cs ->
  exists eng', run oc (li_value l) eng cs = Some (eng', (db_run (li_max_txns l) (page_room oc l) D cs).2) /\
    session oc l n eng' (db_run (li_max_txns l) (page_room oc l) D cs).1.
Proof.
  revert eng D. induction cs as [|c cs IH]; intros eng D Hs Hn Hc.
  - exists eng. split; [reflexivity|]. change (zlen (@nil call)) with 0 in Hs. by rewrite Z.add_0_r in Hs.
  - apply Forall_cons in Hc as [Hc Hcs]. rewrite zlen_cons in Hs. pose proof (zlen_nonneg cs).
    destruct (step_refines (n + zlen cs) eng D c) as (eng1 & E1 & Hs1); [by replace (n + zlen cs + 1) with (n + (1 + zlen cs)) by lia|lia|exact Hc|].
    cbn [run db_run]. rewrite E1. destruct (step D c) as [D1 a]. cbn [fst snd mbind option_bind] in *.
    destruct (IH eng1 D1 Hs1 Hn Hcs) as (eng2 & -> & Hs2). cbn [mbind option_bind].
    destruct (db_run (li_max_txns l) (page_room oc l) D1 cs) as [D2 rest]. by exists eng2.
Qed.

(** A new engine stands for the empty database. *)
Record can_start (s : garry_engine_settings) (wfd : garry_file_descriptor) (n : Z) : Prop := {
  ct_settings : es_page_size s = li_page_size l /\ es_compression s = li_compression l /\ es_max_txns s = li_max_txns l;
  ct_pool : 3 <= es_pool_size s;
  ct_log : f_open wfd = true /\ f_tape wfd = [] /\ f_pos wfd = zlen (f_bytes wfd);
  ct_calls : 0 <= n < 2 ^ 31 - 1;
  ct_height : n <= li_height l;
  ct_pages : n * value_pages l <= li_pages l;
  ct_accesses : n * call_cost l + call_cost l < 2 ^ 32 - 20;
  ct_ids : 2 + n * call_ids l <= id_limit
}.

Lemma session_start s wfd n eng :
  can_start s wfd n -> created (n * call_cost l + call_cost l) s wfd eng -> session oc l n eng new_database.
Proof.
  intros [(T1 & T2 & T3) T4 (T5 & T6 & T7) T8 T9 T10 T11 T12] [C1 C2 _ _ _ _ C7 C8 C9 (D1 & D2 & D3 & D4) C10].
  exists 0%nat, [], ∅. split; cbn [new_database db_next db_txns db_locks db_history]; rewrite ?C7, ?C8, ?C9, ?C10, ?D1, ?D2, ?D3, ?D4; try done.
  - lia.
  - by exists [], [1].
  - lia.
  - split; [apply create_wf|done].
  - apply map_Forall2_empty.
  - split; [cbn; lia|]. intros _. split; [exact T5|exact T6|exact T7|cbn; lia].
Qed.
End Refinement.

(** * What a get can return *)

(** The versions of a database were set by the calls [past], each by a transaction
    that is in the table or was committed. *)
Record traced (past : list call) (D : database) : Prop := {
  tc_set : forall k vs a v, db_history D !! k = Some vs -> (a, Some v) ∈ vs -> SetKey a k v ∈ past;
  tc_author : forall k vs w, db_history D !! k = Some vs -> w ∈ vs -> w.1 ∈ map fst (db_txns D) \/ CommitTxn w.1 ∈ past
}.

Lemma traced_more past c D : traced past D -> traced (past ++ [c]) D.
Proof.
  intros [T1 T2]. split.
  - intros k vs a v Hk Hv. apply elem_of_app. left. by eapply T1.
  - intros k vs w Hk Hw. destruct (T2 k vs w Hk Hw) as [?|?]; [by left|right]. apply elem_of_app. by left.
Qed.

Lemma traced_write room past D txn k w :
  traced past D -> txn ∈ map fst (db_txns D) -> (forall v, w = Some v -> SetKey txn k v ∈ past) -> traced past (db_write room D txn k w).1.
Proof.
  intros [T1 T2] Htxn Hw. assert (Hvs : forall u, u ∈ (if room (default [] (db_history D !! k)) w
      then default [] (db_history D !! k) ++ [(txn, w)] else default [] (db_history D !! k)) ->
    u = (txn, w) \/ exists vs, db_history D !! k = Some vs /\ u ∈ vs).
  { intros u Hu. assert (Hin : u ∈ default [] (db_history D !! k) \/ u = (txn, w)).
    { destruct (room _ w); [|by left]. apply elem_of_app in Hu as [?|Hu]; [by left|right]. by apply list_elem_of_singleton in Hu. }
    destruct Hin as [Hin|?]; [right|by left]. destruct (db_history D !! k) as [vs|]; [by exists vs|by apply not_elem_of_nil in Hin]. }
  split; cbn [db_write fst with_versions db_history db_txns].
  - intros k' vs' a v. rewrite lookup_insert_Some. intros [[<- <-]|[_ Hk]] Hin; [|by eapply T1].
    destruct (Hvs _ Hin) as [[= -> Hv]|(vs & Hk & Hin')]; [by apply Hw|by eapply T1].
  - intros k' vs' u. rewrite lookup_insert_Some. intros [[<- <-]|[_ Hk]] Hin; [|by eapply T2].
    destruct (Hvs _ Hin) as [-> |(vs & Hk & Hin')]; [by left|by eapply T2].
Qed.

Lemma traced_locked past D txn k go :
  traced past D -> (forall L, txn ∈ map fst (db_txns D) -> traced past (go (with_locks D L)).1) -> traced past (db_locked D txn k go).1.
Proof.
  intros HD Hgo. unfold db_locked, db_running. case_bool_decide as Hr; [|exact HD].
  destruct (take_lock (db_locks D) txn k) as [L|]; [|exact HD]. apply Hgo. apply list_elem_of_fmap. by exists (txn, false).
Qed.

Lemma traced_locks past D L : traced past D -> traced past (with_locks D L).
Proof. by intros [T1 T2]. Qed.

Lemma traced_step limit room past D c : traced past D -> traced (past ++ [c]) (db_step limit room D c).1.
Proof.
  intros HD. pose proof (traced_more past c D HD) as HD'. pose proof HD as [T1 T2].
  assert (Hc : c ∈ past ++ [c]) by (apply elem_of_app; right; by left).
  destruct c as [|txn k|txn k v|txn k|txn|txn]; cbn [db_step].
  - case_decide; [|exact HD']. destruct HD' as [T1' T2']. split; cbn [fst db_history db_txns]; [exact T1'|].
    intros k vs w Hk Hw. destruct (T2' k vs w Hk Hw) as [?|?]; [left|by right]. rewrite map_app. apply elem_of_app. by left.
  - exact HD'.
  - apply traced_locked; [exact HD'|]. intros L Htxn. apply traced_write; [by apply traced_locks|exact Htxn|]. by intros ? [= <-].
  - apply traced_locked; [exact HD'|]. intros L Htxn. cbn [with_locks db_history].
    destruct (db_history D !! k); [|by apply traced_locks]. by apply traced_write; [apply traced_locks|exact Htxn|].
  - destruct HD' as [T1' _]. split; cbn [fst ended_txn db_history db_txns]; [exact T1'|]. intros k vs w Hk Hw.
    destruct (decide (w.1 = txn)) as [->|Hne]; [by right|]. destruct (T2 k vs w Hk Hw) as [Hin|Hin].
    + left. apply list_elem_of_fmap in Hin as (t & Ht & Hin). apply list_elem_of_fmap. exists t. split; [exact Ht|].
      apply list_elem_of_filter. split; [congruence|exact Hin].
    + right. apply elem_of_app. by left.
  - destruct HD' as [T1' T2']. split; cbn [fst ended_txn db_history db_txns]; [exact T1'|].
    assert (Hm : map fst (map (mark_rolled_back txn) (db_txns D)) = map fst (db_txns D)).
    { rewrite map_map. apply map_ext. intros t. unfold mark_rolled_back. by case_decide. }
    rewrite Hm. exact T2'.
Qed.

(** Nothing is read that was not set by the reader itself, or by an older transaction
    after whose set it was committed. *)
Lemma reads_traced limit room past D cs i txn k v :
  traced past D -> cs !! i = Some (GetKey txn k) -> (db_run limit room D cs).2 !! i = Some (AnswerValue (Some v)) ->
  exists author, SetKey author k v ∈ past ++ take i cs /\
    (author = txn \/ author < txn /\ CommitTxn author ∈ past ++ take i cs).
Proof.
  revert past D i. induction cs as [|c cs IH]; intros past D i HD Hi Ha; [done|]. cbn [db_run] in Ha.
  pose proof (traced_step limit room past D c HD) as HD1. destruct (db_step limit room D c) as [D1 a] eqn:Es.
  specialize (IH (past ++ [c]) D1). destruct (db_run limit room D1 cs) as [D2 rest]. cbn [fst snd] in *. destruct i as [|i].
  - injection Hi as ->. injection Ha as ->. cbn [db_step] in Es. injection Es as _ Hr. cbn [take]. rewrite app_nil_r.
    destruct (db_running D txn); [|discriminate Hr]. unfold db_read, read_versions in Hr.
    destruct (last _) as [[author w]|] eqn:El; [|discriminate Hr]. cbn [mbind option_bind snd] in Hr. subst w.
    apply last_Some_elem_of, list_elem_of_filter in El as [Hvis Hin]. destruct HD as [T1 T2].
    destruct (db_history D !! k) as [vs|] eqn:Ek; [|by apply not_elem_of_nil in Hin]. cbn [default] in Hin. exists author.
    split; [by eapply T1|]. destruct Hvis as [?|[Hlt Hni]]; [by left|right]. split; [exact Hlt|].
    destruct (T2 k vs _ Ek Hin) as [?|?]; [contradiction|done].
  - cbn [lookup list_lookup] in Hi, Ha. destruct (IH i HD1 Hi Ha) as (author & H1 & H2). rewrite <- app_assoc in H1, H2.
    exists author. split; [exact H1|exact H2].
Qed.

(** * The property *)

(** C1: sessions.  A new engine, and then any calls of begin, get, set, delete, commit
    and rollback, in any order and by any transactions, running or not, within the
    bounds of [limits] and with the memory there: every call returns, without touching
    memory it should not, the answer that the small database of versions gives; when
    they are done the engine stands for the database that is left.  In particular
    a get returns a value only if the reader itself set it before under that
    key, or a transaction with a smaller id that was committed before did. *)
Theorem session_refines os m path s fd wfd oc l cs
  (Hm : mem_ok m) (Hfd : os path (GARRY_O_RDWR + GARRY_O_CREAT) = fd)
  (Hwfd : os (wal_path path) (GARRY_O_RDWR + GARRY_O_CREAT) = wfd)
  (Ho : f_open fd = true) (Ht : f_tape fd = []) (Hb : f_bytes fd = [])
  (Hs : settings_ok s) (Hl : limits_ok oc l) (Hstart : can_start l s wfd (zlen cs)) (Hcs : Forall (call_ok l) cs) :
  exists eng eng' answers, garry_storage_init os m (Some path) s = Some (Opened eng) /\
    run oc (li_value l) eng cs = Some (eng', answers) /\
    answers = (db_run (li_max_txns l) (page_room oc l) new_database cs).2 /\
    session oc l 0 eng' (db_run (li_max_txns l) (page_room oc l) new_database cs).1 /\
    forall i txn k v, cs !! i = Some (GetKey txn k) -> answers !! i = Some (AnswerValue (Some v)) ->
      exists author, SetKey author k v ∈ take i cs /\ (author = txn \/ author < txn /\ CommitTxn author ∈ take i cs).
Proof.
  pose proof (zlen_nonneg cs) as Hz. pose proof (ct_height _ _ _ _ Hstart) as Hh.
  pose proof (call_cost_nonneg oc l Hl ltac:(lia)) as Hk. pose proof (ct_accesses _ _ _ _ Hstart) as Ha.
  destruct (engine_init_spec os m path s fd wfd (zlen cs * call_cost l + call_cost l)) as (eng & E & Hc); try done;
    [apply Hstart|nia|].
  destruct (run_refines oc l Hl 0 eng new_database cs) as (eng' & Er & Hend); [|lia|exact Hcs|].
  - rewrite Z.add_0_l. by apply (session_start oc l s wfd).
  - exists eng, eng'. eexists. split; [exact E|]. split; [exact Er|]. split; [reflexivity|]. split; [exact Hend|].
    intros i txn k v Hi Hv. apply (reads_traced (li_max_txns l) (page_room oc l) [] new_database cs i txn k v); [|exact Hi|exact Hv].
    split; cbn [new_database db_history]; [intros k' vs a v'|intros k' vs w]; by rewrite lookup_empty.
Qed.

(** * Witness *)

Definition session_oc : outcomes := Outcomes (fun _ => true) (Some (zeros 256)) malloc_zeros true true (fun _ => all_reads) 40.
Definition session_limits : limits := Limits 4096 0 4 1000 30 100.

(** Two transactions compete for a key; the second one, a reader of the first's commit,
    is rolled back; a third deletes the key. *)
Definition session_calls : list call :=
  [BeginTxn; BeginTxn; SetKey 1 [107] [9]; GetKey 2 [107]; SetKey 2 [107] [8]; CommitTxn 1; GetKey 2 [107];
   SetKey 2 [107] [7; 7]; GetKey 2 [107]; RollbackTxn 2; BeginTxn; GetKey 3 [107]; DeleteKey 3 [107]; GetKey 3 [107]].
Definition session_answers : list answer :=
  [AnswerId 1; AnswerId 2; AnswerStatus true; AnswerValue None; AnswerStatus false; AnswerDone; AnswerValue (Some [9]);
   AnswerStatus true; AnswerValue (Some [7; 7]); AnswerDone; AnswerId 3; AnswerValue (Some [9]); AnswerStatus true; AnswerValue None].

Lemma session_limits_ok : limits_ok session_oc session_limits.
Proof.
  split; cbn [session_limits li_page_size li_compression li_value li_height li_pages].
  - vm_compute. split; discriminate.
  - vm_compute. split; discriminate.
  - vm_compute. split; [discriminate|reflexivity].
  - intros q. reflexivity.
  - exists (zeros 256). split; [reflexivity|vm_compute; reflexivity].
  - reflexivity.
  - intros cid. reflexivity.
  - discriminate.
  - vm_compute. reflexivity.
  - lia.
Qed.

Lemma session_key_ok : key_ok session_limits [107].
Proof.
  split; [vm_compute; split; [reflexivity|discriminate]|]. split; [apply Forall_singleton; unfold is_byte; lia|].
  vm_compute. discriminate.
Qed.

Lemma session_calls_ok : Forall (call_ok session_limits) session_calls.
Proof.
  assert (Hv : forall v, zlen v <= 1000 -> value_ok session_limits v) by (intros v Hv; split; [exact Hv|discriminate]).
  pose proof session_key_ok as Hk. assert (Hi : forall t, 1 <= t <= 3 -> is_i32 t) by (unfold is_i32; lia).
  unfold session_calls. repeat (apply Forall_cons; split; [cbn [call_ok]|]); try exact I; try exact Hk; try (apply Hi; lia).
  - split; [apply Hi; lia|]. split; [exact Hk|]. apply Hv. vm_compute. discriminate.
  - split; [apply Hi; lia|]. split; [exact Hk|]. apply Hv. vm_compute. discriminate.
  - split; [apply Hi; lia|]. split; [exact Hk|]. apply Hv. vm_compute. discriminate.
  - split; [apply Hi; lia|exact Hk].
  - constructor.
Qed.

Lemma session_can_start : can_start session_limits sample_settings new_file (zlen session_calls).
Proof.
  split; cbn [sample_settings es_page_size es_compression es_max_txns es_pool_size].
  - split; [|split]; reflexivity.
  - lia.
  - split; [|split]; reflexivity.
  - vm_compute. split; [discriminate|reflexivity].
  - vm_compute. discriminate.
  - vm_compute. discriminate.
  - vm_compute. reflexivity.
  - vm_compute. discriminate.
Qed.

Lemma session_refines_witness : exists eng eng',
  garry_storage_init (sample_os new_file new_file) sample_mem (Some sample_path) sample_settings = Some (Opened eng) /\
  run session_oc 1000 eng session_calls = Some (eng', session_answers).
Proof.
  destruct (session_refines (sample_os new_file new_file) sample_mem sample_path sample_settings new_file new_file session_oc session_limits
    session_calls sample_mem_ok) as (eng & eng' & answers & E & Er & Ha & _).
  - reflexivity.
  - reflexivity.
  - reflexivity.
  - reflexivity.
  - reflexivity.
  - exact sample_settings_ok.
  - exact session_limits_ok.
  - exact session_can_start.
  - exact session_calls_ok.
  - exists eng, eng'. split; [exact E|]. assert (Hd : answers = session_answers) by (rewrite Ha; vm_compute; reflexivity).
    rewrite <- Hd. exact Er.
Defined.
