(* ===== verification/StorageCursor.v ===== *)
(** Cursors and navigation over the visible keys, [src/src/storage_cursor.c] and
    [src/src/storage_navigation.c]: the keys of the tree whose chain has a version
    that the transaction sees, in order. *)

From Stdlib Require Import Sorting.Sorted.
From stdpp Require Import gmap.
From S2P Require Import Prelude Endian KeyEncoding BtreeCompression RecordCodec SlottedPage LockTable DbHeader Lz4.
From S2P Require Import FileIo BufferPool PoolClient BtreeNode NodeView BtreeSearch BtreeModify BtreeInsert Cursor.
From S2P Require Import VersionChain Overflow WalLog Transaction MvccStore StorageOps KeyStore StorageProps.

(** * The code: cursors *)

(** The engine pointer of the cursor is the engine each operation takes. *)
Record garry_storage_cursor := StorageCursor { sc_btree : garry_btree_cursor_handle; sc_txn : Z }.

Definition garry_storage_cursor_open (oc : outcomes) (eng : garry_engine_handle) (txn : Z) (prefix : option (list Z))
    (plen : Z) : option (garry_engine_handle * garry_storage_cursor) :=
  pfx ← (match prefix with
         | Some p => if decide (plen > 0) then memcpy (zeros GARRY_MAX_KEY_SIZE) 0 p 0 plen else Some (zeros GARRY_MAX_KEY_SIZE)
         | None => Some (zeros GARRY_MAX_KEY_SIZE)
         end);
  '(pool, cur) ← garry_btree_cursor_open (oc_fuel oc) (e_pool eng) (e_btree_root eng) (Some pfx) (u32 plen);
  Some (set_pool eng pool, StorageCursor cur txn).

(** The chain of the entry the cursor stopped at; [None] inside is a [continue]. *)
Definition entry_cid (cur : garry_btree_cursor_handle) : option (option Z) :=
  if negb (bc_node_loaded cur) then Some None else
  let node := bc_current_node cur in
  let idx := i32 (bc_current_slot cur) - 1 in
  if decide (idx < 0 \/ idx >= nd_count node) then Some None else
  lookup_len ← rd (nd_value_lens node) idx;
  if decide (lookup_len <= 0 \/ lookup_len > GARRY_LOOKUP_BUF_SIZE) then Some None else
  v ← rd (nd_values node) idx;
  lookup ← memcpy (zeros GARRY_LOOKUP_BUF_SIZE) 0 v 0 lookup_len;
  cid ← garry_decode_cid_from_descriptor lookup;
  Some (if decide (cid < 0) then None else Some cid).

(** What a call of next that returns 1 writes through its pointers: the key buffer,
    [*klen], the value buffer and [*vlen], when these are written.  What a call that
    returns 0 may leave in the buffers is not kept. *)
Record cursor_item := CursorItem {
  ci_key : option (list Z); ci_klen : Z; ci_value : option (list Z); ci_vlen : option Z
}.

(** The value of the entry: the loop goes on, the call returns 0, or the value and
    its length are written. *)
Inductive handed := HandContinue | HandFail | HandOut (value : option (list Z)) (vlen : option Z).

Definition hand_out (oc : outcomes) (compression : Z) (val : list Z) (mv_len : Z) (value : option (list Z)) (has_vlen : bool)
  : option handed :=
  match value, has_vlen with
  | Some out, true =>
      if decide (compression = GARRY_COMPRESS_LZ4) then
        '(d, dec_len) ← lz4_decompress val mv_len GARRY_MAX_RECORD_SIZE (oc_buf oc);
        match d with
        | None => Some HandContinue
        | Some dec =>
            if decide (dec_len <= GARRY_MAX_RECORD_SIZE) then
              out ← memcpy out 0 dec 0 dec_len; Some (HandOut (Some out) (Some dec_len))
            else Some (HandOut value None)
        end
      else out ← memcpy out 0 val 0 mv_len; Some (HandOut (Some out) (Some mv_len))
  | Some _, false => Some HandFail
  | None, true => Some (HandOut None (Some 0))
  | None, false => Some (HandOut None None)
  end.

(** The loop of next, [calls] bounding its rounds; the inner [None] is the result 0. *)
Fixpoint storage_cursor_loop (calls : nat) (oc : outcomes) (eng : garry_engine_handle) (cur : garry_storage_cursor)
    (bkey : list Z) (key value : option (list Z)) (has_vlen : bool)
  : option (garry_engine_handle * garry_storage_cursor * option cursor_item) :=
  match calls with
  | O => None
  | S calls =>
      '(pool, bc, out) ← garry_btree_cursor_next (oc_fuel oc) (e_pool eng) (sc_btree cur) bkey;
      let eng := set_pool eng pool in
      let cur := StorageCursor bc (sc_txn cur) in
      match out with
      | None => Some (eng, cur, None)
      | Some (bkey, bklen) =>
          cid ← entry_cid bc;
          match cid with
          | None => storage_cursor_loop calls oc eng cur bkey key value has_vlen
          | Some cid =>
              '(eng, v) ← garry_mvcc_get (oc_read oc cid) eng (sc_txn cur) cid;
              match v with
              | None => storage_cursor_loop calls oc eng cur bkey key value has_vlen
              | Some (val, mv_len) =>
                  key ← (match key with
                         | Some k => k ← memcpy k 0 bkey 0 GARRY_MAX_KEY_SIZE; Some (Some k)
                         | None => Some None
                         end);
                  h ← hand_out oc (e_compression eng) val mv_len value has_vlen;
                  match h with
                  | HandContinue => storage_cursor_loop calls oc eng cur bkey key value has_vlen
                  | HandFail => Some (eng, cur, None)
                  | HandOut value vlen => Some (eng, cur, Some (CursorItem key (i32 bklen) value vlen))
                  end
              end
          end
      end
  end.

Definition garry_storage_cursor_next (oc : outcomes) (eng : garry_engine_handle) (cur : garry_storage_cursor)
    (key value : option (list Z)) (has_vlen : bool)
  : option (garry_engine_handle * garry_storage_cursor * option cursor_item) :=
  if bc_exhausted (sc_btree cur) then Some (eng, cur, None) else
  storage_cursor_loop (oc_fuel oc) oc eng cur (zeros GARRY_MAX_KEY_SIZE) key value has_vlen.

Definition garry_storage_cursor_peek (eng : garry_engine_handle) (cur : garry_storage_cursor) (key : option (list Z))
  : option (garry_engine_handle * option (option (list Z) * Z)) :=
  if bc_exhausted (sc_btree cur) then Some (eng, None) else
  '(pool, r) ← garry_btree_cursor_peek (e_pool eng) (sc_btree cur) (zeros GARRY_MAX_KEY_SIZE);
  let eng := set_pool eng pool in
  match r with
  | None => Some (eng, None)
  | Some (bkey, bklen) =>
      key ← (match key with
             | Some k => k ← memcpy k 0 bkey 0 GARRY_MAX_KEY_SIZE; Some (Some k)
             | None => Some None
             end);
      Some (eng, Some (key, i32 bklen))
  end.

(** Whether the key starts with the prefix, compared byte by byte. *)
Definition skip_match (key : list Z) (klen : Z) (skip_prefix : list Z) (skip_plen : Z) : option bool :=
  if decide (klen < skip_plen) then Some false else
  r ← scan 0 skip_plen (fun i =>
        x ← rd key i; y ← rd skip_prefix i;
        Some (if decide (x <> y) then Some false else None));
  Some (default true r).

(** The loop of the skip, [calls] bounding its rounds. *)
Fixpoint skip_loop (calls : nat) (oc : outcomes) (eng : garry_engine_handle) (cur : garry_storage_cursor) (key : list Z)
    (skip_prefix : list Z) (skip_plen : Z) : option (garry_engine_handle * garry_storage_cursor * bool) :=
  match calls with
  | O => None
  | S calls =>
      '(eng, cur, item) ← garry_storage_cursor_next oc eng cur (Some key) None false;
      match item with
      | None => Some (eng, cur, false)
      | Some it =>
          let key := default key (ci_key it) in
          let klen := ci_klen it in
          m ← skip_match key klen skip_prefix skip_plen;
          if m : bool then skip_loop calls oc eng cur key skip_prefix skip_plen
          else
            saved ← (if decide (klen <= GARRY_MAX_KEY_SIZE) then memcpy (bc_saved_key (sc_btree cur)) 0 key 0 klen
                     else Some (bc_saved_key (sc_btree cur)));
            Some (eng, StorageCursor (set_saved (sc_btree cur) saved (u32 klen) true) (sc_txn cur), true)
      end
  end.

Definition garry_storage_cursor_skip_prefix (oc : outcomes) (eng : garry_engine_handle) (cur : garry_storage_cursor)
    (skip_prefix : list Z) (skip_plen : Z) : option (garry_engine_handle * garry_storage_cursor * bool) :=
  if bc_exhausted (sc_btree cur) then Some (eng, cur, false) else
  skip_loop (oc_fuel oc) oc eng cur (zeros GARRY_MAX_KEY_SIZE) skip_prefix skip_plen.

Definition garry_storage_cursor_close (cur : garry_storage_cursor) : garry_storage_cursor :=
  StorageCursor (garry_btree_cursor_close (sc_btree cur)) (sc_txn cur).

(** * The code: navigation *)

(** The key found, in the caller's buffer, and its length. *)
Definition garry_storage_first (oc : outcomes) (eng : garry_engine_handle) (txn : Z) (key : option (list Z))
  : option (garry_engine_handle * option (option (list Z) * Z)) :=
  active ← garry_txn_is_active txn eng;
  if negb active then Some (eng, None) else
  '(eng, cur) ← garry_storage_cursor_open oc eng txn None 0;
  '(eng, _, item) ← garry_storage_cursor_next oc eng cur key None false;
  Some (eng, match item with Some it => Some (ci_key it, ci_klen it) | None => None end).

(** The rightmost leaf; the inner [None] is an internal node without keys. *)
Fixpoint last_leaf (fuel : nat) (pool : garry_buffer_pool) (page : Z) : option (garry_buffer_pool * option Z) :=
  match fuel with
  | O => None
  | S fuel =>
      '(pool, node) ← garry_load_node pool page;
      if decide (nd_kind node = GARRY_NODE_LEAF) then Some (pool, Some page)
      else if decide (nd_count node = 0) then Some (pool, None)
      else page ← rd (nd_children node) (nd_count node); last_leaf fuel pool page
  end.

(** Whether the entry at a slot has a visible version. *)
Definition slot_visible (oc : outcomes) (eng : garry_engine_handle) (txn : Z) (node : garry_btree_node) (idx : Z)
  : option (garry_engine_handle * bool) :=
  lookup_len ← rd (nd_value_lens node) idx;
  if decide (lookup_len > 0 /\ lookup_len <= GARRY_LOOKUP_BUF_SIZE) then
    v ← rd (nd_values node) idx;
    lookup ← memcpy (zeros GARRY_LOOKUP_BUF_SIZE) 0 v 0 lookup_len;
    cid ← garry_decode_cid_from_descriptor lookup;
    if decide (cid >= 0) then
      '(eng, val) ← garry_mvcc_get (oc_read oc cid) eng txn cid;
      Some (eng, bool_decide (is_Some val))
    else Some (eng, false)
  else Some (eng, false).

(** The slots of a leaf from the last one down to the first, [n] of them. *)
Fixpoint last_slot (n : nat) (oc : outcomes) (eng : garry_engine_handle) (txn : Z) (node : garry_btree_node)
  : option (garry_engine_handle * option Z) :=
  match n with
  | O => Some (eng, None)
  | S n =>
      '(eng, vis) ← slot_visible oc eng txn node (Z.of_nat n);
      if vis : bool then Some (eng, Some (Z.of_nat n)) else last_slot n oc eng txn node
  end.

(** The leaves from the last one back along [prev_page], [fuel] bounding their number. *)
Fixpoint last_walk (fuel : nat) (oc : outcomes) (eng : garry_engine_handle) (txn page : Z) (key : option (list Z))
  : option (garry_engine_handle * option (option (list Z) * Z)) :=
  match fuel with
  | O => None
  | S fuel =>
      if decide (page >= 0) then
        '(pool, node) ← garry_load_node (e_pool eng) page;
        '(eng, r) ← last_slot (Z.to_nat (nd_count node)) oc (set_pool eng pool) txn node;
        match r with
        | Some idx =>
            k ← rd (nd_keys node) idx; l ← rd (nd_key_lens node) idx;
            key ← (match key with
                   | Some b => b ← memcpy b 0 k 0 GARRY_MAX_KEY_SIZE; Some (Some b)
                   | None => Some None
                   end);
            Some (eng, Some (key, l))
        | None => last_walk fuel oc eng txn (nd_prev node) key
        end
      else Some (eng, None)
  end.

Definition garry_storage_last (oc : outcomes) (eng : garry_engine_handle) (txn : Z) (key : option (list Z))
  : option (garry_engine_handle * option (option (list Z) * Z)) :=
  active ← garry_txn_is_active txn eng;
  if negb active then Some (eng, None) else
  '(pool, r) ← last_leaf (oc_fuel oc) (e_pool eng) (e_btree_root eng);
  match r with
  | None => Some (set_pool eng pool, None)
  | Some page => last_walk (oc_fuel oc) oc (set_pool eng pool) txn page key
  end.

(** The loop of [garry_storage_next_key], [calls] bounding its rounds. *)
Fixpoint next_key_loop (calls : nat) (oc : outcomes) (eng : garry_engine_handle) (cur : garry_storage_cursor)
    (k after : list Z) (after_len : Z) (key : option (list Z))
  : option (garry_engine_handle * option (option (list Z) * Z)) :=
  match calls with
  | O => None
  | S calls =>
      '(eng, cur, item) ← garry_storage_cursor_next oc eng cur (Some k) None false;
      match item with
      | None => Some (eng, None)
      | Some it =>
          let k := default k (ci_key it) in
          c ← garry_byte_compare k (ci_klen it) after after_len;
          if decide (c > 0) then
            key ← (match key with
                   | Some b => b ← memcpy b 0 k 0 GARRY_MAX_KEY_SIZE; Some (Some b)
                   | None => Some None
                   end);
            Some (eng, Some (key, ci_klen it))
          else next_key_loop calls oc eng cur k after after_len key
      end
  end.

(** [after] is not [NULL] here. *)
Definition garry_storage_next_key (oc : outcomes) (eng : garry_engine_handle) (txn : Z) (after : list Z) (after_len : Z)
    (key : option (list Z)) : option (garry_engine_handle * option (option (list Z) * Z)) :=
  active ← garry_txn_is_active txn eng;
  if negb active then Some (eng, None) else
  if decide (after_len <= 0) then Some (eng, None) else
  '(eng, cur) ← garry_storage_cursor_open oc eng txn None 0;
  next_key_loop (oc_fuel oc) oc eng cur (zeros GARRY_MAX_KEY_SIZE) after after_len key.

(** The loop of [garry_storage_prev_key]: [best] is the key found so far. *)
Fixpoint prev_key_loop (calls : nat) (oc : outcomes) (eng : garry_engine_handle) (cur : garry_storage_cursor)
    (before : list Z) (before_len : Z) (prev_key : list Z) (found : option Z)
  : option (garry_engine_handle * (list Z * option Z)) :=
  match calls with
  | O => None
  | S calls =>
      let k := zeros GARRY_MAX_KEY_SIZE in
      '(eng, cur, item) ← garry_storage_cursor_next oc eng cur (Some k) None false;
      match item with
      | None => Some (eng, (prev_key, found))
      | Some it =>
          let k := default k (ci_key it) in
          c ← garry_byte_compare k (ci_klen it) before before_len;
          if decide (c < 0) then
            prev_key ← memcpy prev_key 0 k 0 GARRY_MAX_KEY_SIZE;
            prev_key_loop calls oc eng cur before before_len prev_key (Some (ci_klen it))
          else prev_key_loop calls oc eng cur before before_len prev_key found
      end
  end.

(** [key] and [klen] are not [NULL] here. *)
Definition garry_storage_prev_key (oc : outcomes) (eng : garry_engine_handle) (txn : Z) (before : list Z) (before_len : Z)
    (key : list Z) : option (garry_engine_handle * option (list Z * Z)) :=
  active ← garry_txn_is_active txn eng;
  if negb active then Some (eng, None) else
  if decide (before_len <= 0) then Some (eng, None) else
  '(eng, cur) ← garry_storage_cursor_open oc eng txn None 0;
  '(eng, (prev_key, found)) ← prev_key_loop (oc_fuel oc) oc eng cur before before_len (zeros GARRY_MAX_KEY_SIZE) None;
  match found with
  | Some prev_klen => key ← memcpy key 0 prev_key 0 GARRY_MAX_KEY_SIZE; Some (eng, Some (key, prev_klen))
  | None => Some (eng, None)
  end.

Definition garry_storage_exists (oc : outcomes) (eng : garry_engine_handle) (txn : Z) (key : list Z) (klen : Z)
  : option (garry_engine_handle * bool) :=
  if decide (klen <= 0) then Some (eng, false) else
  active ← garry_txn_is_active txn eng;
  if negb active then Some (eng, false) else
  '(eng, r) ← lookup_key (oc_fuel oc) eng key klen;
  match r with
  | None => Some (eng, false)
  | Some lookup =>
      cid ← garry_decode_cid_from_descriptor lookup;
      if decide (cid < 0) then Some (eng, false) else garry_mvcc_exists (rm_page (oc_read oc cid)) eng txn cid
  end.

Definition garry_storage_count (eng : garry_engine_handle) (txn : Z) : option Z :=
  active ← garry_txn_is_active txn eng;
  Some (if active : bool then e_key_count eng else 0).

(** * The entry under the cursor *)

Lemma entry_cid_spec cur e (c : chain) :
  on_entry cur e -> e.2 = descriptor_of c -> is_i32 c.1 -> 0 <= c.1 -> entry_cid cur = Some (Some c.1).
Proof.
  intros (Hl & next & prev & es & Hnd & Hle & Hs & Hrd) He Hc H0. unfold entry_cid. rewrite Hl. cbn [negb].
  unfold GARRY_MAX_KEYS_PER_NODE in Hle. rewrite i32_id by (unfold is_i32; lia). rewrite (nr_count _ _ Hnd). cbn [an_pairs].
  rewrite decide_False by lia.
  assert (Hv : rd (map snd es) (bc_current_slot cur - 1) = Some e.2) by (by rewrite rd_map, Hrd).
  destruct (node_value _ _ _ _ _ _ Hnd Hv) as (arr & -> & -> & Hsl & Hza). cbn [mbind option_bind].
  pose proof (zlen_descriptor c.1 false) as Hd. fold (descriptor_of c) in Hd. rewrite <- He in Hd.
  unfold GARRY_LOOKUP_BUF_SIZE in *. rewrite decide_False by lia.
  unfold memcpy. rewrite Hsl. cbn [mbind option_bind].
  destruct (blit_ok (zeros 512) 0 e.2) as (lookup & E & _); [lia|change (zlen (zeros 512)) with 512; lia|]. rewrite E.
  cbn [mbind option_bind]. rewrite (decode_cid_spec lookup c.1 Hc).
  - cbn [mbind option_bind]. by rewrite decide_False by lia.
  - pose proof (slice_blit _ _ _ _ E) as Hb. by rewrite He in Hb.
Qed.

(** * The next visible entry *)

(** The entries a cursor with the prefix [P] shows. *)
Definition shown (ts : list garry_txn_info) (C : chains) (txn : Z) (P : list Z) (e : entry) : Prop :=
  has_prefix P e /\ is_Some (visible_value ts C txn e.1).
#[export] Instance shown_dec ts C txn P e : Decision (shown ts C txn P e).
Proof. apply and_dec; [apply _|]. unfold is_Some. destruct (visible_value ts C txn e.1); [left; by eexists|right; by intros [? ?]]. Defined.

(** The entries of a store: every one has a chain, whose descriptor is its value. *)
Definition described (C : chains) (e : entry) : Prop := exists c, C !! e.1 = Some c /\ e.2 = descriptor_of c.

Lemma contents_found (m : list entry) e : sorted m -> e ∈ m -> contents m !! e.1 = Some e.2.
Proof.
  intros Hs. revert e. unfold contents. induction Hs as [|x m Hs IH HF]; intros e Hin; [by apply not_elem_of_nil in Hin|].
  destruct x as [k v]. cbn [list_to_map foldr fst snd] in *. apply elem_of_cons in Hin as [->|Hin]; [by rewrite lookup_insert_eq|].
  rewrite lookup_insert_ne; [by apply IH|]. intros ->. rewrite Forall_forall in HF. specialize (HF e Hin). cbn in HF.
  by apply (irreflexivity key_lt e.1).
Qed.

Lemma stored_described h eng ts C m fp : stored h eng ts C m fp -> Forall (described C) m.
Proof.
  intros Hs. apply Forall_forall. intros e He. pose proof (bt_tree _ _ _ _ _ (sd_tree _ _ _ _ _ _ Hs)) as Ht.
  apply tree_sorted in Ht. pose proof (contents_found m e Ht He) as Hc. rewrite (sd_entries _ _ _ _ _ _ Hs), lookup_fmap in Hc.
  destruct (C !! e.1) as [c|] eqn:Ec; [|done]. exists c. split; [exact Ec|]. by injection Hc.
Qed.

(** The accesses for the entries: one step of the tree's cursor and one read each. *)
Definition entry_cost (C : chains) (e : entry) : Z :=
  2 + match C !! e.1 with Some c => get_cost c.2 | None => 0 end.
Definition walk_cost (C : chains) (es : list entry) : Z := foldr Z.add 0 (map (entry_cost C) es).

Lemma entry_cost_pos C e : 2 <= entry_cost C e.
Proof. unfold entry_cost. destruct (C !! e.1) as [c|]; [pose proof (get_cost_pos c.2)|]; lia. Qed.

Lemma walk_cost_app C l1 l2 : walk_cost C (l1 ++ l2) = walk_cost C l1 + walk_cost C l2.
Proof. unfold walk_cost. induction l1 as [|e l1 IH]; [done|]. cbn [app map foldr]. lia. Qed.

Lemma walk_cost_pos C es : 0 <= walk_cost C es.
Proof. unfold walk_cost. induction es as [|e es IH]; [done|]. cbn [map foldr]. pose proof (entry_cost_pos C e). lia. Qed.

(** Dropping entries costs nothing. *)
Lemma found_split {A} (P : A -> Prop) `{forall x, Decision (P x)} (l : list A) i x :
  list_find P l = Some (i, x) ->
  exists pre, l = pre ++ x :: drop (S i) l /\ Forall (fun y => ~ P y) pre /\ P x.
Proof.
  intros (Hi & HP & Hn)%list_find_Some. exists (take i l). split; [by rewrite take_drop_middle|]. split; [|done].
  apply Forall_lookup. intros j y Hj. apply lookup_take_Some in Hj as [Hj Hlt]. by apply (Hn j).
Qed.

Lemma filter_shown_skip ts C txn P pre es :
  Forall (fun e => ~ has_prefix P e) pre -> filter (shown ts C txn P) (pre ++ es) = filter (shown ts C txn P) es.
Proof.
  intros HF. rewrite filter_app, (filter_none _ pre); [done|]. eapply Forall_impl; [exact HF|]. intros e He [Hp _]. by apply He.
Qed.

Lemma stored_keeps h eng ts C m fp p' :
  stored h eng ts C m fp -> keeps (e_pool eng) p' -> stored h (set_pool eng p') ts C m fp.
Proof.
  intros Hs Hk. apply (stored_grown h eng _ ts); [exact Hs|by apply keeps_writes|by apply (txns_rep_fields eng); [apply Hs|..]|done|done|].
  cbn. rewrite (kp_next _ _ Hk). apply Hs.
Qed.

(** What a call of next returns: the first entry that is shown, with its value handed
    out, or 0 when there is none; and where it leaves the cursor. *)
Definition next_result (oc : outcomes) (n : Z) (lim : nat) (ts : list garry_txn_info) (C : chains) (txn : Z) (P : list Z)
    (rest : list entry) (kb : list Z) (value : option (list Z)) (has_vlen : bool) (eng' : garry_engine_handle)
    (cur' : garry_storage_cursor) (item : option cursor_item) : Prop :=
  match filter (shown ts C txn P) rest with
  | [] => item = None /\ bc_exhausted (sc_btree cur') = true /\ ready n [] [] (e_pool eng')
  | e :: es => exists b kb' v l pre rest' L', visible_value ts C txn e.1 = Some b /\
      hand_out oc (e_compression eng') (b ++ [0]) (zlen b) value has_vlen = Some (HandOut v l) /\
      item = Some (CursorItem (Some kb') (zlen e.1) v l) /\ slice kb' 0 (zlen e.1) = Some e.1 /\ zlen kb' = zlen kb /\
      rest = pre ++ e :: rest' /\ es = filter (shown ts C txn P) rest' /\
      cursor_on (e_pool eng') (sc_btree cur') P rest' L' /\ (length L' <= lim)%nat /\
      ready (n + 2 * zlen L' + walk_cost C rest') [] [] (e_pool eng') /\
      bc_current_len (sc_btree cur') = zlen e.1 /\ slice (bc_current (sc_btree cur')) 0 (zlen e.1) = Some e.1 /\
      on_entry (sc_btree cur') e
  end.

(** The conditions of a walk over the entries [rest]: the store, the cursor, room for
    two pins, and a value buffer that takes the visible values. *)
Record can_walk (oc : outcomes) (h : nat) (eng : garry_engine_handle) (ts : list garry_txn_info) (C : chains)
    (m : list entry) (fp : list Z) (txn : Z) (P : list Z) (bc : garry_btree_cursor_handle) (rest : list entry) (L : list leaf)
    (value : option (list Z)) (has_vlen : bool) : Prop := {
  wk_stored : stored h eng ts C m fp;
  wk_cursor : cursor_on (e_pool eng) bc P rest L;
  wk_entries : Forall (described C) rest;
  wk_pins : 1 < p_capacity (e_pool eng);
  wk_leaves : (length L <= oc_fuel oc)%nat;
  wk_values : Forall (fun e => forall b, visible_value ts C txn e.1 = Some b ->
    exists v l, hand_out oc (e_compression eng) (b ++ [0]) (zlen b) value has_vlen = Some (HandOut v l)) rest;
  wk_reads : reads_ok oc
}.

Lemma copy_key (kb bkey k : list Z) :
  zlen bkey = GARRY_MAX_KEY_SIZE -> GARRY_MAX_KEY_SIZE <= zlen kb -> slice bkey 0 (zlen k) = Some k ->
  exists kb', memcpy kb 0 bkey 0 GARRY_MAX_KEY_SIZE = Some kb' /\ zlen kb' = zlen kb /\ slice kb' 0 (zlen k) = Some k.
Proof. intros. by apply copy_array. Qed.

Lemma cursor_loop_spec calls : forall oc h eng ts C m fp txn P bc rest L value has_vlen n bkey kb,
  can_walk oc h eng ts C m fp txn P bc rest L value has_vlen ->
  ready (n + 2 * zlen L + walk_cost C rest) [] [] (e_pool eng) -> 0 <= n ->
  zlen bkey = GARRY_MAX_KEY_SIZE -> GARRY_MAX_KEY_SIZE <= zlen kb -> (length rest < calls)%nat ->
  exists p' cur' item, storage_cursor_loop calls oc eng (StorageCursor bc txn) bkey (Some kb) value has_vlen =
      Some (set_pool eng p', cur', item) /\ keeps (e_pool eng) p' /\ sc_txn cur' = txn /\
    next_result oc n (length L) ts C txn P rest kb value has_vlen (set_pool eng p') cur' item.
Proof.
  induction calls as [|calls IH]; intros oc h eng ts C m fp txn P bc rest L value has_vlen n bkey kb [W1 W2 W3 W4 W5 W6 W7] Hr Hn Hbk Hkb Hcalls; [lia|].
  cbn [storage_cursor_loop sc_btree sc_txn]. pose proof (walk_cost_pos C rest). destruct (cursor_here _ _ _ _ _ W2) as [HL1 _].
  destruct (cursor_next_spec (e_pool eng) bc P rest L (n + walk_cost C rest) [] (oc_fuel oc) bkey W2)
    as (p1 & bc1 & out & -> & Hk1 & Hres); [eapply ready_le; [exact Hr|lia]|lia|change (zlen (@nil Z)) with 0; lia|by rewrite Hbk|exact W5|].
  cbn [mbind option_bind]. unfold cursor_result in Hres. unfold next_result.
  destruct (list_find (has_prefix P) rest) as [[i e]|] eqn:Ef.
  2: { destruct Hres as (-> & Hx & Hr1). apply list_find_None in Ef.
       rewrite (filter_none _ rest) by (eapply Forall_impl; [exact Ef|]; intros x Hx' [Hp _]; by apply Hx').
       do 3 eexists. split; [reflexivity|]. split; [exact Hk1|]. split; [reflexivity|]. split; [reflexivity|].
       split; [exact Hx|]. eapply ready_le; [exact Hr1|lia]. }
  destruct (found_split _ _ _ _ Ef) as (pre & Erest & Hpre & Hpe). set (rest1 := drop (S i) rest) in *.
  destruct Hres as (bkey1 & L1 & -> & Hsl & Hz1 & Hcur1 & HL & Hr1 & Hon & Hcl & Hcs & _).
  rewrite Erest in W3, W6 |- *. apply Forall_app in W3 as [_ W3]. apply Forall_cons in W3 as [(c & Hc & He2) W3].
  apply Forall_app in W6 as [_ W6]. apply Forall_cons in W6 as [Hval W6].
  rewrite Erest, walk_cost_app in Hr1. change (walk_cost C (e :: rest1)) with (entry_cost C e + walk_cost C rest1) in Hr1.
  unfold entry_cost in Hr1. rewrite Hc in Hr1. pose proof (walk_cost_pos C pre). pose proof (walk_cost_pos C rest1).
  destruct (cursor_here _ _ _ _ _ Hcur1) as [HL1' _]. pose proof (get_cost_pos c.2).
  pose proof (chain_id_ok _ _ _ _ _ _ _ _ W1 Hc) as [Hci Hc0].
  rewrite (entry_cid_spec bc1 e c Hon He2 Hci Hc0). cbn [mbind option_bind].
  pose proof (stored_keeps _ _ _ _ _ _ p1 W1 Hk1) as Hs1.
  rewrite W7. destruct (get_spec (n + 2 * (zlen L1 - 1) + 2 + walk_cost C rest1) [] (set_pool eng p1) ts txn c.1 c.2) as (p2 & -> & Hr2 & Hk2 & _);
    [apply Hs1|cbn; eapply ready_le; [exact Hr1|lia]|lia|cbn; rewrite (kp_capacity _ _ Hk1); change (zlen (@nil Z)) with 0; lia|apply Hs1|
     by apply (sd_chain _ _ _ _ _ _ Hs1 e.1)|].
  cbn [mbind option_bind e_compression set_pool e_pool] in *. change (set_pool (set_pool eng p1) p2) with (set_pool eng p2).
  assert (Hk : keeps (e_pool eng) p2) by (by transitivity p1).
  assert (Hvis : visible_value ts C txn e.1 = read_cells txn (map ti_txid ts) c.2) by (unfold visible_value; by rewrite Hc).
  rewrite <- Hvis. pose proof (slice_is_Some _ _ _ _ Hsl) as (_ & _ & Hkl & _). unfold GARRY_MAX_KEY_SIZE in Hbk.
  rewrite filter_shown_skip by done. rewrite filter_cons.
  destruct (visible_value ts C txn e.1) as [b|] eqn:Ev; cbn [fmap option_fmap option_map c_string].
  - rewrite decide_True by (split; [exact Hpe|by eexists]). destruct (Hval b eq_refl) as (v & l & Hh).
    destruct (copy_key kb bkey1 e.1) as (kb' & -> & Hzk & Hsk); [unfold GARRY_MAX_KEY_SIZE; lia|done|done|]. cbn [mbind option_bind].
    rewrite Hh. cbn [mbind option_bind]. rewrite i32_id by (unfold is_i32; pose proof (zlen_nonneg e.1); lia).
    do 3 eexists. split; [reflexivity|]. split; [exact Hk|]. split; [reflexivity|].
    exists b, kb', v, l, pre, rest1, L1. split; [exact Ev|]. split; [exact Hh|]. split; [reflexivity|]. split; [exact Hsk|].
    split; [exact Hzk|]. split; [reflexivity|]. split; [reflexivity|]. split; [by apply (cursor_keeps p1)|]. split; [exact HL|].
    split; [|split; [exact Hcl|split; [exact Hcs|exact Hon]]]. eapply ready_le; [exact Hr2|lia].
  - rewrite decide_False by (intros [_ [? Hb]]; rewrite Ev in Hb; discriminate).
    destruct (IH oc h (set_pool eng p2) ts C m fp txn P bc1 rest1 L1 value has_vlen n bkey1 kb) as (p3 & cur3 & item & -> & Hk3 & Ht3 & Hres3).
    + split; [by apply stored_keeps|by apply (cursor_keeps p1)|exact W3|cbn; by rewrite (kp_capacity _ _ Hk)|lia|exact W6|exact W7].
    + cbn. eapply ready_le; [exact Hr2|lia].
    + exact Hn.
    + unfold GARRY_MAX_KEY_SIZE. lia.
    + exact Hkb.
    + rewrite Erest, length_app in Hcalls. cbn [length] in Hcalls. lia.
    + exists p3, cur3, item. split; [reflexivity|]. split; [cbn in Hk3; by transitivity p2|]. split; [exact Ht3|].
      unfold next_result in Hres3. destruct (filter (shown ts C txn P) rest1) as [|e2 es2]; [exact Hres3|].
      destruct Hres3 as (b & kb' & v & l & pre3 & rest3 & L3 & Q1 & Q2 & Q3 & Q4 & Q5 & Q6 & Q7 & Q8 & Q9 & Q10).
      exists b, kb', v, l, (pre ++ e :: pre3), rest3, L3. split; [exact Q1|]. split; [exact Q2|]. split; [exact Q3|]. split; [exact Q4|].
      split; [exact Q5|]. split; [by rewrite Q6, <- app_assoc|]. split; [exact Q7|]. split; [exact Q8|]. split; [lia|exact Q10].
Qed.

(** * Opening and walking *)

(** The prefix of a cursor, as the caller gives it. *)
Definition prefix_arg (prefix : option (list Z)) (plen : Z) (P : list Z) : Prop :=
  (prefix = None /\ plen = 0 /\ P = []) \/
  exists p, prefix = Some p /\ slice p 0 plen = Some P /\ plen <= GARRY_MAX_KEY_SIZE /\ Forall is_byte P.

(** The accesses of a whole walk. *)
Definition scan_cost (h : nat) (C : chains) (m : list entry) (fp : list Z) : Z :=
  2 * (Z.of_nat h + 1) + 2 * zlen fp + walk_cost C m.

(** What the environment and the caller provide for a walk: fuel for the tree and its
    keys, accesses, and room for a pin. *)
Record can_scan (oc : outcomes) (h : nat) (n : Z) (eng : garry_engine_handle) (ts : list garry_txn_info) (C : chains)
    (m : list entry) (fp : list Z) (txn : Z) : Prop := {
  sc_stored : stored h eng ts C m fp;
  sc_running : running ts txn;
  sc_ready : ready (n + scan_cost h C m fp) [] [] (e_pool eng);
  sc_budget : 0 <= n;
  sc_pins : 1 < p_capacity (e_pool eng);
  sc_height : (h < oc_fuel oc)%nat;
  sc_leaves : (length fp <= oc_fuel oc)%nat;
  sc_keys : (length m < oc_fuel oc)%nat;
  sc_reads : reads_ok oc
}.

Lemma storage_cursor_open_spec oc h n eng ts C m fp txn prefix plen P :
  can_scan oc h n eng ts C m fp txn -> prefix_arg prefix plen P ->
  exists p' bc before rest L, garry_storage_cursor_open oc eng txn prefix plen =
      Some (set_pool eng p', StorageCursor bc txn) /\
    m = before ++ rest /\ Forall (fun e => ~ has_prefix P e) before /\ keeps (e_pool eng) p' /\
    ready (n + 2 * zlen L + walk_cost C rest) [] [] p' /\
    stored h (set_pool eng p') ts C m fp /\ cursor_on p' bc P rest L /\ (length L <= oc_fuel oc)%nat.
Proof.
  intros [A1 A2 A3 A4 A5 A6 A7 A8] Hp. unfold garry_storage_cursor_open.
  assert (Hpfx : exists pfx, (match prefix with
     | Some p => if decide (plen > 0) then memcpy (zeros GARRY_MAX_KEY_SIZE) 0 p 0 plen else Some (zeros GARRY_MAX_KEY_SIZE)
     | None => Some (zeros GARRY_MAX_KEY_SIZE) end) = Some pfx /\ zlen pfx = KeyEncoding.GARRY_MAX_KEY_SIZE /\
     slice pfx 0 (u32 plen) = Some P /\ Forall is_byte P).
  { destruct Hp as [(-> & -> & ->)|(p & -> & Hs & Hle & Hb)].
    - eexists. split; [reflexivity|]. split; [reflexivity|]. by split.
    - pose proof (slice_is_Some _ _ _ _ Hs) as (_ & H0 & _ & Hz). unfold GARRY_MAX_KEY_SIZE, u32 in *. rewrite Z.mod_small by lia.
      destruct (decide (plen > 0)) as [Hpos|Hnp].
      + unfold memcpy. rewrite Hs. cbn [mbind option_bind].
        destruct (blit_ok (zeros 256) 0 P) as (pfx & E & Hzp); [lia|change (zlen (zeros 256)) with 256; lia|].
        exists pfx. split; [exact E|]. split; [exact Hzp|]. split; [|exact Hb]. rewrite <- Hz. exact (slice_blit _ _ _ _ E).
      + assert (P = []) as -> by (destruct P; [done|rewrite zlen_cons in Hz; pose proof (zlen_nonneg P); lia]).
        eexists. split; [reflexivity|]. split; [reflexivity|]. replace plen with 0 by lia. by split. }
  destruct Hpfx as (pfx & -> & Hz & Hs & Hb). cbn [mbind option_bind]. unfold scan_cost in A3.
  pose proof (zlen_nonneg fp). pose proof (walk_cost_pos C m).
  destruct (btree_cursor_open_spec h (e_pool eng) (e_btree_root eng) m fp (oc_fuel oc) (n + 2 * zlen fp + walk_cost C m) [] pfx (u32 plen) P)
    as (p' & cur & rest & L & -> & Hr & Hk & Hcur & HL & (before & Hm & HF) & _); try done;
    [apply A1|eapply ready_le; [exact A3|lia]|lia|change (zlen (@nil Z)) with 0; lia|]. cbn [mbind option_bind].
  exists p', cur, before, rest, L. split; [reflexivity|]. split; [exact Hm|]. split; [exact HF|]. split; [exact Hk|].
  split; [|split; [by apply stored_keeps|split; [exact Hcur|lia]]].
  eapply ready_le; [exact Hr|]. rewrite Hm, walk_cost_app. pose proof (walk_cost_pos C before). pose proof (walk_cost_pos C rest).
  pose proof (zlen_nonneg L). unfold zlen in *. lia.
Qed.

Lemma storage_next_spec oc h eng ts C m fp txn P bc rest L value has_vlen n kb :
  can_walk oc h eng ts C m fp txn P bc rest L value has_vlen ->
  ready (n + 2 * zlen L + walk_cost C rest) [] [] (e_pool eng) -> 0 <= n ->
  GARRY_MAX_KEY_SIZE <= zlen kb -> (length rest < oc_fuel oc)%nat ->
  exists p' cur' item, garry_storage_cursor_next oc eng (StorageCursor bc txn) (Some kb) value has_vlen =
      Some (set_pool eng p', cur', item) /\ keeps (e_pool eng) p' /\ sc_txn cur' = txn /\
    next_result oc n (length L) ts C txn P rest kb value has_vlen (set_pool eng p') cur' item.
Proof.
  intros Hw Hr Hn Hk Hf. unfold garry_storage_cursor_next. cbn [sc_btree].
  rewrite (co_live _ _ _ _ _ (wk_cursor _ _ _ _ _ _ _ _ _ _ _ _ _ _ Hw)). by eapply cursor_loop_spec.
Qed.

(** The next call starts where the last one stopped. *)
Lemma walk_next oc h eng ts C m fp txn P bc rest L value has_vlen p' bc' pre e rest' L' :
  can_walk oc h eng ts C m fp txn P bc rest L value has_vlen -> keeps (e_pool eng) p' -> rest = pre ++ e :: rest' ->
  cursor_on p' bc' P rest' L' -> (length L' <= length L)%nat ->
  can_walk oc h (set_pool eng p') ts C m fp txn P bc' rest' L' value has_vlen.
Proof.
  intros [W1 W2 W3 W4 W5 W6 W7] Hk -> Hc HL. apply Forall_app in W3 as [_ W3]. apply Forall_cons in W3 as [_ W3].
  apply Forall_app in W6 as [_ W6]. apply Forall_cons in W6 as [_ W6].
  split; [by apply stored_keeps|exact Hc|exact W3|cbn; by rewrite (kp_capacity _ _ Hk)|lia|exact W6|exact W7].
Qed.

(** Nothing is handed out when only keys are asked for. *)
Lemma keys_only oc ts C txn eng (es : list entry) :
  Forall (fun e => forall b, visible_value ts C txn e.1 = Some b ->
    exists v l, hand_out oc (e_compression eng) (b ++ [0]) (zlen b) None false = Some (HandOut v l)) es.
Proof. apply Forall_forall. intros e _ b _. by exists None, None. Qed.

(** * Iteration over the visible keys *)

(** The loop of a client: call next until it returns 0, and note the keys. *)
Fixpoint storage_keys (calls : nat) (oc : outcomes) (eng : garry_engine_handle) (cur : garry_storage_cursor) (kb : list Z)
  : option (garry_engine_handle * list (list Z)) :=
  match calls with
  | O => None
  | S calls =>
      '(eng, cur, item) ← garry_storage_cursor_next oc eng cur (Some kb) None false;
      match item with
      | None => Some (eng, [])
      | Some it =>
          let kb := default kb (ci_key it) in
          k ← slice kb 0 (ci_klen it);
          '(eng, ks) ← storage_keys calls oc eng cur kb;
          Some (eng, k :: ks)
      end
  end.

Lemma storage_keys_spec calls : forall oc h eng ts C m fp txn P bc rest L n kb,
  can_walk oc h eng ts C m fp txn P bc rest L None false ->
  ready (n + 2 * zlen L + walk_cost C rest) [] [] (e_pool eng) -> 0 <= n ->
  GARRY_MAX_KEY_SIZE <= zlen kb -> (length rest < oc_fuel oc)%nat -> (length (filter (shown ts C txn P) rest) < calls)%nat ->
  exists p', storage_keys calls oc eng (StorageCursor bc txn) kb =
      Some (set_pool eng p', map fst (filter (shown ts C txn P) rest)) /\ keeps (e_pool eng) p' /\ ready n [] [] p'.
Proof.
  induction calls as [|calls IH]; intros oc h eng ts C m fp txn P bc rest L n kb Hw Hr Hn Hk Hf Hcalls; [lia|].
  cbn [storage_keys].
  destruct (storage_next_spec oc h eng ts C m fp txn P bc rest L None false n kb Hw Hr Hn Hk Hf) as (p1 & [bc1 t1] & item & -> & Hk1 & Ht & Hres).
  cbn in Ht. subst t1. cbn [mbind option_bind]. unfold next_result in Hres.
  destruct (filter (shown ts C txn P) rest) as [|e es].
  - destruct Hres as (-> & _ & Hr1). exists p1. by split.
  - destruct Hres as (b & kb1 & v & l & pre & rest1 & L1 & Q1 & Q2 & -> & Q4 & Q5 & Q6 & Q7 & Q8 & Q9 & Q10 & _).
    cbn [ci_key ci_klen default sc_btree e_pool set_pool] in *. unfold id in *. rewrite Q4. cbn [mbind option_bind].
    pose proof (walk_next _ _ _ _ _ _ _ _ _ _ _ _ _ _ p1 bc1 pre e rest1 L1 Hw Hk1 Q6 Q8 Q9) as Hw1.
    destruct (cursor_here _ _ _ _ _ Q8) as [HL1 _]. pose proof (walk_cost_pos C rest1).
    destruct (IH oc h (set_pool eng p1) ts C m fp txn P bc1 rest1 L1 n kb1 Hw1) as (p2 & -> & Hk2 & Hr2); [exact Q10|exact Hn|lia| |rewrite <- Q7; cbn in Hcalls; lia|].
    { rewrite Q6, length_app in Hf. cbn [length] in Hf. lia. }
    cbn [mbind option_bind]. exists p2. rewrite <- Q7. split; [reflexivity|]. split; [cbn in Hk2; by transitivity p1|exact Hr2].
Qed.

Lemma entries_ok h eng ts C m fp : stored h eng ts C m fp -> Forall (entry_ok (e_page_size eng)) m.
Proof.
  intros Hs. pose proof (bt_tree _ _ _ _ _ (sd_tree _ _ _ _ _ _ Hs)) as Ht. rewrite (sd_page_size _ _ _ _ _ _ Hs).
  destruct (tree_leaves _ _ _ _ _ _ Ht) as [L [_ -> HL _]]. clear -HL. induction L as [|l L IH]; [constructor|].
  apply Forall_cons in HL as [(prev & _ & Hok) HL]. cbn [map concat]. apply Forall_app. split; [exact (no_entries _ _ Hok)|by apply IH].
Qed.

Lemma shown_key h eng ts C m fp txn P k :
  stored h eng ts C m fp ->
  k ∈ map fst (filter (shown ts C txn P) m) <-> P `prefix_of` k /\ is_Some (visible_value ts C txn k).
Proof.
  intros Hs. pose proof (sd_entries _ _ _ _ _ _ Hs) as He. split.
  - intros (x & -> & [[Hp Hv] Hin]%list_elem_of_filter)%list_elem_of_fmap. by split.
  - intros [Hp Hv]. assert (Hc : exists v, contents m !! k = Some v).
    { rewrite He, lookup_fmap. unfold visible_value in Hv. destruct (C !! k); [by eexists|]. destruct Hv as [? [=]]. }
    destruct Hc as [v Hc]. apply elem_of_list_to_map_2 in Hc. apply list_elem_of_fmap. exists (k, v). split; [done|].
    by apply list_elem_of_filter.
Qed.

Lemma sorted_filter (P : entry -> Prop) `{forall x, Decision (P x)} (m : list entry) : sorted m -> sorted (filter P m).
Proof.
  induction 1 as [|e m Hs IH HF]; [constructor|]. rewrite filter_cons. case_decide; [|exact IH]. constructor; [exact IH|].
  apply Forall_forall. intros x [_ Hx]%list_elem_of_filter. rewrite Forall_forall in HF. by apply HF.
Qed.

Lemma sorted_keys (m : list entry) : sorted m -> StronglySorted key_lt (map fst m).
Proof.
  induction 1 as [|e m Hs IH HF]; [constructor|]. cbn [map]. constructor; [exact IH|]. by apply List.Forall_map.
Qed.

(** * Navigation *)

Lemma shown_all ts C txn (e : entry) : shown ts C txn [] e <-> is_Some (visible_value ts C txn e.1).
Proof. unfold shown, has_prefix. split; [by intros [_ H]|]. intros H. split; [apply prefix_nil|exact H]. Qed.

(** A walk over all keys starts at the first entry. *)
Lemma open_all oc h n eng ts C m fp txn :
  can_scan oc h n eng ts C m fp txn ->
  exists p' bc L, garry_storage_cursor_open oc eng txn None 0 = Some (set_pool eng p', StorageCursor bc txn) /\
    keeps (e_pool eng) p' /\ ready (n + 2 * zlen L + walk_cost C m) [] [] p' /\
    can_walk oc h (set_pool eng p') ts C m fp txn [] bc m L None false.
Proof.
  intros Hs. pose proof Hs as [A1 A2 A3 A4 A5 A6 A7 A8 A9].
  destruct (storage_cursor_open_spec oc h n eng ts C m fp txn None 0 [] Hs) as (p' & bc & before & rest & L & E & Hm & HF & Hk & Hr & Hs' & Hc & HL);
    [by left|].
  assert (before = []) as ->.
  { destruct before as [|e before]; [done|]. apply Forall_cons in HF as [He _]. exfalso. apply He. apply prefix_nil. }
  cbn [app] in Hm. rewrite <- Hm in *. exists p', bc, L. split; [exact E|]. split; [exact Hk|]. split; [exact Hr|].
  split; [exact Hs'|exact Hc|by eapply stored_described|cbn; by rewrite (kp_capacity _ _ Hk)|exact HL|apply keys_only|exact A9].
Qed.

Lemma storage_first_spec oc h n eng ts C m fp txn kb :
  can_scan oc h n eng ts C m fp txn -> GARRY_MAX_KEY_SIZE <= zlen kb ->
  exists p', keeps (e_pool eng) p' /\ ready n [] [] p' /\
    match filter (shown ts C txn []) m with
    | [] => garry_storage_first oc eng txn (Some kb) = Some (set_pool eng p', None)
    | e :: _ => exists kb', garry_storage_first oc eng txn (Some kb) = Some (set_pool eng p', Some (Some kb', zlen e.1)) /\
        slice kb' 0 (zlen e.1) = Some e.1
    end.
Proof.
  intros Hs Hk. pose proof Hs as [A1 A2 A3 A4 A5 A6 A7 A8 A9]. unfold garry_storage_first.
  rewrite (running_active _ _ _ (sd_txns _ _ _ _ _ _ A1) A2). cbn [mbind option_bind negb].
  destruct (open_all oc h n eng ts C m fp txn Hs) as (p1 & bc & L & -> & Hk1 & Hr1 & Hw). cbn [mbind option_bind].
  destruct (storage_next_spec oc h (set_pool eng p1) ts C m fp txn [] bc m L None false n kb Hw Hr1 A4 Hk A8)
    as (p2 & cur2 & item & -> & Hk2 & _ & Hres). cbn [mbind option_bind]. unfold next_result in Hres. cbn in Hk2.
  exists p2. split; [by transitivity p1|]. destruct (filter (shown ts C txn []) m) as [|e es].
  - destruct Hres as (-> & _ & Hr2). by split.
  - destruct Hres as (b & kb' & v & l & pre & rest' & L' & _ & _ & -> & Q4 & _ & _ & _ & Q8 & _ & Q10 & _).
    split; [|exists kb'; by split]. eapply ready_le; [exact Q10|]. pose proof (walk_cost_pos C rest').
    destruct (cursor_here _ _ _ _ _ Q8) as [HL _]. lia.
Qed.

(** The first visible key above a bound. *)
Lemma next_key_loop_spec calls : forall oc h eng ts C m fp txn bc rest L n k after alen a key,
  can_walk oc h eng ts C m fp txn [] bc rest L None false ->
  ready (n + 2 * zlen L + walk_cost C rest) [] [] (e_pool eng) -> 0 <= n ->
  zlen k = GARRY_MAX_KEY_SIZE -> (length rest < oc_fuel oc)%nat -> (length rest < calls)%nat ->
  Forall (fun e => Forall is_byte e.1) rest -> slice after 0 alen = Some a -> Forall is_byte a ->
  GARRY_MAX_KEY_SIZE <= zlen key ->
  exists p', keeps (e_pool eng) p' /\ ready n [] [] p' /\
    match filter (fun e => key_lt a e.1) (filter (shown ts C txn []) rest) with
    | [] => next_key_loop calls oc eng (StorageCursor bc txn) k after alen (Some key) = Some (set_pool eng p', None)
    | e :: _ => exists key', next_key_loop calls oc eng (StorageCursor bc txn) k after alen (Some key) =
          Some (set_pool eng p', Some (Some key', zlen e.1)) /\ slice key' 0 (zlen e.1) = Some e.1
    end.
Proof.
  induction calls as [|calls IH]; intros oc h eng ts C m fp txn bc rest L n k after alen a key Hw Hr Hn Hk Hf Hcalls HB Ha HBa Hkey; [lia|].
  cbn [next_key_loop].
  destruct (storage_next_spec oc h eng ts C m fp txn [] bc rest L None false n k Hw Hr Hn ltac:(lia) Hf)
    as (p1 & [bc1 t1] & item & -> & Hk1 & Ht & Hres). cbn in Ht. subst t1. cbn [mbind option_bind]. unfold next_result in Hres.
  destruct (filter (shown ts C txn []) rest) as [|e es].
  { destruct Hres as (-> & _ & Hr1). exists p1. by split. }
  destruct Hres as (b & kb1 & v & l & pre & rest1 & L1 & Q1 & Q2 & -> & Q4 & Q5 & Q6 & Q7 & Q8 & Q9 & Q10 & _).
  cbn [ci_key ci_klen default sc_btree e_pool set_pool] in *. unfold id in *. pose proof HB as HB'.
  rewrite Q6 in HB. apply Forall_app in HB as [_ HB]. apply Forall_cons in HB as [He HB].
  rewrite (byte_compare_lex _ _ _ _ _ _ Q4 Ha He HBa). cbn [mbind option_bind]. rewrite filter_cons.
  destruct (cursor_here _ _ _ _ _ Q8) as [HL1 _]. pose proof (walk_cost_pos C rest1).
  assert (Hcmp : cmpZ (lex e.1 a) > 0 <-> key_lt a e.1).
  { unfold key_lt. rewrite (lex_antisym e.1 a). destruct (lex e.1 a); cbn; split; (done || lia || discriminate). }
  destruct (decide (cmpZ (lex e.1 a) > 0)) as [Hgt|Hle].
  - rewrite decide_True by (by apply Hcmp). destruct (copy_key key kb1 e.1 ltac:(rewrite Q5; exact Hk) Hkey Q4) as (key' & -> & _ & Hsk).
    cbn [mbind option_bind]. exists p1. split; [exact Hk1|]. split; [eapply ready_le; [exact Q10|lia]|]. by exists key'.
  - rewrite decide_False by (by rewrite <- Hcmp). rewrite Q7.
    pose proof (walk_next _ _ _ _ _ _ _ _ _ _ _ _ _ _ p1 bc1 pre e rest1 L1 Hw Hk1 Q6 Q8 Q9) as Hw1.
    rewrite Q6, length_app in Hf, Hcalls. cbn [length] in Hf, Hcalls.
    destruct (IH oc h (set_pool eng p1) ts C m fp txn bc1 rest1 L1 n kb1 after alen a key Hw1 Q10 Hn ltac:(rewrite Q5; exact Hk)
      ltac:(lia) ltac:(lia) HB Ha HBa Hkey) as (p2 & Hk2 & Hr2 & Hm). exists p2. split; [cbn in Hk2; by transitivity p1|]. split; [exact Hr2|].
    exact Hm.
Qed.

Lemma last_cons_case {A} (x : A) l : last (x :: l) = match last l with Some y => Some y | None => Some x end.
Proof. by rewrite last_cons. Qed.

(** The last visible key below a bound. *)
Lemma prev_key_loop_spec calls : forall oc h eng ts C m fp txn bc rest L n before blen b prev found,
  can_walk oc h eng ts C m fp txn [] bc rest L None false ->
  ready (n + 2 * zlen L + walk_cost C rest) [] [] (e_pool eng) -> 0 <= n ->
  zlen prev = GARRY_MAX_KEY_SIZE -> (length rest < oc_fuel oc)%nat -> (length rest < calls)%nat ->
  Forall (fun e => Forall is_byte e.1) rest -> slice before 0 blen = Some b -> Forall is_byte b ->
  exists p' prev' found', keeps (e_pool eng) p' /\ ready n [] [] p' /\ zlen prev' = GARRY_MAX_KEY_SIZE /\
    prev_key_loop calls oc eng (StorageCursor bc txn) before blen prev found = Some (set_pool eng p', (prev', found')) /\
    match last (filter (fun e => key_lt e.1 b) (filter (shown ts C txn []) rest)) with
    | None => prev' = prev /\ found' = found
    | Some e => found' = Some (zlen e.1) /\ slice prev' 0 (zlen e.1) = Some e.1
    end.
Proof.
  induction calls as [|calls IH]; intros oc h eng ts C m fp txn bc rest L n before blen b prev found Hw Hr Hn Hk Hf Hcalls HB Hb HBb; [lia|].
  cbn [prev_key_loop].
  destruct (storage_next_spec oc h eng ts C m fp txn [] bc rest L None false n (zeros GARRY_MAX_KEY_SIZE) Hw Hr Hn ltac:(vm_compute; discriminate) Hf)
    as (p1 & [bc1 t1] & item & -> & Hk1 & Ht & Hres). cbn in Ht. subst t1. cbn [mbind option_bind]. unfold next_result in Hres.
  destruct (filter (shown ts C txn []) rest) as [|e es].
  { destruct Hres as (-> & _ & Hr1). exists p1, prev, found. split; [exact Hk1|]. split; [exact Hr1|]. split; [exact Hk|]. by split. }
  destruct Hres as (v0 & kb1 & v & l & pre & rest1 & L1 & Q1 & Q2 & -> & Q4 & Q5 & Q6 & Q7 & Q8 & Q9 & Q10 & _).
  cbn [ci_key ci_klen default sc_btree e_pool set_pool] in *. unfold id in *.
  rewrite Q6 in HB. apply Forall_app in HB as [_ HB]. apply Forall_cons in HB as [He HB].
  rewrite (byte_compare_lex _ _ _ _ _ _ Q4 Hb He HBb). cbn [mbind option_bind]. rewrite filter_cons.
  assert (Hcmp : cmpZ (lex e.1 b) < 0 <-> key_lt e.1 b) by (unfold key_lt; destruct (lex e.1 b); cbn; split; (done || lia || discriminate)).
  pose proof (walk_next _ _ _ _ _ _ _ _ _ _ _ _ _ _ p1 bc1 pre e rest1 L1 Hw Hk1 Q6 Q8 Q9) as Hw1.
  rewrite Q6, length_app in Hf, Hcalls. cbn [length] in Hf, Hcalls.
  assert (Hkz : zlen kb1 = GARRY_MAX_KEY_SIZE) by (rewrite Q5; reflexivity).
  destruct (decide (cmpZ (lex e.1 b) < 0)) as [Hlt|Hge].
  - rewrite decide_True by (by apply Hcmp).
    destruct (copy_key prev kb1 e.1 Hkz ltac:(lia) Q4) as (prev1 & -> & Hz1 & Hs1). cbn [mbind option_bind].
    destruct (IH oc h (set_pool eng p1) ts C m fp txn bc1 rest1 L1 n before blen b prev1 (Some (zlen e.1)) Hw1 Q10 Hn ltac:(lia)
      ltac:(lia) ltac:(lia) HB Hb HBb) as (p2 & prev2 & found2 & Hk2 & Hr2 & Hz2 & E2 & Hm).
    exists p2, prev2, found2. split; [cbn in Hk2; by transitivity p1|]. split; [exact Hr2|]. split; [exact Hz2|]. split; [exact E2|].
    rewrite last_cons_case, Q7. destruct (last _) as [x|]; [exact Hm|]. destruct Hm as [-> ->]. by split.
  - rewrite decide_False by (by rewrite <- Hcmp). rewrite Q7.
    destruct (IH oc h (set_pool eng p1) ts C m fp txn bc1 rest1 L1 n before blen b prev found Hw1 Q10 Hn Hk
      ltac:(lia) ltac:(lia) HB Hb HBb) as (p2 & prev2 & found2 & Hk2 & Hr2 & Hz2 & E2 & Hm).
    exists p2, prev2, found2. split; [cbn in Hk2; by transitivity p1|]. split; [exact Hr2|]. split; [exact Hz2|]. split; [exact E2|exact Hm].
Qed.

(** * Skipping a prefix *)

Lemma skip_match_spec key klen prefix plen k Q :
  slice key 0 klen = Some k -> slice prefix 0 plen = Some Q ->
  skip_match key klen prefix plen = Some (bool_decide (Q `prefix_of` k)).
Proof. intros Hk Hp. exact (has_prefix_spec _ _ _ _ _ _ Hk Hp). Qed.

(** A cursor with a saved key: next will return [e] again and go on after it. *)
Record cursor_saved (p : garry_buffer_pool) (bc : garry_btree_cursor_handle) (P : list Z) (e : entry) (rest : list entry)
    (L : list leaf) : Prop := {
  cs_saved : bc_has_saved bc = true;
  cs_live : bc_exhausted bc = false;
  cs_key : slice (bc_saved_key bc) 0 (zlen e.1) = Some e.1;
  cs_size : zlen (bc_saved_key bc) = GARRY_MAX_KEY_SIZE;
  cs_klen : bc_saved_klen bc = zlen e.1;
  cs_current : zlen (bc_current bc) = GARRY_MAX_KEY_SIZE;
  cs_entry : on_entry bc e;
  cs_rest : forall current, zlen current = GARRY_MAX_KEY_SIZE ->
    cursor_on p (set_saved (set_current bc current (zlen e.1) (bc_current_value bc)) (bc_saved_key bc) 0 false) P rest L
}.

Lemma skip_loop_spec calls : forall oc h eng ts C m fp txn P bc rest L n kb prefix plen Q,
  can_walk oc h eng ts C m fp txn P bc rest L None false ->
  ready (n + 2 * zlen L + walk_cost C rest) [] [] (e_pool eng) -> 0 <= n ->
  GARRY_MAX_KEY_SIZE <= zlen kb -> (length rest < oc_fuel oc)%nat -> (length rest < calls)%nat ->
  slice prefix 0 plen = Some Q ->
  exists p' cur', keeps (e_pool eng) p' /\ sc_txn cur' = txn /\
    match filter (fun e => ~ Q `prefix_of` e.1) (filter (shown ts C txn P) rest) with
    | [] => skip_loop calls oc eng (StorageCursor bc txn) kb prefix plen = Some (set_pool eng p', cur', false) /\ ready n [] [] p'
    | e :: es => skip_loop calls oc eng (StorageCursor bc txn) kb prefix plen = Some (set_pool eng p', cur', true) /\
        exists rest' L', cursor_saved p' (sc_btree cur') P e rest' L' /\ is_Some (visible_value ts C txn e.1) /\
          (exists c, C !! e.1 = Some c /\ e.2 = descriptor_of c) /\ Forall (described C) rest' /\ (length L' <= length L)%nat /\
          es = filter (fun e => ~ Q `prefix_of` e.1) (filter (shown ts C txn P) rest') /\ (length rest' < length rest)%nat /\
          ready (n + 2 * zlen L' + walk_cost C rest') [] [] p'
    end.
Proof.
  induction calls as [|calls IH]; intros oc h eng ts C m fp txn P bc rest L n kb prefix plen Q Hw Hr Hn Hk Hf Hcalls HQ; [lia|].
  cbn [skip_loop].
  destruct (storage_next_spec oc h eng ts C m fp txn P bc rest L None false n kb Hw Hr Hn Hk Hf)
    as (p1 & [bc1 t1] & item & -> & Hk1 & Ht & Hres). cbn in Ht. subst t1. cbn [mbind option_bind]. unfold next_result in Hres.
  destruct (filter (shown ts C txn P) rest) as [|e es].
  { destruct Hres as (-> & _ & Hr1). exists p1, (StorageCursor bc1 txn). by repeat (split; [done|]). }
  destruct Hres as (b & kb1 & v & l & pre & rest1 & L1 & Q1 & Q2 & -> & Q4 & Q5 & Q6 & Q7 & Q8 & Q9 & Q10 & Q11 & Q12 & Q13).
  cbn [ci_key ci_klen default sc_btree sc_txn e_pool set_pool] in *. unfold id in *.
  rewrite (skip_match_spec _ _ _ _ _ _ Q4 HQ). cbn [mbind option_bind]. rewrite filter_cons.
  pose proof (wk_entries _ _ _ _ _ _ _ _ _ _ _ _ _ _ Hw) as Hdesc. rewrite Q6 in Hdesc. apply Forall_app in Hdesc as [_ Hdesc].
  apply Forall_cons in Hdesc as [He Hdesc].
  destruct (decide (Q `prefix_of` e.1)) as [Hd|Hd].
  - rewrite bool_decide_eq_true_2 by exact Hd. rewrite decide_False by (intros Hx; by apply Hx). rewrite Q7.
    pose proof (walk_next _ _ _ _ _ _ _ _ _ _ _ _ _ _ p1 bc1 pre e rest1 L1 Hw Hk1 Q6 Q8 Q9) as Hw1.
    rewrite Q6, length_app in Hf, Hcalls |- *. cbn [length] in Hf, Hcalls |- *.
    destruct (IH oc h (set_pool eng p1) ts C m fp txn P bc1 rest1 L1 n kb1 prefix plen Q Hw1 Q10 Hn ltac:(lia) ltac:(lia) ltac:(lia) HQ)
      as (p2 & cur2 & Hk2 & Ht2 & Hm). exists p2, cur2. split; [cbn in Hk2; by transitivity p1|]. split; [exact Ht2|].
    destruct (filter (fun e => ~ Q `prefix_of` e.1) (filter (shown ts C txn P) rest1)) as [|e2 es2]; [exact Hm|].
    destruct Hm as (E & rest' & L' & R1 & R2 & R3 & R4 & R5 & R6 & R7 & R8). split; [exact E|]. exists rest', L'.
    repeat (split; [done|]). split; [lia|]. split; [done|]. split; [lia|done].
  - rewrite bool_decide_eq_false_2 by exact Hd. rewrite decide_True by exact Hd.
    pose proof (slice_is_Some _ _ _ _ Q4) as (_ & Hz0 & Hz1 & _). pose proof Q13 as (_ & nx & pv & es1 & Hnd & Hle & Hs1 & Hrd).
    assert (Hshort : zlen e.1 <= GARRY_MAX_KEY_SIZE).
    { pose proof (slice_is_Some _ _ _ _ Q12) as (_ & _ & Hb & _). pose proof (co_current _ _ _ _ _ Q8) as Hcz. rewrite Hcz in Hb. exact Hb. }
    rewrite decide_True by exact Hshort. unfold memcpy. rewrite Q4. cbn [mbind option_bind].
    pose proof (co_saved _ _ _ _ _ Q8) as Hsz.
    destruct (blit_ok (bc_saved_key bc1) 0 e.1) as (saved & Es & Hzs); [lia|rewrite Hsz; exact Hshort|]. rewrite Es. cbn [mbind option_bind].
    exists p1, (StorageCursor (set_saved bc1 saved (u32 (zlen e.1)) true) txn).
    split; [exact Hk1|]. split; [reflexivity|]. split; [reflexivity|]. exists rest1, L1.
    unfold GARRY_MAX_KEY_SIZE in Hshort. cbn [sc_btree].
    split; [|split; [by eexists|split; [exact He|split; [exact Hdesc|split; [exact Q9|split; [by rewrite <- Q7|split; [|exact Q10]]]]]]].
    2: { rewrite Q6, length_app. cbn [length]. lia. }
    split; cbn [set_saved bc_has_saved bc_exhausted bc_saved_key bc_saved_klen].
    + reflexivity.
    + exact (co_live _ _ _ _ _ Q8).
    + exact (slice_blit _ _ _ _ Es).
    + by rewrite Hzs.
    + unfold u32. rewrite Z.mod_small by lia. reflexivity.
    + exact (co_current _ _ _ _ _ Q8).
    + exact Q13.
    + intros current Hcz. destruct Q8 as [C1 C2 C3 C4 C5 C6 C7 C8 C9]. split; try done. cbn. by rewrite Hzs.
Qed.

(** The call of next after a skip returns the key the skip stopped at. *)
Lemma next_saved_spec oc h eng ts C m fp txn P bc e rest L n kb c b :
  stored h eng ts C m fp -> cursor_saved (e_pool eng) bc P e rest L ->
  C !! e.1 = Some c -> e.2 = descriptor_of c -> visible_value ts C txn e.1 = Some b ->
  ready (n + get_cost c.2) [] [] (e_pool eng) -> 0 <= n -> 1 < p_capacity (e_pool eng) ->
  GARRY_MAX_KEY_SIZE <= zlen kb -> (0 < oc_fuel oc)%nat -> reads_ok oc ->
  exists p' bc' kb', garry_storage_cursor_next oc eng (StorageCursor bc txn) (Some kb) None false =
      Some (set_pool eng p', StorageCursor bc' txn, Some (CursorItem (Some kb') (zlen e.1) None None)) /\
    slice kb' 0 (zlen e.1) = Some e.1 /\ keeps (e_pool eng) p' /\ ready n [] [] p' /\ cursor_on p' bc' P rest L.
Proof.
  intros Hs [C1 C2 C3 C4 C5 Hcz C6 C7] Hc He Hv Hr Hn Hcap Hk Hf Hmr. unfold garry_storage_cursor_next. cbn [sc_btree]. rewrite C2.
  destruct (oc_fuel oc) as [|calls] eqn:Ef; [lia|]. cbn [storage_cursor_loop sc_btree sc_txn]. rewrite Ef.
  unfold garry_btree_cursor_next. rewrite C2, C1.
  assert (Hz1 : KeyEncoding.GARRY_MAX_KEY_SIZE <= zlen (zeros GARRY_MAX_KEY_SIZE)) by (vm_compute; discriminate).
  destruct (copy_array (zeros GARRY_MAX_KEY_SIZE) (bc_saved_key bc) e.1 C4 Hz1 C3) as (bkey & -> & Hzb & Hsb). cbn [mbind option_bind].
  destruct (copy_array (bc_current bc) (bc_saved_key bc) e.1 C4 ltac:(rewrite Hcz; done) C3) as (cur & -> & Hzc & _). cbn [mbind option_bind].
  rewrite C5. set (bc1 := set_saved _ _ _ _).
  assert (Hon : on_entry bc1 e) by exact C6. pose proof (chain_id_ok _ _ _ _ _ _ _ _ Hs Hc) as [Hci Hc0].
  rewrite (entry_cid_spec bc1 e c Hon He Hci Hc0). cbn [mbind option_bind].
  pose proof (stored_keeps _ _ _ _ _ _ (e_pool eng) Hs ltac:(reflexivity)) as Hs1.
  rewrite Hmr. destruct (get_spec n [] (set_pool eng (e_pool eng)) ts txn c.1 c.2) as (p2 & -> & Hr2 & Hk2 & _);
    [apply Hs1|exact Hr|exact Hn|cbn; change (zlen (@nil Z)) with 0; lia|apply Hs1|by apply (sd_chain _ _ _ _ _ _ Hs1 e.1)|].
  cbn [mbind option_bind]. unfold visible_value in Hv. rewrite Hc in Hv. cbn [mbind option_bind] in Hv. rewrite Hv.
  cbn [fmap option_fmap option_map c_string].
  assert (Hzb2 : zlen bkey = GARRY_MAX_KEY_SIZE) by (rewrite Hzb; reflexivity).
  destruct (copy_key kb bkey e.1 Hzb2 Hk Hsb) as (kb' & -> & _ & Hsk). cbn [mbind option_bind hand_out].
  pose proof (slice_is_Some _ _ _ _ Hsb) as (_ & Hl0 & Hl1 & _). rewrite Hzb2 in Hl1. unfold GARRY_MAX_KEY_SIZE in Hl1.
  rewrite i32_id by (unfold is_i32; lia).
  exists p2, bc1, kb'. split; [reflexivity|]. split; [exact Hsk|]. split; [exact Hk2|]. split; [exact Hr2|].
  apply (cursor_keeps (e_pool eng)); [exact Hk2|]. apply C7. by rewrite Hzc.
Qed.

(** * Existence *)

Lemma mvcc_exists_spec n pins eng ts txn pid cells :
  txns_rep eng ts -> ready (n + 2) pins [] (e_pool eng) -> 0 <= n -> zlen pins < p_capacity (e_pool eng) ->
  e_page_size eng = p_page_size (e_pool eng) -> chain_at (e_pool eng) pid cells ->
  exists p', garry_mvcc_exists true eng txn pid = Some (set_pool eng p', bool_decide (is_Some (read_cells txn (map ti_txid ts) cells))) /\
    ready n pins [] p' /\ keeps (e_pool eng) p'.
Proof.
  intros Ht Hr Hn Hc Hps [Hrange Hpages (vs & Hrep & HF)]. unfold garry_mvcc_exists.
  destruct (pin_page_ready n pins [] (e_pool eng) pid) as (p1 & i & -> & Hr1 & Hk1 & _ & _ & Hsp1); [exact Hr|exact Hn|exact Hc|exact Hrange|].
  cbn [mbind option_bind]. rewrite Hsp1. cbn [mbind option_bind].
  rewrite Hps, (proj1 (has_visible_spec _ _ vs txn (e_active_txns eng) (e_active_count eng) (map ti_txid ts) 0 Hrep (tr_act _ _ Ht))).
  cbn [mbind option_bind]. destruct (release_ready n pid pins [] p1 Hr1) as (p2 & -> & Hr2 & Hk2 & _); [apply not_elem_of_nil|].
  cbn [mbind option_bind]. exists p2. split; [|split; [exact Hr2|by transitivity p1]]. do 2 f_equal.
  pose proof (newest_visible _ _ _ _ txn (map ti_txid ts) HF) as Hnv. unfold read_cells.
  destruct (last (filter (cell_visible txn (map ti_txid ts)) cells)) as [c|]; cbn [mbind option_bind]; [|by rewrite Hnv].
  destruct Hnv as (_ & v & -> & _ & _ & Hb). destruct (v_body v) as [b|len hd|]; cbn [is_tombstone negb].
  - destruct Hb as [-> _]. by rewrite bool_decide_eq_true_2 by (by eexists).
  - destruct Hb as (_ & _ & data & -> & _). by rewrite bool_decide_eq_true_2 by (by eexists).
  - destruct Hb as [-> _]. by rewrite bool_decide_eq_false_2 by (by intros [? [=]]).
Qed.

Lemma storage_exists_spec h eng ts C m fp oc n pins key klen k txn :
  stored h eng ts C m fp -> ready (n + 2 * (Z.of_nat h + 1) + 2) pins [] (e_pool eng) -> 0 <= n ->
  zlen pins < p_capacity (e_pool eng) -> key_arg (p_page_size (e_pool eng)) key klen k -> (h < oc_fuel oc)%nat -> reads_ok oc ->
  running ts txn ->
  exists p', ready n pins [] p' /\ keeps (e_pool eng) p' /\
    garry_storage_exists oc eng txn key klen = Some (set_pool eng p', bool_decide (is_Some (visible_value ts C txn k))).
Proof.
  intros Hs Hr Hn Hc Hk Hf Hmr Hrun. unfold garry_storage_exists, visible_value. pose proof (ka_some _ _ _ _ Hk). rewrite decide_False by lia.
  rewrite (running_active _ _ _ (sd_txns _ _ _ _ _ _ Hs) Hrun). cbn [mbind option_bind negb].
  destruct (lookup_key_spec h eng ts C m fp (oc_fuel oc) (n + 2) pins key klen k Hs) as (p1 & r & -> & Hr1 & Hk1 & _ & Hm);
    [eapply ready_le; [exact Hr|lia]|lia|lia|exact Hk|exact Hf|].
  cbn [mbind option_bind]. destruct (C !! k) as [c|] eqn:Ec; cbn [mbind option_bind].
  - destruct Hm as (lookup & -> & -> & _). cbn [mbind option_bind].
    pose proof (chain_id_ok _ _ _ _ _ _ _ _ Hs Ec) as [_ Hc0]. rewrite decide_False by lia.
    pose proof (stored_keeps _ _ _ _ _ _ p1 Hs Hk1) as Hs1.
    rewrite Hmr. cbn [all_reads rm_page]. destruct (mvcc_exists_spec n pins (set_pool eng p1) ts txn c.1 c.2) as (p2 & -> & Hr2 & Hk2);
      [apply Hs1|exact Hr1|exact Hn|cbn; by rewrite (kp_capacity _ _ Hk1)|apply Hs1|by apply (sd_chain _ _ _ _ _ _ Hs1 k)|].
    exists p2. split; [exact Hr2|]. split; [cbn in Hk2; by transitivity p1|reflexivity].
  - subst r. exists p1. split; [eapply ready_le; [exact Hr1|lia]|]. split; [exact Hk1|]. by rewrite bool_decide_eq_false_2 by (by intros [? [=]]).
Qed.

(** A value, with its terminating zero, copied to a buffer. *)
Lemma copy_value (b out : list Z) :
  zlen b <= zlen out -> exists out', memcpy out 0 (b ++ [0]) 0 (zlen b) = Some out' /\ slice out' 0 (zlen b) = Some b.
Proof.
  intros Hle. unfold memcpy. change (b ++ [0]) with ([] ++ b ++ [0]). rewrite (slice_app [] b [0] 0 (zlen b)) by done. cbn [mbind option_bind].
  destruct (blit_ok out 0 b) as (out' & E & _); [lia|lia|]. exists out'. split; [exact E|exact (slice_blit _ _ _ _ E)].
Qed.

(** * The order of the keys found *)

Lemma shown_sorted h eng ts C m fp txn : stored h eng ts C m fp -> sorted (filter (shown ts C txn []) m).
Proof. intros Hs. apply sorted_filter. exact (tree_sorted _ _ _ _ _ _ (bt_tree _ _ _ _ _ (sd_tree _ _ _ _ _ _ Hs))). Qed.

Lemma keys_bytes h eng ts C m fp : stored h eng ts C m fp -> Forall (fun e => Forall is_byte e.1) m.
Proof. intros Hs. eapply Forall_impl; [exact (entries_ok _ _ _ _ _ _ Hs)|]. intros e He. exact (eo_bytes _ _ He). Qed.

Lemma shown_entry h eng ts C m fp txn k :
  stored h eng ts C m fp -> is_Some (visible_value ts C txn k) -> exists e, e ∈ filter (shown ts C txn []) m /\ e.1 = k.
Proof.
  intros Hs Hv. assert (Hx : k ∈ map fst (filter (shown ts C txn []) m)) by (eapply shown_key; [exact Hs|split; [apply prefix_nil|exact Hv]]).
  apply list_elem_of_fmap in Hx as (e & -> & He). by exists e.
Qed.


Lemma filter_head_least (Q : entry -> Prop) `{forall x, Decision (Q x)} (l : list entry) :
  sorted l -> match filter Q l with
              | [] => Forall (fun x => ~ Q x) l
              | e :: _ => e ∈ l /\ Q e /\ forall x, x ∈ l -> Q x -> key_le e.1 x.1
              end.
Proof.
  induction 1 as [|e l Hs IH HF]; [constructor|]. rewrite filter_cons. destruct (decide (Q e)) as [Hq|Hn].
  - split; [by left|]. split; [exact Hq|]. intros x [->|Hx]%elem_of_cons _; [by apply key_le_lt_eq; right|].
    rewrite Forall_forall in HF. by apply key_lt_le, HF.
  - destruct (filter Q l) as [|y ys]; [by constructor|]. destruct IH as (I1 & I2 & I3). split; [by right|]. split; [exact I2|].
    intros x [->|Hx]%elem_of_cons Hq; [done|by apply I3].
Qed.

Lemma filter_last_greatest (Q : entry -> Prop) `{forall x, Decision (Q x)} (l : list entry) :
  sorted l -> match last (filter Q l) with
              | None => Forall (fun x => ~ Q x) l
              | Some e => e ∈ l /\ Q e /\ forall x, x ∈ l -> Q x -> key_le x.1 e.1
              end.
Proof.
  induction 1 as [|e l Hs IH HF]; [constructor|]. rewrite filter_cons. rewrite Forall_forall in HF. destruct (decide (Q e)) as [Hq|Hn].
  - rewrite last_cons_case. destruct (last (filter Q l)) as [y|].
    + destruct IH as (I1 & I2 & I3). split; [by right|]. split; [exact I2|]. intros x [->|Hx]%elem_of_cons Hqx; [by apply key_lt_le, HF|by apply I3].
    + split; [by left|]. split; [exact Hq|]. intros x [->|Hx]%elem_of_cons Hqx; [by apply key_le_lt_eq; right|].
      rewrite Forall_forall in IH. exfalso. by apply (IH x).
  - destruct (last (filter Q l)) as [y|]; [|by constructor]. destruct IH as (I1 & I2 & I3). split; [by right|]. split; [exact I2|].
    intros x [->|Hx]%elem_of_cons Hqx; [done|by apply I3].
Qed.

(** * Properties *)

(** C13: a cursor of the storage layer enumerates the visible keys: opened by a
    running transaction and advanced until it returns 0, which it does, it returns
    exactly the keys with the prefix under which the transaction reads a value, each
    once and in ascending order, and the store is as before. *)
Theorem storage_cursor_iterates oc h n eng ts C m fp txn prefix plen P calls kb
  (Hs : can_scan oc h n eng ts C m fp txn) (Hp : prefix_arg prefix plen P) (Hk : GARRY_MAX_KEY_SIZE <= zlen kb)
  (Hcalls : (length m < calls)%nat) :
  exists eng1 cur eng2 keys, garry_storage_cursor_open oc eng txn prefix plen = Some (eng1, cur) /\
    storage_keys calls oc eng1 cur kb = Some (eng2, keys) /\ stored h eng2 ts C m fp /\ StronglySorted key_lt keys /\
    forall k, k ∈ keys <-> P `prefix_of` k /\ is_Some (visible_value ts C txn k).
Proof.
  destruct (storage_cursor_open_spec oc h n eng ts C m fp txn prefix plen P Hs Hp)
    as (p1 & bc & before & rest & L & E & Hm & HF & Hk1 & Hr & Hs1 & Hc & HL).
  pose proof Hs as [A1 A2 A3 A4 A5 A6 A7 A8 A9].
  assert (Hfil : filter (shown ts C txn P) m = filter (shown ts C txn P) rest) by (rewrite Hm; by apply filter_shown_skip).
  assert (Hlen : (length rest <= length m)%nat) by (rewrite Hm, length_app; lia).
  pose proof (length_filter (shown ts C txn P) rest) as Hlf.
  destruct (storage_keys_spec calls oc h (set_pool eng p1) ts C m fp txn P bc rest L n kb) as (p2 & E2 & Hk2 & Hr2);
    [|exact Hr|exact A4|exact Hk|lia|lia|].
  { split; [exact Hs1|exact Hc| |cbn; by rewrite (kp_capacity _ _ Hk1)|exact HL|apply keys_only|exact A9].
    pose proof (stored_described _ _ _ _ _ _ A1) as Hd. rewrite Hm in Hd. by apply Forall_app in Hd as [_ Hd]. }
  do 4 eexists. split; [exact E|]. split; [exact E2|]. split; [exact (stored_keeps _ _ _ _ _ _ p2 Hs1 Hk2)|]. rewrite <- Hfil. split.
  - apply sorted_keys, sorted_filter. exact (tree_sorted _ _ _ _ _ _ (bt_tree _ _ _ _ _ (sd_tree _ _ _ _ _ _ A1))).
  - intros k. by eapply shown_key.
Qed.

(** C17: [garry_storage_exists] answers exactly whether [garry_storage_get], with a
    buffer large enough, would find a value, and neither changes the store; the get
    returns the value the bytes of the visible version stand for.  A version that
    cannot be decoded is excluded: with compression, a value above 16384 bytes can
    be stored, and then the key exists but the get fails. *)
Theorem exists_iff_get oc h n eng ts C m fp txn key klen k result
  (Hs : stored h eng ts C m fp) (Hr : ready (n + read_cost h C k + 2) [] [] (e_pool eng)) (Hn : 0 <= n)
  (Hc : 1 < p_capacity (e_pool eng)) (Hk : key_arg (e_page_size eng) key klen k) (Hf : (h < oc_fuel oc)%nat) (Hmr : reads_ok oc) (Hrun : running ts txn)
  (Hres : forall b, visible_value ts C txn k = Some b -> exists v, decodes oc (e_compression eng) b v /\ zlen v <= zlen result) :
  exists eng1 found eng2 r, garry_storage_exists oc eng txn key klen = Some (eng1, found) /\ stored h eng1 ts C m fp /\
    garry_storage_get oc eng txn key klen (Some result) = Some (eng2, r) /\ stored h eng2 ts C m fp /\
    (found = true <-> is_Some r) /\
    forall b v, visible_value ts C txn k = Some b -> decodes oc (e_compression eng) b v ->
      found = true /\ exists out, r = Some (Some out, zlen v) /\ slice out 0 (zlen v) = Some v.
Proof.
  rewrite (sd_page_size _ _ _ _ _ _ Hs) in Hk. pose proof (read_cost_nonneg h C k) as Hrc.
  assert (Hcost : 2 * (Z.of_nat h + 1) <= read_cost h C k) by (unfold read_cost; destruct (C !! k) as [c|]; [pose proof (get_cost_pos c.2)|]; lia).
  destruct (storage_exists_spec h eng ts C m fp oc n [] key klen k txn Hs) as (p1 & _ & Hk1 & E1); try done;
    [eapply ready_le; [exact Hr|lia]|change (zlen (@nil Z)) with 0; lia|].
  destruct (storage_get_spec h eng ts C m fp oc n [] key klen k txn (Some result) Hs) as (p2 & _ & Hk2 & E2); try done;
    [eapply ready_le; [exact Hr|lia]|].
  destruct (visible_value ts C txn k) as [b|] eqn:Ev.
  - destruct (Hres b eq_refl) as (v & Hdec & Hle). destruct (decodes_delivers _ _ _ _ _ Hdec Hle) as (out & Ed & Ho).
    rewrite Ed in E2. cbn [mbind option_bind] in E2. do 4 eexists. split; [exact E1|]. split; [by apply stored_keeps|]. split; [exact E2|].
    split; [by apply stored_keeps|]. rewrite bool_decide_eq_true_2 by (by eexists). split; [split; [by eexists|done]|].
    intros b' v' [= <-] Hdec'. rewrite (decodes_fun _ _ _ _ _ Hdec' Hdec). split; [done|]. by exists out.
  - cbn [mbind option_bind] in E2. do 4 eexists. split; [exact E1|]. split; [by apply stored_keeps|]. split; [exact E2|].
    split; [by apply stored_keeps|]. rewrite bool_decide_eq_false_2 by (by intros [? [=]]).
    split; [split; [done|by intros [? [=]]]|]. intros b v [=].
Qed.

(** C15: [garry_storage_next_key] returns the least visible key above the given key,
    or 0 when no visible key is above it. *)
Theorem next_key_correct oc h n eng ts C m fp txn after alen a kb
  (Hs : can_scan oc h n eng ts C m fp txn) (Ha : slice after 0 alen = Some a) (Hl : 0 < alen) (Hb : Forall is_byte a)
  (Hk : GARRY_MAX_KEY_SIZE <= zlen kb) :
  exists eng' r, garry_storage_next_key oc eng txn after alen (Some kb) = Some (eng', r) /\ stored h eng' ts C m fp /\
    match r with
    | Some (Some out, klen) => exists k, slice out 0 klen = Some k /\ is_Some (visible_value ts C txn k) /\ key_lt a k /\
        forall k', is_Some (visible_value ts C txn k') -> key_lt a k' -> key_le k k'
    | Some (None, _) => False
    | None => forall k', is_Some (visible_value ts C txn k') -> ~ key_lt a k'
    end.
Proof.
  pose proof Hs as [A1 A2 A3 A4 A5 A6 A7 A8 A9]. unfold garry_storage_next_key.
  rewrite (running_active _ _ _ (sd_txns _ _ _ _ _ _ A1) A2). cbn [mbind option_bind negb]. rewrite decide_False by lia.
  destruct (open_all oc h n eng ts C m fp txn Hs) as (p1 & bc & L & -> & Hk1 & Hr1 & Hw). cbn [mbind option_bind].
  destruct (next_key_loop_spec (oc_fuel oc) oc h (set_pool eng p1) ts C m fp txn bc m L n (zeros GARRY_MAX_KEY_SIZE) after alen a kb
    Hw Hr1 A4 eq_refl A8 A8 (keys_bytes _ _ _ _ _ _ A1) Ha Hb Hk) as (p2 & Hk2 & _ & Hm).
  pose proof (filter_head_least (fun e => key_lt a e.1) _ (shown_sorted _ _ _ _ _ _ txn A1)) as Hleast.
  pose proof (stored_keeps _ _ _ _ _ _ p2 (wk_stored _ _ _ _ _ _ _ _ _ _ _ _ _ _ Hw) Hk2) as Hs2.
  destruct (filter (fun e => key_lt a e.1) (filter (shown ts C txn []) m)) as [|e es].
  - do 2 eexists. split; [exact Hm|]. split; [exact Hs2|]. intros k' Hv Hlt. destruct (shown_entry _ _ _ _ _ _ _ _ A1 Hv) as (e & He & <-).
    rewrite Forall_forall in Hleast. by apply (Hleast e He).
  - destruct Hm as (out & E & Hsl). do 2 eexists. split; [exact E|]. split; [exact Hs2|]. cbn.
    destruct Hleast as ([[_ Hv] _]%list_elem_of_filter & Hlt & Hall). exists e.1. split; [exact Hsl|]. split; [exact Hv|]. split; [exact Hlt|].
    intros k' Hv' Hlt'. destruct (shown_entry _ _ _ _ _ _ _ _ A1 Hv') as (x & Hx & <-). by apply Hall.
Qed.

(** C16: [garry_storage_prev_key] returns the greatest visible key below the given
    key, or 0 when no visible key is below it. *)
Theorem prev_key_correct oc h n eng ts C m fp txn before blen b kb
  (Hs : can_scan oc h n eng ts C m fp txn) (Ha : slice before 0 blen = Some b) (Hl : 0 < blen) (Hb : Forall is_byte b)
  (Hk : GARRY_MAX_KEY_SIZE <= zlen kb) :
  exists eng' r, garry_storage_prev_key oc eng txn before blen kb = Some (eng', r) /\ stored h eng' ts C m fp /\
    match r with
    | Some (out, klen) => exists k, slice out 0 klen = Some k /\ is_Some (visible_value ts C txn k) /\ key_lt k b /\
        forall k', is_Some (visible_value ts C txn k') -> key_lt k' b -> key_le k' k
    | None => forall k', is_Some (visible_value ts C txn k') -> ~ key_lt k' b
    end.
Proof.
  pose proof Hs as [A1 A2 A3 A4 A5 A6 A7 A8 A9]. unfold garry_storage_prev_key.
  rewrite (running_active _ _ _ (sd_txns _ _ _ _ _ _ A1) A2). cbn [mbind option_bind negb]. rewrite decide_False by lia.
  destruct (open_all oc h n eng ts C m fp txn Hs) as (p1 & bc & L & -> & Hk1 & Hr1 & Hw). cbn [mbind option_bind].
  destruct (prev_key_loop_spec (oc_fuel oc) oc h (set_pool eng p1) ts C m fp txn bc m L n before blen b (zeros GARRY_MAX_KEY_SIZE) None
    Hw Hr1 A4 eq_refl A8 A8 (keys_bytes _ _ _ _ _ _ A1) Ha Hb) as (p2 & prev' & found' & Hk2 & _ & Hz & -> & Hm). cbn [mbind option_bind].
  pose proof (filter_last_greatest (fun e => key_lt e.1 b) _ (shown_sorted _ _ _ _ _ _ txn A1)) as Hgr.
  pose proof (stored_keeps _ _ _ _ _ _ p2 (wk_stored _ _ _ _ _ _ _ _ _ _ _ _ _ _ Hw) Hk2) as Hs2.
  destruct (last (filter (fun e => key_lt e.1 b) (filter (shown ts C txn []) m))) as [e|].
  - destruct Hm as [-> Hsl]. destruct (copy_key kb prev' e.1 Hz Hk Hsl) as (out & -> & _ & Hso). cbn [mbind option_bind].
    do 2 eexists. split; [reflexivity|]. split; [exact Hs2|]. cbn.
    destruct Hgr as ([[_ Hv] _]%list_elem_of_filter & Hlt & Hall). exists e.1. split; [exact Hso|]. split; [exact Hv|]. split; [exact Hlt|].
    intros k' Hv' Hlt'. destruct (shown_entry _ _ _ _ _ _ _ _ A1 Hv') as (x & Hx & <-). by apply Hall.
  - destruct Hm as [_ ->]. do 2 eexists. split; [reflexivity|]. split; [exact Hs2|]. cbn. intros k' Hv Hlt.
    destruct (shown_entry _ _ _ _ _ _ _ _ A1 Hv) as (e & He & <-). rewrite Forall_forall in Hgr. by apply (Hgr e He).
Qed.

(** C18: [garry_storage_cursor_skip_prefix] makes the next call of next return the
    first visible key that does not start with the skipped prefix, and returns 0 when
    every visible key starts with it; the keys meant are those with the prefix of the
    cursor. *)
Theorem skip_then_next oc h n eng ts C m fp txn prefix plen P skip slen Q kb
  (Hs : can_scan oc h n eng ts C m fp txn) (Hp : prefix_arg prefix plen P) (HQ : slice skip 0 slen = Some Q)
  (Hk : GARRY_MAX_KEY_SIZE <= zlen kb) (Hcost : forall k c, C !! k = Some c -> get_cost c.2 <= n) :
  exists eng1 cur eng2 cur2 found, garry_storage_cursor_open oc eng txn prefix plen = Some (eng1, cur) /\
    garry_storage_cursor_skip_prefix oc eng1 cur skip slen = Some (eng2, cur2, found) /\ stored h eng2 ts C m fp /\
    if found : bool then
      exists eng3 cur3 kb' k, garry_storage_cursor_next oc eng2 cur2 (Some kb) None false =
          Some (eng3, cur3, Some (CursorItem (Some kb') (zlen k) None None)) /\
        slice kb' 0 (zlen k) = Some k /\ P `prefix_of` k /\ is_Some (visible_value ts C txn k) /\ ~ Q `prefix_of` k /\
        forall k', P `prefix_of` k' -> is_Some (visible_value ts C txn k') -> ~ Q `prefix_of` k' -> key_le k k'
    else forall k', P `prefix_of` k' -> is_Some (visible_value ts C txn k') -> Q `prefix_of` k'.
Proof.
  destruct (storage_cursor_open_spec oc h n eng ts C m fp txn prefix plen P Hs Hp)
    as (p1 & bc & before & rest & L & E & Hm & HF & Hk1 & Hr & Hs1 & Hc & HL).
  pose proof Hs as [A1 A2 A3 A4 A5 A6 A7 A8 A9].
  assert (Hfil : filter (shown ts C txn P) m = filter (shown ts C txn P) rest) by (rewrite Hm; by apply filter_shown_skip).
  assert (Hlen : (length rest <= length m)%nat) by (rewrite Hm, length_app; lia).
  assert (Hw : can_walk oc h (set_pool eng p1) ts C m fp txn P bc rest L None false).
  { split; [exact Hs1|exact Hc| |cbn; by rewrite (kp_capacity _ _ Hk1)|exact HL|apply keys_only|exact A9].
    pose proof (stored_described _ _ _ _ _ _ A1) as Hd. rewrite Hm in Hd. by apply Forall_app in Hd as [_ Hd]. }
  destruct (skip_loop_spec (oc_fuel oc) oc h (set_pool eng p1) ts C m fp txn P bc rest L n (zeros GARRY_MAX_KEY_SIZE) skip slen Q
    Hw Hr A4 ltac:(reflexivity) ltac:(lia) ltac:(lia) HQ) as (p2 & cur2 & Hk2 & Ht & Hres).
  assert (Hsrt : sorted (filter (shown ts C txn P) m))
    by (apply sorted_filter; exact (tree_sorted _ _ _ _ _ _ (bt_tree _ _ _ _ _ (sd_tree _ _ _ _ _ _ A1)))).
  pose proof (filter_head_least (fun e => ~ Q `prefix_of` e.1) _ Hsrt) as Hleast. rewrite Hfil in Hleast.
  assert (Hshown : forall k, P `prefix_of` k -> is_Some (visible_value ts C txn k) -> exists e, e ∈ filter (shown ts C txn P) rest /\ e.1 = k).
  { intros k Hpk Hv. assert (Hx : k ∈ map fst (filter (shown ts C txn P) m)) by (by eapply shown_key).
    rewrite Hfil in Hx. apply list_elem_of_fmap in Hx as (e & -> & He). by exists e. }
  pose proof (stored_keeps _ _ _ _ _ _ p2 Hs1 Hk2) as Hs2. exists (set_pool eng p1), (StorageCursor bc txn).
  unfold garry_storage_cursor_skip_prefix. cbn [sc_btree]. rewrite (co_live _ _ _ _ _ Hc).
  destruct (filter (fun e => ~ Q `prefix_of` e.1) (filter (shown ts C txn P) rest)) as [|e es].
  - destruct Hres as [-> _]. do 3 eexists. split; [exact E|]. split; [reflexivity|]. split; [exact Hs2|]. intros k' Hpk Hv.
    destruct (Hshown k' Hpk Hv) as (x & Hx & <-). rewrite Forall_forall in Hleast. specialize (Hleast x Hx).
    destruct (decide (Q `prefix_of` x.1)); [done|by exfalso].
  - destruct Hres as (-> & rest' & L' & R1 & [b Hb] & (c & R2 & R3) & _ & _ & _ & Hsh & R4). do 3 eexists. split; [exact E|].
    split; [reflexivity|]. split; [exact Hs2|]. destruct cur2 as [bc2 t2]. cbn in Ht. subst t2. cbn [sc_btree] in R1.
    pose proof (walk_cost_pos C rest'). pose proof (zlen_nonneg L'). pose proof (Hcost _ _ R2).
    destruct (next_saved_spec oc h (set_pool eng p2) ts C m fp txn P bc2 e rest' L' (n - get_cost c.2) kb c b Hs2 R1 R2 R3 Hb)
      as (p3 & bc3 & kb' & E3 & Hsl & _).
    { eapply ready_le; [exact R4|lia]. }
    { lia. }
    { cbn. rewrite (kp_capacity _ _ Hk2). cbn. by rewrite (kp_capacity _ _ Hk1). }
    { exact Hk. }
    { lia. }
    { exact A9. }
    destruct Hleast as ([[Hpe _] _]%list_elem_of_filter & Hq & Hall).
    do 3 eexists. exists e.1. split; [exact E3|]. split; [exact Hsl|]. split; [exact Hpe|]. split; [by eexists|]. split; [exact Hq|].
    intros k' Hpk Hv Hn. destruct (Hshown k' Hpk Hv) as (x & Hx & <-). by apply Hall.
Qed.

(** * Where navigation goes wrong *)

(** Setting one-byte keys to a byte, each for a transaction, one after the other. *)
Definition set_keys (eng : garry_engine_handle) (ks : list (Z * Z)) : option garry_engine_handle :=
  foldl (fun st tk => eng ← st; '(eng, _) ← garry_storage_set sample_oc eng tk.1 [tk.2] 1 (Some [7]) 1; Some eng) (Some eng) ks.

(** [garry_storage_last] can miss keys.  Transaction 5 sets the keys 1, 2 and 3,
    and transaction 6, still running, the keys 8 and 9.  Walking over its keys,
    transaction 5 sees 1, 2 and 3; but the last key it gets is 1: the split that made
    the leaf of 2 and 3 did not change the [prev_page] of the leaf after it. *)
Theorem last_misses_keys :
  (eng ← set_keys sample_storage [(5, 1); (6, 8); (6, 9); (5, 2); (5, 3)];
   '(eng, cur) ← garry_storage_cursor_open sample_oc eng 5 None 0;
   '(eng, ks) ← storage_keys 9 sample_oc eng cur (zeros 256);
   '(eng, r) ← garry_storage_last sample_oc eng 5 (Some (zeros 256));
   Some (ks, match r with Some (Some kb, l) => slice kb 0 l | _ => None end)) = Some ([[1]; [2]; [3]], Some [1]).
Proof. vm_compute. reflexivity. Qed.

(** * Witnesses *)

Lemma one_key (m : list entry) k : sorted m -> Forall (fun e => e.1 = k) m -> m = [] \/ exists e, m = [e] /\ e.1 = k.
Proof.
  intros Hs HF. destruct m as [|x [|y m]]; [by left|right; exists x; by apply Forall_cons in HF as [HF _]|].
  exfalso. inversion Hs as [|? ? _ Hlt]. subst. apply Forall_cons in HF as [Hx [Hy _]%Forall_cons]. apply Forall_cons in Hlt as [Hlt _].
  rewrite Hx, Hy in Hlt. by apply (irreflexivity key_lt k).
Qed.

Definition sample_scan : outcomes := Outcomes (fun _ => true) (Some (zeros 256)) malloc_zeros true true (fun _ => all_reads) 20.

(** A walk over the store in which transaction 5 has set the key [107]. *)
Lemma sample_can_scan : exists h ts c pages m fp,
  can_scan sample_scan h 10 sample_stored ts (<[ [107] := (c, [Cell 5 (Some sample_value) pages])]> ∅) m fp 5 /\
  (h <= 1)%nat /\ zlen pages <= 2 /\ ready 100 [] [] (e_pool sample_stored) /\ p_capacity (e_pool sample_stored) = 4 /\
  e_page_size sample_stored = 512.
Proof.
  destruct sample_stored_facts as (h & ts & c & pages & (m & fp & Hs) & H2 & H3 & H4 & H5 & H6 & H7 & _).
  exists h, ts, c, pages, m, fp. pose proof (sd_tree _ _ _ _ _ _ Hs) as [T1 T2 T3 _].
  assert (Hfp : zlen fp <= 9).
  { assert (Hn : p_next_page (e_pool sample_stored) = 9) by (vm_compute; reflexivity). rewrite Hn in T3.
    pose proof (nodup_range 0 9 fp T2 T3 ltac:(lia)). lia. }
  pose proof (stored_described _ _ _ _ _ _ Hs) as Hd. apply tree_sorted in T1.
  assert (Hk : Forall (fun e => e.1 = [107]) m).
  { eapply Forall_impl; [exact Hd|]. intros e (c' & Hc & _). destruct (decide (e.1 = [107])) as [Heq|Hne]; [exact Heq|].
    rewrite lookup_insert_ne in Hc by congruence. rewrite lookup_empty in Hc. discriminate Hc. }
  clear Hd T2 T3.
  assert (Hm : (length m <= 1)%nat /\ walk_cost (<[ [107] := (c, [Cell 5 (Some sample_value) pages])]> ∅) m <= 12).
  { destruct (one_key m [107] T1 Hk) as [->|(x & -> & Hx)]; (split; [cbn; lia|]); [discriminate|].
    unfold walk_cost. cbn [map foldr]. unfold entry_cost. rewrite Hx, lookup_insert_eq. cbn [snd].
    unfold get_cost, chain_pages. cbn [map concat c_pages]. rewrite app_nil_r. lia. }
  destruct Hm as [Hm1 Hm2]. split; [|by repeat (split; [done|])]. split.
  - exact Hs.
  - exact H4.
  - eapply ready_le; [exact H5|]. pose proof (zlen_nonneg fp). pose proof (walk_cost_pos (<[ [107] := (c, [Cell 5 (Some sample_value) pages])]> ∅) m).
    unfold scan_cost. lia.
  - lia.
  - rewrite H6. reflexivity.
  - cbn. lia.
  - cbn. unfold zlen in Hfp. lia.
  - cbn. lia.
  - intros cid. reflexivity.
Qed.

Lemma storage_cursor_iterates_witness : exists eng1 cur eng2 keys,
  garry_storage_cursor_open sample_scan sample_stored 5 (Some [107; 0]) 1 = Some (eng1, cur) /\
  storage_keys 20 sample_scan eng1 cur (zeros 256) = Some (eng2, keys) /\ [107] ∈ keys.
Proof.
  destruct sample_can_scan as (h & ts & c & pages & m & fp & Hs & _ & _ & _ & _ & _).
  destruct (storage_cursor_iterates sample_scan h 10 sample_stored ts _ m fp 5 (Some [107; 0]) 1 [107] 20 (zeros 256) Hs)
    as (eng1 & cur & eng2 & keys & E1 & E2 & _ & _ & Hin).
  - right. exists [107; 0]. split; [reflexivity|]. split; [reflexivity|]. split; [vm_compute; discriminate|].
    apply Forall_singleton. unfold is_byte. lia.
  - vm_compute. discriminate.
  - exact (sc_keys _ _ _ _ _ _ _ _ _ Hs).
  - exists eng1, cur, eng2, keys. split; [exact E1|]. split; [exact E2|]. apply Hin. split; [reflexivity|].
    rewrite (visible_value_own ∅ ts [107] (c, []) 5 (Some sample_value) pages). by eexists.
Defined.

Lemma sample_decodes : decodes sample_scan (e_compression sample_stored) sample_value sample_value.
Proof. unfold decodes. rewrite decide_False; [exact eq_refl|vm_compute; discriminate]. Qed.

Lemma exists_iff_get_witness : exists eng1,
  garry_storage_exists sample_scan sample_stored 5 [107] 1 = Some (eng1, true).
Proof.
  destruct sample_can_scan as (h & ts & c & pages & m & fp & Hs & H1 & H2 & H3 & H4 & H5).
  pose proof (sample_read_cost h c pages H1 H2) as Hrc.
  assert (Hv : visible_value ts (<[ [107] := (c, [Cell 5 (Some sample_value) pages])]> ∅) 5 [107] = Some sample_value)
    by exact (visible_value_own ∅ ts [107] (c, []) 5 (Some sample_value) pages).
  destruct (exists_iff_get sample_scan h 10 sample_stored ts _ m fp 5 [107] 1 [107] (zeros 1000) (sc_stored _ _ _ _ _ _ _ _ _ Hs))
    as (eng1 & found & eng2 & r & E1 & _ & E2 & _ & Hiff & _).
  - eapply ready_le; [exact H3|lia].
  - lia.
  - rewrite H4. reflexivity.
  - rewrite H5. apply sample_key; [lia|unfold is_byte; lia].
  - exact (sc_height _ _ _ _ _ _ _ _ _ Hs).
  - exact (sc_reads _ _ _ _ _ _ _ _ _ Hs).
  - exact (sc_running _ _ _ _ _ _ _ _ _ Hs).
  - intros b Hb. rewrite Hv in Hb. injection Hb as <-. exists sample_value. split; [exact sample_decodes|vm_compute; discriminate].
  - exists eng1. destruct found; [exact E1|]. exfalso.
    assert (Hg : exists e d, garry_storage_get sample_scan sample_stored 5 [107] 1 (Some (zeros 1000)) = Some (e, Some d))
      by (do 2 eexists; vm_compute; reflexivity).
    destruct Hg as (e & d & Hg). rewrite E2 in Hg. injection Hg as <- ->. destruct Hiff as [_ Hiff]. discriminate (Hiff (ex_intro _ d eq_refl)).
Defined.

Lemma next_key_correct_witness : exists eng' out klen,
  garry_storage_next_key sample_scan sample_stored 5 [106; 255] 2 (Some (zeros 256)) = Some (eng', Some (Some out, klen)).
Proof.
  destruct sample_can_scan as (h & ts & c & pages & m & fp & Hs & _ & _ & _ & _ & _).
  destruct (next_key_correct sample_scan h 10 sample_stored ts _ m fp 5 [106; 255] 2 [106; 255] (zeros 256) Hs)
    as (eng' & r & E & _ & Hr).
  - reflexivity.
  - lia.
  - repeat constructor; unfold is_byte; lia.
  - vm_compute. discriminate.
  - destruct r as [[[out|] klen]|]; [exists eng', out, klen; exact E|destruct Hr|]. exfalso. apply (Hr [107]).
    + rewrite (visible_value_own ∅ ts [107] (c, []) 5 (Some sample_value) pages). by eexists.
    + vm_compute. reflexivity.
Defined.

Lemma prev_key_correct_witness : exists eng' out klen,
  garry_storage_prev_key sample_scan sample_stored 5 [107; 0] 2 (zeros 256) = Some (eng', Some (out, klen)).
Proof.
  destruct sample_can_scan as (h & ts & c & pages & m & fp & Hs & _ & _ & _ & _ & _).
  destruct (prev_key_correct sample_scan h 10 sample_stored ts _ m fp 5 [107; 0] 2 [107; 0] (zeros 256) Hs)
    as (eng' & r & E & _ & Hr).
  - reflexivity.
  - lia.
  - repeat constructor; unfold is_byte; lia.
  - vm_compute. discriminate.
  - destruct r as [[out klen]|]; [exists eng', out, klen; exact E|]. exfalso. apply (Hr [107]).
    + rewrite (visible_value_own ∅ ts [107] (c, []) 5 (Some sample_value) pages). by eexists.
    + vm_compute. reflexivity.
Defined.

Lemma skip_then_next_witness : exists eng1 cur eng2 cur2 eng3 cur3 kb',
  garry_storage_cursor_open sample_scan sample_stored 5 None 0 = Some (eng1, cur) /\
  garry_storage_cursor_skip_prefix sample_scan eng1 cur [50] 1 = Some (eng2, cur2, true) /\
  garry_storage_cursor_next sample_scan eng2 cur2 (Some (zeros 256)) None false =
    Some (eng3, cur3, Some (CursorItem (Some kb') 1 None None)) /\ slice kb' 0 1 = Some [107].
Proof.
  destruct sample_can_scan as (h & ts & c & pages & m & fp & Hs & H1 & H2 & _ & _ & _).
  assert (Hv : visible_value ts (<[ [107] := (c, [Cell 5 (Some sample_value) pages])]> ∅) 5 [107] = Some sample_value)
    by exact (visible_value_own ∅ ts [107] (c, []) 5 (Some sample_value) pages).
  destruct (skip_then_next sample_scan h 10 sample_stored ts _ m fp 5 None 0 [] [50] 1 [50] (zeros 256) Hs)
    as (eng1 & cur & eng2 & cur2 & found & E1 & E2 & _ & Hm).
  - left. split; [reflexivity|]. split; reflexivity.
  - reflexivity.
  - vm_compute. discriminate.
  - intros k c' Hc. destruct (decide (k = [107])) as [->|Hne].
    + rewrite lookup_insert_eq in Hc. injection Hc as <-. cbn [snd].
      unfold get_cost, chain_pages. cbn [map concat c_pages]. rewrite app_nil_r. lia.
    + rewrite lookup_insert_ne in Hc by congruence. rewrite lookup_empty in Hc. discriminate Hc.
  - exists eng1, cur, eng2, cur2. destruct found.
    + destruct Hm as (eng3 & cur3 & kb' & k & E3 & Hsl & _ & [b Hb] & _). exists eng3, cur3, kb'.
      assert (k = [107]) as ->.
      { destruct (decide (k = [107])) as [Heq|Hne]; [exact Heq|]. unfold visible_value in Hb. rewrite lookup_insert_ne in Hb by congruence.
        rewrite lookup_empty in Hb. discriminate Hb. }
      split; [exact E1|]. split; [exact E2|]. split; [exact E3|exact Hsl].
    + exfalso. assert (Hp : [50] `prefix_of` [107]) by (apply Hm; [apply prefix_nil|rewrite Hv; by eexists]).
      destruct Hp as [x Hx]. discriminate Hx.
Defined.
