(* ===== verification/Api.v ===== *)
(** The public interface, [src/src/garry_api.c], [garry_config.c] and [garry_types.c]:
    argument checks in front of the storage layer, strings as keys and values, and the
    walk with a visitor. *)

From Stdlib Require Import Strings.String Sorting.Sorted.
From stdpp Require Import gmap.
From S2P Require Import Prelude Endian KeyEncoding BtreeCompression RecordCodec SlottedPage LockTable DbHeader Lz4.
From S2P Require Import FileIo BufferPool PoolClient BtreeNode NodeView BtreeSearch BtreeModify BtreeInsert Cursor.
From S2P Require Import VersionChain Overflow WalLog Transaction MvccStore StorageOps KeyStore StorageProps.
From S2P Require Import VersionIter WalRecovery Engine StorageCursor.

(** * Status codes and configuration *)

(** [garry_status_t]; the argument of [garry_strerror] may be any integer. *)
Definition garry_status_t : Type := Z.
Definition GARRY_OK : garry_status_t := 0.
Definition GARRY_ERR_NOT_FOUND : garry_status_t := 1.
Definition GARRY_ERR_LOCK_CONFLICT : garry_status_t := 2.
Definition GARRY_ERR_IO : garry_status_t := 3.
Definition GARRY_ERR_CORRUPT : garry_status_t := 4.
Definition GARRY_ERR_INVALID_ARG : garry_status_t := 5.
Definition GARRY_ERR_NOMEM : garry_status_t := 6.
Definition GARRY_ERR_BUFFER_TOO_SMALL : garry_status_t := 7.

Definition garry_strerror (status : garry_status_t) : string :=
  if decide (status = GARRY_OK) then "ok"
  else if decide (status = GARRY_ERR_NOT_FOUND) then "not found"
  else if decide (status = GARRY_ERR_LOCK_CONFLICT) then "lock conflict"
  else if decide (status = GARRY_ERR_IO) then "i/o error"
  else if decide (status = GARRY_ERR_CORRUPT) then "corrupt database"
  else if decide (status = GARRY_ERR_INVALID_ARG) then "invalid argument"
  else if decide (status = GARRY_ERR_NOMEM) then "out of memory"
  else if decide (status = GARRY_ERR_BUFFER_TOO_SMALL) then "buffer too small"
  else "unknown error".

Record garry_config := Config {
  cf_pool_size : Z; cf_max_record_size : Z; cf_page_size : Z; cf_max_txns : Z; cf_max_versions : Z;
  cf_max_key_size : Z; cf_max_subscripts : Z; cf_compression : Z; cf_btree_flags : Z
}.

Definition garry_config_default : garry_config :=
  let s := garry_default_engine_settings in
  Config (es_pool_size s) (es_max_record_size s) (es_page_size s) (es_max_txns s) (es_max_versions s)
    (es_max_key_size s) (es_max_subscripts s) (es_compression s) (es_btree_flags s).

(** * Databases *)

(** A database is the engine it points to, [None] where the caller passes [NULL].
    [db_ok] is the result of the allocation of the handle; when it fails the engine is
    closed again. *)
Definition wrap_engine (db_ok : bool) (r : open_result) : option open_result :=
  match r with
  | NoEngine fds => Some (NoEngine fds)
  | Opened eng =>
      if db_ok then Some (Opened eng)
      else '(fd, wal) ← garry_storage_close eng; Some (NoEngine [fd; wl_fd wal])
  end.

Definition garry_database_create (os : list Z -> Z -> garry_file_descriptor) (m : open_mem) (db_ok : bool)
    (path : option (list Z)) : option open_result :=
  match path with
  | None => Some (NoEngine [])
  | Some _ => r ← garry_storage_init os m path garry_default_engine_settings; wrap_engine db_ok r
  end.

Definition config_settings (config : garry_config) : garry_engine_settings :=
  EngineSettings (cf_page_size config) (cf_compression config) (cf_max_txns config) (cf_max_versions config)
    (cf_max_key_size config) (cf_max_subscripts config) (cf_btree_flags config) (cf_pool_size config)
    (cf_max_record_size config).

Definition garry_database_create_with_config (os : list Z -> Z -> garry_file_descriptor) (m : open_mem) (db_ok : bool)
    (path : option (list Z)) (config : garry_config) : option open_result :=
  match path with
  | None => Some (NoEngine [])
  | Some _ => r ← garry_storage_init os m path (config_settings config); wrap_engine db_ok r
  end.

Definition garry_database_open (os : list Z -> Z -> garry_file_descriptor) (m : open_mem) (db_ok : bool)
    (ocs : recovery_outcomes) (path : option (list Z)) : option open_result :=
  match path with
  | None => Some (NoEngine [])
  | Some _ => r ← garry_storage_open os m ocs path; wrap_engine db_ok r
  end.

(** What is left of the files; nothing for [NULL]. *)
Definition garry_database_close (db : option garry_engine_handle)
  : option (option (garry_file_descriptor * garry_wal_log)) :=
  match db with
  | None => Some None
  | Some eng => r ← garry_storage_close eng; Some (Some r)
  end.

(** * Transactions *)

Definition garry_txn_begin (db : option garry_engine_handle) : option (option garry_engine_handle * Z) :=
  match db with
  | None => Some (None, -1)
  | Some eng => '(eng, txn) ← garry_storage_begin eng; Some (Some eng, txn)
  end.

Definition garry_txn_commit (mem : bool) (db : option garry_engine_handle) (txn : Z) : option (option garry_engine_handle) :=
  match db with
  | None => Some None
  | Some eng => eng ← garry_storage_commit mem eng txn; Some (Some eng)
  end.

Definition garry_txn_rollback (mem : bool) (db : option garry_engine_handle) (txn : Z) : option (option garry_engine_handle) :=
  match db with
  | None => Some None
  | Some eng => eng ← garry_storage_rollback mem eng txn; Some (Some eng)
  end.

(** * Operations on a key *)

(** With the status: the value buffer and [*vlen] when a value was found.  The number
    that [*vlen] holds at the call is not an argument, since the code never reads it. *)
Definition garry_get (oc : outcomes) (db : option garry_engine_handle) (txn : Z) (key : list Z) (klen : Z)
    (value : option (list Z)) : option (option garry_engine_handle * garry_status_t * option (option (list Z) * Z)) :=
  match db with
  | None => Some (None, GARRY_ERR_INVALID_ARG, None)
  | Some eng =>
      '(eng, found) ← garry_storage_get oc eng txn key klen value;
      match found with
      | Some out => Some (Some eng, GARRY_OK, Some out)
      | None =>
          active ← garry_txn_is_active txn eng;
          Some (Some eng, if negb active then GARRY_ERR_INVALID_ARG else GARRY_ERR_NOT_FOUND, None)
      end
  end.

Definition garry_set (oc : outcomes) (db : option garry_engine_handle) (txn : Z) (key : list Z) (klen : Z)
    (value : option (list Z)) (vlen : Z) : option (option garry_engine_handle * garry_status_t) :=
  match db with
  | None => Some (None, GARRY_ERR_INVALID_ARG)
  | Some eng =>
      '(eng, ok) ← garry_storage_set oc eng txn key klen value vlen;
      Some (Some eng, if ok : bool then GARRY_OK else GARRY_ERR_INVALID_ARG)
  end.

Definition garry_delete (oc : outcomes) (db : option garry_engine_handle) (txn : Z) (key : list Z) (klen : Z)
  : option (option garry_engine_handle * garry_status_t) :=
  match db with
  | None => Some (None, GARRY_ERR_INVALID_ARG)
  | Some eng =>
      '(eng, ok) ← garry_storage_delete oc eng txn key klen;
      Some (Some eng, if ok : bool then GARRY_OK else GARRY_ERR_NOT_FOUND)
  end.

Definition garry_get_default (oc : outcomes) (db : option garry_engine_handle) (txn : Z) (key : list Z) (klen : Z)
    (def : list Z) (dlen : Z) (value : list Z)
  : option (option garry_engine_handle * garry_status_t * option (list Z * Z)) :=
  match db with
  | None => Some (None, GARRY_ERR_INVALID_ARG, None)
  | Some eng =>
      '(eng, r) ← garry_storage_get_default oc eng txn key klen def dlen value;
      Some (Some eng, match r with Some _ => GARRY_OK | None => GARRY_ERR_INVALID_ARG end, r)
  end.

Definition garry_data (oc : outcomes) (db : option garry_engine_handle) (txn : Z) (key : list Z) (klen : Z)
  : option (option garry_engine_handle * Z) :=
  match db with
  | None => Some (None, 0)
  | Some eng => '(eng, r) ← garry_storage_data oc eng txn key klen; Some (Some eng, r)
  end.

(** The history of a key, [garry_get_versions]. *)
Definition garry_get_versions (mem_it mem_buf : bool) (fuel : nat) (db : option garry_engine_handle) (txn : Z)
    (key : option (list Z)) (klen : Z) : option (option garry_engine_handle * option garry_version_iter) :=
  match db with
  | None => Some (None, None)
  | Some eng => '(eng, it) ← garry_version_iter_open mem_it mem_buf fuel eng key klen; Some (Some eng, it)
  end.

(** * Navigation *)

(** The engine changes as the pages it loads do; for [NULL] the result is 0. *)
Definition on_engine {A} (db : option garry_engine_handle) (none : A) (f : garry_engine_handle -> option (garry_engine_handle * A))
  : option (option garry_engine_handle * A) :=
  match db with
  | None => Some (None, none)
  | Some eng => '(eng, r) ← f eng; Some (Some eng, r)
  end.

Definition garry_first (oc : outcomes) (db : option garry_engine_handle) (txn : Z) (key : option (list Z))
  : option (option garry_engine_handle * option (option (list Z) * Z)) :=
  on_engine db None (fun eng => garry_storage_first oc eng txn key).

Definition garry_last (oc : outcomes) (db : option garry_engine_handle) (txn : Z) (key : option (list Z))
  : option (option garry_engine_handle * option (option (list Z) * Z)) :=
  on_engine db None (fun eng => garry_storage_last oc eng txn key).

Definition garry_next_key (oc : outcomes) (db : option garry_engine_handle) (txn : Z) (after : list Z) (after_len : Z)
    (key : option (list Z)) : option (option garry_engine_handle * option (option (list Z) * Z)) :=
  on_engine db None (fun eng => garry_storage_next_key oc eng txn after after_len key).

Definition garry_prev_key (oc : outcomes) (db : option garry_engine_handle) (txn : Z) (before : list Z) (before_len : Z)
    (key : list Z) : option (option garry_engine_handle * option (list Z * Z)) :=
  on_engine db None (fun eng => garry_storage_prev_key oc eng txn before before_len key).

Definition garry_exists (oc : outcomes) (db : option garry_engine_handle) (txn : Z) (key : list Z) (klen : Z)
  : option (option garry_engine_handle * bool) :=
  on_engine db false (fun eng => garry_storage_exists oc eng txn key klen).

Definition garry_count (db : option garry_engine_handle) (txn : Z) : option Z :=
  match db with None => Some 0 | Some eng => garry_storage_count eng txn end.

(** * Cursors *)

(** The inner [None] of the cursor is [NULL]; [mem] is the result of its allocation. *)
Definition garry_cursor_open (oc : outcomes) (mem : bool) (db : option garry_engine_handle) (txn : Z)
    (prefix : option (list Z)) (plen : Z) : option (option garry_engine_handle * option garry_storage_cursor) :=
  match db with
  | None => Some (None, None)
  | Some eng =>
      if negb mem then Some (Some eng, None) else
      '(eng, scur) ← garry_storage_cursor_open oc eng txn prefix plen; Some (Some eng, Some scur)
  end.

(** The engine is the one the cursor points to. *)
Definition garry_cursor_next (oc : outcomes) (eng : garry_engine_handle) (cur : option garry_storage_cursor)
    (key value : option (list Z)) (has_vlen : bool)
  : option (garry_engine_handle * option garry_storage_cursor * option cursor_item) :=
  match cur with
  | None => Some (eng, None, None)
  | Some scur => '(eng, scur, r) ← garry_storage_cursor_next oc eng scur key value has_vlen; Some (eng, Some scur, r)
  end.

Definition garry_cursor_next_key (oc : outcomes) (eng : garry_engine_handle) (cur : option garry_storage_cursor)
    (key : option (list Z)) : option (garry_engine_handle * option garry_storage_cursor * option cursor_item) :=
  match cur with
  | None => Some (eng, None, None)
  | Some scur => '(eng, scur, r) ← garry_storage_cursor_next oc eng scur key None false; Some (eng, Some scur, r)
  end.

(** The handle is freed after it is closed. *)
Definition garry_cursor_close (cur : option garry_storage_cursor) : option garry_storage_cursor :=
  option_map garry_storage_cursor_close cur.

(** * Strings *)

(** A string argument is its bytes without the NUL. *)
Definition garry_set_str (oc : outcomes) (db : option garry_engine_handle) (txn : Z) (key value : option (list Z))
  : option (option garry_engine_handle * garry_status_t) :=
  match db, key, value with
  | Some _, Some key, Some value =>
      let klen := strlen key in
      if decide (klen > GARRY_MAX_KEY_SIZE) then Some (db, GARRY_ERR_BUFFER_TOO_SMALL) else
      let vlen := strlen value in
      if decide (vlen > GARRY_MAX_RECORD_SIZE) then Some (db, GARRY_ERR_BUFFER_TOO_SMALL) else
      garry_set oc db txn (cstr key) klen (Some (cstr value)) vlen
  | _, _, _ => Some (db, GARRY_ERR_INVALID_ARG)
  end.

(** With the status, the value buffer. *)
Definition garry_get_str (oc : outcomes) (db : option garry_engine_handle) (txn : Z) (key value : option (list Z))
    (value_size : Z) : option (option garry_engine_handle * garry_status_t * option (list Z)) :=
  match db, key, value with
  | Some _, Some key, Some value =>
      if decide (value_size <= 0) then Some (db, GARRY_ERR_INVALID_ARG, Some value) else
      let klen := strlen key in
      if decide (klen > GARRY_MAX_KEY_SIZE) then Some (db, GARRY_ERR_BUFFER_TOO_SMALL, Some value) else
      '(db, rc, out) ← garry_get oc db txn (cstr key) klen (Some value);
      match out with
      | Some (out, vlen) =>
          let vlen := if decide (vlen >= value_size) then value_size - 1 else vlen in
          v ← wr (default value out) vlen 0;
          Some (db, rc, Some v)
      | None => Some (db, rc, Some value)
      end
  | _, _, _ => Some (db, GARRY_ERR_INVALID_ARG, value)
  end.

(** * The walk with a visitor *)

Section ForEach.
(** The visitor is code of the caller: it gets the two buffers and the lengths, and
    changes the data of the caller, [user_data]. *)
Context {U : Type} (visitor : list Z -> Z -> list Z -> Z -> U -> option U).

(** The loop, [calls] bounding its rounds.  The visitor is called with both lengths,
    since next was given both pointers. *)
Fixpoint for_each_loop (calls : nat) (oc : outcomes) (eng : garry_engine_handle) (cur : option garry_storage_cursor)
    (key value : list Z) (user_data : U) : option (garry_engine_handle * option garry_storage_cursor * U) :=
  match calls with
  | O => None
  | S calls =>
      '(eng, cur, r) ← garry_cursor_next oc eng cur (Some key) (Some value) true;
      match r with
      | None => Some (eng, cur, user_data)
      | Some it =>
          let key := default key (ci_key it) in
          let value := default value (ci_value it) in
          vlen ← ci_vlen it;
          user_data ← visitor key (ci_klen it) value vlen user_data;
          for_each_loop calls oc eng cur key value user_data
      end
  end.

(** The results of the three allocations are arguments. *)
Definition garry_for_each (oc : outcomes) (mem_key mem_value mem_cur : bool) (db : option garry_engine_handle) (txn : Z)
    (prefix : option (list Z)) (plen : Z) (user_data : U) : option (option garry_engine_handle * U) :=
  match db with
  | None => Some (None, user_data)
  | Some _ =>
      if negb (mem_key && mem_value) then Some (db, user_data) else
      '(db, cur) ← garry_cursor_open oc mem_cur db txn prefix plen;
      match db, cur with
      | Some eng, Some _ =>
          '(eng, cur, user_data) ← for_each_loop (oc_fuel oc) oc eng cur (zeros GARRY_MAX_KEY_SIZE) (zeros GARRY_MAX_RECORD_SIZE) user_data;
          Some (Some eng, user_data)
      | _, _ => Some (db, user_data)
      end
  end.
End ForEach.

(** * What the walk visits *)

Lemma hand_out_decoded oc c (b v out : list Z) :
  decodes oc c b v -> zlen v <= zlen out ->
  exists out', hand_out oc c (b ++ [0]) (zlen b) (Some out) true = Some (HandOut (Some out') (Some (zlen v))) /\
    slice out' 0 (zlen v) = Some v /\ zlen out' = zlen out.
Proof.
  assert (Hcopy : forall src, slice src 0 (zlen v) = Some v -> zlen v <= zlen out ->
    exists out', memcpy out 0 src 0 (zlen v) = Some out' /\ slice out' 0 (zlen v) = Some v /\ zlen out' = zlen out).
  { intros src Hs Hr. destruct (copy_out_spec out src v Hs Hr) as (out' & E & Ho). exists out'. unfold copy_out in E.
    destruct (memcpy out 0 src 0 (zlen v)) as [o|] eqn:Em; [|discriminate E]. injection E as <-. split; [done|]. split; [exact Ho|].
    unfold memcpy in Em. rewrite Hs in Em. exact (blit_zlen _ _ _ _ Em). }
  unfold decodes, hand_out. case_decide.
  - intros (Hm & dec & -> & Hd) Hr. cbn [mbind option_bind]. rewrite decide_True by exact Hm.
    destruct (Hcopy dec Hd Hr) as (out' & -> & Ho). by exists out'.
  - intros -> Hr. destruct (Hcopy (v ++ [0])) as (out' & -> & Ho); [by apply (slice_app [])|exact Hr|]. by exists out'.
Qed.

(** What the transaction reads can be decoded and fits a buffer of [room] bytes. *)
Definition values_fit (oc : outcomes) (ts : list garry_txn_info) (C : chains) (txn : Z) (eng : garry_engine_handle) (room : Z) : Prop :=
  forall k b, visible_value ts C txn k = Some b -> exists v, decodes oc (e_compression eng) b v /\ zlen v <= room.

Lemma fitting_hand_out oc ts C txn eng out (es : list entry) :
  values_fit oc ts C txn eng (zlen out) ->
  Forall (fun e => forall b, visible_value ts C txn e.1 = Some b ->
    exists v l, hand_out oc (e_compression eng) (b ++ [0]) (zlen b) (Some out) true = Some (HandOut v l)) es.
Proof.
  intros Hv. apply Forall_forall. intros e _ b Hb. destruct (Hv _ _ Hb) as (v & Hd & Hr).
  destruct (hand_out_decoded oc _ b v out Hd Hr) as (out' & E & _). by do 2 eexists.
Qed.

Lemma can_walk_value oc h eng ts C m fp txn P bc rest L value has_vlen value' has_vlen' :
  can_walk oc h eng ts C m fp txn P bc rest L value has_vlen ->
  Forall (fun e => forall b, visible_value ts C txn e.1 = Some b ->
    exists v l, hand_out oc (e_compression eng) (b ++ [0]) (zlen b) value' has_vlen' = Some (HandOut v l)) rest ->
  can_walk oc h eng ts C m fp txn P bc rest L value' has_vlen'.
Proof. intros [W1 W2 W3 W4 W5 _] W6. by split. Qed.

(** The pairs a walk shows: the keys of the shown entries with their values. *)
Definition shown_pair (oc : outcomes) (compression : Z) (ts : list garry_txn_info) (C : chains) (txn : Z)
    (e : entry) (p : list Z * list Z) : Prop :=
  p.1 = e.1 /\ exists b, visible_value ts C txn e.1 = Some b /\ decodes oc compression b p.2.

Section Visits.
Context {U : Type} (visitor : list Z -> Z -> list Z -> Z -> U -> option U) (visit : U -> list Z * list Z -> U).
(** The visitor looks at the key and the value, not behind them in the buffers. *)
Hypothesis visits : forall key klen value vlen k b u,
  slice key 0 klen = Some k -> slice value 0 vlen = Some b -> visitor key klen value vlen u = Some (visit u (k, b)).

Lemma for_each_loop_spec calls : forall oc h eng ts C m fp txn P bc rest L n kb vb u,
  can_walk oc h eng ts C m fp txn P bc rest L (Some vb) true -> values_fit oc ts C txn eng (zlen vb) ->
  ready (n + 2 * zlen L + walk_cost C rest) [] [] (e_pool eng) -> 0 <= n ->
  GARRY_MAX_KEY_SIZE <= zlen kb -> (length rest < oc_fuel oc)%nat -> (length (filter (shown ts C txn P) rest) < calls)%nat ->
  exists p' cur' ps, for_each_loop visitor calls oc eng (Some (StorageCursor bc txn)) kb vb u =
      Some (set_pool eng p', cur', foldl visit u ps) /\ keeps (e_pool eng) p' /\ ready n [] [] p' /\
    Forall2 (shown_pair oc (e_compression eng) ts C txn) (filter (shown ts C txn P) rest) ps.
Proof.
  induction calls as [|calls IH]; intros oc h eng ts C m fp txn P bc rest L n kb vb u Hw Hpl Hr Hn Hk Hf Hcalls; [lia|].
  cbn [for_each_loop]. unfold garry_cursor_next.
  destruct (storage_next_spec oc h eng ts C m fp txn P bc rest L (Some vb) true n kb Hw Hr Hn Hk Hf) as (p1 & [bc1 t1] & item & -> & Hk1 & Ht & Hres).
  cbn in Ht. subst t1. cbn [mbind option_bind]. unfold next_result in Hres.
  destruct (filter (shown ts C txn P) rest) as [|e es].
  - destruct Hres as (-> & _ & Hr1). exists p1. eexists _, []. split; [reflexivity|]. split; [exact Hk1|]. split; [exact Hr1|constructor].
  - destruct Hres as (b & kb1 & v & l & pre & rest1 & L1 & Q1 & Q2 & -> & Q4 & Q5 & Q6 & Q7 & Q8 & Q9 & Q10 & _).
    cbn [ci_key ci_klen ci_value ci_vlen sc_btree e_pool set_pool e_compression] in *.
    destruct (Hpl _ _ Q1) as (w & Hdec & Hroom). destruct (hand_out_decoded oc _ b w vb Hdec Hroom) as (vb1 & E & Hsv & Hzv).
    rewrite E in Q2. injection Q2 as <- <-. cbn [default mbind option_bind]. unfold id.
    rewrite (visits _ _ _ _ _ _ u Q4 Hsv). cbn [mbind option_bind].
    assert (Hpl1 : values_fit oc ts C txn (set_pool eng p1) (zlen vb1)) by (rewrite Hzv; exact Hpl).
    pose proof (walk_next _ _ _ _ _ _ _ _ _ _ _ _ _ _ p1 bc1 pre e rest1 L1 Hw Hk1 Q6 Q8 Q9) as Hw1.
    apply (can_walk_value _ _ _ _ _ _ _ _ _ _ _ _ _ _ (Some vb1) true) in Hw1; [|by apply fitting_hand_out].
    destruct (cursor_here _ _ _ _ _ Q8) as [HL1 _]. pose proof (walk_cost_pos C rest1).
    destruct (IH oc h (set_pool eng p1) ts C m fp txn P bc1 rest1 L1 n kb1 vb1 (visit u (e.1, w)) Hw1 Hpl1)
      as (p2 & cur2 & ps & -> & Hk2 & Hr2 & Hps); [exact Q10|exact Hn|lia| |rewrite <- Q7; cbn in Hcalls; lia|].
    { rewrite Q6, length_app in Hf. cbn [length] in Hf. lia. }
    exists p2, cur2, ((e.1, w) :: ps). split; [reflexivity|]. split; [cbn in Hk2; by transitivity p1|]. split; [exact Hr2|].
    rewrite Q7. constructor; [|exact Hps]. split; [done|]. by exists b.
Qed.

Lemma for_each_spec oc h n eng ts C m fp txn prefix plen P u :
  can_scan oc h n eng ts C m fp txn -> prefix_arg prefix plen P -> values_fit oc ts C txn eng GARRY_MAX_RECORD_SIZE ->
  exists eng' ps, garry_for_each visitor oc true true true (Some eng) txn prefix plen u =
      Some (Some eng', foldl visit u ps) /\ stored h eng' ts C m fp /\
    Forall2 (shown_pair oc (e_compression eng) ts C txn) (filter (shown ts C txn P) m) ps.
Proof.
  intros Hs Hp Hpl. unfold garry_for_each, garry_cursor_open. cbn [andb negb mbind option_bind].
  destruct (storage_cursor_open_spec oc h n eng ts C m fp txn prefix plen P Hs Hp)
    as (p1 & bc & before & rest & L & -> & Hm & HF & Hk1 & Hr & Hs1 & Hc & HL). cbn [mbind option_bind].
  pose proof Hs as [A1 A2 A3 A4 A5 A6 A7 A8 A9].
  assert (Hfil : filter (shown ts C txn P) m = filter (shown ts C txn P) rest) by (rewrite Hm; by apply filter_shown_skip).
  assert (Hlen : (length rest <= length m)%nat) by (rewrite Hm, length_app; lia).
  pose proof (length_filter (shown ts C txn P) rest) as Hlf.
  assert (Hz : zlen (zeros GARRY_MAX_RECORD_SIZE) = GARRY_MAX_RECORD_SIZE) by (rewrite zlen_zeros; [reflexivity|done]).
  assert (Hpl1 : values_fit oc ts C txn (set_pool eng p1) (zlen (zeros GARRY_MAX_RECORD_SIZE))) by (rewrite Hz; exact Hpl).
  destruct (for_each_loop_spec (oc_fuel oc) oc h (set_pool eng p1) ts C m fp txn P bc rest L n (zeros GARRY_MAX_KEY_SIZE)
    (zeros GARRY_MAX_RECORD_SIZE) u) as (p2 & cur2 & ps & -> & Hk2 & _ & Hps); [|exact Hpl1|exact Hr|exact A4|reflexivity|lia|lia|].
  { split; [exact Hs1|exact Hc| |cbn; by rewrite (kp_capacity _ _ Hk1)|exact HL|by apply fitting_hand_out|exact A9].
    pose proof (stored_described _ _ _ _ _ _ A1) as Hd. rewrite Hm in Hd. by apply Forall_app in Hd as [_ Hd]. }
  cbn [mbind option_bind]. eexists _, ps. split; [reflexivity|]. rewrite Hfil. split; [|exact Hps]. exact (stored_keeps _ _ _ _ _ _ p2 Hs1 Hk2).
Qed.
End Visits.

(** The pairs shown are the visible pairs, in the order of their keys. *)
Lemma shown_pairs_spec oc h eng ts C m fp txn P compression ps :
  stored h eng ts C m fp -> Forall2 (shown_pair oc compression ts C txn) (filter (shown ts C txn P) m) ps ->
  StronglySorted key_lt (map fst ps) /\
  forall k v, (k, v) ∈ ps <-> P `prefix_of` k /\ exists b, visible_value ts C txn k = Some b /\ decodes oc compression b v.
Proof.
  intros Hs HF. assert (Hkeys : map fst ps = map fst (filter (shown ts C txn P) m)).
  { clear Hs. induction HF as [|e p es ps [Hp _] _ IH]; [done|]. cbn [map]. by rewrite Hp, IH. }
  split.
  - rewrite Hkeys. apply sorted_keys, sorted_filter. exact (tree_sorted _ _ _ _ _ _ (bt_tree _ _ _ _ _ (sd_tree _ _ _ _ _ _ Hs))).
  - intros k v. split.
    + intros [i Hi]%list_elem_of_lookup. destruct (Forall2_lookup_r _ _ _ _ _ HF Hi) as (e & He & Hk & b & Hb & Hd). cbn in Hk, Hd. subst k.
      apply list_elem_of_lookup_2, list_elem_of_filter in He as [[Hp _] _]. split; [exact Hp|]. by exists b.
    + intros (Hp & b & Hb & Hd). assert (Hin : k ∈ map fst ps) by (rewrite Hkeys; eapply shown_key; [exact Hs|split; [exact Hp|by eexists]]).
      apply list_elem_of_fmap in Hin as ([k' w] & Hk & Hin). cbn in Hk. subst k'. pose proof Hin as [i Hi]%list_elem_of_lookup.
      destruct (Forall2_lookup_r _ _ _ _ _ HF Hi) as (e & _ & Hk & b' & Hb' & Hd'). cbn in Hk, Hd'. rewrite <- Hk, Hb in Hb'. injection Hb' as <-.
      by rewrite (decodes_fun _ _ _ _ _ Hd Hd').
Qed.

(** * Buffers *)

(** What a get delivers keeps the size of the caller's buffer. *)
Lemma deliver_size oc c val vlen buf out len :
  deliver oc c val vlen (Some buf) = Some (Some (Some out, len)) -> zlen out = zlen buf.
Proof.
  assert (Hcp : forall src n out, copy_out (Some buf) src n = Some (Some out) -> zlen out = zlen buf).
  { intros src n o. unfold copy_out, memcpy. destruct (slice src 0 n) as [s|]; [|discriminate]. cbn [mbind option_bind].
    destruct (blit buf 0 s) as [o'|] eqn:Eb; [|discriminate]. intros [= <-]. exact (blit_zlen _ _ _ _ Eb). }
  unfold deliver. case_decide.
  - destruct (lz4_decompress val vlen GARRY_MAX_RECORD_SIZE (oc_buf oc)) as [[[d|] dl]|]; [|discriminate|discriminate]. cbn [mbind option_bind].
    case_decide; [discriminate|]. destruct (copy_out (Some buf) d dl) as [[o|]|] eqn:Ec; try discriminate. intros [= <- <-]. by eapply Hcp.
  - destruct (copy_out (Some buf) val vlen) as [[o|]|] eqn:Ec; try discriminate. intros [= <- <-]. by eapply Hcp.
Qed.

(** Writing a NUL behind a value that a buffer starts with. *)
Lemma terminated (out v : list Z) n :
  slice out 0 n = Some v -> 0 <= n < zlen out -> n = zlen v -> slice (<[Z.to_nat n := 0]> out) 0 (n + 1) = Some (v ++ [0]).
Proof.
  intros Hs Hn Hz. apply slice_inv in Hs as (p & q & -> & Hp & _). destruct p; [|rewrite zlen_cons in Hp; pose proof (zlen_nonneg p); lia].
  cbn [app] in *. rewrite zlen_app in Hn. destruct q as [|x q]; [change (zlen (@nil Z)) with 0 in Hn; lia|].
  replace (Z.to_nat n) with (length v + 0)%nat by (unfold zlen in Hz; lia). rewrite insert_app_r. cbn [insert list_insert].
  rewrite (app_assoc v [0] q : v ++ 0 :: q = (v ++ [0]) ++ q). apply (slice_app [] (v ++ [0]) q); [done|]. rewrite zlen_app. subst n. done.
Qed.

(** * Properties *)

(** C14: [garry_for_each] calls the visitor once for every key with the prefix under
    which the transaction reads a value, in ascending order, with the key and that
    value, decompressed if the engine compresses, and passes the caller's data
    through; the store is as before.  Every value read can be decoded and fits the
    buffer of 16384 bytes, which the code does not check. *)
Theorem for_each_visits {U} (visitor : list Z -> Z -> list Z -> Z -> U -> option U) (visit : U -> list Z * list Z -> U)
    oc h n eng ts C m fp txn prefix plen P u
  (Hvisit : forall key klen value vlen k b u, slice key 0 klen = Some k -> slice value 0 vlen = Some b ->
    visitor key klen value vlen u = Some (visit u (k, b)))
  (Hs : can_scan oc h n eng ts C m fp txn) (Hp : prefix_arg prefix plen P)
  (Hpl : values_fit oc ts C txn eng GARRY_MAX_RECORD_SIZE) :
  exists eng' ps, garry_for_each visitor oc true true true (Some eng) txn prefix plen u = Some (Some eng', foldl visit u ps) /\
    stored h eng' ts C m fp /\ StronglySorted key_lt (map fst ps) /\
    forall k v, (k, v) ∈ ps <-> P `prefix_of` k /\ exists b, visible_value ts C txn k = Some b /\ decodes oc (e_compression eng) b v.
Proof.
  destruct (for_each_spec visitor visit Hvisit oc h n eng ts C m fp txn prefix plen P u Hs Hp Hpl) as (eng' & ps & E & Hs' & HF).
  destruct (shown_pairs_spec oc h eng ts C m fp txn P _ ps (sc_stored _ _ _ _ _ _ _ _ _ Hs) HF) as [H1 H2].
  exists eng', ps. split; [exact E|]. split; [exact Hs'|]. split; [exact H1|exact H2].
Qed.

(** C20: strings: after [garry_set_str] returns [GARRY_OK], [garry_get_str] in the same
    transaction returns [GARRY_OK] and the string with its NUL, given a buffer with
    room for both, whether values are compressed or not. *)
Theorem str_roundtrip oc h n eng ts C txn key value src len b mgr eng' buf size
  (Hset : can_store oc h n [] eng ts C txn (cstr key) (strlen key) key (cstr value) (strlen value) value src len b mgr)
  (Hcost : read_after h C key (e_page_size eng) len <= n) (Hdel : can_deliver oc eng (strlen value) buf)
  (Hsize : strlen value < size <= zlen buf)
  (E : garry_set_str oc (Some eng) txn (Some key) (Some value) = Some (Some eng', GARRY_OK)) :
  exists eng2 out, garry_get_str oc (Some eng') txn (Some key) (Some buf) size = Some (Some eng2, GARRY_OK, Some out) /\
    slice out 0 (strlen value + 1) = Some (cstr value).
Proof.
  unfold garry_set_str in E. case_decide as Hk; [discriminate E|]. case_decide as Hv; [discriminate E|]. unfold garry_set in E.
  destruct (garry_storage_set oc eng txn (cstr key) (strlen key) (Some (cstr value)) (strlen value)) as [[e ok]|] eqn:Eset; [|discriminate E].
  cbn [mbind option_bind] in E. destruct ok; [|discriminate E]. injection E as <-. pose proof (zlen_nonneg value). unfold strlen in *.
  destruct (reads_own_spec oc h n [] eng ts C txn (cstr key) (zlen key) key (cstr value) (zlen value) value src len b mgr e buf
    Hset Hcost Hdel Eset) as (eng2 & out & Eg & Hsl).
  assert (Hzo : zlen out = zlen buf).
  { revert Eg. unfold garry_storage_get. repeat case_decide; try discriminate. intros Eg.
    destruct (garry_txn_is_active txn e) as [[]|]; try discriminate Eg. cbn [mbind option_bind negb] in Eg.
    destruct (lookup_key _ e _ _) as [[e1 [lk|]]|]; try discriminate Eg. cbn [mbind option_bind] in Eg.
    destruct (garry_decode_cid_from_descriptor lk) as [cid|]; try discriminate Eg. cbn [mbind option_bind] in Eg.
    case_decide; [discriminate Eg|]. destruct (garry_mvcc_get (oc_read oc cid) e1 txn cid) as [[e2 [[v vl]|]]|]; try discriminate Eg. cbn [mbind option_bind] in Eg.
    destruct (deliver oc (e_compression e2) v vl (Some buf)) as [r|] eqn:Ed; [|discriminate Eg]. cbn [mbind option_bind] in Eg.
    injection Eg as _ ->. exact (deliver_size _ _ _ _ _ _ _ Ed). }
  unfold garry_get_str. rewrite decide_False by lia. unfold strlen. rewrite decide_False by exact Hk. unfold garry_get. rewrite Eg.
  cbn [mbind option_bind default]. unfold id. rewrite decide_False by lia. rewrite wr_Some by lia. cbn [mbind option_bind].
  do 2 eexists. split; [reflexivity|]. unfold cstr. apply (terminated out value (zlen value)); [exact Hsl|lia|done].
Qed.

(** [garry_get_str] does not respect the size it is given: when the value of the
    key is longer than the caller's buffer, the call writes behind the buffer. *)
Theorem get_str_overruns oc h n eng ts C m fp txn key buf size b
  (Hs : stored h eng ts C m fp) (Hr : ready (n + read_cost h C key) [] [] (e_pool eng)) (Hn : 0 <= n)
  (Hc : 1 < p_capacity (e_pool eng)) (Hk : key_arg (e_page_size eng) (cstr key) (strlen key) key) (Hf : (h < oc_fuel oc)%nat)
  (Hmr : reads_ok oc) (Hrun : running ts txn) (Hplain : e_compression eng <> GARRY_COMPRESS_LZ4) (Hsize : 0 < size)
  (Hv : visible_value ts C txn key = Some b) (Hlong : zlen buf < zlen b) :
  garry_get_str oc (Some eng) txn (Some key) (Some buf) size = None.
Proof.
  unfold garry_get_str. rewrite decide_False by lia. pose proof (ka_short _ _ _ _ Hk) as Hks. unfold GARRY_MAX_KEY_SIZE.
  rewrite decide_False by (unfold strlen; lia). unfold garry_get. rewrite (sd_page_size _ _ _ _ _ _ Hs) in Hk.
  destruct (storage_get_spec h eng ts C m fp oc n [] (cstr key) (strlen key) key txn (Some buf) Hs) as (p2 & _ & _ & E2); try done.
  rewrite E2, Hv. unfold deliver. rewrite decide_False by exact Hplain. unfold copy_out, memcpy.
  change (b ++ [0]) with ([] ++ b ++ [0]). rewrite (slice_app [] b [0]) by done. cbn [mbind option_bind].
  rewrite blit_None by lia. reflexivity.
Qed.

(** [garry_count] counts the keys inserted since the database was opened: a key that is
    committed is counted before the database is closed and not after it is opened
    again, where it still exists. *)
Theorem count_forgets_on_reopen :
  (r ← garry_database_create_with_config (sample_os new_file new_file) sample_mem true (Some sample_path) (Config 8 16384 4096 4 64 256 16 0 0);
   match r with Opened eng =>
   '(db, t) ← garry_txn_begin (Some eng);
   '(db, rc) ← garry_set_str sample_oc db t (Some [107]) (Some [118]);
   n1 ← garry_count db t;
   db ← garry_txn_commit true db t;
   files ← garry_database_close db;
   match files with Some (fd, wal) =>
   r ← garry_database_open (sample_os (reopened fd) (reopened (wl_fd wal))) sample_mem true sample_ocs (Some sample_path);
   match r with Opened eng =>
   '(db, t) ← garry_txn_begin (Some eng);
   n2 ← garry_count db t;
   '(db, found) ← garry_exists sample_oc db t [107] 1;
   Some (rc, n1, n2, found) | _ => None end | _ => None end | _ => None end) = Some (GARRY_OK, 1, 0, true).
Proof. vm_compute. reflexivity. Qed.

(** * Witnesses *)

Lemma sample_cstr ps : 512 <= ps -> key_arg ps (cstr [107]) (strlen [107]) [107].
Proof.
  intros Hp. destruct (sample_key ps 107 Hp) as [K1 K2 K3 K4 K5]; [unfold is_byte; lia|]. by split.
Qed.

(** Collecting the pairs. *)
Definition collect (key : list Z) (klen : Z) (value : list Z) (vlen : Z) (u : list (list Z * list Z))
  : option (list (list Z * list Z)) :=
  k ← slice key 0 klen; b ← slice value 0 vlen; Some (u ++ [(k, b)]).

Lemma for_each_visits_witness : exists eng' ps,
  garry_for_each collect sample_scan true true true (Some sample_stored) 5 None 0 [] = Some (Some eng', ps) /\
  ([107], sample_value) ∈ ps.
Proof.
  destruct sample_can_scan as (h & ts & c & pages & m & fp & Hs & _ & _ & _ & _ & _).
  assert (Hv : visible_value ts (<[ [107] := (c, [Cell 5 (Some sample_value) pages])]> ∅) 5 [107] = Some sample_value)
    by exact (visible_value_own ∅ ts [107] (c, []) 5 (Some sample_value) pages).
  set (C := <[ [107] := (c, [Cell 5 (Some sample_value) pages])]> ∅) in *.
  destruct (for_each_visits collect (fun u p => u ++ [p]) sample_scan h 10 sample_stored ts C m fp 5 None 0 [] [])
    as (eng' & ps & E & _ & _ & Hin).
  - intros key klen value vlen k b u Hk Hb. unfold collect. rewrite Hk, Hb. reflexivity.
  - exact Hs.
  - left. split; [reflexivity|]. split; reflexivity.
  - intros k b Hb. destruct (decide (k = [107])) as [->|Hne].
    + rewrite Hv in Hb. injection Hb as <-. exists sample_value. split; [exact sample_decodes|vm_compute; discriminate].
    + unfold visible_value, C in Hb. rewrite lookup_insert_ne in Hb by congruence. rewrite lookup_empty in Hb. discriminate Hb.
  - exists eng', ps. assert (Ef : forall (l u : list (list Z * list Z)), foldl (fun u p => u ++ [p]) u l = u ++ l).
    { clear. induction l as [|p l IH]; intros u; cbn [foldl]; [by rewrite app_nil_r|]. rewrite IH. by rewrite <- app_assoc. }
    rewrite Ef in E. split; [exact E|]. apply Hin. split; [apply prefix_nil|]. exists sample_value. split; [exact Hv|exact sample_decodes].
Defined.

Lemma sample_can_store_str :
  can_store sample_oc 0 100 [] sample_storage [sample_txn; sample_txn2] ∅ 5 (cstr [107]) (strlen [107]) [107]
    (cstr [103; 97]) (strlen [103; 97]) [103; 97] (cstr [103; 97]) 2 [103; 97] sample_locked.
Proof.
  destruct sample_storage_ok as (H1 & H2 & H3 & H4 & H5 & H6 & H7 & H8).
  split; rewrite ?H3, ?H4, ?H5, ?H6, ?H7, ?H8.
  - exact H1.
  - apply sample_running. by left.
  - vm_compute. split; congruence.
  - apply sample_cstr. lia.
  - reflexivity.
  - reflexivity.
  - split; [intros Hd; discriminate Hd|intros _; split; reflexivity|reflexivity|lia].
  - reflexivity.
  - eapply ready_le; [exact H2|]. vm_compute. split; discriminate.
  - lia.
  - vm_compute. discriminate.
  - vm_compute. discriminate.
  - vm_compute. split; congruence.
  - vm_compute. split; congruence.
  - split; [done|done|done|vm_compute; split; congruence].
  - done.
  - cbn. lia.
  - exact sample_malloc.
Qed.

Lemma sample_set_str : exists eng',
  garry_set_str sample_oc (Some sample_storage) 5 (Some [107]) (Some [103; 97]) = Some (Some eng', GARRY_OK).
Proof. eexists. vm_compute. reflexivity. Qed.

Lemma str_roundtrip_witness : exists eng' eng2 out,
  garry_set_str sample_oc (Some sample_storage) 5 (Some [107]) (Some [103; 97]) = Some (Some eng', GARRY_OK) /\
  garry_get_str sample_oc (Some eng') 5 (Some [107]) (Some (zeros 3)) 3 = Some (Some eng2, GARRY_OK, Some out) /\
  slice out 0 3 = Some [103; 97; 0].
Proof.
  destruct sample_storage_ok as (_ & _ & _ & _ & H5 & H6 & _). destruct sample_set_str as [eng' E].
  destruct (str_roundtrip sample_oc 0 100 sample_storage _ ∅ 5 [107] [103; 97] _ 2 _ _ eng' (zeros 3) 3 sample_can_store_str)
    as (eng2 & out & E2 & Hs).
  - rewrite H5. vm_compute. discriminate.
  - split; [vm_compute; discriminate|]. rewrite H6. intros Hd. discriminate Hd.
  - vm_compute. split; [reflexivity|discriminate].
  - exact E.
  - exists eng', eng2, out. split; [exact E|]. split; [exact E2|exact Hs].
Defined.

Lemma get_str_overruns_witness :
  garry_get_str sample_scan (Some sample_stored) 5 (Some [107]) (Some (zeros 10)) 10 = None.
Proof.
  destruct sample_can_scan as (h & ts & c & pages & m & fp & Hs & H1 & H2 & H3 & H4 & H5).
  pose proof (sample_read_cost h c pages H1 H2) as Hrc.
  assert (Hv : visible_value ts (<[ [107] := (c, [Cell 5 (Some sample_value) pages])]> ∅) 5 [107] = Some sample_value)
    by exact (visible_value_own ∅ ts [107] (c, []) 5 (Some sample_value) pages).
  apply (get_str_overruns sample_scan h 0 sample_stored ts _ m fp 5 [107] (zeros 10) 10 sample_value (sc_stored _ _ _ _ _ _ _ _ _ Hs)).
  - eapply ready_le; [exact H3|lia].
  - lia.
  - rewrite H4. reflexivity.
  - rewrite H5. apply sample_cstr. lia.
  - exact (sc_height _ _ _ _ _ _ _ _ _ Hs).
  - exact (sc_reads _ _ _ _ _ _ _ _ _ Hs).
  - exact (sc_running _ _ _ _ _ _ _ _ _ Hs).
  - vm_compute. discriminate.
  - lia.
  - exact Hv.
  - vm_compute. reflexivity.
Defined.
